(* ===== verification/_CoqProject ===== *)
-Q . S2P
Prelude.v
Protocol.v
Types.v
Reader.v
Events.v
PacketReader.v
EventLoop.v
Connection.v
Client.v
EventRequest.v
Api.v
TypeGraph.v
Resume.v
StopPoint.v
EventRing.v
MonitorClock.v
Suspensions.v
Traces.v
Session.v
Manager.v
Generics.v
ClassFile.v
Text.v
Condition.v
ConditionScan.v
Expr.v
Lexing.v
Literals.v
ExprGrammar.v
Host.v
EventPump.v
Steering.v
PumpFacts.v
TracedHits.v
ReportedHits.v
Watchdog.v
Honest.v
WatchdogFacts.v
Control.v
ControlFacts.v
Locate.v
Paths.v
Drift.v
Arming.v
Rearm.v
ClassLoads.v
Ledger.v
ControlBalance.v
ArmingFacts.v
ClassLoadFacts.v
Reading.v
ReadingFacts.v
TextArrays.v
Structures.v
StructureFacts.v
Rendering.v
RenderingFacts.v
Overloads.v
OverloadFacts.v
ExprText.v
Comparing.v
Scans.v
Resolve.v
ResolveFacts.v
Looking.v
LazyFacts.v
Families.v
ThreadListing.v
ThreadDump.v
DumpText.v
ThreadFacts.v
GroupFacts.v
DumpFacts.v
Snapshot.v
SnapshotFacts.v
Stacks.v
Writes.v
WriteFacts.v
Evaluate.v
Rewinding.v
