(* ===== verification/Prelude.v ===== *)
(** * A verification of the JDWP debugging server

    The repository is a Rust workspace of two crates. [jdwp-client] (src/jdwp-client/src) speaks the
    Java Debug Wire Protocol: it frames packets, runs an event loop that matches replies to callers,
    decodes composite events and offers one call per JDWP command. [mcp-server] (src/mcp-server/src)
    is the debugging server built on it: sessions, stop points, traces, and the tool handlers.

    ** The files, bottom up

    - [Prelude] (this file): machine integers, big-endian bytes, UTF-8 validation, hexadecimal
      formatting, [Result], bounded queues, hash-map and tree-map iteration, and the crate [bytes] as
      a parameter ([BytesCrate]).
    - [Protocol] (protocol.rs): packets, their headers, error codes and their text.
    - [Types] (types.rs, commands.rs): values, locations, their rendering, the protocol's constants.
    - [Reader] (reader.rs, the writers of eval.rs): the reader monad and every read; [Reads] relates a
      reader to the encoding it inverts.
    - [Events] (events.rs): composite events, their parser and their wire form.
    - [PacketReader] (eventloop.rs: read_packet, spawn_packet_reader): the socket is the class
      [AsyncRead]; the reader task is a function from a stream to what it yields.
    - [EventLoop] (eventloop.rs: event_loop_task and its handlers): a machine whose inputs say which
      branch of the loop fires and how each write and [try_send] ends; [reachable] is its step relation.
    - [Connection] (connection.rs): a connection's shared state [World], the read-only guard, packet
      ids, waves of independent reads, the type cache. What the loop and the debuggee do is the class
      [Debuggee], which has no law.
    - [Client] (eval.rs, extra.rs, string.rs, stackframe.rs, method.rs, object.rs, reftype.rs, vm.rs,
      thread.rs) and [EventRequest] (eventrequest.rs): one definition per call of the client.
    - [Api]: every call as data ([ApiCall]), sessions of calls, and what they may send.
    - [TypeGraph], [Resume]: what the cached reads, the supertype walk and [resume_all_fully] compute on
      a debuggee that answers from a fixed graph of types, or that counts its suspensions.
    - [StopPoint] (stop_point.rs), [EventRing], [MonitorClock], [Suspensions], [Traces], [Session] and
      [Manager] (session.rs): the bookkeeping of a debugging session, one file per structure.
    - [Generics] (generics.rs): generic signatures rendered as Java. [ClassFile] (classfile.rs): the
      class-file parser.
    - [Text]: strings as code points and bytes, trimming and prefixes, as the scanners of handlers.rs use
      them. [Condition] and [ConditionScan] (handlers.rs, the section on conditions): the parser of
      conditions, their evaluation over leaves that are a parameter, comparisons, bound names, the test
      for invocations. [Expr], [Lexing], [Literals], [ExprGrammar] (handlers.rs: parse_expr and what it
      calls): expressions, their literals and their grammar.
    - [Host]: a session at work, the state monad of every handler, and the operations on stop points the
      rest shares (disarm_request, disarm_everything). [EventPump] (try_record_trace,
      store_reportable_event): what a session does with an event set. [Steering] and [PumpFacts] run it
      symbolically; [TracedHits] and [ReportedHits] hold its theorems.
    - [Watchdog] (resume_and_verify, release_thread_suspends, spawn_watchdog) and [Control]
      (handle_continue, handle_step, handle_panic, handle_pause, handle_suspend_thread,
      handle_resume_thread): the tools that stop and resume. [Honest] is the debuggee that counts
      suspensions; [WatchdogFacts], [ControlFacts] and [ControlBalance] hold the theorems, the last behind
      [Ledger], which it uses for what [debug.panic] clears.
    - [Locate] (handlers.rs: class names, resolve_bp_location), [Paths] (resolve_class_file,
      find_under_roots; the file system is the class [Platform]) and [Drift]
      (drift_check_for_armed_method, build_declares_method): where a line is, and whether the build on
      disk is what runs. [Arming] (arm_and_insert, defer_breakpoint, arm_one_pattern), [Rearm]
      (handle_toggle_stop_point, handle_update_stop_point, handle_clear_stop_point) and [ClassLoads]
      (try_arm_deferred_breakpoints, spawn_event_listener): the life of a stop point. [Ledger] reads off
      a log the requests the debuggee holds and says who owns one; [ArmingFacts] and [ClassLoadFacts] hold the
      theorems, and at the end of the latter the runs in which a request or a copy is lost.
    - [Reading] (handlers.rs, value_reads.rs): fields and methods up the superclasses, the wave of first
      reads, boxed primitives, the state of a Hibernate proxy. [TextArrays]: byte and char arrays as text.
      [Structures]: maps and lists of the JDK read through their own fields. [Rendering]: values on one
      line and as trees. [Overloads]: choosing a method and converting arguments. [ExprText],
      [Comparing], [Scans] and [Resolve]: from a parsed expression to the value it names. The theorems are
      in [ReadingFacts], [StructureFacts], [RenderingFacts], [OverloadFacts], [ResolveFacts], [Looking]
      and [LazyFacts].
    - [Snapshot] (eval_condition_leaf, capture_trace, describe_event_into): what the event pump reads at a
      hit, the instance of its interface [Inspection]; [SnapshotFacts] shows it to be quiet.
    - [Families] (family_round_robin and its notes), [ThreadListing] (handle_list_threads), [ThreadDump]
      (collect_dump_rows and what it reads) and [DumpText] (render_thread_dump, handle_thread_dump): which
      threads a reply is about and what it says of them. [Families], [ThreadFacts], [GroupFacts] and
      [DumpFacts] hold the theorems.
    - [Stacks] (handle_get_stack, prefetch_stack, render_stack_frame): the stack of a thread with its
      variables; its theorems follow.
    - [Writes] (handle_set_value and what it calls): a target is split, a literal or a live value converted,
      and a local, a field or an element written; [WriteFacts] holds its theorems.
    - [Evaluate] (handle_evaluate, handle_evaluate_chain, walk_expression_chain): an expression evaluated at
      once or walked link by link, and the report of a walk.
    - [Rewinding] (handle_force_return, handle_pop_frame, handle_reload_class): the tools that change what runs,
      each by one command.

    ** Representation

    An integer of a Rust width is a [Z], with its range as [in_u] or [in_s] and its arithmetic wrapped
    ([wrap_u], [wrap_s]) or saturated where the code wraps or saturates; counters that the code
    increments with [+=] wrap. A byte string is a list of [Z]; a [String] is the Rocq string of its
    UTF-8 bytes; a floating-point value is its bit pattern. [Instant] and [Duration] are nanoseconds,
    and the current time is an argument. A [HashMap] is a [gmap]; where the code iterates one, the order
    is a parameter ([IterOrder]). Fallible code is in [result] or [option]; the client is in a state
    monad over [World], whose log records every packet offered to the wire. A session object shared by
    [Arc] is an address in a store. What a handler threads beside the connection, a cache, a budget or
    the notes on how a value was read, is a second component of the state. The decimal digits of a float
    ([FloatText]) or of a duration ([Millis]) and the tables of Unicode ([Lowercase]) are classes. A
    theorem that needs a debuggee which does not change while it is read says so ([constant]).

    ** What the theorems show

    Safety of the wire: a read-only connection never offers a packet that changes the debuggee, and
    each mutating call offers exactly one ([Api]); packet ids are consecutive ([Api]); every call is
    settled exactly once, by its own reply, by a cause the caller can see, or by the timeout
    ([EventLoop]); waves of reads keep their positions and their bound ([Connection]). Exactness of the
    codecs: packets, values, strings, events, arming requests and class files are read exactly as they are
    written, but for a method-exit request with an instance filter, read without it ([Protocol], [Reader],
    [Events], [PacketReader], [EventRequest], [ClassFile]); generic signatures of the JVMS are rendered as
    Java, and so are some strings that are none ([Generics]). Correctness of what is remembered: type information is read once, decided
    against the type graph and forgotten on redefinition ([TypeGraph]); suspensions are counted and
    undone exactly ([Resume], [Suspensions]); rings, buffers and clocks are bounded windows of unbounded
    specifications that account for everything they dropped ([EventRing], [Traces], [MonitorClock]);
    stop points, disarmed requests and sessions are tracked without loss or confusion ([Session],
    [Manager]). The text a user types: conditions and expressions are parsed exactly as their grammar
    says, and the places where they are not are stated ([Condition], [ConditionScan], [ExprGrammar],
    [Literals]). The events of the debuggee: a traced hit resumes its thread and nothing else, and is
    counted, filed and charged ([TracedHits]); a hit that suspends is kept and recorded, or dropped and
    released ([ReportedHits]). Stopping and resuming, against a debuggee that counts: the record of a
    session and the counts agree through the sequences of tools that resume only what the session holds, and
    panic clears on the wire all that the session owns and leaves nothing suspended within its eight resumes
    ([ControlBalance]), continue does what it reports ([ControlFacts]), and the watchdog frees what was left
    in a session that has seen a thread ([WatchdogFacts]). The life of a stop point: a line resolves to every copy of it ([Locate]); arming
    registers a stop point that owns exactly what was granted, or changes nothing ([ArmingFacts]); a class
    load arms the deferred stop points that are not turned down, and keeps every request owned and every stop
    point what it was ([ClassLoadFacts]); no file outside
    the roots is read ([Paths]), and the verdict on the build is decided by its line tables ([Drift]).
    Values: resolving and rendering change nothing in the debuggee but by calling methods, and without a
    thread not even that ([Looking]), nor does what a hit reads ([SnapshotFacts]); a
    HashMap walked through its fields answers what the map holds ([StructureFacts]); reads made ahead in a
    wave answer as reads one at a time would ([ReadingFacts]); a rendering keeps its budget and the byte
    array it shows can be read back ([RenderingFacts], [TextArrays]); a call gets values of the kinds
    its parameters have, or what boxing them answered ([OverloadFacts]); an unfetched association is not called ([LazyFacts]). Threads:
    the rows shown are chosen fairly and the rest is counted ([ThreadFacts]), equal rows are merged and no
    others ([GroupFacts]), and a dump leaves every suspension as it found it when the session holds no thread
    ([DumpFacts]). A stack read ahead in waves asks for the lines of each method once and is the stack read
    frame by frame, and unless objects are expanded it calls no method ([Stacks]). A write: what the target names is what is written, at most one value is stored, and a
    literal has the bytes of the type it is written to, but for a long or a string ([WriteFacts]).

    ** Fuel and bounds

    The supertype walk has the code's own bound of 500 steps, and its theorem says for which graphs that
    is enough. Superclasses are climbed at most 50 times, a bin of a map at most 4096 nodes, both the
    code's own guards. The resolver of expressions takes the length of its text ([resolve_equation]), the
    tree of a value the levels left to its depth limit, the descriptor of a method, the chunks of a table
    and the windows of a list their lengths. The reader task, the signature renderer and the constant-pool walk take as much fuel as
    their input is long; their theorems ([reader_task_exact], [type_complete], [class_parsed]) show that
    it is enough. The condition parser takes one more than the length of its text, the expression parser
    the length, and so do the loops inside them ([condition_parsed], [parse_expr_equation]). The search
    for a field has the code's own bound of 50 types. The rounds
    of the watchdog are an argument; [watchdog_frees] says how many are enough. Counters are shown exact
    under the hypothesis that fewer events occur than the counter can hold.

    ** What is not modelled

    Of handlers.rs: the JSON of calls and replies, attaching and launching, the replies of the tools
    that arm, arming a stop point other than a line stop, the report on one monitor, listing classes,
    members, instances and stop points, named queries and source files. The export of stop-point sets, the
    recorded reads of a trace, argument schemas, the reply envelope and the transport are
    not modelled. Opening sockets, spawning tasks and processes, and logging are input and output only.
    Clones of a connection used at the same time are not interleaved, a handler runs under the lock of
    its session and is one step, and so are the two lock sections of a session-manager method. *)

From Stdlib Require Export ZArith Lia Ascii.
From stdpp Require Export base tactics sorting option list gmap strings pretty numbers.

#[global] Open Scope string_scope.
#[global] Open Scope list_scope.
#[global] Open Scope Z_scope.
#[export] Set Default Goal Selector "!".

(** ** Notation and automation *)

Declare Scope jdwp_scope.
Delimit Scope jdwp_scope with jdwp.
#[global] Open Scope jdwp_scope.

(** String concatenation, as [format!] builds it. *)
Notation "a +s+ b" := (String.append a b) (at level 60, right associativity) : jdwp_scope.

(** Facts about machine integers and byte strings. *)
Create HintDb jdwp discriminated.
Create Rewrite HintDb jdwp.

(** Split every [if] and [match] of the goal on booleans and options, keeping the equations. *)
Ltac split_cases :=
  repeat (case_match; simplify_eq/=; try done).

(** One case per element of a membership hypothesis in a literal list. *)
Ltac each_member H :=
  repeat (apply elem_of_cons in H as [->|H]); [..|by apply elem_of_nil in H].

(** Settle a closed decidable proposition by evaluating its decision procedure. *)
Ltac by_compute :=
  match goal with |- ?P => apply (bool_decide_eq_true_1 P); vm_compute; reflexivity end.

(** Turn boolean comparisons of the context into propositions. *)
Ltac reflect_bools :=
  repeat match goal with
  | H : (_ && _) = true |- _ => apply andb_true_iff in H; destruct H
  | H : (_ || _) = false |- _ => apply orb_false_iff in H; destruct H
  | H : negb _ = true |- _ => apply negb_true_iff in H
  | H : negb _ = false |- _ => apply negb_false_iff in H
  | H : (_ <? _) = true |- _ => apply Z.ltb_lt in H
  | H : (_ <? _) = false |- _ => apply Z.ltb_ge in H
  | H : (_ <=? _) = true |- _ => apply Z.leb_le in H
  | H : (_ <=? _) = false |- _ => apply Z.leb_gt in H
  | H : (_ =? _) = true |- _ => apply Z.eqb_eq in H
  | H : (_ =? _) = false |- _ => apply Z.eqb_neq in H
  end.

(** ** Bytes and machine integers

    A byte is a [Z] in [0, 256); an unsigned [w]-bit integer is a [Z] in [0, 2^w); a signed one is a
    [Z] in [-2^(w-1), 2^(w-1)). Every range predicate is decidable. *)

Abbreviation bytes := (list Z).

Definition in_u (w x : Z) : Prop := 0 <= x < 2 ^ w.
Definition in_s (w x : Z) : Prop := - 2 ^ (w - 1) <= x < 2 ^ (w - 1).

Definition wrap_u (w x : Z) : Z := x mod 2 ^ w.
Definition wrap_s (w x : Z) : Z := (x + 2 ^ (w - 1)) mod 2 ^ w - 2 ^ (w - 1).

(** Saturating subtraction and addition on unsigned machine integers. *)
Definition sat_sub (a b : Z) : Z := Z.max 0 (a - b).
Definition sat_add_u (w a b : Z) : Z := Z.min (2 ^ w - 1) (a + b).

#[global] Instance in_u_dec w x : Decision (in_u w x).
Proof. unfold in_u. apply _. Defined.
#[global] Instance in_s_dec w x : Decision (in_s w x).
Proof. unfold in_s. apply _. Defined.

Definition bytes_ok (bs : bytes) : Prop := Forall (in_u 8) bs.
#[global] Instance bytes_ok_dec bs : Decision (bytes_ok bs).
Proof. unfold bytes_ok. apply _. Defined.

Lemma wrap_u_range w x : 0 <= w -> in_u w (wrap_u w x).
Proof. intros Hw. unfold in_u, wrap_u. apply Z.mod_pos_bound. by apply Z.pow_pos_nonneg. Qed.

Lemma wrap_u_id w x : in_u w x -> wrap_u w x = x.
Proof. apply Z.mod_small. Qed.

Lemma pow_half w : 0 < w -> 2 ^ w = 2 * 2 ^ (w - 1).
Proof. intros Hw. rewrite <- Z.pow_succ_r by lia. f_equal. lia. Qed.

Lemma wrap_s_range w x : 0 < w -> in_s w (wrap_s w x).
Proof.
  intros Hw. unfold in_s, wrap_s.
  pose proof (pow_half w Hw) as Hh.
  assert (0 < 2 ^ (w - 1)) by (apply Z.pow_pos_nonneg; lia).
  pose proof (Z.mod_pos_bound (x + 2 ^ (w - 1)) (2 ^ w)). lia.
Qed.

Lemma wrap_s_id w x : 0 < w -> in_s w x -> wrap_s w x = x.
Proof.
  intros Hw Hx. unfold in_s, wrap_s in *. pose proof (pow_half w Hw).
  rewrite Z.mod_small; lia.
Qed.

(** Reducing to the unsigned representation loses nothing of a signed integer. *)
Lemma wrap_s_wrap_u w x : 0 < w -> wrap_s w (wrap_u w x) = wrap_s w x.
Proof.
  intros Hw. unfold wrap_s, wrap_u.
  by rewrite Zplus_mod_idemp_l.
Qed.

(** ** Big-endian byte strings *)

Fixpoint be_bytes (n : nat) (x : Z) : bytes :=
  match n with
  | O => []
  | S m => (x / 256 ^ Z.of_nat m) mod 256 :: be_bytes m x
  end.

Definition be_val (bs : bytes) : Z := foldl (fun acc b => acc * 256 + b) 0 bs.

Lemma be_bytes_length n x : length (be_bytes n x) = n.
Proof. induction n; simpl; congruence. Qed.

Lemma be_bytes_ok n x : bytes_ok (be_bytes n x).
Proof.
  unfold bytes_ok. induction n; simpl; constructor; [|done].
  unfold in_u. apply Z.mod_pos_bound. lia.
Qed.

Lemma foldl_be_shift bs a :
  foldl (fun acc b => acc * 256 + b) a bs = a * 256 ^ Z.of_nat (length bs) + be_val bs.
Proof.
  unfold be_val. revert a. induction bs as [|b bs IH]; intros a; simpl foldl.
  { simpl. lia. }
  rewrite IH, (IH (0 * 256 + b)). cbn [length].
  rewrite Nat2Z.inj_succ, Z.pow_succ_r by lia. ring.
Qed.

Lemma be_val_cons b bs : be_val (b :: bs) = b * 256 ^ Z.of_nat (length bs) + be_val bs.
Proof. unfold be_val at 1. simpl foldl. rewrite foldl_be_shift. lia. Qed.

Lemma be_val_range bs : bytes_ok bs -> 0 <= be_val bs < 256 ^ Z.of_nat (length bs).
Proof.
  unfold bytes_ok. induction 1 as [|b bs Hb _ IH].
  { unfold be_val. simpl. lia. }
  rewrite be_val_cons. cbn [length]. rewrite Nat2Z.inj_succ, Z.pow_succ_r by lia.
  unfold in_u in Hb. nia.
Qed.

Lemma be_val_be_bytes n x : be_val (be_bytes n x) = x mod 256 ^ Z.of_nat n.
Proof.
  induction n as [|n IH].
  { unfold be_val. simpl. by rewrite Z.mod_1_r. }
  cbn [be_bytes]. rewrite be_val_cons, be_bytes_length, IH.
  rewrite Nat2Z.inj_succ, Z.pow_succ_r by lia.
  assert (0 < 256 ^ Z.of_nat n) by (apply Z.pow_pos_nonneg; lia).
  rewrite (Z.mul_comm 256), Z.rem_mul_r by lia. lia.
Qed.

Lemma be_bytes_wrap n x y :
  x mod 256 ^ Z.of_nat n = y mod 256 ^ Z.of_nat n -> be_bytes n x = be_bytes n y.
Proof.
  induction n as [|n IH]; intros H; [done|]. cbn [be_bytes].
  rewrite Nat2Z.inj_succ, Z.pow_succ_r in H by lia.
  assert (Hp : 0 < 256 ^ Z.of_nat n) by (apply Z.pow_pos_nonneg; lia).
  rewrite (Z.mul_comm 256), !Z.rem_mul_r in H by lia.
  pose proof (Z.mod_pos_bound x _ Hp). pose proof (Z.mod_pos_bound y _ Hp).
  pose proof (Z.mod_pos_bound (x / 256 ^ Z.of_nat n) 256 ltac:(lia)).
  pose proof (Z.mod_pos_bound (y / 256 ^ Z.of_nat n) 256 ltac:(lia)).
  assert ((x / 256 ^ Z.of_nat n) mod 256 = (y / 256 ^ Z.of_nat n) mod 256) by nia.
  f_equal; [done|]. apply IH. nia.
Qed.

Lemma be_bytes_be_val bs : bytes_ok bs -> be_bytes (length bs) (be_val bs) = bs.
Proof.
  unfold bytes_ok. induction 1 as [|b bs Hb Hbs IH]; [done|].
  cbn [length be_bytes]. pose proof (be_val_range bs Hbs) as Hr.
  rewrite be_val_cons. unfold in_u in Hb.
  assert (0 < 256 ^ Z.of_nat (length bs)) by (apply Z.pow_pos_nonneg; lia).
  rewrite Z.div_add_l, (Z.div_small (be_val bs)) by lia.
  rewrite Z.add_0_r, Z.mod_small by (change (2 ^ 8) with 256 in Hb; lia). f_equal.
  transitivity (be_bytes (length bs) (be_val bs)); [|done]. apply be_bytes_wrap.
  rewrite Z.add_comm, Z.mod_add by lia. done.
Qed.

(** ** Strings

    A Rust [String] is the Rocq [string] of its UTF-8 bytes. *)

Definition byte_of_ascii (a : ascii) : Z := Z.of_N (N_of_ascii a).
Definition ascii_of_byte (b : Z) : ascii := ascii_of_N (Z.to_N b).

Fixpoint bytes_of_string (s : string) : bytes :=
  match s with
  | EmptyString => []
  | String a s' => byte_of_ascii a :: bytes_of_string s'
  end.

Fixpoint string_of_bytes (bs : bytes) : string :=
  match bs with
  | [] => EmptyString
  | b :: bs' => String (ascii_of_byte b) (string_of_bytes bs')
  end.

Lemma byte_of_ascii_range a : in_u 8 (byte_of_ascii a).
Proof. unfold in_u, byte_of_ascii. pose proof (N_ascii_bounded a). lia. Qed.

Lemma bytes_of_string_ok s : bytes_ok (bytes_of_string s).
Proof. unfold bytes_ok. induction s; constructor; auto using byte_of_ascii_range. Qed.

Lemma string_of_bytes_of_string s : string_of_bytes (bytes_of_string s) = s.
Proof.
  induction s as [|a s IH]; simpl; [done|]. f_equal; [|done].
  unfold ascii_of_byte, byte_of_ascii. rewrite N2Z.id. apply ascii_N_embedding.
Qed.

Lemma bytes_of_string_of_bytes bs : bytes_ok bs -> bytes_of_string (string_of_bytes bs) = bs.
Proof.
  unfold bytes_ok. induction 1 as [|b bs Hb _ IH]; simpl; [done|]. f_equal; [|done].
  unfold ascii_of_byte, byte_of_ascii, in_u in *.
  rewrite N_ascii_embedding by (change (2 ^ 8) with 256 in Hb; lia). lia.
Qed.

Lemma bytes_of_string_inj s t : bytes_of_string s = bytes_of_string t -> s = t.
Proof.
  intros H. rewrite <- (string_of_bytes_of_string s), <- (string_of_bytes_of_string t).
  by rewrite H.
Qed.

Lemma bytes_of_string_app s t : bytes_of_string (s +s+ t) = bytes_of_string s ++ bytes_of_string t.
Proof. induction s as [|a s IH]; simpl; [done|]. by rewrite IH. Qed.

Lemma bytes_ok_take n bs : bytes_ok bs -> bytes_ok (take n bs).
Proof. apply Forall_take. Qed.
Lemma bytes_ok_drop n bs : bytes_ok bs -> bytes_ok (drop n bs).
Proof. apply Forall_drop. Qed.
Lemma bytes_ok_app bs cs : bytes_ok (bs ++ cs) <-> bytes_ok bs /\ bytes_ok cs.
Proof. apply Forall_app. Qed.

#[export] Hint Resolve bytes_ok_take bytes_ok_drop : jdwp.
#[export] Hint Resolve be_bytes_ok bytes_of_string_ok byte_of_ascii_range : jdwp.
#[export] Hint Rewrite be_bytes_length string_of_bytes_of_string : jdwp.

(** ** UTF-8 validation, as [String::from_utf8] performs it

    [utf8_check at bs] is [None] when [bs] is valid, and otherwise the index of the first byte of the
    offending sequence with the number of bytes to skip ([None] when the input ends inside it). *)

Definition is_cont (b : Z) : bool := (128 <=? b) && (b <=? 191).
Definition between (lo hi b : Z) : bool := (lo <=? b) && (b <=? hi).

(** The range the second byte must lie in, and how many continuation bytes follow it. *)
Definition utf8_lead (b0 : Z) : option (Z * Z * nat) :=
  if between 194 223 b0 then Some (128, 191, 0%nat)
  else if b0 =? 224 then Some (160, 191, 1%nat)
  else if between 225 236 b0 then Some (128, 191, 1%nat)
  else if b0 =? 237 then Some (128, 159, 1%nat)
  else if between 238 239 b0 then Some (128, 191, 1%nat)
  else if b0 =? 240 then Some (144, 191, 2%nat)
  else if between 241 243 b0 then Some (128, 191, 2%nat)
  else if b0 =? 244 then Some (128, 143, 2%nat)
  else None.

Fixpoint utf8_check (pos : Z) (bs : bytes) : option (Z * option Z) :=
  match bs with
  | [] => None
  | b0 :: r =>
    if b0 <? 128 then utf8_check (pos + 1) r else
    match utf8_lead b0 with
    | None => Some (pos, Some 1)
    | Some (lo, hi, more) =>
      match r with
      | [] => Some (pos, None)
      | b1 :: r1 =>
        if negb (between lo hi b1) then Some (pos, Some 1) else
        match more with
        | O => utf8_check (pos + 2) r1
        | S more' =>
          match r1 with
          | [] => Some (pos, None)
          | b2 :: r2 =>
            if negb (is_cont b2) then Some (pos, Some 2) else
            match more' with
            | O => utf8_check (pos + 3) r2
            | S _ =>
              match r2 with
              | [] => Some (pos, None)
              | b3 :: r3 => if negb (is_cont b3) then Some (pos, Some 3) else utf8_check (pos + 4) r3
              end
            end
          end
        end
      end
    end
  end.

Definition utf8_valid (bs : bytes) : bool := bool_decide (utf8_check 0 bs = None).

(** A string the program can hold: its bytes are UTF-8. *)
Definition is_string (s : string) : Prop := utf8_check 0 (bytes_of_string s) = None.
#[global] Instance is_string_dec s : Decision (is_string s).
Proof. unfold is_string. apply _. Defined.

(** [Display] of [Utf8Error]. *)
Definition show_utf8_error (e : Z * option Z) : string :=
  match e with
  | (pos, Some n) => "invalid utf-8 sequence of " +s+ pretty n +s+ " bytes from index " +s+ pretty pos
  | (pos, None) => "incomplete utf-8 byte sequence from index " +s+ pretty pos
  end.

(** ** Hexadecimal formatting: [{:x}], [{:02x}], [{:#x}], [{:04X}] *)

Definition hex_digit (upper : bool) (d : Z) : ascii :=
  ascii_of_byte (if d <? 10 then 48 + d else (if upper then 55 else 87) + d).

Fixpoint hex_digits (upper : bool) (n : nat) (x : Z) : string :=
  match n with
  | O => EmptyString
  | S m => hex_digits upper m (x / 16) +s+ String (hex_digit upper (x mod 16)) EmptyString
  end.

(** How many hexadecimal digits [x] needs; zero needs one. *)
Definition hex_len (x : Z) : nat := Z.to_nat (Z.max 1 (Z.log2 (Z.max 1 x) / 4 + 1)).

Definition show_hex (x : Z) : string := hex_digits false (hex_len x) x.
Definition show_hex_pad (upper : bool) (n : nat) (x : Z) : string :=
  hex_digits upper (Nat.max n (hex_len x)) x.

Lemma hex_digits_length u n x : length (bytes_of_string (hex_digits u n x)) = n.
Proof.
  revert x. induction n as [|n IH]; intros x; [done|]. cbn [hex_digits].
  rewrite bytes_of_string_app, length_app, IH. simpl. lia.
Qed.

Lemma hex_len_bound x : 0 <= x -> x < 16 ^ Z.of_nat (hex_len x).
Proof.
  intros Hx. unfold hex_len. pose proof (Z.log2_nonneg (Z.max 1 x)).
  rewrite Z2Nat.id by lia. change 16 with (2 ^ 4). rewrite <- Z.pow_mul_r by lia.
  destruct (Z.log2_spec (Z.max 1 x)) as [_ Hs]; [lia|].
  eapply Z.le_lt_trans; [|eapply Z.lt_le_trans; [exact Hs|]]; [lia|]. apply Z.pow_le_mono_r; [lia|].
  pose proof (Z.div_mod (Z.log2 (Z.max 1 x)) 4). pose proof (Z.mod_pos_bound (Z.log2 (Z.max 1 x)) 4). lia.
Qed.

Lemma byte_of_ascii_of_byte x : 0 <= x < 256 -> byte_of_ascii (ascii_of_byte x) = x.
Proof. intros Hx. unfold byte_of_ascii, ascii_of_byte. rewrite N_ascii_embedding; lia. Qed.

(** A double quote, which a string literal of this library never holds. *)
Definition dquote : string := String (ascii_of_byte 34) EmptyString.
Definition newline : string := String (ascii_of_byte 10) EmptyString.

(** ** Results

    [Result<A, E>], with the error type first so that [result E] is a monad. The notation
    [x ← r; k] is the source's [let x = r?; k]. *)

Inductive result (E A : Type) : Type :=
| Ok (a : A)
| Err (e : E).
Arguments Ok {E A} a.
Arguments Err {E A} e.

#[global] Instance result_ret {E} : MRet (result E) := fun _ a => Ok a.
#[global] Instance result_bind {E} : MBind (result E) :=
  fun _ _ k r => match r with Ok a => k a | Err e => Err e end.
#[global] Instance result_fmap {E} : FMap (result E) :=
  fun _ _ f r => match r with Ok a => Ok (f a) | Err e => Err e end.

Definition is_ok {E A} (r : result E A) : bool := match r with Ok _ => true | Err _ => false end.
(** [Result::ok] and [Result::unwrap_or]. *)
Definition ok_of {E A} (r : result E A) : option A := match r with Ok a => Some a | Err _ => None end.
Definition unwrap_or {E A} (d : A) (r : result E A) : A := match r with Ok a => a | Err _ => d end.
(** [Option::ok_or]. *)
Definition ok_or {E A} (e : E) (o : option A) : result E A :=
  match o with Some a => Ok a | None => Err e end.

#[global] Instance result_eq_dec {E A} `{EqDecision E, EqDecision A} : EqDecision (result E A).
Proof. solve_decision. Defined.

Lemma result_bind_ok {E A B} (r : result E A) (k : A -> result E B) b :
  (r ≫= k) = Ok b <-> exists a, r = Ok a /\ k a = Ok b.
Proof.
  destruct r as [a|e]; simpl.
  - split; [by exists a|]. by intros (a' & [= ->] & H).
  - split; [done|]. by intros (a' & ? & _).
Qed.

(** ** Lists and options *)

(** [true] when [o] holds a value ([Option::is_some]). *)
Definition is_some {A} (o : option A) : bool := match o with Some _ => true | None => false end.
(** [i32::from(bool)]. *)
Definition Z_of_bool (b : bool) : Z := if b then 1 else 0.

Lemma take_app_exact {A} (l k : list A) n : n = length l -> take n (l ++ k) = l.
Proof. intros ->. apply take_app_length. Qed.

Lemma drop_app_exact {A} (l k : list A) n : n = length l -> drop n (l ++ k) = k.
Proof. intros ->. apply drop_app_length. Qed.

(** The last [n] elements of a list. *)
Definition last_n {A} (n : nat) (l : list A) : list A := drop (length l - n) l.

Lemma last_n_length {A} n (l : list A) : length (last_n n l) = Nat.min n (length l).
Proof. unfold last_n. rewrite length_drop. lia. Qed.

Lemma last_n_last_n {A} n k (l : list A) : last_n n (last_n k l) = last_n (Nat.min n k) l.
Proof.
  unfold last_n. rewrite drop_drop, length_drop. f_equal.
  destruct (Nat.le_gt_cases n k); [rewrite (Nat.min_l n k) by lia|rewrite (Nat.min_r n k) by lia]; lia.
Qed.

(** A queue bounded by [n]: full, it drops its front before taking [x] at its back. *)
Definition push_bounded {A} (n : nat) (x : A) (l : list A) : list A :=
  (if (n <=? length l)%nat then tail l else l) ++ [x].

Lemma push_bounded_length {A} n (x : A) l :
  (0 < n)%nat -> (length l <= n)%nat -> (length (push_bounded n x l) <= n)%nat.
Proof.
  intros Hn Hl. unfold push_bounded. rewrite length_app. simpl.
  destruct (Nat.leb_spec n (length l)); destruct l; simpl in *; lia.
Qed.

Lemma push_bounded_last_n {A} n (x : A) l :
  (0 < n)%nat -> push_bounded n x (last_n n l) = last_n n (l ++ [x]).
Proof.
  intros Hn. unfold push_bounded. rewrite last_n_length. unfold last_n. rewrite length_app. simpl.
  destruct (Nat.leb_spec n (Nat.min n (length l))).
  - replace (tail (drop (length l - n) l)) with (drop (S (length l - n)) l) by (by rewrite <- Nat.add_1_r, <- drop_drop; destruct (drop (length l - n) l)). rewrite drop_app_le by lia. f_equal. f_equal. lia.
  - rewrite drop_app_le by lia. do 2 f_equal. lia.
Qed.

Lemma Forall_in {A} (P : A -> Prop) l x : Forall P l -> x ∈ l -> P x.
Proof. intros H. by rewrite list.Forall_forall in H; apply H. Qed.

(** ** Iteration over a [HashMap]

    A Rust [HashMap] iterates in an order of its own, which nothing may rely on: the order is a
    parameter, with the sole law that every entry is visited once. *)

Class IterOrder (K A : Type) `{Countable K} : Type := {
  iter : gmap K A -> list (K * A);
  iter_perm m : iter m ≡ₚ map_to_list m;
}.

(** One possible order. *)
Definition some_order {K A} `{Countable K} : IterOrder K A :=
  {| iter := map_to_list; iter_perm m := reflexivity _ |}.

(** [Iterator::min_by_key]: the first of the least elements. *)
Definition min_by_key {A} (f : A -> Z) (l : list A) : option A :=
  match l with
  | [] => None
  | x :: l => Some (foldl (fun m y => if f y <? f m then y else m) x l)
  end.

Lemma min_by_key_least {A} (f : A -> Z) l x :
  min_by_key f l = Some x -> x ∈ l /\ forall y, y ∈ l -> f x <= f y.
Proof.
  destruct l as [|a l]; [done|]. simpl. intros [= <-]. revert a.
  induction l as [|b l IH]; intros a; simpl.
  - split; [by left|]. by intros y ->%list_elem_of_singleton.
  - destruct (f b <? f a) eqn:E; reflect_bools; [destruct (IH b) as [Hin Hle]|destruct (IH a) as [Hin Hle]].
    + split; [by right|]. intros y [->|Hy]%elem_of_cons; [|by apply Hle].
      specialize (Hle b ltac:(by left)). lia.
    + split; [apply elem_of_cons in Hin as [->|Hin]; [by left|by do 2 right]|].
      intros y [->|[->|Hy]%elem_of_cons]%elem_of_cons;
        [apply Hle; by left|specialize (Hle a ltac:(by left)); lia|apply Hle; by right].
Qed.

(** The key of the entry with the least measure. *)
Definition oldest {K A} `{IterOrder K A} (f : A -> Z) (m : gmap K A) : option K :=
  fst <$> min_by_key (fun e => f (snd e)) (iter m).

Lemma oldest_least {K A} `{IterOrder K A} (f : A -> Z) (m : gmap K A) k :
  oldest f m = Some k -> exists a, m !! k = Some a /\ forall k' a', m !! k' = Some a' -> f a <= f a'.
Proof.
  unfold oldest. intros ((k0 & a) & [Hin Hle]%min_by_key_least & ->)%fmap_Some.
  exists a. rewrite iter_perm in Hin. apply elem_of_map_to_list in Hin. split; [done|].
  intros k' a' Hk'. apply (Hle (k', a')). by rewrite iter_perm, elem_of_map_to_list.
Qed.

Lemma oldest_some {K A} `{IterOrder K A} (f : A -> Z) (m : gmap K A) : m <> ∅ -> is_Some (oldest f m).
Proof.
  intros Hm. unfold oldest. destruct (iter m) as [|e l] eqn:E; [|simpl; eauto].
  exfalso. apply Hm, map_to_list_empty_iff, Permutation_nil_r. rewrite <- E. symmetry. apply iter_perm.
Qed.

(** A map bounded by [n] that evicts its oldest entry before taking a new one stays bounded. *)
Lemma size_evicted {K A} `{IterOrder K A} (f : A -> Z) (m : gmap K A) k :
  oldest f m = Some k -> size (delete k m) = (size m - 1)%nat.
Proof. intros (a & Ha & _)%oldest_least. rewrite map_size_delete, Ha. simpl. lia. Qed.

Lemma size_insert_le {K A} `{Countable K} (m : gmap K A) k a : (size (<[k:=a]> m) <= S (size m))%nat.
Proof. rewrite map_size_insert. destruct (m !! k); simpl; lia. Qed.

(** A [BTreeMap] keyed by integers iterates in key order. *)
Definition key_le {A} (a b : Z * A) : Prop := fst a <= fst b.
#[global] Instance key_le_dec {A} (a b : Z * A) : Decision (key_le a b) := decide (fst a <= fst b).
#[global] Instance key_le_total {A} : Total (@key_le A).
Proof. intros a b. unfold key_le. lia. Qed.
#[global] Instance key_le_trans {A} : Transitive (@key_le A).
Proof. intros a b c. unfold key_le. lia. Qed.

Definition btree_iter {A} (m : gmap Z A) : list (Z * A) := merge_sort key_le (map_to_list m).

Lemma elem_of_btree_iter {A} (m : gmap Z A) e : e ∈ btree_iter m <-> m !! fst e = Some (snd e).
Proof. unfold btree_iter. rewrite merge_sort_Permutation. destruct e. apply elem_of_map_to_list. Qed.

Lemma btree_iter_sorted {A} (m : gmap Z A) : StronglySorted key_le (btree_iter m).
Proof. apply StronglySorted_merge_sort; apply _. Qed.

(** ** Third-party byte buffers

    The crate [bytes] is not part of the repository. The model takes the operations the source calls
    as a parameter, with their documented behaviour (network byte order, fixed width) as laws:
    [get_be n] is [Buf::get_u8], [get_u16], [get_u32], [get_u64] and their signed and floating-point
    variants on a buffer that holds at least [n] bytes; [put_be n] is the [BufMut::put_*] of that
    width, which writes the two's complement representation of a negative argument. *)
Class BytesCrate : Type := {
  get_be : nat -> bytes -> Z;
  put_be : nat -> Z -> bytes;
  get_be_spec n bs : (n <= length bs)%nat -> get_be n bs = be_val (take n bs);
  put_be_spec n x : put_be n x = be_bytes n x;
}.

(** A concrete implementation, for evaluating the model. *)
Definition network_order : BytesCrate := {|
  get_be n bs := be_val (take n bs);
  put_be n x := be_bytes n x;
  get_be_spec n bs _ := eq_refl;
  put_be_spec n x := eq_refl
|}.

(** [u32::try_from(n).unwrap_or(u32::MAX)] and [i32::try_from(n).unwrap_or(i32::MAX)] on a length. *)
Definition u32_of_len (n : Z) : Z := if n <=? 2 ^ 32 - 1 then n else 2 ^ 32 - 1.
Definition i32_of_len (n : Z) : Z := if n <=? 2 ^ 31 - 1 then n else 2 ^ 31 - 1.
(** [Vec::len]. *)
Definition zlen {A} (l : list A) : Z := Z.of_nat (length l).

(** A filter depends on its predicate on the elements only. *)
Lemma filter_ext_in {A} (P Q : A -> Prop) {HP : forall x, Decision (P x)} {HQ : forall x, Decision (Q x)}
    (l : list A) :
  (forall x, x ∈ l -> P x <-> Q x) -> base.filter P l = base.filter Q l.
Proof.
  induction l as [|x l IH]; intros H1; [done|]. rewrite !filter_cons.
  specialize (IH (fun y Hy => H1 y ltac:(by right))). specialize (H1 x ltac:(by left)).
  rewrite IH. by repeat case_decide; tauto.
Qed.

Lemma zlen_cons {A} (a : A) l : zlen (a :: l) = 1 + zlen l.
Proof. unfold zlen. cbn [length]. lia. Qed.
Lemma zlen_app {A} (l k : list A) : zlen (l ++ k) = zlen l + zlen k.
Proof. unfold zlen. rewrite length_app. lia. Qed.

Section Codec.
Context `{BC : BytesCrate}.

Lemma put_be_length n x : length (put_be n x) = n.
Proof. rewrite put_be_spec. apply be_bytes_length. Qed.

Lemma put_be_ok n x : bytes_ok (put_be n x).
Proof. rewrite put_be_spec. apply be_bytes_ok. Qed.

Lemma get_put_be n x rest : get_be n (put_be n x ++ rest) = x mod 256 ^ Z.of_nat n.
Proof.
  rewrite get_be_spec by (rewrite length_app, put_be_length; lia).
  rewrite take_app_exact by (by rewrite put_be_length).
  rewrite put_be_spec. apply be_val_be_bytes.
Qed.

(** Only the first [n] bytes matter to a read of width [n]. *)
Lemma get_be_app n bs rest : (n <= length bs)%nat -> get_be n (bs ++ rest) = get_be n bs.
Proof.
  intros H. rewrite !get_be_spec by (rewrite ?length_app; lia).
  by rewrite take_app_le.
Qed.
End Codec.

#[export] Hint Resolve put_be_ok : jdwp.

