(* ===== verification/Protocol.v ===== *)
(** * The JDWP packet layer ([jdwp-client/src/protocol.rs])

    The error type every operation of the client returns, the command and reply packets, their wire
    form, and the table of JDWP error codes. *)

From S2P Require Import Prelude.

(** ** Errors *)

(** [JdwpError]. An [std::io::Error] is carried by its [Display] text. *)
Inductive JdwpError : Type :=
| Io (display : string)
| ProtocolError (message : string)
| InvalidHandshake
| JdwpErrorCode (code : Z) (name : string)
| ConnectionClosed (cause : string)
| NotJdwpFramed (why : string)
| ReplyTimeout (secs : Z)
| InvokeTimeout (ms : Z)
| ReadOnly (what : string).

#[global] Instance JdwpError_eq_dec : EqDecision JdwpError.
Proof. solve_decision. Defined.

Abbreviation JdwpResult := (result JdwpError).

(** [Display for JdwpError], from the [#[error(..)]] attributes. *)
Definition display_error (e : JdwpError) : string :=
  match e with
  | Io d => "IO error: " +s+ d
  | ProtocolError m => "Protocol error: " +s+ m
  | InvalidHandshake => "Invalid handshake"
  | JdwpErrorCode c n => "JDWP error code " +s+ pretty c +s+ ": " +s+ n
  | ConnectionClosed c => "connection to the debuggee closed: " +s+ c
  | NotJdwpFramed w => "the debuggee's stream is not JDWP-framed at this point: " +s+ w
  | ReplyTimeout s =>
    "no reply from the debuggee within " +s+ pretty s +s+
    "s (the connection is still open; the command was abandoned)"
  | InvokeTimeout ms =>
    "invocation did not return within " +s+ pretty ms +s+
    "ms — the debuggee thread is STILL INSIDE THE CALL and JDWP cannot cancel it (usually a monitor held by another thread). When the call does return the JVM re-suspends that thread, and nothing here clears that — the watchdog only resumes a suspended VM. Use debug.continue, or debug.resume_thread on it"
  | ReadOnly w => "read-only connection: refusing " +s+ w +s+ " in the debuggee"
  end.

(** ** Packets *)

Definition JDWP_HANDSHAKE : bytes := bytes_of_string "JDWP-Handshake".
Definition HEADER_SIZE : nat := 11.
Definition REPLY_FLAG : Z := 0x80.

Record CommandPacket : Type := {
  cp_id : Z;
  cp_command_set : Z;
  cp_command : Z;
  cp_data : bytes;
}.

Record ReplyPacket : Type := {
  rp_id : Z;
  rp_error_code : Z;
  rp_data : bytes;
}.

#[global] Instance CommandPacket_eq_dec : EqDecision CommandPacket.
Proof. solve_decision. Defined.
#[global] Instance ReplyPacket_eq_dec : EqDecision ReplyPacket.
Proof. solve_decision. Defined.

(** The field types of the structs: [u32], [u8], [u16] and byte vectors. *)
Definition command_packet_ok (p : CommandPacket) : Prop :=
  in_u 32 (cp_id p) /\ in_u 8 (cp_command_set p) /\ in_u 8 (cp_command p) /\ bytes_ok (cp_data p).
Definition reply_packet_ok (r : ReplyPacket) : Prop :=
  in_u 32 (rp_id r) /\ in_u 16 (rp_error_code r) /\ bytes_ok (rp_data r).

#[global] Instance command_packet_ok_dec p : Decision (command_packet_ok p).
Proof. unfold command_packet_ok. apply _. Defined.
#[global] Instance reply_packet_ok_dec p : Decision (reply_packet_ok p).
Proof. unfold reply_packet_ok. apply _. Defined.

(** [CommandPacket::new]. *)
Definition new_command (id set command : Z) : CommandPacket :=
  {| cp_id := id; cp_command_set := set; cp_command := command; cp_data := [] |}.

(** Appending to [packet.data]. *)
Definition with_data (p : CommandPacket) (body : bytes) : CommandPacket :=
  {| cp_id := cp_id p; cp_command_set := cp_command_set p; cp_command := cp_command p;
     cp_data := cp_data p ++ body |}.

(** ** Error codes *)

Definition ERR_ABSENT_INFORMATION : Z := 101.
Definition ERR_NOT_IMPLEMENTED : Z := 99.
Definition ERR_INVALID_OBJECT : Z := 20.
Definition ERR_INVALID_FRAMEID : Z := 30.

Definition ERROR_MESSAGES : list (Z * string) := [
  (0, "NONE");
  (10, "INVALID_THREAD");
  (11, "INVALID_THREAD_GROUP");
  (12, "INVALID_PRIORITY");
  (13, "THREAD_NOT_SUSPENDED");
  (14, "THREAD_SUSPENDED");
  (20, "INVALID_OBJECT");
  (21, "INVALID_CLASS");
  (22, "CLASS_NOT_PREPARED");
  (23, "INVALID_METHODID");
  (24, "INVALID_LOCATION");
  (25, "INVALID_FIELDID");
  (30, "INVALID_FRAMEID");
  (31, "NO_MORE_FRAMES");
  (32, "OPAQUE_FRAME");
  (33, "NOT_CURRENT_FRAME");
  (34, "TYPE_MISMATCH");
  (35, "INVALID_SLOT");
  (40, "DUPLICATE");
  (41, "NOT_FOUND");
  (50, "INVALID_MONITOR");
  (51, "NOT_MONITOR_OWNER");
  (52, "INTERRUPT");
  (60, "INVALID_CLASS_FORMAT");
  (61, "CIRCULAR_CLASS_DEFINITION");
  (62, "FAILS_VERIFICATION");
  (63, "ADD_METHOD_NOT_IMPLEMENTED");
  (64, "SCHEMA_CHANGE_NOT_IMPLEMENTED");
  (65, "INVALID_TYPESTATE");
  (66, "HIERARCHY_CHANGE_NOT_IMPLEMENTED");
  (67, "DELETE_METHOD_NOT_IMPLEMENTED");
  (68, "UNSUPPORTED_VERSION");
  (69, "NAMES_DONT_MATCH");
  (70, "CLASS_MODIFIERS_CHANGE_NOT_IMPLEMENTED");
  (71, "METHOD_MODIFIERS_CHANGE_NOT_IMPLEMENTED");
  (99, "NOT_IMPLEMENTED");
  (100, "NULL_POINTER");
  (101, "ABSENT_INFORMATION");
  (102, "INVALID_EVENT_TYPE");
  (103, "ILLEGAL_ARGUMENT");
  (110, "OUT_OF_MEMORY");
  (111, "ACCESS_DENIED");
  (112, "VM_DEAD");
  (113, "INTERNAL");
  (115, "UNATTACHED_THREAD");
  (500, "INVALID_TAG");
  (502, "ALREADY_INVOKING");
  (503, "INVALID_INDEX");
  (504, "INVALID_LENGTH");
  (506, "INVALID_STRING");
  (507, "INVALID_CLASS_LOADER");
  (508, "INVALID_ARRAY");
  (509, "TRANSPORT_LOAD");
  (510, "TRANSPORT_INIT");
  (511, "NATIVE_METHOD");
  (512, "INVALID_COUNT")
].

Definition is_error (r : ReplyPacket) : bool := negb (rp_error_code r =? 0).

Definition error_message (r : ReplyPacket) : string :=
  match find (fun e => fst e =? rp_error_code r) ERROR_MESSAGES with
  | Some (_, name) => name
  | None => "UNKNOWN_ERROR"
  end.

Definition check_error (r : ReplyPacket) : JdwpResult unit :=
  if is_error r then Err (JdwpErrorCode (rp_error_code r) (error_message r)) else Ok tt.

(** ** Wire form *)

Section Wire.
Context `{BC : BytesCrate}.

(** [CommandPacket::encode]. *)
Definition encode (p : CommandPacket) : bytes :=
  let length := Z.of_nat HEADER_SIZE + zlen (cp_data p) in
  put_be 4 (u32_of_len length) ++ put_be 4 (cp_id p) ++ put_be 1 0x00 ++
  put_be 1 (cp_command_set p) ++ put_be 1 (cp_command p) ++ cp_data p.

(** [ReplyPacket::decode]: the buffer starts at the packet's length field. *)
Definition decode (buf : bytes) : JdwpResult ReplyPacket :=
  if zlen buf <? Z.of_nat HEADER_SIZE then Err (ProtocolError "Reply packet too short") else
  let buf := drop 4 buf in
  let id := get_be 4 buf in
  let buf := drop 4 buf in
  let flags := get_be 1 buf in
  let buf := drop 1 buf in
  if negb (flags =? REPLY_FLAG) then
    Err (ProtocolError ("Invalid reply flag: 0x" +s+ show_hex flags))
  else
    Ok {| rp_id := id; rp_error_code := get_be 2 buf; rp_data := drop 2 buf |}.

(** Specification: how a JDWP peer frames a reply. *)
Definition frame_reply (r : ReplyPacket) : bytes :=
  be_bytes 4 (Z.of_nat HEADER_SIZE + zlen (rp_data r)) ++ be_bytes 4 (rp_id r) ++
  be_bytes 1 REPLY_FLAG ++ be_bytes 2 (rp_error_code r) ++ rp_data r.

Lemma get_be_ok n bs : (n <= length bs)%nat -> bytes_ok bs -> 0 <= get_be n bs < 256 ^ Z.of_nat n.
Proof.
  intros Hl Hok. rewrite get_be_spec by done.
  replace n with (length (take n bs)) at 3 by (rewrite length_take; lia).
  apply be_val_range. auto with jdwp.
Qed.

Lemma frame_reply_length r : length (frame_reply r) = (HEADER_SIZE + length (rp_data r))%nat.
Proof. unfold frame_reply. rewrite !length_app, !be_bytes_length. simpl. lia. Qed.

Lemma encode_length p : length (encode p) = (HEADER_SIZE + length (cp_data p))%nat.
Proof. unfold encode. rewrite !length_app, !put_be_length. simpl. lia. Qed.

(** A buffer of bytes is its first [n]-byte integer followed by the rest. *)
Lemma get_be_split n bs :
  (n <= length bs)%nat -> bytes_ok bs -> bs = be_bytes n (get_be n bs) ++ drop n bs.
Proof.
  intros Hl Hok. rewrite get_be_spec by done. rewrite <- (take_drop n bs) at 1. f_equal.
  replace n with (length (take n bs)) at 2 by (rewrite length_take; lia).
  rewrite be_bytes_be_val; auto with jdwp.
Qed.

(** Reading back an integer that is in range for the width read. *)
Lemma get_be_bytes n x rest :
  0 <= x < 256 ^ Z.of_nat n -> get_be n (be_bytes n x ++ rest) = x.
Proof. intros H. rewrite <- put_be_spec, get_put_be. by apply Z.mod_small. Qed.

Lemma drop_be_bytes n x rest : drop n (be_bytes n x ++ rest) = rest.
Proof. apply drop_app_exact. by rewrite be_bytes_length. Qed.

(** The body of [decode] on a buffer whose length field is [l]. *)
Lemma decode_frame l r :
  length l = 4%nat -> reply_packet_ok r -> decode (l ++ drop 4 (frame_reply r)) = Ok r.
Proof.
  intros Hl (Hid & Hec & _). unfold decode, frame_reply, in_u in *.
  rewrite drop_be_bytes, drop_app_exact by done.
  rewrite get_be_bytes, drop_be_bytes by lia.
  rewrite get_be_bytes, drop_be_bytes by (unfold REPLY_FLAG; lia).
  rewrite get_be_bytes, drop_be_bytes by lia.
  unfold zlen. rewrite !length_app, !be_bytes_length, Hl.
  rewrite (proj2 (Z.ltb_ge _ _)) by (unfold HEADER_SIZE; lia).
  rewrite Z.eqb_refl. by destruct r.
Qed.
End Wire.

#[export] Hint Rewrite @drop_be_bytes : jdwp.

Section Decode.
Context `{BC : BytesCrate}.

(** [ReplyPacket::decode] accepts exactly the buffers framed as a JDWP reply (whatever their
    length field holds), and returns the packet that was framed: it is an exact inverse of the
    framing, so a reply's id, error code and payload are never misread. *)
Theorem decode_iff_framed (buf : bytes) (r : ReplyPacket) :
  bytes_ok buf ->
  decode buf = Ok r <->
  reply_packet_ok r /\ exists l, length l = 4%nat /\ buf = l ++ drop 4 (frame_reply r).
Proof.
  intros Hok. split.
  - unfold decode, zlen, HEADER_SIZE. case_match eqn:Hlen; [done|]. reflect_bools.
    set (b1 := drop 4 buf). set (b2 := drop 4 b1). set (b3 := drop 1 b2).
    assert (O1 : bytes_ok b1) by (by apply bytes_ok_drop).
    assert (O2 : bytes_ok b2) by (by apply bytes_ok_drop).
    assert (O3 : bytes_ok b3) by (by apply bytes_ok_drop).
    assert (L1 : (7 <= length b1)%nat) by (subst b1; rewrite length_drop; lia).
    assert (L2 : (3 <= length b2)%nat) by (subst b2; rewrite length_drop; lia).
    assert (L3 : (2 <= length b3)%nat) by (subst b3; rewrite length_drop; lia).
    case_match eqn:Hf; [done|]. reflect_bools. intros [= <-].
    split; [split; [|split]; simpl|].
    + pose proof (get_be_ok 4 b1 ltac:(lia) O1). unfold in_u. lia.
    + pose proof (get_be_ok 2 b3 ltac:(lia) O3). unfold in_u. lia.
    + by apply bytes_ok_drop.
    + exists (take 4 buf). split; [rewrite length_take; lia|].
      unfold frame_reply. cbn [rp_id rp_error_code rp_data]. rewrite drop_be_bytes.
      rewrite <- (take_drop 4 buf) at 1. f_equal. fold b1.
      rewrite (get_be_split 4 b1) at 1 by (done || lia). f_equal. fold b2.
      rewrite (get_be_split 1 b2) at 1 by (done || lia). rewrite Hf. f_equal. fold b3.
      apply get_be_split; [lia|done].
  - intros [Hr (l & Hl & ->)]. by apply decode_frame.
Qed.
End Decode.

Lemma decode_iff_framed_witness :
  decode (BC := network_order) [0;0;0;13; 0;0;0;7; 0x80; 0;20; 1;2]
  = Ok {| rp_id := 7; rp_error_code := 20; rp_data := [1;2] |}.
Proof.
  apply (decode_iff_framed (BC := network_order)).
  - by_compute.
  - split; [by_compute|].
    exists [0;0;0;13]. split; reflexivity.
Defined.
