(* ===== verification/Types.v ===== *)
(** * JDWP value and location types ([jdwp-client/src/types.rs], the constants of [reader.rs] and
    [commands.rs])

    Identifiers are [u64] and are kept as [Z]; a [f32] or [f64] is its IEEE 754 bit pattern, which is
    what crosses the wire. *)

From S2P Require Import Prelude Protocol.

Abbreviation ObjectId := Z.
Abbreviation ThreadId := Z.
Abbreviation ReferenceTypeId := Z.
Abbreviation ClassId := Z.
Abbreviation MethodId := Z.
Abbreviation FieldId := Z.
Abbreviation FrameId := Z.

Record Location : Type := {
  loc_type_tag : Z;
  loc_class_id : ReferenceTypeId;
  loc_method_id : MethodId;
  loc_index : Z;
}.

#[global] Instance Location_eq_dec : EqDecision Location.
Proof. solve_decision. Defined.

Definition location_ok (l : Location) : Prop :=
  in_u 8 (loc_type_tag l) /\ in_u 64 (loc_class_id l) /\ in_u 64 (loc_method_id l) /\ in_u 64 (loc_index l).
#[global] Instance location_ok_dec l : Decision (location_ok l).
Proof. unfold location_ok. apply _. Defined.

(** ** Values *)

Inductive ValueData : Type :=
| VByte (v : Z)
| VChar (v : Z)
| VFloat (bits : Z)
| VDouble (bits : Z)
| VInt (v : Z)
| VLong (v : Z)
| VShort (v : Z)
| VBoolean (v : bool)
| VObject (id : ObjectId)
| VVoid.

Record Value : Type := {
  val_tag : Z;
  val_data : ValueData;
}.

#[global] Instance ValueData_eq_dec : EqDecision ValueData.
Proof. solve_decision. Defined.
#[global] Instance Value_eq_dec : EqDecision Value.
Proof. solve_decision. Defined.

(** The range of each variant's payload. *)
Definition value_data_ok (d : ValueData) : Prop :=
  match d with
  | VByte v => in_s 8 v
  | VChar v => in_u 16 v
  | VFloat b => in_u 32 b
  | VDouble b => in_u 64 b
  | VInt v => in_s 32 v
  | VLong v => in_s 64 v
  | VShort v => in_s 16 v
  | VObject id => in_u 64 id
  | VBoolean _ | VVoid => True
  end.
#[global] Instance value_data_ok_dec d : Decision (value_data_ok d).
Proof. destruct d; simpl; apply _. Defined.

(** [reader::value_tags]: the ASCII codes of the JNI signature characters. *)
Module value_tags.
Definition BYTE := 66.
Definition CHAR := 67.
Definition OBJECT := 76.
Definition FLOAT := 70.
Definition DOUBLE := 68.
Definition INT := 73.
Definition LONG := 74.
Definition SHORT := 83.
Definition VOID := 86.
Definition BOOLEAN := 90.
Definition STRING := 115.
Definition THREAD := 116.
Definition THREAD_GROUP := 103.
Definition CLASS_LOADER := 108.
Definition CLASS_OBJECT := 99.
Definition ARRAY := 91.
End value_tags.

Record Variable_ : Type := {
  var_code_index : Z;
  var_name : string;
  var_signature : string;
  var_generic_signature : option string;
  var_length : Z;
  var_slot : Z;
}.
#[global] Instance Variable_eq_dec : EqDecision Variable_.
Proof. solve_decision. Defined.

(** ** Rendering *)

(** [char::from_u32]: [None] for a surrogate or an out-of-range code point. *)
Definition char_from_u32 (u : Z) : option Z :=
  if between 0xD800 0xDFFF u || (0x10FFFF <? u) then None else Some u.

(** The UTF-8 form of a character. *)
Definition encode_utf8 (c : Z) : bytes :=
  if c <? 0x80 then [c]
  else if c <? 0x800 then [0xC0 + c / 64; 0x80 + c mod 64]
  else if c <? 0x10000 then [0xE0 + c / 4096; 0x80 + (c / 64) mod 64; 0x80 + c mod 64]
  else [0xF0 + c / 262144; 0x80 + (c / 4096) mod 64; 0x80 + (c / 64) mod 64; 0x80 + c mod 64].

Definition format_char (unit : Z) : string :=
  match char_from_u32 unit with
  | None => "(char) '\u" +s+ show_hex_pad true 4 unit +s+ "' (unpaired surrogate, not a character)"
  | Some c => "(char) '" +s+ string_of_bytes (encode_utf8 c) +s+ "'"
  end.

Definition show_bool (b : bool) : string := if b then "true" else "false".

Section Format.
(** [Display] of [f32] and [f64]: the shortest decimal that reads back as the same bits. *)
Variable show_f32 show_f64 : Z -> string.

Definition format_primitive (d : ValueData) : option string :=
  match d with
  | VByte v => Some ("(byte) " +s+ pretty v)
  | VChar v => Some (format_char v)
  | VFloat v => Some ("(float) " +s+ show_f32 v)
  | VDouble v => Some ("(double) " +s+ show_f64 v)
  | VInt v => Some ("(int) " +s+ pretty v)
  | VLong v => Some ("(long) " +s+ pretty v)
  | VShort v => Some ("(short) " +s+ pretty v)
  | VBoolean v => Some ("(boolean) " +s+ show_bool v)
  | VVoid => Some "(void)"
  | VObject _ => None
  end.

Definition format (v : Value) : string :=
  match val_data v with
  | VObject id => if id =? 0 then "(object) null" else "(object) @" +s+ show_hex id
  | primitive => match format_primitive primitive with Some s => s | None => "" end
  end.
End Format.

(** The constructors of [extra.rs]. *)
Definition value_int (v : Z) : Value := {| val_tag := 73; val_data := VInt v |}.
Definition value_long (v : Z) : Value := {| val_tag := 74; val_data := VLong v |}.
Definition value_bool (v : bool) : Value := {| val_tag := 90; val_data := VBoolean v |}.
Definition value_float (v : Z) : Value := {| val_tag := 70; val_data := VFloat v |}.
Definition value_double (v : Z) : Value := {| val_tag := 68; val_data := VDouble v |}.
Definition value_char (v : Z) : Value := {| val_tag := 67; val_data := VChar v |}.
Definition value_null : Value := {| val_tag := 76; val_data := VObject 0 |}.
Definition value_object (id : ObjectId) : Value := {| val_tag := 76; val_data := VObject id |}.

(** ** [commands.rs]: the numbers of the specification that the client sends *)

Module command_sets.
Definition VIRTUAL_MACHINE := 1.
Definition REFERENCE_TYPE := 2.
Definition CLASS_TYPE := 3.
Definition METHOD := 6.
Definition OBJECT_REFERENCE := 9.
Definition STRING_REFERENCE := 10.
Definition THREAD_REFERENCE := 11.
Definition THREAD_GROUP_REFERENCE := 12.
Definition ARRAY_REFERENCE := 13.
Definition EVENT_REQUEST := 15.
Definition STACK_FRAME := 16.
End command_sets.

Module vm_commands.
Definition VERSION := 1.
Definition CLASSES_BY_SIGNATURE := 2.
Definition ALL_CLASSES := 3.
Definition ALL_THREADS := 4.
Definition DISPOSE := 6.
Definition SUSPEND := 8.
Definition RESUME := 9.
Definition CREATE_STRING := 11.
Definition CAPABILITIES := 12.
Definition CAPABILITIES_NEW := 17.
Definition REDEFINE_CLASSES := 18.
Definition INSTANCE_COUNTS := 21.
End vm_commands.

Module reference_type_commands.
Definition SIGNATURE := 1.
Definition CLASS_LOADER := 2.
Definition MODIFIERS := 3.
Definition FIELDS := 4.
Definition METHODS := 5.
Definition GET_VALUES := 6.
Definition SOURCE_FILE := 7.
Definition INTERFACES := 10.
Definition SOURCE_DEBUG_EXTENSION := 12.
Definition FIELDS_WITH_GENERIC := 14.
Definition METHODS_WITH_GENERIC := 15.
Definition INSTANCES := 16.
End reference_type_commands.

Module method_commands.
Definition LINE_TABLE := 1.
Definition VARIABLE_TABLE := 2.
Definition BYTECODES := 3.
Definition VARIABLE_TABLE_WITH_GENERIC := 5.
End method_commands.

Module thread_commands.
Definition NAME := 1.
Definition SUSPEND := 2.
Definition RESUME := 3.
Definition STATUS := 4.
Definition FRAMES := 6.
Definition OWNED_MONITORS := 8.
Definition CURRENT_CONTENDED_MONITOR := 9.
Definition SUSPEND_COUNT := 12.
Definition FORCE_EARLY_RETURN := 14.
End thread_commands.

Module event_commands.
Definition SET := 1.
Definition CLEAR := 2.
Definition CLEAR_ALL_BREAKPOINTS := 3.
End event_commands.

Module string_reference_commands.
Definition VALUE := 1.
End string_reference_commands.

Module object_reference_commands.
Definition REFERENCE_TYPE := 1.
Definition GET_VALUES := 2.
Definition SET_VALUES := 3.
Definition INVOKE_METHOD := 6.
Definition IS_COLLECTED := 9.
End object_reference_commands.

Module stack_frame_commands.
Definition GET_VALUES := 1.
Definition SET_VALUES := 2.
Definition THIS_OBJECT := 3.
Definition POP_FRAMES := 4.
End stack_frame_commands.

Module event_kinds.
Definition SINGLE_STEP := 1.
Definition BREAKPOINT := 2.
Definition EXCEPTION := 4.
Definition THREAD_START := 6.
Definition THREAD_DEATH := 7.
Definition CLASS_PREPARE := 8.
Definition FIELD_ACCESS := 20.
Definition FIELD_MODIFICATION := 21.
Definition METHOD_EXIT := 41.
Definition METHOD_EXIT_WITH_RETURN_VALUE := 42.
Definition MONITOR_CONTENDED_ENTER := 43.
Definition MONITOR_CONTENDED_ENTERED := 44.
Definition MONITOR_WAIT := 45.
Definition MONITOR_WAITED := 46.
Definition VM_START := 90.
Definition VM_DEATH := 99.
End event_kinds.

Module step_sizes.
Definition LINE := 1.
End step_sizes.

Module step_depths.
Definition INTO := 0.
Definition OVER := 1.
Definition OUT := 2.
End step_depths.
