(* ===== verification/Reader.v ===== *)
(** * Reading and writing wire values ([reader.rs], and the value writers of [eval.rs])

    A reader takes the unread part of the reply and returns a result with what is left unread, also
    on an error: the source threads one [&mut &[u8]] through every read. The class [WireReader] is
    what a reader promises to the parsers built from it, and every parser of the crate is an instance
    by composition. *)

From S2P Require Import Prelude Protocol Types.

Definition Reader (A : Type) : Type := bytes -> JdwpResult A * bytes.

#[global] Instance reader_ret : MRet Reader := fun _ a bs => (Ok a, bs).
#[global] Instance reader_bind : MBind Reader := fun _ _ k r bs =>
  match r bs with
  | (Ok a, rest) => k a rest
  | (Err e, rest) => (Err e, rest)
  end.
Definition read_fail {A} (e : JdwpError) : Reader A := fun bs => (Err e, bs).

(** Run a reader on a reply's payload and drop the rest, as every decoder does with its local cursor. *)
Definition run_reader {A} (r : Reader A) (data : bytes) : JdwpResult A := fst (r data).

(** [for _ in 0..n { out.push(read()?) }]: nothing is read for [n <= 0]. *)
Fixpoint read_times {A} (n : nat) (r : Reader A) : Reader (list A) :=
  match n with
  | O => mret []
  | S m => x ← r; xs ← read_times m r; mret (x :: xs)
  end.
Definition read_count {A} (n : Z) (r : Reader A) : Reader (list A) := read_times (Z.to_nat n) r.

Section Readers.
Context `{BC : BytesCrate}.

Definition ensure (n : Z) (what : string) : Reader unit := fun buf =>
  if zlen buf <? n then
    (Err (ProtocolError ("Not enough data for " +s+ what +s+ ": need " +s+ pretty n +s+
                         " byte(s), have " +s+ pretty (zlen buf))), buf)
  else (Ok tt, buf).

(** [buf.get_u8()] and the wider ones: infallible once [ensure] has checked the length. *)
Definition get_uint (n : nat) : Reader Z := fun buf => (Ok (get_be n buf), drop n buf).
Definition get_sint (n : nat) : Reader Z := fun buf =>
  (Ok (wrap_s (8 * Z.of_nat n) (get_be n buf)), drop n buf).

Definition value_width (tag : Z) : JdwpResult nat :=
  if tag =? value_tags.VOID then Ok 0%nat
  else if (tag =? value_tags.BYTE) || (tag =? value_tags.BOOLEAN) then Ok 1%nat
  else if (tag =? value_tags.CHAR) || (tag =? value_tags.SHORT) then Ok 2%nat
  else if (tag =? value_tags.FLOAT) || (tag =? value_tags.INT) then Ok 4%nat
  else if (tag =? value_tags.DOUBLE) || (tag =? value_tags.LONG) || (tag =? value_tags.OBJECT)
       || (tag =? value_tags.STRING) || (tag =? value_tags.THREAD)
       || (tag =? value_tags.THREAD_GROUP) || (tag =? value_tags.CLASS_LOADER)
       || (tag =? value_tags.CLASS_OBJECT) || (tag =? value_tags.ARRAY) then Ok 8%nat
  else Err (ProtocolError ("Unknown value tag: " +s+ pretty tag)).

Definition read_value_by_tag (tag : Z) : Reader ValueData := fun buf =>
  match value_width tag with
  | Err e => (Err e, buf)
  | Ok width =>
    (_ ← ensure (Z.of_nat width) "value";
     if tag =? value_tags.BYTE then v ← get_sint 1; mret (VByte v)
     else if tag =? value_tags.CHAR then v ← get_uint 2; mret (VChar v)
     else if tag =? value_tags.DOUBLE then v ← get_uint 8; mret (VDouble v)
     else if tag =? value_tags.FLOAT then v ← get_uint 4; mret (VFloat v)
     else if tag =? value_tags.INT then v ← get_sint 4; mret (VInt v)
     else if tag =? value_tags.LONG then v ← get_sint 8; mret (VLong v)
     else if tag =? value_tags.SHORT then v ← get_sint 2; mret (VShort v)
     else if tag =? value_tags.BOOLEAN then v ← get_uint 1; mret (VBoolean (negb (v =? 0)))
     else if tag =? value_tags.VOID then mret VVoid
     else v ← get_uint 8; mret (VObject v) : Reader ValueData) buf
  end.

(** The bytes of the body, taken with a checked slice. *)
Definition take_body (len : Z) : Reader bytes := fun buf =>
  if zlen buf <? len
  then (Err (ProtocolError "String shorter than its length prefix"), buf)
  else (Ok (take (Z.to_nat len) buf), drop (Z.to_nat len) buf).

Definition read_string : Reader string :=
  _ ← ensure 4 "string length";
  n ← get_uint 4;
  _ ← ensure n "string body";
  body ← take_body n;
  match utf8_check 0 body with
  | None => mret (string_of_bytes body)
  | Some e => read_fail (ProtocolError ("Invalid UTF-8 in string: " +s+ show_utf8_error e))
  end.

Definition read_u32 : Reader Z := _ ← ensure 4 "u32"; get_uint 4.
Definition read_i32 : Reader Z := _ ← ensure 4 "i32"; get_sint 4.
Definition read_u8 : Reader Z := _ ← ensure 1 "u8"; get_uint 1.
Definition read_u64 : Reader Z := _ ← ensure 8 "u64"; get_uint 8.
Definition read_i64 : Reader Z := _ ← ensure 8 "i64"; get_sint 8.

Definition some_if_present (s : string) : option string :=
  if String.eqb s "" then None else Some s.

(** A tagged value: one tag byte, then the value of that tag. *)
Definition read_tagged_value : Reader Value :=
  tag ← read_u8;
  data ← read_value_by_tag tag;
  mret {| val_tag := tag; val_data := data |}.

(** ** Writers *)

Definition write_untagged_value (v : Value) : bytes :=
  match val_data v with
  | VByte x => put_be 1 x
  | VChar x => put_be 2 x
  | VFloat x => put_be 4 x
  | VDouble x => put_be 8 x
  | VInt x => put_be 4 x
  | VLong x => put_be 8 x
  | VShort x => put_be 2 x
  | VBoolean x => put_be 1 (Z_of_bool x)
  | VObject x => put_be 8 x
  | VVoid => []
  end.

Definition write_tagged_value (v : Value) : bytes := put_be 1 (val_tag v) ++ write_untagged_value v.

(** [write_jdwp_string], and the same three lines written out in the request builders. *)
Definition write_jdwp_string (s : string) : bytes :=
  put_be 4 (u32_of_len (zlen (bytes_of_string s))) ++ bytes_of_string s.
End Readers.

(** ** The interface of a wire reader *)

(** [Reads r enc a]: [r] reads exactly the bytes [enc], wherever they stand, and returns [a]. *)
Definition Reads {A} (r : Reader A) (enc : bytes) (a : A) : Prop :=
  forall rest, r (enc ++ rest) = (Ok a, rest).

(** A reader that returns [a] has read a definite prefix of its input, which alone determines the
    result, and it fails on every shorter input: parsing cannot run past a value or stop inside one. *)
Class WireReader {A} (r : Reader A) : Prop :=
  wire_reader bs a rest : r bs = (Ok a, rest) ->
    exists enc, bs = enc ++ rest /\ Reads r enc a /\
    forall p q, enc = p ++ q -> q <> [] -> is_ok (fst (r p)) = false.

Lemma Reads_ret {A} (a : A) : Reads (mret a) [] a.
Proof. done. Qed.

Lemma Reads_bind {A B} (r : Reader A) (k : A -> Reader B) e1 e2 a b :
  Reads r e1 a -> Reads (k a) e2 b -> Reads (r ≫= k) (e1 ++ e2) b.
Proof.
  intros H1 H2 rest. unfold mbind, reader_bind. rewrite <- (assoc_L (++)), H1. apply H2.
Qed.

(** The last read of a sequence needs no trailing empty encoding. *)
Lemma Reads_bind_ret {A B} (r : Reader A) (k : A -> Reader B) e a b :
  Reads r e a -> k a = mret b -> Reads (r ≫= k) e b.
Proof. intros H1 H2 rest. unfold mbind, reader_bind. by rewrite H1, H2. Qed.

Lemma Reads_times {A} (r : Reader A) (enc : A -> bytes) l :
  Forall (fun a => Reads r (enc a) a) l -> Reads (read_times (length l) r) (concat (map enc l)) l.
Proof.
  induction 1 as [|a l Ha _ IH]; simpl; [done|].
  eapply Reads_bind; [done|]. eapply Reads_bind_ret; done.
Qed.

Lemma Reads_count {A} (r : Reader A) (enc : A -> bytes) l :
  Forall (fun a => Reads r (enc a) a) l ->
  Reads (read_count (zlen l) r) (concat (map enc l)) l.
Proof. unfold read_count, zlen. rewrite Nat2Z.id. apply Reads_times. Qed.

Lemma run_reader_reads {A} (r : Reader A) enc rest a : Reads r enc a -> run_reader r (enc ++ rest) = Ok a.
Proof. intros H. unfold run_reader. by rewrite H. Qed.

#[global] Instance WireReader_ret {A} (a : A) : WireReader (mret a).
Proof.
  intros bs a' rest [= <- <-]. exists []. split; [done|]. split; [done|].
  intros p q Hpq Hq. destruct p, q; done.
Qed.

#[global] Instance WireReader_fail {A} e : WireReader (read_fail e : Reader A).
Proof. by intros bs a' rest [=]. Qed.

#[global] Instance WireReader_bind {A B} (r : Reader A) (k : A -> Reader B) :
  WireReader r -> (forall a, WireReader (k a)) -> WireReader (r ≫= k).
Proof.
  intros Hr Hk bs b rest H. unfold mbind, reader_bind in H.
  destruct (r bs) as [[a|e] mid] eqn:E1; [|done].
  destruct (Hr _ _ _ E1) as (e1 & -> & R1 & P1).
  destruct (Hk a _ _ _ H) as (e2 & -> & R2 & P2).
  exists (e1 ++ e2). rewrite (assoc_L (++)). split; [done|]. split; [by eapply Reads_bind|].
  intros p q Hpq Hq. unfold mbind, reader_bind.
  symmetry in Hpq. apply app_eq_inv in Hpq as [(l & -> & ->)|(l & -> & ->)].
  - rewrite R1. by eapply P2.
  - destruct l as [|x l].
    + rewrite app_nil_r in R1. rewrite <- (app_nil_r p), R1. by eapply (P2 [] e2).
    + specialize (P1 p (x :: l) eq_refl ltac:(done)). by destruct (r p) as [[]].
Qed.

#[global] Instance WireReader_if {A} (b : bool) (r1 r2 : Reader A) :
  WireReader r1 -> WireReader r2 -> WireReader (if b then r1 else r2).
Proof. by destruct b. Qed.

#[global] Instance WireReader_times {A} n (r : Reader A) : WireReader r -> WireReader (read_times n r).
Proof. intros Hr. induction n; simpl; apply _. Qed.

#[global] Instance WireReader_count {A} n (r : Reader A) : WireReader r -> WireReader (read_count n r).
Proof. unfold read_count. apply _. Qed.

(** A reader of fixed width that fails without consuming anything when the input is shorter. *)
Lemma WireReader_fixed {A} (n : nat) (r : Reader A) :
  (forall bs, (length bs < n)%nat -> is_ok (fst (r bs)) = false) ->
  (forall bs, (n <= length bs)%nat ->
     exists o, (forall rest, r (take n bs ++ rest) = (o, rest)) /\ r bs = (o, drop n bs)) ->
  WireReader r.
Proof.
  intros Hshort Hlong bs a rest H.
  destruct (decide (length bs < n)%nat) as [Hl|Hl].
  { specialize (Hshort bs Hl). by rewrite H in Hshort. }
  destruct (Hlong bs ltac:(lia)) as (o & Ho & Hbs). rewrite Hbs in H. injection H as -> <-.
  exists (take n bs). rewrite take_drop. split; [done|]. split; [done|].
  intros p q Hpq Hq. apply Hshort.
  apply (f_equal length) in Hpq. rewrite length_app, length_take in Hpq.
  destruct q; [done|]. simpl in Hpq. lia.
Qed.

Section ReaderFacts.
Context `{BC : BytesCrate}.

Lemma ensure_ok n what bs : n <= zlen bs -> ensure n what bs = (Ok tt, bs).
Proof. intros H. unfold ensure. by rewrite (proj2 (Z.ltb_ge _ _)) by lia. Qed.

Lemma ensure_err n what bs : zlen bs < n -> exists e, ensure n what bs = (Err e, bs).
Proof. intros H. unfold ensure. rewrite (proj2 (Z.ltb_lt _ _)) by lia. eauto. Qed.

Lemma pow256 n : 256 ^ Z.of_nat n = 2 ^ (8 * Z.of_nat n).
Proof. rewrite Z.pow_mul_r by lia. done. Qed.

Lemma get_uint_reads n x : in_u (8 * Z.of_nat n) x -> Reads (get_uint n) (put_be n x) x.
Proof.
  intros Hx rest. unfold get_uint. rewrite get_put_be, drop_app_exact by (by rewrite put_be_length).
  rewrite pow256, Z.mod_small by done. done.
Qed.

Lemma get_sint_reads n x :
  (0 < n)%nat -> in_s (8 * Z.of_nat n) x -> Reads (get_sint n) (put_be n x) x.
Proof.
  intros Hn Hx rest. unfold get_sint.
  rewrite get_put_be, drop_app_exact by (by rewrite put_be_length).
  change (x mod 256 ^ Z.of_nat n) with (x mod (256 ^ Z.of_nat n)).
  rewrite pow256. fold (wrap_u (8 * Z.of_nat n) x).
  rewrite wrap_s_wrap_u, wrap_s_id by (done || lia). done.
Qed.

(** [ensure n] followed by a read of [n] bytes. *)
Lemma ensure_reads {A} n what (r : Reader A) enc a :
  zlen enc = n -> Reads r enc a -> Reads (_ ← ensure n what; r) enc a.
Proof.
  intros Hn Hr rest. unfold mbind, reader_bind.
  rewrite ensure_ok by (unfold zlen in *; rewrite length_app; lia). apply Hr.
Qed.

Lemma zlen_put_be n x : zlen (put_be n x) = Z.of_nat n.
Proof. unfold zlen. by rewrite put_be_length. Qed.

Lemma read_u8_reads x : in_u 8 x -> Reads read_u8 (put_be 1 x) x.
Proof. intros. by apply ensure_reads; [apply zlen_put_be|apply get_uint_reads]. Qed.
Lemma read_u32_reads x : in_u 32 x -> Reads read_u32 (put_be 4 x) x.
Proof. intros. by apply ensure_reads; [apply zlen_put_be|apply get_uint_reads]. Qed.
Lemma read_u64_reads x : in_u 64 x -> Reads read_u64 (put_be 8 x) x.
Proof. intros. by apply ensure_reads; [apply zlen_put_be|apply get_uint_reads]. Qed.
Lemma read_i32_reads x : in_s 32 x -> Reads read_i32 (put_be 4 x) x.
Proof. intros. apply ensure_reads; [apply zlen_put_be|apply get_sint_reads]; [lia|done]. Qed.
Lemma read_i64_reads x : in_s 64 x -> Reads read_i64 (put_be 8 x) x.
Proof. intros. apply ensure_reads; [apply zlen_put_be|apply get_sint_reads]; [lia|done]. Qed.

Lemma read_string_reads s :
  is_string s -> zlen (bytes_of_string s) < 2 ^ 32 -> Reads read_string (write_jdwp_string s) s.
Proof.
  intros Hu Hl. unfold read_string, write_jdwp_string, u32_of_len.
  rewrite (proj2 (Z.leb_le _ _)) by lia.
  set (bs := bytes_of_string s) in *.
  assert (Hn : in_u 32 (zlen bs)) by (unfold in_u, zlen in *; lia).
  intros rest. unfold mbind at 1, reader_bind at 1.
  rewrite ensure_ok by (unfold zlen; rewrite !length_app, put_be_length; lia).
  unfold mbind at 1, reader_bind at 1. rewrite <- (assoc_L (++)), get_uint_reads by done.
  unfold mbind at 1, reader_bind at 1. rewrite ensure_ok by (unfold zlen; rewrite length_app; lia).
  unfold mbind, reader_bind, take_body. unfold zlen at 1. rewrite length_app.
  rewrite (proj2 (Z.ltb_ge _ _)) by (unfold zlen; lia).
  rewrite take_app_exact, drop_app_exact by (unfold zlen; lia).
  subst bs. unfold is_string in Hu. rewrite Hu, string_of_bytes_of_string. done.
Qed.

(** A fixed-width read behind its bounds check. *)
Lemma WireReader_ensure_get {A} n what (f : bytes -> A) :
  (forall bs rest, (n <= length bs)%nat -> f (take n bs ++ rest) = f bs) ->
  WireReader (_ ← ensure (Z.of_nat n) what; (fun buf => (Ok (f buf), drop n buf)) : Reader A).
Proof.
  intros Hf. apply (WireReader_fixed n).
  - intros bs Hl. unfold mbind, reader_bind.
    destruct (ensure_err (Z.of_nat n) what bs) as [e He]; [unfold zlen; lia|]. by rewrite He.
  - intros bs Hl. exists (Ok (f bs)). unfold mbind, reader_bind. split.
    + intros rest. rewrite ensure_ok by (unfold zlen; rewrite length_app, length_take; lia).
      rewrite Hf, drop_app_exact by (rewrite ?length_take; lia). done.
    + by rewrite ensure_ok by (unfold zlen; lia).
Qed.

Lemma get_be_take n bs rest : (n <= length bs)%nat -> get_be n (take n bs ++ rest) = get_be n bs.
Proof.
  intros H. rewrite get_be_app by (rewrite length_take; lia).
  rewrite <- (take_drop n bs) at 2. by rewrite get_be_app by (rewrite length_take; lia).
Qed.

#[global] Instance WireReader_u8 : WireReader read_u8.
Proof. apply (WireReader_ensure_get 1). apply get_be_take. Qed.
#[global] Instance WireReader_u32 : WireReader read_u32.
Proof. apply (WireReader_ensure_get 4). apply get_be_take. Qed.
#[global] Instance WireReader_u64 : WireReader read_u64.
Proof. apply (WireReader_ensure_get 8). apply get_be_take. Qed.
#[global] Instance WireReader_i32 : WireReader read_i32.
Proof. apply (WireReader_ensure_get 4). intros. by rewrite get_be_take. Qed.
#[global] Instance WireReader_i64 : WireReader read_i64.
Proof. apply (WireReader_ensure_get 8). intros. by rewrite get_be_take. Qed.
End ReaderFacts.

#[export] Hint Rewrite @zlen_put_be : jdwp.

(** ** Values *)

(** Which variant a tag announces. *)
Definition tag_fits (tag : Z) (d : ValueData) : bool :=
  match d with
  | VByte _ => tag =? value_tags.BYTE
  | VChar _ => tag =? value_tags.CHAR
  | VFloat _ => tag =? value_tags.FLOAT
  | VDouble _ => tag =? value_tags.DOUBLE
  | VInt _ => tag =? value_tags.INT
  | VLong _ => tag =? value_tags.LONG
  | VShort _ => tag =? value_tags.SHORT
  | VBoolean _ => tag =? value_tags.BOOLEAN
  | VVoid => tag =? value_tags.VOID
  | VObject _ => bool_decide (tag ∈ [value_tags.OBJECT; value_tags.STRING; value_tags.THREAD;
      value_tags.THREAD_GROUP; value_tags.CLASS_LOADER; value_tags.CLASS_OBJECT; value_tags.ARRAY])
  end.

(** A value the wire can carry: its payload in range and announced by its tag. *)
Definition value_ok (v : Value) : Prop :=
  in_u 8 (val_tag v) /\ value_data_ok (val_data v) /\ tag_fits (val_tag v) (val_data v) = true.
#[global] Instance value_ok_dec v : Decision (value_ok v).
Proof. unfold value_ok. apply _. Defined.

(** Case analysis on the sixteen known tags and the unknown ones. *)
Lemma value_tag_ind (P : Z -> Prop) :
  P 86 -> P 66 -> P 90 -> P 67 -> P 83 -> P 70 -> P 73 -> P 68 -> P 74 ->
  (forall tag, tag ∈ [76; 115; 116; 103; 108; 99; 91] -> P tag) ->
  (forall tag, value_width tag = Err (ProtocolError ("Unknown value tag: " +s+ pretty tag)) -> P tag) ->
  forall tag, P tag.
Proof.
  intros H86 H66 H90 H67 H83 H70 H73 H68 H74 Hobj Hun tag.
  destruct (decide (tag ∈ [86; 66; 90; 67; 83; 70; 73; 68; 74])) as [Hin|Hin].
  { by each_member Hin. }
  destruct (decide (tag ∈ [76; 115; 116; 103; 108; 99; 91])) as [Ho|Ho]; [by apply Hobj|].
  apply Hun. rewrite !not_elem_of_cons in Hin. rewrite !not_elem_of_cons in Ho. unfold value_width.
  destruct_and!.
  repeat match goal with
  | |- context [tag =? ?c] => rewrite (proj2 (Z.eqb_neq tag c)) by assumption; cbn [orb]
  end. reflexivity.
Qed.

Section ValueFacts.
Context `{BC : BytesCrate}.

(** The payload a buffer of sufficient length holds for a known tag. *)
Definition value_at (tag : Z) (buf : bytes) : ValueData :=
  if tag =? 66 then VByte (wrap_s 8 (get_be 1 buf))
  else if tag =? 67 then VChar (get_be 2 buf)
  else if tag =? 68 then VDouble (get_be 8 buf)
  else if tag =? 70 then VFloat (get_be 4 buf)
  else if tag =? 73 then VInt (wrap_s 32 (get_be 4 buf))
  else if tag =? 74 then VLong (wrap_s 64 (get_be 8 buf))
  else if tag =? 83 then VShort (wrap_s 16 (get_be 2 buf))
  else if tag =? 90 then VBoolean (negb (get_be 1 buf =? 0))
  else if tag =? 86 then VVoid
  else VObject (get_be 8 buf).

(** The reader is its width check followed by a fixed-width read. *)
Lemma read_value_unfold tag w buf :
  value_width tag = Ok w ->
  read_value_by_tag tag buf =
  (_ ← ensure (Z.of_nat w) "value"; (fun b => (Ok (value_at tag b), drop w b)) : Reader ValueData) buf.
Proof.
  induction tag as [ | | | | | | | | |tag Hin|tag ->] using value_tag_ind; [intros [= <-]; reflexivity..| |done].
  each_member Hin; intros [= <-]; reflexivity.
Qed.

Lemma value_at_app tag w bs rest :
  value_width tag = Ok w -> (w <= length bs)%nat -> value_at tag (take w bs ++ rest) = value_at tag bs.
Proof.
  induction tag as [ | | | | | | | | |tag Hin|tag ->] using value_tag_ind;
    [intros [= <-] Hl; unfold value_at; simpl; rewrite ?get_be_take by done; done..| |done].
  each_member Hin; intros [= <-] Hl; unfold value_at; simpl; by rewrite get_be_take.
Qed.

#[global] Instance WireReader_value tag : WireReader (read_value_by_tag tag).
Proof.
  destruct (value_width tag) as [w|e] eqn:Hw.
  - intros bs a rest. rewrite (read_value_unfold _ w) by done. intros H.
    destruct (WireReader_ensure_get w "value" (value_at tag) (fun bs rest => value_at_app tag w bs rest Hw)
      _ _ _ H) as (enc & -> & HR & HP).
    exists enc. split; [done|]. split.
    + intros rest'. rewrite (read_value_unfold _ w) by done. apply HR.
    + intros p q Hpq Hq. rewrite (read_value_unfold _ w) by done. by apply (HP p q).
  - intros bs a rest. unfold read_value_by_tag. by rewrite Hw.
Qed.

Lemma value_in_object_tags tag :
  bool_decide (tag ∈ [76; 115; 116; 103; 108; 99; 91]) = true -> value_width tag = Ok 8%nat.
Proof.
  rewrite bool_decide_eq_true. intros Hin. by each_member Hin.
Qed.

Lemma value_reads tag d :
  value_data_ok d -> tag_fits tag d = true ->
  Reads (read_value_by_tag tag) (write_untagged_value {| val_tag := tag; val_data := d |}) d.
Proof.
  intros Hd Ht rest. unfold write_untagged_value; cbn [val_data].
  destruct d; simpl in Ht; reflect_bools; subst;
    try (erewrite read_value_unfold by reflexivity; unfold mbind, reader_bind;
         rewrite ensure_ok by (unfold zlen; rewrite ?length_app, ?put_be_length; simpl; lia);
         unfold value_at; simpl; rewrite ?get_put_be, ?drop_app_exact by (by rewrite ?put_be_length)).
  - change (v mod 256 ^ Z.of_nat 1) with (wrap_u 8 v). by rewrite wrap_s_wrap_u, wrap_s_id.
  - change (256 ^ Z.of_nat 2) with (2 ^ 16). by rewrite Z.mod_small.
  - change (256 ^ Z.of_nat 4) with (2 ^ 32). by rewrite Z.mod_small.
  - change (256 ^ Z.of_nat 8) with (2 ^ 64). by rewrite Z.mod_small.
  - change (v mod 256 ^ Z.of_nat 4) with (wrap_u 32 v). by rewrite wrap_s_wrap_u, wrap_s_id.
  - change (v mod 256 ^ Z.of_nat 8) with (wrap_u 64 v). by rewrite wrap_s_wrap_u, wrap_s_id.
  - change (v mod 256 ^ Z.of_nat 2) with (wrap_u 16 v). by rewrite wrap_s_wrap_u, wrap_s_id.
  - by destruct v.
  - rewrite (read_value_unfold _ 8) by (by apply value_in_object_tags).
    unfold mbind, reader_bind.
    rewrite ensure_ok by (unfold zlen; rewrite length_app, put_be_length; lia).
    rewrite drop_app_exact by (by rewrite put_be_length).
    apply bool_decide_eq_true in Ht. each_member Ht; unfold value_at; simpl; rewrite get_put_be;
      change (256 ^ Z.of_nat 8) with (2 ^ 64); by rewrite Z.mod_small.
  - done.
Qed.

Lemma tagged_value_reads v : value_ok v -> Reads read_tagged_value (write_tagged_value v) v.
Proof.
  intros (Ht & Hd & Hf). unfold read_tagged_value, write_tagged_value. destruct v as [tag d].
  eapply Reads_bind; [by apply read_u8_reads|].
  eapply Reads_bind_ret; [by apply value_reads|done].
Qed.
End ValueFacts.

Lemma WireReader_ext {A} (r r' : Reader A) : (forall bs, r bs = r' bs) -> WireReader r -> WireReader r'.
Proof.
  intros Heq Hr bs a rest H. rewrite <- Heq in H. destruct (Hr _ _ _ H) as (enc & -> & HR & HP).
  exists enc. split; [done|]. split.
  - intros rest'. rewrite <- Heq. apply HR.
  - intros p q ??. rewrite <- Heq. by eapply HP.
Qed.

Lemma reader_bind_assoc {A B C} (r : Reader A) (k : A -> Reader B) (h : B -> Reader C) bs :
  ((r ≫= k : Reader B) ≫= h : Reader C) bs = (r ≫= (fun a => k a ≫= h) : Reader C) bs.
Proof. unfold mbind, reader_bind. by destruct (r bs) as [[] ?]. Qed.

Section StringFacts.
Context `{BC : BytesCrate}.

(** The body of a string of announced length [n]. *)
Definition read_body (n : Z) : Reader string :=
  _ ← ensure n "string body";
  body ← take_body n;
  match utf8_check 0 body with
  | None => mret (string_of_bytes body)
  | Some e => read_fail (ProtocolError ("Invalid UTF-8 in string: " +s+ show_utf8_error e))
  end.

Lemma read_string_unfold bs :
  read_string bs = ((_ ← ensure 4 "string length"; get_uint 4 : Reader Z) ≫= read_body : Reader string) bs.
Proof. by rewrite reader_bind_assoc. Qed.

Lemma read_body_long n bs :
  0 <= n <= zlen bs ->
  read_body n bs =
  (match utf8_check 0 (take (Z.to_nat n) bs) with
   | None => Ok (string_of_bytes (take (Z.to_nat n) bs))
   | Some e => Err (ProtocolError ("Invalid UTF-8 in string: " +s+ show_utf8_error e))
   end, drop (Z.to_nat n) bs).
Proof.
  intros [Hn Hl]. unfold read_body, mbind, reader_bind, take_body.
  rewrite ensure_ok, (proj2 (Z.ltb_ge _ _)) by lia. by case_match.
Qed.

Lemma read_body_short n bs : zlen bs < n -> exists e, read_body n bs = (Err e, bs).
Proof.
  intros Hl. unfold read_body, mbind at 1, reader_bind.
  destruct (ensure_err n "string body" bs Hl) as [e ->]. eauto.
Qed.

Lemma WireReader_body n : 0 <= n -> WireReader (read_body n).
Proof.
  intros Hn. apply (WireReader_fixed (Z.to_nat n)).
  - intros bs Hl. destruct (read_body_short n bs) as [e ->]; [unfold zlen; lia|done].
  - intros bs Hl. rewrite read_body_long by (unfold zlen; lia). eexists. split; [|done].
    intros rest. rewrite read_body_long by (unfold zlen; rewrite length_app, length_take; lia).
    rewrite take_app_exact, drop_app_exact by (rewrite length_take; lia). done.
Qed.

(** A length prefix is never negative, so its body is a wire reader too. *)
Lemma WireReader_body_any n : WireReader (read_body n).
Proof.
  destruct (decide (0 <= n)) as [Hn|Hn]; [by apply WireReader_body|].
  (* a negative announced length reads an empty body *)
  apply (WireReader_ext (read_body 0)); [|apply WireReader_body; lia].
  intros bs. rewrite read_body_long by (unfold zlen; lia).
  unfold read_body, mbind, reader_bind, take_body.
  rewrite ensure_ok, (proj2 (Z.ltb_ge _ _)) by (unfold zlen; lia).
  replace (Z.to_nat n) with (Z.to_nat 0) by lia. done.
Qed.

#[global] Instance WireReader_string : WireReader read_string.
Proof.
  apply (WireReader_ext ((_ ← ensure 4 "string length"; get_uint 4 : Reader Z) ≫= read_body)).
  { intros bs. by rewrite read_string_unfold. }
  apply WireReader_bind; [|apply WireReader_body_any].
  apply (WireReader_ensure_get 4). apply get_be_take.
Qed.

(** [read_string] accepts exactly the strings the client writes: it returns [s] and leaves
    [rest] if and only if the buffer is the length-prefixed encoding of [s], a valid UTF-8 string
    shorter than 2^32 bytes, followed by [rest]. *)
Theorem read_string_exact (buf : bytes) (s : string) (rest : bytes) :
  bytes_ok buf ->
  read_string buf = (Ok s, rest) <->
  is_string s /\ zlen (bytes_of_string s) < 2 ^ 32 /\ buf = write_jdwp_string s ++ rest.
Proof.
  intros Hok. split.
  2: { intros (Hs & Hl & ->). by apply read_string_reads. }
  rewrite read_string_unfold. unfold mbind at 1, reader_bind at 1, mbind at 1, reader_bind at 1.
  destruct (decide (4 <= zlen buf)) as [H4|H4].
  2: { destruct (ensure_err 4 "string length" buf) as [e ->]; [lia|done]. }
  rewrite ensure_ok by done. unfold get_uint.
  pose proof (get_be_ok 4 buf ltac:(unfold zlen in H4; lia) Hok) as Hn.
  set (n := get_be 4 buf) in *.
  destruct (decide (n <= zlen (drop 4 buf))) as [Hb|Hb].
  2: { destruct (read_body_short n (drop 4 buf)) as [e ->]; [lia|done]. }
  rewrite read_body_long by lia. case_match eqn:Hu; intros [= <- <-].
  assert (Hbody : bytes_ok (take (Z.to_nat n) (drop 4 buf))) by auto with jdwp.
  assert (Hlen : zlen (take (Z.to_nat n) (drop 4 buf)) = n)
    by (unfold zlen in *; rewrite length_take; lia).
  unfold is_string, write_jdwp_string, u32_of_len.
  rewrite bytes_of_string_of_bytes, Hlen by done. split; [done|]. split; [lia|].
  rewrite (proj2 (Z.leb_le _ _)) by lia.
  rewrite <- (assoc_L (++)), take_drop, put_be_spec. apply get_be_split; [|done].
  unfold zlen in H4. lia.
Qed.

(** [read_value_by_tag] is total and exact: an unknown tag and a short buffer are errors that
    consume nothing; otherwise the value has the variant and the range its tag announces, exactly
    the tag's width is consumed, and (a boolean apart, which is normalised) writing the value back
    gives the bytes that were read. *)
Theorem read_value_by_tag_exact (tag : Z) (buf : bytes) :
  bytes_ok buf ->
  match value_width tag with
  | Err e => read_value_by_tag tag buf = (Err e, buf)
  | Ok w =>
    if zlen buf <? Z.of_nat w then exists e, read_value_by_tag tag buf = (Err e, buf)
    else exists d, read_value_by_tag tag buf = (Ok d, drop w buf) /\
         value_data_ok d /\ tag_fits tag d = true /\
         (tag = value_tags.BOOLEAN \/
          write_untagged_value {| val_tag := tag; val_data := d |} = take w buf)
  end.
Proof.
  intros Hok. destruct (value_width tag) as [w|e] eqn:Hw.
  2: { unfold read_value_by_tag. by rewrite Hw. }
  rewrite (read_value_unfold _ w) by done. unfold mbind, reader_bind.
  case_match eqn:Hl; reflect_bools.
  { destruct (ensure_err (Z.of_nat w) "value" buf Hl) as [e ->]. eauto. }
  rewrite ensure_ok by done. eexists. split; [done|].
  unfold zlen in Hl. assert (Hlw : (w <= length buf)%nat) by lia. clear Hl.
  pose proof (get_be_ok w buf Hlw Hok) as Hr.
  assert (Ht : put_be w (get_be w buf) = take w buf).
  { rewrite put_be_spec, get_be_spec by done.
    replace w with (length (take w buf)) at 1 by (rewrite length_take; lia).
    apply be_bytes_be_val. auto with jdwp. }
  assert (Hs : forall u, 0 < u -> 256 ^ Z.of_nat w = 2 ^ u ->
    put_be w (wrap_s u (get_be w buf)) = take w buf).
  { intros u Hu Hpow. rewrite <- Ht, !put_be_spec. apply be_bytes_wrap. rewrite Hpow.
    unfold wrap_s. rewrite Zminus_mod_idemp_l. f_equal. lia. }
  induction tag as [ | | | | | | | | |tag Hin|tag Hun] using value_tag_ind; try (by rewrite Hun in Hw);
    [..|by each_member Hin; injection Hw as <-; unfold value_at; simpl; auto].
  all: injection Hw as <-; unfold value_at; simpl; split; [|split; [done|]];
    try done; try (by apply wrap_s_range); try (right; by (apply Hs || done)); auto.
Qed.

(** Writing a value and reading it back, whatever follows it on the wire, gives the value and
    leaves what follows, for every tagged value in range; and it occupies one byte more than its
    tag's width. *)
Theorem tagged_value_roundtrip (v : Value) (rest : bytes) :
  value_ok v ->
  read_tagged_value (write_tagged_value v ++ rest) = (Ok v, rest) /\
  value_width (val_tag v) = Ok (length (write_untagged_value v)).
Proof.
  intros Hv. split; [by apply tagged_value_reads|]. destruct Hv as (_ & _ & Hf).
  unfold write_untagged_value. destruct v as [tag d].
  destruct d; simpl in *; rewrite ?put_be_length; reflect_bools; subst; try done.
  by apply value_in_object_tags.
Qed.
End StringFacts.

(** ** Automation for encoders: [solve_reads] walks a sequence of reads along an encoding *)

Create HintDb reads discriminated.
#[export] Hint Resolve read_u8_reads read_u32_reads read_u64_reads read_i32_reads read_i64_reads
  read_string_reads tagged_value_reads value_reads Reads_ret : reads.
#[export] Hint Extern 5 (in_u _ _) => assumption : reads.
#[export] Hint Extern 5 (in_s _ _) => assumption : reads.
#[export] Hint Extern 5 (value_ok _) => assumption : reads.
#[export] Hint Extern 5 (is_string _) => assumption : reads.
#[export] Hint Extern 5 (_ < _) => assumption : reads.
#[export] Hint Extern 5 (_ = _) => assumption : reads.
#[export] Hint Extern 5 (value_data_ok _) => assumption : reads.

Ltac reads_step :=
  first
    [ eapply Reads_bind_ret; [solve [eauto with reads]|reflexivity]
    | eapply Reads_bind; [solve [eauto with reads]|] ].
Ltac solve_reads := repeat reads_step.

(** ** The wire of a concrete value *)

Definition sample_int : Value := {| val_tag := 73; val_data := VInt (-2) |}.

Lemma tagged_value_roundtrip_witness :
  read_tagged_value (BC := network_order)
    (write_tagged_value (BC := network_order) sample_int ++ [1; 2]) = (Ok sample_int, [1; 2]) /\
  value_width 73 = Ok (length (write_untagged_value (BC := network_order) sample_int)).
Proof. apply (tagged_value_roundtrip (BC := network_order) sample_int [1; 2]). by_compute. Defined.

Lemma read_value_by_tag_exact_witness :
  match value_width 83 with
  | Err e => read_value_by_tag (BC := network_order) 83 [255; 254; 7] = (Err e, [255; 254; 7])
  | Ok w =>
    if zlen [255; 254; 7] <? Z.of_nat w
    then exists e, read_value_by_tag (BC := network_order) 83 [255; 254; 7] = (Err e, [255; 254; 7])
    else exists d, read_value_by_tag (BC := network_order) 83 [255; 254; 7] = (Ok d, drop w [255; 254; 7]) /\
         value_data_ok d /\ tag_fits 83 d = true /\
         (83 = value_tags.BOOLEAN \/
          write_untagged_value (BC := network_order) {| val_tag := 83; val_data := d |} =
          take w [255; 254; 7])
  end.
Proof. apply (read_value_by_tag_exact (BC := network_order) 83 [255; 254; 7]). by_compute. Defined.

Lemma read_string_exact_witness :
  read_string (BC := network_order) [0; 0; 0; 2; 72; 105; 33] = (Ok "Hi", [33]) <->
  is_string "Hi" /\ zlen (bytes_of_string "Hi") < 2 ^ 32 /\
  [0; 0; 0; 2; 72; 105; 33] = write_jdwp_string (BC := network_order) "Hi" ++ [33].
Proof. apply (read_string_exact (BC := network_order)). by_compute. Defined.
