(* ===== verification/Events.v ===== *)
(** * Composite event packets ([jdwp-client/src/events.rs])

    The data the debuggee sends unasked, its parser, and the specification of its wire form: the
    parser is a left inverse of the encoder and never reads past the events it was given. *)

From S2P Require Import Prelude Protocol Types Reader.

Record MonitorEvent : Type := {
  me_thread : ThreadId;
  me_location : Location;
  me_monitor : ObjectId;
}.

Record FieldEvent : Type := {
  fe_thread : ThreadId;
  fe_location : Location;
  fe_ref_type : ReferenceTypeId;
  fe_field_id : FieldId;
  fe_object : ObjectId;
}.

Inductive EventKind : Type :=
| VMStart (thread : ThreadId)
| VMDeath
| ThreadStart (thread : ThreadId)
| ThreadDeath (thread : ThreadId)
| ClassPrepare (thread : ThreadId) (ref_type : ReferenceTypeId) (signature : string) (status : Z)
| Breakpoint (thread : ThreadId) (location : Location)
| Step (thread : ThreadId) (location : Location)
| Exception (thread : ThreadId) (location : Location) (exception : ObjectId)
    (catch_location : option Location)
| MethodExit (thread : ThreadId) (location : Location) (return_value : option Value)
| FieldAccess (field : FieldEvent)
| FieldModification (field : FieldEvent) (new_value : Value)
| MonitorContendedEnter (monitor : MonitorEvent)
| MonitorContendedEntered (monitor : MonitorEvent)
| MonitorWait (monitor : MonitorEvent) (timeout : Z)
| MonitorWaited (monitor : MonitorEvent) (timed_out : bool)
| UnknownEvent (kind : Z).

Record Event : Type := {
  ev_kind : Z;
  ev_request_id : Z;
  ev_details : EventKind;
}.

Record EventSet : Type := {
  es_suspend_policy : Z;
  es_events : list Event;
}.

(** The modifiers of an event request ([EventModifier]); the request builders write them inline. *)
Inductive EventModifier : Type :=
| Count (n : Z)
| ThreadOnly (thread : ThreadId)
| ClassOnly (ref_type : ReferenceTypeId)
| ClassMatch (pattern : string)
| ClassExclude (pattern : string)
| LocationOnly (location : Location)
| ExceptionOnly (ref_type : ReferenceTypeId) (caught uncaught : bool)
| FieldOnly (ref_type : ReferenceTypeId) (field_id : FieldId)
| StepMod (thread : ThreadId) (size depth : Z)
| InstanceOnly (object : ObjectId).

#[global] Instance MonitorEvent_eq_dec : EqDecision MonitorEvent.
Proof. solve_decision. Defined.
#[global] Instance FieldEvent_eq_dec : EqDecision FieldEvent.
Proof. solve_decision. Defined.
#[global] Instance EventKind_eq_dec : EqDecision EventKind.
Proof. solve_decision. Defined.
#[global] Instance Event_eq_dec : EqDecision Event.
Proof. solve_decision. Defined.
#[global] Instance EventSet_eq_dec : EqDecision EventSet.
Proof. solve_decision. Defined.
#[global] Instance EventModifier_eq_dec : EqDecision EventModifier.
Proof. solve_decision. Defined.

(** ** The parser *)

Section Parser.
Context `{BC : BytesCrate}.

Definition read_location : Reader Location :=
  type_tag ← read_u8;
  class_id ← read_u64;
  method_id ← read_u64;
  index ← read_u64;
  mret {| loc_type_tag := type_tag; loc_class_id := class_id; loc_method_id := method_id;
          loc_index := index |}.

Definition parse_breakpoint_event : Reader EventKind :=
  thread ← read_u64; location ← read_location; mret (Breakpoint thread location).

Definition parse_step_event : Reader EventKind :=
  thread ← read_u64; location ← read_location; mret (Step thread location).

Definition parse_vm_start_event : Reader EventKind :=
  thread ← read_u64; mret (VMStart thread).

Definition parse_thread_start_event : Reader EventKind :=
  thread ← read_u64; mret (ThreadStart thread).

Definition parse_thread_death_event : Reader EventKind :=
  thread ← read_u64; mret (ThreadDeath thread).

Definition parse_class_prepare_event : Reader EventKind :=
  thread ← read_u64;
  _ref_type_tag ← read_u8;
  ref_type ← read_u64;
  signature ← read_string;
  status ← read_i32;
  mret (ClassPrepare thread ref_type signature status).

Definition parse_exception_event : Reader EventKind :=
  thread ← read_u64;
  location ← read_location;
  _exc_tag ← read_u8;
  exception ← read_u64;
  catch ← read_location;
  let catch_location :=
    if (loc_class_id catch =? 0) && (loc_method_id catch =? 0) && (loc_index catch =? 0)
    then None else Some catch in
  mret (Exception thread location exception catch_location).

Definition parse_field_event_head : Reader FieldEvent :=
  thread ← read_u64;
  location ← read_location;
  _ref_type_tag ← read_u8;
  ref_type ← read_u64;
  field_id ← read_u64;
  _obj_tag ← read_u8;
  object ← read_u64;
  mret {| fe_thread := thread; fe_location := location; fe_ref_type := ref_type;
          fe_field_id := field_id; fe_object := object |}.

Definition parse_field_access_event : Reader EventKind :=
  field ← parse_field_event_head; mret (FieldAccess field).

Definition parse_field_modification_event : Reader EventKind :=
  field ← parse_field_event_head;
  new_value ← read_tagged_value;
  mret (FieldModification field new_value).

Definition parse_monitor_event_head : Reader MonitorEvent :=
  thread ← read_u64;
  _monitor_tag ← read_u8;
  monitor ← read_u64;
  location ← read_location;
  mret {| me_thread := thread; me_location := location; me_monitor := monitor |}.

Definition parse_monitor_wait_event : Reader EventKind :=
  monitor ← parse_monitor_event_head; timeout ← read_i64; mret (MonitorWait monitor timeout).

Definition parse_monitor_waited_event : Reader EventKind :=
  monitor ← parse_monitor_event_head;
  timed_out ← read_u8;
  mret (MonitorWaited monitor (negb (timed_out =? 0))).

Definition parse_method_exit_event (with_return_value : bool) : Reader EventKind :=
  thread ← read_u64;
  location ← read_location;
  return_value ← (if with_return_value then v ← read_tagged_value; mret (Some v) else mret None
                  : Reader (option Value));
  mret (MethodExit thread location return_value).

Definition parse_vm_lifecycle_event (kind : Z) : option (Reader EventKind) :=
  if kind =? event_kinds.VM_START then Some parse_vm_start_event
  else if kind =? event_kinds.VM_DEATH then Some (mret VMDeath)
  else if kind =? event_kinds.THREAD_START then Some parse_thread_start_event
  else if kind =? event_kinds.THREAD_DEATH then Some parse_thread_death_event
  else if kind =? event_kinds.CLASS_PREPARE then Some parse_class_prepare_event
  else None.

Definition parse_monitor_event (kind : Z) : option (Reader EventKind) :=
  if kind =? event_kinds.MONITOR_CONTENDED_ENTER then
    Some (monitor ← parse_monitor_event_head; mret (MonitorContendedEnter monitor))
  else if kind =? event_kinds.MONITOR_CONTENDED_ENTERED then
    Some (monitor ← parse_monitor_event_head; mret (MonitorContendedEntered monitor))
  else if kind =? event_kinds.MONITOR_WAIT then Some parse_monitor_wait_event
  else if kind =? event_kinds.MONITOR_WAITED then Some parse_monitor_waited_event
  else None.

Definition parse_event_details (kind : Z) : Reader EventKind :=
  match parse_vm_lifecycle_event kind with
  | Some parsed => parsed
  | None =>
    match parse_monitor_event kind with
    | Some parsed => parsed
    | None =>
      if kind =? event_kinds.BREAKPOINT then parse_breakpoint_event
      else if kind =? event_kinds.SINGLE_STEP then parse_step_event
      else if kind =? event_kinds.EXCEPTION then parse_exception_event
      else if kind =? event_kinds.FIELD_ACCESS then parse_field_access_event
      else if kind =? event_kinds.FIELD_MODIFICATION then parse_field_modification_event
      else if kind =? event_kinds.METHOD_EXIT then parse_method_exit_event false
      else if kind =? event_kinds.METHOD_EXIT_WITH_RETURN_VALUE then parse_method_exit_event true
      else mret (UnknownEvent kind)
    end
  end.

Definition parse_one_event : Reader Event :=
  kind ← read_u8;
  request_id ← read_i32;
  details ← parse_event_details kind;
  mret {| ev_kind := kind; ev_request_id := request_id; ev_details := details |}.

(** The body of [parse_event_packet], before the unread rest is dropped. *)
Definition read_event_set : Reader EventSet :=
  suspend_policy ← read_u8;
  event_count ← read_i32;
  events ← read_count event_count parse_one_event;
  mret {| es_suspend_policy := suspend_policy; es_events := events |}.

Definition parse_event_packet (data : bytes) : JdwpResult EventSet := run_reader read_event_set data.
End Parser.

(** ** The wire form of an event, as the JDWP specification lays it out

    Each event may carry type-tag bytes the client discards; [t1] and [t2] stand for them. *)

Definition event_kind_of (d : EventKind) : Z :=
  match d with
  | VMStart _ => event_kinds.VM_START
  | VMDeath => event_kinds.VM_DEATH
  | ThreadStart _ => event_kinds.THREAD_START
  | ThreadDeath _ => event_kinds.THREAD_DEATH
  | ClassPrepare _ _ _ _ => event_kinds.CLASS_PREPARE
  | Breakpoint _ _ => event_kinds.BREAKPOINT
  | Step _ _ => event_kinds.SINGLE_STEP
  | Exception _ _ _ _ => event_kinds.EXCEPTION
  | MethodExit _ _ None => event_kinds.METHOD_EXIT
  | MethodExit _ _ (Some _) => event_kinds.METHOD_EXIT_WITH_RETURN_VALUE
  | FieldAccess _ => event_kinds.FIELD_ACCESS
  | FieldModification _ _ => event_kinds.FIELD_MODIFICATION
  | MonitorContendedEnter _ => event_kinds.MONITOR_CONTENDED_ENTER
  | MonitorContendedEntered _ => event_kinds.MONITOR_CONTENDED_ENTERED
  | MonitorWait _ _ => event_kinds.MONITOR_WAIT
  | MonitorWaited _ _ => event_kinds.MONITOR_WAITED
  | UnknownEvent k => k
  end.

Definition field_event_ok (f : FieldEvent) : Prop :=
  in_u 64 (fe_thread f) /\ location_ok (fe_location f) /\ in_u 64 (fe_ref_type f) /\
  in_u 64 (fe_field_id f) /\ in_u 64 (fe_object f).
Definition monitor_event_ok (m : MonitorEvent) : Prop :=
  in_u 64 (me_thread m) /\ location_ok (me_location m) /\ in_u 64 (me_monitor m).

Definition catch_is_null (l : Location) : bool :=
  (loc_class_id l =? 0) && (loc_method_id l =? 0) && (loc_index l =? 0).

Definition details_ok (d : EventKind) : Prop :=
  match d with
  | VMStart t | ThreadStart t | ThreadDeath t => in_u 64 t
  | VMDeath => True
  | ClassPrepare t r s st =>
    in_u 64 t /\ in_u 64 r /\ is_string s /\ zlen (bytes_of_string s) < 2 ^ 32 /\ in_s 32 st
  | Breakpoint t l | Step t l => in_u 64 t /\ location_ok l
  | Exception t l e c =>
    in_u 64 t /\ location_ok l /\ in_u 64 e /\
    match c with Some cl => location_ok cl /\ catch_is_null cl = false | None => True end
  | MethodExit t l v =>
    in_u 64 t /\ location_ok l /\ match v with Some v => value_ok v | None => True end
  | FieldAccess f => field_event_ok f
  | FieldModification f v => field_event_ok f /\ value_ok v
  | MonitorContendedEnter m | MonitorContendedEntered m => monitor_event_ok m
  | MonitorWait m t => monitor_event_ok m /\ in_s 64 t
  | MonitorWaited m _ => monitor_event_ok m
  | UnknownEvent _ => False
  end.

Definition event_ok (e : Event) : Prop :=
  ev_kind e = event_kind_of (ev_details e) /\ in_s 32 (ev_request_id e) /\ details_ok (ev_details e).

#[global] Instance details_ok_dec d : Decision (details_ok d).
Proof. unfold details_ok, field_event_ok, monitor_event_ok. destruct d; try apply _; case_match; apply _. Defined.
#[global] Instance event_ok_dec e : Decision (event_ok e).
Proof. unfold event_ok. apply _. Defined.

Section Spec.
Context `{BC : BytesCrate}.

Definition encode_location (l : Location) : bytes :=
  put_be 1 (loc_type_tag l) ++ put_be 8 (loc_class_id l) ++ put_be 8 (loc_method_id l) ++
  put_be 8 (loc_index l).

Definition null_location (t : Z) : Location :=
  {| loc_type_tag := t; loc_class_id := 0; loc_method_id := 0; loc_index := 0 |}.

Definition encode_field_event (t1 t2 : Z) (f : FieldEvent) : bytes :=
  put_be 8 (fe_thread f) ++ encode_location (fe_location f) ++ put_be 1 t1 ++
  put_be 8 (fe_ref_type f) ++ put_be 8 (fe_field_id f) ++ put_be 1 t2 ++ put_be 8 (fe_object f).

Definition encode_monitor_event (t1 : Z) (m : MonitorEvent) : bytes :=
  put_be 8 (me_thread m) ++ put_be 1 t1 ++ put_be 8 (me_monitor m) ++ encode_location (me_location m).

Definition encode_details (t1 t2 : Z) (d : EventKind) : bytes :=
  match d with
  | VMStart t | ThreadStart t | ThreadDeath t => put_be 8 t
  | VMDeath | UnknownEvent _ => []
  | ClassPrepare t r s st =>
    put_be 8 t ++ put_be 1 t1 ++ put_be 8 r ++ write_jdwp_string s ++ put_be 4 st
  | Breakpoint t l | Step t l => put_be 8 t ++ encode_location l
  | Exception t l e c =>
    put_be 8 t ++ encode_location l ++ put_be 1 t1 ++ put_be 8 e ++
    encode_location (match c with Some cl => cl | None => null_location t2 end)
  | MethodExit t l v =>
    put_be 8 t ++ encode_location l ++ match v with Some v => write_tagged_value v | None => [] end
  | FieldAccess f => encode_field_event t1 t2 f
  | FieldModification f v => encode_field_event t1 t2 f ++ write_tagged_value v
  | MonitorContendedEnter m | MonitorContendedEntered m => encode_monitor_event t1 m
  | MonitorWait m t => encode_monitor_event t1 m ++ put_be 8 t
  | MonitorWaited m b => encode_monitor_event t1 m ++ put_be 1 (Z_of_bool b)
  end.

Definition encode_event (t1 t2 : Z) (e : Event) : bytes :=
  put_be 1 (ev_kind e) ++ put_be 4 (ev_request_id e) ++ encode_details t1 t2 (ev_details e).

Definition encode_event_set (t1 t2 : Z) (es : EventSet) : bytes :=
  put_be 1 (es_suspend_policy es) ++ put_be 4 (zlen (es_events es)) ++
  concat (map (encode_event t1 t2) (es_events es)).

Lemma location_reads l : location_ok l -> Reads read_location (encode_location l) l.
Proof.
  destruct l. intros (? & ? & ? & ?). simpl in *.
  unfold read_location, encode_location. solve_reads.
Qed.
Hint Resolve location_reads : reads.
Hint Extern 5 (location_ok _) => assumption : reads.

Lemma field_event_reads t1 t2 f :
  in_u 8 t1 -> in_u 8 t2 -> field_event_ok f ->
  Reads parse_field_event_head (encode_field_event t1 t2 f) f.
Proof.
  destruct f. intros ? ? (? & ? & ? & ? & ?). simpl in *.
  unfold parse_field_event_head, encode_field_event. solve_reads.
Qed.

Lemma monitor_event_reads t1 m :
  in_u 8 t1 -> monitor_event_ok m -> Reads parse_monitor_event_head (encode_monitor_event t1 m) m.
Proof.
  destruct m. intros ? (? & ? & ?). simpl in *.
  unfold parse_monitor_event_head, encode_monitor_event. solve_reads.
Qed.
Hint Resolve field_event_reads monitor_event_reads : reads.
Hint Extern 5 (field_event_ok _) => assumption : reads.
Hint Extern 5 (monitor_event_ok _) => assumption : reads.

Lemma null_location_ok t : in_u 8 t -> location_ok (null_location t).
Proof. intros Ht. repeat split; simpl; try apply Ht; by compute. Qed.

Lemma waited_byte b : in_u 8 (Z_of_bool b).
Proof. destruct b; by compute. Qed.

Lemma details_reads t1 t2 d :
  in_u 8 t1 -> in_u 8 t2 -> details_ok d ->
  Reads (parse_event_details (event_kind_of d)) (encode_details t1 t2 d) d.
Proof.
  intros H1 H2 Hd.
  pose proof (null_location_ok t2 H2) as Hnull.
  destruct d as [| | | | | | |t l e c|t l v| | | | | |m b|]; simpl in Hd; destruct_and?;
    try (destruct v as [v|]); try done; try solve [solve_reads];
    cbn -[Reads read_u64 read_u8 read_location].
  - unfold parse_exception_event.
    do 4 (eapply Reads_bind; [solve [eauto with reads]|]).
    destruct c as [c|]; destruct_and?; (eapply Reads_bind_ret; [by eauto with reads|]); [|done].
    unfold catch_is_null in *. by case_match.
  - unfold parse_method_exit_event. do 2 (eapply Reads_bind; [solve [eauto with reads]|]).
    eapply Reads_bind_ret; [|done]. solve_reads.
  - unfold parse_monitor_waited_event. eapply Reads_bind; [solve [eauto with reads]|].
    eapply Reads_bind_ret; [apply read_u8_reads, waited_byte|]. by destruct b.
Qed.

Lemma event_reads t1 t2 e :
  in_u 8 t1 -> in_u 8 t2 -> event_ok e -> Reads parse_one_event (encode_event t1 t2 e) e.
Proof.
  intros H1 H2 (Hk & Hr & Hd). destruct e as [k r d]; cbn [ev_kind ev_request_id ev_details] in *.
  unfold parse_one_event, encode_event; cbn [ev_kind ev_request_id ev_details]. subst k.
  eapply Reads_bind; [apply read_u8_reads|].
  { destruct d as [| | | | | | | |t l v| | | | | | |]; try done; try (by compute); by destruct v. }
  eapply Reads_bind; [by apply read_i32_reads|].
  eapply Reads_bind_ret; [by apply details_reads|done].
Qed.

#[global] Instance WireReader_location : WireReader read_location.
Proof. unfold read_location. apply _. Qed.
#[global] Instance WireReader_tagged_value : WireReader read_tagged_value.
Proof. unfold read_tagged_value. apply _. Qed.
#[global] Instance WireReader_field_head : WireReader parse_field_event_head.
Proof. unfold parse_field_event_head. apply _. Qed.
#[global] Instance WireReader_monitor_head : WireReader parse_monitor_event_head.
Proof. unfold parse_monitor_event_head. apply _. Qed.

#[global] Instance WireReader_details kind : WireReader (parse_event_details kind).
Proof.
  unfold parse_event_details, parse_vm_lifecycle_event, parse_monitor_event.
  repeat case_match; simplify_eq; apply _.
Qed.

Lemma WireReader_event_set : WireReader read_event_set.
Proof. unfold read_event_set, parse_one_event. apply _. Qed.

(** C8. The event parser reads back every well-formed composite packet: whatever the discarded
    type-tag bytes are and whatever follows the packet, the events come out in order with their
    kinds, request ids and details. *)
Theorem event_set_roundtrip (t1 t2 : Z) (es : EventSet) (rest : bytes) :
  in_u 8 t1 -> in_u 8 t2 -> in_u 8 (es_suspend_policy es) -> zlen (es_events es) < 2 ^ 31 ->
  Forall event_ok (es_events es) ->
  parse_event_packet (encode_event_set t1 t2 es ++ rest) = Ok es.
Proof.
  intros H1 H2 Hp Hn He. apply run_reader_reads. destruct es as [p l]; simpl in *.
  unfold read_event_set, encode_event_set; cbn [es_suspend_policy es_events].
  eapply Reads_bind; [by apply read_u8_reads|].
  eapply Reads_bind; [apply read_i32_reads; unfold in_s, zlen in *; simpl; lia|].
  eapply Reads_bind_ret; [apply Reads_count|done].
  eapply Forall_impl; [|exact He]. intros e. by apply event_reads.
Qed.

(** Parsing a composite packet is local and never resumes mid-event: a successful parse has
    consumed a definite prefix which alone decides the events, and the same packet cut anywhere
    inside that prefix is an error, never a shorter list of events. *)
Theorem event_packet_prefix (data : bytes) (es : EventSet) :
  parse_event_packet data = Ok es ->
  exists enc rest, data = enc ++ rest /\
    (forall more, parse_event_packet (enc ++ more) = Ok es) /\
    forall n, (n < length enc)%nat -> is_ok (parse_event_packet (take n data)) = false.
Proof.
  unfold parse_event_packet, run_reader. intros H.
  destruct (read_event_set data) as [r rest] eqn:E. simpl in H. subst r.
  destruct (WireReader_event_set _ _ _ E) as (enc & -> & HR & HP).
  exists enc, rest. split; [done|]. split.
  - intros more. by rewrite HR.
  - intros n Hn. rewrite take_app_le by lia. apply (HP (take n enc) (drop n enc)).
    + by rewrite take_drop.
    + intros Hd. apply (f_equal length) in Hd. rewrite length_drop in Hd. simpl in Hd. lia.
Qed.
End Spec.

(** A packet with a breakpoint hit and a value leaving a method. *)
Definition sample_events : EventSet := {|
  es_suspend_policy := 2;
  es_events :=
    [ {| ev_kind := 2; ev_request_id := 7;
         ev_details := Breakpoint 4 {| loc_type_tag := 1; loc_class_id := 10; loc_method_id := 20;
                                       loc_index := 3 |} |};
      {| ev_kind := 42; ev_request_id := -1;
         ev_details := MethodExit 4 {| loc_type_tag := 1; loc_class_id := 10; loc_method_id := 21;
                                       loc_index := 0 |}
                         (Some {| val_tag := 73; val_data := VInt (-5) |}) |} ]
|}.

Lemma event_set_roundtrip_witness :
  parse_event_packet (BC := network_order)
    (encode_event_set (BC := network_order) 76 1 sample_events ++ [9; 9]) = Ok sample_events.
Proof. apply (event_set_roundtrip (BC := network_order)); by_compute. Defined.

Lemma event_packet_prefix_witness :
  exists enc rest,
    encode_event_set (BC := network_order) 76 1 sample_events ++ [9; 9] = enc ++ rest /\
    (forall more, parse_event_packet (BC := network_order) (enc ++ more) = Ok sample_events) /\
    forall n, (n < length enc)%nat ->
      is_ok (parse_event_packet (BC := network_order)
        (take n (encode_event_set (BC := network_order) 76 1 sample_events ++ [9; 9]))) = false.
Proof. apply (event_packet_prefix (BC := network_order)). vm_compute. reflexivity. Defined.
