(* ===== verification/PacketReader.v ===== *)
(** * The packet reader ([spawn_packet_reader] and [read_packet] of [jdwp-client/src/eventloop.rs])

    One task turns the socket's bytes into packets and ends at the first error. The socket is tokio's:
    the class [AsyncRead] states what the reader relies on. *)

From S2P Require Import Prelude Protocol Types Reader Events.

Definition MAX_PACKET_SIZE : Z := 10 * 1024 * 1024.
Definition FOREIGN_BYTES_QUOTED : nat := 64.

(** ** The read half of the socket

    [unread] is what the peer will still send before the stream ends. [read_exact] fills its buffer
    or fails; [read_some n] is [timeout(FOREIGN_BYTES_DEADLINE, reader.read(buffer of n bytes))],
    [None] at the end of the stream, on an error and when the deadline passes. *)
Class AsyncRead (Stream : Type) : Type := {
  unread : Stream -> bytes;
  read_exact : nat -> Stream -> result string bytes * Stream;
  read_some : nat -> Stream -> option bytes * Stream;
  read_exact_ok n s : (n <= length (unread s))%nat ->
    exists s', read_exact n s = (Ok (take n (unread s)), s') /\ unread s' = drop n (unread s);
  read_exact_err n s : (length (unread s) < n)%nat -> exists e s', read_exact n s = (Err e, s');
  read_some_spec n s bs s' : read_some n s = (Some bs, s') -> (0 < length bs <= n)%nat;
}.

(** A concrete socket: bytes to come, and the error after them. *)
Record Socket : Type := { sk_bytes : bytes; sk_end : string }.

Definition socket_read_exact (n : nat) (s : Socket) : result string bytes * Socket :=
  if (length (sk_bytes s) <? n)%nat then (Err (sk_end s), {| sk_bytes := []; sk_end := sk_end s |})
  else (Ok (take n (sk_bytes s)), {| sk_bytes := drop n (sk_bytes s); sk_end := sk_end s |}).

Definition socket_read_some (n : nat) (s : Socket) : option bytes * Socket :=
  match take n (sk_bytes s) with
  | [] => (None, s)
  | got => (Some got, {| sk_bytes := drop n (sk_bytes s); sk_end := sk_end s |})
  end.

#[global] Program Instance socket_read : AsyncRead Socket := {|
  unread := sk_bytes; read_exact := socket_read_exact; read_some := socket_read_some
|}.
Next Obligation.
  intros n s H. unfold socket_read_exact. rewrite (proj2 (Nat.ltb_ge _ _)) by done. eauto.
Qed.
Next Obligation.
  intros n s H. unfold socket_read_exact. rewrite (proj2 (Nat.ltb_lt _ _)) by done. eauto.
Qed.
Next Obligation.
  intros n s bs s' H. unfold socket_read_some in H. case_match eqn:E; [done|].
  injection H as <- <-. split; [simpl; lia|]. rewrite <- E, length_take. lia.
Qed.

(** What [read_packet] yields: whether the packet is a reply, its id, and the whole packet. *)
Abbreviation Packet := (bool * Z * bytes)%type.

Definition is_printable (b : Z) : bool := (0x20 <=? b) && (b <? 0x7f).

(** [{:?}] of printable text. *)
Fixpoint show_debug_printable (bs : bytes) : string :=
  match bs with
  | [] => EmptyString
  | b :: r =>
    (if (b =? 34) || (b =? 92) then string_of_bytes [92; b] else string_of_bytes [b])
      +s+ show_debug_printable r
  end.

Section Reading.
Context `{AR : AsyncRead Stream}.

(** The reads of [describe_foreign_bytes]; every one that returns adds a byte, so the number of
    bytes still wanted is enough fuel. *)
Fixpoint foreign_reads (fuel : nat) (reader : Stream) (seen : bytes) : bytes * Stream :=
  match fuel with
  | O => (seen, reader)
  | S fuel =>
    if (length seen <? FOREIGN_BYTES_QUOTED)%nat then
      let want := Nat.min (FOREIGN_BYTES_QUOTED - length seen) 32 in
      match read_some want reader with
      | (None, reader) => (seen, reader)
      | (Some chunk, reader) => foreign_reads fuel reader (seen ++ chunk)
      end
    else (seen, reader)
  end.

Definition describe_foreign_bytes (reader : Stream) (header : bytes) (why : string) : string * Stream :=
  let '(seen, reader) := foreign_reads (FOREIGN_BYTES_QUOTED - length header) reader header in
  let hex := String.concat " " (map (show_hex_pad false 2) seen) in
  let text := string_of_bytes (map (fun b => if is_printable b then b else 46) seen) in
  let len_bytes := take 4 header in
  let as_text :=
    if forallb is_printable len_bytes then
      " The length field's four bytes are the printable text " +s+ dquote +s+
      show_debug_printable len_bytes +s+ dquote +s+ ", so this is text, not a size."
    else "" in
  (why +s+ "." +s+ as_text +s+ " " +s+ pretty (zlen seen) +s+
   " byte(s) read at the header position: hex [" +s+ hex +s+ "] text " +s+ dquote +s+ text +s+ dquote +s+
   ". The connection cannot be resynchronised — JDWP has no frame delimiter to seek to — so the session ends here. If the text names a protocol or a path, something other than this JVM's JDWP agent is on that socket.",
   reader).

Definition read_packet (reader : Stream) : JdwpResult Packet * Stream :=
  match read_exact HEADER_SIZE reader with
  | (Err e, reader) => (Err (Io e), reader)
  | (Ok header, reader) =>
    let length_ := be_val (take 4 header) in
    let packet_id := be_val (take 4 (drop 4 header)) in
    let flags := be_val (take 1 (drop 8 header)) in
    let flags_are_jdwp := (flags =? 0) || (flags =? REPLY_FLAG) in
    let length_is_sane := (Z.of_nat HEADER_SIZE <=? length_) && (length_ <=? MAX_PACKET_SIZE) in
    if negb flags_are_jdwp || negb length_is_sane then
      let why :=
        if negb flags_are_jdwp then
          "flags byte is 0x" +s+ show_hex_pad false 2 flags +s+
          ", and JDWP defines only 0x00 (command) and 0x80 (reply)"
        else if length_ <? Z.of_nat HEADER_SIZE then
          "length field is " +s+ pretty length_ +s+ ", below the " +s+ pretty (Z.of_nat HEADER_SIZE) +s+
          "-byte header it must include"
        else
          "length field is " +s+ pretty length_ +s+ ", above the " +s+ pretty MAX_PACKET_SIZE +s+
          "-byte cap" in
      let '(text, reader) := describe_foreign_bytes reader header why in
      (Err (NotJdwpFramed text), reader)
    else
      let data_len := Z.to_nat (length_ - Z.of_nat HEADER_SIZE) in
      if (0 <? data_len)%nat then
        match read_exact data_len reader with
        | (Err e, reader) => (Err (Io e), reader)
        | (Ok data, reader) => (Ok (flags =? REPLY_FLAG, packet_id, header ++ data), reader)
        end
      else (Ok (flags =? REPLY_FLAG, packet_id, header), reader)
  end.

(** [spawn_packet_reader]'s task: the results it puts on its channel, as long as the receiver takes
    them ([accepted] of them); [None] when the fuel runs out. *)
Fixpoint reader_task (fuel accepted : nat) (reader : Stream) : option (list (JdwpResult Packet)) :=
  match fuel with
  | O => None
  | S fuel =>
    let '(received, reader) := read_packet reader in
    match accepted with
    | O => Some []
    | S accepted =>
      if is_ok received
      then rest ← reader_task fuel accepted reader; Some (received :: rest)
      else Some [received]
    end
  end.
End Reading.

(** ** What the reader accepts *)

(** The header checks of [read_packet]. *)
Definition header_sane (h : bytes) : bool :=
  ((be_val (take 1 (drop 8 h)) =? 0) || (be_val (take 1 (drop 8 h)) =? REPLY_FLAG)) &&
  ((Z.of_nat HEADER_SIZE <=? be_val (take 4 h)) && (be_val (take 4 h) <=? MAX_PACKET_SIZE)).

(** A whole packet: a sane header whose length field is the packet's length. *)
Definition framed (raw : bytes) : Prop :=
  (HEADER_SIZE <= length raw)%nat /\ header_sane raw = true /\ be_val (take 4 raw) = zlen raw.
#[global] Instance framed_dec raw : Decision (framed raw).
Proof. unfold framed. apply _. Defined.

Definition packet_of (raw : bytes) : Packet :=
  (be_val (take 1 (drop 8 raw)) =? REPLY_FLAG, be_val (take 4 (drop 4 raw)), raw).

Definition no_frame (tail : bytes) : Prop := forall raw rest, tail = raw ++ rest -> ~ framed raw.

(** The error the reader ends with on a tail that holds no whole packet. *)
Definition reader_error (tail : bytes) (e : JdwpError) : Prop :=
  if (HEADER_SIZE <=? length tail)%nat && negb (header_sane tail)
  then exists text, e = NotJdwpFramed text else exists text, e = Io text.

Lemma take_header_prefix {A} (n m : nat) (l k : list A) :
  (n <= length l)%nat -> (m <= n)%nat -> take m (take n (l ++ k)) = take m l.
Proof. intros. rewrite take_take, Nat.min_l by lia. by rewrite take_app_le by lia. Qed.

Lemma header_take (h : bytes) :
  take 4 (take HEADER_SIZE h) = take 4 h /\
  take 4 (drop 4 (take HEADER_SIZE h)) = take 4 (drop 4 h) /\
  take 1 (drop 8 (take HEADER_SIZE h)) = take 1 (drop 8 h).
Proof. unfold HEADER_SIZE. rewrite !skipn_firstn_comm, !take_take. done. Qed.

Lemma header_sane_take h : header_sane (take HEADER_SIZE h) = header_sane h.
Proof. unfold header_sane. by destruct (header_take h) as (-> & _ & ->). Qed.

Lemma header_app (h k : bytes) :
  (HEADER_SIZE <= length h)%nat ->
  take 4 (h ++ k) = take 4 h /\ take 4 (drop 4 (h ++ k)) = take 4 (drop 4 h) /\
  take 1 (drop 8 (h ++ k)) = take 1 (drop 8 h).
Proof.
  unfold HEADER_SIZE. intros H. rewrite !drop_app_le, !take_app_le by (rewrite ?length_drop; lia). done.
Qed.

Lemma header_sane_app h k : (HEADER_SIZE <= length h)%nat -> header_sane (h ++ k) = header_sane h.
Proof. intros H. unfold header_sane. by destruct (header_app h k H) as (-> & _ & ->). Qed.

(** Packets are self-delimiting. *)
Lemma framed_prefix r1 k1 r2 k2 : framed r1 -> framed r2 -> r1 ++ k1 = r2 ++ k2 -> r1 = r2.
Proof.
  intros (L1 & _ & E1) (L2 & _ & E2) H.
  destruct (header_app r1 k1 L1) as (H1 & _). destruct (header_app r2 k2 L2) as (H2 & _).
  rewrite H in H1. rewrite <- H1, H2 in E1. rewrite E1 in E2. unfold zlen in E2.
  apply app_inj_1 in H; [by destruct H|lia].
Qed.

Section ReadingFacts.
Context `{AR : AsyncRead Stream}.

(** The three ways [read_packet] can end, decided by the bytes to come. *)
Lemma read_packet_cases (s : Stream) :
  (exists raw s', framed raw /\ read_packet s = (Ok (packet_of raw), s') /\ unread s = raw ++ unread s') \/
  (exists e s', no_frame (unread s) /\ read_packet s = (Err e, s') /\ reader_error (unread s) e).
Proof.
  unfold read_packet, reader_error. set (u := unread s).
  destruct (decide (HEADER_SIZE <= length u)%nat) as [Hh|Hh]; [rewrite (proj2 (Nat.leb_le _ _)) by done|
    rewrite (proj2 (Nat.leb_gt _ _)) by lia].
  2: { right. destruct (read_exact_err HEADER_SIZE s) as (e & s' & ->); [fold u; lia|].
       exists (Io e), s'. split; [|split; [done|by exists e]].
       intros raw rest Hu (? & _). rewrite Hu, length_app in Hh. lia. }
  destruct (read_exact_ok HEADER_SIZE s Hh) as (s1 & -> & Hs1). fold u in Hs1 |- *.
  destruct (header_take u) as (-> & -> & ->).
  assert (Hs : negb ((be_val (take 1 (drop 8 u)) =? 0) || (be_val (take 1 (drop 8 u)) =? REPLY_FLAG))
    || negb ((Z.of_nat HEADER_SIZE <=? be_val (take 4 u)) && (be_val (take 4 u) <=? MAX_PACKET_SIZE))
    = negb (header_sane u)) by (symmetry; apply negb_andb).
  cbv zeta. rewrite Hs. destruct (header_sane u) eqn:Hsane; cbn [negb andb].
  2: { right. destruct (describe_foreign_bytes _ _ _) as [text s2].
       exists (NotJdwpFramed text), s2. split; [|split; [done|by exists text]].
       intros raw rest Hu (Hl & Hr & _). by rewrite Hu, header_sane_app, Hr in Hsane. }
  set (len := be_val (take 4 u)) in *.
  assert (Hlen : Z.of_nat HEADER_SIZE <= len) by (unfold header_sane in Hsane; fold len in Hsane; reflect_bools; lia).
  destruct (decide (Z.to_nat len <= length u)%nat) as [Hb|Hb].
  - left. exists (take (Z.to_nat len) u).
    assert (Hf : framed (take (Z.to_nat len) u)).
    { split; [rewrite length_take; lia|].
      rewrite <- (take_drop (Z.to_nat len) u), header_sane_app in Hsane by (rewrite length_take; lia).
      split; [done|].
      destruct (header_app (take (Z.to_nat len) u) (drop (Z.to_nat len) u)) as (E & _);
        [rewrite length_take; lia|].
      rewrite take_drop in E. rewrite <- E. fold len. unfold zlen. rewrite length_take. lia. }
    assert (Hp : packet_of (take (Z.to_nat len) u) =
      (be_val (take 1 (drop 8 u)) =? REPLY_FLAG, be_val (take 4 (drop 4 u)), take (Z.to_nat len) u)).
    { unfold packet_of. destruct Hf as (Hl & _).
      destruct (header_app _ (drop (Z.to_nat len) u) Hl) as (_ & E2 & E3).
      rewrite take_drop in E2, E3. by rewrite <- E2, <- E3. }
    case_match eqn:Hd.
    + apply Nat.ltb_lt in Hd.
      destruct (read_exact_ok (Z.to_nat (len - Z.of_nat HEADER_SIZE)) s1) as (s2 & -> & Hs2);
        [rewrite Hs1, length_drop; lia|].
      exists s2. split; [done|]. rewrite Hp, Hs2, Hs1, drop_drop. split.
      * repeat f_equal. rewrite take_take_drop. f_equal. lia.
      * replace (HEADER_SIZE + Z.to_nat (len - Z.of_nat HEADER_SIZE))%nat with (Z.to_nat len) by lia.
        by rewrite take_drop.
    + apply Nat.ltb_ge in Hd. exists s1. split; [done|]. rewrite Hp, Hs1.
      replace (Z.to_nat len) with HEADER_SIZE by lia. by rewrite take_drop.
  - right. rewrite (proj2 (Nat.ltb_lt _ _)) by lia.
    destruct (read_exact_err (Z.to_nat (len - Z.of_nat HEADER_SIZE)) s1) as (e & s2 & ->);
      [rewrite Hs1, length_drop; lia|].
    exists (Io e), s2. split; [|split; [done|by exists e]].
    intros raw rest Hu (Hl & _ & He).
    destruct (header_app raw rest Hl) as (E & _). rewrite <- Hu in E. rewrite <- E in He. fold len in He.
    apply (f_equal length) in Hu. rewrite length_app in Hu. unfold zlen in He. lia.
Qed.

Lemma read_packet_reply_framed s r s' :
  read_packet s = (Ok r, s') -> exists raw, framed raw /\ r = packet_of raw.
Proof.
  destruct (read_packet_cases s) as [(raw & s1 & Hf & -> & _)|(e & s1 & _ & -> & _)]; [|done].
  intros [= <- _]. eauto.
Qed.

(** Every byte string splits into whole packets and a tail that starts none. *)
Lemma frames_exist (u : bytes) :
  exists raws tail, u = concat raws ++ tail /\ Forall framed raws /\ no_frame tail.
Proof.
  induction u as [u IH] using (induction_ltof1 _ (@length Z)). unfold ltof in IH.
  destruct (decide (Exists (fun n => framed (take n u)) (seq 0 (S (length u))))) as [Hy|Hno].
  - apply Exists_exists in Hy as (n & _ & Hf).
    destruct (IH (drop n u)) as (raws & tail & Hd & Hr & Ht).
    { destruct Hf as (Hl & _). rewrite length_take in Hl. rewrite length_drop. unfold HEADER_SIZE in Hl. lia. }
    exists (take n u :: raws), tail. simpl. rewrite <- (assoc_L (++)), <- Hd, take_drop. auto.
  - exists [], u. split; [done|]. split; [constructor|]. intros raw rest Hu Hf. apply Hno, Exists_exists.
    exists (length raw). rewrite Hu, take_app_length, length_app. split; [apply in_seq; lia|done].
Qed.

(** C5. The packet reader loses nothing and invents nothing: whatever bytes the peer sends, they split
    in exactly one way into whole packets and a tail that starts none; given a packet more of fuel
    than there are bytes, the task ends, having put on its channel each packet once, in order and
    byte for byte, and then exactly one error, which says whether the tail was not JDWP or just cut
    short (or a prefix of that list, once the receiver is gone). *)
Theorem reader_task_exact (s : Stream) (fuel accepted : nat) :
  (length (unread s) < fuel)%nat ->
  (exists raws tail, unread s = concat raws ++ tail /\ Forall framed raws /\ no_frame tail) /\
  forall raws tail,
    unread s = concat raws ++ tail -> Forall framed raws -> no_frame tail ->
    exists e, reader_error tail e /\
      reader_task fuel accepted s = Some (take accepted (map (fun raw => Ok (packet_of raw)) raws ++ [Err e])).
Proof.
  intros Hfuel. split; [apply frames_exist|]. intros raws tail Hu Hr Ht.
  revert s fuel accepted Hfuel Hu. induction Hr as [|raw raws Hf _ IH]; intros s fuel accepted Hfuel Hu.
  - destruct fuel as [|fuel]; [lia|]. simpl in Hu. simpl reader_task.
    destruct (read_packet_cases s) as [(raw & s' & Hf & _ & Hraw)|(e & s' & _ & -> & He)].
    { rewrite Hu in Hraw. by destruct (Ht raw (unread s')). }
    rewrite Hu in He. exists e. split; [done|]. by destruct accepted as [|[]].
  - destruct fuel as [|fuel]; [lia|]. simpl reader_task. simpl in Hu. rewrite <- (assoc_L (++)) in Hu.
    destruct (read_packet_cases s) as [(raw' & s' & Hf' & -> & Hraw)|(e & s' & Hno & _ & _)].
    2: { by destruct (Hno _ _ Hu). }
    assert (raw' = raw) as -> by (eapply framed_prefix; [done..|by rewrite <- Hu, Hraw]).
    rewrite Hu in Hraw. apply app_inv_head in Hraw.
    destruct (IH s' fuel (pred accepted)) as (e & He & IHr); [|done|].
    { rewrite Hu, length_app, Hraw in Hfuel. destruct Hf as (Hl & _). unfold HEADER_SIZE in Hl. lia. }
    exists e. split; [done|]. destruct accepted as [|accepted]; [done|].
    cbn [pred] in IHr. cbn [is_ok]. by rewrite IHr.
Qed.
End ReadingFacts.

(** A reply, an empty command and a peer that is not a debuggee. *)
Definition sample_socket : Socket := {|
  sk_bytes := [0;0;0;12; 0;0;0;7; 0x80; 0;0; 5] ++ [0;0;0;11; 0;0;0;9; 0; 64;100] ++
              [72;84;84;80;47;49;46;49;32;52;48;48];
  sk_end := "early eof" |}.

Lemma reader_task_exact_witness :
  exists e, reader_error [72;84;84;80;47;49;46;49;32;52;48;48] e /\
    reader_task 40 10 sample_socket =
    Some [Ok (true, 7, [0;0;0;12; 0;0;0;7; 0x80; 0;0; 5]); Ok (false, 9, [0;0;0;11; 0;0;0;9; 0; 64;100]);
          Err e].
Proof.
  destruct (reader_task_exact sample_socket 40 10) as [_ H]; [vm_compute; lia|].
  apply (H [[0;0;0;12; 0;0;0;7; 0x80; 0;0; 5]; [0;0;0;11; 0;0;0;9; 0; 64;100]]); [done|by_compute|].
  intros raw rest Hraw (Hl & Hs & _).
  rewrite <- (header_sane_app raw rest), <- Hraw in Hs by done. done.
Defined.
