(* ===== verification/EventLoop.v ===== *)
(** * The event loop ([jdwp-client/src/eventloop.rs])

    A state machine over the branches of the loop's [select!]. The handlers are the source's
    functions; the log records what leaves the loop, in order: bytes written, replies sent on a
    caller's channel, senders dropped, events delivered. The channels are tokio's: the outcome of a
    write and of [try_send], and which branch fires when, are inputs of the machine, so the theorems
    hold whatever they are. *)

From S2P Require Import Prelude Protocol Types Reader Events PacketReader.

(** [REPLY_TIMEOUT], in milliseconds and in seconds. *)
Definition REPLY_TIMEOUT : Z := 30000.
Definition REPLY_TIMEOUT_SECS : Z := REPLY_TIMEOUT / 1000.
Definition COMMAND_CHANNEL_DEPTH : nat := 32.

(** A reply channel's sender, by an identity of its own. *)
Abbreviation Sender := nat.

Record CommandRequest : Type := {
  cr_packet : CommandPacket;
  cr_reply_tx : Sender;
}.

Record PendingReply : Type := {
  pr_sender : Sender;
  pr_sent_at : Z;
}.

Inductive Effect : Type :=
| Wrote (encoded : bytes)
| Sent (tx : Sender) (outcome : JdwpResult ReplyPacket)
| Dropped (tx : Sender)
| Delivered (events : EventSet).

#[global] Instance Effect_eq_dec : EqDecision Effect.
Proof. solve_decision. Defined.

Inductive WriteOutcome : Type := Written | WriteFailed (e : string) | FlushFailed (e : string).
Inductive TrySend : Type := SendOk | SendFull | SendClosed.

(** [ls_queue] holds what was sent on the command channel and not received yet; [ls_issued], every
    request that channel ever took, is for the specification only. *)
Record LoopState : Type := {
  ls_queue : list CommandRequest;
  ls_pending : gmap Z PendingReply;
  ls_shutdown : option string;
  ls_running : bool;
  ls_now : Z;
  ls_log : list Effect;
  ls_issued : list CommandRequest;
}.

Definition emit (es : list Effect) (s : LoopState) : LoopState :=
  {| ls_queue := ls_queue s; ls_pending := ls_pending s; ls_shutdown := ls_shutdown s;
     ls_running := ls_running s; ls_now := ls_now s; ls_log := ls_log s ++ es;
     ls_issued := ls_issued s |}.
Definition set_pending (p : gmap Z PendingReply) (s : LoopState) : LoopState :=
  {| ls_queue := ls_queue s; ls_pending := p; ls_shutdown := ls_shutdown s;
     ls_running := ls_running s; ls_now := ls_now s; ls_log := ls_log s;
     ls_issued := ls_issued s |}.
Definition set_queue (q : list CommandRequest) (s : LoopState) : LoopState :=
  {| ls_queue := q; ls_pending := ls_pending s; ls_shutdown := ls_shutdown s;
     ls_running := ls_running s; ls_now := ls_now s; ls_log := ls_log s;
     ls_issued := ls_issued s |}.

Definition dropped_value (o : option PendingReply) : list Effect :=
  match o with Some p => [Dropped (pr_sender p)] | None => [] end.

(** Dropping the map drops the senders in it. *)
Definition dropped_map (m : gmap Z PendingReply) : list Effect :=
  map (fun e => Dropped (pr_sender (snd e))) (map_to_list m).

Section Handlers.
Context `{BC : BytesCrate}.

(** [insert] returns the value it replaces, which the handler drops. *)
Definition handle_outgoing_command (io : WriteOutcome) (cmd : CommandRequest) (s : LoopState) : LoopState :=
  let packet_id := cp_id (cr_packet cmd) in
  let encoded := encode (cr_packet cmd) in
  match io with
  | WriteFailed e => emit [Sent (cr_reply_tx cmd) (Err (Io e))] s
  | FlushFailed e => emit [Wrote encoded; Sent (cr_reply_tx cmd) (Err (Io e))] s
  | Written =>
    emit (Wrote encoded :: dropped_value (ls_pending s !! packet_id))
      (set_pending (<[packet_id := {| pr_sender := cr_reply_tx cmd; pr_sent_at := ls_now s |}]>
        (ls_pending s)) s)
  end.

Definition lapsed (now : Z) (p : PendingReply) : bool := REPLY_TIMEOUT <? now - pr_sent_at p.

Definition expire (s : LoopState) (packet_id : Z) : LoopState :=
  match ls_pending s !! packet_id with
  | Some pending =>
    emit [Sent (pr_sender pending) (Err (ReplyTimeout REPLY_TIMEOUT_SECS))]
      (set_pending (delete packet_id (ls_pending s)) s)
  | None => s
  end.

Definition cleanup_pending_replies (s : LoopState) : LoopState :=
  let lapsed_ids :=
    map fst (base.filter (fun e => lapsed (ls_now s) (snd e) = true) (map_to_list (ls_pending s))) in
  foldl expire s lapsed_ids.

Definition route_reply (packet_id : Z) (data : bytes) (s : LoopState) : LoopState :=
  match ls_pending s !! packet_id with
  | Some pending =>
    let s := set_pending (delete packet_id (ls_pending s)) s in
    match decode data with
    | Ok reply => emit [Sent (pr_sender pending) (Ok reply)] s
    | Err e => emit [Sent (pr_sender pending) (Err e)] s
    end
  | None => s
  end.

Definition handle_event_packet (outcome : TrySend) (data : bytes) (s : LoopState) :
    option string * LoopState :=
  let event_data := drop HEADER_SIZE data in
  match parse_event_packet event_data with
  | Ok event_set =>
    match outcome with
    | SendOk => (None, emit [Delivered event_set] s)
    | SendFull => (None, s)
    | SendClosed => (Some "the event consumer was dropped, so the session was torn down", s)
    end
  | Err _ => (None, s)
  end.

Definition handle_incoming_packet (outcome : TrySend) (received : JdwpResult Packet) (s : LoopState) :
    option string * LoopState :=
  match received with
  | Ok (is_reply, packet_id, data) =>
    if is_reply then (None, route_reply packet_id data s)
    else handle_event_packet outcome data s
  | Err e => (Some ("reading from the debuggee failed: " +s+ display_error e), s)
  end.

(** The end of [event_loop_task]: the cause is recorded before any sender is dropped, first the
    pending ones, then those of the requests still on the channel. *)
Definition stop (cause : string) (s : LoopState) : LoopState :=
  {| ls_queue := []; ls_pending := ∅;
     ls_shutdown := match ls_shutdown s with Some c => Some c | None => Some cause end;
     ls_running := false; ls_now := ls_now s;
     ls_log := ls_log s ++ dropped_map (ls_pending s) ++ map (fun r => Dropped (cr_reply_tx r)) (ls_queue s);
     ls_issued := ls_issued s |}.

(** What the loop reacts to: a caller sends on the command channel, time passes, or one of the three
    branches fires. *)
Inductive Input : Type :=
| InIssue (req : CommandRequest)
| InAdvance (ms : Z)
| InCommand (io : WriteOutcome)
| InTick
| InPacket (received : option (JdwpResult Packet)) (outcome : TrySend).

(** [None]: the input is not possible in that state. A caller waits while the channel is full. *)
Definition loop_step (s : LoopState) (i : Input) : option LoopState :=
  match i with
  | InAdvance ms =>
    Some {| ls_queue := ls_queue s; ls_pending := ls_pending s; ls_shutdown := ls_shutdown s;
            ls_running := ls_running s; ls_now := ls_now s + ms; ls_log := ls_log s;
            ls_issued := ls_issued s |}
  | _ =>
    if ls_running s then
      match i with
      | InAdvance _ => None
      | InIssue req =>
        if (length (ls_queue s) <? COMMAND_CHANNEL_DEPTH)%nat then
          Some {| ls_queue := ls_queue s ++ [req]; ls_pending := ls_pending s;
                  ls_shutdown := ls_shutdown s; ls_running := ls_running s; ls_now := ls_now s;
                  ls_log := ls_log s; ls_issued := ls_issued s ++ [req] |}
        else None
      | InCommand io =>
        match ls_queue s with
        | cmd :: queue => Some (handle_outgoing_command io cmd (set_queue queue s))
        | [] => None
        end
      | InTick => Some (cleanup_pending_replies s)
      | InPacket (Some result) outcome =>
        match handle_incoming_packet outcome result s with
        | (Some cause, s) => Some (stop cause s)
        | (None, s) => Some s
        end
      | InPacket None _ => Some (stop "the packet reader stopped without reporting a reason" s)
      end
    else None
  end.

Definition loop_init (now : Z) : LoopState :=
  {| ls_queue := []; ls_pending := ∅; ls_shutdown := None; ls_running := true; ls_now := now;
     ls_log := []; ls_issued := [] |}.

Fixpoint loop_run (s : LoopState) (ins : list Input) : option LoopState :=
  match ins with
  | [] => Some s
  | i :: ins => s' ← loop_step s i; loop_run s' ins
  end.
End Handlers.

(** ** The callers' side *)

Definition lost (shutdown : option string) (what : string) : JdwpError :=
  match shutdown with
  | None => ProtocolError ("the event loop stopped without recording a reason, and " +s+ what)
  | Some cause => ConnectionClosed cause
  end.

(** [EventLoopHandle::issue]: [accepted] is whether the command channel took the request. *)
Definition issue (accepted : bool) (shutdown : option string) : JdwpResult unit :=
  if accepted then Ok tt else Err (lost shutdown "the command was never sent").

(** [InFlight::reply]: [received] is what the reply channel yields, [None] when its sender was
    dropped. *)
Definition reply (received : option (JdwpResult ReplyPacket)) (shutdown : option string) :
    JdwpResult ReplyPacket :=
  match received with
  | Some r => r
  | None => Err (lost shutdown "the command was sent and its reply was dropped")
  end.

(** [EventLoopHandle::send_command]. *)
Definition send_command (accepted : bool) (received : option (JdwpResult ReplyPacket))
    (at_issue at_reply : option string) : JdwpResult ReplyPacket :=
  _ ← issue accepted at_issue; reply received at_reply.

(** What the receiver of [tx] yields once the log is as given: the first reply sent on it, [Some
    None] if it was dropped first, [None] while it waits. *)
Fixpoint receiver (tx : Sender) (log : list Effect) : option (option (JdwpResult ReplyPacket)) :=
  match log with
  | [] => None
  | Sent tx' r :: log => if (tx' =? tx)%nat then Some (Some r) else receiver tx log
  | Dropped tx' :: log => if (tx' =? tx)%nat then Some None else receiver tx log
  | _ :: log => receiver tx log
  end.

(** ** Reachable states *)

Definition txs : list CommandRequest -> list Sender := map cr_reply_tx.
Definition ids : list CommandRequest -> list Z := map (fun r => cp_id (cr_packet r)).

(** What the environment guarantees: a reply channel is created by the call that issues the request,
    a packet comes from the packet reader, and the clock does not go back. *)
Definition input_ok (s : LoopState) (i : Input) : Prop :=
  match i with
  | InIssue req => cr_reply_tx req ∉ txs (ls_issued s)
  | InAdvance ms => 0 <= ms
  | InPacket (Some (Ok p)) _ => exists raw, framed raw /\ p = packet_of raw
  | _ => True
  end.

Inductive reachable `{BC : BytesCrate} : LoopState -> Prop :=
| reach_init now : reachable (loop_init now)
| reach_step s i s' : reachable s -> input_ok s i -> loop_step s i = Some s' -> reachable s'.

Definition ended (e : Effect) : option Sender :=
  match e with Sent tx _ | Dropped tx => Some tx | _ => None end.
(** The senders whose fate is settled, in the order it was. *)
Definition settled (s : LoopState) : list Sender := omap ended (ls_log s).

Definition senders (m : gmap Z PendingReply) : list Sender :=
  map (fun e => pr_sender (snd e)) (map_to_list m).
(** The senders still held: queued requests, then pending replies. *)
Definition waiting (s : LoopState) : list Sender := txs (ls_queue s) ++ senders (ls_pending s).

Lemma senders_empty : senders ∅ = [].
Proof. unfold senders. by rewrite map_to_list_empty. Qed.

Lemma senders_delete m id p :
  m !! id = Some p -> senders m ≡ₚ pr_sender p :: senders (delete id m).
Proof. intros H. unfold senders. by rewrite <- (map_to_list_delete m id p H). Qed.

Lemma senders_delete_any m id :
  senders m ≡ₚ omap ended (dropped_value (m !! id)) ++ senders (delete id m).
Proof.
  destruct (m !! id) as [p|] eqn:E; simpl; [by apply senders_delete|]. by rewrite delete_id.
Qed.

Lemma senders_insert m id p : senders (<[id := p]> m) ≡ₚ pr_sender p :: senders (delete id m).
Proof.
  rewrite <- insert_delete_eq. unfold senders.
  by rewrite (map_to_list_insert _ id p) by apply lookup_delete_eq.
Qed.

Lemma ended_dropped_map m : omap ended (dropped_map m) = senders m.
Proof. unfold dropped_map, senders. induction (map_to_list m) as [|? l IH]; csimpl; [done|]. by rewrite IH. Qed.

Lemma ended_dropped_queue q : omap ended (map (fun r => Dropped (cr_reply_tx r)) q) = txs q.
Proof. induction q as [|? q IH]; csimpl; [done|]. by rewrite IH. Qed.

Section LoopFacts.
Context `{BC : BytesCrate}.

(** Everyone in the books: held or settled. *)
Definition accounts (s : LoopState) : list Sender := waiting s ++ settled s.

Lemma accounts_emit es s : accounts (emit es s) = accounts s ++ omap ended es.
Proof. unfold accounts, settled. simpl. by rewrite omap_app, (assoc_L (++)). Qed.

Lemma accounts_settle s id p r :
  ls_pending s !! id = Some p ->
  accounts (emit [Sent (pr_sender p) r] (set_pending (delete id (ls_pending s)) s)) ≡ₚ accounts s.
Proof.
  intros H. rewrite accounts_emit. unfold accounts, waiting, settled. simpl.
  rewrite (senders_delete _ _ _ H). solve_Permutation.
Qed.

Lemma accounts_outgoing io cmd q s :
  ls_queue s = cmd :: q ->
  accounts (handle_outgoing_command io cmd (set_queue q s)) ≡ₚ accounts s.
Proof.
  intros Hq. destruct io; simpl; rewrite accounts_emit; unfold accounts, waiting, settled; simpl;
    rewrite Hq; simpl.
  - rewrite senders_insert, (senders_delete_any (ls_pending s) (cp_id (cr_packet cmd))). simpl.
    solve_Permutation.
  - solve_Permutation.
  - solve_Permutation.
Qed.

Lemma accounts_expire s id : accounts (expire s id) ≡ₚ accounts s.
Proof. unfold expire. case_match eqn:E; [by apply accounts_settle|done]. Qed.

Lemma accounts_cleanup s : accounts (cleanup_pending_replies s) ≡ₚ accounts s.
Proof.
  unfold cleanup_pending_replies. generalize (map fst (base.filter (fun e => lapsed (ls_now s) (snd e) = true)
    (map_to_list (ls_pending s)))). intros l. revert s.
  induction l as [|id l IH]; intros s; simpl; [done|]. by rewrite IH, accounts_expire.
Qed.

Lemma accounts_incoming outcome r s : accounts (snd (handle_incoming_packet outcome r s)) ≡ₚ accounts s.
Proof.
  unfold handle_incoming_packet, handle_event_packet, route_reply.
  repeat case_match; simplify_eq/=; try done; try (by apply accounts_settle).
  rewrite accounts_emit. simpl. by rewrite app_nil_r.
Qed.

Lemma accounts_stop cause s : accounts (stop cause s) ≡ₚ accounts s.
Proof.
  unfold accounts, waiting, settled, stop. simpl.
  rewrite senders_empty, !omap_app, ended_dropped_map, ended_dropped_queue. simpl. solve_Permutation.
Qed.

(** What the handlers leave alone. *)
Definition frame (s : LoopState) : list CommandRequest * option string * bool * Z :=
  (ls_issued s, ls_shutdown s, ls_running s, ls_now s).

Lemma cleanup_ind (P : LoopState -> Prop) s :
  P s -> (forall s id, P s -> P (expire s id)) -> P (cleanup_pending_replies s).
Proof.
  intros Hs Hstep. unfold cleanup_pending_replies.
  generalize (map fst (base.filter (fun e => lapsed (ls_now s) (snd e) = true) (map_to_list (ls_pending s)))).
  intros l. revert s Hs. induction l as [|id l IH]; intros s Hs; simpl; auto.
Qed.

Lemma frame_expire s id : frame (expire s id) = frame s /\ ls_queue (expire s id) = ls_queue s.
Proof. unfold expire. by case_match. Qed.

Lemma frame_cleanup s :
  frame (cleanup_pending_replies s) = frame s /\ ls_queue (cleanup_pending_replies s) = ls_queue s.
Proof.
  apply (cleanup_ind (fun s' => frame s' = frame s /\ ls_queue s' = ls_queue s)); [done|].
  intros s' id [H1 H2]. destruct (frame_expire s' id) as [-> ->]. done.
Qed.

Lemma frame_outgoing io cmd q s :
  frame (handle_outgoing_command io cmd (set_queue q s)) = frame s /\
  ls_queue (handle_outgoing_command io cmd (set_queue q s)) = q.
Proof. by destruct io. Qed.

Lemma frame_incoming outcome r s :
  frame (snd (handle_incoming_packet outcome r s)) = frame s /\
  ls_queue (snd (handle_incoming_packet outcome r s)) = ls_queue s.
Proof.
  unfold handle_incoming_packet, handle_event_packet, route_reply. repeat case_match; simplify_eq/=; done.
Qed.

(** ** Correlation *)

(** [tx] belongs to a request with that id, and the request's packet is on the wire. *)
Definition asked (s : LoopState) (tx : Sender) (id : Z) : Prop :=
  exists req, req ∈ ls_issued s /\ cr_reply_tx req = tx /\ cp_id (cr_packet req) = id /\
    Wrote (encode (cr_packet req)) ∈ ls_log s.

Record correlated (s : LoopState) : Prop := {
  cor_queue : forall r, r ∈ ls_queue s -> r ∈ ls_issued s;
  cor_pending : forall id p, ls_pending s !! id = Some p -> asked s (pr_sender p) id;
  cor_sent : forall tx r, Sent tx (Ok r) ∈ ls_log s -> asked s tx (rp_id r);
}.

Lemma asked_mono s s' tx id :
  ls_issued s ⊆ ls_issued s' -> ls_log s ⊆ ls_log s' -> asked s tx id -> asked s' tx id.
Proof. intros H1 H2 (req & ? & ? & ? & ?). exists req. auto. Qed.

(** Solve an inclusion of a list in a longer one. *)
Ltac grow := intros ? ?; simpl; rewrite ?elem_of_app; tauto.

Lemma asked_emit es s tx id : asked s tx id -> asked (emit es s) tx id.
Proof. apply asked_mono; grow. Qed.

(** A state that keeps some pending entries and sends no reply, or only replies that were asked. *)
Lemma correlated_emit m es s :
  correlated s -> (forall i p, m !! i = Some p -> ls_pending s !! i = Some p) ->
  (forall tx r, Sent tx (Ok r) ∈ es -> asked s tx (rp_id r)) ->
  correlated (emit es (set_pending m s)).
Proof.
  intros [Hq Hp Hs] Hm He. split; simpl; [done|..].
  - intros i p H. apply asked_emit. by apply Hp, Hm.
  - intros tx r H. apply asked_emit. apply elem_of_app in H as [H|H]; [by apply Hs|by apply He].
Qed.

Lemma lookup_delete_incl {A} (m : gmap Z A) i j p : delete i m !! j = Some p -> m !! j = Some p.
Proof. intros H. by apply lookup_delete_Some in H as [_ H]. Qed.

(** Sending something else than a reply on a channel keeps the correlation, and so does removing a
    pending entry. *)
Lemma correlated_expire s id : correlated s -> correlated (expire s id).
Proof.
  intros Hc. unfold expire. case_match; [|done].
  apply correlated_emit; [done|eauto using lookup_delete_incl|].
  intros tx r H'. by apply list_elem_of_singleton in H'.
Qed.

Lemma correlated_set_queue cmd q s : ls_queue s = cmd :: q -> correlated s -> correlated (set_queue q s).
Proof.
  intros Hq [Hc Hp Hs]. split; simpl; [|done..]. intros r Hr. apply Hc. rewrite Hq. by right.
Qed.

Lemma correlated_outgoing io cmd q s :
  ls_queue s = cmd :: q -> correlated s -> correlated (handle_outgoing_command io cmd (set_queue q s)).
Proof.
  intros Hq Hc. assert (Hin : cmd ∈ ls_issued s) by (apply (cor_queue _ Hc); rewrite Hq; by left).
  pose proof (correlated_set_queue _ _ _ Hq Hc) as Hc'. destruct io as [|e|e]; simpl.
  - split; simpl; [apply Hc'|..].
    + intros id p H. destruct (decide (id = cp_id (cr_packet cmd))) as [->|Hne].
      * rewrite lookup_insert_eq in H. injection H as <-. exists cmd.
        split_and!; [done..|]. simpl. rewrite elem_of_app. right. by left.
      * rewrite lookup_insert_ne in H by done. eapply asked_mono; [..|by apply (cor_pending _ Hc')]; grow.
    + intros tx r H. eapply asked_mono; [..|apply (cor_sent _ Hc')]; [grow..|].
      apply elem_of_app in H as [H|H]; [done|]. apply elem_of_cons in H as [H|H]; [done|].
      destruct (ls_pending s !! _); simpl in H; [by apply list_elem_of_singleton in H|by apply elem_of_nil in H].
  - apply (correlated_emit (ls_pending s)); [done..|]. intros tx r H. by apply list_elem_of_singleton in H.
  - apply (correlated_emit (ls_pending s)); [done..|]. intros tx r H.
    apply elem_of_cons in H as [H|H]; [done|]. by apply list_elem_of_singleton in H.
Qed.

(** The key of a packet and the id its reply decodes to are the same bytes. *)
Lemma decode_packet_id raw r :
  framed raw -> decode raw = Ok r -> rp_id r = be_val (take 4 (drop 4 raw)).
Proof.
  intros (Hl & _) H. unfold decode in H. repeat case_match; simplify_eq. simpl.
  apply get_be_spec. rewrite length_drop. unfold HEADER_SIZE in Hl. lia.
Qed.

Lemma correlated_incoming outcome r s :
  match r with Ok p => exists raw, framed raw /\ p = packet_of raw | Err _ => True end ->
  correlated s -> correlated (snd (handle_incoming_packet outcome r s)).
Proof.
  intros Hr Hc. destruct r as [[[is_reply id] data]|e]; [|done].
  destruct Hr as (raw & Hf & [= -> -> ->]). unfold handle_incoming_packet, handle_event_packet, route_reply.
  repeat case_match; simplify_eq/=; try done;
    apply correlated_emit; try done; try (by eauto using lookup_delete_incl);
    intros tx r' H'; apply list_elem_of_singleton in H' as [=]; simplify_eq.
  erewrite decode_packet_id by done. by apply (cor_pending _ Hc).
Qed.

Lemma stop_log_sent tx r cause s : Sent tx r ∈ ls_log (stop cause s) -> Sent tx r ∈ ls_log s.
Proof.
  simpl. unfold dropped_map. rewrite !elem_of_app. intros [H|[H|H]]; [done|..];
    by apply list_elem_of_fmap in H as (? & ? & _).
Qed.

Lemma correlated_stop cause s : correlated s -> correlated (stop cause s).
Proof.
  intros [Hq Hp Hs]. split.
  - intros r H. by apply elem_of_nil in H.
  - intros id p H. simpl in H. by rewrite lookup_empty in H.
  - intros tx r Hin. eapply asked_mono; [..|by eapply Hs, stop_log_sent]; grow.
Qed.

Lemma correlated_step s i s' : correlated s -> input_ok s i -> loop_step s i = Some s' -> correlated s'.
Proof.
  intros Hc Hi H. destruct i as [req|ms|io| |[r|] outcome]; simpl in *.
  - repeat case_match; simplify_eq. destruct Hc as [Hq Hp Hs].
    split; simpl; intros; [|eapply asked_mono; [..|by (apply Hp || apply Hs)]; grow..].
    rewrite elem_of_app in *. intuition auto.
  - simplify_eq. by destruct Hc.
  - repeat case_match; simplify_eq. by apply correlated_outgoing.
  - case_match; simplify_eq. apply cleanup_ind; [done|]. intros. by apply correlated_expire.
  - case_match; [|done]. pose proof (correlated_incoming outcome r s) as Hin.
    destruct (handle_incoming_packet outcome r s) as [[cause|] s1]; simplify_eq/=;
      [apply correlated_stop|]; apply Hin; destruct r; auto.
  - case_match; simplify_eq. by apply correlated_stop.
Qed.

(** ** The books balance *)

(** Only issuing adds to them. *)
Lemma books_step s i s' :
  loop_step s i = Some s' ->
  match i with
  | InIssue req => ls_issued s' = ls_issued s ++ [req] /\ accounts s' ≡ₚ accounts s ++ [cr_reply_tx req]
  | _ => ls_issued s' = ls_issued s /\ accounts s' ≡ₚ accounts s
  end.
Proof.
  destruct i as [req|ms|io| |[r|] outcome]; simpl; intros H.
  - repeat case_match; simplify_eq. split; [done|].
    unfold accounts, waiting, settled, txs. simpl. rewrite map_app. simpl. solve_Permutation.
  - by simplify_eq.
  - repeat case_match; simplify_eq. split; [by destruct io|]. by apply accounts_outgoing.
  - case_match; simplify_eq. split; [|by apply accounts_cleanup].
    by destruct (frame_cleanup s) as [[= -> _ _ _] _].
  - case_match; [|done]. pose proof (accounts_incoming outcome r s) as Ha.
    destruct (frame_incoming outcome r s) as [[= Hi _ _ _] _].
    destruct (handle_incoming_packet outcome r s) as [[cause|] s1]; simplify_eq/=; [|done].
    split; [done|]. by rewrite accounts_stop.
  - case_match; simplify_eq. split; [done|]. apply accounts_stop.
Qed.

Lemma books_inv s :
  reachable s -> NoDup (txs (ls_issued s)) /\ accounts s ≡ₚ txs (ls_issued s) /\ correlated s.
Proof.
  induction 1 as [now|s i s' _ (Hn & Ha & Hc) Hi H].
  - split; [constructor|]. split.
    + unfold accounts, waiting, settled. simpl. by rewrite senders_empty.
    + split; simpl; intros *; [by intros ?%elem_of_nil|by rewrite lookup_empty|by intros ?%elem_of_nil].
  - split_and!; [| |by eapply correlated_step].
    + apply books_step in H. destruct i; destruct H as [-> _]; try done. simpl in Hi.
      unfold txs in *. rewrite map_app. apply list.NoDup_app. split_and!; [done| |apply NoDup_singleton].
      intros tx Htx Hin. apply list_elem_of_singleton in Hin as ->. done.
    + apply books_step in H. destruct i; destruct H as [-> ->]; rewrite Ha; try done.
      unfold txs. by rewrite map_app.
Qed.

(** ** After the end *)

Record ending (s : LoopState) : Prop := {
  end_running : ls_running s = true -> ls_shutdown s = None;
  end_stopped : ls_running s = false -> waiting s = [] /\ ls_shutdown s <> None;
  end_depth : (length (ls_queue s) <= COMMAND_CHANNEL_DEPTH)%nat;
}.

Lemma ending_frame s s' :
  frame s' = frame s -> ls_running s = true -> (length (ls_queue s') <= length (ls_queue s))%nat ->
  ending s -> ending s'.
Proof.
  intros [= _ Hs Hr _] Hrun Hq [He1 He2 He3].
  split; rewrite ?Hr, ?Hs, ?Hrun; [auto|done|lia].
Qed.

Lemma ending_stop cause s : ending (stop cause s).
Proof.
  split; simpl; [done| |unfold COMMAND_CHANNEL_DEPTH; lia].
  intros _. unfold waiting. simpl. rewrite senders_empty. split; [done|]. by case_match.
Qed.

Lemma ending_step s i s' : ending s -> loop_step s i = Some s' -> ending s'.
Proof.
  intros He H. destruct i as [req|ms|io| |[r|] outcome]; simpl in H.
  - repeat case_match; simplify_eq. destruct He as [He1 He2 He3]. split; simpl; [auto|done|].
    rewrite length_app. simpl. match goal with H : (_ <? _)%nat = true |- _ => apply Nat.ltb_lt in H end. lia.
  - simplify_eq. by destruct He.
  - repeat case_match; simplify_eq. match goal with H : ls_queue _ = _ |- _ => rename H into Hq end.
    destruct (frame_outgoing io c l s) as [Hf Hl]. eapply ending_frame; [done..| |done].
    rewrite Hl, Hq. simpl. lia.
  - case_match; simplify_eq. destruct (frame_cleanup s) as [Hf Hq].
    eapply ending_frame; [done..|by rewrite Hq|done].
  - case_match; [|done]. destruct (frame_incoming outcome r s) as [Hf Hq].
    destruct (handle_incoming_packet outcome r s) as [[cause|] s1]; injection H as <-; [apply ending_stop|].
    cbn [snd] in *. eapply ending_frame; [done..|by rewrite Hq|done].
  - case_match; simplify_eq. apply ending_stop.
Qed.

Lemma ending_inv s : reachable s -> ending s.
Proof.
  induction 1 as [now|s i s' _ IH _ H]; [|by eapply ending_step].
  split; simpl; [done..|unfold COMMAND_CHANNEL_DEPTH; lia].
Qed.

(** A sender is dropped while the loop runs only when an id is reused. *)
Definition no_drops (s : LoopState) : Prop :=
  ls_running s = true -> NoDup (ids (ls_issued s)) -> forall tx, Dropped tx ∉ ls_log s.

Lemma no_drops_emit m es s :
  (forall tx, Dropped tx ∉ es) -> no_drops s -> no_drops (emit es (set_pending m s)).
Proof.
  intros He Hd Hr Hn tx Hin. simpl in *. apply elem_of_app in Hin as [Hin|Hin]; [by apply (Hd Hr Hn tx)|].
  by destruct (He tx).
Qed.

Lemma NoDup_map_inj {A B} (f : A -> B) l x y : NoDup (map f l) -> x ∈ l -> y ∈ l -> f x = f y -> x = y.
Proof.
  intros Hn Hx Hy Hf. apply list_elem_of_lookup in Hx as [i Hi]. apply list_elem_of_lookup in Hy as [j Hj].
  assert (i = j) as ->; [|congruence].
  apply (NoDup_lookup (f <$> l) i j (f x)); [done|..]; rewrite list_lookup_fmap.
  - by rewrite Hi.
  - by rewrite Hj, Hf.
Qed.

(** The id of a queued request is not pending. *)
Lemma fresh_id s cmd q :
  NoDup (txs (ls_issued s)) -> accounts s ≡ₚ txs (ls_issued s) -> correlated s ->
  NoDup (ids (ls_issued s)) -> ls_queue s = cmd :: q -> ls_pending s !! cp_id (cr_packet cmd) = None.
Proof.
  intros Hn Ha Hc Hids Hq. destruct (ls_pending s !! _) as [p|] eqn:E; [exfalso|done].
  destruct (cor_pending _ Hc _ _ E) as (req & Hreq & Htx & Hid & _).
  assert (req = cmd) as ->.
  { eapply (NoDup_map_inj (fun r => cp_id (cr_packet r))); [done..| |done].
    apply (cor_queue _ Hc). rewrite Hq. by left. }
  rewrite <- Ha in Hn. unfold accounts, waiting in Hn. rewrite Hq in Hn. simpl in Hn.
  rewrite (senders_delete _ _ _ E), Htx in Hn. apply list.NoDup_cons in Hn as [Hn _]. apply Hn.
  rewrite !elem_of_app. left. right. by left.
Qed.

Lemma no_drops_step s i s' : reachable s -> no_drops s -> loop_step s i = Some s' -> no_drops s'.
Proof.
  intros Hre Hd H. destruct (books_inv s Hre) as (Hn & Ha & Hc).
  destruct i as [req|ms|io| |[r|] outcome]; simpl in H.
  - repeat case_match; simplify_eq. intros Hr Hids. apply Hd; [done|]. simpl in Hids.
    unfold ids in *. rewrite map_app in Hids. by apply list.NoDup_app in Hids as [? _].
  - by simplify_eq.
  - repeat case_match; simplify_eq. match goal with H : ls_queue _ = _ |- _ => rename H into Hq end.
    intros Hr Hids. destruct (frame_outgoing io c l s) as [[= Hi _ _ _] _]. rewrite Hi in Hids.
    pose proof (fresh_id s c l Hn Ha Hc Hids Hq) as Hfresh. specialize (Hd ltac:(done) Hids).
    intros tx Hin. destruct io; simpl in Hin; rewrite ?Hfresh in Hin; simpl in Hin;
      apply elem_of_app in Hin as [Hin|Hin]; try (by apply (Hd tx));
      repeat (apply elem_of_cons in Hin as [Hin|Hin]; [done|]); by apply elem_of_nil in Hin.
  - case_match; simplify_eq. apply cleanup_ind; [done|]. intros s' id Hs'. unfold expire. case_match; [|done].
    apply no_drops_emit; [|done]. intros tx Htx. by apply list_elem_of_singleton in Htx.
  - case_match; [|done]. unfold handle_incoming_packet, handle_event_packet, route_reply in H.
    repeat (case_match; simplify_eq/=; try done); try (by intros Hr; simpl in Hr);
      try (apply (no_drops_emit (ls_pending s))); try apply no_drops_emit; try done;
      intros tx Htx; by apply list_elem_of_singleton in Htx.
  - case_match; simplify_eq. by intros Hr.
Qed.

Lemma no_drops_inv s : reachable s -> no_drops s.
Proof.
  induction 1 as [now|s i s' Hre IH _ H]; [|by eapply no_drops_step].
  intros _ _ tx Hin. by apply elem_of_nil in Hin.
Qed.

(** ** The properties *)

(** C2. No call is lost and none is answered twice: at every moment each request the command channel
    ever took is held in exactly one place (the queue, the pending replies) or has had its one
    outcome; and once the loop has stopped, whatever stopped it, every one of them has had it. *)
Theorem every_call_settled_once (s : LoopState) :
  reachable s ->
  NoDup (waiting s ++ settled s) /\
  waiting s ++ settled s ≡ₚ txs (ls_issued s) /\
  (ls_running s = false -> settled s ≡ₚ txs (ls_issued s)).
Proof.
  intros Hre. destruct (books_inv s Hre) as (Hn & Ha & _).
  split; [by rewrite <- Ha in Hn|]. split; [done|].
  intros Hr. destruct (end_stopped _ (ending_inv s Hre) Hr) as [Hw _].
  unfold accounts in Ha. by rewrite Hw in Ha.
Qed.

(** C3. Replies are correlated: a reply handed to a caller carries the id of the command that very
    caller issued, and that command was written to the debuggee whole. *)
Theorem replies_correlated (s : LoopState) (tx : Sender) (r : ReplyPacket) :
  reachable s -> Sent tx (Ok r) ∈ ls_log s ->
  exists req, req ∈ ls_issued s /\ cr_reply_tx req = tx /\ cp_id (cr_packet req) = rp_id r /\
    Wrote (encode (cr_packet req)) ∈ ls_log s.
Proof. intros Hre. destruct (books_inv s Hre) as (_ & _ & Hc). apply Hc. Qed.

Lemma receiver_dropped tx log : receiver tx log = Some None -> Dropped tx ∈ log.
Proof.
  induction log as [|e log IH]; [done|]. destruct e as [|tx' r|tx'|]; simpl.
  - intros Hin. right. auto.
  - case_match; [done|]. intros Hin. right. auto.
  - case_match eqn:E; [apply Nat.eqb_eq in E as ->; by left|]. intros Hin. right. auto.
  - intros Hin. right. auto.
Qed.

(** C6. A caller whose reply is lost is told why: as long as no packet id is reused, a reply channel
    whose sender was dropped means the loop has stopped and had recorded its cause before, so the
    caller gets [ConnectionClosed] with that cause; so does every later [issue], and the fallback
    text is never produced. *)
Theorem lost_call_names_cause (s : LoopState) (tx : Sender) :
  reachable s -> NoDup (ids (ls_issued s)) -> receiver tx (ls_log s) = Some None ->
  exists cause, ls_shutdown s = Some cause /\
    reply None (ls_shutdown s) = Err (ConnectionClosed cause) /\
    issue false (ls_shutdown s) = Err (ConnectionClosed cause).
Proof.
  intros Hre Hids Hr. apply receiver_dropped in Hr. destruct (ls_running s) eqn:E.
  - by destruct (no_drops_inv s Hre E Hids tx).
  - destruct (end_stopped _ (ending_inv s Hre) E) as [_ Hs]. destruct (ls_shutdown s) as [cause|]; [|done].
    by exists cause.
Qed.

(** ** The cleanup *)

Definition timed_out (p : PendingReply) : Effect := Sent (pr_sender p) (Err (ReplyTimeout REPLY_TIMEOUT_SECS)).

Lemma expire_lookup s id i :
  ls_pending (expire s id) !! i = if decide (i = id) then None else ls_pending s !! i.
Proof.
  unfold expire. destruct (ls_pending s !! id) eqn:E; simpl; case_decide as Hi; simplify_eq; try done.
  - by rewrite lookup_delete_eq.
  - by rewrite lookup_delete_ne.
Qed.

Lemma expire_log s id :
  ls_log (expire s id) = ls_log s ++ option_list (timed_out <$> ls_pending s !! id).
Proof. unfold expire. destruct (ls_pending s !! id); simpl; [done|by rewrite app_nil_r]. Qed.

Lemma expire_all l s :
  NoDup l ->
  (forall i, ls_pending (foldl expire s l) !! i = if decide (i ∈ l) then None else ls_pending s !! i) /\
  ls_log (foldl expire s l) = ls_log s ++ omap (fun id => timed_out <$> ls_pending s !! id) l.
Proof.
  revert s. induction l as [|id l IH]; intros s Hn; simpl.
  { split; [done|by rewrite app_nil_r]. }
  apply list.NoDup_cons in Hn as [Hid Hn]. destruct (IH (expire s id) Hn) as [IH1 IH2]. split.
  - intros i. rewrite IH1, expire_lookup.
    destruct (decide (i ∈ id :: l)) as [Hin|Hin], (decide (i ∈ l)) as [Hl|Hl], (decide (i = id)) as [->|Hne];
      try done; rewrite elem_of_cons in Hin; tauto.
  - rewrite IH2, expire_log, <- (assoc_L (++)). f_equal.
    assert (Hext : omap (fun i => timed_out <$> ls_pending (expire s id) !! i) l =
                   omap (fun i => timed_out <$> ls_pending s !! i) l).
    { clear IH IH1 IH2 Hn. induction l as [|j l IHl]; [done|]. rewrite elem_of_cons in Hid. csimpl.
      rewrite IHl, expire_lookup by tauto. rewrite decide_False by (intros ->; tauto). done. }
    rewrite Hext. by destruct (ls_pending s !! id).
Qed.

Lemma lapsed_ids_nodup s :
  NoDup (map fst (base.filter (fun e => lapsed (ls_now s) (snd e) = true) (map_to_list (ls_pending s)))).
Proof. apply (sublist_NoDup _ (map_to_list (ls_pending s)).*1);
  [apply NoDup_fst_map_to_list|apply fmap_sublist, sublist_filter]. Qed.

Lemma elem_of_lapsed_ids s i :
  i ∈ map fst (base.filter (fun e => lapsed (ls_now s) (snd e) = true) (map_to_list (ls_pending s))) <->
  exists p, ls_pending s !! i = Some p /\ lapsed (ls_now s) p = true.
Proof.
  rewrite list_elem_of_fmap. split.
  - intros ([j p] & -> & Hin). apply list_elem_of_filter in Hin as [Hl Hin].
    apply elem_of_map_to_list in Hin. eauto.
  - intros (p & Hp & Hl). exists (i, p). split; [done|]. by apply list_elem_of_filter, conj, elem_of_map_to_list.
Qed.

Lemma omap_length_total {A B} (f : A -> option B) l :
  (forall a, a ∈ l -> is_Some (f a)) -> length (omap f l) = length l.
Proof.
  induction l as [|a l IH]; intros H; [done|]. csimpl.
  destruct (H a) as [b ->]; [by left|]. simpl. f_equal. apply IH. intros a' Ha. apply H. by right.
Qed.

(** The cleanup tick abandons exactly the calls that have waited more than thirty seconds: they
    leave the pending map and each gets one [ReplyTimeout], every other entry stays as it was, and
    nothing else is sent; so no call outlives its deadline by more than the tick's period. *)
Theorem cleanup_exact (s : LoopState) :
  (forall id, ls_pending (cleanup_pending_replies s) !! id =
     p ← ls_pending s !! id; if lapsed (ls_now s) p then None else Some p) /\
  exists sent, ls_log (cleanup_pending_replies s) = ls_log s ++ sent /\
    (forall e, e ∈ sent <->
       exists id p, ls_pending s !! id = Some p /\ REPLY_TIMEOUT < ls_now s - pr_sent_at p /\
         e = Sent (pr_sender p) (Err (ReplyTimeout 30))) /\
    length sent =
      length (base.filter (fun e => lapsed (ls_now s) (snd e) = true) (map_to_list (ls_pending s))).
Proof.
  unfold cleanup_pending_replies.
  destruct (expire_all _ s (lapsed_ids_nodup s)) as [H1 H2]. split.
  - intros id. rewrite H1. case_decide as Hin.
    + apply elem_of_lapsed_ids in Hin as (p & -> & Hl). simpl. by rewrite Hl.
    + destruct (ls_pending s !! id) as [p|] eqn:E; simpl; [|done].
      destruct (lapsed (ls_now s) p) eqn:Hl; [|done]. destruct Hin. apply elem_of_lapsed_ids. eauto.
  - eexists. split; [exact H2|]. split.
    + intros e. rewrite list_elem_of_omap. split.
      * intros (id & Hin & He). apply elem_of_lapsed_ids in Hin as (p & Hp & Hl). rewrite Hp in He.
        injection He as <-. apply Z.ltb_lt in Hl. eauto.
      * intros (id & p & Hp & Hl & ->). exists id. rewrite elem_of_lapsed_ids, Hp. apply Z.ltb_lt in Hl. eauto.
    + rewrite omap_length_total; [apply length_map|].
      intros id Hin. apply elem_of_lapsed_ids in Hin as (p & Hp & _). by rewrite Hp.
Qed.
End LoopFacts.

(** ** A session: two calls, one reply, an event, a late caller and the end of the stream *)

Definition sample_request (id : Z) (tx : Sender) : CommandRequest :=
  {| cr_packet := new_command id 1 1; cr_reply_tx := tx |}.

Definition sample_reply : bytes := [0;0;0;12; 0;0;0;1; 0x80; 0;0; 5].

Definition sample_inputs : list Input := [
  InIssue (sample_request 1 10); InIssue (sample_request 2 11); InCommand Written; InCommand Written;
  InPacket (Some (Ok (packet_of sample_reply))) SendOk; InAdvance 5000;
  InIssue (sample_request 3 12); InPacket (Some (Err (Io "early eof"))) SendOk ].

Definition sample_end : LoopState :=
  default (loop_init 0) (loop_run (BC := network_order) (loop_init 0) sample_inputs).

Definition input_okb (s : LoopState) (i : Input) : bool :=
  match i with
  | InIssue req => bool_decide (cr_reply_tx req ∉ txs (ls_issued s))
  | InAdvance ms => 0 <=? ms
  | InPacket (Some (Ok p)) _ => bool_decide (framed (snd p)) && bool_decide (p = packet_of (snd p))
  | _ => true
  end.

Lemma input_okb_ok s i : input_okb s i = true -> input_ok s i.
Proof.
  destruct i as [req|ms|io| |[[p|e]|] outcome]; simpl; try done.
  - by intros ?%bool_decide_eq_true_1.
  - by intros ?%Z.leb_le.
  - intros [H1 H2]%andb_true_iff. apply bool_decide_eq_true_1 in H1, H2. eauto.
Qed.

(** The inputs of a run, checked one by one. *)
Fixpoint run_ok (s : LoopState) (ins : list Input) : bool :=
  match ins with
  | [] => true
  | i :: ins => input_okb s i &&
      match loop_step (BC := network_order) s i with Some s' => run_ok s' ins | None => false end
  end.

Lemma run_reachable ins s s' :
  reachable (BC := network_order) s -> run_ok s ins = true ->
  loop_run (BC := network_order) s ins = Some s' -> reachable (BC := network_order) s'.
Proof.
  revert s. induction ins as [|i ins IH]; intros s Hs Hok Hrun; simpl in *; [by simplify_eq|].
  apply andb_true_iff in Hok as [Hi Hok]. destruct (loop_step s i) as [s1|] eqn:E; [|done].
  apply (IH s1); [|done..]. eapply reach_step; [done| |done]. by apply input_okb_ok.
Qed.

Lemma sample_reachable : reachable (BC := network_order) sample_end.
Proof.
  apply (run_reachable sample_inputs (loop_init 0)); [constructor|vm_compute; reflexivity..].
Qed.

Lemma every_call_settled_once_witness :
  NoDup (waiting sample_end ++ settled sample_end) /\
  waiting sample_end ++ settled sample_end ≡ₚ txs (ls_issued sample_end) /\
  (ls_running sample_end = false -> settled sample_end ≡ₚ txs (ls_issued sample_end)).
Proof. apply (every_call_settled_once (BC := network_order)), sample_reachable. Defined.

Lemma replies_correlated_witness :
  exists req, req ∈ ls_issued sample_end /\ cr_reply_tx req = 10%nat /\ cp_id (cr_packet req) = 1 /\
    Wrote (encode (BC := network_order) (cr_packet req)) ∈ ls_log sample_end.
Proof.
  apply (replies_correlated (BC := network_order) sample_end 10
    {| rp_id := 1; rp_error_code := 0; rp_data := [5] |}); [apply sample_reachable|by_compute].
Defined.

Lemma lost_call_names_cause_witness :
  exists cause, ls_shutdown sample_end = Some cause /\
    reply None (ls_shutdown sample_end) = Err (ConnectionClosed cause) /\
    issue false (ls_shutdown sample_end) = Err (ConnectionClosed cause).
Proof.
  apply (lost_call_names_cause (BC := network_order) sample_end 12);
    [apply sample_reachable|by_compute|vm_compute; reflexivity].
Defined.
