(* ===== verification/Connection.v ===== *)
(** * The connection ([jdwp-client/src/connection.rs])

    The state every clone of a [JdwpConnection] shares, the calls on it as state-passing programs, the
    wave of independent reads, and the cache of type information.

    What the event loop and the debuggee do is a parameter: the class [Debuggee] gives the outcome of
    issuing a packet and of waiting for its reply, as functions of everything that happened before,
    with no law at all. The theorems hold for every such behaviour. *)

From S2P Require Import Prelude Protocol Types Reader.

Definition DEFAULT_INVOKE_TIMEOUT_MS : Z := 2000.
Definition MAX_READS_IN_FLIGHT : nat := 16.

Record MethodInfo : Type := {
  mi_method_id : MethodId;
  mi_name : string;
  mi_signature : string;
  mi_generic_signature : option string;
  mi_mod_bits : Z;
}.

Record FieldInfo : Type := {
  fi_field_id : FieldId;
  fi_name : string;
  fi_signature : string;
  fi_generic_signature : option string;
  fi_mod_bits : Z;
}.

(** ** The type cache *)

Record TypeCache : Type := {
  tc_signatures : gmap ReferenceTypeId string;
  tc_fields : gmap ReferenceTypeId (list FieldInfo);
  tc_methods : gmap ReferenceTypeId (list MethodInfo);
  tc_superclasses : gmap ClassId (option ClassId);
  tc_interfaces : gmap ReferenceTypeId (list ReferenceTypeId);
}.

Definition empty_cache : TypeCache :=
  {| tc_signatures := ∅; tc_fields := ∅; tc_methods := ∅; tc_superclasses := ∅; tc_interfaces := ∅ |}.

Inductive CachedSuperclass : Type := Unknown | Root | Parent (id : ClassId).

Definition cached_signature (c : TypeCache) (id : ReferenceTypeId) : option string := tc_signatures c !! id.
Definition cached_fields (c : TypeCache) (id : ReferenceTypeId) : option (list FieldInfo) := tc_fields c !! id.
Definition cached_methods (c : TypeCache) (id : ReferenceTypeId) : option (list MethodInfo) := tc_methods c !! id.
Definition cached_superclass (c : TypeCache) (id : ClassId) : CachedSuperclass :=
  match tc_superclasses c !! id with
  | None => Unknown
  | Some None => Root
  | Some (Some parent) => Parent parent
  end.
Definition cached_interfaces (c : TypeCache) (id : ReferenceTypeId) : option (list ReferenceTypeId) :=
  tc_interfaces c !! id.

Definition put_signature (id : ReferenceTypeId) (sig : string) (c : TypeCache) : TypeCache :=
  {| tc_signatures := <[id := sig]> (tc_signatures c); tc_fields := tc_fields c;
     tc_methods := tc_methods c; tc_superclasses := tc_superclasses c; tc_interfaces := tc_interfaces c |}.
Definition put_fields (id : ReferenceTypeId) (fields : list FieldInfo) (c : TypeCache) : TypeCache :=
  {| tc_signatures := tc_signatures c; tc_fields := <[id := fields]> (tc_fields c);
     tc_methods := tc_methods c; tc_superclasses := tc_superclasses c; tc_interfaces := tc_interfaces c |}.
Definition put_methods (id : ReferenceTypeId) (methods : list MethodInfo) (c : TypeCache) : TypeCache :=
  {| tc_signatures := tc_signatures c; tc_fields := tc_fields c;
     tc_methods := <[id := methods]> (tc_methods c); tc_superclasses := tc_superclasses c;
     tc_interfaces := tc_interfaces c |}.
Definition put_superclass (id : ClassId) (parent : option ClassId) (c : TypeCache) : TypeCache :=
  {| tc_signatures := tc_signatures c; tc_fields := tc_fields c; tc_methods := tc_methods c;
     tc_superclasses := <[id := parent]> (tc_superclasses c); tc_interfaces := tc_interfaces c |}.
Definition put_interfaces (id : ReferenceTypeId) (ifaces : list ReferenceTypeId) (c : TypeCache) : TypeCache :=
  {| tc_signatures := tc_signatures c; tc_fields := tc_fields c; tc_methods := tc_methods c;
     tc_superclasses := tc_superclasses c; tc_interfaces := <[id := ifaces]> (tc_interfaces c) |}.

Definition invalidate (id : ReferenceTypeId) (c : TypeCache) : TypeCache :=
  {| tc_signatures := delete id (tc_signatures c); tc_fields := delete id (tc_fields c);
     tc_methods := delete id (tc_methods c); tc_superclasses := delete id (tc_superclasses c);
     tc_interfaces := delete id (tc_interfaces c) |}.

(** ** The connection's state *)

(** What happened on the wire, for the specification: a packet taken by the event loop or refused, a
    reply that came (or the error that came instead), a wait given up when the invocation budget
    lapsed, before or after the packet was taken. *)
Inductive WireEvent : Type :=
| Issued (p : CommandPacket)
| Refused (p : CommandPacket) (e : JdwpError)
| Answered (p : CommandPacket) (r : JdwpResult ReplyPacket)
| Stalled (p : CommandPacket)
| Abandoned (p : CommandPacket).

Record World : Type := {
  w_next_id : Z;
  w_types : TypeCache;
  w_read_only : bool;
  w_invoke_timeout_ms : Z;
  w_round_trips : Z;
  w_log : list WireEvent;
}.

Definition world_init : World :=
  {| w_next_id := 1; w_types := empty_cache; w_read_only := false;
     w_invoke_timeout_ms := DEFAULT_INVOKE_TIMEOUT_MS; w_round_trips := 0; w_log := [] |}.

Definition record_event (e : WireEvent) (w : World) : World :=
  {| w_next_id := w_next_id w; w_types := w_types w; w_read_only := w_read_only w;
     w_invoke_timeout_ms := w_invoke_timeout_ms w; w_round_trips := w_round_trips w;
     w_log := w_log w ++ [e] |}.
Definition with_types (f : TypeCache -> TypeCache) (w : World) : World :=
  {| w_next_id := w_next_id w; w_types := f (w_types w); w_read_only := w_read_only w;
     w_invoke_timeout_ms := w_invoke_timeout_ms w; w_round_trips := w_round_trips w; w_log := w_log w |}.
Definition add_round_trips (n : Z) (w : World) : World :=
  {| w_next_id := w_next_id w; w_types := w_types w; w_read_only := w_read_only w;
     w_invoke_timeout_ms := w_invoke_timeout_ms w;
     w_round_trips := wrap_u 32 (w_round_trips w + n); w_log := w_log w |}.

(** A call that cannot fail is a state transformer; a fallible one returns a [JdwpResult]. *)
Definition St (A : Type) : Type := World -> A * World.
#[global] Instance st_ret : MRet St := fun _ a w => (a, w).
#[global] Instance st_bind : MBind St := fun _ _ k m w => let '(a, w) := m w in k a w.

Definition M (A : Type) : Type := World -> JdwpResult A * World.
#[global] Instance m_ret : MRet M := fun _ a w => (Ok a, w).
#[global] Instance m_bind : MBind M := fun _ _ k m w =>
  match m w with
  | (Ok a, w) => k a w
  | (Err e, w) => (Err e, w)
  end.

(** An infallible call inside a fallible one, a pure result inside one, and the result of a call. *)
Definition lift {A} (m : St A) : M A := fun w => let '(a, w) := m w in (Ok a, w).
Definition of_result {A} (r : JdwpResult A) : M A := fun w => (r, w).
Definition attempt {A} (m : M A) : St (JdwpResult A) := m.
Definition modify (f : World -> World) : St unit := fun w => (tt, f w).
Definition gets {A} (f : World -> A) : St A := fun w => (f w, w).

Fixpoint st_map {A B} (f : A -> St B) (l : list A) : St (list B) :=
  match l with
  | [] => mret []
  | a :: l => b ← f a; bs ← st_map f l; mret (b :: bs)
  end.

(** The event loop and the debuggee behind it. *)
Class Debuggee : Type := {
  issue_outcome : list WireEvent -> CommandPacket -> option JdwpError;
  reply_outcome : list WireEvent -> CommandPacket -> JdwpResult ReplyPacket;
  lapses_unissued : list WireEvent -> CommandPacket -> bool;
  lapses_unanswered : list WireEvent -> CommandPacket -> bool;
}.

Definition set_read_only (read_only : bool) : St unit := modify (fun w =>
  {| w_next_id := w_next_id w; w_types := w_types w; w_read_only := read_only;
     w_invoke_timeout_ms := w_invoke_timeout_ms w; w_round_trips := w_round_trips w; w_log := w_log w |}).

Definition is_read_only : St bool := gets w_read_only.

Definition guard_mutation (what : string) : M unit :=
  read_only ← lift is_read_only;
  if read_only : bool then of_result (Err (ReadOnly what)) else mret tt.

Definition set_invoke_timeout_ms (ms : Z) : St unit := modify (fun w =>
  {| w_next_id := w_next_id w; w_types := w_types w; w_read_only := w_read_only w;
     w_invoke_timeout_ms := ms; w_round_trips := w_round_trips w; w_log := w_log w |}).

Definition invoke_timeout_ms : St Z := gets w_invoke_timeout_ms.

Definition next_id : St Z := fun w =>
  (w_next_id w,
   {| w_next_id := wrap_u 32 (w_next_id w + 1); w_types := w_types w; w_read_only := w_read_only w;
      w_invoke_timeout_ms := w_invoke_timeout_ms w; w_round_trips := w_round_trips w; w_log := w_log w |}).

Definition packets_sent : St Z := gets (fun w => sat_sub (w_next_id w) 1).
Definition round_trips : St Z := gets w_round_trips.

(** [buf != JDWP_HANDSHAKE] decides; [answered] is what came back on the socket, or its error. *)
Definition handshake (answered : result string bytes) : JdwpResult unit :=
  match answered with
  | Err e => Err (Io e)
  | Ok buf => if bool_decide (buf = JDWP_HANDSHAKE) then Ok tt else Err InvalidHandshake
  end.

Section Calls.
Context `{D : Debuggee}.

(** [EventLoopHandle::issue], then [InFlight::reply]. *)
Definition issue_packet (p : CommandPacket) : M unit := fun w =>
  match issue_outcome (w_log w) p with
  | Some e => (Err e, record_event (Refused p e) w)
  | None => (Ok tt, record_event (Issued p) w)
  end.

Definition await_reply (p : CommandPacket) : M ReplyPacket := fun w =>
  let r := reply_outcome (w_log w) p in (r, record_event (Answered p r) w).

Definition send_command (p : CommandPacket) : M ReplyPacket :=
  _ ← lift (modify (add_round_trips 1));
  _ ← issue_packet p;
  await_reply p.

(** [tokio::time::timeout] around [send_command]: the budget may lapse while the command channel is
    full, or while the reply is awaited. *)
Definition send_command_timed (ms : Z) (p : CommandPacket) : M ReplyPacket :=
  _ ← lift (modify (add_round_trips 1));
  log ← lift (gets w_log);
  if lapses_unissued log p then
    _ ← lift (modify (record_event (Stalled p))); of_result (Err (InvokeTimeout ms))
  else
    _ ← issue_packet p;
    log ← lift (gets w_log);
    if lapses_unanswered log p then
      _ ← lift (modify (record_event (Abandoned p))); of_result (Err (InvokeTimeout ms))
    else await_reply p.

Definition send_invoke (p : CommandPacket) : M ReplyPacket :=
  ms ← lift invoke_timeout_ms;
  if ms =? 0 then send_command p else send_command_timed ms p.

(** [while let Some(in_flight) = window.pop_front() { results.push(in_flight.reply().await) }]: an
    in-flight command is known here by its packet. *)
Fixpoint drain (window : list CommandPacket) (results : list (JdwpResult ReplyPacket)) :
    St (list (JdwpResult ReplyPacket)) :=
  match window with
  | [] => mret results
  | in_flight :: window => r ← attempt (await_reply in_flight); drain window (results ++ [r])
  end.

(** The loop over the packets, and the drain after it. *)
Fixpoint issue_all (packets window : list CommandPacket) (results : list (JdwpResult ReplyPacket)) :
    St (list (JdwpResult ReplyPacket)) :=
  match packets with
  | [] => drain window results
  | packet :: packets =>
    '(window, results) ← (
      if (MAX_READS_IN_FLIGHT <=? length window)%nat then
        match window with
        | oldest :: window => r ← attempt (await_reply oldest); mret (window, results ++ [r])
        | [] => mret (window, results)
        end
      else mret (window, results) : St (list CommandPacket * list (JdwpResult ReplyPacket)));
    issued ← attempt (issue_packet packet);
    match issued with
    | Ok _ => issue_all packets (window ++ [packet]) results
    | Err e =>
      results ← drain window results;
      issue_all packets [] (results ++ [Err e])
    end
  end.

Definition waves (n : nat) : Z := (Z.of_nat n + Z.of_nat MAX_READS_IN_FLIGHT - 1) / Z.of_nat MAX_READS_IN_FLIGHT.

Definition read_independently (packets : list CommandPacket) : St (list (JdwpResult ReplyPacket)) :=
  _ ← modify (add_round_trips (u32_of_len (waves (length packets))));
  issue_all packets [] [].
End Calls.

(** ** Independent reads *)

(** The outcomes of a log, in the order they were settled. *)
Definition outcome (e : WireEvent) : option (CommandPacket * JdwpResult ReplyPacket) :=
  match e with
  | Refused p e => Some (p, Err e)
  | Answered p r => Some (p, r)
  | _ => None
  end.
Definition outcomes (log : list WireEvent) : list (CommandPacket * JdwpResult ReplyPacket) := omap outcome log.

(** The packets an issue was attempted for. *)
Definition attempted (e : WireEvent) : option CommandPacket :=
  match e with Issued p | Refused p _ | Stalled p => Some p | _ => None end.
Definition attempts (log : list WireEvent) : list CommandPacket := omap attempted log.

(** How many commands are issued and unanswered after a log. *)
Definition in_flight_delta (e : WireEvent) : Z :=
  match e with Issued _ => 1 | Answered _ _ | Abandoned _ => -1 | _ => 0 end.
Definition in_flight (log : list WireEvent) : Z := foldr Z.add 0 (map in_flight_delta log).

Lemma in_flight_app l k : in_flight (l ++ k) = in_flight l + in_flight k.
Proof. unfold in_flight. rewrite map_app. induction l; simpl; lia. Qed.

(** Every moment of a log keeps the number in flight, counted from [n], within the window. *)
Definition within_window (n : Z) (log : list WireEvent) : Prop :=
  forall k, 0 <= n + in_flight (take k log) <= Z.of_nat MAX_READS_IN_FLIGHT.

Lemma within_window_nil n : 0 <= n <= Z.of_nat MAX_READS_IN_FLIGHT -> within_window n [].
Proof. intros H k. rewrite take_nil. unfold in_flight. simpl. lia. Qed.

Lemma within_window_cons n e log :
  0 <= n <= Z.of_nat MAX_READS_IN_FLIGHT -> within_window (n + in_flight_delta e) log ->
  within_window n (e :: log).
Proof.
  intros Hn H [|k]; simpl; [unfold in_flight; simpl; lia|].
  specialize (H k). unfold in_flight in *. simpl. lia.
Qed.

Lemma within_window_app n l k :
  within_window n l -> within_window (n + in_flight l) k -> within_window n (l ++ k).
Proof.
  revert n. induction l as [|e l IH]; intros n Hl Hk; simpl.
  { unfold in_flight in Hk. simpl in Hk. by rewrite Z.add_0_r in Hk. }
  apply within_window_cons; [by apply (Hl O) || (specialize (Hl O); unfold in_flight in Hl; simpl in Hl; lia)|].
  apply IH.
  - intros i. specialize (Hl (S i)). unfold in_flight in *. simpl in Hl. lia.
  - unfold in_flight in *. simpl in Hk. by rewrite Z.add_assoc in Hk.
Qed.

(** What waiting and issuing leave alone. *)
Definition settings (w : World) : Z * TypeCache * bool * Z :=
  (w_next_id w, w_types w, w_read_only w, w_invoke_timeout_ms w).

Section WaveFacts.
Context `{D : Debuggee}.

Lemma drain_spec window results w rs w' :
  drain window results w = (rs, w') ->
  exists new more, w_log w' = w_log w ++ new /\ rs = results ++ more /\
    outcomes new ≡ₚ zip window more /\ length more = length window /\ attempts new = [] /\
    in_flight new = - zlen window /\
    ((length window <= MAX_READS_IN_FLIGHT)%nat -> within_window (zlen window) new) /\
    settings w' = settings w.
Proof.
  revert results w rs w'. induction window as [|p window IH]; intros results w rs w' H; simpl in H.
  - injection H as <- <-. exists [], []. rewrite !app_nil_r. split_and!; try done.
    intros _. by apply within_window_nil.
  - unfold mbind, st_bind, attempt, await_reply in H.
    apply IH in H as (new & more & Hlog & -> & Ho & Hl & Ha & Hf & Hw & Hid).
    set (r := reply_outcome (w_log w) p) in *.
    exists (Answered p r :: new), (r :: more). simpl in Hlog, Hid.
    rewrite <- !(assoc_L (++)) in *. split_and!; [done|done| | | | | |done].
    + unfold outcomes in *. csimpl. by rewrite Ho.
    + simpl. lia.
    + done.
    + unfold in_flight, zlen in *. cbn [map foldr in_flight_delta length]. lia.
    + intros Hle. simpl in Hle. apply within_window_cons; [unfold zlen; simpl length; lia|].
      replace (zlen (p :: window) + in_flight_delta (Answered p r)) with (zlen window)
        by (unfold zlen; cbn [length in_flight_delta]; lia).
      apply Hw. lia.
Qed.

(** What the wave promises from any of its intermediate states. *)
Definition wave_spec (packets window : list CommandPacket) (results : list (JdwpResult ReplyPacket))
    (w : World) (rs : list (JdwpResult ReplyPacket)) (w' : World) : Prop :=
  exists new more, w_log w' = w_log w ++ new /\ rs = results ++ more /\
    outcomes new ≡ₚ zip (window ++ packets) more /\ length more = length (window ++ packets) /\
    attempts new = packets /\ in_flight new = - zlen window /\ within_window (zlen window) new /\
    settings w' = settings w.

Lemma zip_app {A B} (l1 l2 : list A) (k1 k2 : list B) :
  length k1 = length l1 -> zip (l1 ++ l2) (k1 ++ k2) = zip l1 k1 ++ zip l2 k2.
Proof. intros H. by apply zip_with_app. Qed.

(** The packet at hand, once the window has room for it. *)
Lemma issue_spec p packets window results w rs w' :
  (forall window results w rs w', (length window <= MAX_READS_IN_FLIGHT)%nat ->
     issue_all packets window results w = (rs, w') -> wave_spec packets window results w rs w') ->
  (length window < MAX_READS_IN_FLIGHT)%nat ->
  (issued ← attempt (issue_packet p);
   match issued with
   | Ok _ => issue_all packets (window ++ [p]) results
   | Err e => results ← drain window results; issue_all packets [] (results ++ [Err e])
   end : St _) w = (rs, w') ->
  wave_spec (p :: packets) window results w rs w'.
Proof.
  intros IH Hw H. unfold mbind, st_bind, attempt, issue_packet in H.
  destruct (issue_outcome (w_log w) p) as [e|].
  - destruct (drain window results (record_event (Refused p e) w)) as [rs1 w1] eqn:Hd.
    apply drain_spec in Hd as (n1 & m1 & L1 & -> & O1 & Z1 & A1 & F1 & W1 & I1).
    apply IH in H as (n2 & m2 & L2 & -> & O2 & Z2 & A2 & F2 & W2 & I2); [|simpl; unfold MAX_READS_IN_FLIGHT; lia].
    exists (Refused p e :: n1 ++ n2), (m1 ++ Err e :: m2).
    rewrite L2, L1, I2, I1. simpl. rewrite <- !(assoc_L (++)). split_and!; try done.
    + unfold outcomes in *. csimpl. rewrite omap_app, O1, O2, zip_app by done. simpl.
      by rewrite Permutation_middle.
    + rewrite !length_app in *. simpl in *. lia.
    + unfold attempts in *. csimpl. by rewrite omap_app, A1, A2.
    + unfold in_flight in *. cbn [map foldr in_flight_delta]. fold (in_flight (n1 ++ n2)).
      rewrite in_flight_app. unfold in_flight, zlen in *. simpl in F2. lia.
    + apply within_window_cons; [unfold zlen; lia|]. simpl. rewrite Z.add_0_r.
      apply within_window_app; [apply W1; lia|]. rewrite F1, Z.add_opp_diag_r. apply W2.
  - apply IH in H as (n & m & L & -> & O & Z & A & F & W & I); [|rewrite length_app; simpl; lia].
    exists (Issued p :: n), m. rewrite L, I. simpl. rewrite <- !(assoc_L (++)) in *. split_and!; try done.
    + unfold attempts in *. csimpl. by rewrite A.
    + unfold in_flight, zlen in *. rewrite length_app in F. cbn [map foldr in_flight_delta]. simpl in F. lia.
    + apply within_window_cons; [unfold zlen; lia|].
      replace (zlen window + in_flight_delta (Issued p)) with (zlen (window ++ [p])); [done|].
      unfold zlen. rewrite length_app. simpl. lia.
Qed.

Lemma issue_all_spec packets : forall window results w rs w',
  (length window <= MAX_READS_IN_FLIGHT)%nat ->
  issue_all packets window results w = (rs, w') -> wave_spec packets window results w rs w'.
Proof.
  induction packets as [|p packets IH]; intros window results w rs w' Hw H.
  { simpl in H. apply drain_spec in H as (new & more & ? & ? & ? & ? & ? & ? & ? & ?).
    exists new, more. rewrite app_nil_r. split_and!; auto. }
  cbn [issue_all] in H. case_match eqn:Hfull.
  2: { apply Nat.leb_gt in Hfull. eapply issue_spec; [exact IH|done|exact H]. }
  apply Nat.leb_le in Hfull. destruct window as [|oldest window].
  { unfold MAX_READS_IN_FLIGHT in Hfull. simpl in Hfull. lia. }
  simpl in Hw. unfold mbind at 1, st_bind at 1, mbind at 1, st_bind at 1, attempt at 1, await_reply at 1 in H.
  cbn [mret st_ret] in H.
  apply (issue_spec p packets) in H as (n & m & L & -> & O & Z & A & F & W & I); [|exact IH|lia].
  set (r := reply_outcome (w_log w) oldest) in *.
  exists (Answered oldest r :: n), (r :: m). rewrite L, I. simpl. rewrite <- !(assoc_L (++)). split_and!; try done.
  - unfold outcomes in *. csimpl. by rewrite O.
  - simpl in *. lia.
  - unfold in_flight, zlen in *. cbn [map foldr in_flight_delta length]. lia.
  - apply within_window_cons; [unfold zlen; simpl length; lia|].
    replace (zlen (oldest :: window) + in_flight_delta (Answered oldest r)) with (zlen window); [done|].
    unfold zlen. cbn [length in_flight_delta]. lia.
Qed.

(** C4. Independent reads: each packet of a wave is issued once, in order; there is one result per
    packet, and result [i] is the very outcome packet [i] had (its reply, or the error of issuing
    it), whatever fails; at no moment are more than [MAX_READS_IN_FLIGHT] commands unanswered, and
    when the wave returns none is. *)
Theorem wave_positional (packets : list CommandPacket) (w : World) :
  exists new results w', read_independently packets w = (results, w') /\
    w_log w' = w_log w ++ new /\ attempts new = packets /\
    length results = length packets /\ outcomes new ≡ₚ zip packets results /\
    (forall k, 0 <= in_flight (take k new) <= 16) /\ in_flight new = 0.
Proof.
  unfold read_independently, modify, mbind at 1, st_bind at 1.
  destruct (issue_all _ _ _ _) as [rs w'] eqn:H.
  apply issue_all_spec in H as (new & more & L & -> & O & Z & A & F & W & _); [|simpl; lia].
  exists new, more, w'. split_and!; try done; intros k; apply (W k).
Qed.
End WaveFacts.
