(* ===== verification/Client.v ===== *)
(** * The client's calls ([eval.rs], [extra.rs], [method.rs], [object.rs], [reftype.rs],
    [stackframe.rs], [string.rs], [thread.rs], [vm.rs] of [jdwp-client/src])

    One definition per method of [JdwpConnection] that reads the debuggee or changes it, each with
    its guard, its packet, its decoder and its cache, as the source composes them. The calls that arm
    event requests are in [EventRequest]. *)

From S2P Require Import Prelude Protocol Types Reader Events Connection.

Definition CLASS_TYPE_SUPERCLASS : Z := 1.
Definition CLASS_TYPE_SET_VALUES : Z := 2.
Definition CLASS_TYPE_INVOKE_METHOD : Z := 3.
Definition INVOKE_SINGLE_THREADED : Z := 1.
Definition ARRAY_LENGTH : Z := 1.
Definition ARRAY_GET_VALUES : Z := 2.
Definition ARRAY_SET_VALUES : Z := 3.

Record LineTableEntry : Type := { lte_line_code_index : Z; lte_line_number : Z }.
Record LineTable : Type := { lt_start : Z; lt_end : Z; lt_lines : list LineTableEntry }.
Record VariableSlot : Type := { vs_slot : Z; vs_sig_byte : Z }.
Record Frame : Type := { fr_frame_id : FrameId; fr_location : Location }.
Record Monitor : Type := { mon_tag : Z; mon_object_id : ObjectId }.
Record VmVersion : Type := {
  vv_description : string; vv_jdwp_major : Z; vv_jdwp_minor : Z; vv_vm_version : string; vv_vm_name : string }.
Record VmCapabilities : Type := {
  can_watch_field_modification : bool; can_watch_field_access : bool; can_get_bytecodes : bool;
  can_get_synthetic_attribute : bool; can_get_owned_monitor_info : bool;
  can_get_current_contended_monitor : bool; can_get_monitor_info : bool }.
Record VmCapabilitiesNew : Type := {
  can_redefine_classes : bool; can_add_method : bool; can_unrestrictedly_redefine_classes : bool;
  can_pop_frames : bool; can_use_instance_filters : bool; can_get_instance_info : bool;
  can_request_monitor_events : bool; can_get_monitor_frame_info : bool }.
Record ClassInfo : Type := {
  ci_ref_type_tag : Z; ci_type_id : ReferenceTypeId; ci_signature : string; ci_status : Z }.

Section Client.
Context `{BC : BytesCrate} `{D : Debuggee}.

(** ** Sending *)

(** [let id = self.next_id(); let mut packet = CommandPacket::new(id, set, command); packet.data.put...] *)
Definition request (set command : Z) (body : bytes) : St CommandPacket :=
  id ← next_id; mret (with_data (new_command id set command) body).

(** [let reply = self.send_command(packet).await?], the packet being [packet]. *)
Definition exchange (packet : St CommandPacket) : M ReplyPacket := p ← lift packet; send_command p.
Definition exchange_invoke (packet : St CommandPacket) : M ReplyPacket := p ← lift packet; send_invoke p.

(** [reply.check_error()?], then a read of the reply's data. *)
Definition decode_with {A} (r : Reader A) (reply : ReplyPacket) : JdwpResult A :=
  _ ← check_error reply; run_reader r (rp_data reply).

(** A command whose reply carries nothing but its error code. *)
Definition acknowledge (reply : ReplyPacket) : JdwpResult unit := check_error reply.

(** [read_independently] over one request per element, each reply decoded. *)
Definition wave {A B} (request_of : A -> St CommandPacket) (decode_reply : ReplyPacket -> JdwpResult B)
    (l : list A) : St (list (JdwpResult B)) :=
  packets ← st_map request_of l;
  replies ← read_independently packets;
  mret (map (fun reply => reply ≫= decode_reply) replies).

Definition put_ids (ids : list Z) : bytes := concat (map (put_be 8) ids).
Definition put_len {A} (l : list A) : bytes := put_be 4 (i32_of_len (zlen l)).

(** ** [eval.rs] *)

Definition signature_request (ref_type_id : ReferenceTypeId) : St CommandPacket :=
  request command_sets.REFERENCE_TYPE reference_type_commands.SIGNATURE (put_be 8 ref_type_id).

Definition decode_signature_reply (reply : ReplyPacket) : JdwpResult string := decode_with read_string reply.

Definition get_signature (ref_type_id : ReferenceTypeId) : M string :=
  types ← lift (gets w_types);
  match cached_signature types ref_type_id with
  | Some hit => mret hit
  | None =>
    reply ← exchange (signature_request ref_type_id);
    sig ← of_result (decode_signature_reply reply);
    _ ← lift (modify (with_types (put_signature ref_type_id sig)));
    mret sig
  end.

(** The distinct ids whose signature is not cached, in order of first appearance. *)
Definition signatures_wanted (types : TypeCache) (ref_type_ids : list ReferenceTypeId) : list ReferenceTypeId :=
  foldl (fun wanted id =>
    if negb (is_some (cached_signature types id)) && negb (bool_decide (id ∈ wanted))
    then wanted ++ [id] else wanted) [] ref_type_ids.

Definition keep_signature (answer : ReferenceTypeId * JdwpResult string) : St unit :=
  match answer with
  | (type_id, Ok sig) => modify (with_types (put_signature type_id sig))
  | (_, Err _) => mret tt
  end.

Definition read_signatures_independently (ref_type_ids : list ReferenceTypeId) :
    St (list (JdwpResult string)) :=
  types ← gets w_types;
  let wanted := signatures_wanted types ref_type_ids in
  _ ← (if bool_decide (wanted = []) then mret tt else
         answers ← wave signature_request decode_signature_reply wanted;
         _ ← st_map keep_signature (zip wanted answers); mret tt : St unit);
  types ← gets w_types;
  mret (map (fun id =>
    ok_or (ProtocolError ("the signature of type " +s+ pretty id +s+ " could not be read"))
      (cached_signature types id)) ref_type_ids).

Definition get_superclass (class_id : ClassId) : M (option ClassId) :=
  types ← lift (gets w_types);
  match cached_superclass types class_id with
  | Root => mret None
  | Parent p => mret (Some p)
  | Unknown =>
    reply ← exchange (request command_sets.CLASS_TYPE CLASS_TYPE_SUPERCLASS (put_be 8 class_id));
    sc ← of_result (decode_with read_u64 reply);
    let parent := if sc =? 0 then None else Some sc in
    _ ← lift (modify (with_types (put_superclass class_id parent)));
    mret parent
  end.

Definition get_this_object (thread_id : ThreadId) (frame_id : FrameId) : M ObjectId :=
  reply ← exchange (request command_sets.STACK_FRAME stack_frame_commands.THIS_OBJECT
                      (put_be 8 thread_id ++ put_be 8 frame_id));
  of_result (decode_with (_tag ← read_u8; read_u64) reply).

Definition read_invoke_reply : Reader (Value * ObjectId) :=
  ret ← read_tagged_value;
  _exc_tag ← read_u8;
  exc_id ← read_u64;
  mret (ret, exc_id).

Definition invoke_method (object_id : ObjectId) (thread_id : ThreadId) (class_id : ClassId)
    (method_id : MethodId) (args : list Value) : M (Value * ObjectId) :=
  _ ← guard_mutation "an instance method invocation";
  reply ← exchange_invoke (request command_sets.OBJECT_REFERENCE object_reference_commands.INVOKE_METHOD
    (put_be 8 object_id ++ put_be 8 thread_id ++ put_be 8 class_id ++ put_be 8 method_id ++
     put_len args ++ concat (map write_tagged_value args) ++ put_be 4 INVOKE_SINGLE_THREADED));
  of_result (decode_with read_invoke_reply reply).

Definition invoke_static_method (class_id : ClassId) (thread_id : ThreadId) (method_id : MethodId)
    (args : list Value) : M (Value * ObjectId) :=
  _ ← guard_mutation "a static method invocation";
  reply ← exchange_invoke (request command_sets.CLASS_TYPE CLASS_TYPE_INVOKE_METHOD
    (put_be 8 class_id ++ put_be 8 thread_id ++ put_be 8 method_id ++
     put_len args ++ concat (map write_tagged_value args) ++ put_be 4 INVOKE_SINGLE_THREADED));
  of_result (decode_with read_invoke_reply reply).

(** ** Arrays, strings and locals ([extra.rs], [string.rs], [stackframe.rs]) *)

Definition get_array_length (array_id : ObjectId) : M Z :=
  reply ← exchange (request command_sets.ARRAY_REFERENCE ARRAY_LENGTH (put_be 8 array_id));
  of_result (decode_with read_i32 reply).

Definition is_object_tag (region_tag : Z) : bool := bool_decide (region_tag ∈ [76; 115; 116; 103; 108; 99; 91]).

(** An array region: elements of a reference type carry their own tags, primitives do not. *)
Definition read_array_region : Reader (list Value) :=
  region_tag ← read_u8;
  count ← read_i32;
  read_count count
    (if is_object_tag region_tag then read_tagged_value
     else data ← read_value_by_tag region_tag; mret {| val_tag := region_tag; val_data := data |}
     : Reader Value).

Definition get_array_values (array_id : ObjectId) (first length : Z) : M (list Value) :=
  reply ← exchange (request command_sets.ARRAY_REFERENCE ARRAY_GET_VALUES
                      (put_be 8 array_id ++ put_be 4 first ++ put_be 4 length));
  of_result (decode_with read_array_region reply).

Definition set_array_values (array_id : ObjectId) (first : Z) (values : list Value) : M unit :=
  _ ← guard_mutation "an array element write";
  reply ← exchange (request command_sets.ARRAY_REFERENCE ARRAY_SET_VALUES
    (put_be 8 array_id ++ put_be 4 first ++ put_len values ++ concat (map write_untagged_value values)));
  of_result (acknowledge reply).

Definition create_string (s : string) : M ObjectId :=
  reply ← exchange (request command_sets.VIRTUAL_MACHINE vm_commands.CREATE_STRING
                      (put_len (bytes_of_string s) ++ bytes_of_string s));
  of_result (decode_with read_u64 reply).

Definition set_frame_value (thread_id : ThreadId) (frame_id : FrameId) (slot : Z) (value : Value) : M unit :=
  _ ← guard_mutation "a local variable write";
  reply ← exchange (request command_sets.STACK_FRAME 2
    (put_be 8 thread_id ++ put_be 8 frame_id ++ put_be 4 1 ++ put_be 4 slot ++ write_tagged_value value));
  of_result (acknowledge reply).

Definition string_value_request (string_id : ObjectId) : St CommandPacket :=
  request command_sets.STRING_REFERENCE string_reference_commands.VALUE (put_be 8 string_id).
Definition decode_string_value (reply : ReplyPacket) : JdwpResult string := decode_with read_string reply.
Definition get_string_value (string_id : ObjectId) : M string :=
  reply ← exchange (string_value_request string_id); of_result (decode_string_value reply).
Definition read_string_values_independently (string_ids : list ObjectId) : St (list (JdwpResult string)) :=
  wave string_value_request decode_string_value string_ids.

(** [count] tagged values, the count first. *)
Definition read_values : Reader (list Value) := count ← read_i32; read_count count read_tagged_value.

Definition frame_values_request (thread_id : ThreadId) (frame_id : FrameId) (slots : list VariableSlot) :
    St CommandPacket :=
  request command_sets.STACK_FRAME stack_frame_commands.GET_VALUES
    (put_be 8 thread_id ++ put_be 8 frame_id ++ put_len slots ++
     concat (map (fun slot => put_be 4 (vs_slot slot) ++ put_be 1 (vs_sig_byte slot)) slots)).
Definition decode_frame_values (reply : ReplyPacket) : JdwpResult (list Value) := decode_with read_values reply.
Definition get_frame_values (thread_id : ThreadId) (frame_id : FrameId) (slots : list VariableSlot) :
    M (list Value) :=
  reply ← exchange (frame_values_request thread_id frame_id slots); of_result (decode_frame_values reply).
Definition read_frame_values_independently (reads : list (ThreadId * FrameId * list VariableSlot)) :
    St (list (JdwpResult (list Value))) :=
  wave (fun '(t, f, slots) => frame_values_request t f slots) decode_frame_values reads.

Definition pop_frames (thread_id : ThreadId) (frame_id : FrameId) : M unit :=
  _ ← guard_mutation "a frame pop";
  reply ← exchange (request command_sets.STACK_FRAME stack_frame_commands.POP_FRAMES
                      (put_be 8 thread_id ++ put_be 8 frame_id));
  of_result (acknowledge reply).

(** ** Methods ([method.rs]) *)

Definition line_table_request (ref_type_id : ReferenceTypeId) (method_id : MethodId) : St CommandPacket :=
  request command_sets.METHOD method_commands.LINE_TABLE (put_be 8 ref_type_id ++ put_be 8 method_id).

Definition read_line_table : Reader LineTable :=
  start ← read_u64;
  end_ ← read_u64;
  lines_count ← read_i32;
  lines ← read_count lines_count
    (line_code_index ← read_u64;
     line_number ← read_i32;
     mret {| lte_line_code_index := line_code_index; lte_line_number := line_number |});
  mret {| lt_start := start; lt_end := end_; lt_lines := lines |}.
Definition decode_line_table (reply : ReplyPacket) : JdwpResult LineTable := decode_with read_line_table reply.

Definition get_line_table (ref_type_id : ReferenceTypeId) (method_id : MethodId) : M LineTable :=
  reply ← exchange (line_table_request ref_type_id method_id); of_result (decode_line_table reply).
Definition read_line_tables_independently (pairs : list (ReferenceTypeId * MethodId)) :
    St (list (JdwpResult LineTable)) :=
  wave (fun '(t, m) => line_table_request t m) decode_line_table pairs.

(** [data.get(..count)]. *)
Definition take_bytecodes (count : Z) : Reader bytes := fun data =>
  if zlen data <? count then
    (Err (ProtocolError ("Method.Bytecodes claimed " +s+ pretty count +s+
                         " byte(s) but the reply holds " +s+ pretty (zlen data))), data)
  else (Ok (take (Z.to_nat count) data), data).

(** The count is a signed integer; a negative one asks for no byte. *)
Definition read_bytecodes : Reader bytes := count ← read_i32; take_bytecodes (Z.max 0 count).
Definition get_bytecodes (ref_type_id : ReferenceTypeId) (method_id : MethodId) : M bytes :=
  reply ← exchange (request command_sets.METHOD method_commands.BYTECODES
                      (put_be 8 ref_type_id ++ put_be 8 method_id));
  of_result (decode_with read_bytecodes reply).

Definition variable_table_request (ref_type_id : ReferenceTypeId) (method_id : MethodId)
    (with_generic : bool) : St CommandPacket :=
  request command_sets.METHOD
    (if with_generic then method_commands.VARIABLE_TABLE_WITH_GENERIC else method_commands.VARIABLE_TABLE)
    (put_be 8 ref_type_id ++ put_be 8 method_id).

(** The generic signature, on the wire only in the [WithGeneric] form of a reply. *)
Definition read_generic (with_generic : bool) : Reader (option string) :=
  if with_generic then s ← read_string; mret (some_if_present s) else mret None.

Definition read_variable (with_generic : bool) : Reader Variable_ :=
  code_index ← read_u64;
  name ← read_string;
  signature ← read_string;
  generic_signature ← read_generic with_generic;
  length ← read_u32;
  slot ← read_u32;
  mret {| var_code_index := code_index; var_name := name; var_signature := signature;
          var_generic_signature := generic_signature; var_length := length; var_slot := slot |}.
Definition decode_variable_table (with_generic : bool) (reply : ReplyPacket) : JdwpResult (list Variable_) :=
  decode_with (_arg_count ← read_i32; vars_count ← read_i32; read_count vars_count (read_variable with_generic))
    reply.

Definition read_variable_table (ref_type_id : ReferenceTypeId) (method_id : MethodId) (with_generic : bool) :
    M (list Variable_) :=
  reply ← exchange (variable_table_request ref_type_id method_id with_generic);
  of_result (decode_variable_table with_generic reply).

(** [Err(JdwpErrorCode(code, _)) if code == ERR_NOT_IMPLEMENTED]. *)
Definition not_implemented {A} (r : JdwpResult A) : bool :=
  match r with Err (JdwpErrorCode code _) => code =? ERR_NOT_IMPLEMENTED | _ => false end.

(** The generic form of a command, and the plain form where the debuggee does not implement it. *)
Definition with_fallback {A} (m : bool -> M A) : M A :=
  first ← lift (attempt (m true));
  if not_implemented first then m false else of_result first.

Definition get_variable_table (ref_type_id : ReferenceTypeId) (method_id : MethodId) : M (list Variable_) :=
  with_fallback (read_variable_table ref_type_id method_id).

Definition variable_table_wave (pairs : list (ReferenceTypeId * MethodId)) (with_generic : bool) :
    St (list (JdwpResult (list Variable_))) :=
  wave (fun '(t, m) => variable_table_request t m with_generic) (decode_variable_table with_generic) pairs.

(** The positions of the wave that were not implemented, with their pair. *)
Definition retries (generic : list (JdwpResult (list Variable_))) (pairs : list (ReferenceTypeId * MethodId)) :
    list (nat * (ReferenceTypeId * MethodId)) :=
  omap (fun '(at_, r) => if not_implemented r then pair ← pairs !! at_; Some (at_, pair) else None)
    (imap pair generic).

Definition read_variable_tables_independently (pairs : list (ReferenceTypeId * MethodId)) :
    St (list (JdwpResult (list Variable_))) :=
  generic ← variable_table_wave pairs true;
  let retry := retries generic pairs in
  if bool_decide (retry = []) then mret generic else
  answers ← variable_table_wave (map snd retry) false;
  mret (foldl (fun out '(at_, answer) => <[at_ := answer]> out) generic (zip (map fst retry) answers)).

(** ** Objects ([object.rs]) *)

Definition reference_type_request (object_id : ObjectId) : St CommandPacket :=
  request command_sets.OBJECT_REFERENCE object_reference_commands.REFERENCE_TYPE (put_be 8 object_id).
Definition decode_reference_type (reply : ReplyPacket) : JdwpResult ReferenceTypeId :=
  decode_with (_type_tag ← read_u8; read_u64) reply.
Definition get_object_reference_type (object_id : ObjectId) : M ReferenceTypeId :=
  reply ← exchange (reference_type_request object_id); of_result (decode_reference_type reply).
Definition read_reference_types_independently (object_ids : list ObjectId) :
    St (list (JdwpResult ReferenceTypeId)) :=
  wave reference_type_request decode_reference_type object_ids.

Definition is_collected (object_id : ObjectId) : M bool :=
  reply ← exchange (request command_sets.OBJECT_REFERENCE object_reference_commands.IS_COLLECTED
                      (put_be 8 object_id));
  of_result (decode_with (b ← read_u8; mret (negb (b =? 0))) reply).

Definition object_values_request (object_id : ObjectId) (field_ids : list FieldId) : St CommandPacket :=
  request command_sets.OBJECT_REFERENCE object_reference_commands.GET_VALUES
    (put_be 8 object_id ++ put_len field_ids ++ put_ids field_ids).
Definition decode_object_values (reply : ReplyPacket) : JdwpResult (list Value) := decode_with read_values reply.
Definition get_object_values (object_id : ObjectId) (field_ids : list FieldId) : M (list Value) :=
  reply ← exchange (object_values_request object_id field_ids); of_result (decode_object_values reply).
Definition read_object_values_independently (reads : list (ObjectId * list FieldId)) :
    St (list (JdwpResult (list Value))) :=
  wave (fun '(object_id, field_ids) => object_values_request object_id field_ids) decode_object_values reads.

Definition get_reference_values (ref_type_id : ReferenceTypeId) (field_ids : list FieldId) : M (list Value) :=
  reply ← exchange (request command_sets.REFERENCE_TYPE reference_type_commands.GET_VALUES
                      (put_be 8 ref_type_id ++ put_len field_ids ++ put_ids field_ids));
  of_result (decode_with read_values reply).

Definition put_updates (updates : list (FieldId * Value)) : bytes :=
  concat (map (fun '(field_id, value) => put_be 8 field_id ++ write_untagged_value value) updates).

Definition set_reference_values (class_id : ReferenceTypeId) (updates : list (FieldId * Value)) : M unit :=
  _ ← guard_mutation "a static field write";
  reply ← exchange (request command_sets.CLASS_TYPE CLASS_TYPE_SET_VALUES
                      (put_be 8 class_id ++ put_len updates ++ put_updates updates));
  of_result (acknowledge reply).

Definition set_object_values (object_id : ObjectId) (updates : list (FieldId * Value)) : M unit :=
  _ ← guard_mutation "an instance field write";
  reply ← exchange (request command_sets.OBJECT_REFERENCE object_reference_commands.SET_VALUES
                      (put_be 8 object_id ++ put_len updates ++ put_updates updates));
  of_result (acknowledge reply).

(** ** Types ([reftype.rs]) *)

Definition read_method_info (with_generic : bool) : Reader MethodInfo :=
  method_id ← read_u64;
  name ← read_string;
  signature ← read_string;
  generic_signature ← read_generic with_generic;
  mod_bits ← read_i32;
  mret {| mi_method_id := method_id; mi_name := name; mi_signature := signature;
          mi_generic_signature := generic_signature; mi_mod_bits := mod_bits |}.

Definition read_field_info (with_generic : bool) : Reader FieldInfo :=
  field_id ← read_u64;
  name ← read_string;
  signature ← read_string;
  generic_signature ← read_generic with_generic;
  mod_bits ← read_i32;
  mret {| fi_field_id := field_id; fi_name := name; fi_signature := signature;
          fi_generic_signature := generic_signature; fi_mod_bits := mod_bits |}.

Definition read_methods (ref_type_id : ReferenceTypeId) (with_generic : bool) : M (list MethodInfo) :=
  reply ← exchange (request command_sets.REFERENCE_TYPE
    (if with_generic then reference_type_commands.METHODS_WITH_GENERIC else reference_type_commands.METHODS)
    (put_be 8 ref_type_id));
  of_result (decode_with (count ← read_i32; read_count count (read_method_info with_generic)) reply).

Definition get_methods (ref_type_id : ReferenceTypeId) : M (list MethodInfo) :=
  types ← lift (gets w_types);
  match cached_methods types ref_type_id with
  | Some hit => mret hit
  | None =>
    methods ← with_fallback (read_methods ref_type_id);
    _ ← lift (modify (with_types (put_methods ref_type_id methods)));
    mret methods
  end.

Definition read_fields (ref_type_id : ReferenceTypeId) (with_generic : bool) : M (list FieldInfo) :=
  reply ← exchange (request command_sets.REFERENCE_TYPE
    (if with_generic then reference_type_commands.FIELDS_WITH_GENERIC else reference_type_commands.FIELDS)
    (put_be 8 ref_type_id));
  of_result (decode_with (count ← read_i32; read_count count (read_field_info with_generic)) reply).

Definition get_fields (ref_type_id : ReferenceTypeId) : M (list FieldInfo) :=
  types ← lift (gets w_types);
  match cached_fields types ref_type_id with
  | Some hit => mret hit
  | None =>
    fields ← with_fallback (read_fields ref_type_id);
    _ ← lift (modify (with_types (put_fields ref_type_id fields)));
    mret fields
  end.

(** [(id != 0).then_some(id)]. *)
Definition non_zero {A} (id : Z) (a : A) : option A := if negb (id =? 0) then Some a else None.

Definition get_class_loader (ref_type_id : ReferenceTypeId) : M (option ObjectId) :=
  reply ← exchange (request command_sets.REFERENCE_TYPE reference_type_commands.CLASS_LOADER (put_be 8 ref_type_id));
  loader ← of_result (decode_with read_u64 reply);
  mret (non_zero loader loader).

Definition read_ids : Reader (list Z) := count ← read_i32; read_count count read_u64.

Definition get_interfaces (ref_type_id : ReferenceTypeId) : M (list ReferenceTypeId) :=
  types ← lift (gets w_types);
  match cached_interfaces types ref_type_id with
  | Some hit => mret hit
  | None =>
    reply ← exchange (request command_sets.REFERENCE_TYPE reference_type_commands.INTERFACES (put_be 8 ref_type_id));
    ifaces ← of_result (decode_with read_ids reply);
    _ ← lift (modify (with_types (put_interfaces ref_type_id ifaces)));
    mret ifaces
  end.

Definition get_modifiers (ref_type_id : ReferenceTypeId) : M Z :=
  reply ← exchange (request command_sets.REFERENCE_TYPE reference_type_commands.MODIFIERS (put_be 8 ref_type_id));
  of_result (decode_with read_i32 reply).

(** The walk over a type's supertypes. The source pops the last element of a [Vec]; here the stack's
    head is that element, so [extend] puts the interfaces on it in reverse. [fuel] is what is left of
    the 500 steps. *)
Fixpoint walk_supertypes (fuel : nat) (wanted : string) (seen : gset ReferenceTypeId)
    (stack : list ReferenceTypeId) : St bool :=
  match fuel, stack with
  | _, [] => mret false
  | O, _ => mret false
  | S fuel, current :: stack =>
    if bool_decide (current ∈ seen) then walk_supertypes fuel wanted seen stack else
    let seen := {[current]} ∪ seen in
    signature ← attempt (get_signature current);
    if match signature with Ok s => String.eqb s wanted | Err _ => false end then mret true else
    ifaces ← attempt (get_interfaces current);
    let stack := rev (unwrap_or [] ifaces) ++ stack in
    parent ← attempt (get_superclass current);
    let stack := match unwrap_or None parent with Some parent => parent :: stack | None => stack end in
    walk_supertypes fuel wanted seen stack
  end.

Definition implements_interface (type_id : ReferenceTypeId) (wanted : string) : St bool :=
  walk_supertypes 500 wanted ∅ [type_id].

Definition get_source_file (ref_type_id : ReferenceTypeId) : M string :=
  reply ← exchange (request command_sets.REFERENCE_TYPE reference_type_commands.SOURCE_FILE (put_be 8 ref_type_id));
  of_result (decode_with read_string reply).

Definition get_source_debug_extension (ref_type_id : ReferenceTypeId) : M (option string) :=
  reply ← exchange (request command_sets.REFERENCE_TYPE reference_type_commands.SOURCE_DEBUG_EXTENSION
                      (put_be 8 ref_type_id));
  if (rp_error_code reply =? ERR_ABSENT_INFORMATION) || (rp_error_code reply =? ERR_NOT_IMPLEMENTED)
  then mret None
  else of_result (s ← decode_with read_string reply; Ok (Some s)).

Definition instances (ref_type_id : ReferenceTypeId) (max_instances : Z) : M (list Value) :=
  if max_instances <? 0 then
    of_result (Err (ProtocolError ("max_instances must be 0 (all) or positive, got " +s+ pretty max_instances)))
  else
    reply ← exchange (request command_sets.REFERENCE_TYPE reference_type_commands.INSTANCES
                        (put_be 8 ref_type_id ++ put_be 4 max_instances));
    of_result (decode_with read_values reply).

(** ** The virtual machine ([vm.rs]) *)

Definition vm_request (command : Z) (body : bytes) : St CommandPacket :=
  request command_sets.VIRTUAL_MACHINE command body.

Definition read_version : Reader VmVersion :=
  description ← read_string;
  jdwp_major ← read_i32;
  jdwp_minor ← read_i32;
  vm_version ← read_string;
  vm_name ← read_string;
  mret {| vv_description := description; vv_jdwp_major := jdwp_major; vv_jdwp_minor := jdwp_minor;
          vv_vm_version := vm_version; vv_vm_name := vm_name |}.
Definition get_version : M VmVersion :=
  reply ← exchange (vm_request vm_commands.VERSION []); of_result (decode_with read_version reply).

(** [can_get_method_return_values] of [eventrequest.rs]. *)
Definition can_get_method_return_values : M bool :=
  v ← get_version;
  mret ((1 <? vv_jdwp_major v) || ((vv_jdwp_major v =? 1) && (6 <=? vv_jdwp_minor v))).

Definition read_flag : Reader bool := b ← read_u8; mret (negb (b =? 0)).

Definition read_capabilities : Reader VmCapabilities :=
  field_modification ← read_flag;
  field_access ← read_flag;
  bytecodes ← read_flag;
  synthetic ← read_flag;
  owned ← read_flag;
  contended ← read_flag;
  monitor ← read_flag;
  mret {| can_watch_field_modification := field_modification; can_watch_field_access := field_access;
          can_get_bytecodes := bytecodes; can_get_synthetic_attribute := synthetic;
          can_get_owned_monitor_info := owned; can_get_current_contended_monitor := contended;
          can_get_monitor_info := monitor |}.
Definition capabilities : M VmCapabilities :=
  reply ← exchange (vm_request vm_commands.CAPABILITIES []); of_result (decode_with read_capabilities reply).

Definition read_capabilities_new : Reader VmCapabilitiesNew :=
  _ ← read_times 7 read_flag;
  redefine ← read_flag;
  add ← read_flag;
  unrestricted ← read_flag;
  pop ← read_flag;
  instance_filters ← read_flag;
  _ ← read_times 3 read_flag;
  instance_info ← read_flag;
  monitor_events ← read_flag;
  monitor_frames ← read_flag;
  mret {| can_redefine_classes := redefine; can_add_method := add;
          can_unrestrictedly_redefine_classes := unrestricted; can_pop_frames := pop;
          can_use_instance_filters := instance_filters; can_get_instance_info := instance_info;
          can_request_monitor_events := monitor_events; can_get_monitor_frame_info := monitor_frames |}.
Definition capabilities_new : M VmCapabilitiesNew :=
  reply ← exchange (vm_request vm_commands.CAPABILITIES_NEW []);
  of_result (decode_with read_capabilities_new reply).

Definition instance_counts (ref_types : list ReferenceTypeId) : M (list Z) :=
  reply ← exchange (vm_request vm_commands.INSTANCE_COUNTS (put_len ref_types ++ put_ids ref_types));
  of_result (decode_with (n ← read_i32; read_count n read_i64) reply).

Definition invalidate_all (ids : list ReferenceTypeId) (c : TypeCache) : TypeCache :=
  foldl (fun c id => invalidate id c) c ids.

Definition put_class_bytes (def : ReferenceTypeId * bytes) : bytes :=
  put_be 8 (fst def) ++ put_be 4 (u32_of_len (zlen (snd def))) ++ snd def.

Definition redefine_classes (defs : list (ReferenceTypeId * bytes)) : M unit :=
  _ ← guard_mutation "a class redefinition";
  reply ← exchange (vm_request vm_commands.REDEFINE_CLASSES (put_len defs ++ concat (map put_class_bytes defs)));
  _ ← of_result (acknowledge reply);
  lift (modify (with_types (invalidate_all (map fst defs)))).

Definition dispose : M unit :=
  reply ← exchange (vm_request vm_commands.DISPOSE []); of_result (acknowledge reply).

Definition classes_by_signature (signature : string) : M (list ClassInfo) :=
  reply ← exchange (vm_request vm_commands.CLASSES_BY_SIGNATURE (write_jdwp_string signature));
  of_result (decode_with (
    classes_count ← read_i32;
    read_count classes_count
      (ref_type_tag ← read_u8;
       type_id ← read_u64;
       status ← read_i32;
       mret {| ci_ref_type_tag := ref_type_tag; ci_type_id := type_id; ci_signature := signature;
               ci_status := status |})) reply).

Definition all_classes : M (list ClassInfo) :=
  reply ← exchange (vm_request vm_commands.ALL_CLASSES []);
  of_result (decode_with (
    classes_count ← read_i32;
    read_count classes_count
      (ref_type_tag ← read_u8;
       type_id ← read_u64;
       signature ← read_string;
       status ← read_i32;
       mret {| ci_ref_type_tag := ref_type_tag; ci_type_id := type_id; ci_signature := signature;
               ci_status := status |})) reply).

(** ** Threads ([thread.rs]) *)

Definition thread_read_request (thread_id : ThreadId) (command : Z) : St CommandPacket :=
  request command_sets.THREAD_REFERENCE command (put_be 8 thread_id).

Definition read_frame : Reader Frame :=
  frame_id ← read_u64;
  location ← read_location;
  mret {| fr_frame_id := frame_id; fr_location := location |}.
Definition get_frames (thread_id : ThreadId) (start_frame length : Z) : M (list Frame) :=
  reply ← exchange (request command_sets.THREAD_REFERENCE thread_commands.FRAMES
                      (put_be 8 thread_id ++ put_be 4 start_frame ++ put_be 4 length));
  of_result (decode_with (frames_count ← read_i32; read_count frames_count read_frame) reply).

Definition read_monitor : Reader Monitor :=
  tag ← read_u8; object_id ← read_u64; mret {| mon_tag := tag; mon_object_id := object_id |}.
Definition owned_monitors (thread_id : ThreadId) : M (list Monitor) :=
  reply ← exchange (thread_read_request thread_id thread_commands.OWNED_MONITORS);
  of_result (decode_with (count ← read_i32; read_count count read_monitor) reply).
Definition current_contended_monitor (thread_id : ThreadId) : M (option Monitor) :=
  reply ← exchange (thread_read_request thread_id thread_commands.CURRENT_CONTENDED_MONITOR);
  monitor ← of_result (decode_with read_monitor reply);
  mret (non_zero (mon_object_id monitor) monitor).

Definition get_all_threads : M (list ThreadId) :=
  reply ← exchange (vm_request vm_commands.ALL_THREADS []); of_result (decode_with read_ids reply).

Definition decode_thread_name (reply : ReplyPacket) : JdwpResult string := decode_with read_string reply.
Definition get_thread_name (thread_id : ThreadId) : M string :=
  reply ← exchange (thread_read_request thread_id thread_commands.NAME); of_result (decode_thread_name reply).
Definition read_thread_names_independently (thread_ids : list ThreadId) : St (list (JdwpResult string)) :=
  wave (fun t => thread_read_request t thread_commands.NAME) decode_thread_name thread_ids.

Definition decode_thread_status (reply : ReplyPacket) : JdwpResult (Z * Z) :=
  decode_with (thread_status ← read_i32; suspend_status ← read_i32; mret (thread_status, suspend_status)) reply.
Definition get_thread_status (thread_id : ThreadId) : M (Z * Z) :=
  reply ← exchange (thread_read_request thread_id thread_commands.STATUS);
  of_result (decode_thread_status reply).
Definition read_thread_statuses_independently (thread_ids : list ThreadId) : St (list (JdwpResult (Z * Z))) :=
  wave (fun t => thread_read_request t thread_commands.STATUS) decode_thread_status thread_ids.

Definition suspend_count (thread_id : ThreadId) : M Z :=
  reply ← exchange (thread_read_request thread_id thread_commands.SUSPEND_COUNT);
  of_result (decode_with read_i32 reply).
Definition suspend_all : M unit :=
  reply ← exchange (vm_request vm_commands.SUSPEND []); of_result (acknowledge reply).
Definition resume_all : M unit :=
  reply ← exchange (vm_request vm_commands.RESUME []); of_result (acknowledge reply).

(** At most [max_resumes] resumes, the probe thread's suspend count read after each; [issued] so far. *)
Fixpoint resume_until (max_resumes : nat) (issued : Z) (probe_thread : ThreadId) : M (Z * Z) :=
  match max_resumes with
  | O => left_ ← lift (attempt (suspend_count probe_thread)); mret (issued, unwrap_or 0 left_)
  | S max_resumes =>
    _ ← resume_all;
    left_ ← lift (attempt (suspend_count probe_thread));
    if unwrap_or 0 left_ <=? 0 then mret (issued + 1, 0)
    else resume_until max_resumes (issued + 1) probe_thread
  end.
Definition resume_all_fully (probe_thread : ThreadId) (max_resumes : Z) : M (Z * Z) :=
  resume_until (Z.to_nat max_resumes) 0 probe_thread.

Definition suspend_thread (thread_id : ThreadId) : M unit :=
  reply ← exchange (thread_read_request thread_id thread_commands.SUSPEND); of_result (acknowledge reply).
Definition resume_thread (thread_id : ThreadId) : M unit :=
  reply ← exchange (thread_read_request thread_id thread_commands.RESUME); of_result (acknowledge reply).

Definition force_early_return (thread_id : ThreadId) (value : Value) : M unit :=
  _ ← guard_mutation "a forced early return";
  reply ← exchange (request command_sets.THREAD_REFERENCE thread_commands.FORCE_EARLY_RETURN
                      (put_be 8 thread_id ++ write_tagged_value value));
  of_result (acknowledge reply).
End Client.
