(* ===== verification/EventRequest.v ===== *)
(** * Event requests ([jdwp-client/src/eventrequest.rs] and the breakpoints and steps of [extra.rs])

    The calls that arm and clear event requests, and what a request's body means: [body_of] is the
    specification's encoding of a kind, a suspend policy and a list of modifiers, and [read_request]
    reads a body the way a debuggee does: as many modifiers as are announced, and what stands behind them not
    at all. *)

From S2P Require Import Prelude Protocol Types Reader Events Connection Client.

Record EventFilters : Type := {
  ef_count : option Z;
  ef_thread : option ThreadId;
  ef_instance : option ObjectId;
}.
Definition no_filters : EventFilters := {| ef_count := None; ef_thread := None; ef_instance := None |}.

Inductive SuspendPolicy : Type := SuspendNone | EventThread | SuspendAll.
(** [suspend_policy as u8]. *)
Definition policy_byte (p : SuspendPolicy) : Z :=
  match p with SuspendNone => 0 | EventThread => 1 | SuspendAll => 2 end.

Module mod_kinds.
Definition COUNT := 1.
Definition THREAD_ONLY := 3.
Definition CLASS_ONLY := 4.
Definition CLASS_MATCH := 5.
Definition CLASS_EXCLUDE := 6.
Definition LOCATION_ONLY := 7.
Definition EXCEPTION_ONLY := 8.
Definition FIELD_ONLY := 9.
Definition STEP := 10.
Definition INSTANCE_ONLY := 11.
End mod_kinds.

Inductive StepDepth : Type := StepInto | StepOver | StepOut.
Definition step_depth (d : StepDepth) : Z :=
  match d with
  | StepInto => step_depths.INTO
  | StepOver => step_depths.OVER
  | StepOut => step_depths.OUT
  end.

Inductive MonitorKind : Type := Blocked | Acquired | Wait | Waited.
Definition MonitorKind_ALL : list MonitorKind := [Blocked; Acquired; Wait; Waited].
Definition monitor_event_kind (k : MonitorKind) : Z :=
  match k with
  | Blocked => event_kinds.MONITOR_CONTENDED_ENTER
  | Acquired => event_kinds.MONITOR_CONTENDED_ENTERED
  | Wait => event_kinds.MONITOR_WAIT
  | Waited => event_kinds.MONITOR_WAITED
  end.
Definition monitor_kind_label (k : MonitorKind) : string :=
  match k with Blocked => "blocked" | Acquired => "acquired" | Wait => "wait" | Waited => "waited" end.
Definition partner (k : MonitorKind) : MonitorKind :=
  match k with Blocked => Acquired | Acquired => Blocked | Wait => Waited | Waited => Wait end.
Definition class_filter_tests_monitor (k : MonitorKind) : bool :=
  match k with Wait | Waited => true | _ => false end.

Inductive WatchKind : Type := Access | Modify.
Definition watch_event_kind (k : WatchKind) : Z :=
  match k with Access => event_kinds.FIELD_ACCESS | Modify => event_kinds.FIELD_MODIFICATION end.
Definition watch_label (k : WatchKind) : string := match k with Access => "access" | Modify => "modify" end.

Definition method_exit_kind (with_return_value : bool) : Z :=
  if with_return_value then event_kinds.METHOD_EXIT_WITH_RETURN_VALUE else event_kinds.METHOD_EXIT.

Section Requests.
Context `{BC : BytesCrate} `{D : Debuggee}.

Definition write_count_thread (count : option Z) (thread : option ThreadId) : bytes :=
  match count with Some c => put_be 1 mod_kinds.COUNT ++ put_be 4 c | None => [] end ++
  match thread with Some t => put_be 1 mod_kinds.THREAD_ONLY ++ put_be 8 t | None => [] end.

Definition write_instance_only (instance : option ObjectId) : bytes :=
  match instance with Some o => put_be 1 mod_kinds.INSTANCE_ONLY ++ put_be 8 o | None => [] end.

(** [i32::from(filter.is_some())]. *)
Definition n_if {A} (o : option A) : Z := Z_of_bool (is_some o).

(** [EventRequest.Set]: the kind, the policy and the modifiers; the reply is the request's id. *)
Definition set_request (body : bytes) : M Z :=
  reply ← exchange (request command_sets.EVENT_REQUEST event_commands.SET body);
  of_result (decode_with read_i32 reply).
Definition clear_request (kind : Z) (request_id : Z) : M unit :=
  reply ← exchange (request command_sets.EVENT_REQUEST event_commands.CLEAR (put_be 1 kind ++ put_be 4 request_id));
  of_result (acknowledge reply).

Definition breakpoint_location (class_id : ReferenceTypeId) (method_id : MethodId) (bytecode_index : Z) : bytes :=
  put_be 1 mod_kinds.LOCATION_ONLY ++ put_be 1 1 ++ put_be 8 class_id ++ put_be 8 method_id ++
  put_be 8 bytecode_index.

Definition breakpoint_body (class_id : ReferenceTypeId) (method_id : MethodId) (bytecode_index : Z)
    (suspend_policy : SuspendPolicy) : bytes :=
  put_be 1 event_kinds.BREAKPOINT ++ put_be 1 (policy_byte suspend_policy) ++ put_be 4 1 ++
  breakpoint_location class_id method_id bytecode_index.
Definition set_breakpoint (class_id : ReferenceTypeId) (method_id : MethodId) (bytecode_index : Z)
    (suspend_policy : SuspendPolicy) : M Z :=
  set_request (breakpoint_body class_id method_id bytecode_index suspend_policy).
Definition clear_breakpoint (request_id : Z) : M unit := clear_request event_kinds.BREAKPOINT request_id.

Definition breakpoint_ex_body (class_id : ReferenceTypeId) (method_id : MethodId) (bytecode_index : Z)
    (suspend_policy : SuspendPolicy) (filters : EventFilters) : bytes :=
  let n_mods := 1 + n_if (ef_count filters) + n_if (ef_thread filters) + n_if (ef_instance filters) in
  put_be 1 event_kinds.BREAKPOINT ++ put_be 1 (policy_byte suspend_policy) ++ put_be 4 n_mods ++
  breakpoint_location class_id method_id bytecode_index ++
  match ef_count filters with Some c => put_be 1 1 ++ put_be 4 c | None => [] end ++
  match ef_thread filters with Some t => put_be 1 3 ++ put_be 8 t | None => [] end ++
  match ef_instance filters with Some o => put_be 1 11 ++ put_be 8 o | None => [] end.
Definition set_breakpoint_ex (class_id : ReferenceTypeId) (method_id : MethodId) (bytecode_index : Z)
    (suspend_policy : SuspendPolicy) (filters : EventFilters) : M Z :=
  set_request (breakpoint_ex_body class_id method_id bytecode_index suspend_policy filters).

Definition class_prepare_body (class_pattern : string) (suspend_policy : SuspendPolicy) : bytes :=
  put_be 1 event_kinds.CLASS_PREPARE ++ put_be 1 (policy_byte suspend_policy) ++ put_be 4 1 ++
  put_be 1 mod_kinds.CLASS_MATCH ++ write_jdwp_string class_pattern.
Definition set_class_prepare (class_pattern : string) (suspend_policy : SuspendPolicy) : M Z :=
  set_request (class_prepare_body class_pattern suspend_policy).
Definition clear_class_prepare (request_id : Z) : M unit := clear_request event_kinds.CLASS_PREPARE request_id.

Definition exception_body (ref_type : option ReferenceTypeId) (caught uncaught : bool)
    (suspend_policy : SuspendPolicy) (filters : EventFilters) : bytes :=
  let n_mods := 1 + n_if (ef_count filters) + n_if (ef_thread filters) + n_if (ef_instance filters) in
  put_be 1 event_kinds.EXCEPTION ++ put_be 1 (policy_byte suspend_policy) ++ put_be 4 n_mods ++
  put_be 1 mod_kinds.EXCEPTION_ONLY ++ put_be 8 (default 0 ref_type) ++
  put_be 1 (Z_of_bool caught) ++ put_be 1 (Z_of_bool uncaught) ++
  write_count_thread (ef_count filters) (ef_thread filters) ++ write_instance_only (ef_instance filters).
Definition set_exception_request_ex (ref_type : option ReferenceTypeId) (caught uncaught : bool)
    (suspend_policy : SuspendPolicy) (filters : EventFilters) : M Z :=
  set_request (exception_body ref_type caught uncaught suspend_policy filters).
Definition set_exception_request (ref_type : option ReferenceTypeId) (caught uncaught : bool)
    (suspend_policy : SuspendPolicy) : M Z :=
  set_exception_request_ex ref_type caught uncaught suspend_policy no_filters.
Definition clear_exception_request (request_id : Z) : M unit := clear_request event_kinds.EXCEPTION request_id.

Definition field_watch_body (ref_type : ReferenceTypeId) (field_id : FieldId) (kind : WatchKind)
    (suspend_policy : SuspendPolicy) (filters : EventFilters) : bytes :=
  let n_mods := 1 + n_if (ef_count filters) + n_if (ef_thread filters) + n_if (ef_instance filters) in
  put_be 1 (watch_event_kind kind) ++ put_be 1 (policy_byte suspend_policy) ++ put_be 4 n_mods ++
  put_be 1 mod_kinds.FIELD_ONLY ++ put_be 8 ref_type ++ put_be 8 field_id ++
  write_count_thread (ef_count filters) (ef_thread filters) ++ write_instance_only (ef_instance filters).
Definition set_field_watch_ex (ref_type : ReferenceTypeId) (field_id : FieldId) (kind : WatchKind)
    (suspend_policy : SuspendPolicy) (filters : EventFilters) : M Z :=
  set_request (field_watch_body ref_type field_id kind suspend_policy filters).
Definition set_field_watch (ref_type : ReferenceTypeId) (field_id : FieldId) (kind : WatchKind)
    (suspend_policy : SuspendPolicy) : M Z :=
  set_field_watch_ex ref_type field_id kind suspend_policy no_filters.
Definition clear_field_watch (request_id : Z) (kind : WatchKind) : M unit :=
  clear_request (watch_event_kind kind) request_id.

(** The source counts [filters.count], [filters.thread] and the exclusions, and not [filters.instance]. *)
Definition method_exit_body (class_pattern : string) (with_return_value : bool) (suspend_policy : SuspendPolicy)
    (exclude : list string) (filters : EventFilters) : bytes :=
  let n_mods := 1 + n_if (ef_count filters) + n_if (ef_thread filters) +
                (if zlen exclude <=? 2 ^ 31 - 1 then zlen exclude else 0) in
  put_be 1 (method_exit_kind with_return_value) ++ put_be 1 (policy_byte suspend_policy) ++
  put_be 4 n_mods ++
  put_be 1 mod_kinds.CLASS_MATCH ++ write_jdwp_string class_pattern ++
  concat (map (fun p => put_be 1 mod_kinds.CLASS_EXCLUDE ++ write_jdwp_string p) exclude) ++
  write_count_thread (ef_count filters) (ef_thread filters) ++ write_instance_only (ef_instance filters).
Definition set_method_exit_request_ex (class_pattern : string) (with_return_value : bool)
    (suspend_policy : SuspendPolicy) (exclude : list string) (filters : EventFilters) : M Z :=
  set_request (method_exit_body class_pattern with_return_value suspend_policy exclude filters).
Definition set_method_exit_request (class_pattern : string) (with_return_value : bool)
    (suspend_policy : SuspendPolicy) (count : option Z) (thread : option ThreadId) : M Z :=
  set_method_exit_request_ex class_pattern with_return_value suspend_policy []
    {| ef_count := count; ef_thread := thread; ef_instance := None |}.
Definition clear_method_exit_request (request_id : Z) (with_return_value : bool) : M unit :=
  clear_request (method_exit_kind with_return_value) request_id.

Definition monitor_body (kind : MonitorKind) (suspend_policy : SuspendPolicy)
    (monitor_class : option ReferenceTypeId) (filters : EventFilters) : bytes :=
  let n_mods := n_if monitor_class + n_if (ef_count filters) + n_if (ef_thread filters) + n_if (ef_instance filters) in
  put_be 1 (monitor_event_kind kind) ++ put_be 1 (policy_byte suspend_policy) ++ put_be 4 n_mods ++
  match monitor_class with Some t => put_be 1 mod_kinds.CLASS_ONLY ++ put_be 8 t | None => [] end ++
  write_count_thread (ef_count filters) (ef_thread filters) ++ write_instance_only (ef_instance filters).
Definition set_monitor_request (kind : MonitorKind) (suspend_policy : SuspendPolicy)
    (monitor_class : option ReferenceTypeId) (filters : EventFilters) : M Z :=
  set_request (monitor_body kind suspend_policy monitor_class filters).
Definition clear_monitor_request (request_id : Z) (kind : MonitorKind) : M unit :=
  clear_request (monitor_event_kind kind) request_id.

Definition step_body (thread : ThreadId) (depth : StepDepth) (exclude only : list string) : bytes :=
  let n_mods := 1 + zlen exclude + zlen only in
  put_be 1 event_kinds.SINGLE_STEP ++ put_be 1 (policy_byte SuspendAll) ++
  put_be 4 (if n_mods <=? 2 ^ 31 - 1 then n_mods else 2 ^ 31 - 1) ++
  put_be 1 mod_kinds.STEP ++ put_be 8 thread ++ put_be 4 step_sizes.LINE ++ put_be 4 (step_depth depth) ++
  concat (map (fun pat => put_be 1 mod_kinds.CLASS_MATCH ++ write_jdwp_string pat) only) ++
  concat (map (fun pat => put_be 1 mod_kinds.CLASS_EXCLUDE ++ write_jdwp_string pat) exclude).
Definition set_step_ex (thread : ThreadId) (depth : StepDepth) (exclude only : list string) : M Z :=
  set_request (step_body thread depth exclude only).
Definition set_step (thread : ThreadId) (depth : StepDepth) : M Z := set_step_ex thread depth [] [].
Definition clear_step (request_id : Z) : M unit := clear_request event_kinds.SINGLE_STEP request_id.

Definition clear_all_breakpoints : M unit :=
  reply ← exchange (request command_sets.EVENT_REQUEST event_commands.CLEAR_ALL_BREAKPOINTS []);
  of_result (acknowledge reply).
End Requests.

(** ** What a request means *)

Section Meaning.
Context `{BC : BytesCrate}.

Definition encode_modifier (m : EventModifier) : bytes :=
  match m with
  | Count n => put_be 1 1 ++ put_be 4 n
  | ThreadOnly t => put_be 1 3 ++ put_be 8 t
  | ClassOnly t => put_be 1 4 ++ put_be 8 t
  | ClassMatch p => put_be 1 5 ++ write_jdwp_string p
  | ClassExclude p => put_be 1 6 ++ write_jdwp_string p
  | LocationOnly l => put_be 1 7 ++ encode_location l
  | ExceptionOnly t c u => put_be 1 8 ++ put_be 8 t ++ put_be 1 (Z_of_bool c) ++ put_be 1 (Z_of_bool u)
  | FieldOnly t f => put_be 1 9 ++ put_be 8 t ++ put_be 8 f
  | StepMod t size depth => put_be 1 10 ++ put_be 8 t ++ put_be 4 size ++ put_be 4 depth
  | InstanceOnly o => put_be 1 11 ++ put_be 8 o
  end.

(** The debuggee's side: one modifier, then a whole request, which must end with the packet. *)
Definition parse_modifier : Reader EventModifier :=
  kind ← read_u8;
  if kind =? 1 then n ← read_i32; mret (Count n)
  else if kind =? 3 then t ← read_u64; mret (ThreadOnly t)
  else if kind =? 4 then t ← read_u64; mret (ClassOnly t)
  else if kind =? 5 then p ← read_string; mret (ClassMatch p)
  else if kind =? 6 then p ← read_string; mret (ClassExclude p)
  else if kind =? 7 then l ← read_location; mret (LocationOnly l)
  else if kind =? 8 then
    t ← read_u64; c ← read_u8; u ← read_u8; mret (ExceptionOnly t (negb (c =? 0)) (negb (u =? 0)))
  else if kind =? 9 then t ← read_u64; f ← read_u64; mret (FieldOnly t f)
  else if kind =? 10 then t ← read_u64; size ← read_i32; depth ← read_i32; mret (StepMod t size depth)
  else if kind =? 11 then o ← read_u64; mret (InstanceOnly o)
  else read_fail (ProtocolError "unknown modifier").

Record EventRequest : Type := {
  er_kind : Z;
  er_policy : Z;
  er_modifiers : list EventModifier;
}.

Definition read_request : Reader EventRequest :=
  kind ← read_u8;
  policy ← read_u8;
  n ← read_i32;
  modifiers ← read_count n parse_modifier;
  mret {| er_kind := kind; er_policy := policy; er_modifiers := modifiers |}.

Definition modifier_ok (m : EventModifier) : Prop :=
  match m with
  | Count n => in_s 32 n
  | ThreadOnly t | ClassOnly t | InstanceOnly t => in_u 64 t
  | ClassMatch p | ClassExclude p => is_string p /\ zlen (bytes_of_string p) < 2 ^ 32
  | LocationOnly l => location_ok l
  | ExceptionOnly t _ _ => in_u 64 t
  | FieldOnly t f => in_u 64 t /\ in_u 64 f
  | StepMod t size depth => in_u 64 t /\ in_s 32 size /\ in_s 32 depth
  end.
#[global] Instance modifier_ok_dec m : Decision (modifier_ok m).
Proof. destruct m; simpl; apply _. Defined.

(** The encoding of a request, with its modifiers counted. *)
Definition body_of (kind : Z) (policy : SuspendPolicy) (mods : list EventModifier) : bytes :=
  put_be 1 kind ++ put_be 1 (policy_byte policy) ++ put_be 4 (zlen mods) ++ concat (map encode_modifier mods).
End Meaning.

(** ** Arming *)

(** The calls that arm a request, with their arguments. *)
Inductive ArmCall : Type :=
| ABreakpoint (class_id : ReferenceTypeId) (method_id : MethodId) (index : Z) (p : SuspendPolicy)
| ABreakpointEx (class_id : ReferenceTypeId) (method_id : MethodId) (index : Z) (p : SuspendPolicy) (f : EventFilters)
| AClassPrepare (pattern : string) (p : SuspendPolicy)
| AException (ref_type : option ReferenceTypeId) (caught uncaught : bool) (p : SuspendPolicy) (f : EventFilters)
| AFieldWatch (ref_type : ReferenceTypeId) (field_id : FieldId) (kind : WatchKind) (p : SuspendPolicy) (f : EventFilters)
| AMethodExit (pattern : string) (with_value : bool) (p : SuspendPolicy) (exclude : list string) (f : EventFilters)
| AMonitor (kind : MonitorKind) (p : SuspendPolicy) (monitor_class : option ReferenceTypeId) (f : EventFilters)
| AStep (thread : ThreadId) (depth : StepDepth) (exclude only : list string).

Definition filter_mods (f : EventFilters) : list EventModifier :=
  option_list (Count <$> ef_count f) ++ option_list (ThreadOnly <$> ef_thread f) ++
  option_list (InstanceOnly <$> ef_instance f).

Definition class_location (class_id : ReferenceTypeId) (method_id : MethodId) (index : Z) : Location :=
  {| loc_type_tag := 1; loc_class_id := class_id; loc_method_id := method_id; loc_index := index |}.

(** The request each call is meant to arm. *)
Definition arm_kind (c : ArmCall) : Z :=
  match c with
  | ABreakpoint _ _ _ _ | ABreakpointEx _ _ _ _ _ => event_kinds.BREAKPOINT
  | AClassPrepare _ _ => event_kinds.CLASS_PREPARE
  | AException _ _ _ _ _ => event_kinds.EXCEPTION
  | AFieldWatch _ _ kind _ _ => watch_event_kind kind
  | AMethodExit _ with_value _ _ _ => method_exit_kind with_value
  | AMonitor kind _ _ _ => monitor_event_kind kind
  | AStep _ _ _ _ => event_kinds.SINGLE_STEP
  end.
Definition arm_policy (c : ArmCall) : SuspendPolicy :=
  match c with
  | ABreakpoint _ _ _ p | ABreakpointEx _ _ _ p _ | AClassPrepare _ p | AException _ _ _ p _
  | AFieldWatch _ _ _ p _ | AMethodExit _ _ p _ _ | AMonitor _ p _ _ => p
  | AStep _ _ _ _ => SuspendAll
  end.
Definition arm_mods (c : ArmCall) : list EventModifier :=
  match c with
  | ABreakpoint cl m i _ => [LocationOnly (class_location cl m i)]
  | ABreakpointEx cl m i _ f => LocationOnly (class_location cl m i) :: filter_mods f
  | AClassPrepare pat _ => [ClassMatch pat]
  | AException t c u _ f => ExceptionOnly (default 0 t) c u :: filter_mods f
  | AFieldWatch t fld _ _ f => FieldOnly t fld :: filter_mods f
  | AMethodExit pat _ _ exclude f => ClassMatch pat :: map ClassExclude exclude ++ filter_mods f
  | AMonitor _ _ t f => option_list (ClassOnly <$> t) ++ filter_mods f
  | AStep t depth exclude only =>
    StepMod t step_sizes.LINE (step_depth depth) :: map ClassMatch only ++ map ClassExclude exclude
  end.
(** The one call whose instance filter is written and not counted. *)
Definition uncounted (c : ArmCall) : bool :=
  match c with AMethodExit _ _ _ _ f => is_some (ef_instance f) | _ => false end.
(** The modifiers that are counted, and those that stand behind them. *)
Definition counted_mods (c : ArmCall) : list EventModifier := take (length (arm_mods c) - (if uncounted c then 1 else 0)) (arm_mods c).
Definition unread_mods (c : ArmCall) : list EventModifier :=
  match c with AMethodExit _ _ _ _ {| ef_instance := Some o |} => [InstanceOnly o] | _ => [] end.

Definition arm_ok (c : ArmCall) : Prop := Forall modifier_ok (arm_mods c) /\ zlen (arm_mods c) < 2 ^ 31.
#[global] Instance arm_ok_dec c : Decision (arm_ok c).
Proof. unfold arm_ok. apply _. Defined.

Section Arming.
Context `{BC : BytesCrate} `{D : Debuggee}.

Definition arm_body (c : ArmCall) : bytes :=
  match c with
  | ABreakpoint cl m i p => breakpoint_body cl m i p
  | ABreakpointEx cl m i p f => breakpoint_ex_body cl m i p f
  | AClassPrepare pat p => class_prepare_body pat p
  | AException t c u p f => exception_body t c u p f
  | AFieldWatch t fld k p f => field_watch_body t fld k p f
  | AMethodExit pat v p e f => method_exit_body pat v p e f
  | AMonitor k p t f => monitor_body k p t f
  | AStep t d e o => step_body t d e o
  end.

Definition arm (c : ArmCall) : M Z :=
  match c with
  | ABreakpoint cl m i p => set_breakpoint cl m i p
  | ABreakpointEx cl m i p f => set_breakpoint_ex cl m i p f
  | AClassPrepare pat p => set_class_prepare pat p
  | AException t c u p f => set_exception_request_ex t c u p f
  | AFieldWatch t fld k p f => set_field_watch_ex t fld k p f
  | AMethodExit pat v p e f => set_method_exit_request_ex pat v p e f
  | AMonitor k p t f => set_monitor_request k p t f
  | AStep t d e o => set_step_ex t d e o
  end.

Lemma arm_sends c : arm c = set_request (arm_body c).
Proof. by destruct c. Qed.

Lemma modifier_reads m : modifier_ok m -> Reads parse_modifier (encode_modifier m) m.
Proof.
  intros Hm. unfold parse_modifier.
  destruct m; simpl in Hm; destruct_and?; unfold encode_modifier;
    (eapply Reads_bind; [by apply read_u8_reads|]); simpl; solve_reads.
  - eapply Reads_bind_ret; [by apply location_reads|done].
  - eapply Reads_bind; [apply read_u8_reads, waited_byte|].
    eapply Reads_bind_ret; [apply read_u8_reads, waited_byte|]. by destruct caught, uncaught.
Qed.

Lemma policy_byte_ok p : in_u 8 (policy_byte p).
Proof. by destruct p. Qed.

Lemma body_of_reads kind policy mods :
  in_u 8 kind -> Forall modifier_ok mods -> zlen mods < 2 ^ 31 ->
  Reads read_request (body_of kind policy mods)
    {| er_kind := kind; er_policy := policy_byte policy; er_modifiers := mods |}.
Proof.
  intros Hk Hm Hn. unfold read_request, body_of.
  eapply Reads_bind; [by apply read_u8_reads|].
  eapply Reads_bind; [apply read_u8_reads, policy_byte_ok|].
  eapply Reads_bind; [apply read_i32_reads; unfold in_s, zlen in *; simpl; lia|].
  eapply Reads_bind_ret; [apply Reads_count|done].
  eapply Forall_impl; [|exact Hm]. intros m. apply modifier_reads.
Qed.

Lemma encode_filter_mods f :
  concat (map encode_modifier (filter_mods f)) =
  write_count_thread (ef_count f) (ef_thread f) ++ write_instance_only (ef_instance f).
Proof.
  unfold filter_mods, write_count_thread, write_instance_only.
  by destruct (ef_count f), (ef_thread f), (ef_instance f); simpl; rewrite ?app_nil_r, <- ?(assoc_L (++)).
Qed.

Lemma length_filter_mods f :
  zlen (filter_mods f) = n_if (ef_count f) + n_if (ef_thread f) + n_if (ef_instance f).
Proof. unfold filter_mods. by destruct (ef_count f), (ef_thread f), (ef_instance f). Qed.

Lemma encode_map_string (k : Z) (mk : string -> EventModifier) l :
  (forall p, encode_modifier (mk p) = put_be 1 k ++ write_jdwp_string p) ->
  concat (map encode_modifier (map mk l)) = concat (map (fun p => put_be 1 k ++ write_jdwp_string p) l).
Proof. intros H. rewrite map_map. f_equal. apply map_ext, H. Qed.

Lemma zlen_map {A B} (f : A -> B) l : zlen (map f l) = zlen l.
Proof. unfold zlen. by rewrite length_map. Qed.

(** Two bodies with the same head agree when their counts and their modifiers do. *)
Lemma body_eq (k p : bytes) n n' (r r' : bytes) :
  n = n' -> r = r' -> k ++ p ++ put_be 4 n ++ r = k ++ p ++ put_be 4 n' ++ r'.
Proof. by intros -> ->. Qed.

(** Every body is the encoding of its modifiers, with the number it announces. *)
Lemma arm_body_encodes c :
  arm_ok c ->
  arm_body c = put_be 1 (arm_kind c) ++ put_be 1 (policy_byte (arm_policy c)) ++
    put_be 4 (zlen (arm_mods c) - Z_of_bool (uncounted c)) ++ concat (map encode_modifier (arm_mods c)).
Proof.
  intros [_ Hn]. destruct c as [cl m i p|cl m i p f|pat p|t ca un p f|t fl k p f|pat v p e f|k p t f|t d e o];
    cbn [arm_mods arm_body arm_kind arm_policy uncounted] in *.
  - unfold breakpoint_body, breakpoint_location. simpl. by rewrite app_nil_r.
  - unfold breakpoint_ex_body, breakpoint_location. cbn [map concat].
    rewrite encode_filter_mods, zlen_cons, length_filter_mods.
    apply body_eq; [simpl Z_of_bool; lia|].
    unfold write_count_thread, write_instance_only. cbn [encode_modifier]. unfold encode_location. by rewrite <- !(assoc_L (++)).
  - unfold class_prepare_body. simpl. by rewrite app_nil_r.
  - unfold exception_body. cbn [map concat]. rewrite encode_filter_mods, zlen_cons, length_filter_mods.
    apply body_eq; [simpl Z_of_bool; lia|]. cbn [encode_modifier]. by rewrite <- !(assoc_L (++)).
  - unfold field_watch_body. cbn [map concat]. rewrite encode_filter_mods, zlen_cons, length_filter_mods.
    apply body_eq; [simpl Z_of_bool; lia|]. cbn [encode_modifier]. by rewrite <- !(assoc_L (++)).
  - unfold method_exit_body. cbn [map concat]. rewrite map_app, concat_app.
    rewrite encode_filter_mods, (encode_map_string 6) by done.
    rewrite zlen_cons, zlen_app, zlen_map, length_filter_mods in *. apply body_eq.
    + rewrite (proj2 (Z.leb_le _ _)); [unfold n_if; lia|].
      unfold n_if in Hn. destruct (ef_count f), (ef_thread f), (ef_instance f); simpl in Hn; lia.
    + cbn [encode_modifier]. by rewrite <- !(assoc_L (++)).
  - unfold monitor_body. rewrite map_app, concat_app, encode_filter_mods, zlen_app, length_filter_mods.
    apply body_eq; [destruct t; simpl Z_of_bool; unfold n_if, zlen; simpl; lia|].
    destruct t; simpl; by rewrite ?app_nil_r, <- ?(assoc_L (++)).
  - unfold step_body. cbn [map concat]. rewrite map_app, concat_app.
    rewrite (encode_map_string 5), (encode_map_string 6) by done.
    rewrite zlen_cons, zlen_app, !zlen_map in *. apply body_eq.
    + rewrite (proj2 (Z.leb_le _ _)) by lia. simpl. lia.
    + cbn [encode_modifier]. by rewrite <- !(assoc_L (++)).
Qed.

Lemma arm_kind_ok c : in_u 8 (arm_kind c).
Proof. destruct c as [| | | |? ? k ? ?|? v ? ? ?|k ? ? ?|]; try done; by (destruct k || destruct v). Qed.

Lemma Reads_rest {A} (r : Reader A) enc a rest : Reads r enc a -> r (enc ++ rest) = (Ok a, rest).
Proof. intros H. apply H. Qed.

Lemma mods_split c : arm_mods c = counted_mods c ++ unread_mods c /\ zlen (counted_mods c) = zlen (arm_mods c) - Z_of_bool (uncounted c).
Proof.
  unfold counted_mods. destruct (uncounted c) eqn:Hu.
  - destruct c as [| | | | |pat v p e [n t [o|]]| |]; try done. clear Hu. cbn [arm_mods unread_mods ef_instance].
    set (mods := ClassMatch pat :: map ClassExclude e ++ filter_mods {| ef_count := n; ef_thread := t; ef_instance := None |}).
    assert (ClassMatch pat :: map ClassExclude e ++ filter_mods {| ef_count := n; ef_thread := t; ef_instance := Some o |} = mods ++ [InstanceOnly o]) as ->.
    { unfold mods, filter_mods. simpl. by rewrite app_nil_r, <- !(assoc_L (++)). }
    rewrite length_app. cbn [length]. replace (length mods + 1 - 1)%nat with (length mods) by lia. rewrite take_app_length.
    split; [done|]. unfold zlen. rewrite length_app. cbn. lia.
  - rewrite Nat.sub_0_r, take_ge by done. assert (unread_mods c = []) as -> by by destruct c as [| | | | |? ? ? ? [? ? []]| |].
    rewrite app_nil_r, Z.sub_0_r. done.
Qed.

(** C7. Every call that arms a request sends one [EventRequest.Set]. A debuggee reads its body as exactly the
    kind, the suspend policy and the modifiers the arguments ask for, in order, and reads it to its end;
    except that of a method-exit request with an instance filter, which is written last and not counted:
    the request is read without the filter, whose bytes are left behind it. *)
Theorem armed_request_meaning (c : ArmCall) :
  arm_ok c ->
  arm c = set_request (arm_body c) /\ arm_mods c = counted_mods c ++ unread_mods c /\
  read_request (arm_body c) =
    (Ok {| er_kind := arm_kind c; er_policy := policy_byte (arm_policy c); er_modifiers := counted_mods c |},
     concat (map encode_modifier (unread_mods c))).
Proof.
  intros Hok. split; [apply arm_sends|]. destruct (mods_split c) as [Hs Hl]. split; [done|]. rewrite arm_body_encodes by done. destruct Hok as [Hm Hn].
  rewrite <- Hl, Hs, map_app, concat_app. rewrite Hs in Hm. apply Forall_app in Hm as [Hm _].
  assert (zlen (counted_mods c) < 2 ^ 31) as Hc by (rewrite Hl; destruct (uncounted c); simpl; lia).
  rewrite <- (Reads_rest _ _ _ (concat (map encode_modifier (unread_mods c))) (body_of_reads (arm_kind c) (arm_policy c) _ (arm_kind_ok c) Hm Hc)).
  f_equal. unfold body_of. by rewrite <- !(assoc_L (++)).
Qed.
End Arming.

(** A debuggee that answers nothing, for evaluating the model. *)
Definition silent_debuggee : Debuggee := {|
  issue_outcome _ _ := None;
  reply_outcome _ _ := Err (ReplyTimeout 30);
  lapses_unissued _ _ := false;
  lapses_unanswered _ _ := false
|}.

Definition sample_exit : ArmCall :=
  AMethodExit "com.x.*" true EventThread ["com.x.gen.*"]
    {| ef_count := Some 3; ef_thread := Some 77; ef_instance := Some 500 |}.

Lemma armed_request_meaning_witness :
  arm (BC := network_order) (D := silent_debuggee) sample_exit =
    set_request (BC := network_order) (D := silent_debuggee) (arm_body (BC := network_order) sample_exit) /\
  read_request (BC := network_order) (arm_body (BC := network_order) sample_exit) =
    (Ok {| er_kind := 42; er_policy := 1; er_modifiers := [ClassMatch "com.x.*"; ClassExclude "com.x.gen.*"; Count 3; ThreadOnly 77] |},
     [11; 0; 0; 0; 0; 0; 0; 1; 244]).
Proof.
  destruct (armed_request_meaning (BC := network_order) (D := silent_debuggee) sample_exit ltac:(by_compute)) as (H1 & _ & H2).
  split; [exact H1|]. rewrite H2. by vm_compute.
Defined.
