(* ===== verification/Api.v ===== *)
(** * What the client puts on the wire

    [ApiCall] lists every call of the client that talks to the debuggee, and [run_api] runs it. The
    class [Respects] composes: a program built from calls that respect a relation between the world
    before and after respects it. The relation [sends] says what a call may add to the wire: only
    packets of allowed commands, with consecutive ids. *)

From S2P Require Import Prelude Protocol Types Reader Events Connection Client EventRequest.

Inductive ApiCall : Type :=
| CGetSignature (t : ReferenceTypeId)
| CReadSignatures (ts : list ReferenceTypeId)
| CGetSuperclass (t : ClassId)
| CGetThisObject (thread : ThreadId) (frame : FrameId)
| CInvokeMethod (object : ObjectId) (thread : ThreadId) (class : ClassId) (method : MethodId) (args : list Value)
| CInvokeStaticMethod (class : ClassId) (thread : ThreadId) (method : MethodId) (args : list Value)
| CGetArrayLength (array : ObjectId)
| CGetArrayValues (array : ObjectId) (first length : Z)
| CSetArrayValues (array : ObjectId) (first : Z) (values : list Value)
| CCreateString (s : string)
| CSetFrameValue (thread : ThreadId) (frame : FrameId) (slot : Z) (value : Value)
| CGetStringValue (s : ObjectId)
| CReadStringValues (ss : list ObjectId)
| CGetFrameValues (thread : ThreadId) (frame : FrameId) (slots : list VariableSlot)
| CReadFrameValues (reads : list (ThreadId * FrameId * list VariableSlot))
| CPopFrames (thread : ThreadId) (frame : FrameId)
| CGetLineTable (t : ReferenceTypeId) (m : MethodId)
| CReadLineTables (pairs : list (ReferenceTypeId * MethodId))
| CGetBytecodes (t : ReferenceTypeId) (m : MethodId)
| CGetVariableTable (t : ReferenceTypeId) (m : MethodId)
| CReadVariableTables (pairs : list (ReferenceTypeId * MethodId))
| CGetObjectReferenceType (object : ObjectId)
| CReadReferenceTypes (objects : list ObjectId)
| CIsCollected (object : ObjectId)
| CGetObjectValues (object : ObjectId) (fields : list FieldId)
| CReadObjectValues (reads : list (ObjectId * list FieldId))
| CGetReferenceValues (t : ReferenceTypeId) (fields : list FieldId)
| CSetReferenceValues (class : ReferenceTypeId) (updates : list (FieldId * Value))
| CSetObjectValues (object : ObjectId) (updates : list (FieldId * Value))
| CGetMethods (t : ReferenceTypeId)
| CGetFields (t : ReferenceTypeId)
| CGetClassLoader (t : ReferenceTypeId)
| CGetInterfaces (t : ReferenceTypeId)
| CGetModifiers (t : ReferenceTypeId)
| CImplementsInterface (t : ReferenceTypeId) (wanted : string)
| CGetSourceFile (t : ReferenceTypeId)
| CGetSourceDebugExtension (t : ReferenceTypeId)
| CInstances (t : ReferenceTypeId) (max_instances : Z)
| CGetVersion
| CCanGetMethodReturnValues
| CCapabilities
| CCapabilitiesNew
| CInstanceCounts (ts : list ReferenceTypeId)
| CRedefineClasses (defs : list (ReferenceTypeId * bytes))
| CDispose
| CClassesBySignature (signature : string)
| CAllClasses
| CGetFrames (thread : ThreadId) (start length : Z)
| COwnedMonitors (thread : ThreadId)
| CCurrentContendedMonitor (thread : ThreadId)
| CGetAllThreads
| CGetThreadName (thread : ThreadId)
| CReadThreadNames (threads : list ThreadId)
| CGetThreadStatus (thread : ThreadId)
| CReadThreadStatuses (threads : list ThreadId)
| CSuspendCount (thread : ThreadId)
| CSuspendAll
| CResumeAll
| CResumeAllFully (probe : ThreadId) (max_resumes : Z)
| CSuspendThread (thread : ThreadId)
| CResumeThread (thread : ThreadId)
| CForceEarlyReturn (thread : ThreadId) (value : Value)
| CArm (c : ArmCall)
| CClearRequest (kind request_id : Z)
| CClearAllBreakpoints.

Section Api.
Context `{BC : BytesCrate} `{D : Debuggee}.

(** Keep only whether a call failed, and how. *)
Definition outcome_of {A} (m : M A) : M unit := _ ← m; mret tt.
Definition done_of {A} (m : St A) : M unit := _ ← lift m; mret tt.

Definition run_api (c : ApiCall) : M unit :=
  match c with
  | CGetSignature t => outcome_of (get_signature t)
  | CReadSignatures ts => done_of (read_signatures_independently ts)
  | CGetSuperclass t => outcome_of (get_superclass t)
  | CGetThisObject th f => outcome_of (get_this_object th f)
  | CInvokeMethod o th c m args => outcome_of (invoke_method o th c m args)
  | CInvokeStaticMethod c th m args => outcome_of (invoke_static_method c th m args)
  | CGetArrayLength a => outcome_of (get_array_length a)
  | CGetArrayValues a first len => outcome_of (get_array_values a first len)
  | CSetArrayValues a first vs => set_array_values a first vs
  | CCreateString s => outcome_of (create_string s)
  | CSetFrameValue th f slot v => set_frame_value th f slot v
  | CGetStringValue s => outcome_of (get_string_value s)
  | CReadStringValues ss => done_of (read_string_values_independently ss)
  | CGetFrameValues th f slots => outcome_of (get_frame_values th f slots)
  | CReadFrameValues reads => done_of (read_frame_values_independently reads)
  | CPopFrames th f => pop_frames th f
  | CGetLineTable t m => outcome_of (get_line_table t m)
  | CReadLineTables pairs => done_of (read_line_tables_independently pairs)
  | CGetBytecodes t m => outcome_of (get_bytecodes t m)
  | CGetVariableTable t m => outcome_of (get_variable_table t m)
  | CReadVariableTables pairs => done_of (read_variable_tables_independently pairs)
  | CGetObjectReferenceType o => outcome_of (get_object_reference_type o)
  | CReadReferenceTypes os => done_of (read_reference_types_independently os)
  | CIsCollected o => outcome_of (is_collected o)
  | CGetObjectValues o fs => outcome_of (get_object_values o fs)
  | CReadObjectValues reads => done_of (read_object_values_independently reads)
  | CGetReferenceValues t fs => outcome_of (get_reference_values t fs)
  | CSetReferenceValues c ups => set_reference_values c ups
  | CSetObjectValues o ups => set_object_values o ups
  | CGetMethods t => outcome_of (get_methods t)
  | CGetFields t => outcome_of (get_fields t)
  | CGetClassLoader t => outcome_of (get_class_loader t)
  | CGetInterfaces t => outcome_of (get_interfaces t)
  | CGetModifiers t => outcome_of (get_modifiers t)
  | CImplementsInterface t wanted => done_of (implements_interface t wanted)
  | CGetSourceFile t => outcome_of (get_source_file t)
  | CGetSourceDebugExtension t => outcome_of (get_source_debug_extension t)
  | CInstances t n => outcome_of (instances t n)
  | CGetVersion => outcome_of get_version
  | CCanGetMethodReturnValues => outcome_of can_get_method_return_values
  | CCapabilities => outcome_of capabilities
  | CCapabilitiesNew => outcome_of capabilities_new
  | CInstanceCounts ts => outcome_of (instance_counts ts)
  | CRedefineClasses defs => redefine_classes defs
  | CDispose => dispose
  | CClassesBySignature s => outcome_of (classes_by_signature s)
  | CAllClasses => outcome_of all_classes
  | CGetFrames th start len => outcome_of (get_frames th start len)
  | COwnedMonitors th => outcome_of (owned_monitors th)
  | CCurrentContendedMonitor th => outcome_of (current_contended_monitor th)
  | CGetAllThreads => outcome_of get_all_threads
  | CGetThreadName th => outcome_of (get_thread_name th)
  | CReadThreadNames ths => done_of (read_thread_names_independently ths)
  | CGetThreadStatus th => outcome_of (get_thread_status th)
  | CReadThreadStatuses ths => done_of (read_thread_statuses_independently ths)
  | CSuspendCount th => outcome_of (suspend_count th)
  | CSuspendAll => suspend_all
  | CResumeAll => resume_all
  | CResumeAllFully probe n => outcome_of (resume_all_fully probe n)
  | CSuspendThread th => suspend_thread th
  | CResumeThread th => resume_thread th
  | CForceEarlyReturn th v => force_early_return th v
  | CArm c => outcome_of (arm c)
  | CClearRequest kind id => clear_request kind id
  | CClearAllBreakpoints => clear_all_breakpoints
  end.

(** A session: the calls one after the other, each whatever became of the previous one. *)
Fixpoint run_session (calls : list ApiCall) (w : World) : World :=
  match calls with
  | [] => w
  | c :: calls => run_session calls (snd (run_api c w))
  end.
End Api.

(** ** The relation *)

(** The commands that change the debuggee: the two invocations, the writes, a forced return, a class
    redefinition and a frame pop. *)
Definition mutating (set command : Z) : bool :=
  bool_decide ((set, command) ∈
    [(command_sets.OBJECT_REFERENCE, object_reference_commands.INVOKE_METHOD);
     (command_sets.CLASS_TYPE, CLASS_TYPE_INVOKE_METHOD);
     (command_sets.OBJECT_REFERENCE, object_reference_commands.SET_VALUES);
     (command_sets.CLASS_TYPE, CLASS_TYPE_SET_VALUES);
     (command_sets.ARRAY_REFERENCE, ARRAY_SET_VALUES);
     (command_sets.STACK_FRAME, stack_frame_commands.SET_VALUES);
     (command_sets.THREAD_REFERENCE, thread_commands.FORCE_EARLY_RETURN);
     (command_sets.VIRTUAL_MACHINE, vm_commands.REDEFINE_CLASSES);
     (command_sets.STACK_FRAME, stack_frame_commands.POP_FRAMES)]).

Definition packet_mutates (p : CommandPacket) : bool := mutating (cp_command_set p) (cp_command p).

(** [n], and the [k] ids the counter gives from it. *)
Fixpoint id_after (n : Z) (k : nat) : Z :=
  match k with O => n | S k => id_after (wrap_u 32 (n + 1)) k end.
Fixpoint ids_from (n : Z) (k : nat) : list Z :=
  match k with O => [] | S k => n :: ids_from (wrap_u 32 (n + 1)) k end.

Lemma id_after_app n i j : id_after n (i + j) = id_after (id_after n i) j.
Proof. revert n. induction i as [|i IH]; intros n; simpl; [done|apply IH]. Qed.
Lemma ids_from_app n i j : ids_from n (i + j) = ids_from n i ++ ids_from (id_after n i) j.
Proof. revert n. induction i as [|i IH]; intros n; simpl; [done|by rewrite IH]. Qed.
Lemma ids_from_length n k : length (ids_from n k) = k.
Proof. revert n. induction k as [|k IH]; intros n; simpl; [done|by rewrite IH]. Qed.

(** The wire grows by packets satisfying [ok], numbered consecutively; [ro] is kept. *)
Definition sends (ok : CommandPacket -> Prop) (w w' : World) : Prop :=
  exists new, w_log w' = w_log w ++ new /\ Forall ok (attempts new) /\
    map cp_id (attempts new) = ids_from (w_next_id w) (length (attempts new)) /\
    w_next_id w' = id_after (w_next_id w) (length (attempts new)) /\
    w_read_only w' = w_read_only w.

Definition harmless (p : CommandPacket) : Prop := packet_mutates p = false.

(** [R true] is the promise of a read-only connection, [R false] of any. *)
Definition R (ro : bool) (w w' : World) : Prop :=
  if ro then w_read_only w = true -> sends harmless w w' else sends (fun _ => True) w w'.

Lemma sends_refl ok w : sends ok w w.
Proof. exists []. rewrite app_nil_r. split_and!; done || constructor. Qed.

Lemma sends_trans ok w1 w2 w3 : sends ok w1 w2 -> sends ok w2 w3 -> sends ok w1 w3.
Proof.
  intros (n1 & L1 & P1 & I1 & N1 & R1) (n2 & L2 & P2 & I2 & N2 & R2). exists (n1 ++ n2).
  assert (attempts (n1 ++ n2) = attempts n1 ++ attempts n2) as Ha by apply omap_app.
  rewrite Ha, length_app, ids_from_app, id_after_app, map_app, <- N1, I1, I2, L2, L1, N2, R2, R1.
  rewrite <- (assoc_L (++)). split_and!; try done. by apply Forall_app.
Qed.

#[global] Instance R_preorder ro : PreOrder (R ro).
Proof.
  split.
  - intros w. destruct ro; [intros _|]; apply sends_refl.
  - intros w1 w2 w3 H1 H2. destruct ro; simpl in *; [|by eapply sends_trans].
    intros Hro. specialize (H1 Hro). eapply sends_trans; [done|]. apply H2.
    by destruct H1 as (? & _ & _ & _ & _ & ->).
Qed.

(** ** Programs that respect a relation *)

#[global] Typeclasses Opaque attempt lift modify gets of_result mret mbind.

Class Respects (Q : relation World) {A} (m : World -> A * World) : Prop := respects w : Q w (snd (m w)).

Section Compose.
Context (Q : relation World) `{PreOrder World Q}.

#[global] Instance Respects_ret {A} (a : A) : Respects Q (mret a : M A).
Proof. intros w. simpl. reflexivity. Qed.
#[global] Instance Respects_st_ret {A} (a : A) : Respects Q (mret a : St A).
Proof. intros w. simpl. reflexivity. Qed.
#[global] Instance Respects_of_result {A} (r : JdwpResult A) : Respects Q (of_result r).
Proof. intros w. simpl. reflexivity. Qed.
#[global] Instance Respects_gets {A} (f : World -> A) : Respects Q (gets f).
Proof. intros w. simpl. reflexivity. Qed.

#[global] Instance Respects_bind {A B} (m : M A) (k : A -> M B) :
  Respects Q m -> (forall a, Respects Q (k a)) -> Respects Q (m ≫= k).
Proof.
  intros Hm Hk w. unfold mbind, m_bind. specialize (Hm w). destruct (m w) as [[a|e] w1]; simpl in *; [|done].
  transitivity w1; [done|apply Hk].
Qed.
#[global] Instance Respects_st_bind {A B} (m : St A) (k : A -> St B) :
  Respects Q m -> (forall a, Respects Q (k a)) -> Respects Q (m ≫= k).
Proof.
  intros Hm Hk w. unfold mbind, st_bind. specialize (Hm w). destruct (m w) as [a w1]; simpl in *.
  transitivity w1; [done|apply Hk].
Qed.

#[global] Instance Respects_lift {A} (m : St A) : Respects Q m -> Respects Q (lift m).
Proof. intros Hm w. unfold lift. specialize (Hm w). by destruct (m w). Qed.
#[global] Instance Respects_attempt {A} (m : M A) : Respects Q m -> Respects Q (attempt m).
Proof. done. Qed.

#[global] Instance Respects_st_map {A B} (f : A -> St B) l :
  (forall a, Respects Q (f a)) -> Respects Q (st_map f l).
Proof. intros Hf. induction l as [|a l IH]; simpl; apply _. Qed.
End Compose.

(** A step that leaves the wire, the counter and the flag alone. *)
Lemma Respects_quiet ro {A} (m : World -> A * World) :
  (forall w, w_log (snd (m w)) = w_log w /\ w_next_id (snd (m w)) = w_next_id w /\
     w_read_only (snd (m w)) = w_read_only w) -> Respects (R ro) m.
Proof.
  intros Hm w. destruct (Hm w) as (HL & HN & HR).
  assert (Hs : forall ok, sends ok w (snd (m w))).
  { intros ok. exists []. rewrite app_nil_r. split_and!; done || constructor. }
  destruct ro; simpl; auto.
Qed.

#[global] Instance Respects_with_types ro f : Respects (R ro) (modify (with_types f)).
Proof. by apply Respects_quiet. Qed.

(** On a read-only connection nothing after a guard runs. *)
#[global] Instance Respects_guard {A} what (k : unit -> M A) :
  Respects (R true) (guard_mutation what ≫= k) | 0.
Proof.
  intros w Hro. unfold guard_mutation, mbind, m_bind, lift, is_read_only, gets, of_result. rewrite Hro.
  apply sends_refl.
Qed.
#[global] Instance Respects_guard_any what : Respects (R false) (guard_mutation what).
Proof.
  apply Respects_quiet. intros w.
  unfold guard_mutation, mbind, m_bind, lift, is_read_only, gets, of_result.
  by destruct (w_read_only w) eqn:E.
Qed.

(** A program that makes a packet: one id is taken, nothing else happens. *)
Class MakesPacket (p : St CommandPacket) : Prop :=
  makes_packet : exists set command body, p = request set command body.
(** The packet's command changes nothing. *)
Class MakesHarmless (p : St CommandPacket) : Prop := makes_harmless w : harmless (fst (p w)).

Section Sending.
Context `{D : Debuggee}.

(** A tail of log events of which exactly the last issues [p]. *)
Lemma sends_one ok p w w' new :
  cp_id p = w_next_id w -> ok p -> w_log w' = w_log w ++ new -> attempts new = [p] ->
  w_next_id w' = wrap_u 32 (w_next_id w + 1) -> w_read_only w' = w_read_only w -> sends ok w w'.
Proof.
  intros Hid Hok HL HA HN HR. exists new. rewrite HA. simpl. rewrite Hid. split_and!; auto.
Qed.

(** A log that records one attempt for [p], and the rest of the world unchanged. *)
Definition one_attempt (p : CommandPacket) (w w' : World) : Prop :=
  (exists new, w_log w' = w_log w ++ new /\ attempts new = [p]) /\
  w_next_id w' = w_next_id w /\ w_read_only w' = w_read_only w.

Lemma one_attempt_log p w w' new :
  w_log w' = w_log w ++ new -> attempts new = [p] -> w_next_id w' = w_next_id w ->
  w_read_only w' = w_read_only w -> one_attempt p w w'.
Proof. intros. split; [by exists new|done]. Qed.

Lemma send_command_one p w : one_attempt p w (snd (send_command p w)).
Proof.
  unfold send_command, mbind, m_bind, lift, modify, issue_packet, await_reply. simpl.
  destruct (issue_outcome (w_log w) p); simpl.
  - by eapply one_attempt_log.
  - eapply one_attempt_log; [simpl; by rewrite <- (assoc_L (++))|done..].
Qed.

Lemma send_invoke_one p w : one_attempt p w (snd (send_invoke p w)).
Proof.
  unfold send_invoke, send_command_timed. unfold mbind at 1, m_bind at 1, lift at 1, invoke_timeout_ms, gets at 1.
  destruct (w_invoke_timeout_ms w =? 0); [apply send_command_one|].
  unfold mbind, m_bind, lift, modify, gets, issue_packet, await_reply, of_result. simpl.
  destruct (lapses_unissued (w_log w) p); simpl; [by eapply one_attempt_log|].
  destruct (issue_outcome (w_log w) p); simpl; [by eapply one_attempt_log|].
  destruct (lapses_unanswered _ p); simpl;
    (eapply one_attempt_log; [simpl; by rewrite <- (assoc_L (++))|done..]).
Qed.

(** Taking an id and attempting the packet it numbers. *)
Lemma exchange_sends ok (send : CommandPacket -> M ReplyPacket) packet w :
  (forall p w, one_attempt p w (snd (send p w))) -> MakesPacket packet ->
  ok (fst (packet w)) -> sends ok w (snd ((p ← lift packet; send p : M ReplyPacket) w)).
Proof.
  intros Hsend (set & command & body & ->) Hok.
  unfold mbind, m_bind, lift, request, mbind, st_bind, next_id, mret, st_ret in *. simpl in *.
  set (p := with_data _ _) in *. set (w1 := {| w_next_id := _ |}).
  destruct (Hsend p w1) as [(new & HL & HA) [HN HR]].
  by apply (sends_one ok p w _ new).
Qed.

#[global] Instance Respects_exchange packet :
  MakesPacket packet -> MakesHarmless packet -> Respects (R true) (exchange packet).
Proof. intros Hp Hh w Hro. apply exchange_sends; [apply send_command_one|done|apply Hh]. Qed.
#[global] Instance Respects_exchange_any packet : MakesPacket packet -> Respects (R false) (exchange packet).
Proof. intros Hp w. by apply exchange_sends; [apply send_command_one|..]. Qed.
#[global] Instance Respects_exchange_invoke packet :
  MakesPacket packet -> Respects (R false) (exchange_invoke packet).
Proof. intros Hp w. by apply exchange_sends; [apply send_invoke_one|..]. Qed.
End Sending.

(** The packets of a wave take consecutive ids, and nothing is issued while they are made. *)
Lemma requests_made {A} (request_of : A -> St CommandPacket) ok l w :
  (forall a, MakesPacket (request_of a)) -> (forall a w, ok (fst (request_of a w))) ->
  exists packets w', st_map request_of l w = (packets, w') /\ w_log w' = w_log w /\
    map cp_id packets = ids_from (w_next_id w) (length l) /\ length packets = length l /\
    w_next_id w' = id_after (w_next_id w) (length l) /\ w_read_only w' = w_read_only w /\ Forall ok packets.
Proof.
  intros Hm Hok. revert w. induction l as [|a l IH]; intros w; simpl.
  { eexists [], w. split_and!; done || constructor. }
  unfold mbind, st_bind. pose proof (Hok a w) as Ha.
  destruct (Hm a) as (set & command & body & Hr). rewrite Hr in *.
  unfold request, mbind, st_bind, next_id, mret, st_ret in Ha |- *. simpl in Ha.
  match goal with |- context [st_map _ _ ?w1] => destruct (IH w1) as (packets & w' & -> & HL & HI & Hlen & HN & HR & HF) end.
  eexists _, w'. split; [done|]. simpl in *. rewrite HI, HN, Hlen. split_and!; try done. by constructor.
Qed.

Section Waves.
Context `{D : Debuggee}.

Lemma wave_sends {A B} ok (request_of : A -> St CommandPacket) (decode_reply : ReplyPacket -> JdwpResult B) l w :
  (forall a, MakesPacket (request_of a)) -> (forall a w, ok (fst (request_of a w))) ->
  sends ok w (snd (wave request_of decode_reply l w)).
Proof.
  intros Hm Hok. unfold wave. unfold mbind at 1, st_bind at 1.
  destruct (requests_made request_of ok l w Hm Hok) as (packets & w1 & -> & HL & HI & Hlen & HN & HR & HF).
  unfold mbind, st_bind. unfold read_independently, modify, mbind, st_bind.
  destruct (issue_all _ _ _ _) as [rs w2] eqn:H.
  apply issue_all_spec in H as (new & more & L & _ & _ & _ & Ha & _ & _ & [= HN2 _ HR2 _]); [|simpl; lia].
  simpl in *. exists new. rewrite Ha, Hlen, HI, HN2, HN, L, HL, HR2, HR. split_and!; done.
Qed.

#[global] Instance Respects_wave {A B} (request_of : A -> St CommandPacket) (decode_reply : ReplyPacket -> JdwpResult B) l :
  (forall a, MakesPacket (request_of a)) -> (forall a, MakesHarmless (request_of a)) ->
  Respects (R true) (wave request_of decode_reply l).
Proof. intros Hm Hh w Hro. apply wave_sends; [done|intros a w'; apply (Hh a)]. Qed.
#[global] Instance Respects_wave_any {A B} (request_of : A -> St CommandPacket)
    (decode_reply : ReplyPacket -> JdwpResult B) l :
  (forall a, MakesPacket (request_of a)) -> Respects (R false) (wave request_of decode_reply l).
Proof. intros Hm w. by apply wave_sends. Qed.
End Waves.

(** A request is recognised by unfolding it; whether it is harmless, by evaluating its command. *)
Ltac open_request :=
  repeat match goal with
  | x : _ * _ |- _ => destruct x
  | |- context [if ?b then _ else _] => is_var b; destruct b
  end.
#[export] Hint Extern 0 (MakesPacket _) => (intros; open_request; do 3 eexists; reflexivity) : typeclass_instances.
#[export] Hint Extern 0 (MakesHarmless _) => (intros; open_request; intros ?; reflexivity) : typeclass_instances.

Lemma Respects_if (Q : relation World) {A} (b : bool) (m1 m2 : World -> A * World) :
  Respects Q m1 -> Respects Q m2 -> Respects Q (if b then m1 else m2).
Proof. by destruct b. Qed.
#[export] Hint Extern 1 (Respects _ (if _ then _ else _)) => (simple apply Respects_if) : typeclass_instances.

Section Calls.
Context `{BC : BytesCrate} `{D : Debuggee}.

#[global] Instance Respects_fallback (Q : relation World) `{PreOrder World Q} {A} (m : bool -> M A) :
  (forall b, Respects Q (m b)) -> Respects Q (with_fallback m).
Proof. intros Hm. unfold with_fallback. apply _. Qed.

#[global] Instance Respects_variable_table ro t m b : Respects (R ro) (read_variable_table t m b).
Proof. unfold read_variable_table, variable_table_request. destruct b, ro; apply _. Qed.
#[global] Instance Respects_methods ro t b : Respects (R ro) (read_methods t b).
Proof. unfold read_methods. destruct b, ro; apply _. Qed.
#[global] Instance Respects_fields ro t b : Respects (R ro) (read_fields t b).
Proof. unfold read_fields. destruct b, ro; apply _. Qed.
#[global] Instance Respects_keep ro a : Respects (R ro) (keep_signature a).
Proof. unfold keep_signature. destruct a as [? []]; apply _. Qed.
#[global] Instance Respects_signature ro t : Respects (R ro) (get_signature t).
Proof.
  unfold get_signature. destruct ro; apply Respects_bind; try apply _; intros types; case_match; apply _.
Qed.
#[global] Instance Respects_interfaces ro t : Respects (R ro) (get_interfaces t).
Proof. unfold get_interfaces. destruct ro; apply Respects_bind; try apply _; intros types; case_match; apply _. Qed.
#[global] Instance Respects_superclass ro t : Respects (R ro) (get_superclass t).
Proof. unfold get_superclass. destruct ro; apply Respects_bind; try apply _; intros types; case_match; apply _. Qed.
#[global] Instance Respects_get_methods ro t : Respects (R ro) (get_methods t).
Proof. unfold get_methods. apply Respects_bind; try apply _. intros types. case_match; apply _. Qed.
#[global] Instance Respects_get_fields ro t : Respects (R ro) (get_fields t).
Proof. unfold get_fields. apply Respects_bind; try apply _. intros types. case_match; apply _. Qed.

#[global] Instance Respects_read_signatures ro ts : Respects (R ro) (read_signatures_independently ts).
Proof. unfold read_signatures_independently. destruct ro; apply _. Qed.
#[global] Instance Respects_read_variable_tables ro ps : Respects (R ro) (read_variable_tables_independently ps).
Proof. unfold read_variable_tables_independently, variable_table_wave. destruct ro; apply _. Qed.

#[global] Instance Respects_walk ro fuel wanted seen stack : Respects (R ro) (walk_supertypes fuel wanted seen stack).
Proof.
  revert seen stack. induction fuel as [|fuel IH]; intros seen [|current stack]; cbn [walk_supertypes]; apply _.
Qed.

#[global] Instance Respects_suspend_count ro t : Respects (R ro) (suspend_count t).
Proof. unfold suspend_count. destruct ro; apply _. Qed.
#[global] Instance Respects_resume_all ro : Respects (R ro) resume_all.
Proof. unfold resume_all. destruct ro; apply _. Qed.
#[global] Instance Respects_resume_until ro n issued probe : Respects (R ro) (resume_until n issued probe).
Proof.
  revert issued. induction n as [|n IH]; intros issued; cbn [resume_until]; apply _.
Qed.
#[global] Instance Respects_version ro : Respects (R ro) get_version.
Proof. unfold get_version. destruct ro; apply _. Qed.
#[global] Instance Respects_arm ro c : Respects (R ro) (arm c).
Proof. rewrite arm_sends. unfold set_request. destruct ro; apply _. Qed.

Lemma run_api_respects ro c : Respects (R ro) (run_api c).
Proof.
  destruct c; unfold run_api, outcome_of, done_of; try apply _; destruct ro;
  unfold get_this_object, invoke_method, invoke_static_method, get_array_length, get_array_values,
    set_array_values, create_string, set_frame_value, get_string_value, read_string_values_independently,
    get_frame_values, read_frame_values_independently, pop_frames, get_line_table,
    read_line_tables_independently, get_bytecodes, get_variable_table, get_object_reference_type,
    read_reference_types_independently, is_collected, get_object_values, read_object_values_independently,
    get_reference_values, set_reference_values, set_object_values, get_class_loader, get_modifiers,
    implements_interface, get_source_file, get_source_debug_extension, instances,
    can_get_method_return_values, capabilities, capabilities_new, instance_counts, redefine_classes, dispose,
    classes_by_signature, all_classes, get_frames, owned_monitors, current_contended_monitor,
    get_all_threads, get_thread_name, read_thread_names_independently, get_thread_status,
    read_thread_statuses_independently, suspend_all, resume_all_fully, suspend_thread, resume_thread,
    force_early_return, clear_request, clear_all_breakpoints; try apply _.
Qed.
End Calls.

(** ** Packet ids *)

Lemma id_after_eq n k : in_u 32 n -> id_after n k = (n + Z.of_nat k) mod 2 ^ 32.
Proof.
  revert n. induction k as [|k IH]; intros n Hn; cbn [id_after].
  { rewrite Z.add_0_r, Z.mod_small by done. done. }
  rewrite IH by (apply wrap_u_range; lia). unfold wrap_u. rewrite Zplus_mod_idemp_l. f_equal. lia.
Qed.

Lemma ids_from_eq n k : in_u 32 n -> ids_from n k = map (fun i => (n + Z.of_nat i) mod 2 ^ 32) (seq 0 k).
Proof.
  intros Hn. induction k as [|k IH]; [done|].
  rewrite <- Nat.add_1_r, ids_from_app, IH, seq_app, map_app. simpl. f_equal. rewrite id_after_eq by done. done.
Qed.

Lemma ids_from_nodup n k : in_u 32 n -> Z.of_nat k <= 2 ^ 32 -> NoDup (ids_from n k).
Proof.
  intros Hn Hk. rewrite ids_from_eq by done. apply NoDup_fmap_2_strong; [|apply NoDup_seq].
  intros i j Hi Hj Heq. apply elem_of_seq in Hi, Hj.
  assert (Hz : (Z.of_nat i - Z.of_nat j) mod 2 ^ 32 = 0).
  { replace (Z.of_nat i - Z.of_nat j) with ((n + Z.of_nat i) - (n + Z.of_nat j)) by lia.
    rewrite Zminus_mod, Heq, Z.sub_diag. done. }
  apply Z.mod_divide in Hz as [q Hq]; [|lia]. assert (q = 0) by lia. lia.
Qed.

Section Properties.
Context `{BC : BytesCrate} `{D : Debuggee}.

Lemma run_session_respects ro calls w : R ro w (run_session calls w).
Proof.
  revert w. induction calls as [|c calls IH]; intros w; simpl; [reflexivity|].
  transitivity (snd (run_api c w)); [apply run_api_respects|apply IH].
Qed.

(** C1. Read-only means read-only: on a connection with the flag set, whatever calls are made, in
    whatever order, and whatever the debuggee answers, no packet whose command changes the debuggee
    is ever offered to the wire, and the flag stays set. *)
Theorem read_only_never_mutates (calls : list ApiCall) (w : World) :
  w_read_only w = true ->
  exists new, w_log (run_session calls w) = w_log w ++ new /\
    (forall p, p ∈ attempts new -> packet_mutates p = false) /\
    w_read_only (run_session calls w) = true.
Proof.
  intros Hro. destruct (run_session_respects true calls w Hro) as (new & HL & HF & _ & _ & HR).
  exists new. rewrite HR. split_and!; [done| |done]. intros p Hp. by apply (Forall_in _ _ _ HF).
Qed.

(** Every command costs one id: over a session of fewer than 2^32 - 1 packets the ids are 1, 2,
    3, ... in the order the packets were offered to the wire, no two of them are equal (which is what
    the event loop's correlation needs), and [packets_sent] is their number; past that they wrap. *)
Theorem packet_ids (calls : list ApiCall) :
  let w := run_session calls world_init in
  map cp_id (attempts (w_log w)) =
    map (fun i => (1 + Z.of_nat i) mod 2 ^ 32) (seq 0 (length (attempts (w_log w)))) /\
  (zlen (attempts (w_log w)) < 2 ^ 32 - 1 ->
     NoDup (map cp_id (attempts (w_log w))) /\ fst (packets_sent w) = zlen (attempts (w_log w))).
Proof.
  intros w. destruct (run_session_respects false calls world_init) as (new & HL & _ & HI & HN & _).
  fold w in HL, HN. rewrite HL. simpl in *.
  rewrite HI, ids_from_eq by done. split; [done|]. intros Hlen. unfold zlen in Hlen. split.
  - rewrite <- ids_from_eq by done. apply ids_from_nodup; [done|lia].
  - unfold packets_sent, gets. simpl. rewrite HN, id_after_eq by done.
    rewrite Z.mod_small by lia. unfold sat_sub, zlen. lia.
Qed.

(** ** The guard *)

(** The calls that change the debuggee, with the guard's words and their command. *)
Definition mutation (c : ApiCall) : option (string * Z * Z) :=
  match c with
  | CRedefineClasses _ => Some ("a class redefinition", command_sets.VIRTUAL_MACHINE, vm_commands.REDEFINE_CLASSES)
  | CPopFrames _ _ => Some ("a frame pop", command_sets.STACK_FRAME, stack_frame_commands.POP_FRAMES)
  | CInvokeMethod _ _ _ _ _ =>
    Some ("an instance method invocation", command_sets.OBJECT_REFERENCE, object_reference_commands.INVOKE_METHOD)
  | CInvokeStaticMethod _ _ _ _ =>
    Some ("a static method invocation", command_sets.CLASS_TYPE, CLASS_TYPE_INVOKE_METHOD)
  | CSetArrayValues _ _ _ => Some ("an array element write", command_sets.ARRAY_REFERENCE, ARRAY_SET_VALUES)
  | CSetFrameValue _ _ _ _ => Some ("a local variable write", command_sets.STACK_FRAME, stack_frame_commands.SET_VALUES)
  | CForceEarlyReturn _ _ =>
    Some ("a forced early return", command_sets.THREAD_REFERENCE, thread_commands.FORCE_EARLY_RETURN)
  | CSetReferenceValues _ _ => Some ("a static field write", command_sets.CLASS_TYPE, CLASS_TYPE_SET_VALUES)
  | CSetObjectValues _ _ =>
    Some ("an instance field write", command_sets.OBJECT_REFERENCE, object_reference_commands.SET_VALUES)
  | _ => None
  end.

(** What a guarded call does: refuse and change nothing, or offer one packet of its command. *)
Definition guarded (what : string) (set command : Z) {A} (m : M A) : Prop := forall w,
  (w_read_only w = true -> m w = (Err (ReadOnly what), w)) /\
  (w_read_only w = false -> exists new p, w_log (snd (m w)) = w_log w ++ new /\ attempts new = [p] /\
     cp_command_set p = set /\ cp_command p = command /\ cp_id p = w_next_id w).

Lemma guarded_exchange what set command body {A} (send : CommandPacket -> M ReplyPacket) (k : ReplyPacket -> M A) :
  (forall p w, one_attempt p w (snd (send p w))) ->
  (forall reply w, w_log (snd (k reply w)) = w_log w) ->
  guarded what set command
    (_ ← guard_mutation what; reply ← (p ← lift (request set command body); send p : M ReplyPacket); k reply).
Proof.
  intros Hsend Hk w. unfold guard_mutation, mbind, m_bind, lift, is_read_only, gets, of_result, request, mbind,
    st_bind, next_id, mret, st_ret, m_ret. split; intros ->; [done|].
  match goal with |- context [send ?p ?w1] => destruct (Hsend p w1) as [(new & HL & HA) _]; exists new, p;
    destruct (send p w1) as [[r|e] w2] end; rewrite ?Hk; done.
Qed.

Lemma guarded_outcome what set command {A} (m : M A) :
  guarded what set command m -> guarded what set command (outcome_of m).
Proof.
  intros Hm w. destruct (Hm w) as [H1 H2]. unfold outcome_of, mbind, m_bind, mret, m_ret. split.
  - intros Hro. by rewrite H1.
  - intros Hro. destruct (H2 Hro) as (new & p & HL & Hp). exists new, p. by destruct (m w) as [[] ?].
Qed.

(** Every call that changes the debuggee is guarded, and nothing else stops it: on a read-only
    connection it returns [ReadOnly] with its own name and leaves the connection untouched, sending
    nothing; on a writable one it offers exactly one packet, of its own command, under the next id. *)
Theorem mutations_guarded (c : ApiCall) (what : string) (set command : Z) :
  mutation c = Some (what, set, command) ->
  packet_mutates (new_command 0 set command) = true /\ guarded what set command (run_api c).
Proof.
  intros H. destruct c; try discriminate H; injection H as <- <- <-; (split; [reflexivity|]);
    unfold run_api; try apply guarded_outcome;
    (apply guarded_exchange; [apply send_command_one || apply send_invoke_one|]).
  all: intros reply w; unfold mbind, m_bind, of_result, lift, modify, acknowledge.
  all: first [done | by destruct (check_error reply)].
Qed.
End Properties.

Definition read_only_world : World := snd (set_read_only true world_init).

Lemma read_only_never_mutates_witness :
  exists new, w_log (run_session (BC := network_order) (D := silent_debuggee)
      [CGetVersion; CPopFrames 1 2; CSetObjectValues 5 []; CReadThreadNames [4; 5]] read_only_world) =
    w_log read_only_world ++ new /\
  (forall p, p ∈ attempts new -> packet_mutates p = false) /\
  w_read_only (run_session (BC := network_order) (D := silent_debuggee)
      [CGetVersion; CPopFrames 1 2; CSetObjectValues 5 []; CReadThreadNames [4; 5]] read_only_world) = true.
Proof. apply (read_only_never_mutates (BC := network_order) (D := silent_debuggee)). reflexivity. Defined.

Lemma packet_ids_witness :
  NoDup (map cp_id (attempts (w_log (run_session (BC := network_order) (D := silent_debuggee)
    [CGetVersion; CPopFrames 1 2; CReadThreadNames [4; 5]] world_init)))).
Proof.
  destruct (packet_ids (BC := network_order) (D := silent_debuggee)
    [CGetVersion; CPopFrames 1 2; CReadThreadNames [4; 5]]) as [_ H].
  apply H. vm_compute. reflexivity.
Defined.

Lemma mutations_guarded_witness :
  packet_mutates (new_command 0 16 4) = true /\
  guarded "a frame pop" 16 4 (run_api (BC := network_order) (D := silent_debuggee) (CPopFrames 1 2)).
Proof. apply (mutations_guarded (BC := network_order) (D := silent_debuggee)). reflexivity. Defined.
