(* ===== verification/TypeGraph.v ===== *)
(** * Types, their cache and the supertype walk

    What the client's cached reads and [implements_interface] compute when the debuggee answers
    truthfully about a fixed graph of loaded types. *)

From S2P Require Import Prelude Protocol Types Reader Events Connection Client.

(** ** The cache *)

Section Cache.
Context `{BC : BytesCrate} `{D : Debuggee}.

(** A read repeated after it succeeded gives the same answer and touches nothing; one that failed
    left the cache as it was. *)
Definition read_once {A} (m : M A) : Prop := forall w r w', m w = (r, w') ->
  match r with Ok a => m w' = (Ok a, w') | Err _ => w_types w' = w_types w end.

(** A program that never writes the cache. *)
Definition keeps_types {A} (m : World -> A * World) : Prop := forall w, w_types (snd (m w)) = w_types w.

Lemma keeps_types_bind {A B} (m : M A) (k : A -> M B) :
  keeps_types m -> (forall a, keeps_types (k a)) -> keeps_types (m ≫= k).
Proof.
  intros Hm Hk w. unfold mbind, m_bind. specialize (Hm w). destruct (m w) as [[a|e] w1]; simpl in *; [|done].
  by rewrite Hk.
Qed.

Lemma keeps_types_exchange set command body : keeps_types (exchange (request set command body)).
Proof.
  intros w. unfold exchange, send_command, request, mbind, m_bind, st_bind, lift, next_id, modify, issue_packet,
    await_reply, mret, st_ret. simpl. by destruct (issue_outcome _ _).
Qed.

Lemma keeps_types_ask {B} set command body (k : ReplyPacket -> JdwpResult B) :
  keeps_types (reply ← exchange (request set command body); of_result (k reply)).
Proof. apply keeps_types_bind; [apply keeps_types_exchange|done]. Qed.

Lemma keeps_types_fallback {A} (m : bool -> M A) :
  (forall b, keeps_types (m b)) -> keeps_types (with_fallback m).
Proof.
  intros Hm. unfold with_fallback. apply keeps_types_bind.
  - intros w. unfold lift, attempt. specialize (Hm true w). by destruct (m true w).
  - intros first. case_match; [apply Hm|done].
Qed.

(** A read through the cache: look up, else ask and remember. *)
Definition through_cache {A} (find_ : TypeCache -> option A) (remember : A -> TypeCache -> TypeCache)
    (ask : M A) : M A := fun w =>
  match find_ (w_types w) with
  | Some hit => (Ok hit, w)
  | None =>
    match ask w with
    | (Ok a, w) => (Ok a, with_types (remember a) w)
    | (Err e, w) => (Err e, w)
    end
  end.

Lemma through_cache_once {A} find_ remember (ask m : M A) :
  (forall w, m w = through_cache find_ remember ask w) ->
  (forall a c, find_ (remember a c) = Some a) -> keeps_types ask -> read_once m.
Proof.
  intros Hm Hfr Hk w r w'. rewrite Hm. unfold through_cache.
  destruct (find_ (w_types w)) as [hit|] eqn:E.
  - intros [= <- <-]. rewrite Hm. unfold through_cache. by rewrite E.
  - specialize (Hk w). destruct (ask w) as [[a|e] w1]; intros [= <- <-]; [|done].
    rewrite Hm. unfold through_cache. simpl. by rewrite Hfr.
Qed.

(** The cached reads are of this form. *)
Ltac cached := intros w; unfold through_cache, mbind, m_bind, lift, gets, modify, of_result, mret, m_ret;
  repeat case_match; simplify_eq/=; done.

Lemma get_signature_cached t w :
  get_signature t w = through_cache (fun c => cached_signature c t) (put_signature t)
    (reply ← exchange (signature_request t); of_result (decode_signature_reply reply)) w.
Proof. revert w. unfold get_signature. cached. Qed.
Lemma get_interfaces_cached t w :
  get_interfaces t w = through_cache (fun c => cached_interfaces c t) (put_interfaces t)
    (reply ← exchange (request command_sets.REFERENCE_TYPE reference_type_commands.INTERFACES (put_be 8 t));
     of_result (decode_with read_ids reply)) w.
Proof. revert w. unfold get_interfaces. cached. Qed.
Lemma get_methods_cached t w :
  get_methods t w =
    through_cache (fun c => cached_methods c t) (put_methods t) (with_fallback (read_methods t)) w.
Proof. revert w. unfold get_methods. cached. Qed.
Lemma get_fields_cached t w :
  get_fields t w = through_cache (fun c => cached_fields c t) (put_fields t) (with_fallback (read_fields t)) w.
Proof. revert w. unfold get_fields. cached. Qed.
Lemma get_superclass_cached t w :
  get_superclass t w = through_cache (fun c => tc_superclasses c !! t) (put_superclass t)
    (reply ← exchange (request command_sets.CLASS_TYPE CLASS_TYPE_SUPERCLASS (put_be 8 t));
     sc ← of_result (decode_with read_u64 reply); mret (if sc =? 0 then None else Some sc)) w.
Proof. revert w. unfold get_superclass, cached_superclass. cached. Qed.

(** Type information is read once: after a signature, the interfaces, the methods, the fields or
    the superclass of a type have been read (an empty list and the root's missing superclass
    included), reading it again gives the same answer, sends nothing and changes nothing; and a read
    that failed is not remembered. *)
Theorem types_read_once (t : ReferenceTypeId) :
  read_once (get_signature t) /\ read_once (get_interfaces t) /\ read_once (get_methods t) /\
  read_once (get_fields t) /\ read_once (get_superclass t).
Proof.
  split_and!.
  - eapply through_cache_once; [apply get_signature_cached|intros; apply lookup_insert_eq|apply keeps_types_ask].
  - eapply through_cache_once; [apply get_interfaces_cached|intros; apply lookup_insert_eq|apply keeps_types_ask].
  - eapply through_cache_once; [apply get_methods_cached|intros; apply lookup_insert_eq|].
    apply keeps_types_fallback. intros b. apply keeps_types_ask.
  - eapply through_cache_once; [apply get_fields_cached|intros; apply lookup_insert_eq|].
    apply keeps_types_fallback. intros b. apply keeps_types_ask.
  - eapply through_cache_once; [apply get_superclass_cached|intros; apply lookup_insert_eq|].
    apply keeps_types_bind; [apply keeps_types_exchange|]. intros reply. by apply keeps_types_bind.
Qed.

(** ** Redefinition *)

Definition forgotten (id : ReferenceTypeId) (c : TypeCache) : Prop :=
  cached_signature c id = None /\ cached_fields c id = None /\ cached_methods c id = None /\
  cached_superclass c id = Unknown /\ cached_interfaces c id = None.
Definition same_entries (id : ReferenceTypeId) (c c' : TypeCache) : Prop :=
  cached_signature c' id = cached_signature c id /\ cached_fields c' id = cached_fields c id /\
  cached_methods c' id = cached_methods c id /\ cached_superclass c' id = cached_superclass c id /\
  cached_interfaces c' id = cached_interfaces c id.

Lemma invalidate_forgets id c : forgotten id (invalidate id c).
Proof. unfold forgotten, cached_superclass. simpl. by rewrite lookup_delete_eq; split_and!; try apply lookup_delete_eq. Qed.

Lemma invalidate_others id id' c : id' <> id -> same_entries id' c (invalidate id c).
Proof.
  intros Hne. unfold same_entries, cached_signature, cached_fields, cached_methods, cached_superclass,
    cached_interfaces. simpl. by rewrite !lookup_delete_ne by done.
Qed.

Lemma invalidate_all_spec ids c id :
  if decide (id ∈ ids) then forgotten id (invalidate_all ids c) else same_entries id c (invalidate_all ids c).
Proof.
  revert c. induction ids as [|i ids IH]; intros c; simpl; [done|]. specialize (IH (invalidate i c)).
  destruct (decide (id ∈ ids)) as [Hin|Hin].
  - by rewrite decide_True by (by right).
  - destruct (decide (id = i)) as [->|Hne].
    + rewrite decide_True by (by left). destruct (invalidate_forgets i c) as (H1 & H2 & H3 & H4 & H5).
      destruct IH as (G1 & G2 & G3 & G4 & G5). unfold forgotten. by rewrite G1, G2, G3, G4, G5.
    + rewrite decide_False by (rewrite elem_of_cons; tauto).
      destruct (invalidate_others i id c Hne) as (H1 & H2 & H3 & H4 & H5).
      destruct IH as (G1 & G2 & G3 & G4 & G5). unfold same_entries. by rewrite G1, G2, G3, G4, G5.
Qed.

(** A class redefinition the debuggee accepted leaves nothing stale: every redefined type is
    forgotten by all five caches, every other type keeps its entries; and a redefinition that was
    refused, by the guard, the wire or the debuggee, leaves the cache alone. *)
Theorem redefinition_forgets (defs : list (ReferenceTypeId * bytes)) (w : World) :
  let '(r, w') := redefine_classes defs w in
  match r with
  | Ok _ => forall id, if decide (id ∈ map fst defs) then forgotten id (w_types w')
                       else same_entries id (w_types w) (w_types w')
  | Err _ => w_types w' = w_types w
  end.
Proof.
  unfold redefine_classes, guard_mutation. unfold mbind at 1, m_bind at 1, mbind at 1, m_bind at 1, lift at 1,
    is_read_only, gets. destruct (w_read_only w); [done|]. unfold mret, m_ret.
  unfold mbind at 1, m_bind at 1, vm_request.
  pose proof (keeps_types_exchange command_sets.VIRTUAL_MACHINE vm_commands.REDEFINE_CLASSES
    (put_len defs ++ concat (map put_class_bytes defs)) w) as Hk.
  destruct (exchange _ w) as [[reply|e] w1]; simpl in Hk |- *; [|done].
  unfold mbind, m_bind, of_result, lift, modify. destruct (acknowledge reply) as [[]|e]; simpl; [|done].
  intros id. rewrite Hk. apply invalidate_all_spec.
Qed.
End Cache.

(** ** A debuggee with a fixed graph of types *)

(** What the debuggee knows of each type id; [None] is an id it refuses. *)
Record Graph : Type := {
  g_signature : ReferenceTypeId -> option string;
  g_interfaces : ReferenceTypeId -> option (list ReferenceTypeId);
  g_superclass : ReferenceTypeId -> option (option ReferenceTypeId);
}.

Definition graph_ok (g : Graph) : Prop := forall t,
  (forall s, g_signature g t = Some s -> is_string s /\ zlen (bytes_of_string s) < 2 ^ 32) /\
  (forall l, g_interfaces g t = Some l -> Forall (in_u 64) l /\ zlen l < 2 ^ 31) /\
  (forall p, g_superclass g t = Some (Some p) -> in_u 64 p /\ p <> 0).

Section Truthful.
Context `{BC : BytesCrate} `{D : Debuggee}.

Definition reply_ok (id : Z) (data : bytes) : JdwpResult ReplyPacket :=
  Ok {| rp_id := id; rp_error_code := 0; rp_data := data |}.
Definition reply_err (id code : Z) : JdwpResult ReplyPacket :=
  Ok {| rp_id := id; rp_error_code := code; rp_data := [] |}.

Definition answer {A} (id : Z) (o : option A) (enc : A -> bytes) : JdwpResult ReplyPacket :=
  match o with Some a => reply_ok id (enc a) | None => reply_err id 20 end.

(** The debuggee takes every packet and answers the three type questions from the graph. *)
Record truthful (g : Graph) : Prop := {
  tr_taken log p : issue_outcome log p = None;
  tr_signature log id t : in_u 64 t ->
    reply_outcome log (with_data (new_command id 2 1) (put_be 8 t)) =
    answer id (g_signature g t) write_jdwp_string;
  tr_interfaces log id t : in_u 64 t ->
    reply_outcome log (with_data (new_command id 2 10) (put_be 8 t)) =
    answer id (g_interfaces g t) (fun l => put_be 4 (zlen l) ++ put_ids l);
  tr_superclass log id t : in_u 64 t ->
    reply_outcome log (with_data (new_command id 3 1) (put_be 8 t)) =
    answer id (g_superclass g t) (fun p => put_be 8 (default 0 p));
}.

(** The cache holds nothing the graph does not say. *)
Record coherent (g : Graph) (c : TypeCache) : Prop := {
  co_signature t s : tc_signatures c !! t = Some s -> g_signature g t = Some s;
  co_interfaces t l : tc_interfaces c !! t = Some l -> g_interfaces g t = Some l;
  co_superclass t p : tc_superclasses c !! t = Some p -> g_superclass g t = Some p;
}.

Context (g : Graph) (Hg : graph_ok g) (Ht : truthful g).

(** An exchange returns what the debuggee answers to its packet. *)
Lemma exchange_truthful set command body w :
  exists w1, exchange (request set command body) w =
    (reply_outcome (w_log w ++ [Issued (with_data (new_command (w_next_id w) set command) body)])
       (with_data (new_command (w_next_id w) set command) body), w1) /\ w_types w1 = w_types w.
Proof.
  unfold exchange, send_command, request, mbind, m_bind, st_bind, lift, next_id, modify, issue_packet,
    await_reply, mret, st_ret. simpl. rewrite (tr_taken _ Ht). simpl. eexists. split; [done|done].
Qed.

(** Reading a nullable id in one step. *)
Lemma parent_read t w :
  (reply ← exchange (request command_sets.CLASS_TYPE CLASS_TYPE_SUPERCLASS (put_be 8 t));
   sc ← of_result (decode_with read_u64 reply); mret (if sc =? 0 then None else Some sc) : M (option Z)) w =
  (reply ← exchange (request command_sets.CLASS_TYPE CLASS_TYPE_SUPERCLASS (put_be 8 t));
   of_result (decode_with (sc ← read_u64; mret (if sc =? 0 then None else Some sc)) reply)) w.
Proof.
  unfold mbind at 1 3, m_bind at 1 3. destruct (exchange _ w) as [[reply|e] w1]; [|done].
  unfold mbind at 1, m_bind, of_result, decode_with, mbind, result_bind, run_reader, reader_bind, mret, m_ret, reader_ret.
  destruct (check_error reply); [|done]. by destruct (read_u64 (rp_data reply)) as [[sc|e] rest].
Qed.

(** Asking the graph through the debuggee, when the reader inverts the encoding. *)
Lemma ask_truthful {A B} set command body (o : option A) (enc : A -> bytes) (r : Reader B) (f : A -> B) w :
  (forall log id, reply_outcome log (with_data (new_command id set command) body) = answer id o enc) ->
  (forall a, o = Some a -> run_reader r (enc a) = Ok (f a)) ->
  exists res w1, (reply ← exchange (request set command body); of_result (decode_with r reply)) w = (res, w1) /\
    w_types w1 = w_types w /\ ok_of res = f <$> o.
Proof.
  intros Ha Hr. destruct (exchange_truthful set command body w) as (w1 & He & Hw1).
  unfold mbind, m_bind at 1. rewrite He, Ha. unfold answer. destruct o as [a|]; simpl.
  - unfold of_result, decode_with, check_error, is_error. simpl.
    rewrite (Hr a) by done. by eexists _, _.
  - unfold of_result, decode_with, check_error, is_error. simpl. by eexists _, _.
Qed.

Lemma reads_all {A} (r : Reader A) enc a : Reads r enc a -> run_reader r enc = Ok a.
Proof. intros H. rewrite <- (app_nil_r enc). by apply run_reader_reads. Qed.

Lemma signature_truthful t w :
  in_u 64 t -> coherent g (w_types w) ->
  exists r w', get_signature t w = (r, w') /\ coherent g (w_types w') /\ ok_of r = g_signature g t.
Proof.
  intros Hu Hc. rewrite get_signature_cached. unfold through_cache, cached_signature.
  destruct (tc_signatures (w_types w) !! t) as [s|] eqn:E.
  { eexists _, _. split; [done|]. split; [done|]. simpl. symmetry. by apply (co_signature _ _ Hc). }
  destruct (ask_truthful command_sets.REFERENCE_TYPE reference_type_commands.SIGNATURE (put_be 8 t)
    (g_signature g t) write_jdwp_string read_string id w) as (res & w1 & Ha & Hw1 & Hres).
  { intros. by apply (tr_signature _ Ht). }
  { intros s Hs. apply reads_all, read_string_reads; by apply (Hg t). }
  unfold signature_request, decode_signature_reply. rewrite Ha, option_fmap_id in *.
  destruct res as [s|e]; eexists _, _; (split; [done|]); (split; [|done]).
  - destruct Hc as [H1 H2 H3]. simpl. rewrite Hw1. split; simpl; [|done..].
    intros t' s' H. destruct (decide (t = t')) as [->|Hne].
    + rewrite lookup_insert_eq in H. injection H as <-. done.
    + rewrite lookup_insert_ne in H by done. by apply H1.
  - by rewrite Hw1.
Qed.

Lemma interfaces_truthful t w :
  in_u 64 t -> coherent g (w_types w) ->
  exists r w', get_interfaces t w = (r, w') /\ coherent g (w_types w') /\ ok_of r = g_interfaces g t.
Proof.
  intros Hu Hc. rewrite get_interfaces_cached. unfold through_cache, cached_interfaces.
  destruct (tc_interfaces (w_types w) !! t) as [l|] eqn:E.
  { eexists _, _. split; [done|]. split; [done|]. simpl. symmetry. by apply (co_interfaces _ _ Hc). }
  destruct (ask_truthful command_sets.REFERENCE_TYPE reference_type_commands.INTERFACES (put_be 8 t)
    (g_interfaces g t) (fun l => put_be 4 (zlen l) ++ put_ids l) read_ids id w) as (res & w1 & Ha & Hw1 & Hres).
  { intros. by apply (tr_interfaces _ Ht). }
  { intros l Hl. destruct (Hg t) as (_ & Hi & _). destruct (Hi l Hl) as [Hf Hn]. apply reads_all.
    unfold read_ids. eapply Reads_bind; [apply read_i32_reads; unfold in_s, zlen in *; simpl; lia|].
    apply Reads_count. eapply Forall_impl; [|exact Hf]. intros a. apply read_u64_reads. }
  rewrite Ha, option_fmap_id in *.
  destruct res as [l|e]; eexists _, _; (split; [done|]); (split; [|done]).
  - destruct Hc as [H1 H2 H3]. simpl. rewrite Hw1. split; simpl; [done| |done].
    intros t' l' H. destruct (decide (t = t')) as [->|Hne].
    + rewrite lookup_insert_eq in H. injection H as <-. done.
    + rewrite lookup_insert_ne in H by done. by apply H2.
  - by rewrite Hw1.
Qed.

Lemma superclass_truthful t w :
  in_u 64 t -> coherent g (w_types w) ->
  exists r w', get_superclass t w = (r, w') /\ coherent g (w_types w') /\ ok_of r = g_superclass g t.
Proof.
  intros Hu Hc. rewrite get_superclass_cached. unfold through_cache.
  destruct (tc_superclasses (w_types w) !! t) as [p|] eqn:E.
  { eexists _, _. split; [done|]. split; [done|]. simpl. symmetry. by apply (co_superclass _ _ Hc). }
  destruct (ask_truthful command_sets.CLASS_TYPE CLASS_TYPE_SUPERCLASS (put_be 8 t) (g_superclass g t)
    (fun p => put_be 8 (default 0 p)) (sc ← read_u64; mret (if sc =? 0 then None else Some sc)) id w)
    as (res & w1 & Ha & Hw1 & Hres).
  { intros. by apply (tr_superclass _ Ht). }
  { intros p Hp. destruct (Hg t) as (_ & _ & Hs). apply reads_all.
    assert (Hp64 : in_u 64 (default 0 p)) by (destruct p as [p|]; [by apply Hs|done]).
    eapply Reads_bind_ret; [by apply read_u64_reads|]. destruct p as [p|]; simpl; [|done].
    by rewrite (proj2 (Z.eqb_neq _ _)) by (by apply Hs). }
  rewrite parent_read, Ha, option_fmap_id in *.
  destruct res as [p|e]; eexists _, _; (split; [done|]); (split; [|done]).
  - destruct Hc as [H1 H2 H3]. simpl. rewrite Hw1. split; simpl; [done..|].
    intros t' l' H. destruct (decide (t = t')) as [->|Hne].
    + rewrite lookup_insert_eq in H. injection H as <-. done.
    + rewrite lookup_insert_ne in H by done. by apply H3.
  - by rewrite Hw1.
Qed.

(** ** The supertype walk *)

(** The types directly above one, in the order the walk would pop them. *)
Definition above (t : ReferenceTypeId) : list ReferenceTypeId :=
  option_list (default None (g_superclass g t)) ++ rev (default [] (g_interfaces g t)).

(** The walk on the graph itself. *)
Fixpoint walk (fuel : nat) (wanted : string) (seen : gset ReferenceTypeId) (stack : list ReferenceTypeId) : bool :=
  match fuel, stack with
  | _, [] => false
  | O, _ => false
  | S fuel, current :: stack =>
    if bool_decide (current ∈ seen) then walk fuel wanted seen stack
    else if bool_decide (g_signature g current = Some wanted) then true
    else walk fuel wanted ({[current]} ∪ seen) (above current ++ stack)
  end.

Lemma above_ok t : Forall (in_u 64) (above t).
Proof.
  destruct (Hg t) as (_ & Hi & Hs). unfold above. apply Forall_app. split.
  - destruct (g_superclass g t) as [[p|]|]; simpl; [|constructor..].
    constructor; [|constructor]. by apply Hs.
  - destruct (g_interfaces g t) as [l|]; simpl; [|constructor]. apply Forall_rev, (Hi l eq_refl).
Qed.

Lemma walk_truthful fuel wanted seen stack w :
  Forall (in_u 64) stack -> coherent g (w_types w) ->
  exists w', walk_supertypes fuel wanted seen stack w = (walk fuel wanted seen stack, w') /\
    coherent g (w_types w').
Proof.
  revert seen stack w. induction fuel as [|fuel IH]; intros seen [|current stack] w Hu Hc;
    cbn [walk_supertypes walk]; try (by eexists).
  apply list.Forall_cons in Hu as [Hu Hus].
  case_match; [by apply IH|].
  unfold mbind, st_bind, attempt.
  destruct (signature_truthful current w Hu Hc) as (r & w1 & -> & Hc1 & Hr).
  destruct (match r with Ok s => String.eqb s wanted | Err _ => false end) eqn:Hm.
  { destruct r as [s|]; [|done]. apply String.eqb_eq in Hm as ->. simpl in Hr.
    rewrite bool_decide_true by done. by eexists. }
  rewrite bool_decide_false.
  2: { rewrite <- Hr. destruct r as [s|]; simpl; [|done]. intros [= ->]. by rewrite String.eqb_refl in Hm. }
  destruct (interfaces_truthful current w1 Hu Hc1) as (ri & w2 & -> & Hc2 & Hri).
  destruct (superclass_truthful current w2 Hu Hc2) as (rp & w3 & -> & Hc3 & Hrp).
  destruct (IH ({[current]} ∪ seen) (above current ++ stack) w3) as (w' & Hw' & Hc'); [|done|].
  { apply Forall_app. split; [apply above_ok|done]. }
  exists w'. split; [|done]. rewrite <- Hw'. f_equal. unfold above. rewrite <- Hri, <- Hrp.
  destruct ri, rp as [[]|]; done.
Qed.

Definition reaches : relation ReferenceTypeId := rtc (fun x y => y ∈ above x).

Lemma walk_sound fuel wanted seen stack :
  walk fuel wanted seen stack = true ->
  exists x t, x ∈ stack /\ reaches x t /\ g_signature g t = Some wanted.
Proof.
  revert seen stack. induction fuel as [|fuel IH]; intros seen [|x stack]; cbn [walk]; try done.
  destruct (bool_decide (x ∈ seen)).
  { intros (y & t & Hy & Hr)%IH. exists y, t. split; [by right|done]. }
  destruct (bool_decide_reflect (g_signature g x = Some wanted)) as [Hsig|Hsig].
  { exists x, x. split; [by left|]. by split; [apply rtc_refl|]. }
  intros (y & t & Hy & Hr & Hs)%IH. apply elem_of_app in Hy as [Hy|Hy].
  - exists x, t. split; [by left|]. split; [|done]. by eapply rtc_l.
  - exists y, t. split; [by right|done].
Qed.

(** The pops left: one per stack entry, and the entries each unseen type of [closure] will add. *)
Definition pops (closure : list ReferenceTypeId) (seen : gset ReferenceTypeId) (stack : list ReferenceTypeId) : nat :=
  length stack + sum_list (map (fun t => length (above t)) (base.filter (fun t => t ∉ seen) closure)).

Lemma filter_see (l : list ReferenceTypeId) (seen : gset ReferenceTypeId) t :
  t ∉ l -> base.filter (fun t' => t' ∉ {[t]} ∪ seen) l = base.filter (fun t' => t' ∉ seen) l.
Proof.
  induction l as [|x l IH]; [done|]. rewrite not_elem_of_cons, !filter_cons. intros [Hx Hl].
  rewrite IH by done. destruct (decide (x ∉ seen)).
  - by rewrite decide_True by set_solver.
  - by rewrite decide_False by set_solver.
Qed.

Lemma pops_see closure seen t stack :
  NoDup closure -> t ∈ closure -> t ∉ seen ->
  S (pops closure ({[t]} ∪ seen) (above t ++ stack)) = pops closure seen (t :: stack).
Proof.
  intros Hn Hin Hs. unfold pops. rewrite length_app. simpl.
  assert (H : sum_list (map (fun t => length (above t)) (base.filter (fun t => t ∉ seen) closure)) =
    (length (above t) +
     sum_list (map (fun t => length (above t)) (base.filter (fun t' => t' ∉ {[t]} ∪ seen) closure)))%nat); [|lia].
  induction Hn as [|x l Hx Hn IH]; [by apply elem_of_nil in Hin|].
  rewrite !filter_cons. apply elem_of_cons in Hin as [->|Hin].
  - rewrite decide_True, decide_False by set_solver. simpl. by rewrite filter_see.
  - assert (x <> t) by (intros ->; done). specialize (IH Hin).
    destruct (decide (x ∉ seen)); [rewrite decide_True by set_solver|rewrite decide_False by set_solver; done].
    simpl. lia.
Qed.

Lemma pops_skip closure seen t stack : S (pops closure seen stack) = pops closure seen (t :: stack).
Proof. done. Qed.

(** With fuel for every pop, a walk that found nothing has seen everything above its start. *)
Lemma walk_complete closure fuel wanted seen stack :
  NoDup closure -> (forall x y, x ∈ closure -> y ∈ above x -> y ∈ closure) ->
  (forall x, x ∈ stack -> x ∈ closure) -> (forall x, x ∈ seen -> x ∈ closure) ->
  (forall x y, x ∈ seen -> y ∈ above x -> y ∈ seen \/ y ∈ stack) ->
  (forall x, x ∈ seen -> g_signature g x <> Some wanted) ->
  (pops closure seen stack <= fuel)%nat -> walk fuel wanted seen stack = false ->
  forall x t, x ∈ seen \/ x ∈ stack -> reaches x t -> g_signature g t <> Some wanted.
Proof.
  intros Hn Hclosed. revert seen stack. induction fuel as [|fuel IH]; intros seen stack Hst Hse Hab Hno Hf Hw.
  - destruct stack as [|x stack]; [|unfold pops in Hf; simpl in Hf; lia].
    intros x t [Hx|Hx] Hr; [|by apply elem_of_nil in Hx].
    apply Hno. induction Hr as [|x y z Hxy _ IHr]; [done|]. apply IHr.
    by destruct (Hab x y Hx Hxy) as [|?%elem_of_nil].
  - destruct stack as [|cur stack].
    { intros x t [Hx|Hx] Hr; [|by apply elem_of_nil in Hx].
      apply Hno. induction Hr as [|x y z Hxy _ IHr]; [done|]. apply IHr.
      by destruct (Hab x y Hx Hxy) as [|?%elem_of_nil]. }
    cbn [walk] in Hw. assert (Hcur : cur ∈ closure) by (apply Hst; by left).
    destruct (bool_decide_reflect (cur ∈ seen)) as [Hin|Hin].
    + intros x t Hx. apply (IH seen stack); try done.
      * intros y Hy. apply Hst. by right.
      * intros y z Hy Hz. destruct (Hab y z Hy Hz) as [|[->|]%elem_of_cons]; auto.
      * rewrite <- pops_skip in Hf. lia.
      * destruct Hx as [|[->|]%elem_of_cons]; auto.
    + destruct (bool_decide_reflect (g_signature g cur = Some wanted)) as [|Hsig]; [done|].
      intros x t Hx. apply (IH ({[cur]} ∪ seen) (above cur ++ stack)); try done.
      * intros y [Hy|Hy]%elem_of_app; [by eapply Hclosed|apply Hst; by right].
      * intros y [->%elem_of_singleton|Hy]%elem_of_union; [done|auto].
      * intros y z [->%elem_of_singleton|Hy]%elem_of_union Hz; [right; apply elem_of_app; auto|].
        destruct (Hab y z Hy Hz) as [|[->|]%elem_of_cons]; [left; set_solver|left; set_solver|].
        right. apply elem_of_app. auto.
      * intros y [->%elem_of_singleton|Hy]%elem_of_union; [done|auto].
      * rewrite <- (pops_see closure seen cur stack) in Hf by done. lia.
      * destruct Hx as [Hx|[->|Hx]%elem_of_cons]; [left; set_solver|left; set_solver|].
        right. apply elem_of_app. auto.
Qed.

Lemma filter_sum (P : ReferenceTypeId -> Prop) `{!forall x, Decision (P x)} (f : ReferenceTypeId -> nat) l :
  (sum_list (map f (base.filter P l)) <= sum_list (map f l))%nat.
Proof. induction l as [|x l IH]; [done|]. rewrite filter_cons. case_decide; simpl; lia. Qed.

(** The supertype walk decides subtyping: on a truthful debuggee, [implements_interface]
    answers [true] only for a type above which (itself included) some type has the wanted signature;
    it answers [false] only when there is none, provided the types above number few enough that their
    edges fit in its 500 steps; it always returns, and leaves the cache truthful. *)
Theorem implements_interface_decides (t : ReferenceTypeId) (wanted : string) (w : World) :
  in_u 64 t -> coherent g (w_types w) ->
  exists b w', implements_interface t wanted w = (b, w') /\ coherent g (w_types w') /\
    (b = true -> exists t', reaches t t' /\ g_signature g t' = Some wanted) /\
    (forall closure, NoDup closure -> t ∈ closure ->
       (forall x y, x ∈ closure -> y ∈ above x -> y ∈ closure) ->
       (1 + sum_list (map (fun x => length (above x)) closure) <= 500)%nat ->
       (exists t', reaches t t' /\ g_signature g t' = Some wanted) -> b = true).
Proof.
  intros Hu Hc. destruct (walk_truthful 500 wanted ∅ [t] w) as (w' & Hw & Hc'); [by constructor|done|].
  exists (walk 500 wanted ∅ [t]), w'. split_and!; [done|done| |].
  - intros (x & t' & Hx & Hr)%walk_sound. apply list_elem_of_singleton in Hx as ->. eauto.
  - intros closure Hn Hin Hclosed Hfuel (t' & Hr & Hs). apply not_false_iff_true. intros Hf.
    refine (walk_complete closure 500 wanted ∅ [t] Hn Hclosed _ _ _ _ _ Hf t t' _ Hr Hs).
    + by intros x ->%list_elem_of_singleton.
    + intros x Hx. by apply elem_of_empty in Hx.
    + intros x y Hx. by apply elem_of_empty in Hx.
    + intros x Hx. by apply elem_of_empty in Hx.
    + unfold pops. cbn [length]. etransitivity; [|exact Hfuel]. apply le_n_S, filter_sum.
    + right. by left.
Qed.
End Truthful.

(** ** A small debuggee

    Class 1 extends 2, the root, and implements 3. *)

Definition sample_graph : Graph := {|
  g_signature t :=
    if t =? 1 then Some "LFoo;" else if t =? 2 then Some "Ljava/lang/Object;"
    else if t =? 3 then Some "Ljava/util/Collection;" else None;
  g_interfaces t := if t =? 1 then Some [3] else if (t =? 2) || (t =? 3) then Some [] else None;
  g_superclass t := if t =? 1 then Some (Some 2) else if t =? 2 then Some None else None
|}.

(** The debuggee a graph describes. *)
Definition graph_debuggee (g : Graph) : Debuggee := {|
  issue_outcome _ _ := None;
  reply_outcome _ p :=
    let t := be_val (take 8 (cp_data p)) in
    if (cp_command_set p =? 2) && (cp_command p =? 1) then
      answer (cp_id p) (g_signature g t) (write_jdwp_string (BC := network_order))
    else if (cp_command_set p =? 2) && (cp_command p =? 10) then
      answer (cp_id p) (g_interfaces g t)
        (fun l => be_bytes 4 (zlen l) ++ put_ids (BC := network_order) l)
    else if (cp_command_set p =? 3) && (cp_command p =? 1) then
      answer (cp_id p) (g_superclass g t) (fun p => be_bytes 8 (default 0 p))
    else reply_err (cp_id p) 99;
  lapses_unissued _ _ := false;
  lapses_unanswered _ _ := false
|}.

Lemma be_val_u64 t : in_u 64 t -> be_val (take 8 (be_bytes 8 t)) = t.
Proof.
  intros H. rewrite firstn_all2 by (by rewrite be_bytes_length). rewrite be_val_be_bytes.
  by apply Z.mod_small.
Qed.

Lemma graph_debuggee_truthful g : truthful (BC := network_order) (D := graph_debuggee g) g.
Proof.
  split; [done|..]; intros log id t Ht; cbn [reply_outcome graph_debuggee with_data new_command cp_data
    cp_command_set cp_command cp_id app]; change (put_be 8 t) with (be_bytes 8 t);
    rewrite be_val_u64 by done; reflexivity.
Qed.

Lemma sample_graph_ok : graph_ok sample_graph.
Proof.
  intros t. unfold sample_graph; simpl. split_and!.
  - intros s. repeat case_match; intros [= <-]; split; by_compute.
  - intros l. repeat case_match; intros [= <-]; split; by_compute.
  - intros p. repeat case_match; intros [=]; subst; split; by_compute.
Qed.

Lemma implements_interface_decides_witness :
  let g := sample_graph in
  exists b w', implements_interface (BC := network_order) (D := graph_debuggee g) 1 "Ljava/util/Collection;"
      world_init = (b, w') /\ coherent g (w_types w') /\
    (b = true -> exists t', reaches g 1 t' /\ g_signature g t' = Some "Ljava/util/Collection;") /\
    (forall closure, NoDup closure -> 1 ∈ closure ->
       (forall x y, x ∈ closure -> y ∈ above g x -> y ∈ closure) ->
       (1 + sum_list (map (fun x => length (above g x)) closure) <= 500)%nat ->
       (exists t', reaches g 1 t' /\ g_signature g t' = Some "Ljava/util/Collection;") -> b = true).
Proof.
  apply (implements_interface_decides (BC := network_order) (D := graph_debuggee sample_graph) sample_graph
    sample_graph_ok (graph_debuggee_truthful sample_graph)); [by_compute|].
  split; simpl; intros ? ? H; by rewrite lookup_empty in H.
Defined.
