(* ===== verification/Resume.v ===== *)
(** * Resuming fully ([resume_all_fully] of [jdwp-client/src/thread.rs])

    JDWP suspensions nest: a virtual machine suspended [n] times runs after [n] resumes. The model
    debuggee keeps the count the way JDWP does, and the call is shown to undo it exactly. *)

From S2P Require Import Prelude Protocol Types Reader Events Connection Client.

(** The resumes of the whole virtual machine that were taken. *)
Definition is_resume (e : WireEvent) : bool :=
  match e with
  | Issued p => (cp_command_set p =? command_sets.VIRTUAL_MACHINE) && (cp_command p =? vm_commands.RESUME)
  | _ => false
  end.
Definition resumes (log : list WireEvent) : Z := zlen (base.filter (fun e => is_resume e = true) log).

Section Resume.
Context `{BC : BytesCrate} `{D : Debuggee}.

(** Every packet is taken; a resume succeeds and lowers the probe thread's suspend count, which
    starts at [c0] and stops at zero. *)
Record counting (probe : ThreadId) (c0 : Z) : Prop := {
  cd_taken log p : issue_outcome log p = None;
  cd_resume log id :
    reply_outcome log (with_data (new_command id 1 9) []) =
    Ok {| rp_id := id; rp_error_code := 0; rp_data := [] |};
  cd_count log id :
    reply_outcome log (with_data (new_command id 11 12) (put_be 8 probe)) =
    Ok {| rp_id := id; rp_error_code := 0; rp_data := put_be 4 (Z.max 0 (c0 - resumes log)) |};
}.

Context (probe : ThreadId) (c0 : Z) (Hc0 : in_s 32 c0) (HD : counting probe c0).

Lemma resumes_app l k : resumes (l ++ k) = resumes l + resumes k.
Proof. unfold resumes, zlen. rewrite list.filter_app, length_app. lia. Qed.

Lemma resume_all_counts w :
  exists w', resume_all w = (Ok tt, w') /\ resumes (w_log w') = resumes (w_log w) + 1.
Proof.
  unfold resume_all, exchange, vm_request, request, send_command, mbind, m_bind, st_bind, lift, next_id, modify,
    issue_packet, await_reply, mret, st_ret, of_result, acknowledge. simpl.
  rewrite (cd_taken _ _ HD). simpl. rewrite (cd_resume _ _ HD). simpl. eexists. split; [done|].
  simpl. rewrite <- (assoc_L (++)), resumes_app. done.
Qed.

Lemma suspend_count_counts w :
  exists w', suspend_count probe w = (Ok (Z.max 0 (c0 - resumes (w_log w))), w') /\
    resumes (w_log w') = resumes (w_log w).
Proof.
  assert (Hz : forall l, 0 <= resumes l) by (intros l; unfold resumes, zlen; lia).
  unfold suspend_count, exchange, thread_read_request, request, send_command, mbind, m_bind, st_bind, lift,
    next_id, modify, issue_packet, await_reply, mret, st_ret, of_result. simpl.
  rewrite (cd_taken _ _ HD). simpl. rewrite (cd_count _ _ HD), resumes_app.
  assert (H0 : forall id b, resumes [Issued (with_data (new_command id command_sets.THREAD_REFERENCE
    thread_commands.SUSPEND_COUNT) b)] = 0) by reflexivity.
  rewrite H0, Z.add_0_r. unfold decode_with, check_error, is_error. simpl. specialize (Hz (w_log w)).
  rewrite <- (app_nil_r (put_be 4 _)), (run_reader_reads read_i32 _ [] (Z.max 0 (c0 - resumes (w_log w)))).
  - eexists. split; [done|]. simpl. rewrite <- (assoc_L (++)), resumes_app. unfold resumes at 2, zlen. simpl. lia.
  - apply read_i32_reads. unfold in_s in *. lia.
Qed.

Lemma resume_until_counts n issued w :
  exists w', resume_until n issued probe w =
    (let c := Z.max 0 (c0 - resumes (w_log w)) in
     (Ok (issued + Z.min (Z.of_nat n) (Z.max 1 c), Z.max 0 (c - Z.of_nat n)), w')) /\
    resumes (w_log w') = resumes (w_log w) + Z.min (Z.of_nat n) (Z.max 1 (Z.max 0 (c0 - resumes (w_log w)))).
Proof.
  revert issued w. induction n as [|n IH]; intros issued w; cbn [resume_until].
  - destruct (suspend_count_counts w) as (w' & Hs & Hr).
    unfold mbind, m_bind, lift, attempt, mret, m_ret. rewrite Hs. exists w'. rewrite Hr. simpl.
    split; [do 3 f_equal; lia|lia].
  - destruct (resume_all_counts w) as (w1 & H1 & R1). destruct (suspend_count_counts w1) as (w2 & H2 & R2).
    unfold mbind at 1, m_bind at 1. rewrite H1. unfold mbind at 1, m_bind at 1, lift, attempt. rewrite H2. simpl.
    case_match eqn:Hle; reflect_bools.
    + exists w2. rewrite R2, R1. unfold mret, m_ret. split; [do 3 f_equal; lia|lia].
    + destruct (IH (issued + 1) w2) as (w3 & -> & R3). exists w3. rewrite R3, R2, R1. simpl.
      split; [do 3 f_equal; lia|lia].
Qed.

(** [resume_all_fully] undoes nested suspensions exactly: with a probe thread suspended [c] times
    it issues [c] resumes (one if the thread already runs) and never more than its bound, and reports
    how many it issued and how many suspensions are left, zero unless the bound was too small. *)
Theorem resume_all_fully_counts (max_resumes : Z) (w : World) :
  0 <= max_resumes ->
  let c := Z.max 0 (c0 - resumes (w_log w)) in
  exists w', resume_all_fully probe max_resumes w =
      (Ok (Z.min max_resumes (Z.max 1 c), Z.max 0 (c - max_resumes)), w') /\
    resumes (w_log w') = resumes (w_log w) + Z.min max_resumes (Z.max 1 c).
Proof.
  intros Hm c. destruct (resume_until_counts (Z.to_nat max_resumes) 0 w) as (w' & Hw & Hr).
  exists w'. unfold resume_all_fully. rewrite Hw, Hr. rewrite Z2Nat.id by done. done.
Qed.
End Resume.

(** A virtual machine suspended [c0] times. *)
Definition suspended_vm (c0 : Z) : Debuggee := {|
  issue_outcome _ _ := None;
  reply_outcome log p := Ok {|
    rp_id := cp_id p; rp_error_code := 0;
    rp_data := if cp_command_set p =? 11 then be_bytes 4 (Z.max 0 (c0 - resumes log)) else [] |};
  lapses_unissued _ _ := false;
  lapses_unanswered _ _ := false
|}.

Lemma resume_all_fully_counts_witness :
  let c := Z.max 0 (3 - resumes (w_log world_init)) in
  exists w', resume_all_fully (BC := network_order) (D := suspended_vm 3) 77 16 world_init =
      (Ok (Z.min 16 (Z.max 1 c), Z.max 0 (c - 16)), w') /\
    resumes (w_log w') = resumes (w_log world_init) + Z.min 16 (Z.max 1 c).
Proof.
  apply (resume_all_fully_counts (BC := network_order) (D := suspended_vm 3) 77 3); [by_compute| |lia].
  by split.
Defined.
