(* ===== verification/StopPoint.v ===== *)
(** * Stop points ([mcp-server/src/stop_point.rs])

    What a stop point holds, what it says of itself in the listing, the rescue report and the clear
    note, and the cost of its traces. The two rates computed in floating point
    ([observed_rate], [capture_share]) are not modelled. *)

From S2P Require Import Prelude Protocol Types Reader Events Connection Client EventRequest.

(** A [Duration] and an [Instant] are counts of nanoseconds; a [Duration] is at most [DURATION_MAX]. *)
Definition DURATION_MAX : Z := 2 ^ 64 * 1000000000 - 1.
Definition saturating_duration_since (now since : Z) : Z := sat_sub now since.
Definition as_secs (d : Z) : Z := d / 1000000000.

(** ** Kinds *)

Inductive StopPointKind : Type := KLine | KException | KWatchpoint | KMethodExit | KMonitor.
#[global] Instance StopPointKind_eq_dec : EqDecision StopPointKind.
Proof. solve_decision. Defined.

Definition LISTING_ORDER : list StopPointKind := [KLine; KException; KWatchpoint; KMethodExit; KMonitor].

Definition listing_rank (k : StopPointKind) : nat :=
  match k with KLine => 0 | KException => 1 | KWatchpoint => 2 | KMethodExit => 3 | KMonitor => 4 end%nat.

Definition kind_label (k : StopPointKind) : string :=
  match k with
  | KLine => "line breakpoint"
  | KException => "exception stop point"
  | KWatchpoint => "field watchpoint"
  | KMethodExit => "method-exit stop point"
  | KMonitor => "monitor stop point"
  end.

Definition armed_glyph (k : StopPointKind) : string :=
  match k with KLine => "✓" | KException => "⚡" | KWatchpoint => "👁" | KMethodExit => "↩" | KMonitor => "🔒" end.

Definition takes_condition (k : StopPointKind) : bool := match k with KMonitor => false | _ => true end.

(** ** What a stop point is armed on *)

(** Whether the source on disk was compared with the bytecode in the virtual machine. *)
Inductive DriftCheck : Type := Stale (caveat : string) | Current | NotChecked (why : string).

Definition arming_note (d : DriftCheck) : string :=
  match d with
  | Stale caveat => caveat
  | Current => ""
  | NotChecked why =>
    newline +s+ "   ℹ️  Staleness NOT CHECKED, which is not the same as checked and fine: " +s+ why
  end.

Record LaterCopies : Type := {
  lc_copies : Z;
  lc_lines : list Z;
  lc_misses : Z;
  lc_miss : option string;
}.

Record ReArmWatch : Type := {
  rw_request_id : Z;
  rw_signature : string;
  rw_later : LaterCopies;
  rw_line : option Z;
  rw_method : option string;
}.

Inductive RearmState : Type := RWatching (w : ReArmWatch) | CoveredByFamily | Unwatched.
Definition watch (r : RearmState) : option ReArmWatch := match r with RWatching w => Some w | _ => None end.

Record ArmedLocation : Type := { al_class_id : Z; al_method_id : Z; al_bytecode_index : Z }.

Record BreakpointArm : Type := {
  ba_class_id : Z;
  ba_method_id : Z;
  ba_bytecode_index : Z;
  ba_extra_locations : list ArmedLocation;
  ba_suspend_policy : SuspendPolicy;
}.

Record LineBreakpoint : Type := {
  lb_class_pattern : string;
  lb_line : Z;
  lb_method : option string;
  lb_arm_line : option Z;
  lb_arm_method : option string;
  lb_drift : DriftCheck;
  lb_loaders : list string;
  lb_arm : BreakpointArm;
  lb_rearm : RearmState;
}.

Record ExceptionBreakpoint : Type := {
  eb_class_pattern : string;
  eb_caught : bool;
  eb_uncaught : bool;
}.

Record Watchpoint : Type := {
  wp_kind : WatchKind;
  wp_class_name : string;
  wp_field_name : string;
  wp_is_static : bool;
}.

Record MethodExitRequest : Type := {
  mx_discarded : Z;
  mx_class_pattern : string;
  mx_exclude_classes : list string;
  mx_method : option string;
  mx_with_return_value : bool;
}.

Record MonitorStop : Type := {
  mo_kind : MonitorKind;
  mo_paired : bool;
  mo_monitor_class : option string;
  mo_min_duration_ms : option Z;
}.

Inductive ArmedOn : Type :=
| OnLine (l : LineBreakpoint)
| OnException (e : ExceptionBreakpoint)
| OnWatchpoint (w : Watchpoint)
| OnMethodExit (m : MethodExitRequest)
| OnMonitor (m : MonitorStop).

Definition wire_noun (a : ArmedOn) : string :=
  match a with
  | OnLine _ => "breakpoint request"
  | OnException _ => "exception request"
  | OnWatchpoint _ => "field watch"
  | OnMethodExit _ => "method-exit request"
  | OnMonitor _ => "monitor request"
  end.

Definition describe (a : ArmedOn) : string :=
  match a with
  | OnLine bp => lb_class_pattern bp +s+ ":" +s+ pretty (lb_line bp)
  | OnException er => "exception " +s+ eb_class_pattern er
  | OnWatchpoint wp => "watch " +s+ wp_class_name wp +s+ "." +s+ wp_field_name wp
  | OnMethodExit me => "method-exit " +s+ mx_class_pattern me
  | OnMonitor mon => "monitor " +s+ monitor_kind_label (mo_kind mon)
  end.

Definition kind_of (a : ArmedOn) : StopPointKind :=
  match a with
  | OnLine _ => KLine
  | OnException _ => KException
  | OnWatchpoint _ => KWatchpoint
  | OnMethodExit _ => KMethodExit
  | OnMonitor _ => KMonitor
  end.

(** ** The cost of traces *)

Record TraceCost : Type := {
  cost_captures : Z;
  cost_total : Z;
  cost_first : option Z;
  cost_last : option Z;
}.

Definition no_cost : TraceCost := {| cost_captures := 0; cost_total := 0; cost_first := None; cost_last := None |}.

Definition record (started took : Z) (c : TraceCost) : TraceCost := {|
  cost_captures := wrap_u 64 (cost_captures c + 1);
  cost_total := Z.min DURATION_MAX (cost_total c + took);
  cost_first := Some (default started (cost_first c));
  cost_last := Some started
|}.

Definition mean_capture (c : TraceCost) : option Z :=
  if 0 <? cost_captures c then Some (cost_total c / u32_of_len (cost_captures c)) else None.

(** ** The stop point *)

Record StopPoint : Type := {
  sp_id : string;
  sp_request_ids : list Z;
  sp_enabled : bool;
  sp_spent : bool;
  sp_hit_count : option Z;
  sp_hits : Z;
  sp_condition : option string;
  sp_trace : bool;
  sp_trace_expr : list string;
  sp_trace_budget : option Z;
  sp_trace_frames : Z;
  sp_trace_max_length : option Z;
  sp_trace_cost : TraceCost;
  sp_thread_filter : option Z;
  sp_instance_filter : option Z;
  sp_armed_on : ArmedOn;
}.

Definition kind (sp : StopPoint) : StopPointKind := kind_of (sp_armed_on sp).
Definition owns_request (sp : StopPoint) (req : Z) : bool := bool_decide (req ∈ sp_request_ids sp).
Definition is_armed (sp : StopPoint) : bool := negb (bool_decide (sp_request_ids sp = [])).

Definition glyph (sp : StopPoint) : string :=
  if sp_spent sp then "⏹" else if sp_enabled sp then armed_glyph (kind sp) else "✗".

Definition describe_for_rescue (sp : StopPoint) : string :=
  match sp_armed_on sp with
  | OnLine bp => "breakpoint " +s+ sp_id sp +s+ " at " +s+ lb_class_pattern bp +s+ ":" +s+ pretty (lb_line bp)
  | OnException er => "exception breakpoint " +s+ sp_id sp +s+ " (" +s+ eb_class_pattern er +s+ ")"
  | OnWatchpoint wp =>
    "watchpoint " +s+ sp_id sp +s+ " (" +s+ wp_class_name wp +s+ "." +s+ wp_field_name wp +s+ ")"
  | OnMethodExit me =>
    "method-exit request " +s+ sp_id sp +s+ " (" +s+ mx_class_pattern me +s+
      match mx_method me with Some m => "." +s+ m | None => ".*" end +s+ ")"
  | OnMonitor mon => "monitor request " +s+ sp_id sp +s+ " (" +s+ monitor_kind_label (mo_kind mon) +s+ ")"
  end.

Definition state_suffix (sp : StopPoint) : string :=
  if negb (sp_spent sp) && sp_enabled sp then ""
  else if sp_spent sp then
    " — SPENT (its hit_count fired, and the JVM deleted the request itself — nothing is armed. debug.toggle_stop_point re-arms it with the same count)"
  else " — DISABLED (definition kept; toggle to re-arm)".

Definition clear_note (sp : StopPoint) : string :=
  if sp_spent sp then
    " — it was already SPENT (its hit_count had fired and the JVM deleted the request), so nothing was sent to the debuggee; only the bookkeeping is gone"
  else "".

Definition line (sp : StopPoint) : option LineBreakpoint := match sp_armed_on sp with OnLine l => Some l | _ => None end.
Definition method_exit (sp : StopPoint) : option MethodExitRequest :=
  match sp_armed_on sp with OnMethodExit m => Some m | _ => None end.
Definition monitor (sp : StopPoint) : option MonitorStop :=
  match sp_armed_on sp with OnMonitor m => Some m | _ => None end.

(** The listing order is a bijection with the ranks, and a glyph names its kind among the live ones. *)
Lemma listing_rank_order k : LISTING_ORDER !! listing_rank k = Some k.
Proof. by destruct k. Qed.
Lemma armed_glyph_inj k k' : armed_glyph k = armed_glyph k' -> k = k'.
Proof. by destruct k, k'. Qed.

(** After any captures the mean is the total over their number, as long as the counters fit. *)
Definition record_all (l : list (Z * Z)) (c : TraceCost) : TraceCost :=
  foldl (fun c x => record (fst x) (snd x) c) c l.
