(* ===== verification/EventRing.v ===== *)
(** * The session's event ring (the [EventRing] of [mcp-server/src/session.rs])

    The last hundred event sets of a session, and the accounting that lets a caller see what was not
    shown, against an unbounded log. *)

From S2P Require Import Prelude Protocol Types Reader Events.

Definition MAX_EVENTS : nat := 100.

Record FailedEscalation : Type := { fe_vm_running : bool; fe_note : string }.

Record EventRecord : Type := {
  ev_seq : Z;
  ev_set : EventSet;
  ev_escalation : option FailedEscalation;
}.

Record EventRing : Type := {
  ring_held : list EventRecord;
  ring_seq : Z;
  ring_dropped : Z;
  ring_watchdog_note : option string;
  ring_watchdog_seq : option Z;
  ring_watchdog_disarmed : list string;
}.

Record EventTail : Type := { shown : list EventRecord; unshown : Z; tail_dropped : Z }.

Definition ring_new : EventRing := {|
  ring_held := [];
  ring_seq := 0;
  ring_dropped := 0;
  ring_watchdog_note := None;
  ring_watchdog_seq := None;
  ring_watchdog_disarmed := []
|}.

(** [EventRing::push]: the new sequence number and the ring. *)
Definition ring_push (set : EventSet) (escalation : option FailedEscalation) (r : EventRing) : Z * EventRing :=
  let seq := wrap_u 64 (ring_seq r + 1) in
  let full := (MAX_EVENTS <=? length (ring_held r))%nat in
  let held := if full then tail (ring_held r) else ring_held r in
  let dropped := if full then wrap_u 64 (ring_dropped r + 1) else ring_dropped r in
  (seq, {|
    ring_held := held ++ [{| ev_seq := seq; ev_set := set; ev_escalation := escalation |}];
    ring_seq := seq;
    ring_dropped := dropped;
    ring_watchdog_note := ring_watchdog_note r;
    ring_watchdog_seq := ring_watchdog_seq r;
    ring_watchdog_disarmed := ring_watchdog_disarmed r
  |}).

Definition ring_tail (limit : nat) (r : EventRing) : EventTail :=
  let total := length (ring_held r) in
  let take := Nat.min (Nat.max limit 1) total in
  let unshown := (total - take)%nat in
  {| shown := drop unshown (ring_held r); unshown := Z.of_nat unshown; tail_dropped := ring_dropped r |}.

Definition ring_clear (r : EventRing) : EventRing := {|
  ring_held := [];
  ring_seq := ring_seq r;
  ring_dropped := ring_dropped r;
  ring_watchdog_note := ring_watchdog_note r;
  ring_watchdog_seq := ring_watchdog_seq r;
  ring_watchdog_disarmed := ring_watchdog_disarmed r
|}.

Definition watchdog_note_for (newest_seq : option Z) (r : EventRing) : option string :=
  note ← ring_watchdog_note r;
  at_ ← ring_watchdog_seq r;
  newest ← newest_seq;
  if newest <=? at_ then Some note else None.

Definition note_watchdog (note : string) (disarmed : list string) (r : EventRing) : EventRing := {|
  ring_held := ring_held r;
  ring_seq := ring_seq r;
  ring_dropped := ring_dropped r;
  ring_watchdog_note := Some note;
  ring_watchdog_seq := Some (ring_seq r);
  ring_watchdog_disarmed := disarmed
|}.

Lemma MAX_EVENTS_pos : (0 < MAX_EVENTS)%nat.
Proof. unfold MAX_EVENTS. lia. Qed.
#[local] Opaque MAX_EVENTS.

(** ** The specification: an unbounded log *)

Inductive RingOp : Type :=
| Push (set : EventSet) (escalation : option FailedEscalation)
| Clear
| Note (note : string) (disarmed : list string).

Definition ring_step (r : EventRing) (op : RingOp) : EventRing :=
  match op with
  | Push set escalation => snd (ring_push set escalation r)
  | Clear => ring_clear r
  | Note note disarmed => note_watchdog note disarmed r
  end.
Definition ring_run (ops : list RingOp) : EventRing := foldl ring_step ring_new ops.

(** Every event since the last clear, how many came before them, how many of those the ring had
    already dropped when it was cleared, and the last note with the events pushed before it. *)
Record Log : Type := {
  log_before : Z;
  log_current : list EventRecord;
  log_lost : Z;
  log_note : option (string * Z);
}.

Definition log_total (l : Log) : Z := log_before l + zlen (log_current l).
Definition overflowed (l : Log) : Z := Z.max 0 (zlen (log_current l) - Z.of_nat MAX_EVENTS).

Definition log_step (l : Log) (op : RingOp) : Log :=
  match op with
  | Push set escalation =>
    {| log_before := log_before l;
       log_current := log_current l ++
         [{| ev_seq := log_total l + 1; ev_set := set; ev_escalation := escalation |}];
       log_lost := log_lost l; log_note := log_note l |}
  | Clear =>
    {| log_before := log_total l; log_current := []; log_lost := log_lost l + overflowed l;
       log_note := log_note l |}
  | Note note _ =>
    {| log_before := log_before l; log_current := log_current l; log_lost := log_lost l;
       log_note := Some (note, log_total l) |}
  end.
Definition log_run (ops : list RingOp) : Log :=
  foldl log_step {| log_before := 0; log_current := []; log_lost := 0; log_note := None |} ops.

(** The ring is the window of the log on its last hundred events. *)
Record window (l : Log) (r : EventRing) : Prop := {
  win_held : ring_held r = last_n MAX_EVENTS (log_current l);
  win_seq : ring_seq r = log_total l;
  win_dropped : ring_dropped r = log_lost l + overflowed l;
  win_note : ring_watchdog_note r = fst <$> log_note l;
  win_note_seq : ring_watchdog_seq r = snd <$> log_note l;
  win_lost : 0 <= log_lost l <= log_before l;
}.

Lemma log_total_grows ops l : log_total l <= log_total (foldl log_step l ops).
Proof.
  revert l. induction ops as [|op ops IH]; intros l; [done|]. simpl. etransitivity; [|apply IH].
  unfold log_total. destruct op; simpl; rewrite ?zlen_app; unfold log_total, zlen; simpl; lia.
Qed.

Lemma window_step l r op :
  log_total (log_step l op) < 2 ^ 64 -> window l r -> window (log_step l op) (ring_step r op).
Proof.
  intros Hlt [H1 H2 H3 H4 H5 H6]. destruct op as [set esc| |note dis]; simpl in *.
  - assert (Hseq : wrap_u 64 (ring_seq r + 1) = log_total l + 1).
    { rewrite H2. apply wrap_u_id. unfold in_u, log_total in *. simpl in Hlt. rewrite zlen_app in Hlt.
      unfold zlen in *. simpl in Hlt. lia. }
    assert (Hl : zlen (log_current l) = Z.of_nat (length (log_current l))) by done.
    unfold log_total in Hlt. simpl in Hlt. rewrite zlen_app in Hlt.
    split; simpl; rewrite ?Hseq; [| | |done..].
    + rewrite H1. apply push_bounded_last_n, MAX_EVENTS_pos.
    + unfold log_total. simpl. rewrite zlen_app. unfold zlen. simpl. lia.
    + rewrite H1, last_n_length, H3. unfold overflowed. simpl log_current. rewrite zlen_app.
      pose proof MAX_EVENTS_pos. unfold zlen in *. simpl length in *.
      destruct (Nat.leb_spec MAX_EVENTS (Nat.min MAX_EVENTS (length (log_current l)))); [rewrite wrap_u_id|];
        unfold in_u; lia.
  - split; simpl; [done| |unfold overflowed, zlen in *; simpl; lia|done..|].
    + rewrite H2. unfold log_total at 2. simpl. unfold zlen. simpl. lia.
    + unfold overflowed, log_total, zlen. lia.
  - split; simpl; try done. by rewrite H2.
Qed.

Lemma ring_window ops : log_total (log_run ops) < 2 ^ 64 -> window (log_run ops) (ring_run ops).
Proof.
  unfold log_run, ring_run.
  assert (H0 : window {| log_before := 0; log_current := []; log_lost := 0; log_note := None |} ring_new)
    by (split; reflexivity || (simpl; lia)).
  revert H0. generalize ring_new as r.
  generalize {| log_before := 0; log_current := []; log_lost := 0; log_note := None |} as l.
  induction ops as [|op ops IH]; intros l r Hw Hlt; [done|]. simpl in *. apply IH; [|done].
  apply window_step; [|done]. pose proof (log_total_grows ops (log_step l op)). lia.
Qed.

Lemma drop_seqZ m len (n : nat) : Z.of_nat n <= len -> drop n (seqZ m len) = seqZ (m + Z.of_nat n) (len - Z.of_nat n).
Proof.
  intros Hn. replace (seqZ m len) with (seqZ m (Z.of_nat n + (len - Z.of_nat n))) by (f_equal; lia).
  rewrite seqZ_app by lia. apply drop_app_exact. rewrite length_seqZ. lia.
Qed.

(** The log numbers its events without a gap. *)
Lemma log_numbered ops :
  map ev_seq (log_current (log_run ops)) =
  seqZ (log_before (log_run ops) + 1) (zlen (log_current (log_run ops))).
Proof.
  unfold log_run. set (l0 := {| log_before := 0; log_current := [] |}).
  assert (H0 : map ev_seq (log_current l0) = seqZ (log_before l0 + 1) (zlen (log_current l0))) by done.
  revert H0. generalize l0. clear l0. induction ops as [|op ops IH]; intros l H; [done|]. simpl. apply IH.
  destruct op; simpl; [|done..]. rewrite map_app, H, zlen_app. simpl.
  rewrite seqZ_app by (unfold zlen; lia). by rewrite <- Z.add_assoc, (Z.add_comm 1), Z.add_assoc.
Qed.

(** C40. The event ring accounts for every event. Pushing, clearing and noting in any order, the ring
    holds the last hundred events since the last clear, numbered consecutively up to its sequence
    number, which counts every event ever pushed and is never reset; a tail shows the newest of them,
    at least one when there is one, as many as asked; and every event since the last clear is shown,
    or counted as held back, or counted as dropped (next to what earlier epochs dropped). The
    watchdog's note is shown exactly when the newest event given is no newer than the note. *)
Theorem ring_accounts (ops : list RingOp) (limit : nat) (newest : option Z) :
  let l := log_run ops in let r := ring_run ops in let t := ring_tail limit r in
  log_total l < 2 ^ 64 ->
  shown t = last_n (Nat.min (Nat.max limit 1) MAX_EVENTS) (log_current l) /\
  unshown t + tail_dropped t + zlen (shown t) = log_lost l + zlen (log_current l) /\
  ring_seq r = log_total l /\
  map ev_seq (ring_held r) = seqZ (ring_seq r - zlen (ring_held r) + 1) (zlen (ring_held r)) /\
  watchdog_note_for newest r =
    (note ← log_note l; q ← newest; if q <=? snd note then Some (fst note) else None).
Proof.
  intros l r t Hlt. destruct (ring_window ops Hlt) as [H1 H2 H3 H4 H5 H6]. fold l r in H1, H2, H3, H4, H5, H6.
  assert (Hshown : shown t = last_n (Nat.min (Nat.max limit 1) MAX_EVENTS) (log_current l)).
  { rewrite <- last_n_last_n, <- H1. unfold t, ring_tail, last_n. simpl. f_equal. lia. }
  split_and!; [done| |done| |].
  - rewrite Hshown. unfold t, ring_tail. cbn [unshown tail_dropped]. rewrite H3, H1. unfold zlen, overflowed, zlen.
    rewrite !last_n_length. lia.
  - rewrite H1, H2. unfold last_n. pose proof (log_numbered ops) as Hn. fold l in Hn.
    rewrite <- skipn_map, Hn, drop_seqZ by (unfold zlen; lia).
    unfold log_total, zlen. rewrite length_drop. f_equal; lia.
  - unfold watchdog_note_for. rewrite H4, H5. by destruct (log_note l) as [[note at_]|].
Qed.

(** A composite packet with no event, for the examples. *)
Definition no_event : EventSet := {| es_suspend_policy := 0; es_events := [] |}.

Lemma ring_accounts_witness :
  let ops := repeat (Push no_event None) 130 ++ [Clear] ++ repeat (Push no_event None) 103 ++ [Note "slow" []] in
  let l := log_run ops in let r := ring_run ops in let t := ring_tail 7 r in
  log_total l < 2 ^ 64 /\
  (shown t = last_n (Nat.min (Nat.max 7 1) MAX_EVENTS) (log_current l) /\
   unshown t + tail_dropped t + zlen (shown t) = log_lost l + zlen (log_current l) /\
   ring_seq r = log_total l /\
   map ev_seq (ring_held r) = seqZ (ring_seq r - zlen (ring_held r) + 1) (zlen (ring_held r)) /\
   watchdog_note_for (Some 233) r =
     (note ← log_note l; q ← Some 233; if q <=? snd note then Some (fst note) else None)).
Proof.
  intros ops l r t. assert (H : log_total l < 2 ^ 64) by by_compute. split; [exact H|].
  exact (ring_accounts ops 7 (Some 233) H).
Defined.
