(* ===== verification/MonitorClock.v ===== *)
(** * Open monitor spans (the [MonitorClock] of [mcp-server/src/session.rs])

    The clock pairs the start of a monitor wait with its end; bounded, it forgets its oldest opening,
    and is compared with an unbounded one. *)

From S2P Require Import Prelude Protocol Types Reader Events Connection Client EventRequest StopPoint.

Definition MAX_MONITOR_PENDING : nat := 256.

Inductive MonitorPair : Type := Contended | WaitPair.
#[global] Instance MonitorPair_eq_dec : EqDecision MonitorPair.
Proof. solve_decision. Defined.

(** [MonitorPair::of]: the pair an event kind belongs to, and whether it opens it. *)
Definition pair_of (k : MonitorKind) : MonitorPair * bool :=
  match k with
  | Blocked => (Contended, true)
  | Acquired => (Contended, false)
  | Wait => (WaitPair, true)
  | Waited => (WaitPair, false)
  end.

Definition duration_label (p : MonitorPair) : string :=
  match p with Contended => "blocked_for" | WaitPair => "waited_for" end.

Record MonitorPairKey : Type := { mk_thread : Z; mk_monitor : Z; mk_pair : MonitorPair }.
#[global] Instance MonitorPairKey_eq_dec : EqDecision MonitorPairKey.
Proof. solve_decision. Defined.
#[global] Instance MonitorPairKey_countable : Countable MonitorPairKey.
Proof.
  refine (inj_countable' (fun k => (mk_thread k, mk_monitor k, bool_decide (mk_pair k = Contended)))
    (fun '(t, m, b) => {| mk_thread := t; mk_monitor := m; mk_pair := if b : bool then Contended else WaitPair |}) _).
  by intros [t m []].
Defined.

Record MonitorClock : Type := { clock_pending : gmap MonitorPairKey Z; clock_dropped : Z }.

Definition clock_new : MonitorClock := {| clock_pending := ∅; clock_dropped := 0 |}.

Section Clock.
Context {HashOrder : IterOrder MonitorPairKey Z}.

Definition clock_open (key : MonitorPairKey) (at_ : Z) (c : MonitorClock) : MonitorClock :=
  let c :=
    if (MAX_MONITOR_PENDING <=? size (clock_pending c))%nat && negb (is_some (clock_pending c !! key)) then
      match oldest (fun t => t) (clock_pending c) with
      | Some k => {| clock_pending := delete k (clock_pending c);
                     clock_dropped := sat_add_u 64 (clock_dropped c) 1 |}
      | None => c
      end
    else c in
  {| clock_pending := <[key := at_]> (clock_pending c); clock_dropped := clock_dropped c |}.

Definition clock_close (key : MonitorPairKey) (now : Z) (c : MonitorClock) : option Z * MonitorClock :=
  match clock_pending c !! key with
  | None => (None, c)
  | Some opened =>
    (Some (saturating_duration_since now opened),
     {| clock_pending := delete key (clock_pending c); clock_dropped := clock_dropped c |})
  end.

Definition forget_pair (p : MonitorPair) (c : MonitorClock) : MonitorClock :=
  {| clock_pending := base.filter (fun e => mk_pair (fst e) <> p) (clock_pending c);
     clock_dropped := clock_dropped c |}.

Definition clock_clear (c : MonitorClock) : MonitorClock := {| clock_pending := ∅; clock_dropped := 0 |}.

(** ** The specification: every opening is kept *)

Inductive ClockOp : Type :=
| Open (key : MonitorPairKey) (at_ : Z)
| Close (key : MonitorPairKey) (now : Z)
| ForgetPair (p : MonitorPair)
| ClearClock.

Definition clock_step (c : MonitorClock) (op : ClockOp) : MonitorClock :=
  match op with
  | Open key at_ => clock_open key at_ c
  | Close key now => snd (clock_close key now c)
  | ForgetPair p => forget_pair p c
  | ClearClock => clock_clear c
  end.
Definition clock_run (ops : list ClockOp) : MonitorClock := foldl clock_step clock_new ops.

Definition open_step (m : gmap MonitorPairKey Z) (op : ClockOp) : gmap MonitorPairKey Z :=
  match op with
  | Open key at_ => <[key := at_]> m
  | Close key _ => delete key m
  | ForgetPair p => base.filter (fun e => mk_pair (fst e) <> p) m
  | ClearClock => ∅
  end.
Definition opened (ops : list ClockOp) : gmap MonitorPairKey Z := foldl open_step ∅ ops.

(** The clock remembers some of the openings, all of them while it dropped none. *)
Record remembers (m : gmap MonitorPairKey Z) (c : MonitorClock) : Prop := {
  re_sub : clock_pending c ⊆ m;
  re_bound : (size (clock_pending c) <= MAX_MONITOR_PENDING)%nat;
  re_dropped : 0 <= clock_dropped c;
  re_all : clock_dropped c = 0 -> clock_pending c = m;
}.

Lemma MAX_MONITOR_PENDING_pos : (0 < MAX_MONITOR_PENDING)%nat.
Proof. unfold MAX_MONITOR_PENDING. lia. Qed.
#[local] Opaque MAX_MONITOR_PENDING.

(** What opening a key does, by whether an entry has to leave. *)
Lemma clock_open_cases key at_ c :
  (size (clock_pending c) <= MAX_MONITOR_PENDING)%nat ->
  (clock_open key at_ c =
     {| clock_pending := <[key := at_]> (clock_pending c); clock_dropped := clock_dropped c |} /\
   ((size (clock_pending c) < MAX_MONITOR_PENDING)%nat \/ is_Some (clock_pending c !! key))) \/
  (exists k t, clock_pending c !! key = None /\ size (clock_pending c) = MAX_MONITOR_PENDING /\
     clock_pending c !! k = Some t /\ (forall k' t', clock_pending c !! k' = Some t' -> t <= t') /\
     clock_open key at_ c =
     {| clock_pending := <[key := at_]> (delete k (clock_pending c));
        clock_dropped := sat_add_u 64 (clock_dropped c) 1 |}).
Proof.
  intros Hb. pose proof MAX_MONITOR_PENDING_pos as Hpos. unfold clock_open.
  destruct (Nat.leb_spec MAX_MONITOR_PENDING (size (clock_pending c))) as [Hle|Hlt]; simpl; [|by left; eauto].
  destruct (clock_pending c !! key) as [t|] eqn:E; simpl; [left; eauto|]. right.
  destruct (oldest_some (fun t => t) (clock_pending c)) as [k Hk].
  { intros He. rewrite He, map_size_empty in Hle. lia. }
  rewrite Hk. destruct (oldest_least _ _ _ Hk) as (t & Ht & Hleast). exists k, t. split_and!; auto. lia.
Qed.

Lemma clock_open_remembers key at_ m c :
  remembers m c -> remembers (<[key := at_]> m) (clock_open key at_ c).
Proof.
  intros [Hs Hb Hd Ha]. pose proof MAX_MONITOR_PENDING_pos as Hpos.
  destruct (clock_open_cases key at_ c Hb) as [[-> Hroom]|(k & t & Hkey & Hsz & Hk & _ & ->)]; split; simpl.
  - by apply insert_mono.
  - rewrite map_size_insert. destruct Hroom as [Hlt|[t ->]]; [|simpl; lia]. destruct (_ !! key); simpl; lia.
  - done.
  - intros H0. by rewrite Ha.
  - apply insert_mono. etransitivity; [apply delete_subseteq|done].
  - rewrite map_size_insert, map_size_delete, Hk. destruct (delete k _ !! key); simpl; lia.
  - unfold sat_add_u. lia.
  - unfold sat_add_u. lia.
Qed.

Lemma clock_step_remembers op m c : remembers m c -> remembers (open_step m op) (clock_step c op).
Proof.
  intros Hr. destruct op as [key at_|key now|p|]; simpl; [by apply clock_open_remembers|..];
    destruct Hr as [Hs Hb Hd Ha].
  - unfold clock_close. destruct (clock_pending c !! key) as [t|] eqn:E; simpl; split; simpl; try done.
    + by apply delete_mono.
    + rewrite map_size_delete, E. simpl. lia.
    + intros H0. by rewrite Ha.
    + apply map_subseteq_spec. intros k t Hk. rewrite map_subseteq_spec in Hs.
      rewrite lookup_delete_ne by congruence. by apply Hs.
    + intros H0. rewrite Ha in E by done. rewrite Ha by done. by rewrite delete_id.
  - split; simpl; [by apply map_filter_subseteq_mono| |done|intros H0; by rewrite Ha].
    etransitivity; [|exact Hb]. apply map_subseteq_size, map_filter_subseteq.
  - split; simpl; [done|rewrite map_size_empty; lia|done|done].
Qed.

Lemma clock_run_remembers ops : remembers (opened ops) (clock_run ops).
Proof.
  unfold opened, clock_run. assert (H0 : remembers ∅ clock_new).
  { split; simpl; [done|rewrite map_size_empty; lia|done|done]. }
  revert H0. generalize clock_new, (∅ : gmap MonitorPairKey Z). induction ops as [|op ops IH]; intros c m Hr; [done|].
  simpl. by apply IH, clock_step_remembers.
Qed.

(** The clock measures what it says it measures. After any openings, closings, forgotten pairs
    and clears, at most 256 openings are pending; closing a key reports the time elapsed since its last
    opening that was neither closed, forgotten nor cleared, never that of another key or pair, and
    reports nothing when there was none; it can miss one only after the clock has counted a dropped
    opening; and what an opening pushes out of a full clock is the entry opened longest ago. *)
Theorem clock_measures (ops : list ClockOp) (key : MonitorPairKey) (now : Z) :
  let c := clock_run ops in
  (size (clock_pending c) <= MAX_MONITOR_PENDING)%nat /\
  (match fst (clock_close key now c) with
   | Some d => exists t, opened ops !! key = Some t /\ d = Z.max 0 (now - t)
   | None => clock_dropped c = 0 -> opened ops !! key = None
   end) /\
  (forall k t, clock_pending c !! k = Some t -> clock_pending (clock_open key now c) !! k = None ->
     size (clock_pending c) = MAX_MONITOR_PENDING /\
     forall k' t', clock_pending c !! k' = Some t' -> t <= t').
Proof.
  intros c. destruct (clock_run_remembers ops) as [Hs Hb Hd Ha]. fold c in Hs, Hb, Hd, Ha. split_and!; [done| |].
  - unfold clock_close. destruct (clock_pending c !! key) as [t|] eqn:E; simpl.
    + exists t. split; [|done]. rewrite map_subseteq_spec in Hs. by apply Hs.
    + intros H0. by rewrite <- Ha.
  - intros k t Hk Hout.
    destruct (clock_open_cases key now c Hb) as [[Ho _]|(k0 & t0 & Hkey & Hsz & Hk0 & Hleast & Ho)];
      rewrite Ho in Hout; simpl in Hout; apply lookup_insert_None in Hout as [Hout Hne].
    + by rewrite Hk in Hout.
    + apply lookup_delete_None in Hout as [->|Hout]; [|by rewrite Hk in Hout].
      rewrite Hk in Hk0. injection Hk0 as <-. done.
Qed.
End Clock.
