(* ===== verification/Suspensions.v ===== *)
(** * What a session holds suspended, and what it redefined
      (the [Suspensions] and [Redefinitions] of [mcp-server/src/session.rs])

    The clock of a held thread is what a watchdog measures; it is shown never to be refreshed. *)

From S2P Require Import Prelude Protocol Types Reader Events Connection Client EventRequest StopPoint.

Inductive SuspendCause : Type := CauseStopPoint (request : Z) | ManualPause.
Inductive ThreadHold : Type := Requested | HoldFailedEscalation (request : Z).

Record ThreadSuspend : Type := {
  ts_name : string;
  ts_since : Z;
  ts_issued : Z;
  ts_hold : ThreadHold;
}.

Record VmSuspend : Type := { vs_since : Z; vs_cause : SuspendCause }.

Record Suspensions : Type := { su_vm : option VmSuspend; su_threads : gmap Z ThreadSuspend }.

Definition suspensions_new : Suspensions := {| su_vm := None; su_threads := ∅ |}.

Definition with_threads (f : gmap Z ThreadSuspend -> gmap Z ThreadSuspend) (s : Suspensions) : Suspensions :=
  {| su_vm := su_vm s; su_threads := f (su_threads s) |}.
Definition with_issued (n : Z) (r : ThreadSuspend) : ThreadSuspend :=
  {| ts_name := ts_name r; ts_since := ts_since r; ts_issued := n; ts_hold := ts_hold r |}.
Definition with_hold (h : ThreadHold) (r : ThreadSuspend) : ThreadSuspend :=
  {| ts_name := ts_name r; ts_since := ts_since r; ts_issued := ts_issued r; ts_hold := h |}.

(** [Instant::now()] is an argument. *)
Definition mark_suspended (cause : SuspendCause) (now : Z) (s : Suspensions) : Suspensions :=
  {| su_vm := Some {| vs_since := now; vs_cause := cause |}; su_threads := su_threads s |}.

Definition mark_resumed (s : Suspensions) : Suspensions := {| su_vm := None; su_threads := su_threads s |}.

Definition hold_thread (tid : Z) (name : string) (at_ : Z) (s : Suspensions) : Z * Suspensions :=
  let entry := default {| ts_name := name; ts_since := at_; ts_issued := 0; ts_hold := Requested |}
                 (su_threads s !! tid) in
  let entry := with_issued (sat_add_u 32 (ts_issued entry) 1) entry in
  (ts_issued entry, with_threads (insert tid entry) s).

Definition hold_thread_for_failed_escalation (tid : Z) (name : string) (at_ req_id : Z) (s : Suspensions) : Suspensions :=
  with_threads (insert tid
    match su_threads s !! tid with
    | Some e => with_hold (HoldFailedEscalation req_id) e
    | None => {| ts_name := name; ts_since := at_; ts_issued := 0; ts_hold := HoldFailedEscalation req_id |}
    end) s.

Definition release_thread (tid : Z) (s : Suspensions) : option ThreadSuspend * Suspensions :=
  match su_threads s !! tid with
  | None => (None, s)
  | Some before =>
    let rec := with_issued (sat_sub (ts_issued before) 1) before in
    (Some before,
     with_threads (if ts_issued rec =? 0 then delete tid else insert tid rec) s)
  end.

Definition forget_thread (tid : Z) (s : Suspensions) : bool * Suspensions :=
  (is_some (su_threads s !! tid), with_threads (delete tid) s).

Definition forget_all_threads (s : Suspensions) : list string * Suspensions :=
  (map (fun e => ts_name (snd e)) (btree_iter (su_threads s)), with_threads (fun _ => ∅) s).

Definition overdue_threads (secs now : Z) (s : Suspensions) : list Z :=
  map fst (base.filter (fun e => secs <= as_secs (saturating_duration_since now (ts_since (snd e))))
    (btree_iter (su_threads s))).

Definition longest_held (tids : list Z) (now : Z) (s : Suspensions) : Z :=
  foldr Z.max 0 (map (fun e => saturating_duration_since now (ts_since (snd e)))
    (base.filter (fun e => fst e ∈ tids) (btree_iter (su_threads s)))).

(** ** Histories *)

Inductive HoldOp : Type :=
| Hold (tid : Z) (name : string) (at_ : Z)
| Escalate (tid : Z) (name : string) (at_ req_id : Z)
| Release (tid : Z)
| Forget (tid : Z)
| ForgetAll
| MarkSuspended (cause : SuspendCause) (now : Z)
| MarkResumed.

Definition hold_step (s : Suspensions) (op : HoldOp) : Suspensions :=
  match op with
  | Hold tid name at_ => snd (hold_thread tid name at_ s)
  | Escalate tid name at_ req_id => hold_thread_for_failed_escalation tid name at_ req_id s
  | Release tid => snd (release_thread tid s)
  | Forget tid => snd (forget_thread tid s)
  | ForgetAll => snd (forget_all_threads s)
  | MarkSuspended cause now => mark_suspended cause now s
  | MarkResumed => mark_resumed s
  end.
Definition hold_run (ops : list HoldOp) (s : Suspensions) : Suspensions := foldl hold_step s ops.

(** How many of the session's own suspends of [tid] are outstanding after an operation, starting from
    [n]; [None] when the operation ends the claim. *)
Definition claims_after (tid n : Z) (op : HoldOp) : option Z :=
  match op with
  | Hold t _ _ => Some (if t =? tid then n + 1 else n)
  | Release t => if t =? tid then (if n <=? 1 then None else Some (n - 1)) else Some n
  | Forget t => if t =? tid then None else Some n
  | ForgetAll => None
  | _ => Some n
  end.

Fixpoint claims (tid n : Z) (ops : list HoldOp) : option Z :=
  match ops with
  | [] => Some n
  | op :: ops => n ← claims_after tid n op; claims tid n ops
  end.

(** An operation that starts a claim on [tid], with the count it starts from. *)
Definition starts (op : HoldOp) (tid : Z) (name : string) (at_ n : Z) : Prop :=
  (op = Hold tid name at_ /\ n = 1) \/ (exists req_id, op = Escalate tid name at_ req_id /\ n = 0).

(** The entry of a claim: the name and the clock it started with, and the outstanding count. *)
Definition holds (s : Suspensions) (tid : Z) (name : string) (at_ n : Z) : Prop :=
  exists h, su_threads s !! tid = Some {| ts_name := name; ts_since := at_; ts_issued := n; ts_hold := h |}.

Lemma hold_step_claims s op tid name at_ n :
  holds s tid name at_ n -> 0 <= n < 2 ^ 32 - 1 ->
  match claims_after tid n op with
  | Some n' => holds (hold_step s op) tid name at_ n'
  | None => su_threads (hold_step s op) !! tid = None
  end.
Proof.
  intros [h Hh] Hn. unfold holds.
  destruct op as [t nm a|t nm a r|t|t| |c now|]; simpl; try by eexists.
  - destruct (Z.eqb_spec t tid) as [->|Hne].
    + rewrite Hh. simpl. rewrite lookup_insert_eq. unfold with_issued. simpl. exists h. do 2 f_equal.
      unfold sat_add_u. lia.
    + rewrite lookup_insert_ne by done. by exists h.
  - destruct (Z.eqb_spec t tid) as [->|Hne].
    + rewrite Hh, lookup_insert_eq. by eexists.
    + rewrite lookup_insert_ne by done. by exists h.
  - unfold release_thread. destruct (Z.eqb_spec t tid) as [->|Hne].
    + rewrite Hh. simpl. unfold sat_sub. destruct (n <=? 1) eqn:E; reflect_bools.
      * rewrite (proj2 (Z.eqb_eq _ _)) by lia. apply lookup_delete_eq.
      * rewrite (proj2 (Z.eqb_neq _ _)) by lia. rewrite lookup_insert_eq. exists h.
        unfold with_issued. simpl. do 2 f_equal. lia.
    + destruct (su_threads s !! t); [|by exists h]. simpl.
      case_match; [rewrite lookup_delete_ne by done|rewrite lookup_insert_ne by done]; by exists h.
  - destruct (Z.eqb_spec t tid) as [->|Hne]; [apply lookup_delete_eq|].
    rewrite lookup_delete_ne by done. by exists h.
Qed.

Lemma claims_nonneg tid n op n' : 0 <= n -> claims_after tid n op = Some n' -> 0 <= n' <= n + 1.
Proof. intros Hn H. destruct op; simpl in H; repeat case_match; simplify_eq; reflect_bools; lia. Qed.

Lemma hold_run_claims s ops tid name at_ n n' :
  holds s tid name at_ n -> 0 <= n -> n + zlen ops < 2 ^ 32 - 1 -> claims tid n ops = Some n' ->
  holds (hold_run ops s) tid name at_ n' /\ 0 <= n' <= n + zlen ops.
Proof.
  revert s n. induction ops as [|op ops IH]; intros s n Hh Hn Hb Hc; simpl in Hc.
  - injection Hc as <-. unfold zlen in *. simpl in *. split; [done|lia].
  - destruct (claims_after tid n op) as [m|] eqn:E; [|done]. simpl in Hc.
    pose proof (hold_step_claims s op tid name at_ n Hh) as Hs. rewrite E in Hs.
    pose proof (claims_nonneg _ _ _ _ Hn E). unfold zlen in *. simpl length in *.
    destruct (IH (hold_step s op) m) as [H1 H2]; [apply Hs; lia|lia|lia|done|]. split; [done|lia].
Qed.

Lemma elem_of_overdue tid secs now s :
  tid ∈ overdue_threads secs now s <->
  exists r, su_threads s !! tid = Some r /\ secs <= as_secs (saturating_duration_since now (ts_since r)).
Proof.
  unfold overdue_threads. rewrite list_elem_of_fmap. split.
  - intros ([t r] & -> & [H1 H2]%list_elem_of_filter). apply elem_of_btree_iter in H2. by exists r.
  - intros (r & Hr & Hs). exists (tid, r). split; [done|]. apply list_elem_of_filter. split; [done|].
    by apply elem_of_btree_iter.
Qed.

(** A held thread is rescued on time and given back exactly. From the operation that starts a
    claim on a thread, a suspend or a failed escalation, whatever else happens until the claim ends
    (further suspends of it, failed escalations, releases, holds and releases of other threads,
    suspending and resuming the virtual machine), the record keeps the name and the instant it started
    with and counts exactly the suspends of the session that were not given back; so the thread is
    overdue precisely when the time since that first instant reaches the limit. And the operation that
    ends the claim, the release that gives back the last suspend or a forget, removes the record. *)
Theorem held_until_released (s : Suspensions) (op : HoldOp) (post : list HoldOp) (tid : Z) (name : string)
    (at_ n : Z) :
  su_threads s !! tid = None -> starts op tid name at_ n -> zlen post < 2 ^ 32 - 3 ->
  forall n', claims tid n post = Some n' ->
    let s' := hold_run (op :: post) s in
    holds s' tid name at_ n' /\
    (forall secs now, tid ∈ overdue_threads secs now s' <-> secs <= as_secs (Z.max 0 (now - at_))) /\
    (forall last, claims_after tid n' last = None -> su_threads (hold_step s' last) !! tid = None).
Proof.
  intros Hnone Hop Hlen n' Hc s'.
  assert (H0 : holds (hold_step s op) tid name at_ n /\ 0 <= n <= 1).
  { unfold holds. destruct Hop as [[-> ->]|(req & -> & ->)]; simpl; rewrite Hnone, lookup_insert_eq; simpl.
    - split; [|lia]. by eexists.
    - split; [|lia]. by eexists. }
  destruct H0 as [H0 Hn]. destruct (hold_run_claims _ post tid name at_ n n' H0) as [Hh Hn']; [lia|lia|done|].
  fold (hold_run (op :: post) s) in Hh. change (hold_run post (hold_step s op)) with s' in Hh. split_and!; [done| |].
  - intros secs now. rewrite elem_of_overdue. destruct Hh as [h Hh]. split.
    + intros (r & Hr & Hs). rewrite Hh in Hr. by injection Hr as <-.
    + intros Hs. eexists. by split.
  - intros last Hl. pose proof (hold_step_claims s' last tid name at_ n' Hh) as H. rewrite Hl in H. apply H. lia.
Qed.

(** ** Redefinitions *)

Record Redefinition : Type := { rd_count : Z; rd_at : Z; rd_popped_since : bool }.
Record Redefinitions : Type := { redefined : gmap string Redefinition }.

Definition redefinitions_new : Redefinitions := {| redefined := ∅ |}.

Definition note_swap (class_name : string) (at_ : Z) (r : Redefinitions) : Redefinitions :=
  let entry := default {| rd_count := 0; rd_at := at_; rd_popped_since := false |} (redefined r !! class_name) in
  {| redefined := <[class_name := {| rd_count := wrap_u 32 (rd_count entry + 1); rd_at := at_;
                                     rd_popped_since := false |}]> (redefined r) |}.

Definition note_pop (class_name : string) (r : Redefinitions) : Redefinitions :=
  match redefined r !! class_name with
  | Some entry =>
    {| redefined := <[class_name := {| rd_count := rd_count entry; rd_at := rd_at entry;
                                       rd_popped_since := true |}]> (redefined r) |}
  | None => r
  end.

Lemma held_until_released_witness :
  let post := [Hold 7 "again" 90; MarkResumed; Escalate 7 "other" 95 3; Release 7; Hold 8 "x" 0] in
  let s' := hold_run (Hold 7 "worker" 10 :: post) suspensions_new in
  holds s' 7 "worker" 10 1 /\
  (forall secs now, 7 ∈ overdue_threads secs now s' <-> secs <= as_secs (Z.max 0 (now - 10))) /\
  (forall last, claims_after 7 1 last = None -> su_threads (hold_step s' last) !! 7 = None).
Proof.
  intros post. apply (held_until_released suspensions_new (Hold 7 "worker" 10) post 7 "worker" 10 1).
  - apply lookup_empty.
  - by left.
  - by_compute.
  - reflexivity.
Defined.
