(* ===== verification/Traces.v ===== *)
(** * Filed traces (the [TraceBuffer] of [mcp-server/src/session.rs])

    The bounded buffer of trace records, and the folding of repeated rethrows of one exception. *)

From S2P Require Import Prelude Protocol Types Reader Events.

Definition MAX_TRACES : nat := 500.
Definition MAX_TRACE_DISARMS : nat := 32.
Definition MAX_RETHROW_CHAINS : nat := 64.

Record TracedValue : Type := {
  tv_name : string;
  tv_rendered : string;
  tv_object_id : option Z;
}.

Record RethrowFold : Type := { rf_collapsed : Z; rf_first_seq : Z }.

Record TraceRecord : Type := {
  tr_seq : Z;
  tr_bp_id : string;
  tr_thread : Z;
  tr_class : string;
  tr_method : string;
  tr_line : option Z;
  tr_args : list TracedValue;
  tr_captured : list TracedValue;
  tr_callers : list string;
  tr_expr : list (string * string);
  tr_detail : list (string * string);
  tr_rethrow : option RethrowFold;
}.

Definition filed_as (seq : Z) (rethrow : option RethrowFold) (r : TraceRecord) : TraceRecord := {|
  tr_seq := seq;
  tr_bp_id := tr_bp_id r; tr_thread := tr_thread r; tr_class := tr_class r; tr_method := tr_method r;
  tr_line := tr_line r; tr_args := tr_args r; tr_captured := tr_captured r; tr_callers := tr_callers r;
  tr_expr := tr_expr r; tr_detail := tr_detail r;
  tr_rethrow := rethrow
|}.

Inductive ThrowKind : Type := First | Rethrow (fold : RethrowFold) (supersedes : option Z).

Record RethrowChain : Type := {
  rc_first_seq : Z;
  rc_rolling_seq : option Z;
  rc_collapsed : Z;
}.

(** Request, thread and exception. *)
Abbreviation ThrowKey := (Z * Z * Z)%type.

Record TraceBuffer : Type := {
  tb_held : list TraceRecord;
  tb_filed : Z;
  tb_rethrow_chains : gmap ThrowKey RethrowChain;
  tb_disarms : gmap string Z;
  tb_disarms_dropped : Z;
}.

Definition traces_new : TraceBuffer := {|
  tb_held := []; tb_filed := 0; tb_rethrow_chains := ∅; tb_disarms := ∅; tb_disarms_dropped := 0
|}.

Section Traces.
Context {HashOrder : IterOrder ThrowKey RethrowChain}.

(** [classify_throw], on the chains alone. *)
Definition classify_throw (req_id thread : Z) (exception : option Z) (next_seq : Z)
    (chains : gmap ThrowKey RethrowChain) : ThrowKind * gmap ThrowKey RethrowChain :=
  match exception with
  | None => (First, chains)
  | Some exc =>
    let key := (req_id, thread, exc) in
    match chains !! key with
    | Some chain =>
      let collapsed := sat_add_u 32 (rc_collapsed chain) 1 in
      let supersedes := rc_rolling_seq chain in
      (Rethrow {| rf_collapsed := collapsed - 1; rf_first_seq := rc_first_seq chain |} supersedes,
       <[key := {| rc_first_seq := rc_first_seq chain; rc_rolling_seq := Some next_seq;
                   rc_collapsed := collapsed |}]> chains)
    | None =>
      let chains :=
        if (MAX_RETHROW_CHAINS <=? size chains)%nat then
          match oldest rc_first_seq chains with Some k => delete k chains | None => chains end
        else chains in
      (First, <[key := {| rc_first_seq := next_seq; rc_rolling_seq := None; rc_collapsed := 0 |}]> chains)
    end
  end.

(** [TraceBuffer::push]. *)
Definition trace_push (rec : TraceRecord) (req_id thread : Z) (exception : option Z) (b : TraceBuffer) :
    ThrowKind * TraceBuffer :=
  let seq := wrap_u 64 (tb_filed b + 1) in
  let '(kind, chains) := classify_throw req_id thread exception seq (tb_rethrow_chains b) in
  let rec := filed_as seq (match kind with Rethrow fold _ => Some fold | First => tr_rethrow rec end) rec in
  let held :=
    match kind with
    | Rethrow _ (Some old) => base.filter (fun r => tr_seq r <> old) (tb_held b)
    | _ => tb_held b
    end in
  let held := if (MAX_TRACES <=? length held)%nat then tail held else held in
  (kind, {|
    tb_held := held ++ [rec];
    tb_filed := seq;
    tb_rethrow_chains := chains;
    tb_disarms := tb_disarms b;
    tb_disarms_dropped := tb_disarms_dropped b
  |}).

Definition note_disarm (note : string) (b : TraceBuffer) : TraceBuffer :=
  let '(disarms, dropped) :=
    match tb_disarms b !! note with
    | Some n => (<[note := wrap_u 32 (n + 1)]> (tb_disarms b), tb_disarms_dropped b)
    | None =>
      if (size (tb_disarms b) <? MAX_TRACE_DISARMS)%nat
      then (<[note := 1]> (tb_disarms b), tb_disarms_dropped b)
      else (tb_disarms b, wrap_u 64 (tb_disarms_dropped b + 1))
    end in
  {| tb_held := tb_held b; tb_filed := tb_filed b; tb_rethrow_chains := tb_rethrow_chains b;
     tb_disarms := disarms; tb_disarms_dropped := dropped |}.

Definition traces_clear (b : TraceBuffer) : TraceBuffer :=
  {| tb_held := []; tb_filed := tb_filed b; tb_rethrow_chains := tb_rethrow_chains b;
     tb_disarms := ∅; tb_disarms_dropped := 0 |}.

(** ** Histories *)

Inductive TraceOp : Type :=
| File (rec : TraceRecord) (req_id thread : Z) (exception : option Z)
| NoteDisarm (note : string)
| ClearTraces.

Definition trace_step (b : TraceBuffer) (op : TraceOp) : TraceBuffer :=
  match op with
  | File rec req_id thread exception => snd (trace_push rec req_id thread exception b)
  | NoteDisarm note => note_disarm note b
  | ClearTraces => traces_clear b
  end.
Definition trace_run (ops : list TraceOp) : TraceBuffer := foldl trace_step traces_new ops.

(** The records a caller files carry no fold of their own. *)
Definition plain (op : TraceOp) : Prop := match op with File rec _ _ _ => tr_rethrow rec = None | _ => True end.

(** Every filing so far: its sequence number and, for a throw, what was thrown. *)
Abbreviation History := (list (Z * option ThrowKey)).
Definition history_step (h : History) (op : TraceOp) : History :=
  match op with
  | File _ req_id thread exception =>
    h ++ [(zlen h + 1, match exception with Some exc => Some (req_id, thread, exc) | None => None end)]
  | _ => h
  end.
Definition history (ops : list TraceOp) : History := foldl history_step [] ops.

(** The filings of one throw from [first] to [last]. *)
Definition thrown (key : ThrowKey) (first last : Z) (h : History) : list Z :=
  map fst (base.filter (fun x => snd x = Some key /\ first <= fst x <= last) h).

(** A chain counts the throws since its first one and names the last. *)
Definition chain_ok (h : History) (key : ThrowKey) (c : RethrowChain) : Prop :=
  exists rest, thrown key (rc_first_seq c) (zlen h) h = rc_first_seq c :: rest /\
    rc_collapsed c = Z.min (2 ^ 32 - 1) (zlen rest) /\ rc_rolling_seq c = list.last rest.

(** A fold says of which chain it is and how many rethrows it replaced. *)
Definition fold_ok (h : History) (seq : Z) (f : RethrowFold) : Prop :=
  exists key rest, thrown key (rf_first_seq f) seq h = rf_first_seq f :: rest /\ list.last rest = Some seq /\
    rf_collapsed f = Z.min (2 ^ 32 - 1) (zlen rest) - 1.

Record traces_ok (h : History) (b : TraceBuffer) : Prop := {
  ok_filed : tb_filed b = zlen h;
  ok_sorted : StronglySorted Z.lt (map tr_seq (tb_held b));
  ok_held : (length (tb_held b) <= MAX_TRACES)%nat;
  ok_chains : (size (tb_rethrow_chains b) <= MAX_RETHROW_CHAINS)%nat;
  ok_disarms : (size (tb_disarms b) <= MAX_TRACE_DISARMS)%nat;
  ok_seq r : r ∈ tb_held b -> 1 <= tr_seq r <= zlen h;
  ok_chain key c : tb_rethrow_chains b !! key = Some c -> chain_ok h key c;
  ok_fold r f : r ∈ tb_held b -> tr_rethrow r = Some f -> fold_ok h (tr_seq r) f;
  ok_rolling key c r : tb_rethrow_chains b !! key = Some c -> r ∈ tb_held b ->
    (rc_rolling_seq c = Some (tr_seq r) <-> exists f, tr_rethrow r = Some f /\ rf_first_seq f = rc_first_seq c);
  ok_once r1 r2 f1 f2 : r1 ∈ tb_held b -> r2 ∈ tb_held b -> tr_rethrow r1 = Some f1 -> tr_rethrow r2 = Some f2 ->
    rf_first_seq f1 = rf_first_seq f2 -> tr_seq r1 = tr_seq r2;
}.

Lemma MAX_TRACES_pos : (0 < MAX_TRACES)%nat.
Proof. unfold MAX_TRACES. lia. Qed.
Lemma MAX_RETHROW_CHAINS_pos : (0 < MAX_RETHROW_CHAINS)%nat.
Proof. unfold MAX_RETHROW_CHAINS. lia. Qed.
#[local] Opaque MAX_TRACES MAX_RETHROW_CHAINS.

(** *** The throws of a history *)

(** Filings are numbered from one. *)
Definition numbered (h : History) : Prop := map fst h = seqZ 1 (zlen h).

Lemma numbered_snoc h o : numbered h -> numbered (h ++ [(zlen h + 1, o)]).
Proof.
  unfold numbered. intros H. rewrite map_app, H, zlen_app. simpl. rewrite seqZ_app by (unfold zlen; lia).
  by rewrite Z.add_comm.
Qed.

Lemma numbered_range h n o : numbered h -> (n, o) ∈ h -> 1 <= n <= zlen h.
Proof.
  intros H Hin. assert (Hn : n ∈ map fst h) by (apply list_elem_of_fmap; by exists (n, o)).
  rewrite H in Hn. apply elem_of_seqZ in Hn. lia.
Qed.

Lemma numbered_functional h n o o' : numbered h -> (n, o) ∈ h -> (n, o') ∈ h -> o = o'.
Proof.
  intros H H1 H2. assert (Hd : NoDup (map fst h)) by (rewrite H; apply NoDup_seqZ).
  clear H. induction h as [|[m p] h IH]; [by apply elem_of_nil in H1|].
  simpl in Hd. apply list.NoDup_cons in Hd as [Hm Hd].
  assert (Hno : forall q, (m, q) ∈ h -> False).
  { intros q Hq. apply Hm, list_elem_of_fmap. by exists (m, q). }
  apply elem_of_cons in H1 as [E1|H1], H2 as [E2|H2]; simplify_eq; try done; [by destruct (Hno o')|by destruct (Hno o)|by eauto].
Qed.

Lemma elem_of_thrown n key first last h :
  n ∈ thrown key first last h <-> (n, Some key) ∈ h /\ first <= n <= last.
Proof.
  unfold thrown. rewrite list_elem_of_fmap. split.
  - intros ([m o] & -> & [[Ho Hr] Hin]%list_elem_of_filter). simpl in *. by subst.
  - intros [Hin Hr]. exists (n, Some key). split; [done|]. by apply list_elem_of_filter.
Qed.

Lemma thrown_old key first last h x : last < fst x -> thrown key first last (h ++ [x]) = thrown key first last h.
Proof.
  intros Hx. unfold thrown. rewrite list.filter_app, map_app, filter_cons_False, filter_nil by lia.
  apply app_nil_r.
Qed.

(** Beyond the last filing the bound does not matter. *)
Lemma thrown_all key first last h :
  numbered h -> zlen h <= last -> thrown key first last h = thrown key first (zlen h) h.
Proof.
  intros Hn Hl. unfold thrown. f_equal. apply filter_ext_in. intros [m o] Hin.
  pose proof (numbered_range h m o Hn Hin). simpl. split; intros [-> ?]; (split; [done|lia]).
Qed.

Lemma thrown_other key first h o :
  numbered h -> o <> Some key ->
  thrown key first (zlen h + 1) (h ++ [(zlen h + 1, o)]) = thrown key first (zlen h) h.
Proof.
  intros Hn Ho. rewrite <- (thrown_all key first (zlen h + 1) h) by (done || lia).
  unfold thrown. rewrite list.filter_app, map_app, filter_cons_False, filter_nil by (simpl; tauto).
  apply app_nil_r.
Qed.

Lemma thrown_again key first h :
  numbered h -> first <= zlen h + 1 ->
  thrown key first (zlen h + 1) (h ++ [(zlen h + 1, Some key)]) = thrown key first (zlen h) h ++ [zlen h + 1].
Proof.
  intros Hn Hf. rewrite <- (thrown_all key first (zlen h + 1) h) by (done || lia).
  unfold thrown. rewrite list.filter_app, map_app, filter_cons_True, filter_nil by (simpl; lia || (split; [done|lia])).
  done.
Qed.

Lemma thrown_future key h : numbered h -> thrown key (zlen h + 1) (zlen h) h = [].
Proof.
  intros Hn. apply elem_of_nil_inv. intros n [_ Hr]%elem_of_thrown. lia.
Qed.

(** What a chain and a fold name was thrown. *)
Lemma chain_ok_first h key c :
  chain_ok h key c -> (rc_first_seq c, Some key) ∈ h /\ rc_first_seq c <= zlen h.
Proof.
  intros (rest & Ht & _). assert (Hin : rc_first_seq c ∈ thrown key (rc_first_seq c) (zlen h) h) by (rewrite Ht; by left).
  apply elem_of_thrown in Hin as [Hin Hr]. split; [done|lia].
Qed.
Lemma chain_ok_rolling h key c n : chain_ok h key c -> rc_rolling_seq c = Some n -> n <= zlen h.
Proof.
  intros (rest & Ht & _ & Hr) Hn. rewrite Hn in Hr. symmetry in Hr. apply last_Some in Hr as [l' ->].
  assert (Hin : n ∈ thrown key (rc_first_seq c) (zlen h) h).
  { rewrite Ht. right. apply elem_of_app. right. by left. }
  apply elem_of_thrown in Hin. lia.
Qed.
Lemma fold_ok_first h seq f :
  fold_ok h seq f -> exists key, (rf_first_seq f, Some key) ∈ h.
Proof.
  intros (key & rest & Ht & _). exists key.
  assert (Hin : rf_first_seq f ∈ thrown key (rf_first_seq f) seq h) by (rewrite Ht; by left).
  by apply elem_of_thrown in Hin as [Hin _].
Qed.

(** *** One filing *)

Lemma fold_ok_snoc h seq f x : seq < fst x -> fold_ok h seq f -> fold_ok (h ++ [x]) seq f.
Proof. intros Hx (key & rest & Ht & H). exists key, rest. by rewrite thrown_old. Qed.

Lemma chain_ok_other h key c o :
  numbered h -> o <> Some key -> chain_ok h key c -> chain_ok (h ++ [(zlen h + 1, o)]) key c.
Proof.
  intros Hn Ho (rest & Ht & H). exists rest. rewrite zlen_app. change (zlen [_]) with 1. by rewrite thrown_other.
Qed.

(** The chain and the fold a rethrow makes. *)
Lemma chain_ok_again h key c :
  numbered h -> chain_ok h key c ->
  let collapsed := sat_add_u 32 (rc_collapsed c) 1 in
  let h' := h ++ [(zlen h + 1, Some key)] in
  chain_ok h' key {| rc_first_seq := rc_first_seq c; rc_rolling_seq := Some (zlen h + 1); rc_collapsed := collapsed |} /\
  fold_ok h' (zlen h + 1) {| rf_collapsed := collapsed - 1; rf_first_seq := rc_first_seq c |}.
Proof.
  intros Hn Hc. destruct (chain_ok_first _ _ _ Hc) as [_ Hf]. destruct Hc as (rest & Ht & Hcol & _).
  assert (Ht' : thrown key (rc_first_seq c) (zlen h + 1) (h ++ [(zlen h + 1, Some key)]) =
    rc_first_seq c :: rest ++ [zlen h + 1]).
  { rewrite thrown_again by (done || lia). by rewrite Ht. }
  assert (Hcol' : sat_add_u 32 (rc_collapsed c) 1 = Z.min (2 ^ 32 - 1) (zlen (rest ++ [zlen h + 1]))).
  { rewrite Hcol, zlen_app. unfold sat_add_u, zlen. simpl length. lia. }
  split.
  - exists (rest ++ [zlen h + 1]). cbn [rc_first_seq rc_rolling_seq rc_collapsed]. rewrite zlen_app at 1.
    change (zlen [_]) with 1. rewrite last_snoc. done.
  - exists key, (rest ++ [zlen h + 1]). cbn [rf_first_seq rf_collapsed]. rewrite last_snoc, Hcol'. done.
Qed.

Lemma chain_ok_fresh h key :
  numbered h ->
  chain_ok (h ++ [(zlen h + 1, Some key)]) key
    {| rc_first_seq := zlen h + 1; rc_rolling_seq := None; rc_collapsed := 0 |}.
Proof.
  intros Hn. exists []. cbn [rc_first_seq rc_rolling_seq rc_collapsed]. rewrite zlen_app. change (zlen [_]) with 1.
  rewrite thrown_again, thrown_future by (done || lia). done.
Qed.

(** What classifying a throw does to the chains, by case. *)
Definition key_of (req_id thread : Z) (exception : option Z) : option ThrowKey :=
  match exception with Some exc => Some (req_id, thread, exc) | None => None end.

Lemma classify_size req_id thread exception n chains :
  (size chains <= MAX_RETHROW_CHAINS)%nat ->
  (size (snd (classify_throw req_id thread exception n chains)) <= MAX_RETHROW_CHAINS)%nat.
Proof.
  intros Hs. pose proof MAX_RETHROW_CHAINS_pos as Hpos. unfold classify_throw.
  destruct exception as [exc|]; [|done]. destruct (chains !! _) as [c|] eqn:E; simpl.
  - rewrite map_size_insert, E. simpl. lia.
  - destruct (Nat.leb_spec MAX_RETHROW_CHAINS (size chains)) as [Hle|Hlt];
      [|etransitivity; [apply size_insert_le|lia]].
    destruct (oldest_some rc_first_seq chains) as [k Hk].
    { intros He. rewrite He, map_size_empty in Hle. lia. }
    rewrite Hk. etransitivity; [apply size_insert_le|]. rewrite (size_evicted _ _ _ Hk). lia.
Qed.

(** Every chain afterwards is an old one under another key, or the thrown key's. *)
Lemma classify_other req_id thread exception n chains key c :
  snd (classify_throw req_id thread exception n chains) !! key = Some c ->
  key_of req_id thread exception <> Some key -> chains !! key = Some c.
Proof.
  unfold classify_throw, key_of. destruct exception as [exc|]; [|done]. intros H Hne.
  destruct (chains !! (req_id, thread, exc)) as [c0|] eqn:E; simpl in H;
    rewrite lookup_insert_ne in H by congruence; [done|].
  repeat case_match; try done. by apply lookup_delete_Some in H as [_ H].
Qed.

Lemma classify_own req_id thread exception n chains key c :
  snd (classify_throw req_id thread exception n chains) !! key = Some c ->
  key_of req_id thread exception = Some key ->
  (exists c0, chains !! key = Some c0 /\
    c = {| rc_first_seq := rc_first_seq c0; rc_rolling_seq := Some n;
           rc_collapsed := sat_add_u 32 (rc_collapsed c0) 1 |} /\
    fst (classify_throw req_id thread exception n chains) =
      Rethrow {| rf_collapsed := sat_add_u 32 (rc_collapsed c0) 1 - 1; rf_first_seq := rc_first_seq c0 |}
        (rc_rolling_seq c0)) \/
  (c = {| rc_first_seq := n; rc_rolling_seq := None; rc_collapsed := 0 |} /\
   fst (classify_throw req_id thread exception n chains) = First).
Proof.
  unfold classify_throw, key_of. destruct exception as [exc|]; [|done]. intros H [= <-].
  destruct (chains !! (req_id, thread, exc)) as [c0|] eqn:E; simpl in H |- *;
    rewrite lookup_insert_eq in H; injection H as <-; [left|right]; eauto.
Qed.

(** A rethrow comes from a chain. *)
Lemma classify_rethrow req_id thread exception n chains f o :
  fst (classify_throw req_id thread exception n chains) = Rethrow f o ->
  exists key c0, key_of req_id thread exception = Some key /\ chains !! key = Some c0 /\
    f = {| rf_collapsed := sat_add_u 32 (rc_collapsed c0) 1 - 1; rf_first_seq := rc_first_seq c0 |} /\
    o = rc_rolling_seq c0.
Proof.
  unfold classify_throw, key_of. destruct exception as [exc|]; [|done].
  destruct (chains !! (req_id, thread, exc)) as [c0|] eqn:E; [|done]. simpl. intros [= <- <-]. by exists (req_id, thread, exc), c0.
Qed.

(** The buffer after a filing: some old records, none of them the superseded one, then the new one. *)
Lemma trace_push_held rec req_id thread exception b :
  let kind := fst (classify_throw req_id thread exception (wrap_u 64 (tb_filed b + 1)) (tb_rethrow_chains b)) in
  let b' := snd (trace_push rec req_id thread exception b) in
  exists kept, kept `sublist_of` tb_held b /\
    tb_held b' = kept ++ [filed_as (wrap_u 64 (tb_filed b + 1))
      (match kind with Rethrow fold _ => Some fold | First => tr_rethrow rec end) rec] /\
    ((length (tb_held b) <= MAX_TRACES)%nat -> (length (tb_held b') <= MAX_TRACES)%nat) /\
    (forall f old r, kind = Rethrow f (Some old) -> r ∈ kept -> tr_seq r <> old).
Proof.
  unfold trace_push. destruct (classify_throw _ _ _ _ _) as [kind chains]. cbn [fst snd tb_held].
  set (held := match kind with Rethrow _ (Some old) => _ | _ => _ end).
  exists (if (MAX_TRACES <=? length held)%nat then tail held else held).
  assert (Hheld : held `sublist_of` tb_held b).
  { unfold held. repeat case_match; try reflexivity. apply sublist_filter. }
  assert (Htail : (if (MAX_TRACES <=? length held)%nat then tail held else held) `sublist_of` held).
  { case_match; [|done]. destruct held; [done|]. simpl. by apply sublist_cons. }
  split_and!; [by etransitivity|done| |].
  - intros Hl. apply push_bounded_length; [apply MAX_TRACES_pos|]. apply sublist_length in Hheld. lia.
  - intros f old r -> Hr. pose proof (elem_of_sublist _ _ _ Hr Htail) as Hin. unfold held in Hin.
    by apply list_elem_of_filter in Hin as [Hne _].
Qed.

Lemma StronglySorted_sublist {A} (R : relation A) (l k : list A) :
  l `sublist_of` k -> StronglySorted R k -> StronglySorted R l.
Proof.
  induction 1 as [|x l k H IH|x l k H IH]; intros Hs; [done|..]; apply StronglySorted_inv in Hs as [Hs Hx]; [|auto].
  constructor; [auto|]. apply list.Forall_forall. intros y Hy. rewrite list.Forall_forall in Hx. apply Hx.
  by eapply elem_of_sublist.
Qed.

(** Filing keeps the buffer in order. *)
Lemma file_ok h b rec req_id thread exception :
  numbered h -> zlen h + 1 < 2 ^ 64 -> tr_rethrow rec = None -> traces_ok h b ->
  traces_ok (h ++ [(zlen h + 1, key_of req_id thread exception)]) (snd (trace_push rec req_id thread exception b)).
Proof.
  intros Hn Hlt Hplain [O1 O2 O3 O4 O5 O6 O7 O8 O9 O10].
  assert (Hseq : wrap_u 64 (tb_filed b + 1) = zlen h + 1).
  { rewrite O1. apply wrap_u_id. unfold in_u, zlen in *. lia. }
  pose proof (trace_push_held rec req_id thread exception b) as (kept & Hk & Hheld & Hlen & Hsup).
  rewrite Hseq in *. rewrite Hplain in Hheld.
  set (kind := fst (classify_throw req_id thread exception (zlen h + 1) (tb_rethrow_chains b))) in *.
  assert (Hchains : tb_rethrow_chains (snd (trace_push rec req_id thread exception b)) =
    snd (classify_throw req_id thread exception (zlen h + 1) (tb_rethrow_chains b))).
  { unfold trace_push. rewrite Hseq. by destruct (classify_throw _ _ _ _ _). }
  assert (Hrest : tb_filed (snd (trace_push rec req_id thread exception b)) = zlen h + 1 /\
    tb_disarms (snd (trace_push rec req_id thread exception b)) = tb_disarms b).
  { unfold trace_push. rewrite Hseq. by destruct (classify_throw _ _ _ _ _). }
  destruct Hrest as [Hfiled Hdis].
  set (b' := snd (trace_push rec req_id thread exception b)) in *.
  set (o := key_of req_id thread exception) in *.
  set (new := filed_as _ _ rec) in Hheld.
  assert (Hlen' : zlen (h ++ [(zlen h + 1, o)]) = zlen h + 1) by (by rewrite zlen_app).
  assert (Hold : forall r, r ∈ kept -> r ∈ tb_held b) by (intros r Hr; by eapply elem_of_sublist).
  assert (Hnew : forall f, tr_rethrow new = Some f -> exists key c0, o = Some key /\
    tb_rethrow_chains b !! key = Some c0 /\
    f = {| rf_collapsed := sat_add_u 32 (rc_collapsed c0) 1 - 1; rf_first_seq := rc_first_seq c0 |} /\
    kind = Rethrow f (rc_rolling_seq c0)).
  { intros f Hf. simpl in Hf. destruct kind as [|f' old] eqn:Ekind; [done|]. injection Hf as ->.
    destruct (classify_rethrow _ _ _ _ _ _ _ Ekind) as (key & c0 & Ho & Hc0 & -> & ->). by exists key, c0. }
  assert (Hclash : forall r f f0, r ∈ kept -> tr_rethrow r = Some f -> tr_rethrow new = Some f0 ->
    rf_first_seq f = rf_first_seq f0 -> False).
  { intros r f f0 Hr Hf (key & c0 & Ho & Hc0 & -> & Hkind)%Hnew Hfirst.
    assert (Hroll : rc_rolling_seq c0 = Some (tr_seq r)) by (apply (O9 key c0 r Hc0 (Hold r Hr)); eauto).
    rewrite Hroll in Hkind. by apply (Hsup _ _ _ Hkind Hr). }
  split.
  - by rewrite Hfiled, Hlen'.
  - rewrite Hheld, map_app. apply StronglySorted_app. split_and!.
    + intros x y (r & -> & Hr)%list_elem_of_fmap ->%list_elem_of_singleton. simpl.
      pose proof (O6 r (Hold r Hr)). lia.
    + eapply StronglySorted_sublist; [|exact O2]. by apply fmap_sublist.
    + by repeat constructor.
  - auto.
  - rewrite Hchains. by apply classify_size.
  - by rewrite Hdis.
  - rewrite Hheld, Hlen'. intros r [Hr| ->%list_elem_of_singleton]%elem_of_app; [|simpl; unfold zlen; lia].
    pose proof (O6 r (Hold r Hr)). lia.
  - rewrite Hchains. intros key c Hc. destruct (decide (o = Some key)) as [Ho|Ho].
    + destruct (classify_own _ _ _ _ _ _ _ Hc Ho) as [(c0 & Hc0 & -> & _)|[-> _]]; rewrite Ho.
      * by apply chain_ok_again, O7.
      * by apply chain_ok_fresh.
    + apply chain_ok_other; [done|done|]. apply O7. by eapply classify_other.
  - rewrite Hheld. intros r f [Hr| ->%list_elem_of_singleton]%elem_of_app Hf.
    + pose proof (O6 r (Hold r Hr)). apply fold_ok_snoc; [simpl; lia|auto].
    + apply Hnew in Hf as (key & c0 & Ho & Hc0 & -> & _). rewrite Ho. by apply chain_ok_again, O7.
  - rewrite Hheld, Hchains. intros key c r Hc [Hr| ->%list_elem_of_singleton]%elem_of_app.
    + pose proof (O6 r (Hold r Hr)) as Hrange. destruct (decide (o = Some key)) as [Ho|Ho].
      * destruct (classify_own _ _ _ _ _ _ _ Hc Ho) as [(c0 & Hc0 & -> & Hkind)|[-> _]]; simpl.
        -- split; [intros [=]; lia|]. intros (f & Hf & Hfirst). exfalso.
           assert (Hroll : rc_rolling_seq c0 = Some (tr_seq r)) by (apply (O9 key c0 r Hc0 (Hold r Hr)); eauto).
           rewrite Hroll in Hkind. by apply (Hsup _ _ _ Hkind Hr).
        -- split; [done|]. intros (f & Hf & Hfirst). exfalso.
           destruct (fold_ok_first _ _ _ (O8 r f (Hold r Hr) Hf)) as [k Hin].
           apply (numbered_range _ _ _ Hn) in Hin. lia.
      * apply (O9 key); [by eapply classify_other|auto].
    + simpl. destruct (decide (o = Some key)) as [Ho|Ho].
      * destruct (classify_own _ _ _ _ _ _ _ Hc Ho) as [(c0 & Hc0 & -> & Hkind)|[-> Hkind]];
          fold kind in Hkind; rewrite Hkind; simpl; split; try done; [by eauto|by intros (f & [=] & _)].
      * pose proof (classify_other _ _ _ _ _ _ _ Hc Ho) as Hc'. split.
        -- intros Hroll. apply (chain_ok_rolling h key) in Hroll; [lia|auto].
        -- intros (f & (key' & c0 & Ho' & Hc0 & -> & _)%Hnew & Hfirst). exfalso. simpl in Hfirst.
           destruct (chain_ok_first _ _ _ (O7 _ _ Hc0)) as [Hin0 _], (chain_ok_first _ _ _ (O7 _ _ Hc')) as [Hin _].
           rewrite Hfirst in Hin0. pose proof (numbered_functional _ _ _ _ Hn Hin0 Hin). congruence.
  - rewrite Hheld. intros r1 r2 f1 f2 [H1| ->%list_elem_of_singleton]%elem_of_app
      [H2| ->%list_elem_of_singleton]%elem_of_app Hf1 Hf2 Hf; [by eauto|by edestruct Hclash|by edestruct Hclash|done].
Qed.

Lemma history_step_numbered h op : numbered h -> numbered (history_step h op).
Proof. intros Hn. destruct op; [by apply numbered_snoc|done..]. Qed.

Lemma trace_step_ok h b op :
  numbered h -> plain op -> zlen (history_step h op) < 2 ^ 64 -> traces_ok h b ->
  traces_ok (history_step h op) (trace_step b op).
Proof.
  intros Hn Hp Hlt Hok. destruct op as [rec req_id thread exception|note|].
  - simpl in *. rewrite zlen_app in Hlt. change (zlen [_]) with 1 in Hlt. by apply file_ok.
  - destruct Hok as [O1 O2 O3 O4 O5 O6 O7 O8 O9 O10]. simpl. unfold note_disarm.
    destruct (tb_disarms b !! note) as [n|] eqn:E;
      [|destruct (Nat.ltb_spec (size (tb_disarms b)) MAX_TRACE_DISARMS) as [Hs|Hs]]; split; simpl; try done.
    + rewrite map_size_insert, E. simpl. lia.
    + etransitivity; [apply size_insert_le|]. lia.
  - destruct Hok as [O1 O2 O3 O4 O5 O6 O7 O8 O9 O10].
    split; simpl; try done; try (by constructor); try (rewrite ?map_size_empty; lia);
      intros; match goal with H : _ ∈ [] |- _ => by apply elem_of_nil in H end.
Qed.

Lemma history_grows ops h : zlen h <= zlen (foldl history_step h ops).
Proof.
  revert h. induction ops as [|op ops IH]; intros h; [done|]. simpl. etransitivity; [|apply IH].
  destruct op; simpl; rewrite ?zlen_app; unfold zlen; simpl; lia.
Qed.

Lemma traces_new_ok : traces_ok [] traces_new.
Proof.
  split; simpl; try done; try (by constructor); try (rewrite ?map_size_empty; lia);
    intros; match goal with H : _ ∈ [] |- _ => by apply elem_of_nil in H | H : ∅ !! _ = Some _ |- _ => by rewrite lookup_empty in H end.
Qed.

Lemma trace_run_ok ops :
  Forall plain ops -> zlen (history ops) < 2 ^ 64 -> traces_ok (history ops) (trace_run ops).
Proof.
  unfold history, trace_run. generalize traces_new_ok. assert (Hn : numbered []) by done. revert Hn.
  generalize traces_new, ([] : History). induction ops as [|op ops IH]; intros b h Hn Hok Hp Hlt; [done|].
  apply list.Forall_cons in Hp as [Hp1 Hp]. simpl in *.
  pose proof (history_grows ops (history_step h op)).
  apply IH; [by apply history_step_numbered|apply trace_step_ok; [done..|lia|done]|done|done].
Qed.

Lemma sublist_full {A} (l k : list A) : l `sublist_of` k -> (length k <= length l)%nat -> l = k.
Proof.
  induction 1 as [|x l k H IH|x l k H IH]; intros Hl; simpl in *; [done|f_equal; apply IH; lia|].
  apply sublist_length in H. lia.
Qed.

(** A record leaves the buffer on a filing only as the summary it replaces or as the oldest of a full
    buffer. *)
Lemma filing_removes h b rec req_id thread exception r :
  traces_ok h b -> r ∈ tb_held b ->
  let '(kind, b') := trace_push rec req_id thread exception b in
  r ∈ tb_held b' \/
  (exists f f0, tr_rethrow r = Some f /\ kind = Rethrow f0 (Some (tr_seq r)) /\ rf_first_seq f = rf_first_seq f0) \/
  ((MAX_TRACES <= length (tb_held b'))%nat /\ exists kept, tb_held b = r :: kept).
Proof.
  intros [O1 O2 O3 O4 O5 O6 O7 O8 O9 O10] Hr. unfold trace_push.
  destruct (classify_throw _ _ _ _ _) as [kind chains] eqn:Ec. cbn [tb_held].
  set (held := match kind with Rethrow _ (Some old) => _ | _ => _ end).
  assert (Hcase : r ∈ held \/ exists f, kind = Rethrow f (Some (tr_seq r))).
  { unfold held. destruct kind as [|f [old|]]; [by left| |by left].
    destruct (decide (tr_seq r = old)) as [<-|Hne]; [right; by exists f|]. left. by apply list_elem_of_filter. }
  destruct Hcase as [Hin|[f ->]].
  - destruct (Nat.leb_spec MAX_TRACES (length held)) as [Hle|Hlt]; [|left; apply elem_of_app; by left].
    assert (Hsub : held `sublist_of` tb_held b).
    { unfold held. repeat case_match; try reflexivity. apply sublist_filter. }
    pose proof (sublist_length _ _ Hsub). assert (Heq : held = tb_held b) by (apply sublist_full; [done|lia]).
    rewrite Heq in *. destruct (tb_held b) as [|r0 kept] eqn:Eh; [by apply elem_of_nil in Hin|].
    apply elem_of_cons in Hin as [->|Hin]; [|left; apply elem_of_app; by left].
    right. right. split; [|by eexists]. simpl in *. rewrite length_app. simpl. lia.
  - right. left. assert (Hk : fst (classify_throw req_id thread exception (wrap_u 64 (tb_filed b + 1)) (tb_rethrow_chains b)) =
      Rethrow f (Some (tr_seq r))) by (by rewrite Ec).
    destruct (classify_rethrow _ _ _ _ _ _ _ Hk) as (key & c0 & _ & Hc0 & -> & Hroll).
    destruct (proj1 (O9 key c0 r Hc0 Hr)) as (f1 & Hf1 & Hfirst); [done|]. eauto.
Qed.

(** The trace buffer keeps what it says. After any filings, disarm notes and clears, the held
    records number at most 500 and carry strictly increasing sequence numbers, the last of which counts
    every filing ever made; at most 64 chains and 32 disarm notes are kept; a record that summarises
    rethrows names the first throw of its chain and counts exactly the rethrows it replaced, and a
    chain has one summary at a time; and a filing removes a record only when it replaces that chain's
    summary, or the oldest record of a full buffer, so a first throw is never folded away. *)
Theorem traces_kept (ops : list TraceOp) (rec : TraceRecord) (req_id thread : Z) (exception : option Z) :
  Forall plain ops -> zlen (history ops) < 2 ^ 64 ->
  let b := trace_run ops in
  ((length (tb_held b) <= MAX_TRACES)%nat /\ (size (tb_rethrow_chains b) <= MAX_RETHROW_CHAINS)%nat /\
   (size (tb_disarms b) <= MAX_TRACE_DISARMS)%nat) /\
  (tb_filed b = zlen (history ops) /\ StronglySorted Z.lt (map tr_seq (tb_held b))) /\
  (forall r f, r ∈ tb_held b -> tr_rethrow r = Some f -> fold_ok (history ops) (tr_seq r) f) /\
  (forall r1 r2 f1 f2, r1 ∈ tb_held b -> r2 ∈ tb_held b -> tr_rethrow r1 = Some f1 -> tr_rethrow r2 = Some f2 ->
     rf_first_seq f1 = rf_first_seq f2 -> tr_seq r1 = tr_seq r2) /\
  (forall r, r ∈ tb_held b ->
     let '(kind, b') := trace_push rec req_id thread exception b in
     r ∈ tb_held b' \/
     (exists f f0, tr_rethrow r = Some f /\ kind = Rethrow f0 (Some (tr_seq r)) /\
        rf_first_seq f = rf_first_seq f0) \/
     ((MAX_TRACES <= length (tb_held b'))%nat /\ exists kept, tb_held b = r :: kept)).
Proof.
  intros Hp Hlt b. pose proof (trace_run_ok ops Hp Hlt) as Hok. fold b in Hok.
  split_and!; try apply Hok. intros r Hr. by eapply filing_removes.
Qed.
End Traces.

(** A record for the examples: an exception thrown on a thread. *)
Definition sample_record : TraceRecord := {|
  tr_seq := 0; tr_bp_id := "ex_1"; tr_thread := 7; tr_class := "LFoo;"; tr_method := "run"; tr_line := None;
  tr_args := []; tr_captured := []; tr_callers := []; tr_expr := []; tr_detail := []; tr_rethrow := None
|}.

(** Two rethrows after a first throw leave the first record and one summary. *)
Example rethrows_fold :
  map (fun r => (tr_seq r, tr_rethrow r))
    (tb_held (trace_run (HashOrder := some_order) (repeat (File sample_record 3 7 (Some 9)) 3))) =
  [(1, None); (3, Some {| rf_collapsed := 1; rf_first_seq := 1 |})].
Proof. vm_compute. reflexivity. Qed.

Lemma traces_kept_witness :
  let ops := repeat (File sample_record 3 7 (Some 9)) 3 ++ [NoteDisarm "slow"] in
  let b := trace_run (HashOrder := some_order) ops in
  zlen (history ops) < 2 ^ 64 /\ tb_filed b = zlen (history ops).
Proof.
  intros ops b. assert (Hlt : zlen (history ops) < 2 ^ 64) by by_compute.
  assert (Hp : Forall plain ops) by (repeat constructor).
  split; [exact Hlt|].
  exact (proj1 (proj1 (proj2 (traces_kept (HashOrder := some_order) ops sample_record 3 7 None Hp Hlt)))).
Defined.
