(* ===== verification/Session.v ===== *)
(** * The session's bookkeeping of stop points ([SessionState], [PatternStopSet], [LaunchedJvm] and
      [DebugSession] of [mcp-server/src/session.rs]) *)

From S2P Require Import Prelude Protocol Types Reader Events Connection Client EventRequest StopPoint.
From S2P Require Import EventRing MonitorClock Suspensions Traces.

Definition MAX_DISARMED_TRACED : nat := 32.
Definition MAX_ARMED_LATER_SAMPLE : nat := 25.
Definition MAX_DEBUGGEE_OUTPUT : nat := 200.

(** ** Stop points, armed and pending *)

Record PendingBreakpoint : Type := {
  pb_bp_id : string;
  pb_class_prepare_request_id : Z;
  pb_class_pattern : string;
  pb_signature : string;
  pb_line : option Z;
  pb_method : option string;
  pb_hit_count : option Z;
  pb_instance_filter : option Z;
  pb_thread_filter : option Z;
  pb_condition : option string;
  pb_trace : bool;
  pb_trace_expr : list string;
  pb_trace_budget : option Z;
  pb_trace_frames : Z;
  pb_trace_max_length : option Z;
}.

Record SessionState : Type := {
  ss_stop_points : gmap string StopPoint;
  ss_pending_breakpoints : list PendingBreakpoint;
  ss_disarmed_traced_requests : list Z;
  ss_stop_seq : Z;
}.

Definition session_state_new : SessionState := {|
  ss_stop_points := ∅; ss_pending_breakpoints := []; ss_disarmed_traced_requests := []; ss_stop_seq := 0
|}.

Definition register_stop_point (sp : StopPoint) (s : SessionState) : SessionState := {|
  ss_stop_points := <[sp_id sp := sp]> (ss_stop_points s);
  ss_pending_breakpoints := ss_pending_breakpoints s;
  ss_disarmed_traced_requests := ss_disarmed_traced_requests s;
  ss_stop_seq := ss_stop_seq s
|}.

Definition resolve_pending (armed : StopPoint) (s : SessionState) : bool * SessionState :=
  let before := length (ss_pending_breakpoints s) in
  let kept := base.filter (fun p => pb_bp_id p <> sp_id armed) (ss_pending_breakpoints s) in
  let removed := negb (before =? length kept)%nat in
  (removed, register_stop_point armed {|
    ss_stop_points := ss_stop_points s;
    ss_pending_breakpoints := kept;
    ss_disarmed_traced_requests := ss_disarmed_traced_requests s;
    ss_stop_seq := ss_stop_seq s
  |}).

(** The request a stop point keeps to arm copies of its class loaded later. *)
Definition rearm_request (sp : StopPoint) : option Z :=
  l ← line sp; w ← watch (lb_rearm l); Some (rw_request_id w).

Definition owns_live_request (req_id : Z) (s : SessionState) : bool :=
  existsb (fun e => owns_request (snd e) req_id) (map_to_list (ss_stop_points s))
  || existsb (fun p => pb_class_prepare_request_id p =? req_id) (ss_pending_breakpoints s)
  || existsb (fun e => bool_decide (rearm_request (snd e) = Some req_id)) (map_to_list (ss_stop_points s)).

Definition was_traced_and_disarmed (req_id : Z) (s : SessionState) : bool :=
  bool_decide (req_id ∈ ss_disarmed_traced_requests s) && negb (owns_live_request req_id s).

Definition remember_bounded (queue : list Z) (req_id : Z) (cap : nat) : list Z :=
  if bool_decide (req_id ∈ queue) then queue
  else if (cap =? 0)%nat then queue
  else (if (cap <=? length queue)%nat then tail queue else queue) ++ [req_id].

Definition note_disarmed_traced (req_id : Z) (s : SessionState) : SessionState := {|
  ss_stop_points := ss_stop_points s;
  ss_pending_breakpoints := ss_pending_breakpoints s;
  ss_disarmed_traced_requests := remember_bounded (ss_disarmed_traced_requests s) req_id MAX_DISARMED_TRACED;
  ss_stop_seq := ss_stop_seq s
|}.

Definition next_stop_id (prefix : string) (s : SessionState) : string * SessionState :=
  let seq := wrap_u 64 (ss_stop_seq s + 1) in
  (prefix +s+ pretty seq,
   {| ss_stop_points := ss_stop_points s;
      ss_pending_breakpoints := ss_pending_breakpoints s;
      ss_disarmed_traced_requests := ss_disarmed_traced_requests s;
      ss_stop_seq := seq |}).

(** ** Stop points on a pattern of classes *)

Inductive ClassLoadWatch : Type := Watching (request : Z) | Parked | Disabled | Failed.
Definition watch_request_id (w : ClassLoadWatch) : option Z :=
  match w with Watching req => Some req | Parked | Disabled | Failed => None end.
Definition is_watching (w : ClassLoadWatch) : bool := match w with Watching _ => true | _ => false end.

Record PatternStopSet : Type := {
  ps_id : string;
  ps_class_pattern : string;
  ps_watch : ClassLoadWatch;
  ps_enabled : bool;
  ps_members : list string;
  ps_armed_later : list string;
  ps_armed_later_total : Z;
  ps_method : option string;
  ps_hit_count : option Z;
  ps_instance_filter : option Z;
  ps_thread_filter : option Z;
  ps_condition : option string;
  ps_trace : bool;
  ps_trace_expr : list string;
  ps_trace_budget : option Z;
  ps_trace_frames : Z;
  ps_trace_max_length : option Z;
  ps_max_classes : Z;
  ps_skipped_at_cap : Z;
  ps_no_method : Z;
}.

Definition has_room (p : PatternStopSet) : bool := zlen (ps_members p) <? ps_max_classes p.

Definition note_armed_later (class : string) (p : PatternStopSet) : PatternStopSet := {|
  ps_id := ps_id p; ps_class_pattern := ps_class_pattern p; ps_watch := ps_watch p; ps_enabled := ps_enabled p;
  ps_members := ps_members p;
  ps_armed_later :=
    if (length (ps_armed_later p) <? MAX_ARMED_LATER_SAMPLE)%nat then ps_armed_later p ++ [class]
    else ps_armed_later p;
  ps_armed_later_total := wrap_u 64 (ps_armed_later_total p + 1);
  ps_method := ps_method p; ps_hit_count := ps_hit_count p; ps_instance_filter := ps_instance_filter p;
  ps_thread_filter := ps_thread_filter p; ps_condition := ps_condition p; ps_trace := ps_trace p;
  ps_trace_expr := ps_trace_expr p; ps_trace_budget := ps_trace_budget p; ps_trace_frames := ps_trace_frames p;
  ps_trace_max_length := ps_trace_max_length p; ps_max_classes := ps_max_classes p;
  ps_skipped_at_cap := ps_skipped_at_cap p; ps_no_method := ps_no_method p
|}.

(** ** Ownership of requests *)

Lemma existsb_map_to_list {A} (f : string * A -> bool) (m : gmap string A) :
  existsb f (map_to_list m) = true <-> exists k a, m !! k = Some a /\ f (k, a) = true.
Proof.
  rewrite existsb_exists. split.
  - intros ([k a] & Hin & Hf). exists k, a. split; [|done]. by apply elem_of_map_to_list, list_elem_of_In.
  - intros (k & a & Hk & Hf). exists (k, a). split; [|done]. by apply list_elem_of_In, elem_of_map_to_list.
Qed.

(** A request belongs to a stop point, armed or watching for copies of its class. *)
Definition belongs (req : Z) (sp : StopPoint) : Prop := req ∈ sp_request_ids sp \/ rearm_request sp = Some req.

Lemma owns_live_request_spec req s :
  owns_live_request req s = true <->
  (exists id sp, ss_stop_points s !! id = Some sp /\ belongs req sp) \/
  (exists p, p ∈ ss_pending_breakpoints s /\ pb_class_prepare_request_id p = req).
Proof.
  unfold owns_live_request, owns_request, belongs.
  rewrite !orb_true_iff, !existsb_map_to_list, existsb_exists. setoid_rewrite bool_decide_eq_true.
  setoid_rewrite Z.eqb_eq. setoid_rewrite <- list_elem_of_In. simpl. split.
  - intros [[(k & a & ? & ?)|(p & ? & ?)]|(k & a & ? & ?)]; [left|right|left]; eauto 6.
  - intros [(k & a & ? & [?|?])|(p & ? & ?)]; eauto 8.
Qed.

(** *** The memory of disarmed requests *)

Lemma remember_bounded_ok queue req cap :
  (0 < cap)%nat -> NoDup queue -> (length queue <= cap)%nat ->
  NoDup (remember_bounded queue req cap) /\ (length (remember_bounded queue req cap) <= cap)%nat /\
  req ∈ remember_bounded queue req cap.
Proof.
  intros Hc Hn Hl. unfold remember_bounded. case_bool_decide as Hin; [done|].
  destruct (Nat.eqb_spec cap 0); [lia|]. split_and!.
  - apply list.NoDup_app. split_and!; [case_match; [by destruct queue; [|apply list.NoDup_cons in Hn as [_ Hn]]|done]| |].
    + intros x Hx ->%list_elem_of_singleton. apply Hin. case_match; [|done].
      destruct queue; [done|]. by right.
    + apply NoDup_singleton.
  - by apply (push_bounded_length cap req).
  - apply elem_of_app. right. by left.
Qed.

(** A request remembered stays so through up to 31 further requests: what is ahead of it in the queue
    leaves first. *)
Lemma remember_bounded_keeps (post ahead behind : list Z) req queue :
  queue = ahead ++ req :: behind -> NoDup queue ->
  (forall x, x ∈ behind -> x ∈ post) -> forall later,
  (length (remove_dups (post ++ later)) < MAX_DISARMED_TRACED)%nat ->
  req ∈ foldl (fun q r => remember_bounded q r MAX_DISARMED_TRACED) queue later.
Proof.
  intros Hq Hn Hb later. revert post ahead behind queue Hq Hn Hb.
  induction later as [|x later IH]; intros post ahead behind queue Hq Hn Hb Hl; cbn [foldl].
  { rewrite Hq. apply elem_of_app. right. by left. }
  assert (Hl' : (length (remove_dups ((post ++ [x]) ++ later)) < MAX_DISARMED_TRACED)%nat) by (by rewrite <- (assoc_L (++))).
  unfold remember_bounded at 2. case_bool_decide as Hin.
  { apply (IH (post ++ [x]) ahead behind); [done|done| |done].
    intros y Hy. apply elem_of_app. left. auto. }
  destruct (Nat.eqb_spec MAX_DISARMED_TRACED 0) as [H0|_]; [unfold MAX_DISARMED_TRACED in H0; lia|].
  assert (Hbehind : forall y, y ∈ behind ++ [x] -> y ∈ post ++ [x]).
  { intros y [Hy|Hy]%elem_of_app; apply elem_of_app; [left|right]; auto. }
  assert (Hnew : NoDup (queue ++ [x])).
  { apply list.NoDup_app. split_and!; [done| |apply NoDup_singleton]. by intros y Hy ->%list_elem_of_singleton. }
  destruct (Nat.leb_spec MAX_DISARMED_TRACED (length queue)) as [Hfull|_].
  2: { apply (IH (post ++ [x]) ahead (behind ++ [x])); [by rewrite Hq, <- (assoc_L (++))|done..]. }
  destruct ahead as [|a ahead].
  - exfalso. simpl in Hq. subst queue.
    assert (Hd : NoDup (behind ++ [x])) by (simpl in Hnew; by apply list.NoDup_cons in Hnew as [_ Hnew]).
    assert (Hle : (length (behind ++ [x]) <= length (remove_dups ((post ++ [x]) ++ later)))%nat).
    { apply submseteq_length, NoDup_submseteq; [done|]. intros y Hy. apply elem_of_remove_dups, elem_of_app. left. auto. }
    rewrite length_app in Hle. simpl in Hfull, Hle. lia.
  - subst queue. simpl. apply (IH (post ++ [x]) ahead (behind ++ [x])); [by rewrite <- (assoc_L (++))| |done|done].
    simpl in Hnew. by apply list.NoDup_cons in Hnew as [_ Hnew].
Qed.

(** The requests noted so far, over any state. *)
Definition note_all (reqs : list Z) (s : SessionState) : SessionState := foldl (fun s r => note_disarmed_traced r s) s reqs.

Lemma note_all_queue reqs s :
  ss_disarmed_traced_requests (note_all reqs s) =
  foldl (fun q r => remember_bounded q r MAX_DISARMED_TRACED) (ss_disarmed_traced_requests s) reqs /\
  ss_stop_points (note_all reqs s) = ss_stop_points s /\
  ss_pending_breakpoints (note_all reqs s) = ss_pending_breakpoints s.
Proof. unfold note_all. revert s. induction reqs as [|r reqs IH]; intros s; [done|]. cbn [foldl].
  by destruct (IH (note_disarmed_traced r s)) as (-> & -> & ->).
Qed.

Lemma remember_all_ok reqs queue :
  NoDup queue -> (length queue <= MAX_DISARMED_TRACED)%nat ->
  let q := foldl (fun q r => remember_bounded q r MAX_DISARMED_TRACED) queue reqs in
  NoDup q /\ (length q <= MAX_DISARMED_TRACED)%nat.
Proof.
  revert queue. induction reqs as [|r reqs IH]; intros queue Hn Hl; [done|]. cbn [foldl].
  destruct (remember_bounded_ok queue r MAX_DISARMED_TRACED) as (H1 & H2 & _); [unfold MAX_DISARMED_TRACED; lia|done..|].
  by apply IH.
Qed.

(** A late event of a disarmed trace is recognised, and only such an event. Whatever requests a
    session notes as disarmed, it remembers at most 32, none twice; a request noted for the first time
    is recognised from then on, at least until 32 other requests have been noted after it; and a request
    that a stop point holds, that a stop point watches for later copies of its class, or that a pending
    breakpoint waits on is never taken for a disarmed one, so a live breakpoint always suspends. *)
Theorem disarmed_recognised (s : SessionState) (req : Z) (later : list Z) :
  NoDup (ss_disarmed_traced_requests s) -> (length (ss_disarmed_traced_requests s) <= MAX_DISARMED_TRACED)%nat ->
  req ∉ ss_disarmed_traced_requests s ->
  let s' := note_all (req :: later) s in
  (NoDup (ss_disarmed_traced_requests s') /\ (length (ss_disarmed_traced_requests s') <= MAX_DISARMED_TRACED)%nat) /\
  ((length (remove_dups later) < MAX_DISARMED_TRACED)%nat ->
   was_traced_and_disarmed req s' = negb (owns_live_request req s)) /\
  (forall r, was_traced_and_disarmed r s' = true -> r ∈ ss_disarmed_traced_requests s' /\
     (forall id sp, ss_stop_points s !! id = Some sp -> ~ belongs r sp) /\
     (forall p, p ∈ ss_pending_breakpoints s -> pb_class_prepare_request_id p <> r)).
Proof.
  intros Hn Hl Hnew s'. destruct (note_all_queue (req :: later) s) as (Hq & Hsp & Hpb). fold s' in Hq, Hsp, Hpb.
  assert (Howns : forall r, owns_live_request r s' = owns_live_request r s).
  { intros r. unfold owns_live_request. by rewrite Hsp, Hpb. }
  split_and!.
  - rewrite Hq. by apply remember_all_ok.
  - rewrite Hq. by apply remember_all_ok.
  - intros Hlater. unfold was_traced_and_disarmed. rewrite Howns, bool_decide_eq_true_2; [done|].
    rewrite Hq. cbn [foldl]. unfold remember_bounded at 2. rewrite bool_decide_eq_false_2 by done.
    apply (remember_bounded_keeps []
      (if (MAX_DISARMED_TRACED <=? length (ss_disarmed_traced_requests s))%nat
       then tail (ss_disarmed_traced_requests s) else ss_disarmed_traced_requests s) []); [done| | |done].
    + destruct (remember_bounded_ok (ss_disarmed_traced_requests s) req MAX_DISARMED_TRACED) as (H1 & _); [|done..|].
      { unfold MAX_DISARMED_TRACED; lia. }
      unfold remember_bounded in H1. by rewrite bool_decide_eq_false_2 in H1.
    + by intros x ?%elem_of_nil.
  - intros r [Hin Ho]%andb_true_iff. apply bool_decide_eq_true in Hin. rewrite Howns in Ho.
    apply negb_true_iff, not_true_iff_false in Ho. rewrite owns_live_request_spec in Ho.
    split_and!; [done| |]; [intros id sp Hs Hb|intros p Hp Hr]; apply Ho; [left|right]; eauto.
Qed.

Lemma disarmed_recognised_witness :
  let s := session_state_new in
  let s' := note_all (7 :: [3; 9]) s in
  was_traced_and_disarmed 7 s' = negb (owns_live_request 7 s).
Proof.
  intros s s'. refine (proj1 (proj2 (disarmed_recognised s 7 [3; 9] _ _ _)) _); by_compute.
Defined.

(** Resolving a pending breakpoint replaces it by the armed stop point: the stop point is
    registered under its id and no other changes, exactly the pending entries of that id go, the rest
    keep their order, the answer says whether there was one; and a request is owned afterwards exactly
    when the armed stop point has it, or a stop point of another id, or a pending entry of another id. *)
Theorem pending_resolved (armed : StopPoint) (s : SessionState) :
  let '(removed, s') := resolve_pending armed s in
  ss_stop_points s' = <[sp_id armed := armed]> (ss_stop_points s) /\
  ss_pending_breakpoints s' = base.filter (fun p => pb_bp_id p <> sp_id armed) (ss_pending_breakpoints s) /\
  (removed = true <-> exists p, p ∈ ss_pending_breakpoints s /\ pb_bp_id p = sp_id armed) /\
  (forall req, owns_live_request req s' = true <->
     belongs req armed \/
     (exists id sp, id <> sp_id armed /\ ss_stop_points s !! id = Some sp /\ belongs req sp) \/
     (exists p, p ∈ ss_pending_breakpoints s /\ pb_bp_id p <> sp_id armed /\ pb_class_prepare_request_id p = req)).
Proof.
  unfold resolve_pending. set (kept := base.filter _ _). split_and!; [done|done| |].
  - rewrite negb_true_iff, Nat.eqb_neq. split.
    + intros Hne. destruct (decide (Exists (fun p => pb_bp_id p = sp_id armed) (ss_pending_breakpoints s))) as [He|He].
      * apply list.Exists_exists in He. naive_solver.
      * exfalso. apply Hne. f_equal. symmetry. unfold kept.
        apply not_Exists_Forall in He; [|apply _]. clear Hne kept.
        induction He as [|p l Hp Hl IH]; [done|]. rewrite filter_cons_True by done. by rewrite IH.
    + intros (p & Hp & Hid) Heq.
      assert (Hs : kept `sublist_of` ss_pending_breakpoints s) by apply sublist_filter.
      assert (Hk : kept = ss_pending_breakpoints s) by (apply sublist_full; [done|lia]).
      rewrite <- Hk in Hp. by apply list_elem_of_filter in Hp as [? _].
  - intros req. rewrite owns_live_request_spec. simpl. split.
    + intros [(id & sp & Hl & Hb)|(p & Hp & Hr)].
      * destruct (decide (id = sp_id armed)) as [->|Hne].
        -- rewrite lookup_insert_eq in Hl. injection Hl as <-. by left.
        -- rewrite lookup_insert_ne in Hl by done. right. left. eauto.
      * apply list_elem_of_filter in Hp as [? ?]. eauto 6.
    + intros [Hb|[(id & sp & Hne & Hl & Hb)|(p & Hp & Hid & Hr)]].
      * left. exists (sp_id armed), armed. by rewrite lookup_insert_eq.
      * left. exists id, sp. by rewrite lookup_insert_ne.
      * right. exists p. split; [|done]. by apply list_elem_of_filter.
Qed.
