(* ===== verification/Manager.v ===== *)
(** * Sessions ([DebugSession] and [SessionManager] of [mcp-server/src/session.rs])

    The sessions of the server: objects shared by reference, a map from ids to them, and the current
    id. Each method is taken as one step; its two lock sections are not interleaved with others'. *)

From S2P Require Import Prelude Protocol Types Reader Events Connection Client EventRequest StopPoint.
From S2P Require Import EventRing MonitorClock Suspensions Traces Session.

(** A spawned task, as far as the server looks at it. *)
Record JoinHandle : Type := { jh_is_finished : bool }.

Inductive EventPump : Type := Running | Ended | Unstarted.

(** A debuggee the server launched; [None] stands for a poisoned output lock. *)
Record LaunchedJvm : Type := {
  lj_pid : option Z;
  lj_command : string;
  lj_output : option (list string);
  lj_detach_on_disconnect : bool;
}.

Definition launched_tail (n : nat) (l : LaunchedJvm) : list string :=
  match lj_output l with
  | None => []
  | Some buf => drop (length buf - n) buf
  end.

Record DebugSession : Type := {
  ds_connection : World;
  ds_endpoint : string;
  ds_state : SessionState;
  ds_events : EventRing;
  ds_event_listener_task : option JoinHandle;
  ds_last_thread : option Z;
  ds_pending_step : option (Z * Z);
  ds_suspensions : Suspensions;
  ds_watchdog_task : option JoinHandle;
  ds_traces : TraceBuffer;
  ds_read_only : bool;
  ds_source_roots : list string;
  ds_class_roots : list string;
  ds_trace_exprs : list string;
  ds_step_exclude_classes : option (list string);
  ds_step_only_classes : option (list string);
  ds_redefinitions : Redefinitions;
  ds_pattern_sets : gmap string PatternStopSet;
  ds_launched : option LaunchedJvm;
  ds_monitor_clock : MonitorClock;
}.

Definition event_pump (s : DebugSession) : EventPump :=
  match ds_event_listener_task s with
  | None => Unstarted
  | Some task => if jh_is_finished task then Ended else Running
  end.

Record SessionSeed : Type := {
  seed_read_only : bool;
  seed_source_roots : list string;
  seed_class_roots : list string;
  seed_trace_exprs : list string;
  seed_step_exclude_classes : option (list string);
  seed_step_only_classes : option (list string);
}.

(** The session object [create_session] makes. *)
Definition new_session (connection : World) (endpoint : string) (seed : SessionSeed) : DebugSession := {|
  ds_connection := connection;
  ds_endpoint := endpoint;
  ds_state := session_state_new;
  ds_events := ring_new;
  ds_event_listener_task := None;
  ds_last_thread := None;
  ds_pending_step := None;
  ds_suspensions := suspensions_new;
  ds_watchdog_task := None;
  ds_traces := traces_new;
  ds_read_only := seed_read_only seed;
  ds_source_roots := seed_source_roots seed;
  ds_class_roots := seed_class_roots seed;
  ds_trace_exprs := seed_trace_exprs seed;
  ds_step_exclude_classes := seed_step_exclude_classes seed;
  ds_step_only_classes := seed_step_only_classes seed;
  ds_redefinitions := redefinitions_new;
  ds_pattern_sets := ∅;
  ds_launched := None;
  ds_monitor_clock := clock_new
|}.

(** Both background tasks taken out of the session and aborted. *)
Definition abort_tasks (s : DebugSession) : DebugSession := {|
  ds_connection := ds_connection s; ds_endpoint := ds_endpoint s; ds_state := ds_state s;
  ds_events := ds_events s; ds_event_listener_task := None; ds_last_thread := ds_last_thread s;
  ds_pending_step := ds_pending_step s; ds_suspensions := ds_suspensions s; ds_watchdog_task := None;
  ds_traces := ds_traces s; ds_read_only := ds_read_only s; ds_source_roots := ds_source_roots s;
  ds_class_roots := ds_class_roots s; ds_trace_exprs := ds_trace_exprs s;
  ds_step_exclude_classes := ds_step_exclude_classes s; ds_step_only_classes := ds_step_only_classes s;
  ds_redefinitions := ds_redefinitions s; ds_pattern_sets := ds_pattern_sets s; ds_launched := ds_launched s;
  ds_monitor_clock := ds_monitor_clock s
|}.

(** ** The manager

    A session object lives at an address of the store, which every clone of its [Arc] shares; the map
    holds addresses. [mg_counter] is the process-wide counter of [uuid::v4]. *)

Record Manager : Type := {
  mg_store : gmap nat DebugSession;
  mg_next : nat;
  mg_sessions : gmap string nat;
  mg_current : option string;
  mg_counter : Z;
}.

Definition manager_new : Manager :=
  {| mg_store := ∅; mg_next := 0; mg_sessions := ∅; mg_current := None; mg_counter := 1 |}.

(** [uuid::v4] at the given time in milliseconds. *)
Definition v4 (timestamp counter : Z) : string := show_hex timestamp +s+ show_hex counter.

Definition create_session (connection : World) (endpoint : string) (seed : SessionSeed) (timestamp : Z)
    (m : Manager) : string * Manager :=
  let session_id := "session_" +s+ v4 timestamp (mg_counter m) in
  (session_id, {|
    mg_store := <[mg_next m := new_session connection endpoint seed]> (mg_store m);
    mg_next := S (mg_next m);
    mg_sessions := <[session_id := mg_next m]> (mg_sessions m);
    mg_current := Some session_id;
    mg_counter := wrap_u 64 (mg_counter m + 1)
  |}).

Definition get_session_by_id (session_id : string) (m : Manager) : option nat := mg_sessions m !! session_id.
Definition get_current_session_id (m : Manager) : option string := mg_current m.
Definition get_current_session (m : Manager) : option nat :=
  match mg_current m with
  | Some session_id => mg_sessions m !! session_id
  | None => None
  end.

(** [String]'s order: bytes, lexicographically. *)
Fixpoint bytes_le (a b : bytes) : bool :=
  match a, b with
  | [], _ => true
  | _ :: _, [] => false
  | x :: a, y :: b => (x <? y) || ((x =? y) && bytes_le a b)
  end.
Definition id_le (a b : string * nat) : Prop := bytes_le (bytes_of_string (fst a)) (bytes_of_string (fst b)) = true.
#[global] Instance id_le_dec (a b : string * nat) : Decision (id_le a b).
Proof. unfold id_le. apply _. Defined.

Definition list_sessions (m : Manager) : list (string * nat) * option string :=
  (merge_sort id_le (map_to_list (mg_sessions m)), mg_current m).

Definition make_current (session_id : string) (m : Manager) : option string * Manager :=
  (mg_current m,
   {| mg_store := mg_store m; mg_next := mg_next m; mg_sessions := mg_sessions m;
      mg_current := Some session_id; mg_counter := mg_counter m |}).

Definition remove_session (session_id : string) (m : Manager) : Manager := {|
  mg_store :=
    match mg_sessions m !! session_id with
    | Some address => alter abort_tasks address (mg_store m)
    | None => mg_store m
    end;
  mg_next := mg_next m;
  mg_sessions := delete session_id (mg_sessions m);
  mg_current := if decide (mg_current m = Some session_id) then None else mg_current m;
  mg_counter := mg_counter m
|}.

(** ** Ids *)

Lemma bytes_le_total a b : bytes_le a b = true \/ bytes_le b a = true.
Proof.
  revert b. induction a as [|x a IH]; intros [|y b]; simpl; auto.
  destruct (Z.lt_trichotomy x y) as [H|[->|H]].
  - left. apply orb_true_iff. left. by apply Z.ltb_lt.
  - rewrite Z.eqb_refl, !orb_true_iff, !andb_true_iff. destruct (IH b); auto.
  - right. apply orb_true_iff. left. by apply Z.ltb_lt.
Qed.

Lemma bytes_le_trans a b c : bytes_le a b = true -> bytes_le b c = true -> bytes_le a c = true.
Proof.
  revert b c. induction a as [|x a IH]; intros [|y b] [|z c]; simpl; try done.
  rewrite !orb_true_iff, !andb_true_iff, !Z.ltb_lt, !Z.eqb_eq.
  intros [H1|[-> H1]] [H2|[-> H2]]; [left; lia|by left|by left|right; by eauto].
Qed.

#[global] Instance id_le_total : Total id_le.
Proof. intros a b. apply bytes_le_total. Qed.
#[global] Instance id_le_trans : Transitive id_le.
Proof. intros a b c. apply bytes_le_trans. Qed.

Lemma hex_digit_inj d e : 0 <= d < 16 -> 0 <= e < 16 -> hex_digit false d = hex_digit false e -> d = e.
Proof.
  intros Hd He H. unfold hex_digit in H.
  apply (f_equal byte_of_ascii) in H. revert H.
  destruct (Z.ltb_spec d 10), (Z.ltb_spec e 10); rewrite !byte_of_ascii_of_byte by lia; lia.
Qed.

Lemma hex_digits_inj n x y :
  hex_digits false n x = hex_digits false n y -> x mod 16 ^ Z.of_nat n = y mod 16 ^ Z.of_nat n.
Proof.
  revert x y. induction n as [|n IH]; intros x y H; [by rewrite !Z.mod_1_r|].
  cbn [hex_digits] in H. apply (f_equal bytes_of_string) in H. rewrite !bytes_of_string_app in H.
  apply app_inj_2 in H as [H1 H2]; [|done]. apply bytes_of_string_inj, IH in H1.
  apply bytes_of_string_inj in H2. injection H2 as H2.
  apply hex_digit_inj in H2; [|apply Z.mod_pos_bound; lia..].
  rewrite Nat2Z.inj_succ, Z.pow_succ_r by lia. rewrite !Z.rem_mul_r by lia. by rewrite H1, H2.
Qed.

Lemma show_hex_inj x y : 0 <= x -> 0 <= y -> show_hex x = show_hex y -> x = y.
Proof.
  intros Hx Hy H. unfold show_hex in H.
  assert (Hl : hex_len x = hex_len y).
  { apply (f_equal (fun s => length (bytes_of_string s))) in H. by rewrite !hex_digits_length in H. }
  pose proof (hex_len_bound x Hx). pose proof (hex_len_bound y Hy). rewrite Hl in *.
  apply hex_digits_inj in H. rewrite !Z.mod_small in H; lia.
Qed.

(** Timestamps between September 2004 and the year 2527 have eleven hexadecimal digits. *)
Definition plausible_time (t : Z) : Prop := 2 ^ 40 <= t < 2 ^ 44.

Lemma plausible_len t : plausible_time t -> hex_len t = 11%nat.
Proof.
  intros Ht. unfold plausible_time in Ht. unfold hex_len. rewrite (Z.max_r 1 t) by lia.
  assert (Hl : 40 <= Z.log2 t < 44).
  { split; [apply Z.log2_le_pow2; lia|apply Z.log2_lt_pow2; lia]. }
  assert (Z.log2 t / 4 = 10) by (symmetry; apply (Z.div_unique _ _ _ (Z.log2 t - 40)); lia). lia.
Qed.

Lemma v4_inj t t' c c' :
  plausible_time t -> plausible_time t' -> 0 <= c -> 0 <= c' -> v4 t c = v4 t' c' -> t = t' /\ c = c'.
Proof.
  intros Ht Ht' Hc Hc' H. unfold v4 in H. apply (f_equal bytes_of_string) in H. rewrite !bytes_of_string_app in H.
  apply app_inj_1 in H as [H1 H2].
  - unfold plausible_time in *.
    split; apply show_hex_inj; try lia; by apply bytes_of_string_inj.
  - unfold show_hex. by rewrite !hex_digits_length, !plausible_len.
Qed.

(** ** Histories *)

Inductive ManagerOp : Type :=
| CreateSession (connection : World) (endpoint : string) (seed : SessionSeed) (timestamp : Z)
| RemoveSession (session_id : string)
| SelectSession (session_id : string)
| Work (address : nat) (f : DebugSession -> DebugSession).

Definition manager_step (m : Manager) (op : ManagerOp) : Manager :=
  match op with
  | CreateSession connection endpoint seed timestamp => snd (create_session connection endpoint seed timestamp m)
  | RemoveSession session_id => remove_session session_id m
  | SelectSession session_id => snd (make_current session_id m)
  | Work address f =>
    {| mg_store := alter f address (mg_store m); mg_next := mg_next m; mg_sessions := mg_sessions m;
       mg_current := mg_current m; mg_counter := mg_counter m |}
  end.

(** The clock reads a plausible time, the process-wide counter has not wrapped, and a session is
    selected by a caller that found it live. *)
Definition manager_allows (m : Manager) (op : ManagerOp) : Prop :=
  match op with
  | CreateSession _ _ _ timestamp => plausible_time timestamp /\ mg_counter m < 2 ^ 64 - 1
  | SelectSession session_id => is_Some (mg_sessions m !! session_id)
  | _ => True
  end.

Inductive manager_reachable : Manager -> Prop :=
| reach_new : manager_reachable manager_new
| reach_step m op : manager_reachable m -> manager_allows m op -> manager_reachable (manager_step m op).

Definition issued_id (counter : Z) (id : string) : Prop :=
  exists t c, plausible_time t /\ 1 <= c < counter /\ id = "session_" +s+ v4 t c.

Record manager_ok (m : Manager) : Prop := {
  mo_counter : 1 <= mg_counter m;
  mo_current id : mg_current m = Some id -> is_Some (mg_sessions m !! id);
  mo_stored id a : mg_sessions m !! id = Some a -> (a < mg_next m)%nat /\ is_Some (mg_store m !! a);
  mo_own id id' a : mg_sessions m !! id = Some a -> mg_sessions m !! id' = Some a -> id = id';
  mo_issued id a : mg_sessions m !! id = Some a -> issued_id (mg_counter m) id;
}.

Lemma string_app_inj_l a b c : a +s+ b = a +s+ c -> b = c.
Proof.
  intros H. apply (f_equal bytes_of_string) in H. rewrite !bytes_of_string_app in H.
  by apply app_inv_head, bytes_of_string_inj in H.
Qed.

(** The next id was never issued. *)
Lemma create_fresh m timestamp :
  manager_ok m -> plausible_time timestamp -> mg_sessions m !! ("session_" +s+ v4 timestamp (mg_counter m)) = None.
Proof.
  intros [H1 H2 H3 H4 H5] Ht. destruct (mg_sessions m !! _) as [a|] eqn:E; [|done]. exfalso.
  destruct (H5 _ _ E) as (t & c & Hp & Hc & He). apply string_app_inj_l, v4_inj in He as [_ He]; [lia|done|done|lia..].
Qed.

Lemma lookup_create m timestamp id (address : nat) :
  manager_ok m -> plausible_time timestamp ->
  <["session_" +s+ v4 timestamp (mg_counter m) := mg_next m]> (mg_sessions m) !! id = Some address ->
  (id = "session_" +s+ v4 timestamp (mg_counter m) /\ address = mg_next m) \/
  (mg_sessions m !! id = Some address /\ (address < mg_next m)%nat).
Proof.
  intros Hok Ht H. apply lookup_insert_Some in H as [[<- <-]|[Hne H]]; [by left|right].
  split; [done|]. by destruct (mo_stored _ Hok _ _ H).
Qed.

Lemma create_ok m connection endpoint seed timestamp :
  manager_ok m -> plausible_time timestamp -> mg_counter m < 2 ^ 64 - 1 ->
  manager_ok (snd (create_session connection endpoint seed timestamp m)).
Proof.
  intros Hok Ht Hlt. pose proof (lookup_create m timestamp) as Hl. destruct Hok as [H1 H2 H3 H4 H5] eqn:E. clear E.
  assert (Hc : wrap_u 64 (mg_counter m + 1) = mg_counter m + 1) by (apply wrap_u_id; unfold in_u; lia).
  split; simpl; rewrite ?Hc.
  - lia.
  - intros id [= <-]. by rewrite lookup_insert_eq.
  - intros id a H. destruct (Hl _ _ Hok Ht H) as [[-> ->]|[H' Ha]].
    + split; [lia|]. by rewrite lookup_insert_eq.
    + split; [lia|]. rewrite lookup_insert_ne by lia. by apply (H3 id a).
  - intros id id' a Ha Ha'. destruct (Hl _ _ Hok Ht Ha) as [[-> ->]|[Hb Hb1]],
      (Hl _ _ Hok Ht Ha') as [[-> Hc1]|[Hc0 Hc1]]; subst; try lia; [done|by eapply H4].
  - intros id a H. destruct (Hl _ _ Hok Ht H) as [[-> ->]|[H' Ha]].
    + exists timestamp, (mg_counter m). split_and!; [done|lia|lia|done].
    + destruct (H5 _ _ H') as (t & c & Hp & Hcr & ->). exists t, c. split_and!; [done|lia|lia|done].
Qed.

Lemma alter_is_Some {A} (f : A -> A) (i j : nat) (st : gmap nat A) : is_Some (st !! j) -> is_Some (alter f i st !! j).
Proof.
  intros [a Ha]. destruct (decide (i = j)) as [->|Hne].
  - rewrite lookup_alter_eq, Ha. by eexists.
  - rewrite lookup_alter_ne by done. by eexists.
Qed.

Lemma remove_ok m id : manager_ok m -> manager_ok (remove_session id m).
Proof.
  intros [H1 H2 H3 H4 H5]. split; simpl; [done|..].
  - intros id'. case_decide as Hd; [done|]. intros Hc. rewrite lookup_delete_ne by congruence. by apply H2.
  - intros id' a [_ Ha]%lookup_delete_Some. destruct (H3 _ _ Ha) as [Hlt Hs]. split; [done|].
    case_match; [by apply alter_is_Some|done].
  - intros id1 id2 a [_ Ha]%lookup_delete_Some [_ Hb]%lookup_delete_Some. by eapply H4.
  - intros id' a [_ Ha]%lookup_delete_Some. by eapply H5.
Qed.

Lemma reachable_ok m : manager_reachable m -> manager_ok m.
Proof.
  induction 1 as [|m op _ IH Hallow].
  - split; simpl; try done; intros *; by rewrite lookup_empty.
  - destruct op as [connection endpoint seed timestamp|id|id|address f]; simpl in *.
    + destruct Hallow. by apply create_ok.
    + by apply remove_ok.
    + destruct IH as [H1 H2 H3 H4 H5]. split; simpl; try done. by intros id' [= <-].
    + destruct IH as [H1 H2 H3 H4 H5]. split; simpl; try done.
      intros id a Ha. destruct (H3 _ _ Ha). split; [done|]. by apply alter_is_Some.
Qed.

(** The server's sessions. After any creations, removals, selections of a live session and work
    inside sessions: the current session is live, or there is none; no two ids share a session object; a
    new session gets an id no live session has, becomes current, starts from its seed and disturbs no
    other; removing a session leaves the others and their objects alone, makes no other session current
    and takes both background tasks out of the removed object, which its other holders still see; and
    the listing is every live session once, in the order of the ids. *)
Theorem sessions_managed (m : Manager) :
  manager_reachable m ->
  (match get_current_session_id m with
   | Some id => exists a, get_session_by_id id m = Some a /\ get_current_session m = Some a /\ is_Some (mg_store m !! a)
   | None => get_current_session m = None
   end) /\
  (forall id id' a, get_session_by_id id m = Some a -> get_session_by_id id' m = Some a -> id = id') /\
  (forall connection endpoint seed timestamp, plausible_time timestamp ->
     let '(id, m') := create_session connection endpoint seed timestamp m in
     get_session_by_id id m = None /\
     (exists a, get_current_session m' = Some a /\ mg_store m' !! a = Some (new_session connection endpoint seed) /\
        (forall b, b <> a -> mg_store m' !! b = mg_store m !! b)) /\
     (forall id', id' <> id -> get_session_by_id id' m' = get_session_by_id id' m)) /\
  (forall id, let m' := remove_session id m in
     get_session_by_id id m' = None /\
     (forall id', id' <> id -> get_session_by_id id' m' = get_session_by_id id' m /\
        forall a, get_session_by_id id' m = Some a -> mg_store m' !! a = mg_store m !! a) /\
     get_current_session_id m' = (if decide (get_current_session_id m = Some id) then None else get_current_session_id m) /\
     (forall a, get_session_by_id id m = Some a -> mg_store m' !! a = abort_tasks <$> mg_store m !! a)) /\
  (let '(rows, current) := list_sessions m in
     rows ≡ₚ map_to_list (mg_sessions m) /\ StronglySorted id_le rows /\ current = get_current_session_id m).
Proof.
  intros Hr%reachable_ok. pose proof (create_fresh m) as Hfresh. destruct Hr as [H1 H2 H3 H4 H5] eqn:E. clear E.
  unfold get_session_by_id, get_current_session, get_current_session_id. split_and!.
  - destruct (mg_current m) as [id|]; [|done]. destruct (H2 id eq_refl) as [a Ha]. exists a.
    split_and!; [done|done|]. by apply (H3 id a).
  - done.
  - intros connection endpoint seed timestamp Ht. simpl. split_and!; [by apply Hfresh| |].
    + exists (mg_next m). rewrite !lookup_insert_eq. split_and!; [done|done|]. intros b Hb. by rewrite lookup_insert_ne.
    + intros id' Hne. by rewrite lookup_insert_ne.
  - intros id. simpl. split_and!; [apply lookup_delete_eq| |done|].
    + intros id' Hne. rewrite lookup_delete_ne by done. split; [done|]. intros a Ha.
      destruct (mg_sessions m !! id) as [b|] eqn:Eb; [|done]. rewrite lookup_alter_ne; [done|].
      intros ->. apply Hne. by eapply H4.
    + intros a Ha. rewrite Ha. apply lookup_alter_eq.
  - simpl. split_and!; [apply merge_sort_Permutation|apply StronglySorted_merge_sort; apply _|done].
Qed.

Definition sample_seed : SessionSeed := {|
  seed_read_only := true; seed_source_roots := []; seed_class_roots := []; seed_trace_exprs := [];
  seed_step_exclude_classes := None; seed_step_only_classes := None
|}.
Definition sample_manager : Manager :=
  manager_step (manager_step manager_new (CreateSession world_init "a:1" sample_seed (2 ^ 40)))
    (CreateSession world_init "b:2" sample_seed (2 ^ 40 + 9)).

Lemma sessions_managed_witness :
  manager_reachable sample_manager /\
  match get_current_session_id sample_manager with
  | Some id => exists a, get_session_by_id id sample_manager = Some a /\
      get_current_session sample_manager = Some a /\ is_Some (mg_store sample_manager !! a)
  | None => get_current_session sample_manager = None
  end.
Proof.
  assert (H : manager_reachable sample_manager).
  { apply reach_step; [apply reach_step; [apply reach_new|]|]; (split; [split|]; vm_compute; done || discriminate). }
  split; [exact H|]. exact (proj1 (sessions_managed sample_manager H)).
Defined.
