(* ===== verification/Generics.v ===== *)
(** * Generic signatures ([mcp-server/src/generics.rs])

    The renderer of JVM generic signatures as Java source. Two grammars are paired with the Java text of
    each production: what the renderer reads ([TypeSig], [MethodSig]: it answers exactly these strings,
    with exactly that text), and the narrower grammar of JVMS 4.7.9.1 ([JType], [JMethod]), all of which
    it reads but for a type parameter without any bound that another one follows.

    A [Cursor] is what is left of its input. The functions recurse on fuel; what they consume bounds
    it, which [type_complete] makes precise. *)

From S2P Require Import Prelude.

(** ** [String::from_utf8_lossy]

    Every maximal invalid piece becomes U+FFFD. *)

Definition REPLACEMENT : bytes := [239; 191; 189].

Fixpoint lossy_pieces (fuel : nat) (bs : bytes) : bytes :=
  match fuel with
  | O => bs
  | S fuel =>
    match utf8_check 0 bs with
    | None => bs
    | Some (pos, None) => take (Z.to_nat pos) bs ++ REPLACEMENT
    | Some (pos, Some n) =>
      take (Z.to_nat pos) bs ++ REPLACEMENT ++ lossy_pieces fuel (drop (Z.to_nat (pos + n)) bs)
    end
  end.
Definition from_utf8_lossy (bs : bytes) : string := string_of_bytes (lossy_pieces (length bs) bs).

Lemma from_utf8_lossy_valid s : is_string s -> from_utf8_lossy (bytes_of_string s) = s.
Proof.
  intros Hs. unfold from_utf8_lossy. transitivity (string_of_bytes (bytes_of_string s)); [|apply string_of_bytes_of_string].
  f_equal. destruct (length (bytes_of_string s)); [done|]. cbn [lossy_pieces]. by rewrite Hs.
Qed.

(** ** The cursor *)

Abbreviation ch a := (byte_of_ascii a%char).

Definition peek (c : bytes) : option Z := head c.

(** What is left after eating [b], if [b] is next. *)
Definition eat (b : Z) (c : bytes) : option bytes :=
  match c with x :: c => if x =? b then Some c else None | [] => None end.

Fixpoint span_until (stop : list Z) (c : bytes) : bytes * bytes :=
  match c with
  | [] => ([], [])
  | x :: r => if bool_decide (x ∈ stop) then ([], c) else let '(name, r) := span_until stop r in (x :: name, r)
  end.

Definition ident (stop : list Z) (c : bytes) : option (string * bytes) :=
  let '(name, c) := span_until stop c in
  match name with [] => None | _ => Some (from_utf8_lossy name, c) end.

(** ** The renderer *)

Definition base_type (c : Z) : option string :=
  if c =? ch "B" then Some "byte"
  else if c =? ch "C" then Some "char"
  else if c =? ch "D" then Some "double"
  else if c =? ch "F" then Some "float"
  else if c =? ch "I" then Some "int"
  else if c =? ch "J" then Some "long"
  else if c =? ch "S" then Some "short"
  else if c =? ch "Z" then Some "boolean"
  else if c =? ch "V" then Some "void"
  else None.

(** What ends the name of a class segment. *)
Definition class_stops : list Z := [ch "<"; ch ";"; ch "."].

(** [str::replace('/', ".")]. *)
Definition slashes_to_dots (s : string) : string :=
  string_of_bytes (map (fun b => if b =? ch "/" then ch "." else b) (bytes_of_string s)).

Fixpoint repeat_str (s : string) (n : nat) : string :=
  match n with O => "" | S n => s +s+ repeat_str s n end.

(** [slice::join]. *)
Fixpoint join (sep : string) (l : list string) : string :=
  match l with
  | [] => ""
  | [s] => s
  | s :: l => s +s+ sep +s+ join sep l
  end.

(** The leading brackets of a type, at most 255. *)
Fixpoint brackets (dims : nat) (c : bytes) : option (nat * bytes) :=
  match c with
  | x :: r =>
    if x =? ch "[" then (if (255 <? S dims)%nat then None else brackets (S dims) r)
    else Some (dims, c)
  | [] => Some (dims, c)
  end.

Fixpoint type_sig (fuel : nat) (c : bytes) : option (string * bytes) :=
  match fuel with
  | O => None
  | S fuel =>
    '(dims, c) ← brackets 0 c;
    b ← peek c;
    '(base, c) ← (
      if b =? ch "L" then class_type fuel c
      else if b =? ch "T" then
        '(name, c) ← ident [ch ";"] (tail c);
        c ← eat (ch ";") c;
        Some (name, c)
      else
        name ← base_type b;
        Some (name, tail c));
    Some (base +s+ repeat_str "[]" dims, c)
  end
with class_type (fuel : nat) (c : bytes) : option (string * bytes) :=
  match fuel with
  | O => None
  | S fuel => c ← eat (ch "L") c; class_segments fuel "" c
  end
with class_segments (fuel : nat) (out : string) (c : bytes) : option (string * bytes) :=
  match fuel with
  | O => None
  | S fuel =>
    '(name, c) ← ident class_stops c;
    let out := if decide (out = "") then out else out +s+ "." in
    let out := out +s+ slashes_to_dots name in
    '(out, c) ← (
      if decide (peek c = Some (ch "<")) then
        '(args, c) ← type_arguments fuel c;
        Some (out +s+ args, c)
      else Some (out, c));
    match eat (ch ";") c with
    | Some c => Some (out, c)
    | None => c ← eat (ch ".") c; class_segments fuel out c
    end
  end
with type_arguments (fuel : nat) (c : bytes) : option (string * bytes) :=
  match fuel with
  | O => None
  | S fuel =>
    c ← eat (ch "<") c;
    '(args, c) ← arguments fuel [] c;
    c ← eat (ch ">") c;
    match args with
    | [] => None
    | _ => Some ("<" +s+ join ", " args +s+ ">", c)
    end
  end
with arguments (fuel : nat) (args : list string) (c : bytes) : option (list string * bytes) :=
  match fuel with
  | O => None
  | S fuel =>
    b ← peek c;
    if b =? ch ">" then Some (args, c)
    else if b =? ch "*" then arguments fuel (args ++ ["?"]) (tail c)
    else if b =? ch "+" then
      '(t, c) ← type_sig fuel (tail c);
      arguments fuel (args ++ ["? extends " +s+ t]) c
    else if b =? ch "-" then
      '(t, c) ← type_sig fuel (tail c);
      arguments fuel (args ++ ["? super " +s+ t]) c
    else
      '(t, c) ← type_sig fuel c;
      arguments fuel (args ++ [t]) c
  end.

(** Enough for what is left: see [type_complete]. *)
Definition enough (c : bytes) : nat := 4 * length c + 4.
Definition next_type (c : bytes) : option (string * bytes) := type_sig (enough c) c.

Definition render_type (sig : string) : option string :=
  '(out, c) ← next_type (bytes_of_string sig);
  match c with [] => Some out | _ => None end.

Record MethodParts : Type := {
  mp_type_params : list string;
  mp_params : list string;
  mp_ret : string;
  mp_throws : list string;
}.

(** [while c.eat(mark) { types.push(type_sig(c)?) }]: interface bounds, and a throws clause. *)
Fixpoint marked_types (mark : Z) (fuel : nat) (types : list string) (c : bytes) : option (list string * bytes) :=
  match fuel with
  | O => None
  | S fuel =>
    match eat mark c with
    | None => Some (types, c)
    | Some c => '(t, c) ← next_type c; marked_types mark fuel (types ++ [t]) c
    end
  end.

Definition type_parameter_text (name : string) (bounds : list string) : string :=
  let bounds := base.filter (fun b => b <> "java.lang.Object") bounds in
  match bounds with [] => name | _ => name +s+ " extends " +s+ join " & " bounds end.

Fixpoint type_parameter_list (fuel : nat) (params : list string) (c : bytes) : option (list string * bytes) :=
  match fuel with
  | O => None
  | S fuel =>
    match peek c with
    | None => Some (params, c)
    | Some b =>
      if b =? ch ">" then Some (params, c) else
      '(name, c) ← ident [ch ":"] c;
      c ← eat (ch ":") c;
      '(bounds, c) ← (
        match peek c with
        | Some b => if negb (b =? ch ":") && negb (b =? ch ">")
                    then '(t, c) ← next_type c; Some ([t], c) else Some ([], c)
        | None => Some ([], c)
        end);
      '(bounds, c) ← marked_types (ch ":") (S (length c)) bounds c;
      type_parameter_list fuel (params ++ [type_parameter_text name bounds]) c
    end
  end.

Definition type_parameters (c : bytes) : option (list string * bytes) :=
  c ← eat (ch "<") c;
  '(params, c) ← type_parameter_list (S (length c)) [] c;
  c ← eat (ch ">") c;
  match params with [] => None | _ => Some (params, c) end.

(** The parameter types, up to the closing parenthesis. *)
Fixpoint types_until (fuel : nat) (types : list string) (c : bytes) : option (list string * bytes) :=
  match fuel with
  | O => None
  | S fuel =>
    match peek c with
    | None => Some (types, c)
    | Some b =>
      if b =? ch ")" then Some (types, c) else '(t, c) ← next_type c; types_until fuel (types ++ [t]) c
    end
  end.

Definition render_method (sig : string) : option MethodParts :=
  let c := bytes_of_string sig in
  '(type_params, c) ← (if decide (peek c = Some (ch "<")) then type_parameters c else Some ([], c));
  c ← eat (ch "(") c;
  '(params, c) ← types_until (S (length c)) [] c;
  c ← eat (ch ")") c;
  '(ret, c) ← next_type c;
  '(throws, c) ← marked_types (ch "^") (S (length c)) [] c;
  match c with
  | [] => Some {| mp_type_params := type_params; mp_params := params; mp_ret := ret; mp_throws := throws |}
  | _ => None
  end.

Example render_map :
  render_type "Ljava/util/Map<Ljava/lang/Integer;[Ljava/util/List<+TT;>;*>.Entry<I>;" =
  Some "java.util.Map<java.lang.Integer, java.util.List<? extends T>[], ?>.Entry<int>".
Proof. vm_compute. reflexivity. Qed.
Example render_bounded :
  render_method "<T:Ljava/lang/Number;:Ljava/lang/Comparable<TT;>;E:>(TT;[I)V^TE;" =
  Some {| mp_type_params := ["T extends java.lang.Number & java.lang.Comparable<T>"; "E"];
          mp_params := ["T"; "int[]"]; mp_ret := "void"; mp_throws := ["E"] |}.
Proof. vm_compute. reflexivity. Qed.

(** ** The grammar the renderer reads, with the Java text of each production

    It is wider than the one of the JVMS, below: names are whatever stands before a stop character, and any
    type, [void] too, may be an element, an argument, a bound or thrown. *)

(** An identifier: not empty, up to a stop character. *)
Definition ident_ok (stop : list Z) (name : bytes) : Prop := name <> [] /\ forall b, b ∈ name -> b ∉ stop.

Inductive TypeSig : bytes -> string -> Prop :=
| type_dims dims base out :
    (dims <= 255)%nat -> BaseSig base out ->
    TypeSig (replicate dims (ch "[") ++ base) (out +s+ repeat_str "[]" dims)
with BaseSig : bytes -> string -> Prop :=
| sig_base b name : base_type b = Some name -> BaseSig [b] name
| sig_variable name : ident_ok [ch ";"] name -> BaseSig (ch "T" :: name ++ [ch ";"]) (from_utf8_lossy name)
| sig_class body out : ClassSig body out -> BaseSig (ch "L" :: body) out
with ClassSig : bytes -> string -> Prop :=
| class_end name args text :
    ident_ok class_stops name -> ArgsSig args text ->
    ClassSig (name ++ args ++ [ch ";"]) (slashes_to_dots (from_utf8_lossy name) +s+ text)
| class_nested name args text rest out :
    ident_ok class_stops name -> ArgsSig args text -> ClassSig rest out ->
    ClassSig (name ++ args ++ ch "." :: rest) (slashes_to_dots (from_utf8_lossy name) +s+ text +s+ "." +s+ out)
with ArgsSig : bytes -> string -> Prop :=
| args_none : ArgsSig [] ""
| args_some body l : ArgList body l -> l <> [] -> ArgsSig (ch "<" :: body ++ [ch ">"]) ("<" +s+ join ", " l +s+ ">")
with ArgList : bytes -> list string -> Prop :=
| arg_nil : ArgList [] []
| arg_any rest l : ArgList rest l -> ArgList (ch "*" :: rest) ("?" :: l)
| arg_extends t out rest l :
    TypeSig t out -> ArgList rest l -> ArgList (ch "+" :: t ++ rest) (("? extends " +s+ out) :: l)
| arg_super t out rest l :
    TypeSig t out -> ArgList rest l -> ArgList (ch "-" :: t ++ rest) (("? super " +s+ out) :: l)
| arg_exact t out rest l : TypeSig t out -> ArgList rest l -> ArgList (t ++ rest) (out :: l).

Scheme TypeSig_mut := Induction for TypeSig Sort Prop
  with BaseSig_mut := Induction for BaseSig Sort Prop
  with ClassSig_mut := Induction for ClassSig Sort Prop
  with ArgsSig_mut := Induction for ArgsSig Sort Prop
  with ArgList_mut := Induction for ArgList Sort Prop.
Combined Scheme sig_mutind from TypeSig_mut, BaseSig_mut, ClassSig_mut, ArgsSig_mut, ArgList_mut.

(** ** Cursor lemmas *)

Lemma eat_spec b c r : eat b c = Some r <-> c = b :: r.
Proof.
  unfold eat. destruct c as [|x c]; [done|]. destruct (Z.eqb_spec x b) as [->|Hne]; split; congruence.
Qed.

Lemma eat_cons b r : eat b (b :: r) = Some r.
Proof. by apply eat_spec. Qed.

Lemma eat_ne b x r : x <> b -> eat b (x :: r) = None.
Proof. intros H. unfold eat. by rewrite (proj2 (Z.eqb_neq x b)). Qed.

Lemma span_until_app stop name x r :
  (forall b, b ∈ name -> b ∉ stop) -> x ∈ stop -> span_until stop (name ++ x :: r) = (name, x :: r).
Proof.
  intros Hn Hx. induction name as [|b name IH]; simpl.
  - by rewrite bool_decide_eq_true_2.
  - rewrite bool_decide_eq_false_2 by (apply Hn; by left). rewrite IH; [done|]. intros y Hy. apply Hn. by right.
Qed.

Lemma span_until_split stop c name r :
  span_until stop c = (name, r) ->
  c = name ++ r /\ (forall b, b ∈ name -> b ∉ stop) /\ (forall x, peek r = Some x -> x ∈ stop).
Proof.
  revert name r. induction c as [|b c IH]; simpl; intros name r H.
  - injection H as <- <-. split_and!; [done| |done]. by intros b ?%elem_of_nil.
  - case_bool_decide as Hb.
    + injection H as <- <-. split_and!; [done|by intros x ?%elem_of_nil|by intros x [= <-]].
    + destruct (span_until stop c) as [name' r'] eqn:E. injection H as <- <-.
      destruct (IH _ _ eq_refl) as (-> & H1 & H2). split_and!; [done| |done].
      intros x [->|Hx]%elem_of_cons; auto.
Qed.

Lemma ident_app stop name x r :
  ident_ok stop name -> x ∈ stop -> ident stop (name ++ x :: r) = Some (from_utf8_lossy name, x :: r).
Proof.
  intros [Hne Hn] Hx. unfold ident. rewrite span_until_app by done. by destruct name.
Qed.

Lemma ident_split stop c out r :
  ident stop c = Some (out, r) ->
  exists name, c = name ++ r /\ ident_ok stop name /\ out = from_utf8_lossy name /\
    forall x, peek r = Some x -> x ∈ stop.
Proof.
  unfold ident. destruct (span_until stop c) as [name r'] eqn:E. apply span_until_split in E as (-> & H1 & H2).
  intros H. exists name. destruct name as [|b name]; [done|]. injection H as <- <-. by split_and!.
Qed.

Lemma brackets_app n dims b r :
  (n + dims <= 255)%nat -> b <> ch "[" ->
  brackets n (replicate dims (ch "[") ++ b :: r) = Some ((n + dims)%nat, b :: r).
Proof.
  revert n. induction dims as [|dims IH]; intros n Hd Hb; cbn [replicate app brackets].
  - rewrite (proj2 (Z.eqb_neq b _)) by done. do 2 f_equal. lia.
  - rewrite Z.eqb_refl. destruct (Nat.ltb_spec 255 (S n)); [lia|]. rewrite IH by (done || lia). do 2 f_equal. lia.
Qed.

Lemma brackets_split n c dims r :
  brackets n c = Some (dims, r) -> (n <= 255)%nat ->
  exists k, c = replicate k (ch "[") ++ r /\ dims = (n + k)%nat /\ (dims <= 255)%nat.
Proof.
  revert n. induction c as [|x c IH]; intros n H Hn; cbn [brackets] in H.
  - injection H as <- <-. exists 0%nat. split_and!; [done|lia|done].
  - destruct (Z.eqb_spec x (ch "[")) as [->|Hne].
    + destruct (Nat.ltb_spec 255 (S n)); [done|]. destruct (IH _ H) as (k & -> & -> & Hk); [lia|].
      exists (S k). split_and!; [done|lia|done].
    + injection H as <- <-. exists 0%nat. split_and!; [done|lia|done].
Qed.

(** ** Every signature of the grammar renders *)

Lemma app_str_nil_r s : s +s+ "" = s.
Proof. induction s as [|a s IH]; [done|]. change (String a s +s+ "") with (String a (s +s+ "")). by rewrite IH. Qed.
Lemma app_str_assoc a b c : (a +s+ b) +s+ c = a +s+ b +s+ c.
Proof.
  induction a as [|x a IH]; [done|]. change (String x ((a +s+ b) +s+ c) = String x (a +s+ b +s+ c)). by rewrite IH.
Qed.
Lemma app_str_nonempty a b : a <> "" -> a +s+ b <> "".
Proof. by destruct a. Qed.

Lemma from_utf8_lossy_nonempty bs : bs <> [] -> from_utf8_lossy bs <> "".
Proof.
  intros Hne H. unfold from_utf8_lossy in H.
  assert (Hl : forall fuel, lossy_pieces fuel bs <> []).
  { intros [|fuel]; [done|]. cbn [lossy_pieces]. destruct (utf8_check 0 bs) as [[pos [n|]]|]; [| |done];
      intros [_ Hnil]%app_eq_nil; done. }
  by destruct (lossy_pieces (length bs) bs) eqn:E; [apply (Hl (length bs))|].
Qed.

Lemma slashes_to_dots_nonempty s : s <> "" -> slashes_to_dots s <> "".
Proof. by destruct s. Qed.

(** The text of the segments after [acc]. *)
Definition after (acc out : string) : string := if decide (acc = "") then out else acc +s+ "." +s+ out.

Lemma dotted_after acc t : (if decide (acc = "") then acc else acc +s+ ".") +s+ t = after acc t.
Proof. unfold after. case_decide as E; [by rewrite E|]. by rewrite app_str_assoc. Qed.
Lemma after_app acc a b : after acc a +s+ b = after acc (a +s+ b).
Proof. unfold after. case_decide; [done|]. by rewrite !app_str_assoc. Qed.
Lemma after_nonempty acc out : out <> "" -> after acc out <> "".
Proof. intros H. unfold after. case_decide; [done|]. by apply app_str_nonempty. Qed.
Lemma after_after acc a b : a <> "" -> after (after acc a) b = after acc (a +s+ "." +s+ b).
Proof.
  intros H. unfold after at 1. rewrite decide_False by (by apply after_nonempty). by rewrite after_app.
Qed.

Lemma segment_step fuel acc name args text x rest :
  ident_ok class_stops name -> x = ch ";" \/ x = ch "." ->
  (args = [] /\ text = "") \/
    (exists q, args = ch "<" :: q) /\ type_arguments fuel (args ++ x :: rest) = Some (text, x :: rest) ->
  class_segments (S fuel) acc (name ++ args ++ x :: rest) =
  let out := after acc (slashes_to_dots (from_utf8_lossy name) +s+ text) in
  match eat (ch ";") (x :: rest) with
  | Some c => Some (out, c)
  | None => c ← eat (ch ".") (x :: rest); class_segments fuel out c
  end.
Proof.
  intros Hn Hx Hargs. cbn [class_segments].
  destruct Hargs as [[-> ->]|[[q ->] Ha]]; cbn [app].
  - rewrite (ident_app class_stops name x rest Hn) by (unfold class_stops; destruct Hx as [->| ->]; set_solver).
    cbn [mbind option_bind]. rewrite decide_False by (destruct Hx as [->| ->]; by intros [=]).
    rewrite dotted_after, app_str_nil_r. done.
  - rewrite (ident_app class_stops name (ch "<") (q ++ x :: rest) Hn) by (by left).
    cbn [mbind option_bind]. rewrite decide_True by done. cbn [app] in Ha. rewrite Ha. cbn [mbind option_bind].
    by rewrite dotted_after, after_app.
Qed.

(** The first segment is never empty, so the next one is dotted. *)
Lemma segment_nonempty name text :
  ident_ok class_stops name -> slashes_to_dots (from_utf8_lossy name) +s+ text <> "".
Proof. intros [Hn _]. apply app_str_nonempty, slashes_to_dots_nonempty, from_utf8_lossy_nonempty, Hn. Qed.

Lemma base_sig_head p out : BaseSig p out -> exists b r, p = b :: r /\ b ∉ [ch ">"; ch "*"; ch "+"; ch "-"; ch ")"; ch ":"; ch "["].
Proof.
  destruct 1 as [b name Hb|name Hn|body out Hc]; eexists _, _; (split; [done|]); [|set_solver..].
  intros H. by each_member H.
Qed.
Lemma type_sig_head t out : TypeSig t out -> exists b r, t = b :: r /\ b ∉ [ch ">"; ch "*"; ch "+"; ch "-"; ch ")"; ch ":"].
Proof.
  destruct 1 as [dims base out Hd Hb]. destruct dims as [|dims]; cbn [replicate app].
  - destruct (base_sig_head _ _ Hb) as (b & r & -> & H). exists b, r. split; [done|]. set_solver.
  - eexists _, _. split; [done|]. set_solver.
Qed.

Lemma type_complete :
  (forall p out, TypeSig p out -> forall fuel rest, (4 * length p + 1 <= fuel)%nat ->
     type_sig fuel (p ++ rest) = Some (out, rest)) /\
  (forall p out, BaseSig p out -> (forall b r, p = b :: r -> b <> ch "[") /\ p <> [] /\
     forall fuel dims rest, (4 * length p <= fuel)%nat -> (dims <= 255)%nat ->
     type_sig (S fuel) (replicate dims (ch "[") ++ p ++ rest) = Some (out +s+ repeat_str "[]" dims, rest)) /\
  (forall p out, ClassSig p out -> forall fuel acc rest, (4 * length p + 3 <= fuel)%nat ->
     class_segments fuel acc (p ++ rest) = Some (after acc out, rest)) /\
  (forall p text, ArgsSig p text -> (p = [] /\ text = "") \/
     (exists q, p = ch "<" :: q) /\ forall fuel rest, (4 * length p <= fuel)%nat ->
     type_arguments fuel (p ++ rest) = Some (text, rest)) /\
  (forall p l, ArgList p l -> forall fuel acc rest, (4 * length p + 2 <= fuel)%nat ->
     arguments fuel acc (p ++ ch ">" :: rest) = Some (acc ++ l, ch ">" :: rest)).
Proof.
  apply sig_mutind.
  - (* dims *)
    intros dims base out Hd _ (_ & _ & IH) fuel rest Hf. rewrite length_app, length_replicate in Hf.
    destruct fuel as [|fuel]; [lia|]. rewrite <- (assoc_L (++)). apply IH; [lia|done].
  - (* base *)
    intros b name Hb. split_and!; [intros b' r [= <- <-] ->; done|done|].
    intros fuel dims rest _ Hd. cbn [type_sig app]. rewrite brackets_app by (try (intros ->); done || lia).
    cbn [mbind option_bind peek head]. repeat (case_match; reflect_bools; [subst; done|]). rewrite Hb. done.
  - (* variable *)
    intros name Hn. split_and!; [by intros b' r [= <- _]|done|].
    intros fuel dims rest _ Hd. cbn [type_sig app]. rewrite brackets_app by (done || lia).
    cbn [mbind option_bind peek head tail]. rewrite <- (assoc_L (++)). cbn [app].
    rewrite (ident_app [ch ";"] name (ch ";") rest Hn) by (by left).
    cbn [mbind option_bind]. rewrite eat_cons. done.
  - (* class *)
    intros body out _ IH. split_and!; [by intros b' r [= <- _]|done|].
    intros fuel dims rest Hf Hd. cbn [type_sig app]. rewrite brackets_app by (done || lia).
    cbn [mbind option_bind peek head tail]. cbn [length] in Hf. destruct fuel as [|fuel]; [lia|].
    change (ch "L" =? ch "L") with true. cbv iota. cbn [class_type]. rewrite eat_cons. cbn [mbind option_bind].
    rewrite IH by lia. done.
  - (* the last segment *)
    intros name args text Hn _ IH fuel acc rest Hf. rewrite !length_app in Hf. cbn [length] in Hf.
    destruct fuel as [|fuel]; [lia|]. rewrite <- !(assoc_L (++)). cbn [app].
    rewrite (segment_step fuel acc name args text (ch ";") rest Hn); [by rewrite eat_cons|by left|].
    destruct IH as [?|[? IH]]; [by left|]. right. split; [done|]. apply IH. lia.
  - (* a nested segment *)
    intros name args text rest0 out Hn _ IH _ IHc fuel acc rest Hf. rewrite !length_app in Hf. cbn [length] in Hf.
    destruct fuel as [|fuel]; [lia|]. rewrite <- !(assoc_L (++)). cbn [app].
    rewrite (segment_step fuel acc name args text (ch ".") (rest0 ++ rest) Hn); [|by right|].
    + cbv zeta. rewrite eat_ne, eat_cons by done. cbn [mbind option_bind]. rewrite IHc by lia.
      rewrite after_after by (by apply segment_nonempty). by rewrite app_str_assoc.
    + destruct IH as [?|[? IH]]; [by left|]. right. split; [done|]. apply IH. lia.
  - by left.
  - (* some arguments *)
    intros body l _ IH Hl. right. split; [by eexists|]. intros fuel rest Hf.
    destruct fuel as [|fuel]; [simpl in Hf; lia|]. cbn [type_arguments app]. rewrite eat_cons. cbn [mbind option_bind].
    rewrite <- (assoc_L (++)). cbn [app]. cbn [length] in Hf. rewrite length_app in Hf. cbn [length] in Hf.
    rewrite IH by lia. cbn [mbind option_bind app]. rewrite eat_cons. cbn [mbind option_bind]. by destruct l.
  - intros fuel acc rest Hf. destruct fuel; [simpl in Hf; lia|]. simpl. by rewrite app_nil_r.
  - intros rest0 l _ IH fuel acc rest Hf. destruct fuel as [|fuel]; [simpl in Hf; lia|].
    cbn [arguments app peek head tail mbind option_bind]. cbn [length] in Hf.
    change (ch "*" =? ch ">") with false. change (ch "*" =? ch "*") with true. cbv iota.
    rewrite IH by lia. by rewrite <- (assoc_L (++)).
  - intros t out rest0 l _ IHt _ IH fuel acc rest Hf. destruct fuel as [|fuel]; [simpl in Hf; lia|].
    cbn [length] in Hf. rewrite length_app in Hf. cbn [arguments app peek head tail mbind option_bind].
    repeat match goal with |- context [?a =? ?b] => let v := eval vm_compute in (a =? b) in change (a =? b) with v end.
    cbv iota. rewrite <- (assoc_L (++)), IHt by lia. cbn [mbind option_bind]. rewrite IH by lia.
    by rewrite <- (assoc_L (++)).
  - intros t out rest0 l _ IHt _ IH fuel acc rest Hf. destruct fuel as [|fuel]; [simpl in Hf; lia|].
    cbn [length] in Hf. rewrite length_app in Hf. cbn [arguments app peek head tail mbind option_bind].
    repeat match goal with |- context [?a =? ?b] => let v := eval vm_compute in (a =? b) in change (a =? b) with v end.
    cbv iota. rewrite <- (assoc_L (++)), IHt by lia. cbn [mbind option_bind]. rewrite IH by lia.
    by rewrite <- (assoc_L (++)).
  - intros t out rest0 l Ht IHt _ IH fuel acc rest Hf. rewrite length_app in Hf. destruct fuel as [|fuel]; [lia|].
    rewrite <- (assoc_L (++)). destruct (type_sig_head t out Ht) as (b & r & -> & Hb).
    specialize (IHt fuel (rest0 ++ ch ">" :: rest)). cbn [arguments app peek head mbind option_bind length] in *.
    assert (Hne : forall x, x ∈ [ch ">"; ch "*"; ch "+"; ch "-"] -> (b =? x) = false).
    { intros x Hx. apply Z.eqb_neq. intros ->. apply Hb. set_solver. }
    rewrite !Hne by set_solver. rewrite IHt by lia. cbn [mbind option_bind]. rewrite IH by lia.
    by rewrite <- (assoc_L (++)).
Qed.

(** ** Only signatures of the grammar render *)

(** One bind of an option monad succeeded. *)
Ltac bind_some H x Hx :=
  apply bind_Some in H as (x & Hx & H).

Lemma type_sound fuel :
  (forall c out r, type_sig fuel c = Some (out, r) -> exists p, c = p ++ r /\ TypeSig p out) /\
  (forall c out r, class_type fuel c = Some (out, r) -> exists body, c = ch "L" :: body ++ r /\ ClassSig body out) /\
  (forall acc c out r, class_segments fuel acc c = Some (out, r) ->
     exists body out0, c = body ++ r /\ ClassSig body out0 /\ out = after acc out0) /\
  (forall c text r, type_arguments fuel c = Some (text, r) -> exists p, c = p ++ r /\ ArgsSig p text /\ p <> []) /\
  (forall acc c l r, arguments fuel acc c = Some (l, r) -> exists p l0, c = p ++ r /\ ArgList p l0 /\ l = acc ++ l0).
Proof.
  induction fuel as [|fuel (IHt & IHc & IHs & IHa & IHl)]; [by split_and!; intros; discriminate|]. split_and!.
  - intros c out r H. cbn [type_sig] in H. bind_some H x Hx. destruct x as [dims c1].
    apply brackets_split in Hx as (k & -> & -> & Hk); [|lia]. bind_some H b Hb. bind_some H x Hbase.
    destruct x as [base c2]. injection H as <- <-.
    assert (Hp : exists p, c1 = p ++ c2 /\ BaseSig p base).
    { destruct c1 as [|b' c1]; [done|]. cbn [peek head] in Hb. injection Hb as Hb; subst b'. cbn [tail] in Hbase. destruct (Z.eqb_spec b (ch "L")) as [->|].
      - apply IHc in Hbase as (body & [= ->] & Hc). exists (ch "L" :: body). split; [done|]. by constructor.
      - destruct (Z.eqb_spec b (ch "T")) as [->|].
        + bind_some Hbase x Hx. destruct x as [name c3]. apply ident_split in Hx as (nm & -> & Hn & -> & _).
          bind_some Hbase c4 Hc. apply eat_spec in Hc as ->. injection Hbase as <- <-.
          exists (ch "T" :: nm ++ [ch ";"]). split; [by rewrite <- app_comm_cons, <- (assoc_L (++))|]. by constructor.
        + bind_some Hbase name Hn. injection Hbase as <- <-. exists [b]. split; [done|]. by constructor. }
    destruct Hp as (p & -> & Hp). exists (replicate k (ch "[") ++ p). split; [by rewrite (assoc_L (++))|]. by constructor.
  - intros c out r H. cbn [class_type] in H. bind_some H c1 Hc. apply eat_spec in Hc as ->.
    apply IHs in H as (body & out0 & -> & Hb & ->). by exists body.
  - intros acc c out r H. cbn [class_segments] in H. bind_some H x Hx. destruct x as [name c1].
    apply ident_split in Hx as (nm & -> & Hn & -> & Hstop). bind_some H x Hargs. destruct x as [out1 c2].
    rewrite !dotted_after in Hargs.
    assert (Hp : exists args text, c1 = args ++ c2 /\ ArgsSig args text /\
      out1 = after acc (slashes_to_dots (from_utf8_lossy nm) +s+ text)).
    { case_decide as Hlt.
      - bind_some Hargs x Hx. destruct x as [text c3]. injection Hargs as <- <-.
        apply IHa in Hx as (p & -> & Hp & _). exists p, text. split_and!; [done|done|]. apply after_app.
      - injection Hargs as <- <-. exists [], "". split_and!; [done|constructor|]. by rewrite app_str_nil_r. }
    destruct Hp as (args & text & -> & Ha & ->).
    destruct (eat (ch ";") c2) as [c3|] eqn:E.
    + apply eat_spec in E as ->. injection H as <- <-. eexists (nm ++ args ++ [ch ";"]), _.
      split_and!; [by rewrite <- !(assoc_L (++))|by constructor|done].
    + bind_some H c3 Hc. apply eat_spec in Hc as ->. apply IHs in H as (body & out0 & -> & Hb & ->).
      eexists (nm ++ args ++ ch "." :: body), _. split_and!; [by rewrite <- !(assoc_L (++))|by constructor|].
      rewrite after_after by (by apply segment_nonempty). by rewrite app_str_assoc.
  - intros c text r H. cbn [type_arguments] in H. bind_some H c1 Hc. apply eat_spec in Hc as ->.
    bind_some H x Hx. destruct x as [l c2]. apply IHl in Hx as (p & l0 & -> & Hp & ->).
    bind_some H c3 Hc. apply eat_spec in Hc as ->. cbn [app] in H. destruct l0 as [|s l0]; [done|]. injection H as <- <-.
    exists (ch "<" :: p ++ [ch ">"]). split_and!; [by rewrite <- app_comm_cons, <- (assoc_L (++))| |done].
    by apply (args_some p (s :: l0)).
  - intros acc c l r H. cbn [arguments] in H. bind_some H b Hb. destruct c as [|b' c]; [done|]. cbn [peek head] in Hb. injection Hb as Hb; subst b'.
    cbn [tail] in H. destruct (Z.eqb_spec b (ch ">")) as [_|].
    { injection H as <- <-. exists [], []. rewrite app_nil_r. split_and!; [done|constructor|done]. }
    destruct (Z.eqb_spec b (ch "*")) as [E|].
    { subst b. apply IHl in H as (p & l0 & -> & Hp & ->). exists (ch "*" :: p), ("?" :: l0).
      split_and!; [done|by constructor|by rewrite <- (assoc_L (++))]. }
    destruct (Z.eqb_spec b (ch "+")) as [E|]; [|destruct (Z.eqb_spec b (ch "-")) as [E|]]; bind_some H x Hx;
      destruct x as [t c1]; apply IHt in Hx as (q & Hq & Ht); apply IHl in H as (p & l0 & -> & Hp & ->).
    + subst b c. exists (ch "+" :: q ++ p), (("? extends " +s+ t) :: l0).
      split_and!; [by rewrite <- app_comm_cons, <- (assoc_L (++))|by constructor|by rewrite <- (assoc_L (++))].
    + subst b c. exists (ch "-" :: q ++ p), (("? super " +s+ t) :: l0).
      split_and!; [by rewrite <- app_comm_cons, <- (assoc_L (++))|by constructor|by rewrite <- (assoc_L (++))].
    + exists (q ++ p), (t :: l0).
      split_and!; [by rewrite Hq, <- (assoc_L (++))|by constructor|by rewrite <- (assoc_L (++))].
Qed.

Lemma next_type_iff c out r : next_type c = Some (out, r) <-> exists p, c = p ++ r /\ TypeSig p out.
Proof.
  split; [apply type_sound|]. intros (p & -> & Hp). unfold next_type. apply type_complete; [done|].
  unfold enough. rewrite length_app. lia.
Qed.

(** ** Methods *)

Inductive TypeList : bytes -> list string -> Prop :=
| types_nil : TypeList [] []
| types_cons t out rest l : TypeSig t out -> TypeList rest l -> TypeList (t ++ rest) (out :: l).

(** Types each after the mark [b]: a throws clause, or interface bounds. *)
Inductive Marked (b : Z) : bytes -> list string -> Prop :=
| marked_nil : Marked b [] []
| marked_cons t out rest l : TypeSig t out -> Marked b rest l -> Marked b (b :: t ++ rest) (out :: l).

Definition ClassBound (cb : bytes) (bound : list string) : Prop :=
  (cb = [] /\ bound = []) \/ exists out, TypeSig cb out /\ bound = [out].

(** A parameter without any bound is the last one: what follows its colon would be its bound. *)
Inductive TypeParams : bytes -> list string -> Prop :=
| params_nil : TypeParams [] []
| params_cons name cb bound ifs bounds rest l :
    ident_ok [ch ":"] name -> peek name <> Some (ch ">") -> ClassBound cb bound -> Marked (ch ":") ifs bounds ->
    (cb = [] -> ifs = [] -> rest = []) -> TypeParams rest l ->
    TypeParams (name ++ ch ":" :: cb ++ ifs ++ rest)
      (type_parameter_text (from_utf8_lossy name) (bound ++ bounds) :: l).

Definition OptTypeParams (p : bytes) (l : list string) : Prop :=
  (p = [] /\ l = []) \/ exists body, p = ch "<" :: body ++ [ch ">"] /\ TypeParams body l /\ l <> [].

Definition MethodSig (s : bytes) (parts : MethodParts) : Prop :=
  exists tp params ret throws,
    s = tp ++ ch "(" :: params ++ ch ")" :: ret ++ throws /\
    OptTypeParams tp (mp_type_params parts) /\ TypeList params (mp_params parts) /\
    TypeSig ret (mp_ret parts) /\ Marked (ch "^") throws (mp_throws parts).

Lemma next_type_complete t out rest : TypeSig t out -> next_type (t ++ rest) = Some (out, rest).
Proof. intros H. apply next_type_iff. by exists t. Qed.

Lemma type_sig_length t out : TypeSig t out -> (0 < length t)%nat.
Proof. intros (b & r & -> & _)%type_sig_head. simpl. lia. Qed.

(** *** The loops *)

Lemma marked_types_complete mark p l :
  Marked mark p l -> forall fuel acc rest, (length p < fuel)%nat -> peek rest <> Some mark ->
  marked_types mark fuel acc (p ++ rest) = Some (acc ++ l, rest).
Proof.
  induction 1 as [|t out p l Ht Hl IH]; intros [|fuel] acc rest Hf Hr; try (simpl in Hf; lia); cbn [marked_types app].
  - rewrite app_nil_r. destruct rest as [|b rest]; [done|]. by rewrite eat_ne by (intros ->; done).
  - rewrite eat_cons, <- (assoc_L (++)), (next_type_complete _ _ _ Ht). cbn [mbind option_bind].
    cbn [length] in Hf. rewrite length_app in Hf. rewrite IH by (done || lia). by rewrite <- (assoc_L (++)).
Qed.

Lemma marked_types_sound mark fuel acc c l r :
  marked_types mark fuel acc c = Some (l, r) ->
  exists p l0, c = p ++ r /\ Marked mark p l0 /\ l = acc ++ l0 /\ peek r <> Some mark.
Proof.
  revert acc c. induction fuel as [|fuel IH]; [done|]. intros acc c H. cbn [marked_types] in H.
  destruct (eat mark c) as [c1|] eqn:E.
  - apply eat_spec in E as ->. bind_some H x Hx. destruct x as [t c2]. apply next_type_iff in Hx as (q & -> & Hq).
    apply IH in H as (p & l0 & -> & Hp & -> & Hr). exists (mark :: q ++ p), (t :: l0).
    split_and!; [by rewrite <- app_comm_cons, <- (assoc_L (++))|by constructor|by rewrite <- (assoc_L (++))|done].
  - injection H as <- <-. exists [], []. rewrite app_nil_r. split_and!; [done|constructor|done|].
    destruct c as [|b c]; [done|]. intros [= ->]. by rewrite eat_cons in E.
Qed.

Lemma types_until_complete p l :
  TypeList p l -> forall fuel acc rest, (length p < fuel)%nat ->
  types_until fuel acc (p ++ ch ")" :: rest) = Some (acc ++ l, ch ")" :: rest).
Proof.
  induction 1 as [|t out p l Ht Hl IH]; intros [|fuel] acc rest Hf; try (simpl in Hf; lia); cbn [types_until].
  - simpl. by rewrite app_nil_r.
  - destruct (type_sig_head _ _ Ht) as (b & r & Hbr & Hb).
    replace (peek ((t ++ p) ++ ch ")" :: rest)) with (Some b) by (by rewrite Hbr).
    rewrite (proj2 (Z.eqb_neq b _)) by (intros ->; apply Hb; set_solver).
    rewrite <- (assoc_L (++)), (next_type_complete _ _ _ Ht). cbn [mbind option_bind].
    rewrite length_app in Hf. pose proof (type_sig_length _ _ Ht). rewrite IH by lia. by rewrite <- (assoc_L (++)).
Qed.

Lemma types_until_sound fuel acc c l r :
  types_until fuel acc c = Some (l, r) -> exists p l0, c = p ++ r /\ TypeList p l0 /\ l = acc ++ l0.
Proof.
  revert acc c. induction fuel as [|fuel IH]; [done|]. intros acc c H. cbn [types_until] in H.
  assert (Hdone : Some (acc, c) = Some (l, r) -> exists p l0, c = p ++ r /\ TypeList p l0 /\ l = acc ++ l0).
  { intros [= <- <-]. exists [], []. rewrite app_nil_r. split_and!; [done|constructor|done]. }
  destruct (peek c) as [b|]; [|by apply Hdone]. destruct (b =? ch ")"); [by apply Hdone|].
  bind_some H x Hx. destruct x as [t c2]. apply next_type_iff in Hx as (q & -> & Hq).
  apply IH in H as (p & l0 & -> & Hp & ->). exists (q ++ p), (t :: l0).
  split_and!; [by rewrite <- (assoc_L (++))|by constructor|by rewrite <- (assoc_L (++))].
Qed.

(** What follows the parameters' list or a parameter is not a colon. *)
Lemma params_head p l rest : TypeParams p l -> peek (p ++ ch ">" :: rest) <> Some (ch ":").
Proof.
  destruct 1 as [|name cb bound ifs bounds rest0 l [Hne Hn]]; [done|]. destruct name as [|b name]; [done|].
  intros [= ->]. apply (Hn (ch ":")); by left.
Qed.

Lemma type_parameter_list_complete p l :
  TypeParams p l -> forall fuel acc rest, (length p < fuel)%nat ->
  type_parameter_list fuel acc (p ++ ch ">" :: rest) = Some (acc ++ l, ch ">" :: rest).
Proof.
  induction 1 as [|name cb bound ifs bounds rest0 l Hname Hgt Hcb Hifs Hlast Hrest IH];
    intros [|fuel] acc rest Hf; try (simpl in Hf; lia); cbn [type_parameter_list].
  { simpl. by rewrite app_nil_r. }
  destruct name as [|b name'] eqn:En; [by destruct Hname|]. cbn [app peek head]. cbn [peek head] in Hgt.
  rewrite (proj2 (Z.eqb_neq b _)) by (intros ->; done).
  replace (b :: (name' ++ ch ":" :: cb ++ ifs ++ rest0) ++ ch ">" :: rest)
    with ((b :: name') ++ ch ":" :: cb ++ ifs ++ rest0 ++ ch ">" :: rest)
    by (simpl; by rewrite <- !(assoc_L (++)), <- app_comm_cons, <- !(assoc_L (++))).
  rewrite (ident_app [ch ":"] (b :: name') (ch ":") _ Hname) by (by left).
  cbn [mbind option_bind]. rewrite eat_cons. cbn [mbind option_bind].
  repeat (rewrite length_app in Hf || cbn [length] in Hf).
  set (tail_ := rest0 ++ ch ">" :: rest) in *.
  assert (Htail : peek tail_ <> Some (ch ":")) by (by eapply params_head).
  assert (Hbound : match peek (cb ++ ifs ++ tail_) with
    | Some b0 => if negb (b0 =? ch ":") && negb (b0 =? ch ">")
                 then '(t, c0) ← next_type (cb ++ ifs ++ tail_); Some ([t], c0) else Some ([], cb ++ ifs ++ tail_)
    | None => Some ([], cb ++ ifs ++ tail_)
    end = Some (bound, ifs ++ tail_)).
  { destruct Hcb as [[-> ->]|(out & Ht & ->)]; cbn [app].
    - destruct Hifs as [|t out ifs' l' _ _]; cbn [app peek head]; [|by rewrite Z.eqb_refl].
      unfold tail_. rewrite (Hlast eq_refl eq_refl). done.
    - destruct (type_sig_head _ _ Ht) as (b0 & r & Hbr & Hb).
      rewrite (next_type_complete _ _ _ Ht). rewrite Hbr at 1. cbn [app peek head].
      rewrite !(proj2 (Z.eqb_neq b0 _)) by (intros ->; apply Hb; set_solver). done. }
  rewrite Hbound. cbn [mbind option_bind].
  rewrite (marked_types_complete _ _ _ Hifs) by (done || (rewrite length_app; lia)). cbn [mbind option_bind].
  unfold tail_. rewrite IH by lia. by rewrite <- (assoc_L (++)).
Qed.

Lemma type_parameter_list_sound fuel acc c l r :
  type_parameter_list fuel acc c = Some (l, ch ">" :: r) ->
  exists p l0, c = p ++ ch ">" :: r /\ TypeParams p l0 /\ l = acc ++ l0.
Proof.
  revert acc c. induction fuel as [|fuel IH]; [done|]. intros acc c H. cbn [type_parameter_list] in H.
  destruct (peek c) as [b|] eqn:Hb; [|by injection H as -> ->].
  destruct (Z.eqb_spec b (ch ">")) as [_|Hgt].
  { injection H as <- ->. exists [], []. rewrite app_nil_r. split_and!; [done|constructor|done]. }
  bind_some H x Hx. destruct x as [name c1]. apply ident_split in Hx as (nm & -> & Hn & -> & _).
  bind_some H c2 Hc. apply eat_spec in Hc as ->. bind_some H x Hbound. destruct x as [bound c3].
  assert (Hcb : exists cb, c2 = cb ++ c3 /\ ClassBound cb bound /\
    (cb = [] -> peek c3 = None \/ peek c3 = Some (ch ":") \/ peek c3 = Some (ch ">"))).
  { destruct (peek c2) as [b2|] eqn:E2.
    - destruct (Z.eqb_spec b2 (ch ":")) as [->|]; [|destruct (Z.eqb_spec b2 (ch ">")) as [->|]]; simpl in Hbound.
      + injection Hbound as <- <-. exists []. split_and!; [done|by left|auto].
      + injection Hbound as <- <-. exists []. split_and!; [done|by left|auto].
      + bind_some Hbound x Hx. destruct x as [t c4]. injection Hbound as <- <-.
        apply next_type_iff in Hx as (q & -> & Hq). exists q. split_and!; [done|right; eauto|].
        intros ->. apply type_sig_length in Hq. simpl in Hq. lia.
    - injection Hbound as <- <-. exists []. split_and!; [done|by left|auto]. }
  destruct Hcb as (cb & -> & Hcb & Hempty). bind_some H x Hifs. destruct x as [bounds c4].
  apply marked_types_sound in Hifs as (ifs & ifl & -> & Hifs & -> & Hnext).
  apply IH in H as (p & l0 & -> & Hp & ->).
  exists (nm ++ ch ":" :: cb ++ ifs ++ p), (type_parameter_text (from_utf8_lossy nm) (bound ++ ifl) :: l0).
  split_and!.
  - by rewrite <- !(assoc_L (++)), <- app_comm_cons, <- !(assoc_L (++)).
  - constructor; [done| |done|done| |done].
    + destruct nm as [|b' nm]; [by destruct Hn|]. cbn [app peek head] in *. congruence.
    + intros -> ->. destruct Hempty as [He|[He|He]]; [done| | |].
      * destruct Hp as [|[|b' nm'] ? ? ? ? ? ? [Hne _]]; done.
      * exfalso. by apply (params_head p l0 r Hp).
      * destruct Hp as [|[|b' nm'] ? ? ? ? ? ? [Hne _] Hgt']; [done|done|]. cbn [app peek head] in *. congruence.
  - by rewrite <- (assoc_L (++)).
Qed.

Lemma type_parameters_iff c l r :
  type_parameters c = Some (l, r) <-> exists body, c = ch "<" :: body ++ ch ">" :: r /\ TypeParams body l /\ l <> [].
Proof.
  unfold type_parameters. split.
  - intros H. bind_some H c1 Hc. apply eat_spec in Hc as ->. bind_some H x Hx. destruct x as [params c2].
    bind_some H c3 Hc. apply eat_spec in Hc as ->. apply type_parameter_list_sound in Hx as (p & l0 & -> & Hp & ->).
    cbn [app] in H. destruct l0 as [|s l0]; [done|]. injection H as <- <-. by exists p.
  - intros (body & -> & Hp & Hl). rewrite eat_cons. cbn [mbind option_bind].
    rewrite (type_parameter_list_complete _ _ Hp) by (rewrite length_app; simpl; lia).
    cbn [mbind option_bind app]. rewrite eat_cons. cbn [mbind option_bind]. by destruct l.
Qed.

Lemma render_method_complete s parts : MethodSig (bytes_of_string s) parts -> render_method s = Some parts.
Proof.
  intros (tp & params & ret & throws & Hs & Htp & Hparams & Hret & Hthrows). unfold render_method. rewrite Hs.
  set (rest := ch "(" :: params ++ ch ")" :: ret ++ throws).
  assert (Ho : (if decide (peek (tp ++ rest) = Some (ch "<")) then type_parameters (tp ++ rest)
    else Some ([], tp ++ rest)) = Some (mp_type_params parts, rest)).
  { destruct Htp as [[-> ->]|(body & -> & Hb & Hl)]; cbn [app]; [done|]. rewrite decide_True by done.
    apply type_parameters_iff. exists body. split_and!; [by rewrite <- (assoc_L (++))|done|done]. }
  rewrite Ho. cbn [mbind option_bind]. unfold rest. rewrite eat_cons. cbn [mbind option_bind].
  rewrite (types_until_complete _ _ Hparams) by (rewrite length_app; lia). cbn [mbind option_bind app].
  rewrite eat_cons. cbn [mbind option_bind]. rewrite (next_type_complete _ _ _ Hret). cbn [mbind option_bind].
  rewrite <- (app_nil_r throws) at 2. rewrite (marked_types_complete _ _ _ Hthrows) by (done || lia).
  cbn [mbind option_bind]. by destruct parts.
Qed.

Lemma render_method_sound s parts : render_method s = Some parts -> MethodSig (bytes_of_string s) parts.
Proof.
  unfold render_method. intros H. bind_some H x Htp. destruct x as [tpl c1]. bind_some H c2 Hc. apply eat_spec in Hc as ->.
  bind_some H x Hx. destruct x as [pl c3]. apply types_until_sound in Hx as (params & l0 & -> & Hparams & ->).
  bind_some H c4 Hc. apply eat_spec in Hc as ->. bind_some H x Hx. destruct x as [rt c5].
  apply next_type_iff in Hx as (ret & -> & Hret). bind_some H x Hx. destruct x as [tl c6].
  apply marked_types_sound in Hx as (throws & l1 & -> & Hthrows & -> & _). destruct c6; [|done].
  injection H as <-. rewrite app_nil_r in Htp.
  assert (Ho : exists tp, bytes_of_string s = tp ++ ch "(" :: params ++ ch ")" :: ret ++ throws /\ OptTypeParams tp tpl).
  { case_decide as Hlt.
    - apply type_parameters_iff in Htp as (body & -> & Hb & Hl). exists (ch "<" :: body ++ [ch ">"]).
      split; [by rewrite <- app_comm_cons, <- (assoc_L (++))|]. right. by exists body.
    - injection Htp as <- ->. exists []. split; [done|by left]. }
  destruct Ho as (tp & -> & Ho). by exists tp, params, ret, throws.
Qed.

Lemma type_sig_nonempty p out : TypeSig p out -> out <> "".
Proof.
  destruct 1 as [dims base out _ Hb]. apply app_str_nonempty. destruct Hb as [b name Hb|name [Hn _]|body out Hc].
  - intros ->. unfold base_type in Hb. repeat case_match; discriminate.
  - by apply from_utf8_lossy_nonempty.
  - destruct Hc; by apply segment_nonempty || (rewrite <- app_str_assoc; by apply app_str_nonempty, segment_nonempty).
Qed.

(** ** The grammar of JVMS 4.7.9.1, with the Java text of each production *)

(** An identifier holds none of [. ; [ / < > :]. *)
Definition Identifier (name : bytes) : Prop := ident_ok [ch "."; ch ";"; ch "["; ch "/"; ch "<"; ch ">"; ch ":"] name.
(** A class name with its package, identifiers with slashes between, and its Java text. *)
Inductive ClassName : bytes -> Prop :=
| name_simple id : Identifier id -> ClassName id
| name_package id rest : Identifier id -> ClassName rest -> ClassName (id ++ ch "/" :: rest).
Definition dotted (name : bytes) : string := slashes_to_dots (from_utf8_lossy name).

(** A type without its dimensions; the flag tells a reference type from a primitive one. *)
Inductive JElement : bool -> bytes -> string -> Prop :=
| j_base b name : base_type b = Some name -> b <> ch "V" -> JElement false [b] name
| j_variable id : Identifier id -> JElement true (ch "T" :: id ++ [ch ";"]) (from_utf8_lossy id)
| j_class name args text rest out : ClassName name -> JArgs args text -> JSuffix rest out ->
    JElement true (ch "L" :: name ++ args ++ rest) (dotted name +s+ text +s+ out)
(** What follows the outermost class: nested classes, each with arguments of its own. *)
with JSuffix : bytes -> string -> Prop :=
| j_end : JSuffix [ch ";"] ""
| j_nested id args text rest out : Identifier id -> JArgs args text -> JSuffix rest out ->
    JSuffix (ch "." :: id ++ args ++ rest) ("." +s+ dotted id +s+ text +s+ out)
with JArgs : bytes -> string -> Prop :=
| j_none : JArgs [] ""
| j_some body l : JArgList body l -> l <> [] -> JArgs (ch "<" :: body ++ [ch ">"]) ("<" +s+ join ", " l +s+ ">")
(** Type arguments are reference types, or wildcards. *)
with JArgList : bytes -> list string -> Prop :=
| j_nil : JArgList [] []
| j_any rest l : JArgList rest l -> JArgList (ch "*" :: rest) ("?" :: l)
| j_extends t out rest l : JType true t out -> JArgList rest l -> JArgList (ch "+" :: t ++ rest) (("? extends " +s+ out) :: l)
| j_super t out rest l : JType true t out -> JArgList rest l -> JArgList (ch "-" :: t ++ rest) (("? super " +s+ out) :: l)
| j_exact t out rest l : JType true t out -> JArgList rest l -> JArgList (t ++ rest) (out :: l)
with JType : bool -> bytes -> string -> Prop :=
| j_type r dims base out : (dims <= 255)%nat -> JElement r base out ->
    JType (r || (0 <? dims)%nat) (replicate dims (ch "[") ++ base) (out +s+ repeat_str "[]" dims).

Inductive JTypes : bytes -> list string -> Prop :=
| j_no_types : JTypes [] []
| j_types r t out rest l : JType r t out -> JTypes rest l -> JTypes (t ++ rest) (out :: l).
Inductive JBounds : bytes -> list string -> Prop :=
| j_no_bounds : JBounds [] []
| j_bounds t out rest l : JType true t out -> JBounds rest l -> JBounds (ch ":" :: t ++ rest) (out :: l).
(** Only classes and type variables are thrown. *)
Inductive JThrows : bytes -> list string -> Prop :=
| j_no_throws : JThrows [] []
| j_throws t out rest l : JElement true t out -> JThrows rest l -> JThrows (ch "^" :: t ++ rest) (out :: l).
Definition JClassBound (cb : bytes) (bound : list string) : Prop := (cb = [] /\ bound = []) \/ exists out, JType true cb out /\ bound = [out].
(** Type parameters; the flag says that each but the last has a bound. *)
Inductive JTypeParams : bool -> bytes -> list string -> Prop :=
| j_last name cb bound ifs bounds : Identifier name -> JClassBound cb bound -> JBounds ifs bounds ->
    JTypeParams true (name ++ ch ":" :: cb ++ ifs) [type_parameter_text (from_utf8_lossy name) (bound ++ bounds)]
| j_more bounded name cb bound ifs bounds rest l : Identifier name -> JClassBound cb bound -> JBounds ifs bounds -> JTypeParams bounded rest l ->
    JTypeParams (bounded && negb (bool_decide (cb ++ ifs = []))) (name ++ ch ":" :: cb ++ ifs ++ rest)
      (type_parameter_text (from_utf8_lossy name) (bound ++ bounds) :: l).
Definition JResult (t : bytes) (out : string) : Prop := (t = [ch "V"] /\ out = "void"%string) \/ exists r, JType r t out.

Definition JMethod (bounded : bool) (s : bytes) (parts : MethodParts) : Prop :=
  exists tp params ret throws,
    s = tp ++ ch "(" :: params ++ ch ")" :: ret ++ throws /\
    ((bounded = true /\ tp = [] /\ mp_type_params parts = []) \/
      exists body, tp = ch "<" :: body ++ [ch ">"] /\ JTypeParams bounded body (mp_type_params parts)) /\
    JTypes params (mp_params parts) /\ JResult ret (mp_ret parts) /\ JThrows throws (mp_throws parts).

Scheme JElement_mut := Induction for JElement Sort Prop
  with JSuffix_mut := Induction for JSuffix Sort Prop
  with JArgs_mut := Induction for JArgs Sort Prop
  with JArgList_mut := Induction for JArgList Sort Prop
  with JType_mut := Induction for JType Sort Prop.
Combined Scheme jvms_mutind from JElement_mut, JSuffix_mut, JArgs_mut, JArgList_mut, JType_mut.

(** *** Every signature of the JVMS is read *)

Lemma identifier_until stop id : Identifier id -> (forall b, b ∈ stop -> b ∈ [ch "."; ch ";"; ch "["; ch "/"; ch "<"; ch ">"; ch ":"]) -> ident_ok stop id.
Proof. intros [Hne Hn] Hs. split; [done|]. intros b Hb Hin. by apply (Hn b Hb), Hs. Qed.
Lemma class_name_ok name : ClassName name -> ident_ok class_stops name.
Proof.
  induction 1 as [id Hid|id rest Hid _ [_ IH]]; apply (identifier_until class_stops) in Hid; try done; try (unfold class_stops; set_solver).
  destruct Hid as [Hne Hn]. split; [by destruct id|]. intros b [Hb|[->|Hb]%elem_of_cons]%elem_of_app; [by apply Hn|unfold class_stops; set_solver|by apply IH].
Qed.

Lemma jvms_wider :
  (forall r p out, JElement r p out -> BaseSig p out) /\
  (forall p out, JSuffix p out -> forall name args text, ident_ok class_stops name -> ArgsSig args text ->
     ClassSig (name ++ args ++ p) (dotted name +s+ text +s+ out)) /\
  (forall p text, JArgs p text -> ArgsSig p text) /\
  (forall p l, JArgList p l -> ArgList p l) /\
  (forall r p out, JType r p out -> TypeSig p out).
Proof.
  apply jvms_mutind.
  - by constructor.
  - intros id Hid. constructor. apply (identifier_until [ch ";"]); [done|set_solver].
  - intros name args text rest out Hn _ IHa _ IHs. apply sig_class, IHs; [by apply class_name_ok|exact IHa].
  - intros name args text Hn Ha. rewrite app_str_nil_r. by constructor.
  - intros id args text rest out Hid _ IHa _ IHs name args0 text0 Hn Ha. apply class_nested; [done|done|]. apply IHs; [|exact IHa]. apply (identifier_until class_stops); [done|unfold class_stops; set_solver].
  - constructor.
  - intros body l _ IH Hl. by constructor.
  - constructor.
  - intros rest l _ IH. by constructor.
  - intros t out rest l _ IHt _ IH. by constructor.
  - intros t out rest l _ IHt _ IH. by constructor.
  - intros t out rest l _ IHt _ IH. by constructor.
  - intros r dims base out Hd _ IH. by constructor.
Qed.
Lemma jtype_wider r p out : JType r p out -> TypeSig p out.
Proof. apply jvms_wider. Qed.

Lemma jtypes_wider p l : JTypes p l -> TypeList p l.
Proof. induction 1 as [|r t out rest l Ht _ IH]; constructor; [by eapply jtype_wider|done]. Qed.
Lemma jbounds_wider p l : JBounds p l -> Marked (ch ":") p l.
Proof. induction 1 as [|t out rest l Ht _ IH]; constructor; [by eapply jtype_wider|done]. Qed.
Lemma jthrows_wider p l : JThrows p l -> Marked (ch "^") p l.
Proof.
  induction 1 as [|t out rest l Ht _ IH]; constructor; [|done]. apply jvms_wider in Ht. rewrite <- (app_str_nil_r out).
  exact (type_dims 0 t out (Nat.le_0_l _) Ht).
Qed.
Lemma jresult_wider p out : JResult p out -> TypeSig p out.
Proof. intros [[-> ->]|[r H]]; [|by eapply jtype_wider]. apply (type_dims 0 [ch "V"] "void" (Nat.le_0_l _)). by constructor. Qed.
Lemma jparam_ok name cb bound : Identifier name -> JClassBound cb bound ->
  ident_ok [ch ":"] name /\ peek name <> Some (ch ">") /\ ClassBound cb bound.
Proof.
  intros Hn Hb. split_and!; [by apply (identifier_until [ch ":"]); [|set_solver]| |destruct Hb as [?|(out & H & ->)]; [by left|right]].
  - destruct Hn as [Hne Hn], name as [|b name]; [done|]. intros [= ->]. apply (Hn (ch ">")); [by left|set_solver].
  - exists out. split; [by eapply jtype_wider|done].
Qed.
Lemma jparams_wider bounded p l : JTypeParams bounded p l -> bounded = true -> TypeParams p l.
Proof.
  induction 1 as [name cb bound ifs bounds Hn Hb Hi|bounded name cb bound ifs bounds rest l Hn Hb Hi _ IH]; intros E;
    destruct (jparam_ok _ _ _ Hn Hb) as (H1 & H2 & H3); apply jbounds_wider in Hi.
  - replace (cb ++ ifs) with (cb ++ ifs ++ []) by by rewrite app_nil_r. constructor; [done..|constructor].
  - apply andb_true_iff in E as [-> E%negb_true_iff%bool_decide_eq_false]. constructor; [done..| |by apply IH].
    intros -> ->. done.
Qed.
Lemma jmethod_wider s parts : JMethod true s parts -> MethodSig s parts.
Proof.
  intros (tp & params & ret & throws & -> & Htp & Hp & Hr & Ht). exists tp, params, ret, throws. split; [done|].
  split_and!; [|by apply jtypes_wider|by apply jresult_wider|by apply jthrows_wider].
  destruct Htp as [(_ & -> & ->)|(body & -> & Hb)]; [by left|]. right. exists body. split_and!; [done|by eapply jparams_wider|by destruct Hb].
Qed.

(** C23. The renderer reads the generic signatures of the JVMS. Every type signature of JVMS 4.7.9.1, of at most
    255 dimensions, renders as the Java text of its derivation: type arguments, wildcards, type variables,
    and nested classes with arguments of their own; every method signature in which each type parameter but
    the last has a bound renders as the texts of its type parameters with their bounds ([java.lang.Object]
    left out), its parameters, its result and what it throws. The renderer is no judge of signatures, though: it
    answers on exactly the strings of the wider grammar [TypeSig] and [MethodSig], trailing characters
    excluded, where names are less constrained and any type may stand for a reference ([wider_than_jvms]);
    and a type parameter without a bound that another follows takes the name of that one for its bound, which is
    refused or misread ([unbounded_parameter_misread]). What renders is never blank. *)
Theorem generics_exact (sig : string) :
  (forall r out, JType r (bytes_of_string sig) out -> render_type sig = Some out) /\
  (forall parts, JMethod true (bytes_of_string sig) parts -> render_method sig = Some parts) /\
  (forall out, render_type sig = Some out <-> TypeSig (bytes_of_string sig) out) /\
  (forall parts, render_method sig = Some parts <-> MethodSig (bytes_of_string sig) parts) /\
  render_type sig <> Some "".
Proof.
  assert (Ht : forall out, render_type sig = Some out <-> TypeSig (bytes_of_string sig) out).
  { intros out. unfold render_type. split.
    - intros H. bind_some H x Hx. destruct x as [o c]. apply next_type_iff in Hx as (p & Hs & Hp).
      destruct c; [|done]. injection H as <-. by rewrite Hs, app_nil_r.
    - intros H. rewrite <- (app_nil_r (bytes_of_string sig)), (next_type_complete _ _ _ H). done. }
  split_and!; [| |done| |].
  - intros r out H. by apply Ht, (jtype_wider r).
  - intros parts H. by apply render_method_complete, jmethod_wider.
  - intros parts. split; [apply render_method_sound|apply render_method_complete].
  - intros H%Ht. by apply type_sig_nonempty in H.
Qed.

(** ** Where the renderer and the JVMS differ *)

(** A primitive type argument, an array of [void], a [void] parameter, a thrown primitive: none is a signature. *)
Lemma wider_than_jvms :
  render_type "Ljava/util/List<I>;" = Some "java.util.List<int>"%string /\ render_type "[V" = Some "void[]"%string /\
  render_method "(V)V^I" = Some {| mp_type_params := []; mp_params := ["void"%string]; mp_ret := "void"; mp_throws := ["int"%string] |}.
Proof. by vm_compute. Qed.

(** Two type parameters, the first without a bound: refused; and where the second has a bound, read as one
    parameter that extends [byte]. *)
Definition unbounded_pair (bound : bytes) : bytes := ch "<" :: [ch "A"; ch ":"; ch "B"; ch ":"] ++ bound ++ bytes_of_string ">()V".
Lemma unbounded_pair_valid bound l : JClassBound bound l ->
  JMethod false (unbounded_pair bound) {| mp_type_params := ["A"%string; type_parameter_text "B" l]; mp_params := []; mp_ret := "void"; mp_throws := [] |}.
Proof.
  intros Hb. exists (ch "<" :: ([ch "A"; ch ":"; ch "B"; ch ":"] ++ bound) ++ [ch ">"]), [], [ch "V"], [].
  split; [unfold unbounded_pair; simpl; by rewrite <- !(assoc_L (++))|]. split_and!; [|constructor|by left|constructor].
  right. exists ([ch "A"; ch ":"; ch "B"; ch ":"] ++ bound). split; [done|]. cbn [mp_type_params].
  assert (Hid : forall b, b ∈ [ch "A"; ch "B"] -> Identifier [b]).
  { intros b Hb'. split; [done|]. intros c ->%list_elem_of_singleton. each_member Hb'; by_compute. }
  pose proof (j_last [ch "B"] bound l [] [] (Hid (ch "B") ltac:(set_solver)) Hb j_no_bounds) as Last. rewrite !app_nil_r in Last.
  exact (j_more true [ch "A"] [] [] [] [] _ _ (Hid (ch "A") ltac:(set_solver)) (or_introl (conj eq_refl eq_refl)) j_no_bounds Last).
Qed.
Lemma unbounded_parameter_misread :
  render_method (string_of_bytes (unbounded_pair [])) = None /\
  mp_type_params <$> render_method (string_of_bytes (unbounded_pair (bytes_of_string "Ljava/lang/Object;"))) = Some ["A extends byte"%string].
Proof. by vm_compute. Qed.
