(* ===== verification/ClassFile.v ===== *)
(** * Class files ([mcp-server/src/classfile.rs])

    The parser of the parts of a class file that a staleness comparison and a redefinition forecast
    need, and the file layout it inverts. *)

From S2P Require Import Prelude Generics.

(** ** The bounds-checked reader *)

Record Cursor : Type := { cur_data : bytes; cur_at : Z }.

Definition ClassReader (A : Type) : Type := Cursor -> result string (A * Cursor).
#[global] Instance class_reader_ret : MRet ClassReader := fun _ a c => Ok (a, c).
#[global] Instance class_reader_bind : MBind ClassReader :=
  fun _ _ k r c => match r c with Ok (a, c) => k a c | Err e => Err e end.
Definition fail {A} (e : string) : ClassReader A := fun _ => Err e.
(** A result of no reader, inside one. *)
Definition checked {A} (r : result string A) : ClassReader A :=
  fun c => match r with Ok a => Ok (a, c) | Err e => Err e end.

(** [Cursor::take]: the end may not overflow [usize], nor pass the end of the data. *)
Definition cur_take (n : Z) : ClassReader bytes := fun c =>
  let end_ := cur_at c + n in
  if 2 ^ 64 <=? end_ then Err "class file: length overflow"
  else if zlen (cur_data c) <? end_ then
    Err ("class file is truncated: wanted " +s+ pretty n +s+ " byte(s) at offset " +s+ pretty (cur_at c) +s+
         ", file is " +s+ pretty (zlen (cur_data c)) +s+ " byte(s)")
  else Ok (take (Z.to_nat n) (drop (Z.to_nat (cur_at c)) (cur_data c)), {| cur_data := cur_data c; cur_at := end_ |}).

Definition cur_u8 : ClassReader Z :=
  b ← cur_take 1;
  match head b with Some x => mret x | None => fail "class file: unreachable short read" end.

Definition cur_u16 : ClassReader Z :=
  b ← cur_take 2;
  match b !! 0%nat, b !! 1%nat with
  | Some hi, Some lo => mret (Z.lor (Z.shiftl hi 8) lo)
  | _, _ => fail "short"
  end.

Definition cur_u32 : ClassReader Z :=
  hi ← cur_u16;
  lo ← cur_u16;
  mret (Z.lor (Z.shiftl hi 16) lo).

Definition cur_skip (n : Z) : ClassReader unit := _ ← cur_take n; mret tt.

(** [n] readings in a row. *)
Fixpoint cur_times {A} (n : nat) (r : ClassReader A) : ClassReader (list A) :=
  match n with
  | O => mret []
  | S n => a ← r; l ← cur_times n r; mret (a :: l)
  end.

(** ** The parser *)

Inductive Constant : Type := CUtf8 (s : string) | CClass (name_index : Z) | COther.

Record ClassFileMethod : Type := {
  cm_access_flags : Z;
  cm_name : string;
  cm_descriptor : string;
  cm_lines : list (Z * Z);
  cm_has_code : bool;
  cm_has_line_table : bool;
  cm_code : bytes;
}.

Record ClassFileField : Type := {
  cf_access_flags : Z;
  cf_name : string;
  cf_descriptor : string;
}.

Record ClassFile : Type := {
  cls_this_class : string;
  cls_access_flags : Z;
  cls_super_class : option string;
  cls_interfaces : list string;
  cls_fields : list ClassFileField;
  cls_methods : list ClassFileMethod;
}.

Definition utf8_const (pool : list Constant) (index : Z) : result string string :=
  match pool !! Z.to_nat index with
  | Some (CUtf8 s) => Ok s
  | _ => Err ("class file: constant pool entry " +s+ pretty index +s+ " is not a UTF-8 constant")
  end.

Definition class_name (pool : list Constant) (index : Z) : result string string :=
  match pool !! Z.to_nat index with
  | Some (CClass name_index) => name ← utf8_const pool name_index; Ok (slashes_to_dots name)
  | _ => Err ("class file: constant pool entry " +s+ pretty index +s+ " is not a class constant")
  end.

(** Tags that carry nothing the parser keeps, with the width they skip. *)
Definition SKIP : list (Z * Z) :=
  [(8, 2); (16, 2); (19, 2); (20, 2); (15, 3); (3, 4); (4, 4); (9, 4); (10, 4); (11, 4); (12, 4); (17, 4);
   (18, 4); (5, 8); (6, 8)].

Definition read_constant (tag at_ : Z) : ClassReader Constant :=
  if tag =? 1 then
    len ← cur_u16;
    b ← cur_take len;
    mret (CUtf8 (from_utf8_lossy b))
  else if tag =? 7 then
    i ← cur_u16;
    mret (CClass i)
  else
    match List.find (fun e => fst e =? tag) SKIP with
    | Some (_, width) => _ ← cur_skip width; mret COther
    | None => fail ("class file: unknown constant pool tag " +s+ pretty tag +s+ " at entry " +s+ pretty at_)
    end.

(** How many entries a constant takes up, and the index after it, a [u16] that wraps. *)
Definition slots (tag : Z) : Z := if (tag =? 5) || (tag =? 6) then 2 else 1.
Definition next_index (i tag : Z) : Z := wrap_u 16 (i + slots tag).

(** The walk over the entries; every turn reads a byte, so the length of the file bounds the turns. *)
Fixpoint pool_loop (fuel : nat) (count i : Z) (pool : list Constant) : ClassReader (list Constant) :=
  match fuel with
  | O => fail "class file: out of fuel"
  | S fuel =>
    if i <? count then
      tag ← cur_u8;
      entry ← read_constant tag i;
      pool_loop fuel count (next_index i tag) (pool ++ entry :: (if slots tag =? 2 then [COther] else []))
    else mret pool
  end.

Definition parse_constant_pool : ClassReader (list Constant) :=
  fun c => (count ← cur_u16; pool_loop (S (length (cur_data c))) count 1 [COther] : ClassReader (list Constant)) c.

Record ClassHeader : Type := {
  hd_access_flags : Z;
  hd_this_class : string;
  hd_super_class : option string;
  hd_interfaces : list string;
}.

Definition read_class_name (pool : list Constant) : ClassReader string :=
  i ← cur_u16; checked (class_name pool i).
Definition read_utf8 (pool : list Constant) : ClassReader string :=
  i ← cur_u16; checked (utf8_const pool i).

Definition parse_header (pool : list Constant) : ClassReader ClassHeader :=
  access_flags ← cur_u16;
  this_class ← read_class_name pool;
  super_index ← cur_u16;
  super_class ← (if super_index =? 0 then mret None else s ← checked (class_name pool super_index); mret (Some s) : ClassReader (option string));
  count ← cur_u16;
  interfaces ← cur_times (Z.to_nat count) (read_class_name pool);
  mret {| hd_access_flags := access_flags; hd_this_class := this_class; hd_super_class := super_class;
          hd_interfaces := interfaces |}.

Definition skip_attribute : ClassReader unit :=
  _ ← cur_skip 2;
  len ← cur_u32;
  cur_skip len.

Definition parse_one_field (pool : list Constant) : ClassReader ClassFileField :=
  access_flags ← cur_u16;
  name ← read_utf8 pool;
  descriptor ← read_utf8 pool;
  attrs ← cur_u16;
  _ ← cur_times (Z.to_nat attrs) skip_attribute;
  mret {| cf_access_flags := access_flags; cf_name := name; cf_descriptor := descriptor |}.

Definition parse_fields (pool : list Constant) : ClassReader (list ClassFileField) :=
  count ← cur_u16;
  cur_times (Z.to_nat count) (parse_one_field pool).

Record CodeAttribute : Type := {
  ca_lines : list (Z * Z);
  ca_has_line_table : bool;
  ca_code : bytes;
}.

(** Run a reader over a slice of its own. *)
Definition on_slice {A} (r : ClassReader A) (body : bytes) : result string A :=
  match r {| cur_data := body; cur_at := 0 |} with Ok (a, _) => Ok a | Err e => Err e end.

Definition read_line_number_table (body : bytes) : result string (list (Z * Z)) :=
  on_slice (
    entries ← cur_u16;
    cur_times (Z.to_nat entries) (start_pc ← cur_u16; line ← cur_u16; mret (start_pc, line))) body.

(** The attributes of a code attribute, up to its first line table. *)
Fixpoint code_attributes (n : nat) (pool : list Constant) : ClassReader (option (list (Z * Z))) :=
  match n with
  | O => mret None
  | S n =>
    name ← read_utf8 pool;
    len ← cur_u32;
    if decide (name = "LineNumberTable") then
      body ← cur_take len;
      lines ← checked (read_line_number_table body);
      mret (Some lines)
    else
      _ ← cur_skip len;
      code_attributes n pool
  end.

Definition parse_code_body (pool : list Constant) (body : bytes) : result string CodeAttribute :=
  on_slice (
    _ ← cur_skip 4;
    code_len ← cur_u32;
    code ← cur_take code_len;
    exceptions ← cur_u16;
    _ ← cur_skip (exceptions * 8);
    attrs ← cur_u16;
    lines ← code_attributes (Z.to_nat attrs) pool;
    mret match lines with
         | Some lines => {| ca_lines := lines; ca_has_line_table := true; ca_code := code |}
         | None => {| ca_lines := []; ca_has_line_table := false; ca_code := code |}
         end) body.

(** The attributes of a method: the last [Code] is kept. *)
Fixpoint method_attributes (n : nat) (pool : list Constant) (code : option CodeAttribute) :
    ClassReader (option CodeAttribute) :=
  match n with
  | O => mret code
  | S n =>
    attr_name ← read_utf8 pool;
    len ← cur_u32;
    if decide (attr_name = "Code") then
      body ← cur_take len;
      attr ← checked (parse_code_body pool body);
      method_attributes n pool (Some attr)
    else
      _ ← cur_skip len;
      method_attributes n pool code
  end.

Definition method_of (access_flags : Z) (name descriptor : string) (code : option CodeAttribute) : ClassFileMethod := {|
  cm_access_flags := access_flags; cm_name := name; cm_descriptor := descriptor;
  cm_lines := from_option ca_lines [] code;
  cm_has_code := is_some code;
  cm_has_line_table := from_option ca_has_line_table false code;
  cm_code := from_option ca_code [] code
|}.

Definition parse_one_method (pool : list Constant) : ClassReader ClassFileMethod :=
  access_flags ← cur_u16;
  name ← read_utf8 pool;
  descriptor ← read_utf8 pool;
  attrs ← cur_u16;
  code ← method_attributes (Z.to_nat attrs) pool None;
  mret (method_of access_flags name descriptor code).

Definition parse_methods (pool : list Constant) : ClassReader (list ClassFileMethod) :=
  count ← cur_u16;
  cur_times (Z.to_nat count) (parse_one_method pool).

Definition parse_class (c : Cursor) : result string (ClassFile * Cursor) :=
  (magic ← cur_u32;
   if negb (magic =? 3405691582) then fail "not a class file: it does not start with 0xCAFEBABE" else
   _ ← cur_skip 4;
   pool ← parse_constant_pool;
   header ← parse_header pool;
   fields ← parse_fields pool;
   methods ← parse_methods pool;
   mret {| cls_this_class := hd_this_class header; cls_access_flags := hd_access_flags header;
           cls_super_class := hd_super_class header; cls_interfaces := hd_interfaces header;
           cls_fields := fields; cls_methods := methods |} : ClassReader ClassFile) c.

Definition parse (data : bytes) : result string ClassFile := on_slice parse_class data.

Example magic : 3405691582 = 0xCAFEBABE.
Proof. reflexivity. Qed.

(** ** Reading at a position *)

(** [r] reads [enc] as [a] wherever it stands in a file. *)
Definition Decodes {A} (r : ClassReader A) (enc : bytes) (a : A) : Prop := forall pre rest,
  zlen (pre ++ enc ++ rest) < 2 ^ 63 ->
  r {| cur_data := pre ++ enc ++ rest; cur_at := zlen pre |} =
  Ok (a, {| cur_data := pre ++ enc ++ rest; cur_at := zlen pre + zlen enc |}).

Lemma decodes_ret {A} (a : A) : Decodes (mret a) [] a.
Proof. intros pre rest _. unfold mret, class_reader_ret. by rewrite Z.add_0_r. Qed.

Lemma decodes_bind {A B} (r : ClassReader A) (k : A -> ClassReader B) e1 e2 a b :
  Decodes r e1 a -> Decodes (k a) e2 b -> Decodes (r ≫= k) (e1 ++ e2) b.
Proof.
  intros H1 H2 pre rest Hl. unfold mbind, class_reader_bind. rewrite <- (assoc_L (++)) in *.
  rewrite H1 by done. specialize (H2 (pre ++ e1) rest). rewrite <- !(assoc_L (++)) in H2.
  rewrite !zlen_app in *. rewrite H2 by done. by rewrite Z.add_assoc.
Qed.

Lemma decodes_fmap {A B} (r : ClassReader A) (f : A -> B) e a :
  Decodes r e a -> Decodes (x ← r; mret (f x)) e (f a).
Proof. intros H. rewrite <- (app_nil_r e). eapply decodes_bind; [exact H|apply decodes_ret]. Qed.

Lemma decodes_take b n : n = zlen b -> Decodes (cur_take n) b b.
Proof.
  intros -> pre rest Hl. unfold cur_take. cbn [cur_at cur_data]. rewrite !zlen_app in *.
  assert (Hz : 0 <= zlen rest) by (unfold zlen; lia).
  rewrite (proj2 (Z.leb_gt _ _)) by lia. rewrite (proj2 (Z.ltb_ge _ _)) by lia. unfold zlen.
  rewrite !Nat2Z.id, drop_app_exact, take_app_exact by done. done.
Qed.

Lemma decodes_skip b n : n = zlen b -> Decodes (cur_skip n) b tt.
Proof. intros H. by apply (decodes_fmap (cur_take n) (fun _ => tt) b b), decodes_take. Qed.

Lemma lor_shift hi lo w : 0 <= w -> 0 <= lo < 2 ^ w -> Z.lor (Z.shiftl hi w) lo = hi * 2 ^ w + lo.
Proof.
  intros Hw Hlo. assert (Hl : Z.land (Z.shiftl hi w) lo = 0).
  { apply Z.bits_inj'. intros n Hn. rewrite Z.land_spec, Z.bits_0. destruct (Z.lt_ge_cases n w).
    - by rewrite Z.shiftl_spec_low.
    - rewrite <- (Z.mod_small lo (2 ^ w)) by done. rewrite Z.mod_pow2_bits_high by lia. apply andb_false_r. }
  rewrite <- Z.lxor_lor by done. rewrite <- Z.add_nocarry_lxor by done. by rewrite Z.shiftl_mul_pow2.
Qed.

Lemma decodes_u8 b : Decodes cur_u8 [b] b.
Proof.
  rewrite <- (app_nil_r [b]). eapply decodes_bind; [by apply decodes_take|apply decodes_ret].
Qed.

Lemma decodes_u16 x : in_u 16 x -> Decodes cur_u16 (be_bytes 2 x) x.
Proof.
  intros Hx. rewrite <- (app_nil_r (be_bytes 2 x)). eapply decodes_bind.
  - apply decodes_take. unfold zlen. by rewrite be_bytes_length.
  - cbn [be_bytes lookup list_lookup]. rewrite lor_shift.
    + replace (_ + _) with x; [apply decodes_ret|]. unfold in_u in Hx. change (256 ^ Z.of_nat 1) with 256.
      change (256 ^ Z.of_nat 0) with 1. rewrite Z.div_1_r, (Z.mod_small (x / 256)) by (split; [apply Z.div_pos; lia|apply Z.div_lt_upper_bound; lia]).
      change (2 ^ 8) with 256. pose proof (Z.div_mod x 256). lia.
    + done.
    + apply Z.mod_pos_bound. lia.
Qed.

Lemma be_bytes_app n k x : be_bytes (n + k) x = be_bytes n (x / 256 ^ Z.of_nat k) ++ be_bytes k x.
Proof.
  induction n as [|n IH]; [done|]. cbn [Nat.add be_bytes app]. rewrite IH. f_equal.
  rewrite Z.div_div by lia. by rewrite <- Z.pow_add_r, <- Nat2Z.inj_add, Nat.add_comm by lia.
Qed.

Lemma decodes_u32 x : in_u 32 x -> Decodes cur_u32 (be_bytes 4 x) x.
Proof.
  intros Hx. unfold in_u in Hx. assert (Hb : be_bytes 4 x = be_bytes 2 (x / 65536) ++ be_bytes 2 (x mod 65536) ++ []).
  { rewrite app_nil_r, (be_bytes_app 2 2). f_equal. apply be_bytes_wrap. by rewrite Z.mod_mod. }
  rewrite Hb. eapply decodes_bind; [apply decodes_u16; unfold in_u; Z.div_mod_to_equations; lia|].
  eapply decodes_bind; [apply decodes_u16; unfold in_u; Z.div_mod_to_equations; lia|].
  rewrite lor_shift by (done || (change (2 ^ 16) with 65536; apply Z.mod_pos_bound; lia)).
  replace (_ + _) with x; [apply decodes_ret|]. change (2 ^ 16) with 65536. pose proof (Z.div_mod x 65536). lia.
Qed.

Lemma decodes_times {A} (r : ClassReader A) (encs : list bytes) (l : list A) n :
  n = length encs -> Forall2 (Decodes r) encs l -> Decodes (cur_times n r) (concat encs) l.
Proof.
  intros ->. induction 1 as [|e a encs l He _ IH]; [apply decodes_ret|]. cbn [length cur_times concat].
  eapply decodes_bind; [exact He|]. apply (decodes_fmap _ (cons a)), IH.
Qed.

Lemma decodes_checked {A} (r : result string A) a : r = Ok a -> Decodes (checked r) [] a.
Proof. intros -> pre rest _. unfold checked. by rewrite Z.add_0_r. Qed.

Lemma decodes_slice {A} (r : ClassReader A) enc a rest :
  Decodes r enc a -> zlen (enc ++ rest) < 2 ^ 63 -> on_slice r (enc ++ rest) = Ok a.
Proof. intros H Hl. unfold on_slice. specialize (H [] rest Hl). cbn [app] in H. change (@zlen Z []) with 0 in H. by rewrite H. Qed.

(** ** The layout of a class file *)

Inductive PoolEntry : Type := PUtf8 (b : bytes) | PClass (i : Z) | POther (tag : Z) (payload : bytes).

Definition entry_tag (e : PoolEntry) : Z := match e with PUtf8 _ => 1 | PClass _ => 7 | POther tag _ => tag end.
Definition entry_const (e : PoolEntry) : Constant :=
  match e with PUtf8 b => CUtf8 (from_utf8_lossy b) | PClass i => CClass i | POther _ _ => COther end.
Definition entry_body (e : PoolEntry) : bytes :=
  match e with PUtf8 b => be_bytes 2 (zlen b) ++ b | PClass i => be_bytes 2 i | POther _ payload => payload end.
Definition entry_ok (e : PoolEntry) : Prop :=
  match e with
  | PUtf8 b => in_u 16 (zlen b)
  | PClass i => in_u 16 i
  | POther tag payload => List.find (fun x => fst x =? tag) SKIP = Some (tag, zlen payload)
  end.

#[global] Instance entry_ok_dec e : Decision (entry_ok e).
Proof. destruct e; simpl; apply _. Defined.

Definition encode_entry (e : PoolEntry) : bytes := entry_tag e :: entry_body e.
Definition total_slots (entries : list PoolEntry) : Z := foldr (fun e n => slots (entry_tag e) + n) 0 entries.
Definition constants (entries : list PoolEntry) : list Constant :=
  concat (map (fun e => entry_const e :: (if slots (entry_tag e) =? 2 then [COther] else [])) entries).
(** The pool, with its unused entry zero. *)
Definition pool_of (entries : list PoolEntry) : list Constant := COther :: constants entries.

(** An attribute: the index of its name, and its bytes. *)
Record Attr : Type := { at_name : Z; at_body : bytes }.
Definition encode_attr (a : Attr) : bytes := be_bytes 2 (at_name a) ++ be_bytes 4 (zlen (at_body a)) ++ at_body a.
Definition attr_ok (a : Attr) : Prop := in_u 16 (at_name a) /\ in_u 32 (zlen (at_body a)).
Definition encode_attrs (l : list Attr) : bytes := concat (map encode_attr l).

Section Meaning.
Context (pool : list Constant).

(** Index [i] names [s]. *)
Definition names (i : Z) (s : string) : Prop := in_u 16 i /\ utf8_const pool i = Ok s.
Definition names_class (i : Z) (s : string) : Prop := in_u 16 i /\ class_name pool i = Ok s.
(** An attribute of another name than [s]. *)
Definition other_than (s : string) (a : Attr) : Prop :=
  attr_ok a /\ exists s', utf8_const pool (at_name a) = Ok s' /\ s' <> s.

Record FieldLayout : Type := { fl_flags : Z; fl_name : Z; fl_descriptor : Z; fl_attrs : list Attr }.
Definition encode_field (f : FieldLayout) : bytes :=
  be_bytes 2 (fl_flags f) ++ be_bytes 2 (fl_name f) ++ be_bytes 2 (fl_descriptor f) ++
  be_bytes 2 (zlen (fl_attrs f)) ++ encode_attrs (fl_attrs f).
Definition FieldMeans (f : FieldLayout) (r : ClassFileField) : Prop :=
  in_u 16 (fl_flags f) /\ cf_access_flags r = fl_flags f /\ names (fl_name f) (cf_name r) /\
  names (fl_descriptor f) (cf_descriptor r) /\ in_u 16 (zlen (fl_attrs f)) /\ Forall attr_ok (fl_attrs f).

(** A line table: its entries, and bytes nobody reads. *)
Record LineTable : Type := { lt_lines : list (Z * Z); lt_rest : bytes }.
Definition encode_line (x : Z * Z) : bytes := be_bytes 2 (fst x) ++ be_bytes 2 (snd x).
Definition encode_lines (t : LineTable) : bytes :=
  be_bytes 2 (zlen (lt_lines t)) ++ concat (map encode_line (lt_lines t)) ++ lt_rest t.
Definition line_ok (x : Z * Z) : Prop := in_u 16 (fst x) /\ in_u 16 (snd x).

(** The body of a [Code] attribute: its attributes up to the first line table, that table with the
    index of its name, and whatever follows it. *)
Record CodeLayout : Type := {
  cl_header : bytes;
  cl_code : bytes;
  cl_handlers : list bytes;
  cl_attr_count : Z;
  cl_attrs : list Attr;
  cl_table : option (Z * LineTable);
  cl_rest : bytes;
}.
Definition encode_table (t : option (Z * LineTable)) : bytes :=
  match t with Some (i, t) => encode_attr {| at_name := i; at_body := encode_lines t |} | None => [] end.
Definition encode_code (c : CodeLayout) : bytes :=
  cl_header c ++ be_bytes 4 (zlen (cl_code c)) ++ cl_code c ++ be_bytes 2 (zlen (cl_handlers c)) ++
  concat (cl_handlers c) ++ be_bytes 2 (cl_attr_count c) ++ encode_attrs (cl_attrs c) ++ encode_table (cl_table c) ++
  cl_rest c.
Definition TableMeans (c : CodeLayout) (r : CodeAttribute) : Prop :=
  match cl_table c with
  | Some (i, t) =>
    names i "LineNumberTable" /\ in_u 16 (zlen (lt_lines t)) /\ Forall line_ok (lt_lines t) /\
    in_u 32 (zlen (encode_lines t)) /\ zlen (cl_attrs c) < cl_attr_count c /\
    ca_lines r = lt_lines t /\ ca_has_line_table r = true
  | None => cl_attr_count c = zlen (cl_attrs c) /\ ca_lines r = [] /\ ca_has_line_table r = false
  end.
Definition CodeMeans (c : CodeLayout) (r : CodeAttribute) : Prop :=
  zlen (cl_header c) = 4 /\ in_u 32 (zlen (cl_code c)) /\ ca_code r = cl_code c /\
  in_u 16 (zlen (cl_handlers c)) /\ Forall (fun h => zlen h = 8) (cl_handlers c) /\
  in_u 16 (cl_attr_count c) /\ Forall (other_than "LineNumberTable") (cl_attrs c) /\ TableMeans c r.

(** The attributes of a method: what the last [Code] among them says. *)
Inductive MethodAttr : Type := MCode (i : Z) (c : CodeLayout) | MOther (a : Attr).
Definition encode_method_attr (a : MethodAttr) : bytes :=
  match a with MCode i c => encode_attr {| at_name := i; at_body := encode_code c |} | MOther a => encode_attr a end.
Inductive AttrsMean : option CodeAttribute -> list MethodAttr -> option CodeAttribute -> Prop :=
| attrs_end code : AttrsMean code [] code
| attrs_code code i c r l code' :
    names i "Code" -> in_u 32 (zlen (encode_code c)) -> CodeMeans c r -> AttrsMean (Some r) l code' ->
    AttrsMean code (MCode i c :: l) code'
| attrs_other code a l code' : other_than "Code" a -> AttrsMean code l code' -> AttrsMean code (MOther a :: l) code'.

Record MethodLayout : Type := { ml_flags : Z; ml_name : Z; ml_descriptor : Z; ml_attrs : list MethodAttr }.
Definition encode_method (m : MethodLayout) : bytes :=
  be_bytes 2 (ml_flags m) ++ be_bytes 2 (ml_name m) ++ be_bytes 2 (ml_descriptor m) ++
  be_bytes 2 (zlen (ml_attrs m)) ++ concat (map encode_method_attr (ml_attrs m)).
Definition MethodMeans (m : MethodLayout) (r : ClassFileMethod) : Prop :=
  exists code, in_u 16 (ml_flags m) /\ names (ml_name m) (cm_name r) /\ names (ml_descriptor m) (cm_descriptor r) /\
    in_u 16 (zlen (ml_attrs m)) /\ AttrsMean None (ml_attrs m) code /\
    r = method_of (ml_flags m) (cm_name r) (cm_descriptor r) code.
End Meaning.

Record ClassLayout : Type := {
  cly_version : bytes;
  cly_pool : list PoolEntry;
  cly_flags : Z;
  cly_this : Z;
  cly_super : Z;
  cly_interfaces : list Z;
  cly_fields : list FieldLayout;
  cly_methods : list MethodLayout;
}.
Definition encode_class (c : ClassLayout) : bytes :=
  be_bytes 4 0xCAFEBABE ++ cly_version c ++
  be_bytes 2 (1 + total_slots (cly_pool c)) ++ concat (map encode_entry (cly_pool c)) ++
  be_bytes 2 (cly_flags c) ++ be_bytes 2 (cly_this c) ++ be_bytes 2 (cly_super c) ++
  be_bytes 2 (zlen (cly_interfaces c)) ++ concat (map (be_bytes 2) (cly_interfaces c)) ++
  be_bytes 2 (zlen (cly_fields c)) ++ concat (map encode_field (cly_fields c)) ++
  be_bytes 2 (zlen (cly_methods c)) ++ concat (map encode_method (cly_methods c)).

(** A super index of zero is how the root class says it has none. *)
Definition SuperMeans (pool : list Constant) (i : Z) (s : option string) : Prop :=
  (i = 0 /\ s = None) \/ (i <> 0 /\ exists n, names_class pool i n /\ s = Some n).

Definition ClassMeans (c : ClassLayout) (r : ClassFile) : Prop :=
  let pool := pool_of (cly_pool c) in
  zlen (cly_version c) = 4 /\ Forall entry_ok (cly_pool c) /\ total_slots (cly_pool c) < 2 ^ 16 - 1 /\
  in_u 16 (cly_flags c) /\ cls_access_flags r = cly_flags c /\ names_class pool (cly_this c) (cls_this_class r) /\
  SuperMeans pool (cly_super c) (cls_super_class r) /\
  in_u 16 (zlen (cly_interfaces c)) /\ Forall2 (names_class pool) (cly_interfaces c) (cls_interfaces r) /\
  in_u 16 (zlen (cly_fields c)) /\ Forall2 (FieldMeans pool) (cly_fields c) (cls_fields r) /\
  in_u 16 (zlen (cly_methods c)) /\ Forall2 (MethodMeans pool) (cly_methods c) (cls_methods r).

(** ** The parser inverts the layout *)

#[local] Ltac reads_next lem := eapply decodes_bind; [apply lem; try done|].

Lemma decodes_utf8 pool i s : names pool i s -> Decodes (read_utf8 pool) (be_bytes 2 i) s.
Proof.
  intros [Hi Hs]. rewrite <- (app_nil_r (be_bytes 2 i)). reads_next decodes_u16. by apply decodes_checked.
Qed.
Lemma decodes_class_name pool i s : names_class pool i s -> Decodes (read_class_name pool) (be_bytes 2 i) s.
Proof.
  intros [Hi Hs]. rewrite <- (app_nil_r (be_bytes 2 i)). reads_next decodes_u16. by apply decodes_checked.
Qed.

Lemma decodes_skip_attribute a : attr_ok a -> Decodes skip_attribute (encode_attr a) tt.
Proof.
  intros [Hn Hl]. unfold skip_attribute, encode_attr.
  eapply decodes_bind; [apply decodes_skip; unfold zlen; by rewrite be_bytes_length|].
  reads_next decodes_u32. by apply decodes_skip.
Qed.

Lemma Forall2_map_Forall {A B C} (P : B -> C -> Prop) (f : A -> B) (g : A -> C) l :
  Forall (fun a => P (f a) (g a)) l -> Forall2 P (map f l) (map g l).
Proof. induction 1; constructor; auto. Qed.

Lemma decodes_list {A B} (r : ClassReader A) (enc : B -> bytes) (P : B -> A -> Prop) bs l :
  (forall b a, P b a -> Decodes r (enc b) a) -> Forall2 P bs l ->
  Decodes (cur_times (Z.to_nat (zlen bs)) r) (concat (map enc bs)) l.
Proof.
  intros Hr H. apply decodes_times; [unfold zlen; by rewrite Nat2Z.id, length_map|].
  induction H as [|b a bs l Hb _ IH]; constructor; auto.
Qed.

Lemma decodes_field pool f r : FieldMeans pool f r -> Decodes (parse_one_field pool) (encode_field f) r.
Proof.
  intros (Hf & Hfl & Hn & Hd & Hl & Ha). unfold parse_one_field, encode_field.
  reads_next decodes_u16. reads_next decodes_utf8. reads_next decodes_utf8. reads_next decodes_u16.
  rewrite <- (app_nil_r (encode_attrs _)). eapply decodes_bind.
  - apply (decodes_list skip_attribute encode_attr (fun a _ => attr_ok a) (fl_attrs f) (map (fun _ => tt) (fl_attrs f))).
    + intros b []. apply decodes_skip_attribute.
    + clear -Ha. induction Ha; constructor; auto.
  - rewrite <- Hfl. destruct r. apply decodes_ret.
Qed.

Lemma decodes_line_table t :
  in_u 16 (zlen (lt_lines t)) -> Forall line_ok (lt_lines t) -> zlen (encode_lines t) < 2 ^ 63 ->
  read_line_number_table (encode_lines t) = Ok (lt_lines t).
Proof.
  intros Hl Hok Hlen. unfold read_line_number_table. unfold encode_lines in *. rewrite (assoc_L (++)) in *.
  apply decodes_slice; [|done]. reads_next decodes_u16.
  apply (decodes_list _ encode_line (fun x y => x = y /\ line_ok x)).
  - intros [pc line] ? [<- [Hp Hn]]. unfold encode_line. reads_next decodes_u16.
    cbn [fst snd]. rewrite <- (app_nil_r (be_bytes 2 line)). reads_next decodes_u16. apply decodes_ret.
  - clear -Hok. induction Hok; constructor; auto.
Qed.

(** Attributes of other names, then what follows them. *)
Lemma decodes_code_attributes_skip pool attrs k enc r :
  Forall (other_than pool "LineNumberTable") attrs -> Decodes (code_attributes k pool) enc r ->
  Decodes (code_attributes (length attrs + k) pool) (encode_attrs attrs ++ enc) r.
Proof.
  intros Ha Hk. unfold encode_attrs.
  induction Ha as [|a attrs ([Hi Hb] & s & Hs & Hne) _ IH]; [done|]. cbn [length Nat.add code_attributes map concat].
  unfold encode_attr at 1. rewrite <- !(assoc_L (++)).
  eapply decodes_bind; [apply decodes_utf8; by split|]. reads_next decodes_u32.
  rewrite decide_False by done. reads_next decodes_skip. exact IH.
Qed.

Lemma decodes_code_attributes_table pool n i t :
  names pool i "LineNumberTable" -> in_u 16 (zlen (lt_lines t)) -> Forall line_ok (lt_lines t) ->
  in_u 32 (zlen (encode_lines t)) ->
  Decodes (code_attributes (S n) pool) (encode_attr {| at_name := i; at_body := encode_lines t |}) (Some (lt_lines t)).
Proof.
  intros Hi Hn Hl Hb. cbn [code_attributes]. unfold encode_attr. cbn [at_name at_body].
  eapply decodes_bind; [by apply decodes_utf8|]. reads_next decodes_u32. rewrite decide_True by done.
  rewrite <- (app_nil_r (encode_lines t)) at 2. reads_next decodes_take.
  rewrite <- (app_nil_r (@nil Z)). eapply decodes_bind; [|apply decodes_ret]. apply decodes_checked, decodes_line_table; try done.
  unfold in_u in Hb. lia.
Qed.

Lemma zlen_concat_const {A} (l : list (list A)) k : Forall (fun x => zlen x = k) l -> zlen (concat l) = zlen l * k.
Proof. induction 1 as [|x l Hx _ IH]; [done|]. cbn [concat]. rewrite zlen_app, IH, Hx. unfold zlen. simpl. lia. Qed.

Lemma decodes_code_attributes pool c r :
  Forall (other_than pool "LineNumberTable") (cl_attrs c) -> TableMeans pool c r ->
  exists table, Decodes (code_attributes (Z.to_nat (cl_attr_count c)) pool)
    (encode_attrs (cl_attrs c) ++ encode_table (cl_table c)) table /\
    (table = Some (ca_lines r) /\ ca_has_line_table r = true \/
     table = None /\ ca_lines r = [] /\ ca_has_line_table r = false).
Proof.
  intros Hattrs Htable. unfold TableMeans in Htable. unfold encode_table. destruct (cl_table c) as [[i t]|].
  - destruct Htable as (Hi & Hln & Hlines & Hb & Hcount & -> & Hhas). exists (Some (lt_lines t)). split; [|by left].
    replace (Z.to_nat (cl_attr_count c)) with (length (cl_attrs c) + S (Z.to_nat (cl_attr_count c - zlen (cl_attrs c) - 1)))%nat
      by (unfold zlen in *; lia).
    apply decodes_code_attributes_skip; [done|]. by apply decodes_code_attributes_table.
  - destruct Htable as (-> & Hl & Hhas). exists None. split; [|by right].
    replace (Z.to_nat (zlen (cl_attrs c))) with (length (cl_attrs c) + 0)%nat by (unfold zlen; lia).
    apply decodes_code_attributes_skip; [done|]. apply decodes_ret.
Qed.

Lemma parse_code pool c r :
  CodeMeans pool c r -> zlen (encode_code c) < 2 ^ 63 -> parse_code_body pool (encode_code c) = Ok r.
Proof.
  intros (Hh & Hcl & Hc & Hhl & Hhs & Hac & Hattrs & Htable) Hlen. unfold parse_code_body.
  destruct (decodes_code_attributes pool c r Hattrs Htable) as (table & Hd & Hr).
  unfold encode_code in *. rewrite !(assoc_L (++)) in *. apply decodes_slice; [|done]. rewrite <- !(assoc_L (++)).
  reads_next decodes_skip. reads_next decodes_u32. reads_next decodes_take. reads_next decodes_u16.
  reads_next decodes_skip.
  { by rewrite (zlen_concat_const _ 8). }
  reads_next decodes_u16. rewrite <- (app_nil_r (encode_attrs _ ++ _)). eapply decodes_bind; [exact Hd|].
  destruct r as [lines has code]. simpl in *. subst code.
  destruct Hr as [[-> ->]|(-> & -> & ->)]; apply decodes_ret.
Qed.

Lemma decodes_method_attributes pool code attrs code' :
  AttrsMean pool code attrs code' ->
  Decodes (method_attributes (length attrs) pool code) (concat (map encode_method_attr attrs)) code'.
Proof.
  induction 1 as [code|code i c r l code' Hi Hb Hc _ IH|code a l code' ([Hi Hb] & s & Hs & Hne) _ IH];
    [apply decodes_ret|..]; cbn [length method_attributes map concat encode_method_attr]; unfold encode_attr;
    cbn [at_name at_body]; rewrite <- !(assoc_L (++)).
  - eapply decodes_bind; [by apply decodes_utf8|]. reads_next decodes_u32. rewrite decide_True by done.
    reads_next decodes_take. rewrite <- (app_nil_l (concat _)).
    eapply decodes_bind; [|exact IH]. apply decodes_checked, parse_code; [done|]. unfold in_u in Hb. lia.
  - eapply decodes_bind; [apply decodes_utf8; by split|]. reads_next decodes_u32. rewrite decide_False by done.
    reads_next decodes_skip. exact IH.
Qed.

Lemma decodes_method pool m r : MethodMeans pool m r -> Decodes (parse_one_method pool) (encode_method m) r.
Proof.
  intros (code & Hf & Hn & Hd & Hl & Ha & ->). unfold parse_one_method, encode_method.
  reads_next decodes_u16. eapply decodes_bind; [by apply decodes_utf8|]. eapply decodes_bind; [by apply decodes_utf8|].
  reads_next decodes_u16. rewrite <- (app_nil_r (concat _)). eapply decodes_bind.
  - replace (Z.to_nat (zlen (ml_attrs m))) with (length (ml_attrs m)) by (unfold zlen; lia).
    by apply decodes_method_attributes.
  - apply decodes_ret.
Qed.

(** *** The constant pool *)

Lemma decodes_constant e i : entry_ok e -> Decodes (read_constant (entry_tag e) i) (entry_body e) (entry_const e).
Proof.
  destruct e as [b|i'|tag payload]; cbn [entry_ok entry_tag entry_body entry_const]; intros Hok; unfold read_constant.
  - change (1 =? 1) with true. cbv iota. reads_next decodes_u16.
    by apply (decodes_fmap (cur_take (zlen b)) (fun b => CUtf8 (from_utf8_lossy b)) b b), decodes_take.
  - change (7 =? 1) with false. change (7 =? 7) with true. cbv iota. rewrite <- (app_nil_r (be_bytes 2 i')).
    reads_next decodes_u16. apply decodes_ret.
  - assert (Htag : tag <> 1 /\ tag <> 7) by (split; intros ->; by vm_compute in Hok).
    rewrite !(proj2 (Z.eqb_neq tag _)) by tauto. rewrite Hok.
    by apply (decodes_fmap (cur_skip (zlen payload)) (fun _ => COther) payload tt), decodes_skip.
Qed.

Lemma slots_pos tag : 1 <= slots tag <= 2.
Proof. unfold slots. case_match; lia. Qed.
Lemma total_slots_nonneg entries : 0 <= total_slots entries.
Proof. induction entries as [|e entries IH]; simpl; [lia|]. pose proof (slots_pos (entry_tag e)). lia. Qed.

Lemma decodes_pool_loop entries fuel i pool :
  Forall entry_ok entries -> 0 <= i -> i + total_slots entries < 2 ^ 16 -> (length entries < fuel)%nat ->
  Decodes (pool_loop fuel (i + total_slots entries) i pool) (concat (map encode_entry entries))
    (pool ++ constants entries).
Proof.
  intros Hok. revert fuel i pool. induction Hok as [|e entries He _ IH]; intros fuel i pool Hi Hlt Hf;
    (destruct fuel as [|fuel]; [simpl in Hf; lia|]); cbn [pool_loop total_slots foldr map concat].
  - rewrite (proj2 (Z.ltb_ge _ _)) by lia. rewrite app_nil_r. apply decodes_ret.
  - fold (total_slots entries). pose proof (slots_pos (entry_tag e)). pose proof (total_slots_nonneg entries).
    cbn [total_slots foldr] in Hlt. fold (total_slots entries) in Hlt.
    rewrite (proj2 (Z.ltb_lt _ _)) by lia. unfold encode_entry at 1. rewrite <- app_comm_cons.
    change (entry_tag e :: ?x) with ([entry_tag e] ++ x). eapply decodes_bind; [apply decodes_u8|].
    eapply decodes_bind; [by apply decodes_constant|].
    assert (Hnext : next_index i (entry_tag e) = i + slots (entry_tag e)) by (apply wrap_u_id; unfold in_u; lia).
    rewrite Hnext, Z.add_assoc. simpl in Hf.
    replace (pool ++ constants (e :: entries)) with
      ((pool ++ entry_const e :: (if slots (entry_tag e) =? 2 then [COther] else [])) ++ constants entries)
      by (by rewrite <- (assoc_L (++))).
    apply IH; lia.
Qed.

Lemma decodes_constant_pool entries :
  Forall entry_ok entries -> total_slots entries < 2 ^ 16 - 1 ->
  Decodes parse_constant_pool (be_bytes 2 (1 + total_slots entries) ++ concat (map encode_entry entries)) (pool_of entries).
Proof.
  intros Hok Hlt pre rest Hl. unfold parse_constant_pool. cbn [cur_data]. pose proof (total_slots_nonneg entries).
  match goal with |- ?r _ = _ => enough (Hd : Decodes r (be_bytes 2 (1 + total_slots entries) ++
    concat (map encode_entry entries)) (pool_of entries)) by (by apply Hd) end.
  reads_next decodes_u16; [unfold in_u; lia|]. apply (decodes_pool_loop entries _ 1 [COther]); [done|lia|lia|].
  rewrite !length_app, Nat.lt_succ_r. assert (Hlen : (length entries <= length (concat (map encode_entry entries)))%nat).
  { clear. induction entries as [|e entries IH]; [done|]. cbn [map concat length]. rewrite length_app. simpl. lia. }
  lia.
Qed.

Lemma decodes_super pool i s :
  SuperMeans pool i s ->
  Decodes (if i =? 0 then mret None else s ← checked (class_name pool i); mret (Some s)) [] s.
Proof.
  intros [[-> ->]|(Hne & n & [_ Hn] & ->)]; [apply decodes_ret|].
  rewrite (proj2 (Z.eqb_neq i 0)) by done. rewrite <- (app_nil_r []).
  eapply decodes_bind; [by apply decodes_checked|apply decodes_ret].
Qed.

Lemma super_index_ok pool i s : SuperMeans pool i s -> in_u 16 i.
Proof. intros [[-> _]|(_ & n & [Hi _] & _)]; [by_compute|done]. Qed.

Lemma decodes_class c r : ClassMeans c r -> Decodes parse_class (encode_class c) r.
Proof.
  intros (Hv & Hpool & Hslots & Hf & Hflags & Hthis & Hsuper & Hil & Hi & Hfl & Hfs & Hml & Hms).
  unfold parse_class, encode_class. intros pre rest Hl. revert pre rest Hl.
  unfold encode_class. reads_next decodes_u32. cbn [negb]. change (negb (3405691582 =? 3405691582)) with false. cbv iota.
  reads_next decodes_skip. rewrite (assoc_L (++) (be_bytes 2 (1 + _))).
  eapply decodes_bind; [by apply decodes_constant_pool|].
  set (pool := pool_of (cly_pool c)) in *.
  set (header := {| hd_access_flags := cly_flags c; hd_this_class := cls_this_class r;
                    hd_super_class := cls_super_class r; hd_interfaces := cls_interfaces r |}).
  assert (Hheader : Decodes (parse_header pool) (be_bytes 2 (cly_flags c) ++ be_bytes 2 (cly_this c) ++
    be_bytes 2 (cly_super c) ++ be_bytes 2 (zlen (cly_interfaces c)) ++
    concat (map (be_bytes 2) (cly_interfaces c))) header).
  { unfold parse_header. reads_next decodes_u16. eapply decodes_bind; [by apply decodes_class_name|].
    reads_next decodes_u16; [by eapply super_index_ok|].
    rewrite <- (app_nil_l (be_bytes 2 (zlen _) ++ _)). eapply decodes_bind; [by apply decodes_super|].
    reads_next decodes_u16. rewrite <- (app_nil_r (concat _)). eapply decodes_bind.
    { by apply (decodes_list _ (be_bytes 2) (names_class pool)); [apply decodes_class_name|]. }
    apply decodes_ret. }
  assert (Hfields : Decodes (parse_fields pool) (be_bytes 2 (zlen (cly_fields c)) ++
    concat (map encode_field (cly_fields c))) (cls_fields r)).
  { unfold parse_fields. reads_next decodes_u16.
    by apply (decodes_list _ encode_field (FieldMeans pool)); [apply decodes_field|]. }
  assert (Hmethods : Decodes (parse_methods pool) (be_bytes 2 (zlen (cly_methods c)) ++
    concat (map encode_method (cly_methods c))) (cls_methods r)).
  { unfold parse_methods. reads_next decodes_u16.
    by apply (decodes_list _ encode_method (MethodMeans pool)); [apply decodes_method|]. }
  match goal with |- Decodes _ ?e _ => replace e with
    ((be_bytes 2 (cly_flags c) ++ be_bytes 2 (cly_this c) ++ be_bytes 2 (cly_super c) ++
      be_bytes 2 (zlen (cly_interfaces c)) ++ concat (map (be_bytes 2) (cly_interfaces c))) ++
     (be_bytes 2 (zlen (cly_fields c)) ++ concat (map encode_field (cly_fields c))) ++
     (be_bytes 2 (zlen (cly_methods c)) ++ concat (map encode_method (cly_methods c))) ++ []) end.
  2: { rewrite app_nil_r, <- !(assoc_L (++)). done. }
  eapply decodes_bind; [exact Hheader|]. eapply decodes_bind; [exact Hfields|]. eapply decodes_bind; [exact Hmethods|].
  unfold header. cbn [hd_access_flags hd_this_class hd_super_class hd_interfaces]. rewrite <- Hflags. destruct r. apply decodes_ret.
Qed.

(** ** The fuel of the pool walk *)

(** On bytes, a reader that succeeds keeps its data, moves on by [n] at least, and answers a [P]. *)
Definition Advances {A} (r : ClassReader A) (n : Z) (P : A -> Prop) : Prop := forall c a c',
  bytes_ok (cur_data c) -> r c = Ok (a, c') ->
  cur_data c' = cur_data c /\ cur_at c + n <= cur_at c' /\ P a.

Lemma advances_take n : 0 <= n -> Advances (cur_take n) n bytes_ok.
Proof.
  intros Hn c a c' Hok H. unfold cur_take in H. case_match; [done|]. case_match; [done|].
  injection H as <- <-. simpl. split_and!; [done|lia|]. by apply bytes_ok_take, bytes_ok_drop.
Qed.

Lemma advances_ret {A} (a : A) (P : A -> Prop) : P a -> Advances (mret a) 0 P.
Proof. intros Ha c b c' _ [= <- <-]. split_and!; [done|lia|done]. Qed.

Lemma advances_fail {A} e (P : A -> Prop) : Advances (fail e) 0 P.
Proof. by intros c a c' _ H. Qed.

Lemma advances_bind {A B} (r : ClassReader A) (k : A -> ClassReader B) n (P : A -> Prop) (Q : B -> Prop) :
  Advances r n P -> (forall a, P a -> Advances (k a) 0 Q) -> Advances (r ≫= k) n Q.
Proof.
  intros Hr Hk c b c' Hok H. unfold mbind, class_reader_bind in H. destruct (r c) as [[a c1]|e] eqn:E; [|done].
  apply Hr in E as (Hd & Ha & Pa); [|done]. apply (Hk a Pa) in H as (Hd' & Ha' & Qb); [|congruence].
  split_and!; [congruence|lia|done].
Qed.

Lemma advances_weaken {A} (r : ClassReader A) n (P : A -> Prop) : 0 <= n -> Advances r n P -> Advances r 0 P.
Proof. intros Hn Hr c a c' Hok H. destruct (Hr c a c' Hok H) as (? & ? & ?). split_and!; [done|lia|done]. Qed.

Lemma advances_u16 : Advances cur_u16 0 (fun x => 0 <= x).
Proof.
  apply (advances_weaken _ 2); [done|]. eapply advances_bind; [by apply advances_take|]. intros b Hb.
  destruct (b !! 0%nat) as [hi|] eqn:E0, (b !! 1%nat) as [lo|] eqn:E1; try apply advances_fail. apply advances_ret.
  apply Z.lor_nonneg. rewrite Z.shiftl_nonneg.
  split; [apply (list.Forall_lookup_1 _ _ _ _ Hb E0)|apply (list.Forall_lookup_1 _ _ _ _ Hb E1)].
Qed.

Lemma advances_skip n : 0 <= n -> Advances (cur_skip n) 0 (fun _ => True).
Proof.
  intros Hn. apply (advances_weaken _ n); [done|]. eapply advances_bind; [by apply advances_take|].
  intros _ _. by apply advances_ret.
Qed.

Lemma advances_constant tag i : Advances (read_constant tag i) 0 (fun _ => True).
Proof.
  unfold read_constant. destruct (tag =? 1); [|destruct (tag =? 7)].
  - eapply advances_bind; [apply advances_u16|]. intros len Hlen.
    apply (advances_weaken _ len); [done|]. eapply advances_bind; [by apply advances_take|].
    intros b _. by apply advances_ret.
  - eapply advances_bind; [apply advances_u16|]. intros x _. by apply advances_ret.
  - destruct (List.find _ SKIP) as [[t width]|] eqn:E; [|apply advances_fail].
    assert (Hw : 0 <= width).
    { apply find_some in E as [E _]. apply list_elem_of_In in E. unfold SKIP in E.
      repeat (apply elem_of_cons in E as [[= _ ->]|E]; [done|]). by apply elem_of_nil in E. }
    eapply advances_bind; [by apply advances_skip|]. intros _ _. by apply advances_ret.
Qed.

Lemma u8_advances c b c' : cur_u8 c = Ok (b, c') -> cur_data c' = cur_data c /\ cur_at c' = cur_at c + 1 /\ cur_at c' <= zlen (cur_data c).
Proof.
  unfold cur_u8, mbind, class_reader_bind, cur_take. destruct (2 ^ 64 <=? _); [done|].
  destruct (zlen _ <? _) eqn:E; [done|]. reflect_bools. intros H'. destruct (head _); [|done]. injection H' as _ <-. simpl. split_and!; [done|lia|lia].
Qed.

(** Turns beyond the bytes left change nothing, so the walk never runs out of fuel. *)
Lemma pool_loop_fuel fuel fuel' count i pool c :
  bytes_ok (cur_data c) -> zlen (cur_data c) - cur_at c <= Z.of_nat fuel ->
  zlen (cur_data c) - cur_at c <= Z.of_nat fuel' ->
  pool_loop (S fuel) count i pool c = pool_loop (S fuel') count i pool c.
Proof.
  revert fuel' i pool c. induction fuel as [|fuel IH]; intros fuel' i pool c Hok Hf Hf';
    cbn [pool_loop]; (destruct (i <? count); [|done]); unfold mbind, class_reader_bind;
    (destruct (cur_u8 c) as [[tag c1]|e] eqn:E; [|done]); apply u8_advances in E as (Hd & Ha & Hle); [lia|].
  destruct fuel' as [|fuel']; [lia|].
  destruct (read_constant tag i c1) as [[entry c2]|e] eqn:E2; [|done].
  destruct (advances_constant tag i c1 entry c2) as (Hd2 & Ha2 & _); [congruence|done|].
  apply (IH fuel'); rewrite Hd2, Hd; [done|lia|lia].
Qed.

(** The index of a two-slot constant in the last entry a pool can count wraps around: the walk goes on
    from entry zero instead of ending. *)
Lemma last_index_wraps count pool c tag c1 entry c2 fuel :
  count = 65535 -> tag = 5 \/ tag = 6 -> cur_u8 c = Ok (tag, c1) -> read_constant tag 65534 c1 = Ok (entry, c2) ->
  pool_loop (S fuel) count 65534 pool c = pool_loop fuel count 0 (pool ++ [entry; COther]) c2.
Proof.
  intros -> Htag H1 H2. cbn [pool_loop]. change (65534 <? 65535) with true. cbv iota.
  unfold mbind at 1, class_reader_bind at 1. rewrite H1. unfold mbind, class_reader_bind. rewrite H2.
  by destruct Htag as [-> | ->].
Qed.

(** C24. The class-file parser reads what a class file says. For every layout whose indices name
    constants of the right kind, with any constants in its pool (two-slot ones included), any skipped
    attributes, any number of [Code] attributes and line tables, and any bytes after the methods, the
    parser answers the names, flags, descriptors, bytecodes and line tables the layout means; and on any
    bytes at all the walk over the pool ends, more fuel than the file is long changing nothing. *)
Theorem class_parsed (c : ClassLayout) (r : ClassFile) (trailing : bytes) :
  ClassMeans c r -> zlen (encode_class c ++ trailing) < 2 ^ 63 ->
  parse (encode_class c ++ trailing) = Ok r /\
  (forall data count at_ fuel, bytes_ok data -> 0 <= at_ -> (length data <= fuel)%nat ->
    pool_loop (S fuel) count 1 [COther] {| cur_data := data; cur_at := at_ |} =
    pool_loop (S (length data)) count 1 [COther] {| cur_data := data; cur_at := at_ |}) /\
  (forall pool cur tag cur1 entry cur2 fuel, tag = 5 \/ tag = 6 -> cur_u8 cur = Ok (tag, cur1) ->
    read_constant tag 65534 cur1 = Ok (entry, cur2) ->
    pool_loop (S fuel) 65535 65534 pool cur = pool_loop fuel 65535 0 (pool ++ [entry; COther]) cur2).
Proof.
  intros Hm Hl. split_and!; [apply (decodes_slice parse_class); [by apply decodes_class|done]| |].
  - intros data count at_ fuel Hok Hat Hfuel. apply pool_loop_fuel; cbn [cur_data cur_at]; unfold zlen; [done|lia|lia].
  - intros. by eapply last_index_wraps.
Qed.

(** A class with a long in its pool, a field, and a method with a line table after another attribute. *)
Definition sample_layout : ClassLayout :=
  let s x := PUtf8 (bytes_of_string x) in
  {| cly_version := [0; 0; 0; 65];
     cly_pool := [POther 5 [0; 0; 0; 0; 0; 0; 0; 7]; s "a/B"; PClass 3; s "f"; s "I"; s "run"; s "()V"; s "Code";
                  s "LineNumberTable"; s "StackMapTable"];
     cly_flags := 33; cly_this := 4; cly_super := 0; cly_interfaces := [4];
     cly_fields := [{| fl_flags := 2; fl_name := 5; fl_descriptor := 6; fl_attrs := [{| at_name := 11; at_body := [1; 2] |}] |}];
     cly_methods := [{| ml_flags := 1; ml_name := 7; ml_descriptor := 8; ml_attrs := [
       MCode 9 {| cl_header := [0; 1; 0; 1]; cl_code := [177]; cl_handlers := []; cl_attr_count := 2;
                  cl_attrs := [{| at_name := 11; at_body := [9] |}];
                  cl_table := Some (10, {| lt_lines := [(0, 12)]; lt_rest := [] |}); cl_rest := [] |}] |}] |}.
Definition sample_class : ClassFile := {|
  cls_this_class := "a.B"; cls_access_flags := 33; cls_super_class := None; cls_interfaces := ["a.B"];
  cls_fields := [{| cf_access_flags := 2; cf_name := "f"; cf_descriptor := "I" |}];
  cls_methods := [{| cm_access_flags := 1; cm_name := "run"; cm_descriptor := "()V"; cm_lines := [(0, 12)];
                     cm_has_code := true; cm_has_line_table := true; cm_code := [177] |}] |}.

Lemma sample_means : ClassMeans sample_layout sample_class.
Proof.
  unfold ClassMeans.
  split_and!; try by_compute.
  - by left.
  - constructor; [|done].
    exists (Some {| ca_lines := [(0, 12)]; ca_has_line_table := true; ca_code := [177] |}).
    split_and!; try by_compute; [|reflexivity]. eapply attrs_code; [by_compute|by_compute| |constructor]. split_and!; try by_compute.
    + constructor; [|done]. split; [split; by_compute|]. exists "StackMapTable". split; [by vm_compute|done].
Qed.

Lemma class_parsed_witness : parse (encode_class sample_layout ++ [0; 0]) = Ok sample_class.
Proof. refine (proj1 (class_parsed sample_layout sample_class [0; 0] sample_means _)). by_compute. Defined.
