(* ===== verification/Text.v ===== *)
(** * Source text ([mcp-server/src/handlers.rs])

    What the condition language and the expression parser share: a [&str] as the list of its
    characters (Unicode scalar values), [trim], prefixes, the scan state [Quoted], identifiers. *)

From S2P Require Import Prelude.

(** ** Characters *)

Abbreviation chars := (list Z).

Abbreviation ch a := (byte_of_ascii a%char).

(** The characters of an ASCII literal. *)
Definition chars_of (s : string) : chars := bytes_of_string s.

(** [str::chars]: the code points of valid UTF-8. *)
Fixpoint utf8_chars (bs : bytes) : chars :=
  match bs with
  | [] => []
  | b0 :: r0 =>
    if b0 <? 128 then b0 :: utf8_chars r0 else
    match r0 with
    | [] => []
    | b1 :: r1 =>
      if b0 <? 224 then ((b0 - 192) * 64 + (b1 - 128)) :: utf8_chars r1 else
      match r1 with
      | [] => []
      | b2 :: r2 =>
        if b0 <? 240 then ((b0 - 224) * 4096 + (b1 - 128) * 64 + (b2 - 128)) :: utf8_chars r2 else
        match r2 with
        | [] => []
        | b3 :: r3 =>
          ((b0 - 240) * 262144 + (b1 - 128) * 4096 + (b2 - 128) * 64 + (b3 - 128)) :: utf8_chars r3
        end
      end
    end
  end.
Definition str_chars (s : string) : chars := utf8_chars (bytes_of_string s).

Abbreviation QUOTE := 34.
Abbreviation APOS := 39.
Abbreviation BACKSLASH := 92.

(** [char::is_whitespace]: the Unicode property White_Space. *)
Definition is_whitespace (c : Z) : bool :=
  between 9 13 c || (c =? 32) || (c =? 133) || (c =? 160) || (c =? 5760) || between 8192 8202 c
  || (c =? 8232) || (c =? 8233) || (c =? 8239) || (c =? 8287) || (c =? 12288).

Definition is_ascii_digit (c : Z) : bool := between 48 57 c.
Definition is_ascii_alphabetic (c : Z) : bool := between 65 90 c || between 97 122 c.
Definition is_ascii_alphanumeric (c : Z) : bool := is_ascii_alphabetic c || is_ascii_digit c.

(** ** [str::trim], [str::strip_prefix] *)

Fixpoint trim_start (s : chars) : chars :=
  match s with c :: r => if is_whitespace c then trim_start r else s | [] => [] end.
Definition trim_end (s : chars) : chars := rev (trim_start (rev s)).
Definition trim (s : chars) : chars := trim_end (trim_start s).

Fixpoint strip_prefix (p s : chars) : option chars :=
  match p, s with
  | [], _ => Some s
  | a :: p, b :: s => if a =? b then strip_prefix p s else None
  | _ :: _, [] => None
  end.
Definition starts_with (p s : chars) : bool := is_some (strip_prefix p s).
Definition strip_suffix (p s : chars) : option chars := (@rev Z) <$> strip_prefix (rev p) (rev s).
Definition ends_with (p s : chars) : bool := is_some (strip_suffix p s).

(** ** Identifiers *)

Definition ident_start (c : Z) : bool := is_ascii_alphabetic c || (c =? ch "_") || (c =? ch "$").
Definition ident_part (c : Z) : bool := is_ascii_alphanumeric c || (c =? ch "_") || (c =? ch "$").

Definition is_ident (s : chars) : bool :=
  match s with c :: _ => ident_start c && forallb ident_part s | [] => false end.

(** ** The scan state *)

Record Quoted := { in_str : bool; in_char : bool; escaped : bool }.

#[global] Instance Quoted_eq : EqDecision Quoted.
Proof. solve_decision. Defined.

Definition quoted_default : Quoted := {| in_str := false; in_char := false; escaped := false |}.

Definition inside (q : Quoted) : bool := in_str q || in_char q.

Definition quoted_step (q : Quoted) (c : Z) : Quoted :=
  if escaped q then {| in_str := in_str q; in_char := in_char q; escaped := false |}
  else if (c =? BACKSLASH) && inside q then {| in_str := in_str q; in_char := in_char q; escaped := true |}
  else if (c =? QUOTE) && negb (in_char q) then
    {| in_str := negb (in_str q); in_char := in_char q; escaped := false |}
  else if (c =? APOS) && negb (in_str q) then
    {| in_str := in_str q; in_char := negb (in_char q); escaped := false |}
  else q.

(** ** Lemmas *)

Definition blank (s : chars) : Prop := Forall (fun c => is_whitespace c = true) s.

Lemma blank_rev s : blank s -> blank (rev s).
Proof. apply List.Forall_rev. Qed.

Lemma trim_start_blank w s : blank w -> trim_start (w ++ s) = trim_start s.
Proof. induction 1 as [|c w Hc _ IH]; [done|]. cbn. by rewrite Hc. Qed.

Lemma trim_start_split s : exists w, blank w /\ s = w ++ trim_start s.
Proof.
  induction s as [|c s (w & Hw & E)]; [by exists []; split; [constructor|]|]. cbn [trim_start].
  destruct (is_whitespace c) eqn:Hc; [|by exists []; split; [constructor|]].
  exists (c :: w). split; [by constructor|]. cbn. by f_equal.
Qed.

Lemma trim_start_head s c r : trim_start s = c :: r -> is_whitespace c = false.
Proof.
  induction s as [|d s IH]; [done|]. cbn [trim_start].
  destruct (is_whitespace d) eqn:Hd; [done|]. by intros [= <- <-].
Qed.

Lemma trim_start_cons c s : is_whitespace c = false -> trim_start (c :: s) = c :: s.
Proof. intros H. cbn. by rewrite H. Qed.

Lemma trim_start_idem s : trim_start (trim_start s) = trim_start s.
Proof.
  destruct (trim_start s) as [|c r] eqn:E; [done|]. apply trim_start_cons. by eapply trim_start_head.
Qed.

Lemma trim_end_blank s w : blank w -> trim_end (s ++ w) = trim_end s.
Proof.
  intros Hw. unfold trim_end. rewrite rev_app_distr, trim_start_blank; [done|].
  by apply blank_rev.
Qed.

Lemma trim_end_split s : exists w, blank w /\ s = trim_end s ++ w.
Proof.
  unfold trim_end. destruct (trim_start_split (rev s)) as (w & Hw & E). exists (rev w). split.
  - by apply blank_rev.
  - rewrite <-rev_app_distr, <-E. by rewrite rev_involutive.
Qed.

Lemma trim_end_snoc s c : is_whitespace c = false -> trim_end (s ++ [c]) = s ++ [c].
Proof.
  intros H. unfold trim_end. rewrite rev_app_distr. cbn [rev app]. rewrite trim_start_cons by done.
  cbn. by rewrite rev_involutive.
Qed.

Lemma trim_end_idem s : trim_end (trim_end s) = trim_end s.
Proof. unfold trim_end. by rewrite rev_involutive, trim_start_idem. Qed.

Lemma trim_end_cons c s : is_whitespace c = false -> exists r, trim_end (c :: s) = c :: r.
Proof.
  intros Hc. destruct (trim_end_split (c :: s)) as (w & Hw & E).
  destruct (trim_end (c :: s)) as [|d r]; cbn in E.
  - subst w. inversion Hw; congruence.
  - injection E as <- _. by exists r.
Qed.

Lemma trim_split s : exists w v, blank w /\ blank v /\ s = w ++ trim s ++ v.
Proof.
  destruct (trim_start_split s) as (w & Hw & E). destruct (trim_end_split (trim_start s)) as (v & Hv & F).
  exists w, v. split; [done|]. split; [done|]. unfold trim. by rewrite <-F.
Qed.

Lemma trim_idem s : trim (trim s) = trim s.
Proof.
  unfold trim. destruct (trim_start s) as [|c r] eqn:E; [done|].
  destruct (trim_end_cons c r) as [k Hk]; [by eapply trim_start_head|].
  rewrite Hk. rewrite trim_start_cons by (by eapply trim_start_head). rewrite <-Hk. apply trim_end_idem.
Qed.

Lemma trim_length s : (length (trim s) <= length s)%nat.
Proof. destruct (trim_split s) as (w & v & _ & _ & E). rewrite E at 2. rewrite !length_app. lia. Qed.

(** A text that begins and ends outside blanks is its own trim. *)
Lemma trim_tight c d s :
  is_whitespace c = false -> is_whitespace d = false -> trim (c :: s ++ [d]) = c :: s ++ [d].
Proof.
  intros Hc Hd. unfold trim. rewrite trim_start_cons by done.
  change (c :: s ++ [d]) with ((c :: s) ++ [d]). by apply trim_end_snoc.
Qed.

Lemma trim_blank_app w s v : blank w -> blank v -> trim (w ++ s ++ v) = trim s.
Proof.
  intros Hw Hv. unfold trim. rewrite trim_start_blank by done.
  destruct (trim_start_split s) as (u & Hu & E). destruct (trim_start s) as [|c r] eqn:F.
  - rewrite app_nil_r in E. subst u. rewrite trim_start_blank by done.
    destruct (trim_start_split v) as (x & Hx & E). rewrite E in Hv. apply Forall_app in Hv as [_ Hv].
    destruct (trim_start v) as [|c r] eqn:G; [done|]. apply Forall_inv in Hv.
    by rewrite (trim_start_head _ _ _ G) in Hv.
  - rewrite E, <-app_assoc, trim_start_blank by done. cbn [app].
    rewrite trim_start_cons by (by eapply trim_start_head).
    change (c :: r ++ v) with ((c :: r) ++ v). by apply trim_end_blank.
Qed.

Lemma strip_prefix_spec p s r : strip_prefix p s = Some r <-> s = p ++ r.
Proof.
  revert s; induction p as [|a p IH]; intros s; cbn; [split; congruence|].
  destruct s as [|b s]; [done|]. destruct (Z.eqb_spec a b) as [->|N]; [|split; congruence].
  rewrite IH. split; congruence.
Qed.

Lemma starts_with_spec p s : starts_with p s = true <-> exists r, s = p ++ r.
Proof.
  unfold starts_with. destruct (strip_prefix p s) as [r|] eqn:E; cbn.
  - apply strip_prefix_spec in E. split; [by exists r|done].
  - split; [done|]. intros [r H]. apply strip_prefix_spec in H. congruence.
Qed.

Lemma strip_suffix_spec p s r : strip_suffix p s = Some r <-> s = r ++ p.
Proof.
  unfold strip_suffix. destruct (strip_prefix (rev p) (rev s)) as [x|] eqn:E; cbn.
  - apply strip_prefix_spec in E.
    assert (s = rev x ++ p) as -> by (by rewrite <-(rev_involutive s), E, rev_app_distr, rev_involutive).
    split; [by intros [= <-]|]. by intros H%app_inv_tail%(f_equal Some).
  - split; [done|]. intros ->. exfalso. revert E. rewrite rev_app_distr.
    by rewrite (proj2 (strip_prefix_spec _ _ (rev r)) eq_refl).
Qed.
