(* ===== verification/Condition.v ===== *)
(** * The condition language ([mcp-server/src/handlers.rs], EVAL-4, FILT-6)

    [condition] and boolean [trace_expr]: splitting on [||] and [&&], the tree, enclosing parentheses,
    comparisons, bound heads, short-circuit evaluation, and the arm-time test for an invocation.

    The parser recurses on fuel; [parse_bool_tree] starts it with one more than the length of the text,
    and [parse_fuel_enough] shows that no more is ever used. Depth counters are unbounded integers: an
    [i32] would need 2^31 brackets to differ. *)

From S2P Require Import Prelude Types Events Text.

(** ** Splitting *)

Fixpoint split_bool_from (op : Z) (s cur : chars) (in_str : bool) (depth : Z) : list chars :=
  match s with
  | [] => [trim (rev cur)]
  | c :: rest =>
    if c =? QUOTE then split_bool_from op rest (c :: cur) (negb in_str) depth
    else if ((c =? ch "(") || (c =? ch "[")) && negb in_str then split_bool_from op rest (c :: cur) in_str (depth + 1)
    else if ((c =? ch ")") || (c =? ch "]")) && negb in_str then split_bool_from op rest (c :: cur) in_str (depth - 1)
    else if negb in_str && (depth =? 0) && (c =? op) then
      match rest with
      | n :: rest' => if n =? op then trim (rev cur) :: split_bool_from op rest' [] in_str depth
                      else split_bool_from op rest (c :: cur) in_str depth
      | [] => split_bool_from op rest (c :: cur) in_str depth
      end
    else split_bool_from op rest (c :: cur) in_str depth
  end.
Definition split_bool (s : chars) (op : Z) : list chars := split_bool_from op s [] false 0.

Inductive BoolTree :=
| BoolOr (branches : list BoolTree)
| BoolAnd (branches : list BoolTree)
| BoolNot (inner : BoolTree)
| BoolLeaf (leaf : chars).

(** ** Enclosing parentheses *)

Fixpoint parens_close_last (s : chars) (in_str : bool) (depth : Z) : bool :=
  match s with
  | [] => false
  | c :: rest =>
    if c =? QUOTE then parens_close_last rest (negb in_str) depth
    else if (c =? ch "(") && negb in_str then parens_close_last rest in_str (depth + 1)
    else if (c =? ch ")") && negb in_str then
      if depth - 1 =? 0 then match rest with [] => true | _ => false end
      else parens_close_last rest in_str (depth - 1)
    else parens_close_last rest in_str depth
  end.
Definition parens_enclose (s : chars) : bool :=
  starts_with [ch "("] s && ends_with [ch ")"] s && parens_close_last s false 0.

Fixpoint strip_loop (fuel : nat) (t : chars) : chars :=
  match fuel with
  | O => t
  | S fuel => if parens_enclose t then strip_loop fuel (trim (removelast (tail t))) else t
  end.
Definition strip_enclosing_parens (s : chars) : chars := strip_loop (length s) (trim s).

(** ** The parser *)

Fixpoint parse_fuel (fuel : nat) (s : chars) : BoolTree :=
  match fuel with
  | O => BoolLeaf s
  | S fuel =>
    let s := strip_enclosing_parens (trim s) in
    let ors := split_bool s (ch "|") in
    if (1 <? length ors)%nat then BoolOr (map (parse_fuel fuel) ors)
    else
      let ands := split_bool s (ch "&") in
      if (1 <? length ands)%nat then BoolAnd (map (parse_fuel fuel) ands)
      else
        match strip_prefix [ch "!"] s with
        | Some rest => if negb (starts_with [ch "="] (trim_start rest)) then BoolNot (parse_fuel fuel rest) else BoolLeaf s
        | None => BoolLeaf s
        end
  end.
Definition parse_bool_tree (s : chars) : BoolTree := parse_fuel (S (length s)) s.

(** ** Comparisons *)

Definition comparison_ops : list chars := map chars_of ["=="; "!="; "<="; ">="; "<"; ">"].

(** The first operator that matches here and leaves text on both sides. *)
Fixpoint split_here (ops : list chars) (before after : chars) : option (chars * chars * chars) :=
  match ops with
  | [] => None
  | op :: ops =>
    match strip_prefix op after with
    | Some rhs =>
      if bool_decide (trim before = []) || bool_decide (trim rhs = []) then split_here ops before after
      else Some (trim before, op, trim rhs)
    | None => split_here ops before after
    end
  end.

Definition depth_step (syntax : bool) (c depth : Z) : Z :=
  if (c =? ch "(") && syntax then depth + 1 else if (c =? ch ")") && syntax then depth - 1 else depth.

Fixpoint split_comparison_from (before s : chars) (q : Quoted) (depth : Z) : option (chars * chars * chars) :=
  match s with
  | [] => None
  | c :: rest =>
    let found :=
      if negb (inside q) && (depth =? 0) && negb (bool_decide (c ∈ [QUOTE; APOS; ch "("; ch ")"]))
      then split_here comparison_ops before s else None in
    match found with
    | Some r => Some r
    | None => split_comparison_from (before ++ [c]) rest (quoted_step q c) (depth_step (negb (inside q)) c depth)
    end
  end.
Definition split_comparison (cond : chars) : option (chars * chars * chars) :=
  split_comparison_from [] cond quoted_default 0.

Definition expr_is_boolean (expr : chars) : bool :=
  match parse_bool_tree expr with
  | BoolOr _ | BoolAnd _ | BoolNot _ => true
  | BoolLeaf leaf => is_some (split_comparison leaf)
  end.

(** ** The arm-time test for an invocation *)

Fixpoint expr_invokes_from (s : chars) (in_str escaped : bool) : bool :=
  match s with
  | [] => false
  | c :: rest =>
    if in_str then
      if escaped then expr_invokes_from rest in_str false
      else if c =? BACKSLASH then expr_invokes_from rest in_str true
      else if c =? QUOTE then expr_invokes_from rest false escaped
      else expr_invokes_from rest in_str escaped
    else if c =? QUOTE then expr_invokes_from rest true escaped
    else if c =? ch "(" then true
    else expr_invokes_from rest in_str escaped
  end.
Definition expr_invokes (expr : chars) : bool := expr_invokes_from expr false false.

(** ** Bound names *)

Record ConditionBindings := { cb_exception : option Z; cb_new_value : option Value }.

(** The bindings a hit supplies, read out of the event. *)
Definition condition_bindings (details : EventKind) : ConditionBindings :=
  match details with
  | Exception _ _ exception _ => {| cb_exception := Some exception; cb_new_value := None |}
  | FieldModification _ new_value => {| cb_exception := None; cb_new_value := Some new_value |}
  | _ => {| cb_exception := None; cb_new_value := None |}
  end.

Definition binding_get (b : ConditionBindings) (name : chars) : option Value :=
  if bool_decide (name = chars_of "exception") then value_object <$> cb_exception b
  else if bool_decide (name = chars_of "newValue") then cb_new_value b
  else None.

Definition object_heads (b : ConditionBindings) : list (chars * Z) :=
  match cb_exception b with Some id => [(chars_of "exception", id)] | None => [] end
  ++ match val_data <$> cb_new_value b with
     | Some (VObject id) => if id =? 0 then [] else [(chars_of "newValue", id)]
     | _ => []
     end.

(** A head starts where the previous character cannot continue an identifier. *)
Definition head_boundary (prev : option Z) : bool :=
  match prev with Some c => negb (ident_part c || (c =? ch ".")) | None => true end.

Definition head_here (heads : list (chars * Z)) (s : chars) : option (chars * Z) :=
  List.find (fun '(name, _) => match strip_prefix name s with Some r => starts_with [ch "."] r | None => false end) heads.

Definition handle_text (id : Z) : chars := chars_of ("@0x" +s+ show_hex id).

Fixpoint bind_from (heads : list (chars * Z)) (fuel : nat) (prev : option Z) (q : Quoted) (s : chars) : chars :=
  match fuel, s with
  | O, _ | _, [] => []
  | S fuel, c :: rest =>
    match (if negb (inside q) && head_boundary prev then head_here heads s else None) with
    | Some (name, id) =>
      handle_text id ++ bind_from heads fuel (list.last name) (foldl quoted_step q name) (drop (length name) s)
    | None => c :: bind_from heads fuel (Some c) (quoted_step q c) rest
    end
  end.
Definition bind_object_heads (leaf : chars) (heads : list (chars * Z)) : chars :=
  bind_from heads (length leaf) None quoted_default leaf.

(** ** Evaluation

    The evaluator of one leaf reads the debuggee: it threads a state and may fail. *)

Section Evaluation.
Context {St Er : Type} (leaf_eval : chars -> St -> result Er bool * St).

Fixpoint eval_bool_tree_on_frame (tree : BoolTree) (s : St) : result Er bool * St :=
  match tree with
  | BoolOr branches =>
    (fix go (bs : list BoolTree) (s : St) :=
       match bs with
       | [] => (Ok false, s)
       | b :: bs =>
         match eval_bool_tree_on_frame b s with
         | (Ok true, s) => (Ok true, s)
         | (Ok false, s) => go bs s
         | (Err e, s) => (Err e, s)
         end
       end) branches s
  | BoolAnd branches =>
    (fix go (bs : list BoolTree) (s : St) :=
       match bs with
       | [] => (Ok true, s)
       | b :: bs =>
         match eval_bool_tree_on_frame b s with
         | (Ok true, s) => go bs s
         | (Ok false, s) => (Ok false, s)
         | (Err e, s) => (Err e, s)
         end
       end) branches s
  | BoolNot inner =>
    match eval_bool_tree_on_frame inner s with (Ok b, s) => (Ok (negb b), s) | (Err e, s) => (Err e, s) end
  | BoolLeaf leaf => leaf_eval leaf s
  end.

Definition eval_condition (condition : chars) (bindings : ConditionBindings) (s : St) : result Er bool * St :=
  eval_bool_tree_on_frame (parse_bool_tree (bind_object_heads condition (object_heads bindings))) s.
End Evaluation.

(** The condition on the thread's top frame; a stop whose condition cannot be evaluated stops. *)
Definition evaluate_condition_on_thread {St Fe Er Frame} (get_top_frames : St -> result Fe (list Frame) * St)
    (leaf_eval : Frame -> ConditionBindings -> chars -> St -> result Er bool * St)
    (condition : chars) (bindings : ConditionBindings) (s : St) : bool * St :=
  match get_top_frames s with
  | (Ok (frame :: _), s) =>
    let '(r, s) := eval_condition (leaf_eval frame bindings) condition bindings s in (unwrap_or true r, s)
  | (Ok [], s) | (Err _, s) => (true, s)
  end.

(** ** Lexical structure

    The scan state of a text: inside a string, and the closing brackets still expected. *)

Abbreviation lex_state := (bool * list Z)%type.

Definition lex_step (st : lex_state) (c : Z) : option lex_state :=
  let '(b, k) := st in
  if c =? QUOTE then Some (negb b, k)
  else if b then Some (b, k)
  else if c =? ch "(" then Some (false, ch ")" :: k)
  else if c =? ch "[" then Some (false, ch "]" :: k)
  else if (c =? ch ")") || (c =? ch "]") then
    match k with x :: k => if x =? c then Some (false, k) else None | [] => None end
  else Some (b, k).

Fixpoint lex (st : lex_state) (s : chars) : option lex_state :=
  match s with [] => Some st | c :: s => match lex_step st c with Some st => lex st s | None => None end end.

Abbreviation top := ((false, []) : lex_state).

(** A text whose strings are closed and whose brackets match. *)
Definition nested (s : chars) : Prop := lex top s = Some top.

(** No doubled [op] outside strings and brackets. *)
Definition flat (op : Z) (s : chars) : Prop := forall p q, s = p ++ op :: op :: q -> ~ nested p.

Lemma lex_app st s t : lex st (s ++ t) = match lex st s with Some st => lex st t | None => None end.
Proof. revert st; induction s as [|c s IH]; intros st; [done|]. cbn. by destruct (lex_step st c). Qed.

Lemma nested_app s t : nested s -> nested t -> nested (s ++ t).
Proof. unfold nested. intros H K. by rewrite lex_app, H. Qed.

Lemma nested_app_inv s t : nested s -> nested (s ++ t) -> nested t.
Proof. unfold nested. intros H. by rewrite lex_app, H. Qed.

(** What a text does does not depend on the brackets around it. *)
Lemma lex_step_base b k c b' k' base : lex_step (b, k) c = Some (b', k') -> lex_step (b, k ++ base) c = Some (b', k' ++ base).
Proof.
  unfold lex_step. destruct (c =? QUOTE); [by intros [= <- <-]|]. destruct b; [by intros [= <- <-]|].
  destruct (c =? ch "("); [by intros [= <- <-]|]. destruct (c =? ch "["); [by intros [= <- <-]|].
  destruct (_ || _); [|by intros [= <- <-]]. destruct k as [|x k]; [done|]. cbn.
  destruct (x =? c); [|done]. by intros [= <- <-].
Qed.

Lemma lex_base s b k b' k' base : lex (b, k) s = Some (b', k') -> lex (b, k ++ base) s = Some (b', k' ++ base).
Proof.
  revert b k; induction s as [|c s IH]; intros b k; cbn [lex]; [by intros [= <- <-]|].
  destruct (lex_step (b, k) c) as [[b1 k1]|] eqn:E; [|done]. rewrite (lex_step_base _ _ _ _ _ _ E). apply IH.
Qed.

(** Blanks and operators are plain. *)
Definition plain (c : Z) : Prop := c ∉ [QUOTE; ch "("; ch ")"; ch "["; ch "]"].

Lemma lex_step_plain st c : plain c -> lex_step st c = Some st.
Proof.
  unfold plain. rewrite !not_elem_of_cons. intros (? & ? & ? & ? & ? & _). destruct st as [b k]. unfold lex_step.
  rewrite !(proj2 (Z.eqb_neq c _)) by done. by destruct b.
Qed.

Lemma blank_plain c : is_whitespace c = true -> plain c.
Proof.
  intros H. unfold plain. rewrite !not_elem_of_cons. repeat split; try (intros ->; by vm_compute in H).
  by apply not_elem_of_nil.
Qed.

Lemma lex_blank st w : blank w -> lex st w = Some st.
Proof. induction 1 as [|c w Hc _ IH]; [done|]. cbn [lex]. rewrite lex_step_plain; [done|by apply blank_plain]. Qed.

Lemma nested_trim s : nested s -> nested (trim s).
Proof.
  destruct (trim_split s) as (w & v & Hw & Hv & E). unfold nested. rewrite E at 1.
  rewrite lex_app, lex_blank, lex_app by done. destruct (lex top (trim s)) as [st|]; [|done]. by rewrite lex_blank.
Qed.

Lemma plain_cons c s : plain c -> nested (c :: s) <-> nested s.
Proof. intros H. unfold nested. cbn [lex]. by rewrite lex_step_plain. Qed.

(** ** Splitting, against the first doubled operator *)

Definition is_op (op : Z) : Prop := op = ch "|" \/ op = ch "&".

Lemma op_plain op : is_op op -> plain op.
Proof. intros [-> | ->]; unfold plain; by_compute. Qed.

#[local] Ltac op_side := first [done | by left | by right].

(** One character of the splitter, off a separator, is one character of the scan. *)
Lemma split_step op c s cur b k b' k' :
  lex_step (b, k) c = Some (b', k') ->
  (b = false -> k = [] -> c = op -> head s <> Some op) ->
  split_bool_from op (c :: s) cur b (zlen k) = split_bool_from op s (c :: cur) b' (zlen k').
Proof.
  intros Hl Hs. cbn [split_bool_from]. unfold lex_step in Hl. destruct (c =? QUOTE); [by injection Hl as <- <-|].
  destruct b; cbn [negb andb] in *; [injection Hl as <- <-; by rewrite !andb_false_r|].
  rewrite !andb_true_r. destruct (c =? ch "(") eqn:E1; cbn [orb].
  { injection Hl as <- <-. f_equal. unfold zlen. cbn [length]. lia. }
  destruct (c =? ch "[") eqn:E2.
  { injection Hl as <- <-. f_equal. unfold zlen. cbn [length]. lia. }
  destruct ((c =? ch ")") || (c =? ch "]")) eqn:E3.
  { destruct k as [|x k]; [done|]. destruct (x =? c); [|done]. injection Hl as <- <-. f_equal. unfold zlen. cbn [length]. lia. }
  injection Hl as <- <-. destruct ((zlen k =? 0) && (c =? op)) eqn:E; [|done].
  reflect_bools. assert (k = []) as -> by (destruct k; [done|unfold zlen in *; cbn [length] in *; lia]).
  destruct s as [|n s]; [done|]. destruct (Z.eqb_spec n op) as [->|]; [|done]. by destruct (Hs eq_refl eq_refl).
Qed.

(** Over a text with no separator the splitter only accumulates. *)
Lemma split_over op s t cur p0 b k b' k' :
  lex top p0 = Some (b, k) -> lex (b, k) s = Some (b', k') ->
  flat op (p0 ++ s) -> (list.last s = Some op -> b' = false -> k' = [] -> head t <> Some op) -> is_op op ->
  split_bool_from op (s ++ t) cur b (zlen k) = split_bool_from op t (rev s ++ cur) b' (zlen k').
Proof.
  intros Hp Hs Hf Hl Ho. revert p0 cur b k Hp Hs Hf Hl. induction s as [|c s IH]; intros p0 cur b k Hp Hs Hf Hl.
  { by injection Hs as <- <-. }
  cbn [lex] in Hs. destruct (lex_step (b, k) c) as [[b1 k1]|] eqn:Ec; [|done]. cbn [app].
  rewrite (split_step _ _ _ _ _ _ _ _ Ec).
  - rewrite (IH (p0 ++ [c]) (c :: cur) b1 k1).
    + cbn [rev]. by rewrite <-app_assoc.
    + rewrite lex_app, Hp. cbn [lex]. by rewrite Ec.
    + done.
    + by rewrite <-app_assoc.
    + intros H. apply Hl. destruct s; [done|]. by rewrite last_cons_cons.
  - intros -> -> -> Hh. destruct s as [|d s]; cbn in Hh.
    + rewrite lex_step_plain in Ec by (by apply op_plain). injection Ec as <- <-. injection Hs as <- <-. by apply Hl.
    + injection Hh as ->. by apply (Hf p0 s).
Qed.

Lemma split_whole op s cur p0 st st' :
  lex top p0 = Some st -> lex st s = Some st' -> flat op (p0 ++ s) -> is_op op ->
  split_bool_from op s cur st.1 (zlen st.2) = [trim (rev cur ++ s)].
Proof.
  intros Hp Hs Hf Ho. destruct st as [b k], st' as [b' k']. rewrite <-(app_nil_r s) at 1.
  erewrite split_over by done. cbn. by rewrite rev_app_distr, rev_involutive.
Qed.

Lemma split_bool_flat op s : nested s -> flat op s -> is_op op -> split_bool s op = [trim s].
Proof. intros Hn Hf Ho. by apply (split_whole op s [] [] top top). Qed.

Lemma split_bool_first op p q :
  nested p -> flat op p -> list.last p <> Some op -> is_op op ->
  split_bool (p ++ op :: op :: q) op = trim p :: split_bool q op.
Proof.
  intros Hn Hf Hl Ho. unfold split_bool. change 0 with (zlen (@nil Z)) at 1.
  rewrite (split_over op p _ [] [] false [] false []) by done.
  assert (plain op) as Hp by by apply op_plain. cbn [split_bool_from].
  unfold plain in Hp. rewrite !not_elem_of_cons in Hp. destruct Hp as (? & ? & ? & ? & ? & _).
  rewrite !(proj2 (Z.eqb_neq op _)) by done. cbn. rewrite !Z.eqb_refl. cbn. by rewrite app_nil_r, rev_involutive.
Qed.

(** The parts of a text: between the first doubled operator and the next, and so on. *)
Inductive splits (op : Z) : chars -> list chars -> Prop :=
| splits_last p : nested p -> flat op p -> splits op p [p]
| splits_cons p s ps :
    nested p -> flat op p -> list.last p <> Some op -> splits op s ps -> splits op (p ++ op :: op :: s) (p :: ps).

Lemma split_bool_splits op s ps : is_op op -> splits op s ps -> split_bool s op = map trim ps.
Proof.
  intros Ho. induction 1 as [p Hn Hf|p s ps Hn Hf Hl _ IH]; [by apply split_bool_flat|].
  rewrite split_bool_first by done. cbn. by f_equal.
Qed.

Definition pair_at (op : Z) (s : chars) (n : nat) : Prop :=
  nested (take n s) /\ take 2 (drop n s) = [op; op].

#[local] Instance pair_at_dec op s n : Decision (pair_at op s n).
Proof. unfold pair_at, nested. apply _. Defined.

Lemma pair_at_intro op p q : nested p -> pair_at op (p ++ op :: op :: q) (length p).
Proof. intros H. split; [by rewrite take_app_length|by rewrite drop_app_length]. Qed.

Lemma pair_at_elim op s n : pair_at op s n -> exists q, s = take n s ++ op :: op :: q.
Proof.
  intros [_ H]. exists (drop 2 (drop n s)). rewrite <-(take_drop n s) at 1. f_equal.
  by rewrite <-(take_drop 2 (drop n s)), H at 1.
Qed.

Lemma first_pair op s :
  (exists n, pair_at op s n /\ forall m, (m < n)%nat -> ~ pair_at op s m) \/ forall n, ~ pair_at op s n.
Proof.
  assert (forall n, (exists m, pair_at op s m /\ forall k, (k < m)%nat -> ~ pair_at op s k)
                    \/ forall k, (k < n)%nat -> ~ pair_at op s k) as H.
  { induction n as [|n [IH|IH]]; [right; lia|by left|].
    destruct (decide (pair_at op s n)) as [P|P]; [by left; exists n|]. right. intros k Hk.
    destruct (decide (k = n)) as [->|]; [done|apply IH; lia]. }
  destruct (H (S (length s))) as [L|R]; [by left|]. right. intros n P. destruct (decide (n < S (length s))%nat); [by apply (R n)|].
  destruct P as [_ P]. rewrite drop_ge in P by lia. done.
Qed.

Lemma flat_no_pair op s : (forall n, ~ pair_at op s n) <-> flat op s.
Proof.
  split.
  - intros H p q -> Hn. by apply (H (length p)), pair_at_intro.
  - intros H n P. destruct (pair_at_elim _ _ _ P) as [q E]. apply (H _ _ E). apply P.
Qed.

Lemma flat_dec op s : is_op op -> flat op s \/ exists p q, s = p ++ op :: op :: q /\ nested p /\ flat op p /\ list.last p <> Some op.
Proof.
  intros Ho. destruct (first_pair op s) as [(n & P & Hmin)|H]; [right|left; by apply flat_no_pair].
  destruct (pair_at_elim _ _ _ P) as [q E]. exists (take n s), q. split; [done|]. split; [apply P|].
  assert (n < length s)%nat as Hlt.
  { destruct (decide (n < length s)%nat); [done|]. destruct P as [_ P]. by rewrite drop_ge in P by lia. }
  split.
  - intros p1 q1 F Hn. apply (Hmin (length p1)).
    + apply (f_equal length) in F. rewrite length_app, length_take in F. cbn [length] in F. lia.
    + rewrite E, F, <-!app_assoc. by apply (pair_at_intro op p1).
  - intros [r F]%last_Some. apply (Hmin (length r)).
    + apply (f_equal length) in F. rewrite length_app, length_take in F. cbn [length] in F. lia.
    + rewrite E, F, <-app_assoc. apply pair_at_intro. destruct P as [P _]. rewrite F in P.
      unfold nested in P. rewrite lex_app in P. unfold nested. destruct (lex top r) as [st|]; [|done].
      cbn [lex] in P. by rewrite lex_step_plain in P by by apply op_plain.
Qed.

Lemma nested_splits op s : is_op op -> nested s -> exists ps, splits op s ps.
Proof.
  intros Ho. remember (length s) as n eqn:En. revert s En. induction (lt_wf n) as [n _ IH]. intros s -> Hn.
  destruct (flat_dec op s Ho) as [Hf|(p & q & -> & Hp & Hf & Hl)]; [exists [s]; by constructor|].
  destruct (IH (length q)) with (s := q) as [ps Hps]; [rewrite length_app; cbn; lia|done| |by exists (p :: ps); constructor].
  apply nested_app_inv in Hn; [|done]. by rewrite !plain_cons in Hn by by apply op_plain.
Qed.

Lemma splits_parts op s ps :
  splits op s ps -> Forall (fun p => nested p /\ flat op p /\ (length p <= length s)%nat) ps
  /\ ((2 <= length ps)%nat -> Forall (fun p => (length p < length s)%nat) ps).
Proof.
  induction 1 as [p Hn Hf|p s ps Hn Hf Hl H IH]; cbn [length].
  { split; [by repeat constructor|lia]. }
  destruct IH as [IH1 _]. rewrite length_app. cbn [length]. split; [|intros _]; constructor.
  - repeat split; try done. lia.
  - eapply list.Forall_impl; [exact IH1|]. cbn. intros x (? & ? & ?). repeat split; try done. lia.
  - lia.
  - eapply list.Forall_impl; [exact IH1|]. cbn. intros x (? & ? & ?). lia.
Qed.

Lemma splits_one op s ps : splits op s ps -> is_op op -> flat op s <-> length ps = 1%nat.
Proof.
  intros H Ho. inversion H as [p Hn Hf|p s' ps' Hn Hf Hl H']; subst; [done|]. cbn. split.
  - intros K. by destruct (K p s').
  - intros [=]. by destruct H'.
Qed.

(** ** Enclosing parentheses, against the bracket structure *)

(** The parentheses still to close. *)
Definition parens (k : list Z) : Z := zlen (base.filter (fun c => c = ch ")") k).

Lemma parens_cons c k : parens (c :: k) = parens k + (if decide (c = ch ")") then 1 else 0).
Proof. unfold parens. rewrite list.filter_cons. destruct (decide _); unfold zlen; cbn [length]; lia. Qed.

Lemma parens_nonneg k : 0 <= parens k.
Proof. unfold parens, zlen. lia. Qed.

(** A character that leaves the enclosing pair open moves the counter by what it does to the brackets. *)
Lemma close_last_step c v b k b' k' :
  lex_step (b, k) c = Some (b', k') ->
  parens_close_last (c :: v) b (parens k + 1) = parens_close_last v b' (parens k' + 1).
Proof.
  intros H. cbn [parens_close_last]. unfold lex_step in H. destruct (c =? QUOTE); [by injection H as <- <-|].
  destruct b; cbn [negb] in *; [injection H as <- <-; by rewrite !andb_false_r|]. rewrite !andb_true_r.
  destruct (c =? ch "(") eqn:E1; [|destruct (c =? ch "[") eqn:E2].
  - injection H as <- <-. rewrite parens_cons, decide_True by done. f_equal; lia.
  - apply Z.eqb_eq in E2 as ->. injection H as <- <-. rewrite parens_cons, decide_False by done. cbn. f_equal; lia.
  - destruct (c =? ch ")") eqn:E3; cbn [orb] in H.
    + apply Z.eqb_eq in E3 as ->. destruct k as [|x k]; [done|]. destruct (Z.eqb_spec x (ch ")")) as [->|]; [|done].
      injection H as <- <-. rewrite parens_cons, decide_True by done. pose proof (parens_nonneg k).
      rewrite (proj2 (Z.eqb_neq _ 0)) by lia. f_equal; lia.
    + destruct (c =? ch "]") eqn:E4; [|by injection H as <- <-]. apply Z.eqb_eq in E4 as ->.
      destruct k as [|x k]; [done|]. destruct (Z.eqb_spec x (ch "]")) as [->|]; [|done].
      injection H as <- <-. rewrite parens_cons, decide_False by done. f_equal; lia.
Qed.

(** Only a closing parenthesis can close the enclosing pair. *)
Lemma lex_step_closes b k c st :
  lex_step (b, k) c = None -> lex_step (b, k ++ [ch ")"]) c = Some st -> b = false /\ k = [] /\ c = ch ")" /\ st = top.
Proof.
  unfold lex_step. destruct (c =? QUOTE); [done|]. destruct b; [done|]. destruct (c =? ch "("); [done|].
  destruct (c =? ch "["); [done|]. destruct (_ || _); [|done]. destruct k as [|x k]; cbn [app].
  - intros _. destruct (Z.eqb_spec (ch ")") c) as [<-|]; [|done]. by intros [= <-].
  - by destruct (x =? c).
Qed.

Lemma close_last_spec v b k :
  lex (b, k ++ [ch ")"]) v = Some top ->
  exists u w, v = u ++ ch ")" :: w /\ lex (b, k) u = Some top /\ nested w
    /\ parens_close_last v b (parens k + 1) = bool_decide (w = []).
Proof.
  revert b k. induction v as [|c v IH]; intros b k H; [by destruct k|].
  cbn [lex] in H. destruct (lex_step (b, k) c) as [[b1 k1]|] eqn:E.
  - rewrite (lex_step_base _ _ _ _ _ _ E) in H. destruct (IH _ _ H) as (u & w & -> & Hu & Hw & Hc).
    exists (c :: u), w. cbn [lex app]. rewrite E. split; [done|]. split; [done|]. split; [done|].
    by rewrite (close_last_step _ _ _ _ _ _ E).
  - destruct (lex_step (b, k ++ _) c) as [st|] eqn:F; [|done].
    destruct (lex_step_closes _ _ _ _ E F) as (-> & -> & -> & ->). exists [], v. repeat split; try done. by destruct v.
Qed.

(** A text in one pair of parentheses. *)
Definition grouped (s u : chars) : Prop := s = ch "(" :: u ++ [ch ")"] /\ nested u.

Lemma lex_group u : nested u -> forall v, lex top (ch "(" :: u ++ v) = lex (false, [ch ")"]) v.
Proof.
  intros Hu v. change (lex top (ch "(" :: u ++ v)) with (lex (false, [ch ")"]) (u ++ v)).
  pose proof (lex_base _ _ _ _ _ [ch ")"] Hu) as E. cbn [app] in E. by rewrite lex_app, E.
Qed.

Lemma nested_group s u : grouped s u -> nested s.
Proof. intros [-> Hu]. unfold nested. by rewrite (lex_group u Hu). Qed.

Lemma parens_enclose_spec s : nested s -> (parens_enclose s = true <-> exists u, grouped s u).
Proof.
  intros Hn. unfold parens_enclose. rewrite !andb_true_iff. split.
  - intros [[H1 _] H3]. apply starts_with_spec in H1 as [v ->]. cbn [app] in *.
    destruct (close_last_spec v false []) as (u & w & -> & Hu & Hw & Hc); [exact Hn|].
    exists u. change (parens_close_last (u ++ ch ")" :: w) false 1 = true) in H3. change (parens [] + 1) with 1 in Hc. rewrite Hc in H3. apply bool_decide_eq_true_1 in H3 as ->. done.
  - intros [u [-> Hu]]. split_and!.
    + by apply starts_with_spec; eexists.
    + unfold ends_with. by rewrite (proj2 (strip_suffix_spec [ch ")"] (ch "(" :: u ++ [ch ")"]) (ch "(" :: u)) eq_refl).
    + destruct (close_last_spec (u ++ [ch ")"]) false []) as (u' & w & E & Hu' & Hw & Hc); [exact Hn|].
      change (parens_close_last (u ++ [ch ")"]) false 1 = true). change (parens [] + 1) with 1 in Hc. rewrite Hc. apply bool_decide_eq_true_2.
      destruct w as [|d w _] using rev_ind; [done|]. exfalso.
      change (u ++ [ch ")"] = u' ++ (ch ")" :: w) ++ [d]) in E. rewrite app_assoc in E. apply app_inj_tail in E as [-> _].
      unfold nested in Hu. by rewrite lex_app, Hu' in Hu.
Qed.

Lemma group_flat op s u : is_op op -> grouped s u -> flat op s.
Proof.
  intros Ho [-> Hu] p q E Hp. destruct p as [|c p]; cbn in E.
  { injection E as <- _. by destruct Ho. }
  injection E as <- E. assert (exists p', u = p ++ p') as [p' ->].
  { destruct (decide (length p <= length u)%nat).
    - exists (drop (length p) u). rewrite <-(take_drop (length p) u) at 1. f_equal.
      apply (f_equal (take (length p))) in E. by rewrite take_app_length, take_app_le in E by done.
    - apply (f_equal length) in E. rewrite !length_app in E. cbn in E. lia. }
  unfold nested in *. rewrite lex_app in Hu. destruct (lex top p) as [[b k]|] eqn:F; [|done].
  change (lex top (ch "(" :: p)) with (lex (false, [ch ")"]) p) in Hp. pose proof (lex_base _ _ _ _ _ [ch ")"] F) as G. cbn [app] in G.
  rewrite G in Hp. by destruct k.
Qed.

(** ** The grammar

    [reads s t]: the text [s] denotes the tree [t]. [||] binds loosest, then [&&], then [!];
    parentheses regroup; blanks around any part do not count. *)

Definition negation (s u : chars) : Prop := s = ch "!" :: u /\ head (trim_start u) <> Some (ch "=").

Inductive reads : chars -> BoolTree -> Prop :=
| reads_group s u t : grouped (trim s) u -> reads u t -> reads s t
| reads_or s ps ts :
    splits (ch "|") (trim s) ps -> (2 <= length ps)%nat -> Forall2 reads ps ts -> reads s (BoolOr ts)
| reads_and s ps ts :
    (forall u, ~ grouped (trim s) u) -> flat (ch "|") (trim s) ->
    splits (ch "&") (trim s) ps -> (2 <= length ps)%nat -> Forall2 reads ps ts -> reads s (BoolAnd ts)
| reads_not s u t :
    flat (ch "|") (trim s) -> flat (ch "&") (trim s) -> negation (trim s) u -> reads u t -> reads s (BoolNot t)
| reads_leaf s :
    (forall u, ~ grouped (trim s) u) -> flat (ch "|") (trim s) -> flat (ch "&") (trim s) ->
    (forall u, ~ negation (trim s) u) -> reads s (BoolLeaf (trim s)).

(** ** The parser's equation *)

Lemma enclosed_length s : parens_enclose s = true -> (length (trim (removelast (tail s))) <= length s - 2)%nat.
Proof.
  unfold parens_enclose. rewrite !andb_true_iff. intros [[H1 H2] H3]. apply starts_with_spec in H1 as [r ->]. cbn [app tail].
  destruct r as [|c r _] using rev_ind; [by vm_compute in H3|].
  rewrite removelast_last. pose proof (trim_length r). cbn [length]. rewrite length_app. cbn [length]. lia.
Qed.

Lemma strip_loop_enough n m t : (length t <= n)%nat -> (length t <= m)%nat -> strip_loop n t = strip_loop m t.
Proof.
  revert m t; induction n as [|n IH]; intros m t Hn Hm.
  { destruct t; [by destruct m|cbn in Hn; lia]. }
  destruct m as [|m]; [destruct t; [done|cbn in Hm; lia]|]. cbn [strip_loop].
  destruct (parens_enclose t) eqn:E; [|done]. destruct t as [|c t]; [by vm_compute in E|].
  apply enclosed_length in E. apply IH; cbn [length] in *; lia.
Qed.

Lemma strip_loop_length n t : (length (strip_loop n t) <= length t)%nat.
Proof.
  revert t; induction n as [|n IH]; intros t; [done|]. cbn [strip_loop]. destruct (parens_enclose t) eqn:E; [|done].
  apply enclosed_length in E. specialize (IH (trim (removelast (tail t)))). lia.
Qed.

Lemma strip_length s : (length (strip_enclosing_parens s) <= length s)%nat.
Proof. unfold strip_enclosing_parens. pose proof (strip_loop_length (length s) (trim s)). pose proof (trim_length s). lia. Qed.

Lemma strip_trim s : strip_enclosing_parens (trim s) = strip_enclosing_parens s.
Proof.
  unfold strip_enclosing_parens. rewrite trim_idem. pose proof (trim_length s). apply strip_loop_enough; lia.
Qed.

Lemma strip_loop_S n t :
  strip_loop (S n) t = if parens_enclose t then strip_loop n (trim (removelast (tail t))) else t.
Proof. done. Qed.

Lemma strip_group s u : nested (trim s) -> grouped (trim s) u -> strip_enclosing_parens (trim s) = strip_enclosing_parens u.
Proof.
  intros Hn Hg. assert (parens_enclose (trim s) = true) as He by (apply parens_enclose_spec; [done|by exists u]).
  unfold strip_enclosing_parens. rewrite trim_idem. destruct Hg as [E _]. revert He. rewrite E. intros He. cbn [length].
  rewrite length_app, Nat.add_comm. cbn [length Nat.add]. rewrite strip_loop_S, He. cbn [tail]. rewrite removelast_last.
  pose proof (trim_length u). apply strip_loop_enough; lia.
Qed.

Lemma strip_plain s : nested (trim s) -> (forall u, ~ grouped (trim s) u) -> strip_enclosing_parens (trim s) = trim s.
Proof.
  intros Hn Hg. unfold strip_enclosing_parens. rewrite trim_idem.
  destruct (length (trim s)) as [|n]; [done|]. cbn [strip_loop].
  destruct (parens_enclose (trim s)) eqn:E; [|done]. apply parens_enclose_spec in E as [u Hu]; [|done]. by destruct (Hg u).
Qed.

Lemma split_from_length op s cur b d :
  let parts := split_bool_from op s cur b d in
  Forall (fun p => (length p <= length cur + length s)%nat) parts
  /\ ((2 <= length parts)%nat -> Forall (fun p => (length p < length cur + length s)%nat) parts).
Proof.
  remember (length s) as n eqn:En. revert s cur b d En. induction (lt_wf n) as [n _ IH]. intros s cur b d -> parts. subst parts.
  destruct s as [|c s]; cbn [split_bool_from].
  { split; [|cbn; lia]. constructor; [|done]. pose proof (trim_length (rev cur)). rewrite length_rev in *. lia. }
  pose proof (fun cur' b' d' => IH (length s) ltac:(cbn; lia) s cur' b' d' eq_refl) as IHs. cbv zeta in IHs.
  assert (forall b' d', let parts := split_bool_from op s (c :: cur) b' d' in
    Forall (fun p => (length p <= length cur + length (c :: s))%nat) parts
    /\ ((2 <= length parts)%nat -> Forall (fun p => (length p < length cur + length (c :: s))%nat) parts)) as K.
  { intros b' d'. destruct (IHs (c :: cur) b' d') as [H1 H2]. cbn [length] in *. split.
    - eapply list.Forall_impl; [exact H1|]. cbn. lia.
    - intros L. eapply list.Forall_impl; [by apply H2|]. cbn. lia. }
  destruct (c =? QUOTE); [apply K|]. destruct (_ && _); [apply K|]. destruct (_ && _); [apply K|].
  destruct (_ && _ && _); [|apply K]. destruct s as [|x s]; [apply K|]. destruct (x =? op); [|apply K].
  destruct (IH (length s)) with (s := s) (cur := @nil Z) (b := b) (d := d) as [H1 _]; [cbn; lia|done|]. cbn [length] in *.
  pose proof (trim_length (rev cur)) as T. rewrite length_rev in T.
  split; [|intros _]; (constructor; [lia|]; eapply list.Forall_impl; [exact H1|]; cbn; lia).
Qed.

Lemma split_bool_length op s :
  (1 < length (split_bool s op))%nat -> Forall (fun p => (length p < length s)%nat) (split_bool s op).
Proof. intros H. by apply (split_from_length op s [] false 0). Qed.

Lemma parse_fuel_enough n m s : (length s < n)%nat -> (length s < m)%nat -> parse_fuel n s = parse_fuel m s.
Proof.
  revert m s; induction n as [|n IH]; intros [|m] s Hn Hm; try lia. cbn [parse_fuel].
  pose proof (strip_length (trim s)) as Hl. pose proof (trim_length s) as Ht.
  set (t := strip_enclosing_parens (trim s)) in *.
  assert (forall op, (1 < length (split_bool t op))%nat ->
    map (parse_fuel n) (split_bool t op) = map (parse_fuel m) (split_bool t op)) as K.
  { intros op L. apply split_bool_length in L. apply map_ext_in. intros p Hp. apply list_elem_of_In in Hp.
    pose proof (Forall_in _ _ _ L Hp) as Hlt. cbn in Hlt. apply IH; lia. }
  destruct (Nat.ltb_spec 1 (length (split_bool t (ch "|")))) as [L|_]; [by rewrite (K _ L)|].
  destruct (Nat.ltb_spec 1 (length (split_bool t (ch "&")))) as [L|_]; [by rewrite (K _ L)|].
  destruct (strip_prefix [ch "!"] t) as [u|] eqn:E; [|done]. apply strip_prefix_spec in E.
  destruct (negb _); [|done]. f_equal. assert (length t = S (length u)) as Hu by by rewrite E. apply IH; lia.
Qed.

Lemma parse_fuel_trim n s : parse_fuel (S n) (trim s) = parse_fuel (S n) s.
Proof. cbn [parse_fuel]. by rewrite trim_idem. Qed.

Lemma parse_fuel_group n s u :
  nested (trim s) -> grouped (trim s) u -> parse_fuel (S n) s = parse_fuel (S n) u.
Proof. intros Hn Hg. cbn [parse_fuel]. by rewrite (strip_group s u), (strip_trim u) by done. Qed.

Lemma grouped_length s u : grouped (trim s) u -> (length u < length s)%nat.
Proof. intros [E _]. pose proof (trim_length s) as H. rewrite E in H. cbn [length] in H. rewrite length_app in H. lia. Qed.

Lemma negation_length s u : negation (trim s) u -> (length u < length s)%nat.
Proof. intros [E _]. pose proof (trim_length s) as H. rewrite E in H. cbn [length] in H. lia. Qed.

Lemma negation_nested s u : nested (trim s) -> negation (trim s) u -> nested u.
Proof. intros Hn [E _]. rewrite E in Hn. apply plain_cons in Hn; [done|]. unfold plain. by_compute. Qed.

Lemma negation_test r : negb (starts_with [ch "="] r) = true <-> head r <> Some (ch "=").
Proof.
  destruct r as [|c r]; [done|]. unfold starts_with. cbn [strip_prefix head]. destruct (Z.eqb_spec (ch "=") c) as [<-|N]; cbn.
  - by split; [|intros []].
  - by split; [intros _ [=]|].
Qed.

(** What the parser does with a text that is not enclosed. *)
Lemma parse_parts op n s ps :
  is_op op -> splits op (trim s) ps -> (2 <= length ps)%nat -> (length s <= n)%nat ->
  Forall (fun p => nested p /\ (length p < n)%nat) ps /\ (1 <? length (split_bool (trim s) op))%nat = true
  /\ map (parse_fuel n) (split_bool (trim s) op) = map (parse_fuel n) ps.
Proof.
  intros Ho Hs Hl Hn. pose proof (trim_length s). destruct (splits_parts _ _ _ Hs) as [H1 H2].
  rewrite (split_bool_splits _ _ _ Ho Hs), length_map. split; [|split].
  - apply list.Forall_forall. intros p Hp. destruct (Forall_in _ _ _ H1 Hp) as [? _].
    pose proof (Forall_in _ _ _ (H2 Hl) Hp) as H3. cbn in H3. split; [done|lia].
  - by apply Nat.ltb_lt.
  - rewrite map_map. destruct n as [|n]; [destruct s; [|cbn in *; lia]; inversion Hs; subst; cbn in *; [lia|by destruct p]|].
    apply map_ext. intros p. apply parse_fuel_trim.
Qed.

Lemma reads_parse n s t : (length s < n)%nat -> nested s -> reads s t -> parse_fuel n s = t.
Proof.
  revert s t; induction n as [|n IH]; intros s t Hn Hs; [lia|]. apply nested_trim in Hs.
  assert (forall op ps ts, is_op op -> splits op (trim s) ps -> (2 <= length ps)%nat -> Forall2 reads ps ts ->
    map (parse_fuel n) (split_bool (trim s) op) = ts) as K.
  { intros op ps ts Ho H1 H2 H3. destruct (parse_parts op n s ps) as (K1 & _ & ->); try done; [lia|].
    clear H1 H2. induction H3 as [|p t' ps ts Hp H3 IHl] in K1 |- *; [done|]. inversion K1 as [|? ? [K2 K3] K4]; subst.
    cbn [map]. f_equal; [by apply IH|by apply IHl]. }
  intros H. inversion H as [? u ? Hg Hu|? ps ts Hp Hl Hts|? ps ts Hg Hf Hp Hl Hts|? u ? Hf Hf' Hu Ht|? Hg Hf Hf' Hu]; subst.
  - rewrite (parse_fuel_group n s u Hs Hg). pose proof (grouped_length _ _ Hg).
    rewrite (parse_fuel_enough _ n) by lia. apply IH; [lia|apply Hg|done].
  - cbn [parse_fuel]. rewrite strip_plain; [|done|].
    + destruct (parse_parts (ch "|") n s ps) as (_ & -> & _); try done; [by left|lia|]. f_equal. apply (K _ ps); op_side.
    + intros u Hg. apply (group_flat (ch "|")) in Hg; [|by left]. apply (splits_one _ _ _ Hp) in Hg; [lia|by left].
  - cbn [parse_fuel]. rewrite strip_plain by done. rewrite (split_bool_flat (ch "|")) by op_side. change (1 <? length [trim (trim s)])%nat with false. cbv iota.
    destruct (parse_parts (ch "&") n s ps) as (_ & -> & _); try done; [by right|lia|]. f_equal. apply (K _ ps); op_side.
  - cbn [parse_fuel]. assert (forall v, ~ grouped (trim s) v) as Hg.
    { intros v [E _]. destruct Hu as [E' _]. by rewrite E in E'. }
    rewrite strip_plain by done. rewrite !split_bool_flat by op_side. change (1 <? length [trim (trim s)])%nat with false. cbv iota.
    pose proof (negation_length _ _ Hu). pose proof (negation_nested _ _ Hs Hu). destruct Hu as [E Hu].
    apply negation_test in Hu. rewrite (proj2 (strip_prefix_spec [ch "!"] _ u) E), Hu. f_equal. apply IH; [lia|done|done].
  - cbn [parse_fuel]. rewrite strip_plain by done. rewrite !split_bool_flat by op_side. change (1 <? length [trim (trim s)])%nat with false. cbv iota.
    destruct (strip_prefix _ _) as [u|] eqn:E; [|done]. apply strip_prefix_spec in E.
    destruct (negb _) eqn:F; [|done]. by destruct (Hu u); split; [|apply negation_test].
Qed.

Lemma parse_reads n s : (length s < n)%nat -> nested s -> reads s (parse_fuel n s).
Proof.
  revert s; induction n as [|n IH]; intros s Hn Hs; [lia|]. pose proof (nested_trim _ Hs) as Ht.
  destruct (parens_enclose (trim s)) eqn:He.
  { apply parens_enclose_spec in He as [u Hu]; [|done]. rewrite (parse_fuel_group n s u Ht Hu). pose proof (grouped_length _ _ Hu).
    apply (reads_group _ u); [done|]. rewrite (parse_fuel_enough _ n) by lia. apply IH; [lia|apply Hu]. }
  assert (forall u, ~ grouped (trim s) u) as Hg.
  { intros u Hu. rewrite (proj2 (parens_enclose_spec _ Ht)) in He; [done|by exists u]. }
  assert (forall op ps, is_op op -> splits op (trim s) ps -> (2 <= length ps)%nat ->
    Forall2 reads ps (map (parse_fuel n) (split_bool (trim s) op))) as K.
  { intros op ps Ho Hp Hl. destruct (parse_parts op n s ps) as (K & _ & ->); try done; [lia|].
    clear Hp Hl. induction K as [|p ps [K1 K2] _ IHl]; constructor; [by apply IH|done]. }
  cbn [parse_fuel]. rewrite strip_plain by done.
  destruct (nested_splits (ch "|") (trim s)) as [ps Hps]; [by left|done|].
  destruct (splits_one _ _ _ Hps) as [H1 H2]; [by left|].
  destruct (decide (length ps = 1%nat)) as [E|E].
  2: { assert (2 <= length ps)%nat by (inversion Hps; subst; cbn in *; lia).
       destruct (parse_parts (ch "|") n s ps) as (_ & -> & _); try done; [by left|lia|].
       eapply reads_or; [done|done|]. apply K; op_side. }
  apply H2 in E. clear H1 H2 ps Hps. rewrite (split_bool_flat (ch "|")) by op_side.
  change (1 <? length [trim (trim s)])%nat with false. cbv iota.
  destruct (nested_splits (ch "&") (trim s)) as [ps Hps]; [by right|done|].
  destruct (splits_one _ _ _ Hps) as [H1 H2]; [by right|].
  destruct (decide (length ps = 1%nat)) as [F|F].
  2: { assert (2 <= length ps)%nat by (inversion Hps; subst; cbn in *; lia).
       destruct (parse_parts (ch "&") n s ps) as (_ & -> & _); try done; [by right|lia|].
       eapply reads_and; [done|done|done|done|]. apply K; op_side. }
  apply H2 in F. rewrite (split_bool_flat (ch "&")) by op_side.
  change (1 <? length [trim (trim s)])%nat with false. cbv iota.
  destruct (strip_prefix [ch "!"] (trim s)) as [u|] eqn:G.
  - apply strip_prefix_spec in G. destruct (negb _) eqn:N.
    + apply negation_test in N. assert (negation (trim s) u) as Hu by done. pose proof (negation_length _ _ Hu).
      apply (reads_not _ u); [done|done|done|]. apply IH; [lia|]. by apply (negation_nested s).
    + apply reads_leaf; [done|done|done|]. intros v [G' Hv]. rewrite G in G'. injection G' as <-.
      apply negation_test in Hv. congruence.
  - apply reads_leaf; [done|done|done|]. intros v [G' _].
    apply (strip_prefix_spec [ch "!"]) in G'. congruence.
Qed.

(** ** Literals

    Where a text holds neither a character literal nor an escape, the two-state scan of the splitters
    and [Quoted] agree at every character. *)

Lemma quoted_plain q c : c <> QUOTE -> c <> APOS -> c <> BACKSLASH -> escaped q = false -> quoted_step q c = q.
Proof.
  intros H1 H2 H3 E. unfold quoted_step. rewrite E, !(proj2 (Z.eqb_neq c _)) by done. done.
Qed.

Lemma lex_quoted s q k b k' :
  APOS ∉ s -> BACKSLASH ∉ s -> in_char q = false -> escaped q = false -> lex (in_str q, k) s = Some (b, k') ->
  inside (foldl quoted_step q s) = b.
Proof.
  revert q k. induction s as [|c s IH]; intros q k H1 H2 H3 H4.
  { intros [= <- _]. cbn. unfold inside. by rewrite H3, orb_false_r. }
  apply not_elem_of_cons in H1 as [N1 H1], H2 as [N2 H2]. cbn [lex foldl].
  destruct (lex_step (in_str q, k) c) as [[b1 k1]|] eqn:E; [|done]. intros Hl.
  destruct (Z.eqb_spec c QUOTE) as [->|N].
  - injection E as <- <-. eapply IH; [done|done| | |]; unfold quoted_step; rewrite H4, H3; cbn; done.
  - rewrite quoted_plain by done. assert (b1 = in_str q) as ->.
    { revert E. unfold lex_step. rewrite (proj2 (Z.eqb_neq c QUOTE)) by done. destruct (in_str q); [by intros [= <- _]|].
      destruct (c =? ch "("); [by intros [= <- _]|]. destruct (c =? ch "["); [by intros [= <- _]|].
      destruct (_ || _); [|by intros [= <- _]]. destruct k as [|x k]; [done|]. destruct (x =? c); [|done]. by intros [= <- _]. }
    by apply (IH q k1).
Qed.

(** C25. The boolean structure of a condition. For every text whose strings are closed and whose brackets
    match, the parser answers exactly the tree the grammar reads: [||] loosest, then [&&], then [!],
    parentheses regrouping, strings and bracketed text opaque, blanks immaterial. It does so with no more
    fuel than the text is long, and where the text holds no character literal and no escape its notion of
    being inside a literal is [Quoted]'s. With a character literal it is not: [c == '(' && n > 1] opens a
    bracket for the splitter, and the whole text is read as one leaf. *)
Theorem condition_parsed :
  (forall s t, nested s -> (parse_bool_tree s = t <-> reads s t))
  /\ (forall n s, (length s < n)%nat -> parse_fuel n s = parse_bool_tree s)
  /\ (forall p q b k, APOS ∉ p ++ q -> BACKSLASH ∉ p ++ q -> lex top p = Some (b, k) ->
        inside (foldl quoted_step quoted_default p) = b)
  /\ (let s := chars_of "c == '(' && n > 1" in
      inside (foldl quoted_step quoted_default (take 6 s)) = true /\ parse_bool_tree s = BoolLeaf s).
Proof.
  split; [|split; [|split]].
  - intros s t Hn. split.
    + intros <-. apply parse_reads; [lia|done].
    + apply reads_parse; [lia|done].
  - intros n s H. apply parse_fuel_enough; lia.
  - intros p q b k H1 H2 Hl. apply not_elem_of_app in H1 as [H1 _], H2 as [H2 _].
    by apply (lex_quoted p quoted_default [] b k).
  - split; vm_compute; reflexivity.
Qed.

Definition sample_condition : chars :=
  chars_of "!a.b(" ++ [QUOTE] ++ chars_of "x || y" ++ [QUOTE] ++ chars_of ") || c && (d[1] > 2 || e)".

Lemma condition_parsed_witness :
  nested sample_condition
  /\ reads sample_condition
       (BoolOr [BoolNot (BoolLeaf (take 13 (drop 1 sample_condition)));
                BoolAnd [BoolLeaf (chars_of "c"); BoolOr [BoolLeaf (chars_of "d[1] > 2"); BoolLeaf (chars_of "e")]]])
  /\ parse_fuel 100 sample_condition = parse_bool_tree sample_condition
  /\ inside (foldl quoted_step quoted_default (take 8 sample_condition)) = true.
Proof.
  assert (nested sample_condition) as Hn by (vm_compute; reflexivity).
  split; [done|]. split; [|split].
  - apply (proj1 condition_parsed); [done|]. vm_compute. reflexivity.
  - apply (proj1 (proj2 condition_parsed)). vm_compute. lia.
  - apply (proj1 (proj2 (proj2 condition_parsed)) _ (drop 8 sample_condition) _ [ch ")"]).
    + by_compute.
    + by_compute.
    + vm_compute. reflexivity.
Defined.

(** ** Evaluation *)

Section EvaluationFacts.
Context {St Er : Type} (leaf_eval : chars -> St -> result Er bool * St).
Abbreviation eval := (eval_bool_tree_on_frame leaf_eval).

(** The branches answer [v] one after the other, from [s] to [s']. *)
Inductive steady (v : bool) : list BoolTree -> St -> St -> Prop :=
| steady_nil s : steady v [] s s
| steady_cons b bs s s1 s2 : eval b s = (Ok v, s1) -> steady v bs s1 s2 -> steady v (b :: bs) s s2.

(** [bs] answers [v] throughout, or up to the branch that answers otherwise or fails. *)
Definition decided (v : bool) (bs : list BoolTree) (s : St) (r : result Er bool) (s' : St) : Prop :=
  (r = Ok v /\ steady v bs s s')
  \/ exists pre b post s1, bs = pre ++ b :: post /\ steady v pre s s1 /\ eval b s1 = (r, s') /\ r <> Ok v.

Lemma decided_nil v s r s' : decided v [] s r s' <-> r = Ok v /\ s' = s.
Proof.
  split.
  - intros [[-> H]|(pre & b & post & s1 & E & _)]; [by inversion H|by destruct pre].
  - intros [-> ->]. left. split; [done|constructor].
Qed.

Lemma decided_cons v b bs s r s' :
  decided v (b :: bs) s r s' <->
  (exists s1, eval b s = (Ok v, s1) /\ decided v bs s1 r s') \/ (eval b s = (r, s') /\ r <> Ok v).
Proof.
  split.
  - intros [[-> H]|(pre & b' & post & s1 & E & H & Hb & Hr)].
    + inversion H as [|? ? ? s1 ? Hb Hs]; subst. left. exists s1. split; [done|by left].
    + destruct pre as [|a pre]; cbn in E; injection E as -> ->.
      * inversion H; subst. by right.
      * inversion H as [|? ? ? s2 ? Ha Hs]; subst. left. exists s2. split; [done|]. right. by exists pre, b', post, s1.
  - intros [(s1 & Hb & [[-> H]|(pre & b' & post & s2 & -> & H & Hb' & Hr)])|[Hb Hr]].
    + left. split; [done|]. by econstructor.
    + right. exists (b :: pre), b', post, s2. split; [done|]. split; [by econstructor|done].
    + right. exists [], b, bs, s. repeat split; try done. constructor.
Qed.
End EvaluationFacts.

Section EvaluationSpec.
Context {St Er : Type} (leaf_eval : chars -> St -> result Er bool * St).
Abbreviation eval := (eval_bool_tree_on_frame leaf_eval).

Lemma eval_or_decided bs s r s' : eval (BoolOr bs) s = (r, s') <-> decided leaf_eval false bs s r s'.
Proof.
  revert s. induction bs as [|b bs IH]; intros s.
  { rewrite decided_nil. cbn. split; [by intros [= <- <-]|by intros [-> ->]]. }
  rewrite decided_cons. cbn [eval_bool_tree_on_frame] in *. destruct (eval b s) as [[[]|e] s1] eqn:E.
  - split; [intros [= <- <-]; by right|]. by intros [(s2 & ? & _)|[? _]]; simplify_eq.
  - rewrite IH. split; [intros H; left; by exists s1|]. by intros [(s2 & ? & ?)|[? Hr]]; simplify_eq.
  - split; [intros [= <- <-]; by right|]. by intros [(s2 & ? & _)|[? _]]; simplify_eq.
Qed.

Lemma eval_and_decided bs s r s' : eval (BoolAnd bs) s = (r, s') <-> decided leaf_eval true bs s r s'.
Proof.
  revert s. induction bs as [|b bs IH]; intros s.
  { rewrite decided_nil. cbn. split; [by intros [= <- <-]|by intros [-> ->]]. }
  rewrite decided_cons. cbn [eval_bool_tree_on_frame] in *. destruct (eval b s) as [[[]|e] s1] eqn:E.
  - rewrite IH. split; [intros H; left; by exists s1|]. by intros [(s2 & ? & ?)|[? Hr]]; simplify_eq.
  - split; [intros [= <- <-]; by right|]. by intros [(s2 & ? & _)|[? _]]; simplify_eq.
  - split; [intros [= <- <-]; by right|]. by intros [(s2 & ? & _)|[? _]]; simplify_eq.
Qed.

Definition negated (r : result Er bool) : result Er bool :=
  match r with Ok b => Ok (negb b) | Err e => Err e end.

Lemma eval_not t s : eval (BoolNot t) s = (negated (eval t s).1, (eval t s).2).
Proof. cbn. by destruct (eval t s) as [[]]. Qed.

Lemma de_morgan bs s : eval (BoolNot (BoolOr bs)) s = eval (BoolAnd (map BoolNot bs)) s.
Proof.
  revert s. induction bs as [|b bs IH]; intros s; [done|]. cbn [eval_bool_tree_on_frame map] in *.
  destruct (eval b s) as [[[]|e] s1]; cbn [negb]; [done| |done]. by rewrite <-IH.
Qed.
End EvaluationSpec.

(** The value of a tree whose leaves have values. *)
Fixpoint truth (v : chars -> bool) (t : BoolTree) : bool :=
  match t with
  | BoolOr bs => existsb (truth v) bs
  | BoolAnd bs => forallb (truth v) bs
  | BoolNot t => negb (truth v t)
  | BoolLeaf l => v l
  end.

Fixpoint tree_size (t : BoolTree) : nat :=
  match t with
  | BoolOr bs | BoolAnd bs => S (list_sum (map tree_size bs))
  | BoolNot t => S (tree_size t)
  | BoolLeaf _ => 1
  end.

Lemma branch_smaller b bs : In b bs -> (tree_size b < S (list_sum (map tree_size bs)))%nat.
Proof.
  induction bs as [|a bs IH]; [done|].
  change (list_sum (map tree_size (a :: bs))) with (tree_size a + list_sum (map tree_size bs))%nat.
  intros [->|H]; [lia|]. specialize (IH H). lia.
Qed.

Lemma eval_truth {St Er} (leaf_eval : chars -> St -> result Er bool * St) (v : chars -> bool) :
  (forall l s, exists s', leaf_eval l s = (Ok (v l), s')) ->
  forall t s, exists s', eval_bool_tree_on_frame leaf_eval t s = (Ok (truth v t), s').
Proof.
  intros Hl t. remember (tree_size t) as n eqn:En. revert t En. induction (lt_wf n) as [n _ IH]. intros t -> s.
  destruct t as [bs|bs|t|l]; cbn [tree_size] in IH; [| | |apply Hl].
  1, 2: assert (forall b s, In b bs -> exists s', eval_bool_tree_on_frame leaf_eval b s = (Ok (truth v b), s')) as K
    by (intros b s' Hb; by apply (IH _ (branch_smaller _ _ Hb))); clear IH.
  - revert s. induction bs as [|b bs IHb]; intros s; [by exists s|]. cbn. destruct (K b s) as [s1 E]; [by left|].
    cbn in E. rewrite E. destruct (truth v b); [by exists s1|]. apply IHb. intros; apply K; by right.
  - revert s. induction bs as [|b bs IHb]; intros s; [by exists s|]. cbn. destruct (K b s) as [s1 E]; [by left|].
    cbn in E. rewrite E. destruct (truth v b); [|by exists s1]. apply IHb. intros; apply K; by right.
  - cbn. destruct (IH (tree_size t)) with (t := t) (s := s) as [s1 E]; [lia|done|]. rewrite E. by exists s1.
Qed.

(** C26. What a condition answers. [||] takes its branches in order and stops at the first that does not
    answer false, [&&] at the first that does not answer true, with the failure of that branch if it
    fails, and in the state it leaves: no later clause touches the debuggee. [!] inverts an answer and
    keeps a failure, so negating [||] is [&&] of the negations, to the same state. Where every leaf has
    a value the condition answers the boolean formula over those values, on the thread's top frame. A stop is discarded only when its condition was evaluated there, to false: no frame to read or a
    failure keeps it. *)
Theorem condition_evaluated {St Fe Er Frame} (get_top_frames : St -> result Fe (list Frame) * St)
    (leaves : Frame -> ConditionBindings -> chars -> St -> result Er bool * St) :
  (forall leaf_eval : chars -> St -> result Er bool * St, forall bs s r s',
     (eval_bool_tree_on_frame leaf_eval (BoolOr bs) s = (r, s') <-> decided leaf_eval false bs s r s')
     /\ (eval_bool_tree_on_frame leaf_eval (BoolAnd bs) s = (r, s') <-> decided leaf_eval true bs s r s')
     /\ eval_bool_tree_on_frame leaf_eval (BoolNot (BoolOr bs)) s
        = eval_bool_tree_on_frame leaf_eval (BoolAnd (map BoolNot bs)) s)
  /\ (forall c b t s frame rest s1 v, let c' := bind_object_heads c (object_heads b) in
       nested c' -> reads c' t -> get_top_frames s = (Ok (frame :: rest), s1) ->
       (forall l s, exists s', leaves frame b l s = (Ok (v l), s')) ->
       (evaluate_condition_on_thread get_top_frames leaves c b s).1 = truth v t)
  /\ (forall c b s, (evaluate_condition_on_thread get_top_frames leaves c b s).1 = false ->
       exists frame rest s1 s', get_top_frames s = (Ok (frame :: rest), s1)
         /\ eval_condition (leaves frame b) c b s1 = (Ok false, s')).
Proof.
  split; [|split].
  - intros leaf_eval bs s r s'. split; [apply eval_or_decided|]. split; [apply eval_and_decided|apply de_morgan].
  - intros c b t s frame rest s1 v c' Hn Hr Hf Hv. unfold evaluate_condition_on_thread, eval_condition. rewrite Hf.
    assert (parse_bool_tree c' = t) as E by (apply reads_parse; [lia|done|done]). subst c'. rewrite E.
    destruct (eval_truth (leaves frame b) v Hv t s1) as [s' F]. by rewrite F.
  - intros c b s. unfold evaluate_condition_on_thread. destruct (get_top_frames s) as [[[|frame rest]|e] s1] eqn:E; [done| |done].
    destruct (eval_condition _ c b s1) as [[v|e] s2] eqn:F; [|done]. cbn. intros ->. by exists frame, rest, s1, s2.
Qed.

(** A leaf evaluator that counts its calls: [a] holds, [e] fails, the others do not hold. *)
Definition counting_leaf (l : chars) (n : Z) : result string bool * Z :=
  if bool_decide (l = chars_of "a") then (Ok true, n + 1)
  else if bool_decide (l = chars_of "e") then (Err "no such local", n + 1) else (Ok false, n + 1).

Definition total_leaf (l : chars) (n : Z) : result string bool * Z := (Ok (bool_decide (l = chars_of "a")), n + 1).

Definition no_bindings : ConditionBindings := {| cb_exception := None; cb_new_value := None |}.

Definition one_frame (n : Z) : result string (list unit) * Z := (Ok [tt], n).

Lemma condition_evaluated_witness :
  (evaluate_condition_on_thread one_frame (fun _ _ => total_leaf) (chars_of "b || !(b && a)") no_bindings 0).1 = true
  /\ (exists frame rest s1 s', one_frame 0 = (Ok (frame :: rest), s1)
        /\ eval_condition counting_leaf (chars_of "b && a") no_bindings s1 = (Ok false, s'))
  /\ decided counting_leaf false [BoolLeaf (chars_of "b"); BoolLeaf (chars_of "a"); BoolLeaf (chars_of "e")] 0 (Ok true) 2.
Proof.
  split; [|split].
  - transitivity (truth (fun l => bool_decide (l = chars_of "a")) (parse_bool_tree (chars_of "b || !(b && a)")));
      [|vm_compute; reflexivity].
    destruct (condition_evaluated one_frame (fun _ _ => total_leaf)) as (_ & H & _).
    apply (H _ _ _ _ tt [] 0); [vm_compute; reflexivity| |done|by eexists].
    change (bind_object_heads _ _) with (chars_of "b || !(b && a)"). apply parse_reads; [lia|vm_compute; reflexivity].
  - destruct (condition_evaluated one_frame (fun _ _ => counting_leaf)) as (_ & _ & H). apply H. vm_compute. reflexivity.
  - destruct (condition_evaluated one_frame (fun _ _ => counting_leaf)) as (H & _). apply (H counting_leaf). vm_compute. reflexivity.
Defined.
