(* ===== verification/ConditionScan.v ===== *)
(** * Scans of a condition ([mcp-server/src/handlers.rs])

    What the scanners of Condition.v find: where a comparison splits, whether a text calls a method, and
    where a bound name heads a chain. *)

From S2P Require Import Prelude Types Events Text Condition.

(** ** Comparisons, against the first operator at the top level *)

Definition compare_step (st : Quoted * Z) (c : Z) : Quoted * Z :=
  let '(q, depth) := st in (quoted_step q c, depth_step (negb (inside q)) c depth).

(** The scan outside literals and parentheses after [p]. *)
Definition at_top (p : chars) : Prop :=
  let '(q, depth) := foldl compare_step (quoted_default, 0) p in inside q = false /\ depth = 0.

(** [s] splits after [p] at the operator [op], with text on both sides. *)
Definition splits_at (s p op r : chars) : Prop :=
  s = p ++ op ++ r /\ op ∈ comparison_ops /\ at_top p /\ trim p <> [] /\ trim r <> [].

Lemma split_here_spec ops before after :
  match split_here ops before after with
  | Some (l, op, r) => exists q ops1 ops2, after = op ++ q /\ ops = ops1 ++ op :: ops2 /\ l = trim before /\ r = trim q
      /\ trim before <> [] /\ trim q <> []
      /\ forall o q', o ∈ ops1 -> after = o ++ q' -> trim q' = []
  | None => forall op q, op ∈ ops -> after = op ++ q -> trim before = [] \/ trim q = []
  end.
Proof.
  induction ops as [|op ops IH]; cbn [split_here]; [intros ? ? []%not_elem_of_nil|].
  destruct (strip_prefix op after) as [q|] eqn:E.
  - apply strip_prefix_spec in E. destruct (bool_decide (trim before = [])) eqn:B; cbn [orb].
    + apply bool_decide_eq_true in B. destruct (split_here ops before after) as [[[l o] r]|]; [|by intros; left].
      destruct IH as (q' & o1 & o2 & _ & _ & _ & _ & N & _). done.
    + apply bool_decide_eq_false in B. destruct (bool_decide (trim q = [])) eqn:C.
      * apply bool_decide_eq_true in C. destruct (split_here ops before after) as [[[l o] r]|].
        -- destruct IH as (q' & o1 & o2 & H1 & -> & H2 & H3 & H4 & H5 & H6). exists q', (op :: o1), o2. repeat split; try done.
           intros o' q2 [->|H]%elem_of_cons; [|by apply H6]. rewrite E. by intros <-%app_inv_head.
        -- intros o' q2 [->|H]%elem_of_cons; [|by apply IH]. rewrite E. intros <-%app_inv_head. by right.
      * apply bool_decide_eq_false in C. exists q, [], ops. repeat split; try done. by intros ? ? ?%elem_of_nil.
  - assert (forall q, after <> op ++ q) as N by (intros q H; apply strip_prefix_spec in H; congruence).
    destruct (split_here ops before after) as [[[l o] r]|].
    + destruct IH as (q' & o1 & o2 & H1 & -> & H2 & H3 & H4 & H5 & H6). exists q', (op :: o1), o2. repeat split; try done.
      intros o' q2 [->|H]%elem_of_cons; [by intros ?%N|by apply H6].
    + intros o' q2 [->|H]%elem_of_cons; [by intros ?%N|by apply IH].
Qed.

Lemma longer_first ops1 op ops2 o :
  comparison_ops = ops1 ++ op :: ops2 -> o ∈ ops2 -> (length o <= length op)%nat.
Proof.
  intros E. assert (StronglySorted (fun a b : chars => (length b <= length a)%nat) comparison_ops) as H
    by (vm_compute; repeat constructor).
  rewrite E in H. clear E. induction ops1 as [|a ops1 IH]; cbn in H.
  - apply StronglySorted_inv in H as [_ H]. intros Ho. by apply (Forall_in _ _ _ H).
  - apply StronglySorted_inv in H as [H _]. by apply IH.
Qed.

Lemma op_shape op : op ∈ comparison_ops -> exists c r, op = c :: r /\ c ∉ [QUOTE; APOS; ch "("; ch ")"].
Proof.
  intros H%list_elem_of_In.
  assert (forallb (fun o => match o with c :: _ => bool_decide (c ∉ [QUOTE; APOS; ch "("; ch ")"]) | [] => false end) comparison_ops
          = true) as K by (vm_compute; reflexivity).
  rewrite forallb_forall in K. specialize (K _ H). destruct op as [|c r]; [done|]. apply bool_decide_eq_true in K. by exists c, r.
Qed.

(** Whether a split starts right after [before]. *)
Lemma split_now before c rest q depth :
  foldl compare_step (quoted_default, 0) before = (q, depth) ->
  let found := if negb (inside q) && (depth =? 0) && negb (bool_decide (c ∈ [QUOTE; APOS; ch "("; ch ")"]))
               then split_here comparison_ops before (c :: rest) else None in
  match found with
  | Some (l, op, r) => exists t, splits_at (before ++ c :: rest) before op t /\ l = trim before /\ r = trim t
      /\ forall o' t', splits_at (before ++ c :: rest) before o' t' -> (length o' <= length op)%nat
  | None => forall op t, ~ splits_at (before ++ c :: rest) before op t
  end.
Proof.
  intros Hq found. assert (forall op t, splits_at (before ++ c :: rest) before op t ->
    negb (inside q) && (depth =? 0) && negb (bool_decide (c ∈ [QUOTE; APOS; ch "("; ch ")"])) = true) as K.
  { intros op t (E & Ho & Ht & _). unfold at_top in Ht. rewrite Hq in Ht. destruct Ht as [-> ->].
    destruct (op_shape _ Ho) as (x & y & -> & Hx). apply app_inv_head in E. injection E as <- _.
    rewrite bool_decide_eq_false_2 by done. done. }
  subst found. destruct (_ && _ && _) eqn:C; [|by intros op t H%K].
  pose proof (split_here_spec comparison_ops before (c :: rest)) as S.
  destruct (split_here comparison_ops before (c :: rest)) as [[[l o] r]|].
  - destruct S as (t & o1 & o2 & E & Eo & -> & -> & N1 & N2 & Hmin). exists t. split; [|split; [done|split; [done|]]].
    + split; [by rewrite E|]. split; [rewrite Eo; apply elem_of_app; right; apply elem_of_cons; by left|]. split; [|done]. unfold at_top. rewrite Hq.
      rewrite !andb_true_iff in C. destruct C as [[C1 C2] _]. reflect_bools. done.
    + intros o' t' (E' & Ho & _ & _ & Ht). apply app_inv_head in E'. rewrite Eo in Ho.
      apply elem_of_app in Ho as [Ho|[->|Ho]%elem_of_cons]; [|done|by eapply longer_first].
      by destruct Ht; apply (Hmin o').
  - intros op t (E & Ho & _ & N1 & N2). apply app_inv_head in E. by destruct (S _ _ Ho E).
Qed.

Lemma split_from_spec s before q depth :
  foldl compare_step (quoted_default, 0) before = (q, depth) ->
  match split_comparison_from before s q depth with
  | Some (l, op, r) => exists p t, splits_at (before ++ s) (before ++ p) op t /\ l = trim (before ++ p) /\ r = trim t
      /\ forall p' o' t', splits_at (before ++ s) (before ++ p') o' t' ->
           (length p < length p')%nat \/ (length p = length p' /\ length o' <= length op)%nat
  | None => forall p' op t, ~ splits_at (before ++ s) (before ++ p') op t
  end.
Proof.
  revert before q depth. induction s as [|c s IH]; intros before q depth Hq; cbn [split_comparison_from].
  { intros p' op t (E & Ho & _). destruct (op_shape _ Ho) as (x & y & -> & _). rewrite <-!app_assoc in E.
    apply app_inv_head in E. by destruct p'. }
  pose proof (split_now before c s q depth Hq) as N. cbv zeta in N.
  destruct (if negb (inside q) && (depth =? 0) && _ then split_here comparison_ops before (c :: s) else None) as [[[l o] r]|].
  - destruct N as (t & Hs & -> & -> & Hmax). exists [], t. rewrite app_nil_r. split; [done|]. split; [done|]. split; [done|].
    intros p' o' t' H. destruct p' as [|x p']; [|left; cbn; lia]. right. rewrite app_nil_r in H. split; [done|by eapply Hmax].
  - specialize (IH (before ++ [c]) (quoted_step q c) (depth_step (negb (inside q)) c depth)).
    rewrite foldl_snoc, Hq in IH. specialize (IH eq_refl).
    assert (forall p' op t, splits_at (before ++ c :: s) (before ++ p') op t -> exists p2, p' = c :: p2) as Hc.
    { intros p' op t H. destruct p' as [|x p']; [rewrite app_nil_r in H; by apply N in H|].
      destruct H as (E & _). rewrite <-!app_assoc in E. apply app_inv_head in E. injection E as <- _. by exists p'. }
    destruct (split_comparison_from _ s _ _) as [[[l o] r]|].
    + destruct IH as (p & t & Hs & -> & -> & Hmin). rewrite <-!app_assoc in Hs. exists (c :: p), t.
      split; [done|]. split; [by rewrite <-app_assoc|]. split; [done|].
      intros p' o' t' H. destruct (Hc _ _ _ H) as [p2 ->]. destruct (Hmin p2 o' t') as [L|L].
      * by rewrite <-!app_assoc.
      * left. cbn. lia.
      * right. cbn. lia.
    + intros p' op t H. destruct (Hc _ _ _ H) as [p2 ->]. apply (IH p2 op t). by rewrite <-!app_assoc.
Qed.

(** Where a comparison splits. [split_comparison] answers the operator at the first place outside
    literals and parentheses that leaves text on both sides, the longest operator there, and the two
    sides trimmed; and it answers nothing exactly when no place qualifies. *)
Theorem comparison_split cond :
  match split_comparison cond with
  | Some (l, op, r) => exists p t, splits_at cond p op t /\ l = trim p /\ r = trim t
      /\ forall p' o' t', splits_at cond p' o' t' ->
           (length p < length p')%nat \/ (p = p' /\ length o' <= length op)%nat
  | None => forall p op t, ~ splits_at cond p op t
  end.
Proof.
  pose proof (split_from_spec cond [] quoted_default 0 eq_refl) as H. unfold split_comparison.
  destruct (split_comparison_from [] cond quoted_default 0) as [[[l op] r]|]; [|exact H].
  destruct H as (p & t & Hs & -> & -> & Hmin). exists p, t. split; [done|]. split; [done|]. split; [done|].
  intros p' o' t' H'. destruct (Hmin _ _ _ H') as [L|[L L']]; [by left|right]. split; [|done].
  destruct Hs as [E _], H' as [E' _]. cbn in E, E'. rewrite E in E'. by apply app_inj_1 in E' as [-> _].
Qed.

(** ** Invocations, against the opening parentheses outside literals *)

Definition opens_outside (s : chars) : Prop :=
  exists p r, s = p ++ ch "(" :: r /\ inside (foldl quoted_step quoted_default p) = false.

Lemma expr_invokes_scan s q :
  APOS ∉ s -> in_char q = false -> (escaped q = true -> in_str q = true) ->
  expr_invokes_from s (in_str q) (escaped q) = true
  <-> exists p r, s = p ++ ch "(" :: r /\ inside (foldl quoted_step q p) = false.
Proof.
  revert q. induction s as [|c s IH]; intros q Ha Hc He.
  { split; [done|]. by intros ([|] & ? & ? & _). }
  apply not_elem_of_cons in Ha as [Na Ha]. destruct q as [b cq e]. cbn in Hc, He. subst cq. cbn [in_str escaped].
  assert (forall b' e', quoted_step {| in_str := b; in_char := false; escaped := e |} c = {| in_str := b'; in_char := false; escaped := e' |} ->
    (e' = true -> b' = true) -> (b = false -> c <> ch "(") ->
    expr_invokes_from s b' e' = true <->
    exists p r, c :: s = p ++ ch "(" :: r /\ inside (foldl quoted_step {| in_str := b; in_char := false; escaped := e |} p) = false) as K.
  { intros b' e' Hq Hb Hp. rewrite (IH {| in_str := b'; in_char := false; escaped := e' |}) by done. split.
    - intros (p & r & -> & Hi). exists (c :: p), r. split; [done|]. cbn [foldl]. by rewrite Hq.
    - intros (p & r & E & Hi). destruct p as [|d p]; cbn in E; injection E as -> E.
      + unfold inside in Hi. cbn [foldl in_str in_char] in Hi. rewrite orb_false_r in Hi. by destruct (Hp Hi).
      + exists p, r. split; [done|]. cbn [foldl] in Hi. by rewrite Hq in Hi. }
  cbn [expr_invokes_from]. unfold quoted_step, inside in K. cbn [in_str in_char escaped] in K.
  rewrite (proj2 (Z.eqb_neq c APOS)) in K by done. cbn [negb andb] in K. rewrite andb_true_r, orb_false_r in K.
  destruct b; [destruct e|].
  - by apply K.
  - cbn [negb andb] in K. rewrite andb_true_r in K. destruct (c =? BACKSLASH); [by apply K|].
    destruct (c =? QUOTE); by apply K.
  - destruct e; [by discriminate He|]. cbn [negb andb] in K. rewrite andb_false_r in K.
    destruct (c =? QUOTE) eqn:E; [apply K; [done|done|]; apply Z.eqb_eq in E as ->; done|].
    destruct (Z.eqb_spec c (ch "(")) as [->|N]; [|by apply K].
    split; [|done]. intros _. by exists [], s.
Qed.

(** The arm-time refusal of an invoking condition. Where the text holds no character literal,
    [expr_invokes] answers yes exactly when a parenthesis opens outside string literals, so a read-only
    session refuses every condition that calls a method. With a character literal it can answer no: a
    double quote between apostrophes opens a string for this scan, and a call after it is not seen. *)
Theorem expr_invokes_exact :
  (forall expr, APOS ∉ expr -> (expr_invokes expr = true <-> opens_outside expr))
  /\ (let expr := chars_of "c == '" ++ [QUOTE] ++ chars_of "' && x.f()" in
      opens_outside expr /\ expr_invokes expr = false).
Proof.
  split.
  - intros expr H. by apply (expr_invokes_scan expr quoted_default).
  - split; [|vm_compute; reflexivity]. exists (chars_of "c == '" ++ [QUOTE] ++ chars_of "' && x.f"), (chars_of ")").
    split; vm_compute; reflexivity.
Qed.

Lemma expr_invokes_exact_witness :
  expr_invokes (chars_of "a.b == " ++ [QUOTE] ++ chars_of "(" ++ [QUOTE] ++ chars_of " || size() > 0") = true
  /\ ~ opens_outside (chars_of "a.b == " ++ [QUOTE] ++ chars_of "(" ++ [QUOTE]).
Proof.
  split.
  - apply (proj1 expr_invokes_exact); [by_compute|].
    exists (chars_of "a.b == " ++ [QUOTE] ++ chars_of "(" ++ [QUOTE] ++ chars_of " || size"), (chars_of ") > 0").
    split; vm_compute; reflexivity.
  - intros H. apply (proj1 expr_invokes_exact) in H; [|by_compute]. vm_compute in H. discriminate H.
Defined.

(** ** Bound heads, against whole identifiers before a dot *)

Abbreviation scan p := (foldl quoted_step quoted_default p).

(** [name] stands at [p] as the head of a chain: outside literals, after no identifier character and no
    dot, and before a dot. *)
Definition head_at (heads : list (chars * Z)) (s p name : chars) (id : Z) (r : chars) : Prop :=
  s = p ++ name ++ ch "." :: r /\ (name, id) ∈ heads /\ inside (scan p) = false /\ head_boundary (list.last p) = true.

Definition heads_ok (heads : list (chars * Z)) : Prop :=
  NoDup heads.*1 /\ Forall (fun h => is_ident h.1 = true) heads.

Lemma object_heads_ok b : heads_ok (object_heads b).
Proof.
  unfold object_heads, heads_ok. destruct (cb_exception b), (val_data <$> cb_new_value b) as [[]|]; try destruct (_ =? 0);
    (split; [by_compute|repeat constructor]).
Qed.

Lemma ident_chars s : is_ident s = true -> s <> [] /\ Forall (fun c => ident_part c = true) s.
Proof.
  destruct s as [|c s]; [done|]. cbn [is_ident]. intros H. reflect_bools. split; [done|].
  apply list.Forall_forall. intros x Hx. rewrite forallb_forall in H0. by apply H0, list_elem_of_In.
Qed.

Lemma ident_part_plain c : ident_part c = true -> c <> ch "." /\ c <> QUOTE /\ c <> APOS /\ c <> BACKSLASH.
Proof. intros H. repeat split; intros ->; by vm_compute in H. Qed.

Lemma scan_ident name q : Forall (fun c => ident_part c = true) name -> escaped q = false -> foldl quoted_step q name = q.
Proof.
  intros H E. induction H as [|c s Hc _ IH]; [done|]. cbn [foldl]. destruct (ident_part_plain _ Hc) as (_ & ? & ? & ?).
  by rewrite quoted_plain.
Qed.

(** A head ends at the first dot. *)
Lemma ident_before_dot a b r t :
  Forall (fun c => ident_part c = true) a -> Forall (fun c => ident_part c = true) b ->
  a ++ ch "." :: r = b ++ ch "." :: t -> a = b /\ r = t.
Proof.
  intros Ha. revert b. induction Ha as [|c a Hc _ IH]; intros b Hb E.
  - inversion Hb as [|d k Hd]; subst; cbn in E; injection E; [by intros ->|]. intros _ <-. by apply ident_part_plain in Hd as [[] _].
  - inversion Hb as [|d k Hd Hk]; subst; cbn in E; injection E.
    + intros _ ->. by apply ident_part_plain in Hc as [[] _].
    + intros E' ->. by destruct (IH _ Hk E') as [-> ->].
Qed.

Lemma head_here_some heads s name id :
  heads_ok heads -> (head_here heads s = Some (name, id) <-> (name, id) ∈ heads /\ exists r, s = name ++ ch "." :: r).
Proof.
  intros [Hn Hi]. unfold head_here. split.
  - intros H. apply find_some in H as [H1 H2]. split; [by apply list_elem_of_In|].
    destruct (strip_prefix name s) as [r|] eqn:E; [|done]. apply strip_prefix_spec in E as ->.
    apply starts_with_spec in H2 as [t ->]. by exists t.
  - intros [H [r ->]]. induction heads as [|[n i] heads IH]; [by apply elem_of_nil in H|]. cbn [List.find].
    inversion Hi as [|? ? Hi1 Hi2]; subst. apply list.NoDup_cons in Hn as [Hn1 Hn2].
    apply elem_of_cons in H as [[= <- <-]|H].
    { rewrite (proj2 (strip_prefix_spec name (name ++ ch "." :: r) _) eq_refl). unfold starts_with. cbn. by rewrite Z.eqb_refl. }
    destruct (strip_prefix n (name ++ ch "." :: r)) as [t|] eqn:E; [|by apply IH].
    destruct (starts_with [ch "."] t) eqn:F; [|by apply IH]. exfalso. apply strip_prefix_spec in E. apply starts_with_spec in F as [u ->].
    cbn [app] in E. pose proof (Forall_in _ _ _ Hi2 H) as Hx. cbn in Hx, Hi1.
    destruct (ident_before_dot name n r u) as [-> _]; [by apply ident_chars|by apply ident_chars|done|].
    destruct Hn1. cbn. by apply (list_elem_of_fmap_2 fst _ (n, id)).
Qed.

Lemma head_here_none heads s :
  heads_ok heads -> (head_here heads s = None <-> forall name id r, (name, id) ∈ heads -> s <> name ++ ch "." :: r).
Proof.
  intros Hh. split.
  - intros H name id r Hin E. assert (head_here heads s = Some (name, id)) by (apply head_here_some; [done|by split; [|exists r]]). congruence.
  - intros H. destruct (head_here heads s) as [[name id]|] eqn:E; [|done].
    apply head_here_some in E as [Hin [r E]]; [|done]. by destruct (H name id r).
Qed.

(** The states a scan from the start can be in. *)
Lemma scan_ok p : (escaped (scan p) = true -> inside (scan p) = true) /\ (in_str (scan p) && in_char (scan p) = false).
Proof.
  induction p as [|c p IH] using rev_ind; [done|]. rewrite foldl_snoc. destruct (scan p) as [[] [] []]; cbn in *;
    unfold quoted_step; cbn [escaped in_str in_char inside negb andb orb]; try done; try (by destruct IH as [? ?]; auto);
    destruct (c =? BACKSLASH), (c =? QUOTE), (c =? APOS); cbn; auto; naive_solver.
Qed.

Lemma scan_outside p : inside (scan p) = false -> scan p = quoted_default.
Proof.
  destruct (scan_ok p) as [H _]. unfold inside in *. destruct (scan p) as [b c e]; cbn in *. intros E.
  rewrite E in H. destruct b, c; try done. destruct e; [by specialize (H eq_refl)|done].
Qed.

Section Heads.
Context (heads : list (chars * Z)) (Hok : heads_ok heads).

Lemma head_name name id : (name, id) ∈ heads -> name <> [] /\ Forall (fun c => ident_part c = true) name.
Proof. intros H. destruct Hok as [_ Hi]. apply ident_chars. by apply (Forall_in _ _ _ Hi H). Qed.

Lemma bind_from_fuel n m prev q s : (length s <= n)%nat -> (length s <= m)%nat -> bind_from heads n prev q s = bind_from heads m prev q s.
Proof.
  revert m prev q s; induction n as [|n IH]; intros m prev q s Hn Hm.
  { destruct s; [by destruct m|cbn in Hn; lia]. }
  destruct s as [|c s]; [by destruct m|]. destruct m as [|m]; [cbn in Hm; lia|]. cbn [bind_from]. cbn [length] in *.
  destruct (if negb (inside q) && head_boundary prev then head_here heads (c :: s) else None) as [[name id]|] eqn:E.
  - assert (name <> []) as N.
    { destruct (negb (inside q) && head_boundary prev); [|done]. apply head_here_some in E as [E _]; [|done]. by eapply head_name. }
    destruct name as [|d name]; [done|]. f_equal. apply IH; cbn [length drop]; rewrite length_drop; lia.
  - f_equal. apply IH; lia.
Qed.

(** Whether the binder rewrites here. *)
Lemma bind_test p0 c s :
  let found := if negb (inside (scan p0)) && head_boundary (list.last p0) then head_here heads (c :: s) else None in
  match found with
  | Some (name, id) => exists r, head_at heads (p0 ++ c :: s) p0 name id r
  | None => forall name id r, ~ head_at heads (p0 ++ c :: s) p0 name id r
  end.
Proof.
  intros found. subst found. destruct (negb _ && _) eqn:E.
  - reflect_bools. destruct (head_here heads (c :: s)) as [[name id]|] eqn:F.
    + apply head_here_some in F as [Hin [r F]]; [|done]. exists r. split; [by rewrite F|]. done.
    + intros name id r (H1 & H2 & _). apply app_inv_head in H1. by apply (proj1 (head_here_none _ _ Hok) F _ _ _ H2) in H1.
  - intros name id r (_ & _ & H1 & H2). by rewrite H1, H2 in E.
Qed.

Lemma bind_from_char n p0 c s :
  (forall name id r, ~ head_at heads (p0 ++ c :: s) p0 name id r) ->
  bind_from heads (S n) (list.last p0) (scan p0) (c :: s)
  = c :: bind_from heads n (list.last (p0 ++ [c])) (scan (p0 ++ [c])) s.
Proof.
  intros H. cbn [bind_from]. pose proof (bind_test p0 c s) as K. cbv zeta in K.
  destruct (if negb (inside (scan p0)) && head_boundary (list.last p0) then head_here heads (c :: s) else None) as [[name id]|].
  - destruct K as [r K]. by apply H in K.
  - by rewrite last_snoc, foldl_snoc.
Qed.

(** Up to the first head the text is copied. *)
Lemma bind_from_copy p0 p s n :
  (forall p' name id r, (length p' < length p)%nat -> ~ head_at heads (p0 ++ p ++ s) (p0 ++ p') name id r) ->
  bind_from heads (length p + n) (list.last p0) (scan p0) (p ++ s)
  = p ++ bind_from heads n (list.last (p0 ++ p)) (scan (p0 ++ p)) s.
Proof.
  revert p0. induction p as [|c p IH]; intros p0 H; [by rewrite app_nil_r|]. cbn [length Nat.add app].
  rewrite bind_from_char.
  - f_equal. rewrite IH; [by rewrite <-app_assoc|]. intros p' name id r L K. rewrite <-!app_assoc in K.
    apply (H (c :: p') name id r); [cbn; lia|exact K].
  - intros name id r K. apply (H [] name id r); [cbn; lia|]. by rewrite app_nil_r.
Qed.

Lemma bind_from_head n p0 name id r :
  head_at heads (p0 ++ name ++ ch "." :: r) p0 name id r -> (length (name ++ ch "." :: r) <= n)%nat ->
  bind_from heads n (list.last p0) (scan p0) (name ++ ch "." :: r) = handle_text id ++ bind_object_heads (ch "." :: r) heads.
Proof.
  intros (_ & Hin & Hi & Hb) Hn. destruct (head_name _ _ Hin) as [Hne Hid].
  destruct n as [|n]; [rewrite length_app in Hn; cbn in Hn; lia|].
  assert (head_here heads (name ++ ch "." :: r) = Some (name, id)) as Hh by (apply head_here_some; [done|by split; [|exists r]]).
  assert (exists c nm, name = c :: nm) as (c & nm & En) by (destruct name as [|c nm]; [done|by exists c, nm]).
  assert (forall q, bind_from heads (S n) (list.last p0) q (name ++ ch "." :: r)
    = match (if negb (inside q) && head_boundary (list.last p0) then head_here heads (name ++ ch "." :: r) else None) with
      | Some (name', id') => handle_text id' ++ bind_from heads n (list.last name') (foldl quoted_step q name') (drop (length name') (name ++ ch "." :: r))
      | None => bind_from heads (S n) (list.last p0) q (name ++ ch "." :: r) end) as Eq.
  { intros q. rewrite En. cbn [app bind_from]. by destruct (if negb (inside q) && _ then _ else None) as [[]|]. }
  rewrite Eq, Hi, Hb, Hh. cbn [negb andb]. rewrite drop_app_length, (scan_outside _ Hi), (scan_ident name) by done. f_equal.
  assert (forall prev m, (length r < m)%nat -> bind_from heads m prev quoted_default (ch "." :: r)
    = ch "." :: bind_from heads (length r) (Some (ch ".")) quoted_default r) as D.
  { intros prev [|m] L; [lia|]. cbn [bind_from]. rewrite (proj2 (head_here_none heads (ch "." :: r) Hok)).
    - destruct (negb _ && _); (f_equal; apply bind_from_fuel; lia).
    - intros hn i t Hx E. destruct (head_name _ _ Hx) as [Hnn Hf]. destruct hn as [|d hn]; [done|]. injection E as <- _.
      by apply Forall_inv, ident_part_plain in Hf as [[] _]. }
  assert (0 < length name)%nat by (rewrite En; cbn; lia).
  unfold bind_object_heads. rewrite length_app in Hn. cbn [length] in Hn. rewrite (D _ n), (D _ (length (ch "." :: r))); [done| |]; cbn [length]; lia.
Qed.
End Heads.

(** Binding the names of a hit. [exception] and [newValue], when they hold an object, are rewritten to
    its handle exactly where they head a chain: whole identifiers, outside literals, after no dot and
    before one. A text with no such place is left alone; otherwise the text before the first place is
    copied, the name becomes the handle, and the binding goes on from the dot. *)
Theorem heads_bound b text :
  let heads := object_heads b in
  ((forall p name id r, ~ head_at heads text p name id r) -> bind_object_heads text heads = text)
  /\ (forall p name id r, head_at heads text p name id r ->
        (forall p' name' id' r', head_at heads text p' name' id' r' -> (length p <= length p')%nat) ->
        bind_object_heads text heads = p ++ handle_text id ++ bind_object_heads (ch "." :: r) heads).
Proof.
  intros heads. pose proof (object_heads_ok b) as Hok. fold heads in Hok. split.
  - intros H. unfold bind_object_heads. pose proof (bind_from_copy heads Hok [] text [] 0) as K.
    rewrite !app_nil_r, Nat.add_0_r in K. cbn [app] in K. apply K. intros p' name id r _. apply H.
  - intros p name id r Hat Hmin. pose proof Hat as (E & _). unfold bind_object_heads at 1. rewrite E, length_app.
    etransitivity; [apply (bind_from_copy heads Hok [] p (name ++ ch "." :: r) (length (name ++ ch "." :: r)))|].
    + intros p' n i t L H. cbn [app] in H. rewrite <-E in H. specialize (Hmin _ _ _ _ H). lia.
    + f_equal. apply (bind_from_head heads Hok _ p name id r); [by rewrite <-E|done].
Qed.

Definition thrown : ConditionBindings := {| cb_exception := Some 255; cb_new_value := None |}.

Lemma heads_bound_witness :
  bind_object_heads (chars_of "exceptionCode") (object_heads thrown) = chars_of "exceptionCode"
  /\ bind_object_heads (chars_of "exception.x") (object_heads thrown) = chars_of "@0xff.x".
Proof.
  split.
  - apply (proj1 (heads_bound thrown _)). intros p name id r (E & [= -> ->]%list_elem_of_singleton & _ & Hb).
    apply (f_equal (elem_of (ch "."))) in E. assert (ch "." ∈ chars_of "exceptionCode") as K.
    + rewrite E. apply elem_of_app. right. apply elem_of_app. right. apply elem_of_cons. by left.
    + revert K. by_compute.
  - apply (proj2 (heads_bound thrown _) [] (chars_of "exception") 255 (chars_of "x")).
    + split_and!; [vm_compute; reflexivity|apply list_elem_of_singleton; reflexivity|reflexivity|reflexivity].
    + intros. cbn. lia.
Defined.
