(* ===== verification/Expr.v ===== *)
(** * The expression parser ([mcp-server/src/handlers.rs])

    Chains such as [svc.getOrders("x", 2L)[0].id]: segments, subscripts, arguments, literals. An
    argument that is no literal is kept as text when it parses as an expression itself; that test recurs
    on a strictly shorter text, so the length of the text is fuel enough ([expr_ok_enough]). Errors carry
    what their messages name. *)

From S2P Require Import Prelude Text Condition.

(** ** Data *)

Inductive ArgLit :=
| ArgInt (n : Z)
| ArgLong (n : Z)
| ArgFloat (bits : Z)
| ArgDouble (bits : Z)
| ArgChar (unit : Z)
| ArgBool (b : bool)
| ArgNull
| ArgStr (s : chars)
| ArgExpr (e : chars).

Inductive Subscript :=
| SubIndex (i : ArgLit)
| SubRange (from to : Z)
| SubFilter (pred : chars).

Record Seg := { seg_name : chars; seg_args : option (list ArgLit); seg_subs : list Subscript }.

Inductive ExprError :=
| Unbalanced
| UnexpectedAfterSubscript (rest : chars)
| UnclosedBracket (raw : chars)
| EmptySubscript
| EmptyFilter
| RangeBound (what bound : chars) (range : chars)
| RangeBackwards (range : chars)
| BadHexEscape (hex : chars)
| NotOneEscape (esc : chars)
| UnknownEscape (c : Z)
| TwoCodeUnits (inner : chars)
| EmptyCharLiteral
| UnsupportedArgument (t : chars)
| BadObjectHandle (head : chars)
| MalformedCall (head : chars)
| BadMethodName (name : chars)
| ComparisonToken (head : chars)
| UnsupportedToken (head : chars)
| EmptyExpression.

#[global] Instance ArgLit_eq : EqDecision ArgLit.
Proof. solve_decision. Defined.
#[global] Instance Subscript_eq : EqDecision Subscript.
Proof. solve_decision. Defined.
#[global] Instance Seg_eq : EqDecision Seg.
Proof. solve_decision. Defined.
#[global] Instance ExprError_eq : EqDecision ExprError.
Proof. solve_decision. Defined.

(** ** Integers, as [str::parse] and [from_str_radix] read them *)

Definition digit_value (radix c : Z) : option Z :=
  let d := if between 48 57 c then c - 48 else if between 97 102 c then c - 87
           else if between 65 70 c then c - 55 else radix in
  if d <? radix then Some d else None.

Fixpoint digits_value (radix acc : Z) (s : chars) : option Z :=
  match s with
  | [] => Some acc
  | c :: s => match digit_value radix c with Some d => digits_value radix (acc * radix + d) s | None => None end
  end.

Definition unsigned_value (radix : Z) (s : chars) : option Z :=
  match s with [] => None | _ => digits_value radix 0 s end.

Definition in_range (lo hi : Z) (v : option Z) : option Z :=
  match v with Some n => if (lo <=? n) && (n <=? hi) then Some n else None | None => None end.

(** [s.parse::<i32>()] and [s.parse::<i64>()]: an optional sign, at least one digit, in range. *)
Definition parse_signed (w : Z) (s : chars) : option Z :=
  let lo := - 2 ^ (w - 1) in
  let hi := 2 ^ (w - 1) - 1 in
  match s with
  | c :: r =>
    if c =? ch "-" then in_range lo hi (Z.opp <$> unsigned_value 10 r)
    else if c =? ch "+" then in_range lo hi (unsigned_value 10 r)
    else in_range lo hi (unsigned_value 10 s)
  | [] => None
  end.

(** [from_str_radix(s, 16)] of an unsigned type of [w] bits. *)
Definition parse_hex (w : Z) (s : chars) : option Z :=
  match s with
  | c :: r => in_range 0 (2 ^ w - 1) (unsigned_value 16 (if c =? ch "+" then r else s))
  | [] => None
  end.

(** ** Floating point

    A decimal is a rational [n / d], rounded to nearest, ties to even, in the format with [m] fraction
    bits, exponents from [emin] and infinity [inf] (all exponent bits set). *)

Definition round_half_even (n d : Z) : Z :=
  let q := n / d in
  let r := n mod d in
  if 2 * r <? d then q else if d <? 2 * r then q + 1 else if Z.even q then q else q + 1.

(** The exponent of the leading bit of [n / d]. *)
Definition floor_log2 (n d : Z) : Z :=
  let e := Z.log2 n - Z.log2 d in
  if (if 0 <=? e then d * 2 ^ e <=? n else d <=? n * 2 ^ (- e)) then e else e - 1.

Definition round_to (m emin inf n d : Z) : Z :=
  if n =? 0 then 0
  else
    let q := Z.max (floor_log2 n d - m) emin in
    let k := if 0 <=? q then round_half_even n (d * 2 ^ q) else round_half_even (n * 2 ^ (- q)) d in
    Z.min inf ((q - emin) * 2 ^ m + k).

Definition F64_INF : Z := 2047 * 2 ^ 52.
Definition F32_INF : Z := 255 * 2 ^ 23.
Definition f64_of (n d : Z) : Z := round_to 52 (-1074) F64_INF n d.
Definition f32_of (n d : Z) : Z := round_to 23 (-149) F32_INF n d.

(** [Number Exp?] of [f64::from_str]: the digits around a dot, and the decimal exponent. *)
Definition span (p : Z -> bool) : chars -> chars * chars :=
  fix go s := match s with
              | c :: r => if p c then let '(a, b) := go r in (c :: a, b) else ([], s)
              | [] => ([], [])
              end.

Definition parse_exponent (s : chars) : option Z :=
  match s with
  | [] => Some 0
  | c :: r =>
    if (c =? ch "e") || (c =? ch "E") then
      match r with
      | d :: r' => if d =? ch "-" then Z.opp <$> unsigned_value 10 r'
                   else unsigned_value 10 (if d =? ch "+" then r' else r)
      | [] => None
      end
    else None
  end.

Definition parse_decimal (s : chars) : option (Z * Z) :=
  let '(whole, r) := span is_ascii_digit s in
  let '(frac, r) := match r with c :: r' => if c =? ch "." then span is_ascii_digit r' else ([], r) | [] => ([], r) end in
  match unsigned_value 10 (whole ++ frac), parse_exponent r with
  | Some n, Some e =>
    let e := e - zlen frac in
    Some (if 0 <=? e then (n * 10 ^ e, 1) else (n, 10 ^ (- e)))
  | _, _ => None
  end.

(** [body.parse::<f64>()], as the sign bit and the magnitude's bits. *)
Definition parse_f64 (s : chars) : option (bool * Z) :=
  let '(neg, r) := match s with
                   | c :: r => if c =? ch "-" then (true, r) else if c =? ch "+" then (false, r) else (false, s)
                   | [] => (false, s)
                   end in
  match parse_decimal r with Some (n, d) => Some (neg, f64_of n d) | None => None end.

Definition with_sign (w : Z) (neg : bool) (magnitude : Z) : Z := if neg then 2 ^ (w - 1) + magnitude else magnitude.

(** [v as f32], on a magnitude that is not a NaN. *)
Definition f64_to_f32 (bits : Z) : Z :=
  if bits =? F64_INF then F32_INF
  else
    let e := bits / 2 ^ 52 in
    let f := bits mod 2 ^ 52 in
    let '(k, q) := if e =? 0 then (f, -1074) else (f + 2 ^ 52, e - 1075) in
    if 0 <=? q then f32_of (k * 2 ^ q) 1 else f32_of k (2 ^ (- q)).

Definition strip_either (a b : Z) (t : chars) : option chars :=
  match strip_suffix [a] t with Some r => Some r | None => strip_suffix [b] t end.

Definition parse_float_lit (t : chars) : option (bool * Z * bool) :=
  let '(body, is_float) :=
    match strip_either (ch "f") (ch "F") t with
    | Some b => (b, true)
    | None => (match strip_either (ch "d") (ch "D") t with Some b => b | None => t end, false)
    end in
  let suffixed := negb (Nat.eqb (length body) (length t)) in
  let exponent := existsb (Z.eqb (ch "e")) body || existsb (Z.eqb (ch "E")) body in
  if negb suffixed && negb (existsb (Z.eqb (ch ".")) body) && negb exponent then None
  else if negb (forallb (fun c => is_ascii_digit c || bool_decide (c ∈ chars_of ".eE+-")) body) then None
  else if negb (existsb is_ascii_digit body) then None
  else match parse_f64 body with Some v => Some (v, is_float) | None => None end.

(** ** Literals *)

Definition CHAR_ESCAPES : list (Z * Z) :=
  [(ch "n", 10); (ch "t", 9); (ch "r", 13); (ch "b", 8); (ch "f", 12); (ch "s", 32); (ch "0", 0);
   (BACKSLASH, 92); (APOS, 39); (QUOTE, 34)].

(** [str::encode_utf16]: a character above the BMP is a surrogate pair. *)
Definition utf16_of (c : Z) : list Z :=
  if c <? 65536 then [c]
  else [55296 + (c - 65536) / 1024; 56320 + (c - 65536) mod 1024].
Definition encode_utf16 (s : chars) : list Z := s ≫= utf16_of.

Definition parse_char_inner (inner : chars) : result ExprError Z :=
  match strip_prefix [BACKSLASH] inner with
  | Some esc =>
    match strip_prefix [ch "u"] esc with
    | Some hex => ok_or (BadHexEscape hex) (parse_hex 16 hex)
    | None =>
      match esc with
      | [c] => ok_or (UnknownEscape c) (snd <$> List.find (fun e => fst e =? c) CHAR_ESCAPES)
      | _ => Err (NotOneEscape esc)
      end
    end
  | None =>
    match encode_utf16 inner with
    | [u] => Ok u
    | _ :: _ :: _ => Err (TwoCodeUnits inner)
    | [] => Err EmptyCharLiteral
    end
  end.

Definition parse_number_lit (t : chars) : option ArgLit :=
  match (match strip_either (ch "L") (ch "l") t with Some num => parse_signed 64 num | None => None end) with
  | Some n => Some (ArgLong n)
  | None =>
    match parse_signed 32 t with
    | Some n => Some (ArgInt n)
    | None =>
      match parse_signed 64 t with
      | Some n => Some (ArgLong n)
      | None =>
        match parse_float_lit t with
        | Some (neg, v, is_float) =>
          Some (if is_float : bool then ArgFloat (with_sign 32 neg (f64_to_f32 v)) else ArgDouble (with_sign 64 neg v))
        | None => None
        end
      end
    end
  end.

(** What stands between the delimiters of a text at least two characters long. *)
Definition delimited (d : Z) (t : chars) : option chars :=
  if (2 <=? length t)%nat && starts_with [d] t && ends_with [d] t then Some (removelast (tail t)) else None.

(** ** The parser

    [expr_ok] stands for the test [parse_expr(t).is_ok()] on an argument. *)

Section Parser.
Context (expr_ok : chars -> bool).

Definition parse_lit (t : chars) : result ExprError ArgLit :=
  let t := trim t in
  if bool_decide (t = chars_of "null") then Ok ArgNull
  else if bool_decide (t = chars_of "true") then Ok (ArgBool true)
  else if bool_decide (t = chars_of "false") then Ok (ArgBool false)
  else
    match delimited QUOTE t with
    | Some s => Ok (ArgStr s)
    | None =>
      match delimited APOS t with
      | Some inner => ArgChar <$> parse_char_inner inner
      | None =>
        match parse_number_lit t with
        | Some n => Ok n
        | None => if expr_ok t then Ok (ArgExpr t) else Err (UnsupportedArgument t)
        end
      end
    end.

(** [depth] moves on a bracket of the given kinds outside literals. *)
Definition count_step (opens closes : list Z) (syntax : bool) (c depth : Z) : Z :=
  if syntax && bool_decide (c ∈ opens) then depth + 1
  else if syntax && bool_decide (c ∈ closes) then depth - 1 else depth.

Definition parens_open := [ch "("].
Definition parens_shut := [ch ")"].
Definition all_open := [ch "("; ch "["].
Definition all_shut := [ch ")"; ch "]"].
Definition square_open := [ch "["].
Definition square_shut := [ch "]"].

(** The text cut at each [sep] outside literals and outside the counted brackets, with the state at its end. *)
Fixpoint cut_from (sep : Z) (opens closes : list Z) (s cur : chars) (q : Quoted) (depth : Z) : list chars * Quoted * Z :=
  match s with
  | [] => ([cur], q, depth)
  | c :: s =>
    let syntax := negb (inside q) in
    let q' := quoted_step q c in
    let depth' := count_step opens closes syntax c depth in
    if syntax && (depth =? 0) && (c =? sep) then
      let '(parts, q', depth') := cut_from sep opens closes s [] q' depth' in (cur :: parts, q', depth')
    else cut_from sep opens closes s (cur ++ [c]) q' depth'
  end.

Definition parse_args (inner : chars) : result ExprError (list ArgLit) :=
  let s := trim inner in
  match s with
  | [] => Ok []
  | _ => mapM parse_lit (cut_from (ch ",") parens_open parens_shut s [] quoted_default 0).1.1
  end.

Definition split_segments (e : chars) : result ExprError (list chars) :=
  let '(parts, q, depth) := cut_from (ch ".") all_open all_shut e [] quoted_default 0 in
  if negb (depth =? 0) || inside q then Err Unbalanced
  else
    let segs := map trim (removelast parts) in
    let cur := trim (List.last parts []) in
    Ok (if bool_decide (cur = []) then segs else segs ++ [cur]).

(** Where the head ends: at the first square bracket outside literals and parentheses. *)
Fixpoint head_end (s : chars) (q : Quoted) (depth : Z) : nat :=
  match s with
  | [] => 0
  | c :: s =>
    let syntax := negb (inside q) in
    if syntax && (depth =? 0) && (c =? ch "[") then 0
    else S (head_end s (quoted_step q c) (count_step parens_open parens_shut syntax c depth))
  end.

(** Where the group that opens here closes. *)
Fixpoint group_close (s : chars) (q : Quoted) (depth : Z) : option nat :=
  match s with
  | [] => None
  | c :: s =>
    let syntax := negb (inside q) in
    let depth' := count_step square_open square_shut syntax c depth in
    if syntax && (c =? ch "]") && (depth' =? 0) then Some 0%nat
    else S <$> group_close s (quoted_step q c) depth'
  end.

Fixpoint groups_of (fuel : nat) (raw rest : chars) : result ExprError (list chars) :=
  match fuel, rest with
  | _, [] => Ok []
  | O, _ => Err Unbalanced
  | S fuel, c :: _ =>
    if negb (c =? ch "[") then Err (UnexpectedAfterSubscript rest)
    else
      match group_close rest quoted_default 0 with
      | None => Err (UnclosedBracket raw)
      | Some close =>
        groups ← groups_of fuel raw (trim (drop (S close) rest));
        Ok (trim (drop 1 (take close rest)) :: groups)
      end
  end.

Definition split_subscripts (raw : chars) : result ExprError (chars * list chars) :=
  let n := head_end raw quoted_default 0 in
  groups ← groups_of (length raw) raw (trim (drop n raw));
  Ok (trim (take n raw), groups).

(** [str::split_once]. *)
Fixpoint split_once (p : chars) (s : chars) : option (chars * chars) :=
  match strip_prefix p s with
  | Some r => Some ([], r)
  | None => match s with
            | c :: s => match split_once p s with Some (a, b) => Some (c :: a, b) | None => None end
            | [] => None
            end
  end.
Lemma split_once_app p s a b : split_once p s = Some (a, b) -> s = a ++ p ++ b.
Proof.
  revert a. induction s as [|c s IH]; intros a; cbn [split_once].
  - destruct (strip_prefix p []) as [r|] eqn:E; [|done]. intros [= <- <-]. by apply strip_prefix_spec in E.
  - destruct (strip_prefix p (c :: s)) as [r|] eqn:E; [intros [= <- <-]; by apply strip_prefix_spec in E|].
    destruct (split_once p s) as [[x y]|]; [|done]. intros [= <- <-]. cbn. f_equal. by apply IH.
Qed.

Definition parse_bound (t x what : chars) : result ExprError Z :=
  ok_or (RangeBound what (trim x) t) (parse_signed 64 (trim x)).

Definition parse_subscript (inner : chars) : result ExprError Subscript :=
  let t := trim inner in
  match t with
  | [] => Err EmptySubscript
  | _ =>
    match strip_prefix [ch "?"] t with
    | Some pred => if bool_decide (trim pred = []) then Err EmptyFilter else Ok (SubFilter (trim pred))
    | None =>
      match split_once (chars_of "..") t with
      | Some (a, b) =>
        from ← parse_bound t a (chars_of "start");
        to ← parse_bound t b (chars_of "end");
        if to <? from then Err (RangeBackwards t) else Ok (SubRange from to)
      | None => SubIndex <$> parse_lit t
      end
    end
  end.

Definition is_hexdigit (c : Z) : bool := is_some (digit_value 16 c).

Definition parse_object_handle (token : chars) : option Z :=
  match (match strip_prefix (chars_of "@0x") token with Some h => Some h | None => strip_prefix (chars_of "@0X") token end) with
  | Some hex => if bool_decide (hex = []) || negb (forallb is_hexdigit hex) then None else parse_hex 64 hex
  | None => None
  end.

(** [str::find] of a character: the text around its first occurrence. *)
Definition find_char (c : Z) (s : chars) : option (chars * chars) := split_once [c] s.

Definition parse_seg (raw : chars) : result ExprError Seg :=
  '(head, sub_groups) ← split_subscripts raw;
  subs ← mapM parse_subscript sub_groups;
  if starts_with [ch "@"] head then
    match parse_object_handle head with
    | None => Err (BadObjectHandle head)
    | Some _ => Ok {| seg_name := head; seg_args := None; seg_subs := subs |}
    end
  else
    match find_char (ch "(") head with
    | Some (before, after) =>
      if negb (ends_with [ch ")"] head) then Err (MalformedCall head)
      else
        let name := trim before in
        if negb (is_ident name) then Err (BadMethodName name)
        else args ← parse_args (removelast after);
             Ok {| seg_name := name; seg_args := Some args; seg_subs := subs |}
    | None =>
      if is_ident head then Ok {| seg_name := head; seg_args := None; seg_subs := subs |}
      else if is_some (split_comparison head) then Err (ComparisonToken head)
      else Err (UnsupportedToken head)
    end.

Definition parse_expr_with (expr : chars) : result ExprError (list Seg) :=
  let e := trim expr in
  match e with
  | [] => Err EmptyExpression
  | _ =>
    raws ← split_segments e;
    match raws with
    | [] => Err EmptyExpression
    | _ => mapM parse_seg raws
    end
  end.
End Parser.

Fixpoint expr_ok (fuel : nat) (t : chars) : bool :=
  match fuel with
  | O => false
  | S fuel => is_ok (parse_expr_with (expr_ok fuel) t)
  end.

Definition parse_expr (expr : chars) : result ExprError (list Seg) := parse_expr_with (expr_ok (length expr)) expr.
