(* ===== verification/Lexing.v ===== *)
(** * Brackets and literals of an expression

    The lexical structure the expression parser's scanners share: [qlex] follows [Quoted] and the open
    brackets over a text; a scanner's depth counter is the number of open brackets of the kinds it counts
    ([count_step_lex]); a text is [quiet] for a separator when the separator stands nowhere at depth 0
    outside literals. The scanners' behaviour on balanced and quiet texts follows. *)

From S2P Require Import Prelude Text Condition Expr.

Abbreviation q_state := (Quoted * list Z)%type.

Definition closer_of (c : Z) : option Z :=
  if c =? ch "(" then Some (ch ")") else if c =? ch "[" then Some (ch "]") else None.
Definition is_closer (c : Z) : bool := (c =? ch ")") || (c =? ch "]").

Definition qlex_step (st : q_state) (c : Z) : option q_state :=
  let '(q, k) := st in
  if inside q then Some (quoted_step q c, k)
  else match closer_of c with
       | Some x => Some (quoted_step q c, x :: k)
       | None =>
         if is_closer c then match k with x :: k => if x =? c then Some (quoted_step q c, k) else None | [] => None end
         else Some (quoted_step q c, k)
       end.

Fixpoint qlex (st : q_state) (s : chars) : option q_state :=
  match s with [] => Some st | c :: s => match qlex_step st c with Some st => qlex st s | None => None end end.

Abbreviation start := ((quoted_default, []) : q_state).

(** Literals closed, brackets matched. *)
Definition balanced (s : chars) : Prop := qlex start s = Some start.

(** The open brackets of the kinds that [closes] closes. *)
Definition cnt (closes : list Z) (k : list Z) : Z := zlen (base.filter (fun c => c ∈ closes) k).

Lemma cnt_cons closes c k : cnt closes (c :: k) = cnt closes k + (if decide (c ∈ closes) then 1 else 0).
Proof. unfold cnt. rewrite list.filter_cons. destruct (decide _); unfold zlen; cbn [length]; lia. Qed.

Lemma cnt_app closes k l : cnt closes (k ++ l) = cnt closes k + cnt closes l.
Proof. unfold cnt. by rewrite list.filter_app, zlen_app. Qed.

Lemma cnt_nonneg closes k : 0 <= cnt closes k.
Proof. unfold cnt, zlen. lia. Qed.

Lemma qlex_app st s t : qlex st (s ++ t) = match qlex st s with Some st => qlex st t | None => None end.
Proof. revert st; induction s as [|c s IH]; intros st; [done|]. cbn [app qlex]. by destruct (qlex_step st c). Qed.

Lemma qlex_step_base q k c q' k' l : qlex_step (q, k) c = Some (q', k') -> qlex_step (q, k ++ l) c = Some (q', k' ++ l).
Proof.
  unfold qlex_step. destruct (inside q); [by intros [= <- <-]|]. destruct (closer_of c); [by intros [= <- <-]|].
  destruct (is_closer c); [|by intros [= <- <-]]. destruct k as [|x k]; [done|]. cbn [app].
  destruct (x =? c); [|done]. by intros [= <- <-].
Qed.

Lemma qlex_base q k s q' k' l : qlex (q, k) s = Some (q', k') -> qlex (q, k ++ l) s = Some (q', k' ++ l).
Proof.
  revert q k; induction s as [|c s IH]; intros q k; cbn [qlex]; [by intros [= <- <-]|].
  destruct (qlex_step (q, k) c) as [[q1 k1]|] eqn:E; [|done]. rewrite (qlex_step_base _ _ _ _ _ _ E). apply IH.
Qed.

(** The kinds of brackets a scanner counts. *)
Definition counts (opens closes : list Z) : Prop :=
  (opens = parens_open /\ closes = parens_shut) \/ (opens = square_open /\ closes = square_shut)
  \/ (opens = all_open /\ closes = all_shut).

Lemma count_step_inside opens closes c d : count_step opens closes false c d = d.
Proof. done. Qed.

(** Evaluate the closed decisions of the goal. *)
#[local] Ltac decide_closed :=
  repeat match goal with
  | |- context [bool_decide ?P] => let b := eval vm_compute in (bool_decide P) in change (bool_decide P) with b
  end;
  repeat match goal with
  | |- context [decide ?P] => destruct (decide P) as [Hd|Hd]; try (exfalso; revert Hd; by_compute)
  end.

(** A scanner's counter follows the open brackets. *)
Lemma count_step_lex opens closes q k c q' k' :
  counts opens closes -> qlex_step (q, k) c = Some (q', k') ->
  q' = quoted_step q c /\ count_step opens closes (negb (inside q)) c (cnt closes k) = cnt closes k'.
Proof.
  intros Hc H. unfold qlex_step in H. destruct (inside q); [by injection H as <- <-|]. unfold count_step. cbn [negb andb].
  unfold closer_of, is_closer in H.
  destruct (Z.eqb_spec c (ch "(")) as [->|N1].
  { injection H as <- <-. split; [done|]. rewrite cnt_cons. destruct Hc as [[-> ->]|[[-> ->]|[-> ->]]]; decide_closed; cbn [negb andb]; lia. }
  destruct (Z.eqb_spec c (ch "[")) as [->|N2].
  { injection H as <- <-. split; [done|]. rewrite cnt_cons. destruct Hc as [[-> ->]|[[-> ->]|[-> ->]]]; decide_closed; cbn [negb andb]; lia. }
  assert (bool_decide (c ∈ opens) = false) as ->.
  { apply bool_decide_eq_false_2. destruct Hc as [[-> _]|[[-> _]|[-> _]]]; unfold parens_open, square_open, all_open;
      rewrite !not_elem_of_cons; repeat split; try done; apply not_elem_of_nil. }
  destruct (Z.eqb_spec c (ch ")")) as [->|N3]; [|destruct (Z.eqb_spec c (ch "]")) as [->|N4]]; cbn [orb] in H.
  1, 2: destruct k as [|x k]; [done|];
    match type of H with context [x =? ?y] => destruct (Z.eqb_spec x y) as [->|]; [|done] end; injection H as <- <-; split; [done|];
    rewrite cnt_cons; destruct Hc as [[-> ->]|[[-> ->]|[-> ->]]]; decide_closed; cbn [negb andb]; lia.
  injection H as <- <-. split; [done|]. rewrite bool_decide_eq_false_2; [done|].
  destruct Hc as [[_ ->]|[[_ ->]|[_ ->]]]; unfold parens_shut, square_shut, all_shut;
    rewrite !not_elem_of_cons; repeat split; try done; apply not_elem_of_nil.
Qed.

(** ** Quiet texts *)

(** [sep] does not stand in [s] outside literals and outside the brackets that [closes] closes. *)
Definition quiet (sep : Z) (closes : list Z) (s : chars) : Prop :=
  forall a b q k, s = a ++ sep :: b -> qlex start a = Some (q, k) -> inside q = true \/ cnt closes k <> 0.

Lemma balanced_app s t : balanced s -> balanced t -> balanced (s ++ t).
Proof. unfold balanced. intros H K. by rewrite qlex_app, H. Qed.

(** A prefix of [s ++ t] is a prefix of [s], or [s] and a prefix of [t]. *)
Lemma app_cons_split {A} (s t a b : list A) (x : A) :
  s ++ t = a ++ x :: b -> (exists b', s = a ++ x :: b') \/ (exists a', a = s ++ a' /\ t = a' ++ x :: b).
Proof.
  revert a; induction s as [|y s IH]; intros a E; [right; by exists a|].
  destruct a as [|z a]; cbn in E; injection E as -> E; [left; by exists s|].
  destruct (IH _ E) as [[b' ->]|(a' & -> & ->)]; [left; by exists b'|right; by exists a'].
Qed.

Lemma quiet_app sep closes s t : balanced s -> quiet sep closes s -> quiet sep closes t -> quiet sep closes (s ++ t).
Proof.
  intros Hb Hs Ht a b q k E Hq. destruct (app_cons_split _ _ _ _ _ E) as [[b' ->]|(a' & -> & ->)]; [by eapply Hs|].
  rewrite qlex_app, Hb in Hq. by eapply Ht.
Qed.

Lemma quiet_absent sep closes s : sep ∉ s -> quiet sep closes s.
Proof. intros H a b q k ->. by destruct H; apply elem_of_app; right; left. Qed.

(** What the texts of the grammar are made of. *)
Definition unlexed (c : Z) : Prop := c ∉ [QUOTE; APOS; BACKSLASH; ch "("; ch ")"; ch "["; ch "]"].

Lemma qlex_unlexed q k c : unlexed c -> escaped q = false -> qlex_step (q, k) c = Some (q, k).
Proof.
  unfold unlexed. rewrite !not_elem_of_cons. intros (? & ? & ? & ? & ? & ? & ? & _) He. unfold qlex_step.
  rewrite quoted_plain by done. destruct (inside q); [done|].
  unfold closer_of, is_closer. by rewrite !(proj2 (Z.eqb_neq c _)) by done.
Qed.

Lemma balanced_unlexed s : Forall unlexed s -> balanced s.
Proof. unfold balanced. induction 1 as [|c s Hc _ IH]; [done|]. cbn [qlex]. by rewrite qlex_unlexed. Qed.

Lemma qlex_open o c : closer_of o = Some c -> qlex_step start o = Some (quoted_default, [c]).
Proof.
  unfold closer_of. destruct (Z.eqb_spec o (ch "(")) as [->|]; [by intros [= <-]|].
  destruct (Z.eqb_spec o (ch "[")) as [->|]; [by intros [= <-]|done].
Qed.

Lemma balanced_wrap o c s : closer_of o = Some c -> balanced s -> balanced (o :: s ++ [c]).
Proof.
  intros Ho Hs. unfold balanced. cbn [qlex]. rewrite (qlex_open _ _ Ho), qlex_app. pose proof (qlex_base _ _ _ _ _ [c] Hs) as H. cbn [app] in H. rewrite H.
  unfold closer_of in Ho. destruct (o =? ch "("); [by injection Ho as <-|]. destruct (o =? ch "["); [by injection Ho as <-|done].
Qed.

(** In a bracketed text a place is quiet when it is quiet within, or when the bracket itself is counted. *)
Lemma quiet_wrap sep closes o c s :
  closer_of o = Some c -> balanced s -> sep <> o -> sep <> c -> c ∈ closes \/ quiet sep closes s ->
  quiet sep closes (o :: s ++ [c]).
Proof.
  intros Ho Hs N1 N2 Hq a b q k E Ha. destruct a as [|x a]; cbn [app] in E; [by injection E as <-|]. injection E as <- E.
  destruct (app_cons_split _ _ _ _ _ E) as [[b' ->]|(a' & -> & E')].
  - cbn [qlex] in Ha. rewrite (qlex_open _ _ Ho) in Ha. pose proof Hs as Hs'. unfold balanced in Hs'. rewrite qlex_app in Hs'.
    destruct (qlex start a) as [[q1 k1]|] eqn:G; [|done]. pose proof (qlex_base _ _ _ _ _ [c] G) as H. cbn [app] in H.
    rewrite H in Ha. injection Ha as <- <-. rewrite cnt_app, cnt_cons. change (cnt closes []) with 0. pose proof (cnt_nonneg closes k1).
    destruct Hq as [Hc|Hq]; [right; rewrite decide_True by done; lia|].
    destruct (Hq a b' q1 k1 eq_refl G) as [|N]; [by left|right]. destruct (decide (c ∈ closes)); lia.
  - destruct a' as [|y [|]]; cbn in E'; [by injection E' as <-|done|done].
Qed.

(** ** Cutting *)

Lemma cut_over sep opens closes s t p0 cur q k q' k' :
  counts opens closes -> qlex start p0 = Some (q, k) -> qlex (q, k) s = Some (q', k') -> quiet sep closes (p0 ++ s) ->
  cut_from sep opens closes (s ++ t) cur q (cnt closes k) = cut_from sep opens closes t (cur ++ s) q' (cnt closes k').
Proof.
  intros Hc. revert p0 cur q k. induction s as [|c s IH]; intros p0 cur q k Hp Hs Hq.
  { injection Hs as <- <-. by rewrite app_nil_r. }
  cbn [qlex] in Hs. destruct (qlex_step (q, k) c) as [[q1 k1]|] eqn:E; [|done].
  destruct (count_step_lex _ _ _ _ _ _ _ Hc E) as [Eq Ek]. cbn [app cut_from]. rewrite Ek, <-Eq.
  destruct (negb (inside q) && (cnt closes k =? 0) && (c =? sep)) eqn:F.
  { reflect_bools. subst c. destruct (Hq p0 s q k eq_refl Hp); congruence. }
  rewrite (IH (p0 ++ [c]) (cur ++ [c]) q1 k1).
  - by rewrite <-app_assoc.
  - rewrite qlex_app, Hp. cbn [qlex]. by rewrite E.
  - done.
  - by rewrite <-app_assoc.
Qed.

Fixpoint join (sep : chars) (ps : list chars) : chars :=
  match ps with [] => [] | [p] => p | p :: ps => p ++ sep ++ join sep ps end.

Lemma join_cons sep p q ps : join sep (p :: q :: ps) = p ++ sep ++ join sep (q :: ps).
Proof. done. Qed.

Lemma cut_over_start sep opens closes s t :
  counts opens closes -> balanced s -> quiet sep closes s ->
  cut_from sep opens closes (s ++ t) [] quoted_default 0 = cut_from sep opens closes t s quoted_default 0.
Proof. intros Hc Hb Hq. exact (cut_over sep opens closes s t [] [] quoted_default [] quoted_default [] Hc eq_refl Hb Hq). Qed.

(** Cutting what was joined gives the pieces back. *)
Lemma cut_join sep opens closes ps :
  counts opens closes -> unlexed sep -> ps <> [] -> Forall (fun p => balanced p /\ quiet sep closes p) ps ->
  cut_from sep opens closes (join [sep] ps) [] quoted_default 0 = (ps, quoted_default, 0).
Proof.
  intros Hc Hsep Hne H. induction H as [|p ps [Hb Hq] H IH]; [done|].
  destruct ps as [|p2 ps].
  - cbn [join]. pose proof (cut_over_start sep opens closes p [] Hc Hb Hq) as E. by rewrite app_nil_r in E.
  - rewrite join_cons, cut_over_start by done. cbn [app cut_from].
    destruct (count_step_lex opens closes quoted_default [] sep quoted_default []) as [E1 E2]; [done|by apply qlex_unlexed|].
    change (negb (inside quoted_default)) with true in E2 |- *. change (cnt closes []) with 0 in E2. cbn [app] in *.
    rewrite E2, <-E1, !Z.eqb_refl. cbn [andb]. by rewrite IH.
Qed.

(** ** Heads and groups *)

Lemma head_end_over h r p0 q k q' k' :
  qlex start p0 = Some (q, k) -> qlex (q, k) h = Some (q', k') -> quiet (ch "[") parens_shut (p0 ++ h) ->
  head_end (h ++ r) q (cnt parens_shut k) = (length h + head_end r q' (cnt parens_shut k'))%nat.
Proof.
  revert p0 q k. induction h as [|c h IH]; intros p0 q k Hp Hs Hq; [by injection Hs as <- <-|].
  cbn [qlex] in Hs. destruct (qlex_step (q, k) c) as [[q1 k1]|] eqn:E; [|done].
  destruct (count_step_lex parens_open parens_shut _ _ _ _ _ ltac:(by left) E) as [Eq Ek]. cbn [app head_end length Nat.add].
  rewrite Ek, <-Eq. destruct (negb (inside q) && (cnt parens_shut k =? 0) && (c =? ch "[")) eqn:F.
  { reflect_bools. subst c. destruct (Hq p0 h q k eq_refl Hp); congruence. }
  f_equal. apply (IH (p0 ++ [c])); [|done|by rewrite <-app_assoc].
  rewrite qlex_app, Hp. cbn [qlex]. by rewrite E.
Qed.

Lemma head_end_start h r :
  balanced h -> quiet (ch "[") parens_shut h -> match r with [] => True | c :: _ => c = ch "[" end ->
  head_end (h ++ r) quoted_default 0 = length h.
Proof.
  intros Hb Hq Hr. transitivity (length h + head_end r quoted_default 0)%nat.
  - exact (head_end_over h r [] quoted_default [] quoted_default [] eq_refl Hb Hq).
  - destruct r as [|c r]; [cbn; lia|]. subst c. change (head_end (ch "[" :: r) quoted_default 0) with 0%nat. lia.
Qed.

(** While the group is open its closing bracket is not found. *)
Lemma group_close_over s r q k q' k' :
  qlex (q, k) s = Some (q', k') ->
  group_close (s ++ r) q (cnt square_shut k + 1) = (fun n => length s + n)%nat <$> group_close r q' (cnt square_shut k' + 1).
Proof.
  revert q k. induction s as [|c s IH]; intros q k Hs.
  { injection Hs as <- <-. cbn. by destruct (group_close r q _). }
  cbn [qlex] in Hs. destruct (qlex_step (q, k) c) as [[q1 k1]|] eqn:E; [|done].
  assert (count_step square_open square_shut (negb (inside q)) c (cnt square_shut k + 1) = cnt square_shut k1 + 1) as Ek.
  { destruct (count_step_lex square_open square_shut _ _ _ _ _ ltac:(by right; left) E) as [_ <-]. unfold count_step.
    destruct (_ && _); [lia|]. destruct (_ && _); lia. }
  destruct (count_step_lex square_open square_shut _ _ _ _ _ ltac:(by right; left) E) as [Eq _].
  cbn [app group_close length]. rewrite Ek, <-Eq.
  assert ((cnt square_shut k1 + 1 =? 0) = false) as -> by (apply Z.eqb_neq; pose proof (cnt_nonneg square_shut k1); lia).
  rewrite andb_false_r, (IH _ _ Hs). by destruct (group_close r q' _).
Qed.

Lemma group_close_wrap s r :
  balanced s -> group_close (ch "[" :: s ++ ch "]" :: r) quoted_default 0 = Some (S (length s)).
Proof.
  intros Hb. transitivity (S <$> group_close (s ++ ch "]" :: r) quoted_default 1); [done|].
  pose proof (group_close_over s (ch "]" :: r) _ _ _ _ Hb) as H. change (cnt square_shut [] + 1) with 1 in H. rewrite H.
  change (Some (S (length s + 0)) = Some (S (length s))). f_equal. lia.
Qed.

Definition group (s : chars) : chars := ch "[" :: s ++ [ch "]"].

Lemma trim_groups bodies : trim (concat (map group bodies)) = concat (map group bodies).
Proof.
  destruct bodies as [|b bs]; [done|]. destruct (exists_last (l := b :: bs)) as (init & b' & E); [done|].
  assert (exists s, concat (map group (b :: bs)) = ch "[" :: s ++ [ch "]"]) as [s ->]; [|by apply trim_tight].
  rewrite E, map_app, concat_app. cbn [map concat]. rewrite app_nil_r. destruct init as [|a init]; [by exists b'|].
  exists ((a ++ [ch "]"]) ++ concat (map group init) ++ ch "[" :: b'). unfold group. cbn [map concat app].
  by rewrite <-!app_assoc.
Qed.

Lemma groups_of_groups fuel raw bodies :
  (length (concat (map group bodies)) <= fuel)%nat -> Forall balanced bodies ->
  groups_of fuel raw (concat (map group bodies)) = Ok (map trim bodies).
Proof.
  revert fuel. induction bodies as [|b bodies IH]; intros fuel Hf Hb; [by destruct fuel|].
  inversion Hb as [|? ? Hb1 Hb2]; subst. cbn [map concat] in *. rewrite length_app in Hf.
  destruct fuel as [|fuel]; [cbn in Hf; lia|]. unfold group at 1. cbn [app groups_of]. rewrite Z.eqb_refl. cbn [negb].
  rewrite <-app_assoc. cbn [app]. rewrite group_close_wrap by done.
  assert (drop (S (S (length b))) (ch "[" :: b ++ ch "]" :: concat (map group bodies)) = concat (map group bodies)) as ->.
  { cbn [drop]. change (ch "]" :: concat (map group bodies)) with ([ch "]"] ++ concat (map group bodies)).
    rewrite app_assoc. apply drop_app_exact. rewrite length_app. cbn. lia. }
  rewrite (trim_groups bodies), (IH fuel) by (done || (cbn in Hf; lia)). cbn. do 2 f_equal.
  change (ch "[" :: b ++ ch "]" :: concat (map group bodies)) with ((ch "[" :: b) ++ ch "]" :: concat (map group bodies)).
  by rewrite take_app_exact.
Qed.
