(* ===== verification/Literals.v ===== *)
(** * Numeric literals

    Decimal and hexadecimal texts and what [parse_number_lit] makes of them: every literal fits its Java
    type, integers are exact and overflow to the wider type, and a [float] literal is rounded twice. *)

From S2P Require Import Prelude Text Condition Expr.

(** Decimal digits, most significant first. *)
Fixpoint digits_of (fuel : nat) (n : Z) : chars :=
  match fuel with
  | O => []
  | S fuel => if n <? 10 then [48 + n] else digits_of fuel (n / 10) ++ [48 + n mod 10]
  end.
Definition unsigned_decimal (n : Z) : chars := digits_of (Z.to_nat (Z.log2 n + 1)) n.
Definition decimal (n : Z) : chars := if n <? 0 then ch "-" :: unsigned_decimal (- n) else unsigned_decimal n.

(** ** Digits *)

Lemma digit_value_digit radix d : 0 <= d < 10 -> 10 <= radix -> digit_value radix (48 + d) = Some d.
Proof.
  intros H Hr. unfold digit_value. assert (between 48 57 (48 + d) = true) as ->.
  { unfold between. apply andb_true_iff. split; apply Z.leb_le; lia. }
  replace (48 + d - 48) with d by lia. by rewrite (proj2 (Z.ltb_lt d radix)) by lia.
Qed.

Lemma digits_value_app radix acc s t :
  digits_value radix acc (s ++ t) = match digits_value radix acc s with Some a => digits_value radix a t | None => None end.
Proof. revert acc; induction s as [|c s IH]; intros acc; [done|]. cbn. by destruct (digit_value radix c). Qed.

Lemma digits_of_digits fuel n : 0 <= n -> Forall (fun c => is_ascii_digit c = true) (digits_of fuel n).
Proof.
  assert (forall d, 0 <= d < 10 -> is_ascii_digit (48 + d) = true) as K.
  { intros d H. unfold is_ascii_digit, between. apply andb_true_iff. split; apply Z.leb_le; lia. }
  revert n; induction fuel as [|fuel IH]; intros n Hn; cbn [digits_of]; [constructor|].
  destruct (Z.ltb_spec n 10); [repeat constructor; apply K; lia|]. apply Forall_app. split; [apply IH; by apply Z.div_pos|].
  repeat constructor. apply K. by apply Z.mod_pos_bound.
Qed.

Lemma digits_of_value fuel n :
  0 <= n < 2 ^ Z.of_nat fuel -> digits_value 10 0 (digits_of fuel n) = Some n.
Proof.
  revert n; induction fuel as [|fuel IH]; intros n Hn; [cbn in Hn; assert (n = 0) as -> by lia; done|]. cbn [digits_of].
  destruct (Z.ltb_spec n 10); [cbn [digits_value]; rewrite digit_value_digit by lia; done|].
  rewrite digits_value_app, IH.
  - cbn [digits_value]. rewrite digit_value_digit; [|by apply Z.mod_pos_bound|lia]. f_equal. pose proof (Z.div_mod n 10). lia.
  - split; [apply Z.div_pos; lia|]. rewrite Nat2Z.inj_succ, Z.pow_succ_r in Hn by lia.
    apply Z.div_lt_upper_bound; lia.
Qed.

Lemma log2_fuel n : 0 <= n -> n < 2 ^ Z.of_nat (Z.to_nat (Z.log2 n + 1)).
Proof.
  intros H. pose proof (Z.log2_nonneg n). rewrite Z2Nat.id by lia. destruct (decide (n = 0)) as [->|]; [done|].
  apply Z.log2_spec. lia.
Qed.

Lemma unsigned_decimal_value n : 0 <= n -> unsigned_value 10 (unsigned_decimal n) = Some n.
Proof.
  intros H. unfold unsigned_value, unsigned_decimal. pose proof (digits_of_value _ n (conj H (log2_fuel n H))) as E.
  destruct (digits_of _ n) as [|c s] eqn:F; [|done]. exfalso. pose proof (Z.log2_nonneg n).
  replace (Z.to_nat (Z.log2 n + 1)) with (S (Z.to_nat (Z.log2 n))) in F by lia. cbn [digits_of] in F.
  destruct (n <? 10); [done|]. by destruct (digits_of _ (n / 10)).
Qed.

Lemma unsigned_decimal_digits n : 0 <= n -> Forall (fun c => is_ascii_digit c = true) (unsigned_decimal n).
Proof. apply digits_of_digits. Qed.

Lemma digit_bounds c : is_ascii_digit c = true -> 48 <= c <= 57.
Proof. unfold is_ascii_digit, between. intros H. reflect_bools. lia. Qed.

Lemma unsigned_decimal_head n : 0 <= n -> exists c s, unsigned_decimal n = c :: s /\ is_ascii_digit c = true.
Proof.
  intros H. pose proof (unsigned_decimal_digits n H) as D. pose proof (unsigned_decimal_value n H) as V.
  destruct (unsigned_decimal n) as [|c s]; [done|]. inversion D; subst. by exists c, s.
Qed.

(** ** Signed decimals *)

Lemma parse_signed_decimal w n :
  0 < w -> parse_signed w (decimal n) = if bool_decide (in_s w n) then Some n else None.
Proof.
  intros Hw. assert (in_range (- 2 ^ (w - 1)) (2 ^ (w - 1) - 1) (Some n) = if bool_decide (in_s w n) then Some n else None) as R.
  { unfold in_range, in_s. case_bool_decide as E.
    - by rewrite (proj2 (Z.leb_le _ _)), (proj2 (Z.leb_le _ _)) by lia.
    - destruct (Z.leb_spec (- 2 ^ (w - 1)) n), (Z.leb_spec n (2 ^ (w - 1) - 1)); try done. lia. }
  unfold decimal, parse_signed. destruct (Z.ltb_spec n 0).
  - rewrite Z.eqb_refl, unsigned_decimal_value by lia. cbn [fmap option_fmap option_map]. by rewrite Z.opp_involutive.
  - destruct (unsigned_decimal_head n) as (c & s & E & Hc); [lia|]. rewrite E. apply digit_bounds in Hc.
    rewrite (proj2 (Z.eqb_neq c (ch "-"))), (proj2 (Z.eqb_neq c (ch "+"))) by (change (ch "-") with 45; change (ch "+") with 43; lia).
    rewrite <-E, unsigned_decimal_value by lia. done.
Qed.

Lemma parse_signed_range w s n : 0 < w -> parse_signed w s = Some n -> in_s w n.
Proof.
  intros Hw H. assert (forall v, in_range (- 2 ^ (w - 1)) (2 ^ (w - 1) - 1) v = Some n -> in_s w n) as K.
  { intros [v|]; [|done]. unfold in_range. destruct (_ && _) eqn:E; [|done]. intros [= ->]. reflect_bools. unfold in_s. lia. }
  unfold parse_signed in H. destruct s as [|c s]; [done|]. destruct (c =? ch "-"); [by eapply K|]. destruct (c =? ch "+"); by eapply K.
Qed.

(** ** Hexadecimals *)

Lemma digit_value_hex u d : 0 <= d < 16 -> digit_value 16 (byte_of_ascii (hex_digit u d)) = Some d.
Proof.
  intros H. assert (Forall (fun x => digit_value 16 (byte_of_ascii (hex_digit u x)) = Some x) (seqZ 0 16)) as K.
  { destruct u; by_compute. }
  apply (Forall_in _ _ _ K), elem_of_seqZ. lia.
Qed.

Lemma hex_digits_value u n x acc :
  digits_value 16 acc (chars_of (hex_digits u n x)) = Some (acc * 16 ^ Z.of_nat n + x mod 16 ^ Z.of_nat n).
Proof.
  revert x acc. induction n as [|n IH]; intros x acc; [cbn; rewrite Z.mod_1_r; f_equal; lia|].
  cbn [hex_digits]. unfold chars_of in *. rewrite bytes_of_string_app, digits_value_app, IH.
  change (bytes_of_string (String (hex_digit u (x mod 16)) "")) with [byte_of_ascii (hex_digit u (x mod 16))].
  cbn [digits_value]. rewrite digit_value_hex by (apply Z.mod_pos_bound; lia). f_equal.
  rewrite Nat2Z.inj_succ, Z.pow_succ_r by lia. rewrite (Z.rem_mul_r x 16) by lia. lia.
Qed.

Lemma hex_digits_chars u n x : Forall (fun c => is_some (digit_value 16 c) = true /\ c <> ch "+") (chars_of (hex_digits u n x)).
Proof.
  revert x. induction n as [|n IH]; intros x; [constructor|]. cbn [hex_digits]. unfold chars_of in *. rewrite bytes_of_string_app.
  apply Forall_app. split; [apply IH|].
  change (bytes_of_string (String (hex_digit u (x mod 16)) "")) with [byte_of_ascii (hex_digit u (x mod 16))].
  repeat constructor; [rewrite digit_value_hex by (apply Z.mod_pos_bound; lia); done|].
  intros E. pose proof (digit_value_hex u (x mod 16)) as D. rewrite E in D.
  assert (None = Some (x mod 16)) by (rewrite <-D by (apply Z.mod_pos_bound; lia); done). done.
Qed.

Lemma parse_hex_digits w u n x :
  n <> 0%nat -> 0 <= x < 16 ^ Z.of_nat n -> x < 2 ^ w -> parse_hex w (chars_of (hex_digits u n x)) = Some x.
Proof.
  intros Hn Hx Hw. pose proof (hex_digits_value u n x 0) as V. rewrite Z.mod_small, Z.mul_0_l, Z.add_0_l in V by lia.
  pose proof (hex_digits_chars u n x) as C. pose proof (hex_digits_length u n x) as L. fold (chars_of (hex_digits u n x)) in L.
  unfold parse_hex. destruct (chars_of (hex_digits u n x)) as [|c s]; [cbn in L; lia|].
  inversion C as [|? ? [_ Hc] _]; subst. rewrite (proj2 (Z.eqb_neq c (ch "+"))) by done. unfold unsigned_value, in_range. rewrite V.
  by rewrite (proj2 (Z.leb_le 0 x)), (proj2 (Z.leb_le x (2 ^ w - 1))) by lia.
Qed.

(** ** Ranges *)

Definition lit_in_range (l : ArgLit) : Prop :=
  match l with
  | ArgInt n => in_s 32 n
  | ArgLong n => in_s 64 n
  | ArgFloat b => in_u 32 b
  | ArgDouble b => in_u 64 b
  | ArgChar u => in_u 16 u
  | _ => True
  end.

Lemma round_half_even_nonneg n d : 0 <= n -> 0 < d -> 0 <= round_half_even n d.
Proof.
  intros Hn Hd. pose proof (Z.div_pos n d Hn Hd). unfold round_half_even.
  destruct (_ <? _); [done|]. destruct (_ <? _); [lia|]. destruct (Z.even _); lia.
Qed.

Lemma round_to_range m emin inf n d : 0 <= m -> 0 <= inf -> 0 <= n -> 0 < d -> 0 <= round_to m emin inf n d <= inf.
Proof.
  intros Hm Hi Hn Hd. unfold round_to. destruct (n =? 0); [lia|]. set (q := Z.max _ emin).
  assert (0 <= (q - emin) * 2 ^ m) by (apply Z.mul_nonneg_nonneg; [lia|by apply Z.pow_nonneg]).
  destruct (0 <=? q) eqn:E; reflect_bools.
  - pose proof (round_half_even_nonneg n (d * 2 ^ q) Hn). assert (0 < 2 ^ q) by (apply Z.pow_pos_nonneg; lia).
    specialize (H0 ltac:(nia)). lia.
  - assert (0 < 2 ^ (- q)) by (apply Z.pow_pos_nonneg; lia).
    pose proof (round_half_even_nonneg (n * 2 ^ (- q)) d ltac:(nia) Hd). lia.
Qed.

Lemma digits_value_nonneg radix acc s v : 0 <= acc -> 0 <= radix -> digits_value radix acc s = Some v -> 0 <= v.
Proof.
  revert acc; induction s as [|c s IH]; intros acc Ha Hr; cbn; [by intros [= <-]|].
  destruct (digit_value radix c) as [d|] eqn:E; [|done]. apply IH; [|done].
  assert (0 <= d); [|nia]. unfold digit_value in E. destruct (_ <? radix); [|done]. injection E as <-.
  unfold between. destruct ((48 <=? c) && _) eqn:E1; [reflect_bools; lia|]. destruct ((97 <=? c) && _) eqn:E2; [reflect_bools; lia|].
  destruct ((65 <=? c) && _) eqn:E3; [reflect_bools; lia|done].
Qed.

Lemma parse_decimal_pos s n d : parse_decimal s = Some (n, d) -> 0 <= n /\ 0 < d.
Proof.
  unfold parse_decimal. destruct (span is_ascii_digit s) as [w r]. destruct (match r with [] => _ | _ => _ end) as [f r'].
  destruct (unsigned_value 10 (w ++ f)) as [v|] eqn:E; [|done]. destruct (parse_exponent r') as [e|]; [|done].
  assert (0 <= v) as Hv.
  { unfold unsigned_value in E. destruct (w ++ f); [done|]. by eapply digits_value_nonneg; [| |exact E]. }
  destruct (Z.leb_spec 0 (e - zlen f)); intros [= <- <-].
  - assert (0 < 10 ^ (e - zlen f)) by (apply Z.pow_pos_nonneg; lia). split; [nia|lia].
  - split; [done|]. apply Z.pow_pos_nonneg; lia.
Qed.

Lemma f64_to_f32_range b : 0 <= b -> 0 <= f64_to_f32 b <= F32_INF.
Proof.
  intros Hb. unfold f64_to_f32. destruct (b =? F64_INF); [by_compute|].
  pose proof (Z.mod_pos_bound b (2 ^ 52) ltac:(lia)). pose proof (Z.div_pos b (2 ^ 52) Hb ltac:(lia)).
  destruct (if _ =? 0 then _ else _) as [k q] eqn:E.
  assert (0 <= k) as Hk by (destruct (_ =? 0); injection E as <- _; lia).
  destruct (Z.leb_spec 0 q); apply round_to_range; try done; try (unfold F32_INF; lia).
Qed.

Lemma parse_f64_range s neg v : parse_f64 s = Some (neg, v) -> 0 <= v <= F64_INF.
Proof.
  unfold parse_f64. destruct (match s with [] => _ | _ => _ end) as [ng r].
  destruct (parse_decimal r) as [[n d]|] eqn:E; [|done]. intros [= _ <-]. apply parse_decimal_pos in E as [Hn Hd].
  apply round_to_range; [done|by unfold F64_INF|done|done].
Qed.

Lemma parse_number_range t l : parse_number_lit t = Some l -> lit_in_range l.
Proof.
  unfold parse_number_lit.
  destruct (match strip_either _ _ t with Some _ => _ | None => _ end) as [n|] eqn:E.
  { intros [= <-]. destruct (strip_either _ _ t); [|done]. by apply parse_signed_range in E. }
  destruct (parse_signed 32 t) as [n|] eqn:E1; [intros [= <-]; by apply parse_signed_range in E1|].
  destruct (parse_signed 64 t) as [n|] eqn:E2; [intros [= <-]; by apply parse_signed_range in E2|].
  destruct (parse_float_lit t) as [[[neg v] fl]|] eqn:E3; [|done].
  assert (0 <= v <= F64_INF) as Hv.
  { unfold parse_float_lit in E3. destruct (match strip_either (ch "f") _ t with Some b => (b, true) | None => _ end) as [body is_float].
    destruct (_ && _); [done|]. destruct (negb _); [done|]. destruct (negb _); [done|].
    destruct (parse_f64 body) as [[ng x]|] eqn:F; [|done]. injection E3 as <- <- <-. by apply parse_f64_range in F. }
  intros [= <-]. pose proof (f64_to_f32_range v ltac:(lia)). unfold F64_INF, F32_INF in *.
  destruct fl; cbn [lit_in_range]; unfold in_u, with_sign; destruct neg; lia.
Qed.

(** ** Integer literals *)

Lemma strip_either_absent a b t : a ∉ t -> b ∉ t -> strip_either a b t = None.
Proof.
  intros Ha Hb. unfold strip_either. assert (forall c, c ∉ t -> strip_suffix [c] t = None) as K.
  { intros c Hc. destruct (strip_suffix [c] t) as [r|] eqn:E; [|done]. apply strip_suffix_spec in E as ->.
    destruct Hc. apply elem_of_app. right. by apply list_elem_of_singleton. }
  by rewrite !K.
Qed.

Lemma strip_either_last a b t : strip_either a b (t ++ [a]) = Some t.
Proof. unfold strip_either. by rewrite (proj2 (strip_suffix_spec [a] (t ++ [a]) t) eq_refl). Qed.

Definition decimal_char (c : Z) : Prop := is_ascii_digit c = true \/ c = ch "-".

Lemma decimal_chars n : Forall decimal_char (decimal n).
Proof.
  assert (forall m, 0 <= m -> Forall decimal_char (unsigned_decimal m)) as K.
  { intros m H. eapply list.Forall_impl; [by apply unsigned_decimal_digits|]. intros; by left. }
  unfold decimal. destruct (Z.ltb_spec n 0); [constructor; [by right|]|]; apply K; lia.
Qed.

Lemma decimal_char_not c s : Forall decimal_char s -> ~ decimal_char c -> c ∉ s.
Proof. intros H N E. by apply N, (Forall_in _ _ _ H). Qed.

Lemma not_decimal_char c : is_ascii_digit c = false -> c <> ch "-" -> ~ decimal_char c.
Proof. intros H N [D|D]; congruence. Qed.

(** A text of digits, signs and at most a trailing [L] is no floating-point literal. *)
Lemma not_float t :
  (forall c, c ∈ chars_of "fFdD.eE" -> c ∉ t) -> parse_float_lit t = None.
Proof.
  intros H. unfold parse_float_lit. rewrite !strip_either_absent by (apply H; by_compute). rewrite Nat.eqb_refl. cbn [negb andb].
  assert (forall c, c ∈ chars_of "fFdD.eE" -> existsb (Z.eqb c) t = false) as K.
  { intros c Hc. destruct (existsb (Z.eqb c) t) eqn:E; [|done]. apply existsb_exists in E as (x & Hx & E). exfalso. apply Z.eqb_eq in E as ->.
    by apply (H _ Hc), list_elem_of_In. }
  rewrite !K by by_compute. done.
Qed.

Lemma decimal_not_float n s : s ∈ [[]; [ch "L"]] -> parse_float_lit (decimal n ++ s) = None.
Proof.
  intros Hs. apply not_float. intros c Hc E. apply elem_of_app in E as [E|E].
  - revert E. assert (Forall (fun c => is_ascii_digit c = false /\ c <> ch "-") (chars_of "fFdD.eE")) as K by by_compute.
    destruct (Forall_in _ _ _ K Hc) as [K1 K2]. exact (decimal_char_not c _ (decimal_chars n) (not_decimal_char c K1 K2)).
  - assert (Forall (fun s => Forall (fun c => c ∉ s) (chars_of "fFdD.eE")) [[]; [ch "L"]]) as K by by_compute.
    exact (Forall_in _ _ _ (Forall_in _ _ _ K Hs) Hc E).
Qed.

Lemma digits_value_bad radix acc s c : digit_value radix c = None -> digits_value radix acc (s ++ [c]) = None.
Proof. intros H. rewrite digits_value_app. destruct (digits_value radix acc s); [|done]. cbn. by rewrite H. Qed.

Lemma parse_signed_bad w s c : digit_value 10 c = None -> c <> ch "-" -> c <> ch "+" -> parse_signed w (s ++ [c]) = None.
Proof.
  intros H N1 N2. assert (forall s, unsigned_value 10 (s ++ [c]) = None) as K.
  { intros s'. unfold unsigned_value. rewrite digits_value_bad by done. by destruct (s' ++ [c]). }
  unfold parse_signed. destruct s as [|a s]; cbn [app].
  - rewrite (proj2 (Z.eqb_neq c (ch "-"))), (proj2 (Z.eqb_neq c (ch "+"))) by done. pose proof (K []) as K0. cbn [app] in K0. by rewrite K0.
  - pose proof (K (a :: s)) as K1. cbn [app] in K1. rewrite K1, (K s). by destruct (a =? ch "-"), (a =? ch "+").
Qed.

Lemma parse_decimal_int n :
  parse_number_lit (decimal n) =
  if bool_decide (in_s 32 n) then Some (ArgInt n) else if bool_decide (in_s 64 n) then Some (ArgLong n) else None.
Proof.
  unfold parse_number_lit. rewrite strip_either_absent.
  - rewrite !parse_signed_decimal by done. destruct (bool_decide (in_s 32 n)); [done|]. destruct (bool_decide (in_s 64 n)); [done|].
    rewrite <-(app_nil_r (decimal n)), decimal_not_float; [done|by_compute].
  - apply decimal_char_not; [apply decimal_chars|]. by apply not_decimal_char.
  - apply decimal_char_not; [apply decimal_chars|]. by apply not_decimal_char.
Qed.

Lemma parse_decimal_long n :
  parse_number_lit (decimal n ++ [ch "L"]) = if bool_decide (in_s 64 n) then Some (ArgLong n) else None.
Proof.
  unfold parse_number_lit. rewrite strip_either_last, parse_signed_decimal by done. destruct (bool_decide (in_s 64 n)); [done|].
  rewrite !parse_signed_bad by done. rewrite decimal_not_float; [done|by_compute].
Qed.

(** ** Character literals *)

Lemma utf16_range c u : 0 <= c < 1114112 -> u ∈ utf16_of c -> in_u 16 u.
Proof.
  intros Hc Hu. unfold utf16_of in Hu. unfold in_u. destruct (Z.ltb_spec c 65536).
  - apply list_elem_of_singleton in Hu as ->. lia.
  - pose proof (Z.div_pos (c - 65536) 1024). pose proof (Z.div_lt_upper_bound (c - 65536) 1024 1024).
    pose proof (Z.mod_pos_bound (c - 65536) 1024). repeat (apply elem_of_cons in Hu as [->|Hu]; [lia|]). by apply elem_of_nil in Hu.
Qed.

Lemma parse_char_range inner u :
  Forall (fun c => 0 <= c < 1114112) inner -> parse_char_inner inner = Ok u -> in_u 16 u.
Proof.
  intros Hi. unfold parse_char_inner. destruct (strip_prefix [BACKSLASH] inner) as [esc|].
  - destruct (strip_prefix _ esc) as [hex|].
    + unfold parse_hex. destruct hex as [|c r]; [done|]. destruct (unsigned_value 16 _) as [v|]; [|done]. cbn [in_range].
      destruct (_ && _) eqn:E; [|done]. intros [= <-]. reflect_bools. unfold in_u. lia.
    + destruct esc as [|c [|]]; try done. destruct (List.find _ CHAR_ESCAPES) as [[a v]|] eqn:E; [|done]. intros [= <-].
      apply find_some in E as [E _]. apply list_elem_of_In in E. cbn [snd].
      assert (Forall (fun e => in_u 16 (snd e)) CHAR_ESCAPES) as K by by_compute. apply (Forall_in _ _ _ K E).
  - destruct (encode_utf16 inner) as [|v [|]] eqn:E; try done. intros [= <-].
    assert (v ∈ encode_utf16 inner) as Hv by (rewrite E; by apply list_elem_of_singleton).
    unfold encode_utf16 in Hv. apply list_elem_of_bind in Hv as (c & Hv & Hc). eapply utf16_range; [|exact Hv]. by eapply Forall_in in Hi.
Qed.

(** ** The value of a [float], in units of 2^-149 *)

Definition f32_units (bits : Z) : Z :=
  let e := bits / 2 ^ 23 in
  let f := bits mod 2 ^ 23 in
  if e =? 0 then f else (f + 2 ^ 23) * 2 ^ (e - 1).

(** How far [bits] lies from [n / d], in units of 2^-149 / d. *)
Definition f32_error (n d bits : Z) : Z := Z.abs (n * 2 ^ 149 - f32_units bits * d).

(** C28. Numeric literals. Every literal fits its Java type. An integer is read exactly, as an [int] where
    one holds it, else as a [long] where one holds it, else not as a number; with the [L] suffix, as a
    [long] or not at all; a character literal is one UTF-16 unit. A [float] literal is rounded to a double
    first and to a float then: the decimal below, just above the midpoint of two floats, is read as the
    lower one, though the upper one is nearer. *)
Theorem literals_exact :
  (forall t l, parse_number_lit t = Some l -> lit_in_range l)
  /\ (forall inner u, Forall (fun c => 0 <= c < 1114112) inner -> parse_char_inner inner = Ok u -> in_u 16 u)
  /\ (forall n, parse_number_lit (decimal n) =
        if bool_decide (in_s 32 n) then Some (ArgInt n) else if bool_decide (in_s 64 n) then Some (ArgLong n) else None)
  /\ (forall n, parse_number_lit (decimal n ++ [ch "L"]) = if bool_decide (in_s 64 n) then Some (ArgLong n) else None)
  /\ (exists lower upper, parse_number_lit (chars_of "1.000000059604644775390625001f") = Some (ArgFloat lower)
        /\ f32_error 1000000059604644775390625001 (10 ^ 27) upper < f32_error 1000000059604644775390625001 (10 ^ 27) lower).
Proof.
  split; [apply parse_number_range|]. split; [apply parse_char_range|]. split; [apply parse_decimal_int|].
  split; [apply parse_decimal_long|]. exists 1065353216, 1065353217. split; vm_compute; reflexivity.
Qed.

Lemma literals_exact_witness :
  lit_in_range (ArgDouble 4609434218613702656) /\ in_u 16 231
  /\ parse_number_lit (chars_of "-2147483648") = Some (ArgInt (-2147483648))
  /\ parse_number_lit (chars_of "9223372036854775808L") = None.
Proof.
  destruct literals_exact as (H1 & H2 & H3 & H4 & _). split_and!.
  - apply (H1 (chars_of "1.5")). vm_compute. reflexivity.
  - apply (H2 (chars_of "\u00e7")); [by_compute|vm_compute; reflexivity].
  - exact (H3 (-2147483648)).
  - exact (H4 9223372036854775808).
Defined.
