(* ===== verification/ExprGrammar.v ===== *)
(** * Expressions, printed and read back

    The abstract syntax of the expression language, its text, and the theorem that the parser reads the
    text back: strings, nested calls and subscripts opaque to the scanners around them. *)

From S2P Require Import Prelude Text Condition ConditionScan Expr Lexing Literals.

(** ** Abstract syntax and its text *)

Inductive XArg :=
| XInt (n : Z)
| XLong (n : Z)
| XDouble (whole frac : chars)
| XBool (b : bool)
| XNull
| XStr (s : chars)
| XChar (u : Z)
| XExpr (e : list XSeg)
with XSeg :=
| XS (name : chars) (args : option (list XArg)) (subs : list XSub)
with XSub :=
| XIndex (a : XArg)
| XRange (from to : Z)
| XFilter (p : chars).

Definition hex4 (u : Z) : chars := chars_of (hex_digits false 4 u).

Fixpoint print_arg (a : XArg) : chars :=
  match a with
  | XInt n => decimal n
  | XLong n => decimal n ++ [ch "L"]
  | XDouble w f => w ++ [ch "."] ++ f
  | XBool b => chars_of (if b then "true" else "false")
  | XNull => chars_of "null"
  | XStr s => QUOTE :: s ++ [QUOTE]
  | XChar u => chars_of "'\u" ++ hex4 u ++ [APOS]
  | XExpr e => join [ch "."] (map print_seg e)
  end
with print_seg (s : XSeg) : chars :=
  match s with
  | XS name args subs =>
    (name ++ match args with
             | Some args => ch "(" :: join [ch ","] (map print_arg args) ++ [ch ")"]
             | None => []
             end)
    ++ concat (map (fun b => group (print_sub b)) subs)
  end
with print_sub (b : XSub) : chars :=
  match b with
  | XIndex a => print_arg a
  | XRange x y => decimal x ++ chars_of ".." ++ decimal y
  | XFilter p => ch "?" :: p
  end.

Definition print_expr (e : list XSeg) : chars := join [ch "."] (map print_seg e).

(** What the parser answers for it. *)
Definition lit_of (a : XArg) : ArgLit :=
  match a with
  | XInt n => ArgInt n
  | XLong n => ArgLong n
  | XDouble w f => ArgDouble (f64_of (default 0 (digits_value 10 0 (w ++ f))) (10 ^ zlen f))
  | XBool b => ArgBool b
  | XNull => ArgNull
  | XStr s => ArgStr s
  | XChar u => ArgChar u
  | XExpr e => ArgExpr (print_expr e)
  end.
Definition sub_of (b : XSub) : Subscript :=
  match b with XIndex a => SubIndex (lit_of a) | XRange x y => SubRange x y | XFilter p => SubFilter p end.
Definition seg_of (s : XSeg) : Seg :=
  match s with
  | XS name args subs => {| seg_name := name; seg_args := map lit_of <$> args; seg_subs := map sub_of subs |}
  end.

(** A filter's text closes its literals and brackets, is not blank at either end, and hides its commas
    and dots from the texts around it. *)
Definition filter_ok (p : chars) : Prop :=
  balanced p /\ p <> [] /\ trim p = p /\ quiet (ch ",") parens_shut p.

Definition handle_name (name : chars) : Prop := exists id, in_u 64 id /\ name = handle_text id.

(** No two dots in a row: the parser takes [..] anywhere in a subscript for a range. *)
Definition no_range (s : chars) : Prop := split_once (chars_of "..") s = None.

Definition keywords : list chars := map chars_of ["null"; "true"; "false"].

Inductive arg_ok : XArg -> Prop :=
| int_ok n : in_s 32 n -> arg_ok (XInt n)
| long_ok n : in_s 64 n -> arg_ok (XLong n)
| double_ok w f : w <> [] -> f <> [] -> Forall (fun c => is_ascii_digit c = true) (w ++ f) -> arg_ok (XDouble w f)
| bool_ok b : arg_ok (XBool b)
| null_ok : arg_ok XNull
| str_ok s : QUOTE ∉ s -> BACKSLASH ∉ s -> arg_ok (XStr s)
| char_ok u : in_u 16 u -> arg_ok (XChar u)
| expr_ok_arg e : e <> [] -> Forall seg_ok e -> print_expr e ∉ keywords -> arg_ok (XExpr e)
with seg_ok : XSeg -> Prop :=
| field_ok name subs : is_ident name = true \/ handle_name name -> Forall sub_ok subs -> seg_ok (XS name None subs)
| call_ok name args subs : is_ident name = true -> Forall arg_ok args -> Forall sub_ok subs -> seg_ok (XS name (Some args) subs)
with sub_ok : XSub -> Prop :=
| index_ok a : arg_ok a -> no_range (print_arg a) -> sub_ok (XIndex a)
| range_ok x y : in_s 64 x -> in_s 64 y -> x <= y -> sub_ok (XRange x y)
| filter_sub_ok p : filter_ok p -> sub_ok (XFilter p).

(** ** Shapes of printed texts *)

(** A text that starts and ends outside blanks. *)
Definition solid (s : chars) : Prop :=
  (exists c r, s = c :: r /\ is_whitespace c = false) /\ (exists r d, s = r ++ [d] /\ is_whitespace d = false).

Lemma solid_trim s : solid s -> trim s = s.
Proof.
  intros [(c & r & -> & Hc) (r' & d & E & Hd)]. destruct r' as [|x r'].
  - injection E as -> ->. unfold trim. rewrite trim_start_cons by done. by apply (trim_end_snoc []).
  - injection E as <- ->. by apply trim_tight.
Qed.

Lemma solid_app s t : solid s -> solid t -> solid (s ++ t).
Proof.
  intros [(c & r & -> & Hc) _] [_ (r' & d & -> & Hd)]. split; [by exists c, (r ++ r' ++ [d])|].
  exists ((c :: r) ++ r'), d. by rewrite app_assoc.
Qed.

Lemma solid_wrap c s d : is_whitespace c = false -> is_whitespace d = false -> solid (c :: s ++ [d]).
Proof. intros Hc Hd. split; [by exists c, (s ++ [d])|]. by exists (c :: s), d. Qed.

Lemma solid_forall s : s <> [] -> Forall (fun c => is_whitespace c = false) s -> solid s.
Proof.
  intros Hne H. split.
  - destruct H as [|c r Hc _]; [done|by exists c, r].
  - destruct (exists_last Hne) as (r & d & ->). exists r, d. split; [done|]. apply Forall_app in H as [_ H]. by apply Forall_inv in H.
Qed.

Lemma solid_join sep ps : is_whitespace sep = false -> ps <> [] -> Forall solid ps -> solid (join [sep] ps).
Proof.
  intros Hs Hne H. induction H as [|p ps Hp H IH]; [done|]. destruct ps as [|q ps]; [done|]. rewrite join_cons.
  apply solid_app; [done|]. apply solid_app; [|by apply IH]. split; [by exists sep, []|by exists [], sep].
Qed.

Lemma join_length sep ps p : p ∈ ps -> (length p <= length (join sep ps))%nat.
Proof.
  induction ps as [|q ps IH]; [by intros H%elem_of_nil|]. intros [->|H]%elem_of_cons.
  - destruct ps; [done|]. rewrite join_cons, length_app. lia.
  - specialize (IH H). destruct ps; [by apply elem_of_nil in H|]. rewrite join_cons, !length_app. lia.
Qed.

Lemma concat_length (ps : list chars) p : p ∈ ps -> (length p <= length (concat ps))%nat.
Proof.
  induction ps as [|q ps IH]; [by intros H%elem_of_nil|]. cbn [concat]. rewrite length_app.
  intros [->|H]%elem_of_cons; [lia|]. specialize (IH H). lia.
Qed.

Lemma join_balanced sep closes ps :
  unlexed sep -> Forall (fun p => balanced p /\ quiet sep closes p) ps -> balanced (join [sep] ps).
Proof.
  intros Hs H. induction H as [|p ps [Hp _] H IH]; [done|]. destruct ps as [|q ps]; [done|]. rewrite join_cons.
  apply balanced_app; [done|]. apply balanced_app; [|done]. by apply balanced_unlexed; constructor.
Qed.

(** Identifier and decimal characters are neither blank nor lexical. *)
Definition inert (c : Z) : Prop := is_whitespace c = false /\ unlexed c /\ c <> ch ",".

Lemma inert_small c : 36 <= c < 128 -> c ∉ [APOS; ch "("; ch ")"; ch "["; ch "]"; BACKSLASH; ch ","] -> inert c.
Proof.
  intros H. rewrite !not_elem_of_cons. intros (? & ? & ? & ? & ? & ? & ? & _). split; [|split; [|done]].
  - unfold is_whitespace, between. rewrite !(proj2 (Z.eqb_neq c _)) by lia.
    repeat (rewrite (proj2 (Z.leb_gt _ _)) by lia). rewrite ?andb_false_r. destruct (_ <=? c); cbn [andb orb]; done || lia.
  - unfold unlexed. rewrite !not_elem_of_cons. repeat split; try done; [lia|apply not_elem_of_nil].
Qed.

Definition shaped (s : chars) : Prop := balanced s /\ quiet (ch ",") parens_shut s /\ solid s.

Lemma inert_shaped s : s <> [] -> Forall inert s -> shaped s.
Proof.
  intros Hne H. split; [|split].
  - apply balanced_unlexed. eapply list.Forall_impl; [exact H|]. by intros c (_ & ? & _).
  - apply quiet_absent. intros E. by destruct (Forall_in _ _ _ H E) as (_ & _ & []).
  - apply solid_forall; [done|]. eapply list.Forall_impl; [exact H|]. by intros c (? & _).
Qed.

Lemma shaped_app s t : shaped s -> shaped t -> shaped (s ++ t).
Proof.
  intros (H1 & H2 & H3) (K1 & K2 & K3). split; [by apply balanced_app|]. split; [by apply quiet_app|by apply solid_app].
Qed.

Lemma shaped_join ps : ps <> [] -> Forall shaped ps -> shaped (join [ch "."] ps).
Proof.
  intros Hne H. induction H as [|p ps Hp H IH]; [done|]. destruct ps as [|q ps]; [done|]. rewrite join_cons.
  apply shaped_app; [done|]. apply shaped_app; [|by apply IH]. by apply inert_shaped; [|repeat constructor; by apply inert_small; [|by_compute]].
Qed.

Lemma shaped_group s : balanced s -> quiet (ch ",") parens_shut s -> shaped (group s).
Proof.
  intros Hb Hq. split; [by apply balanced_wrap|]. split; [|by apply solid_wrap]. by apply quiet_wrap; [| | | |right].
Qed.

Lemma shaped_call s : balanced s -> shaped (ch "(" :: s ++ [ch ")"]).
Proof.
  intros Hb. split; [by apply balanced_wrap|]. split; [|by apply solid_wrap].
  apply quiet_wrap; [done|done|done|done|left]. by apply list_elem_of_singleton.
Qed.

Lemma shaped_groups ps : Forall shaped ps -> ps <> [] -> shaped (concat ps).
Proof.
  intros H Hne. induction H as [|p ps Hp H IH]; [done|]. cbn [concat]. destruct ps as [|q ps]; [by rewrite app_nil_r|].
  apply shaped_app; [done|by apply IH].
Qed.

(** ** Characters of the printed pieces *)

Lemma ident_part_inert c : ident_part c = true -> inert c /\ c <> ch "." /\ c <> ch "[".
Proof.
  intros H. assert (36 <= c < 128) as R.
  { unfold ident_part, is_ascii_alphanumeric, is_ascii_alphabetic, is_ascii_digit, between in H.
    change (ch "_") with 95 in H. change (ch "$") with 36 in H. lia. }
  split; [apply inert_small; [done|]|]; rewrite ?not_elem_of_cons; repeat split; try apply not_elem_of_nil; intros ->; by vm_compute in H.
Qed.

Lemma digit_ident c : is_ascii_digit c = true -> ident_part c = true.
Proof. intros H. unfold ident_part, is_ascii_alphanumeric. rewrite H. by rewrite orb_true_r. Qed.

Lemma hex_ident n x : Forall (fun c => ident_part c = true) (chars_of (hex_digits false n x)).
Proof.
  revert x. induction n as [|n IH]; intros x; [constructor|]. cbn [hex_digits]. unfold chars_of in *. rewrite bytes_of_string_app.
  apply Forall_app. split; [apply IH|].
  change (bytes_of_string (String (hex_digit false (x mod 16)) "")) with [byte_of_ascii (hex_digit false (x mod 16))].
  repeat constructor. assert (Forall (fun x => ident_part (byte_of_ascii (hex_digit false x)) = true) (seqZ 0 16)) as K by by_compute.
  apply (Forall_in _ _ _ K), elem_of_seqZ. pose proof (Z.mod_pos_bound x 16). lia.
Qed.

Lemma decimal_inert n : Forall inert (decimal n).
Proof.
  eapply list.Forall_impl; [apply decimal_chars|]. intros c [H| ->]; [by apply ident_part_inert, digit_ident|].
  by apply inert_small; [|by_compute].
Qed.

Lemma decimal_nonempty n : decimal n <> [].
Proof.
  unfold decimal. destruct (Z.ltb_spec n 0); [done|]. destruct (unsigned_decimal_head n) as (c & s & -> & _); [lia|done].
Qed.

(** The characters a name may hold. *)
Definition name_char (c : Z) : Prop := inert c /\ c <> ch "." /\ c <> ch "[".

Lemma ident_name name : is_ident name = true -> name <> [] /\ Forall name_char name.
Proof. intros H. apply ident_chars in H as [Hne H]. split; [done|]. eapply list.Forall_impl; [exact H|]. apply ident_part_inert. Qed.

Lemma handle_chars id : handle_text id = ch "@" :: ch "0" :: ch "x" :: chars_of (show_hex id).
Proof. unfold handle_text, chars_of. by rewrite bytes_of_string_app. Qed.

Lemma handle_name_chars id : Forall name_char (handle_text id).
Proof.
  rewrite handle_chars. repeat (constructor; [split; [by apply inert_small; [|by_compute]|done]|]).
  eapply list.Forall_impl; [apply hex_ident|]. apply ident_part_inert.
Qed.

(** ** Shapes of printed syntax *)

Lemma str_shaped s : QUOTE ∉ s -> BACKSLASH ∉ s -> shaped (QUOTE :: s ++ [QUOTE]).
Proof.
  intros H1 H2. set (q := {| in_str := true; in_char := false; escaped := false |}).
  assert (forall t k, QUOTE ∉ t -> BACKSLASH ∉ t -> qlex (q, k) t = Some (q, k)) as K.
  { intros t k. induction t as [|c t IH]; [done|]. intros [N1 T1]%not_elem_of_cons [N2 T2]%not_elem_of_cons. cbn [qlex].
    assert (qlex_step (q, k) c = Some (q, k)) as ->; [|by apply IH].
    unfold qlex_step. cbn. unfold quoted_step. cbn. rewrite !(proj2 (Z.eqb_neq c _)) by done. cbn. by rewrite andb_false_r. }
  split; [|split; [|by apply solid_wrap]].
  - unfold balanced. cbn [qlex]. change (qlex_step start QUOTE) with (Some (q, @nil Z)). cbv iota beta.
    by rewrite qlex_app, K.
  - intros a b q1 k1 E Hq. destruct a as [|x a]; [by injection E|]. injection E as <- E.
    cbn [qlex] in Hq. change (qlex_step start QUOTE) with (Some (q, @nil Z)) in Hq. cbv iota beta in Hq.
    destruct (app_cons_split _ _ _ _ _ E) as [[b' ->]|(a' & -> & E')].
    + rewrite K in Hq; [injection Hq as <- <-; by left| |].
      * intros Hx. apply H1, elem_of_app. by left.
      * intros Hx. apply H2, elem_of_app. by left.
    + destruct a' as [|y [|]]; by injection E'.
Qed.

Lemma char_shaped u : shaped (chars_of "'\u" ++ hex4 u ++ [APOS]).
Proof.
  set (q := {| in_str := false; in_char := true; escaped := false |}).
  assert (forall t, Forall (fun c => ident_part c = true) t -> qlex (q, []) t = Some (q, [])) as K.
  { induction 1 as [|c t Hc _ IH]; [done|]. cbn [qlex]. assert (qlex_step (q, []) c = Some (q, [])) as ->; [|done].
    destruct (ident_part_plain _ Hc) as (_ & ? & ? & ?). unfold qlex_step. change (inside q) with true. cbv iota. by rewrite quoted_plain. }
  pose proof (hex_ident 4 u) as Hi. fold (hex4 u) in Hi.
  split; [|split].
  - unfold balanced. rewrite qlex_app. change (qlex start (chars_of "'\u")) with (Some (q, @nil Z)). cbv iota beta.
    by rewrite qlex_app, K.
  - apply quiet_absent. intros E. apply elem_of_app in E as [E|E]; [revert E; by_compute|].
    apply elem_of_app in E as [E|E]; [by apply (Forall_in _ _ _ Hi) in E|revert E; by_compute].
  - split; [by eexists _, _|]. exists (chars_of "'\u" ++ hex4 u), APOS. by rewrite <-app_assoc.
Qed.

Lemma sub_solid p : filter_ok p -> solid p.
Proof.
  intros (_ & Hne & Ht & _). rewrite <-Ht. unfold trim in *. destruct (trim_start p) as [|c r] eqn:E; [by rewrite <-Ht in Hne|].
  pose proof (trim_start_head _ _ _ E) as Hc. destruct (trim_end_cons c r Hc) as [k Hk]. split; [by exists c, k|].
  unfold trim_end. destruct (trim_start (rev (c :: r))) as [|d v] eqn:F; [by unfold trim_end in Hk; rewrite F in Hk|].
  exists (rev v), d. split; [done|]. by eapply trim_start_head.
Qed.

Lemma name_solid name : name <> [] -> Forall name_char name -> shaped name.
Proof. intros Hne H. apply inert_shaped; [done|]. eapply list.Forall_impl; [exact H|]. by intros c (? & _). Qed.

Lemma seg_parts_shaped name args subs :
  name <> [] -> Forall name_char name ->
  (forall l, args = Some l -> Forall (fun a => balanced (print_arg a) /\ quiet (ch ",") parens_shut (print_arg a)) l) ->
  Forall (fun b => balanced (print_sub b) /\ quiet (ch ",") parens_shut (print_sub b)) subs ->
  shaped (print_seg (XS name args subs)).
Proof.
  intros Hne Hn Ha Hs. cbn [print_seg]. assert (shaped (name ++ match args with
    | Some args => ch "(" :: join [ch ","] (map print_arg args) ++ [ch ")"] | None => [] end)) as H1.
  { destruct args as [l|]; [|rewrite app_nil_r; by apply name_solid]. apply shaped_app; [by apply name_solid|].
    apply shaped_call, (join_balanced _ parens_shut); [by_compute|]. apply Forall_map. by apply Ha. }
  destruct subs as [|b subs]; [cbn; by rewrite app_nil_r|]. apply shaped_app; [done|]. apply shaped_groups; [|done].
  apply Forall_map. eapply list.Forall_impl; [exact Hs|]. intros x [? ?]. by apply shaped_group.
Qed.

Lemma args_length name args subs a : a ∈ args -> (length (print_arg a) < length (print_seg (XS name (Some args) subs)))%nat.
Proof.
  intros H. cbn [print_seg]. rewrite !length_app. cbn [length]. rewrite length_app.
  pose proof (join_length [ch ","] (map print_arg args) (print_arg a)). rewrite list_elem_of_fmap in H0.
  specialize (H0 ltac:(by exists a)). lia.
Qed.

Lemma subs_length name args subs b : b ∈ subs -> (length (print_sub b) < length (print_seg (XS name args subs)))%nat.
Proof.
  intros H. cbn [print_seg]. rewrite length_app.
  pose proof (concat_length (map (fun b => group (print_sub b)) subs) (group (print_sub b))). rewrite list_elem_of_fmap in H0.
  specialize (H0 ltac:(by exists b)). unfold group in H0 at 1. cbn [length] in H0. rewrite length_app in H0. lia.
Qed.

Lemma segs_length e s : s ∈ e -> (length (print_seg s) <= length (print_expr e))%nat.
Proof. intros H. apply join_length, list_elem_of_fmap. by exists s. Qed.

(** One level of the syntax, from the shorter texts inside it. *)
Section Level.
Context (n : nat) (IHa : forall a, (length (print_arg a) < n)%nat -> arg_ok a -> shaped (print_arg a)).

Lemma sub_shaped_level b :
  (length (print_sub b) < n)%nat -> sub_ok b -> balanced (print_sub b) /\ quiet (ch ",") parens_shut (print_sub b).
Proof.
  intros Hl Hb. destruct Hb as [a Ha _|x y Hx Hy Hxy|p Hp]; cbn [print_sub].
  - destruct (IHa a Hl Ha) as (? & ? & _). done.
  - destruct (inert_shaped (decimal x ++ chars_of ".." ++ decimal y)) as (? & ? & _); [| |done].
    + intros E. apply app_eq_nil in E as [E _]. by apply decimal_nonempty in E.
    + apply Forall_app. split; [apply decimal_inert|]. apply Forall_app. split; [|apply decimal_inert].
      repeat constructor; by apply inert_small; [|by_compute].
  - destruct Hp as (Hp & _ & _ & Hq). change (ch "?" :: p) with ([ch "?"] ++ p). split.
    + apply balanced_app; [|done]. apply balanced_unlexed. repeat constructor. by_compute.
    + apply quiet_app; [|apply quiet_absent; by_compute|done]. apply balanced_unlexed. repeat constructor. by_compute.
Qed.

Lemma seg_shaped_level s : (length (print_seg s) < S n)%nat -> seg_ok s -> shaped (print_seg s).
Proof.
  intros Hl Hs. destruct Hs as [name subs Hn Hb|name args subs Hn Ha Hb].
  - assert (name <> [] /\ Forall name_char name) as [Hne Hc].
    { destruct Hn as [Hn|(id & _ & ->)]; [by apply ident_name|]. split; [by rewrite handle_chars|apply handle_name_chars]. }
    apply seg_parts_shaped; [done|done|done|]. apply list.Forall_forall. intros b Hin.
    apply sub_shaped_level; [pose proof (subs_length name None subs b Hin); lia|by eapply Forall_in].
  - destruct (ident_name name Hn) as [Hne Hc]. apply seg_parts_shaped; [done|done| |].
    + intros l [= <-]. apply list.Forall_forall. intros a Hin.
      destruct (IHa a) as (? & ? & _); [pose proof (args_length name args subs a Hin); lia|by eapply Forall_in|done].
    + apply list.Forall_forall. intros b Hin.
      apply sub_shaped_level; [pose proof (subs_length name (Some args) subs b Hin); lia|by eapply Forall_in].
Qed.

Lemma arg_shaped_level a : (length (print_arg a) < S n)%nat -> arg_ok a -> shaped (print_arg a).
Proof.
  intros Hl Ha. destruct Ha as [x Hx|x Hx|w f Hw Hf Hd|b| |s Hs1 Hs2|u Hu|e He Hes Hk]; cbn [print_arg].
  - apply inert_shaped; [apply decimal_nonempty|apply decimal_inert].
  - apply shaped_app; [apply inert_shaped; [apply decimal_nonempty|apply decimal_inert]|].
    apply inert_shaped; [done|]. repeat constructor; by apply inert_small; [|by_compute].
  - apply inert_shaped; [by destruct w|]. apply Forall_app in Hd as [Hd1 Hd2].
    assert (forall t, Forall (fun c => is_ascii_digit c = true) t -> Forall inert t) as D.
    { intros t Ht. eapply list.Forall_impl; [exact Ht|]. intros c Hc. by apply ident_part_inert, digit_ident. }
    apply Forall_app. split; [by apply D|]. constructor; [by apply inert_small; [|by_compute]|by apply D].
  - apply inert_shaped; [by destruct b|]. destruct b; repeat constructor; by apply inert_small; [|by_compute].
  - apply inert_shaped; [done|]. repeat constructor; by apply inert_small; [|by_compute].
  - by apply str_shaped.
  - apply char_shaped.
  - apply shaped_join; [by destruct e|]. apply Forall_map, list.Forall_forall. intros s Hin. apply seg_shaped_level; [|by eapply Forall_in].
    pose proof (segs_length e s Hin) as L. cbn [print_arg] in Hl. unfold print_expr in L. lia.
Qed.
End Level.

(** Everything printed closes its brackets and literals and hides its commas. *)
Lemma arg_shaped a : arg_ok a -> shaped (print_arg a).
Proof.
  assert (forall n a, (length (print_arg a) < n)%nat -> arg_ok a -> shaped (print_arg a)) as K.
  { induction n as [|n IH]; [lia|]. by apply arg_shaped_level. }
  apply (K (S (length (print_arg a)))). lia.
Qed.

Lemma seg_shaped s : seg_ok s -> shaped (print_seg s).
Proof. apply (seg_shaped_level (length (print_seg s))); [|lia]. intros a _. apply arg_shaped. Qed.

Lemma sub_shaped b : sub_ok b -> balanced (print_sub b) /\ quiet (ch ",") parens_shut (print_sub b).
Proof. apply (sub_shaped_level (S (length (print_sub b)))); [|lia]. intros a _. apply arg_shaped. Qed.

(** A segment hides its dots, save in no name. *)
Lemma seg_quiet_dot s : seg_ok s -> quiet (ch ".") all_shut (print_seg s).
Proof.
  intros Hs. assert (forall name args subs, Forall name_char name ->
    (forall l, args = Some l -> Forall arg_ok l) -> Forall sub_ok subs -> quiet (ch ".") all_shut (print_seg (XS name args subs))) as K.
  { intros name args subs Hn Ha Hb. cbn [print_seg].
    assert (forall ps, Forall (fun p => balanced p /\ quiet (ch ".") all_shut p) ps -> quiet (ch ".") all_shut (concat ps)) as C.
    { induction 1 as [|p ps [H1 H2] _ IH]; [by apply quiet_absent; apply not_elem_of_nil|]. by apply quiet_app. }
    assert (balanced name) as Hbn by (apply balanced_unlexed; eapply list.Forall_impl; [exact Hn|]; by intros c ((_ & ? & _) & _)).
    assert (quiet (ch ".") all_shut name) as Hqn by (apply quiet_absent; intros E; by destruct (Forall_in _ _ _ Hn E) as (_ & [] & _)).
    assert (forall b, sub_ok b -> balanced (group (print_sub b)) /\ quiet (ch ".") all_shut (group (print_sub b))) as G.
    { intros b H. destruct (sub_shaped b H) as [H1 _]. split; [by apply balanced_wrap|]. apply quiet_wrap; [done|done|done|done|].
      left. by_compute. }
    assert (quiet (ch ".") all_shut (concat (map (fun b => group (print_sub b)) subs))) as Q.
    { apply C, Forall_map. eapply list.Forall_impl; [exact Hb|exact G]. }
    destruct args as [l|]; [|rewrite app_nil_r; by apply quiet_app].
    assert (balanced (join [ch ","] (map print_arg l))) as Hj.
    { apply (join_balanced _ parens_shut); [by_compute|]. apply Forall_map. eapply list.Forall_impl; [by apply Ha|].
      intros a Hok. by destruct (arg_shaped a Hok) as (? & ? & _). }
    apply quiet_app; [apply balanced_app; [done|by apply balanced_wrap]| |done]. apply quiet_app; [done|done|].
    apply quiet_wrap; [done|done|done|done|]. left. by_compute. }
  destruct Hs as [name subs Hn Hb|name args subs Hn Ha Hb]; apply K; try done.
  - destruct Hn as [Hn|(id & _ & ->)]; [by apply ident_name|apply handle_name_chars].
  - by apply ident_name.
  - by intros l [= <-].
Qed.

(** ** Literals read back *)

Lemma delimited_none d c r : c <> d -> delimited d (c :: r) = None.
Proof.
  intros H. unfold delimited, starts_with. cbn [strip_prefix]. rewrite (proj2 (Z.eqb_neq d c)) by done. cbn. by rewrite andb_false_r.
Qed.

Lemma delimited_some d s : delimited d (d :: s ++ [d]) = Some s.
Proof.
  unfold delimited. rewrite (proj2 (starts_with_spec [d] (d :: s ++ [d]))) by (by eexists).
  unfold ends_with. rewrite (proj2 (strip_suffix_spec [d] (d :: s ++ [d]) (d :: s)) eq_refl).
  cbn [length tail]. rewrite length_app, removelast_last. cbn [length].
  by rewrite (proj2 (Nat.leb_le 2 _)) by lia.
Qed.

Lemma keyword_head c r : c ∉ chars_of "ntf" -> c :: r ∉ keywords.
Proof.
  intros H E. apply H. assert (Forall (fun k => match k with c :: _ => c ∈ chars_of "ntf" | [] => True end) keywords) as K
    by (vm_compute; repeat constructor; by_compute). exact (Forall_in _ _ _ K E).
Qed.

(** A text that is no keyword and no quoted literal is a number, or an expression. *)
Lemma parse_lit_plain ok c r :
  solid (c :: r) -> c :: r ∉ keywords -> c <> QUOTE -> c <> APOS ->
  parse_lit ok (c :: r) = match parse_number_lit (c :: r) with
                          | Some n => Ok n
                          | None => if ok (c :: r) then Ok (ArgExpr (c :: r)) else Err (UnsupportedArgument (c :: r))
                          end.
Proof.
  intros Hs Hk N1 N2. unfold parse_lit. rewrite solid_trim by done. unfold keywords in Hk. cbn [map] in Hk.
  rewrite !not_elem_of_cons in Hk. destruct Hk as (? & ? & ? & _). rewrite !bool_decide_eq_false_2 by done.
  by rewrite !delimited_none.
Qed.

Lemma strip_either_some a b t body : strip_either a b t = Some body -> exists x, t = body ++ [x].
Proof.
  unfold strip_either. destruct (strip_suffix [a] t) as [u|] eqn:E.
  - intros [= <-]. exists a. by apply strip_suffix_spec.
  - intros H. exists b. by apply strip_suffix_spec.
Qed.

(** A floating-point literal is what [f64::from_str] reads, up to a suffix. *)
Lemma float_lit_some t v fl :
  parse_float_lit t = Some (v, fl) -> exists body, parse_f64 body = Some v /\ (body = t \/ exists x, t = body ++ [x]).
Proof.
  assert (forall body (b1 b2 b3 fl' : bool), (if b1 then None else if b2 then None else if b3 then None
    else match parse_f64 body with Some v => Some (v, fl') | None => None end) = Some (v, fl) -> parse_f64 body = Some v) as K.
  { intros body [] [] [] fl'; try done. destruct (parse_f64 body); [|done]. by intros [= -> _]. }
  unfold parse_float_lit. destruct (strip_either (ch "f") _ t) as [b|] eqn:E1.
  - intros H%K. exists b. split; [done|right]. by eapply strip_either_some.
  - destruct (strip_either (ch "d") _ t) as [b|] eqn:E2; intros H%K; eexists; (split; [exact H|]); [right|by left].
    by eapply strip_either_some.
Qed.

Lemma start_not_number c : ident_start c = true \/ c = ch "@" ->
  is_ascii_digit c = false /\ c <> ch "-" /\ c <> ch "+" /\ c <> ch "." /\ digit_value 10 c = None.
Proof.
  intros [Hc| ->]; [|by repeat split]. assert (65 <= c <= 90 \/ 97 <= c <= 122 \/ c = 95 \/ c = 36) as R.
  { unfold ident_start, is_ascii_alphabetic, between in Hc. change (ch "_") with 95 in Hc. change (ch "$") with 36 in Hc. lia. }
  change (ch "-") with 45. change (ch "+") with 43. change (ch ".") with 46. unfold is_ascii_digit, digit_value, between.
  repeat split; try lia. destruct (_ <? 10) eqn:L; [|done]. exfalso. revert L.
  destruct ((48 <=? c) && _) eqn:E1; [lia|]. destruct ((97 <=? c) && _) eqn:E2; [lia|]. destruct ((65 <=? c) && _) eqn:E3; lia.
Qed.

Lemma number_none c r : ident_start c = true \/ c = ch "@" -> parse_number_lit (c :: r) = None.
Proof.
  intros (D & N1 & N2 & N3 & V)%start_not_number.
  assert (forall w s, parse_signed w (c :: s) = None) as P.
  { intros w s. unfold parse_signed, unsigned_value. rewrite !(proj2 (Z.eqb_neq c _)) by done. cbn. by rewrite V. }
  assert (forall s, parse_f64 (c :: s) = None) as F.
  { intros s. unfold parse_f64. rewrite !(proj2 (Z.eqb_neq c _)) by done. unfold parse_decimal. cbn [span]. rewrite D.
    by rewrite (proj2 (Z.eqb_neq c (ch "."))) by done. }
  assert (forall t x, c :: r = t ++ [x] -> t = [] \/ exists s, t = c :: s) as S.
  { intros [|y t] x E; [by left|]. injection E as -> _. right. by exists t. }
  unfold parse_number_lit. rewrite !P.
  assert ((match strip_either (ch "L") (ch "l") (c :: r) with Some num => parse_signed 64 num | None => None end) = None) as ->.
  { destruct (strip_either _ _ (c :: r)) as [t|] eqn:E; [|done]. apply strip_either_some in E as [x E].
    destruct (S _ _ E) as [->|[s ->]]; [done|apply P]. }
  destruct (parse_float_lit (c :: r)) as [[v fl]|] eqn:E; [|done]. exfalso.
  apply float_lit_some in E as (body & Hb & [->|[x E]]); [by rewrite F in Hb|].
  destruct (S _ _ E) as [->|[s ->]]; [done|by rewrite F in Hb].
Qed.

Lemma span_all s : Forall (fun c => is_ascii_digit c = true) s -> forall r,
  match r with c :: _ => is_ascii_digit c = false | [] => True end -> span is_ascii_digit (s ++ r) = (s, r).
Proof.
  induction 1 as [|c s Hc _ IH]; intros r Hr.
  - destruct r as [|c r]; [done|]. cbn. by rewrite Hr.
  - cbn. rewrite Hc. by rewrite (IH r Hr).
Qed.

Lemma digits_value_some s acc : Forall (fun c => is_ascii_digit c = true) s -> exists v, digits_value 10 acc s = Some v.
Proof.
  intros H. revert acc. induction H as [|c s Hc _ IH]; intros acc; [by exists acc|]. cbn [digits_value].
  apply digit_bounds in Hc. replace c with (48 + (c - 48)) by lia. rewrite digit_value_digit by lia. apply IH.
Qed.

Lemma float_lit_plain w f :
  w <> [] -> Forall (fun c => is_ascii_digit c = true) w -> Forall (fun c => is_ascii_digit c = true) f ->
  (forall c, is_ascii_digit c = false -> c <> ch "." -> c ∉ w ++ [ch "."] ++ f) ->
  parse_float_lit (w ++ [ch "."] ++ f) = match parse_f64 (w ++ [ch "."] ++ f) with Some v => Some (v, false) | None => None end.
Proof.
  intros Hw Hdw Hdf K. unfold parse_float_lit. rewrite !strip_either_absent by (by apply K). rewrite Nat.eqb_refl.
  assert (existsb (Z.eqb (ch ".")) (w ++ [ch "."] ++ f) = true) as ->.
  { apply existsb_exists. exists (ch "."). split; [|by apply Z.eqb_refl]. apply list_elem_of_In, elem_of_app. right. by apply elem_of_cons; left. }
  assert (forall t, Forall (fun c => is_ascii_digit c = true) t ->
    forallb (fun c => is_ascii_digit c || bool_decide (c ∈ chars_of ".eE+-")) t = true) as A.
  { intros t Ht. apply forallb_forall. intros c Hc%list_elem_of_In. by rewrite (Forall_in _ _ _ Ht Hc). }
  rewrite !forallb_app, (A w), (A f) by done.
  assert (existsb is_ascii_digit (w ++ [ch "."] ++ f) = true) as ->; [|done].
  destruct w as [|c w]; [done|]. inversion Hdw as [|? ? Hc _]; subst. cbn. by rewrite Hc.
Qed.

Lemma double_number w f :
  w <> [] -> f <> [] -> Forall (fun c => is_ascii_digit c = true) (w ++ f) ->
  parse_number_lit (w ++ [ch "."] ++ f) = Some (lit_of (XDouble w f)).
Proof.
  intros Hw Hf Hd. pose proof Hd as Hd'. apply Forall_app in Hd' as [Hdw Hdf].
  assert (forall c, is_ascii_digit c = false -> c <> ch "." -> c ∉ w ++ [ch "."] ++ f) as K.
  { intros c Hc N E. apply elem_of_app in E as [E|E]; [by rewrite (Forall_in _ _ _ Hdw E) in Hc|].
    apply elem_of_cons in E as [E|E]; [done|]. by rewrite (Forall_in _ _ _ Hdf E) in Hc. }
  destruct (digits_value_some (w ++ f) 0 Hd) as [v Hv].
  assert (forall n, parse_signed n (w ++ [ch "."] ++ f) = None) as P.
  { intros n. destruct w as [|c w]; [done|]. inversion Hdw as [|? ? Hc Hdw']; subst. apply digit_bounds in Hc.
    unfold parse_signed. cbn [app]. rewrite (proj2 (Z.eqb_neq c (ch "-"))), (proj2 (Z.eqb_neq c (ch "+"))) by (change (ch "-") with 45; change (ch "+") with 43; lia).
    unfold unsigned_value. change (c :: w ++ ch "." :: f) with ((c :: w) ++ ch "." :: f). rewrite digits_value_app.
    by destruct (digits_value 10 0 (c :: w)). }
  unfold parse_number_lit. rewrite strip_either_absent, !P by (by apply K).
  rewrite (float_lit_plain w f Hw Hdw Hdf K). unfold parse_f64.
  destruct w as [|c w]; [done|]. inversion Hdw as [|? ? Hc _]; subst. pose proof (digit_bounds c Hc).
  cbn [app]. rewrite (proj2 (Z.eqb_neq c (ch "-"))), (proj2 (Z.eqb_neq c (ch "+"))) by (change (ch "-") with 45; change (ch "+") with 43; lia).
  unfold parse_decimal. pose proof (span_all (c :: w) Hdw (ch "." :: f) eq_refl) as S1. cbn [app] in S1. rewrite S1.
  pose proof (span_all f Hdf [] I) as S2. rewrite app_nil_r in S2. rewrite Z.eqb_refl, S2.
  assert (unsigned_value 10 ((c :: w) ++ f) = Some v) as -> by done.
  cbn [parse_exponent lit_of]. change (c :: w ++ f) with ((c :: w) ++ f). rewrite Hv. cbn [default].
  assert (0 < zlen f) by (unfold zlen; destruct f; cbn [length]; [done|lia]).
  rewrite (proj2 (Z.leb_gt 0 (0 - zlen f))) by lia. cbn [with_sign]. do 4 f_equal. lia.
Qed.

Lemma seg_head s : seg_ok s -> exists c r, print_seg s = c :: r /\ (ident_start c = true \/ c = ch "@").
Proof.
  assert (forall name, is_ident name = true -> exists c r, name = c :: r /\ ident_start c = true) as K.
  { intros [|c r] H; [done|]. cbn in H. reflect_bools. by exists c, r. }
  intros [name subs [Hn|(id & _ & ->)] _|name args subs Hn _ _]; cbn [print_seg].
  - destruct (K name Hn) as (c & r & -> & Hc). eexists _, _. split; [done|by left].
  - rewrite handle_chars. eexists _, _. split; [done|by right].
  - destruct (K name Hn) as (c & r & -> & Hc). eexists _, _. split; [done|by left].
Qed.

Lemma join_head sep c r ps : exists r', join sep ((c :: r) :: ps) = c :: r'.
Proof. destruct ps; [by exists r|]. rewrite join_cons. by eexists. Qed.

Lemma expr_head e : e <> [] -> Forall seg_ok e -> exists c r, print_expr e = c :: r /\ (ident_start c = true \/ c = ch "@").
Proof.
  intros Hne H. destruct H as [|s e Hs _]; [done|]. unfold print_expr. cbn [map].
  destruct (seg_head s Hs) as (c & r & -> & Hc). destruct (join_head [ch "."] c r (map print_seg e)) as [r' ->]. by exists c, r'.
Qed.

Lemma decimal_head n : exists c r, decimal n = c :: r /\ decimal_char c.
Proof.
  pose proof (decimal_chars n) as H. pose proof (decimal_nonempty n) as N. destruct (decimal n) as [|c r]; [done|].
  inversion H; subst. by exists c, r.
Qed.

Lemma number_char_plain c : decimal_char c -> (c ∉ chars_of "ntf") /\ c <> QUOTE /\ c <> APOS.
Proof.
  intros [H| ->]; [|split; [by_compute|done]]. apply digit_bounds in H. split; [|lia].
  cbn. rewrite !not_elem_of_cons. change (ch "n") with 110. change (ch "t") with 116. change (ch "f") with 102.
  repeat split; [lia|lia|lia|apply not_elem_of_nil].
Qed.

Lemma start_plain c : ident_start c = true \/ c = ch "@" -> c <> QUOTE /\ c <> APOS.
Proof. intros [H| ->]; [|done]. split; intros ->; by vm_compute in H. Qed.

Section ReadBack.
Context (ok : chars -> bool).

(** Each literal is read back; an expression argument is, when the test accepts its text. *)
Lemma parse_lit_print a :
  arg_ok a -> (forall e, a = XExpr e -> ok (print_expr e) = true) -> parse_lit ok (print_arg a) = Ok (lit_of a).
Proof.
  intros Ha Hok. destruct (arg_shaped a Ha) as (_ & _ & Hs).
  assert (forall c r n, decimal_char c -> print_arg a = c :: r -> parse_number_lit (print_arg a) = Some n -> parse_lit ok (print_arg a) = Ok n) as N.
  { intros c r n Hc E Hn. destruct (number_char_plain c Hc) as (N1 & N2 & N3). rewrite E in Hn, Hs |- *.
    rewrite parse_lit_plain, Hn by (done || by apply keyword_head). done. }
  destruct Ha as [x Hx|x Hx|w f Hw Hf Hd|b| |s Hs1 Hs2|u Hu|e He Hes Hk].
  - destruct (decimal_head x) as (c & r & E & Hc). apply (N c r); [done|done|]. cbn [print_arg].
    by rewrite parse_decimal_int, bool_decide_eq_true_2.
  - destruct (decimal_head x) as (c & r & E & Hc). apply (N c (r ++ [ch "L"])); [done|cbn [print_arg]; by rewrite E|]. cbn [print_arg].
    by rewrite parse_decimal_long, bool_decide_eq_true_2.
  - destruct w as [|c w]; [done|]. apply (N c (w ++ [ch "."] ++ f)); [left; by inversion Hd|done|by apply double_number].
  - by destruct b.
  - done.
  - unfold parse_lit. rewrite solid_trim by done. cbn [print_arg].
    assert (QUOTE :: s ++ [QUOTE] ∉ keywords) as Hk by (apply keyword_head; by_compute). unfold keywords in Hk. cbn [map] in Hk.
    rewrite !not_elem_of_cons in Hk. destruct Hk as (? & ? & ? & _). rewrite !bool_decide_eq_false_2 by done. by rewrite delimited_some.
  - unfold parse_lit. rewrite solid_trim by done. cbn [print_arg].
    change (chars_of "'\u" ++ hex4 u ++ [APOS]) with (APOS :: (BACKSLASH :: ch "u" :: hex4 u) ++ [APOS]).
    assert (APOS :: (BACKSLASH :: ch "u" :: hex4 u) ++ [APOS] ∉ keywords) as Hk by (apply keyword_head; by_compute).
    unfold keywords in Hk. cbn [map] in Hk.
    rewrite !not_elem_of_cons in Hk. destruct Hk as (? & ? & ? & _). rewrite !bool_decide_eq_false_2 by done.
    rewrite delimited_none, delimited_some by done. unfold parse_char_inner. cbn [strip_prefix]. rewrite !Z.eqb_refl.
    unfold hex4. rewrite parse_hex_digits by (done || (unfold in_u in Hu; cbn; lia)). done.
  - destruct (expr_head e He Hes) as (c & r & E & Hc). destruct (start_plain c Hc) as [N1 N2].
    specialize (Hok e eq_refl). cbn [print_arg lit_of] in *. unfold print_expr in *. rewrite E in *.
    by rewrite parse_lit_plain, (number_none c r Hc), Hok.
Qed.

Lemma split_once_first p s t :
  p <> [] -> (forall a b, s = a ++ b -> b <> [] -> strip_prefix p (b ++ p ++ t) = None) -> split_once p (s ++ p ++ t) = Some (s, t).
Proof.
  intros Hp. induction s as [|c s IH]; intros H.
  - destruct p as [|x p]; [done|]. cbn [app split_once]. change (x :: p ++ t) with ((x :: p) ++ t). by rewrite (proj2 (strip_prefix_spec _ _ t) eq_refl).
  - assert (strip_prefix p ((c :: s) ++ p ++ t) = None) as E by (by apply (H [])). cbn [app] in *. 
    assert (split_once p (c :: s ++ p ++ t) = match split_once p (s ++ p ++ t) with Some (a, b) => Some (c :: a, b) | None => None end) as ->.
    { cbn [split_once]. by rewrite E. }
    rewrite IH; [done|]. intros a b Eb Hb. apply (H (c :: a)); [by rewrite Eb|done].
Qed.

Lemma parse_range_print x y :
  in_s 64 x -> in_s 64 y -> x <= y -> parse_subscript ok (decimal x ++ chars_of ".." ++ decimal y) = Ok (SubRange x y).
Proof.
  intros Hx Hy Hxy. assert (forall n, solid (decimal n)) as Hsd.
  { intros n. destruct (inert_shaped _ (decimal_nonempty n) (decimal_inert n)) as (_ & _ & H). exact H. }
  unfold parse_subscript. rewrite solid_trim.
  2: { apply solid_app; [done|]. apply solid_app; [|done]. split; [by eexists _, _|by exists [ch "."], (ch ".")]. }
  destruct (decimal_head x) as (c & r & E & Hc). rewrite E at 1. cbn [app].
  assert (strip_prefix [ch "?"] (decimal x ++ chars_of ".." ++ decimal y) = None) as ->.
  { rewrite E. cbn [strip_prefix app]. destruct (Z.eqb_spec (ch "?") c) as [<-|]; [|done]. by destruct (not_decimal_char (ch "?") eq_refl ltac:(done) Hc). }
  rewrite split_once_first; [|done|].
  - unfold parse_bound. rewrite !solid_trim by done. rewrite !parse_signed_decimal, !bool_decide_eq_true_2 by done. cbn.
    by rewrite (proj2 (Z.ltb_ge y x)).
  - intros a b Eb Hb. destruct b as [|d b]; [done|]. pose proof (decimal_chars x) as D. rewrite Eb in D.
    apply Forall_app in D as [_ D]. apply Forall_inv in D. change (chars_of "..") with [ch "."; ch "."].
    cbn [strip_prefix app]. destruct (Z.eqb_spec (ch ".") d) as [<-|]; [|done]. by destruct (not_decimal_char (ch ".") eq_refl ltac:(done) D).
Qed.

Lemma arg_head a : arg_ok a -> exists c r, print_arg a = c :: r /\ c <> ch "?".
Proof.
  intros Ha. destruct Ha as [x Hx|x Hx|w f Hw Hf Hd|b| |s Hs1 Hs2|u Hu|e He Hes Hk]; cbn [print_arg];
    try (destruct (decimal_head x) as (c & r & -> & Hc); eexists _, _; split; [done|]; intros ->; by destruct (not_decimal_char 63 eq_refl ltac:(done) Hc)).
  - destruct w as [|c w]; [done|]. eexists _, _. split; [done|]. apply Forall_inv in Hd. intros ->. by vm_compute in Hd.
  - destruct b; by eexists _, _.
  - by eexists _, _.
  - by eexists _, _.
  - by eexists _, _.
  - destruct (expr_head e He Hes) as (c & r & E & Hc). unfold print_expr in E. rewrite E. exists c, r. split; [done|].
    intros ->. destruct Hc as [Hc|Hc]; [by vm_compute in Hc|done].
Qed.

Lemma parse_sub_print b :
  sub_ok b -> (forall e, b = XIndex (XExpr e) -> ok (print_expr e) = true) ->
  parse_subscript ok (trim (print_sub b)) = Ok (sub_of b).
Proof.
  intros Hb Hok. transitivity (parse_subscript ok (print_sub b)); [by unfold parse_subscript; rewrite trim_idem|].
  destruct Hb as [a Ha Hr|x y Hx Hy Hxy|p Hp]; cbn [print_sub sub_of].
  - destruct (arg_shaped a Ha) as (_ & _ & Hs). unfold parse_subscript. rewrite solid_trim by done.
    destruct (arg_head a Ha) as (c & r & E & Hc). rewrite E at 1. assert (strip_prefix [ch "?"] (print_arg a) = None) as ->.
    { rewrite E. cbn [strip_prefix]. by destruct (Z.eqb_spec (ch "?") c) as [<-|]. }
    rewrite Hr, parse_lit_print; [done|done|]. by intros e ->; apply Hok.
  - by apply parse_range_print.
  - pose proof (sub_solid p Hp) as Hs. destruct Hp as (_ & Hne & Ht & _). unfold parse_subscript.
    rewrite solid_trim by (change (ch "?" :: p) with ([ch "?"] ++ p); apply solid_app; [|done]; split; [by eexists _, _|by exists [], (ch "?")]).
    change (strip_prefix [ch "?"] (ch "?" :: p)) with (Some p). cbv iota beta. by rewrite Ht, bool_decide_eq_false_2.
Qed.

Lemma mapM_ok {A B} (f : A -> result ExprError B) (g : A -> B) l : Forall (fun x => f x = Ok (g x)) l -> mapM f l = Ok (map g l).
Proof. induction 1 as [|x l Hx _ IH]; [done|]. cbn. by rewrite Hx, IH. Qed.

Lemma mapM_print {A B} (f : chars -> result ExprError B) (pr : A -> chars) (g : A -> B) l :
  (forall x, x ∈ l -> f (pr x) = Ok (g x)) -> mapM f (map pr l) = Ok (map g l).
Proof.
  induction l as [|x l IH]; intros H; [done|]. cbn [map mapM]. rewrite (H x) by (apply elem_of_cons; by left). cbn.
  rewrite IH; [done|]. intros y Hy. apply H. apply elem_of_cons. by right.
Qed.

Lemma parse_args_print args :
  Forall arg_ok args -> (forall e, XExpr e ∈ args -> ok (print_expr e) = true) ->
  parse_args ok (join [ch ","] (map print_arg args)) = Ok (map lit_of args).
Proof.
  intros Ha Hok. destruct args as [|a args]; [done|]. set (l := a :: args) in *.
  assert (Forall shaped (map print_arg l)) as Hs.
  { apply Forall_map. eapply list.Forall_impl; [exact Ha|]. apply arg_shaped. }
  assert (exists c r, join [ch ","] (map print_arg l) = c :: r) as (c & r & E).
  { destruct (arg_head a) as (c & r & E & _); [by inversion Ha|]. subst l. cbn [map]. rewrite E.
    destruct (join_head [ch ","] c r (map print_arg args)) as [r' E']. by exists c, r'. }
  unfold parse_args. rewrite solid_trim.
  2: { apply solid_join; [done|done|]. eapply list.Forall_impl; [exact Hs|]. by intros x (_ & _ & ?). }
  rewrite E at 1. rewrite cut_join; [|by left|by_compute|done|].
  - apply mapM_print. intros x Hx. apply parse_lit_print; [by eapply Forall_in|]. intros e ->. by apply Hok.
  - eapply list.Forall_impl; [exact Hs|]. by intros x (? & ? & _).
Qed.

(** A segment is its head, then its groups. *)
Definition seg_head_text (s : XSeg) : chars :=
  match s with
  | XS name args _ => name ++ match args with
                              | Some args => ch "(" :: join [ch ","] (map print_arg args) ++ [ch ")"]
                              | None => []
                              end
  end.
Definition seg_subs_of (s : XSeg) : list XSub := match s with XS _ _ subs => subs end.

Lemma split_subscripts_print s :
  seg_ok s -> split_subscripts (print_seg s) = Ok (seg_head_text s, map (fun b => trim (print_sub b)) (seg_subs_of s)).
Proof.
  intros Hs. assert (shaped (seg_head_text s) /\ quiet (ch "[") parens_shut (seg_head_text s) /\ Forall sub_ok (seg_subs_of s)) as ((Hb & _ & Hsd) & Hq & Hsub).
  { assert (forall name l, Forall name_char name -> name <> [] -> Forall arg_ok l ->
      shaped (name ++ ch "(" :: join [ch ","] (map print_arg l) ++ [ch ")"])
      /\ quiet (ch "[") parens_shut (name ++ ch "(" :: join [ch ","] (map print_arg l) ++ [ch ")"])) as K.
    { intros name l Hn Hne Hl. assert (balanced (join [ch ","] (map print_arg l))) as Hj.
      { apply (join_balanced _ parens_shut); [by_compute|]. apply Forall_map. eapply list.Forall_impl; [exact Hl|].
        intros a Hok. by destruct (arg_shaped a Hok) as (? & ? & _). }
      destruct (name_solid name Hne Hn) as (Hb & Hq & Hsd). split; [apply shaped_app; [done|by apply shaped_call]|].
      apply quiet_app; [done| |apply quiet_wrap; [done|done|done|done|left; by_compute]].
      apply quiet_absent. intros E. by destruct (Forall_in _ _ _ Hn E) as (_ & _ & []). }
    destruct Hs as [name subs Hn Hb|name args subs Hn Ha Hb]; cbn [seg_head_text seg_subs_of].
    - rewrite app_nil_r. assert (name <> [] /\ Forall name_char name) as [Hne Hc].
      { destruct Hn as [Hn|(id & _ & ->)]; [by apply ident_name|]. split; [by rewrite handle_chars|apply handle_name_chars]. }
      split; [by apply name_solid|]. split; [|done]. apply quiet_absent. intros E. by destruct (Forall_in _ _ _ Hc E) as (_ & _ & []).
    - destruct (ident_name name Hn) as [Hne Hc]. by destruct (K name args). }
  assert (print_seg s = seg_head_text s ++ concat (map group (map print_sub (seg_subs_of s)))) as ->.
  { rewrite map_map. by destruct s. }
  unfold split_subscripts. rewrite head_end_start; [|done|done|by destruct (seg_subs_of s)].
  rewrite drop_app_length, take_app_length, trim_groups, groups_of_groups; [|rewrite length_app; lia|].
  - rewrite map_map, solid_trim by done. done.
  - apply Forall_map. eapply list.Forall_impl; [exact Hsub|]. intros b Hbk. by destruct (sub_shaped b Hbk).
Qed.

Lemma find_char_absent c s : c ∉ s -> find_char c s = None.
Proof.
  unfold find_char. induction s as [|d s IH]; [done|]. intros [N H]%not_elem_of_cons. cbn [split_once strip_prefix].
  rewrite (proj2 (Z.eqb_neq c d)) by done. by rewrite IH.
Qed.

Lemma find_char_first c s t : c ∉ s -> find_char c (s ++ c :: t) = Some (s, t).
Proof.
  intros H. apply (split_once_first [c]); [done|]. intros a b -> Hb. destruct b as [|d b]; [done|]. cbn [strip_prefix app].
  destruct (Z.eqb_spec c d) as [<-|]; [|done]. destruct H. apply elem_of_app. right. apply elem_of_cons. by left.
Qed.

Lemma name_no_paren name : Forall name_char name -> ch "(" ∉ name.
Proof. intros H E. destruct (Forall_in _ _ _ H E) as ((_ & U & _) & _). revert U. by_compute. Qed.

Lemma parse_handle_print id : in_u 64 id -> parse_object_handle (handle_text id) = Some id.
Proof.
  intros Hid. rewrite handle_chars. unfold parse_object_handle.
  change (ch "@" :: ch "0" :: ch "x" :: chars_of (show_hex id)) with (chars_of "@0x" ++ chars_of (show_hex id)).
  rewrite (proj2 (strip_prefix_spec (chars_of "@0x") _ (chars_of (show_hex id))) eq_refl).
  pose proof (hex_digits_length false (hex_len id) id) as L. fold (show_hex id) in L.
  assert (hex_len id <> 0%nat) as Hl by (unfold hex_len; lia).
  assert (forallb is_hexdigit (chars_of (show_hex id)) = true) as ->.
  { apply forallb_forall. intros c Hc%list_elem_of_In. by destruct (Forall_in _ _ _ (hex_digits_chars false (hex_len id) id) Hc). }
  rewrite bool_decide_eq_false_2 by (intros E; unfold chars_of in E; rewrite E in L; cbn in L; lia). cbn [negb orb].
  apply parse_hex_digits; [done|split; [apply Hid|apply hex_len_bound, Hid]|apply Hid].
Qed.

Lemma parse_seg_print s :
  seg_ok s ->
  (forall e, (length (print_expr e) < length (print_seg s))%nat -> e <> [] -> Forall seg_ok e -> ok (print_expr e) = true) ->
  parse_seg ok (print_seg s) = Ok (seg_of s).
Proof.
  intros Hs Hok. unfold parse_seg. rewrite split_subscripts_print by done. cbn.
  assert (forall name args subs, s = XS name args subs -> Forall sub_ok subs ->
    mapM (parse_subscript ok) (map (fun b => trim (print_sub b)) subs) = Ok (map sub_of subs)) as Hsub.
  { intros name args subs -> Hb. apply mapM_print. intros b Hin. pose proof (Forall_in _ _ _ Hb Hin) as Hbo.
    apply parse_sub_print; [done|]. intros e ->. pose proof (subs_length name args subs _ Hin) as L.
    inversion Hbo as [a Ha _| |]; subst. inversion Ha; subst. by apply Hok. }
  destruct Hs as [name subs Hn Hb|name args subs Hn Ha Hb]; cbn [seg_head_text seg_subs_of seg_of] in *;
    rewrite (Hsub name _ subs eq_refl Hb); cbn.
  - rewrite app_nil_r. destruct Hn as [Hn|(id & Hid & ->)].
    + destruct (ident_name name Hn) as [Hne Hc]. rewrite (find_char_absent _ _ (name_no_paren _ Hc)), Hn.
      assert (starts_with [ch "@"] name = false) as ->; [|done]. destruct name as [|c r]; [done|]. cbn in Hn. reflect_bools.
      unfold starts_with. cbn [strip_prefix]. destruct (Z.eqb_spec (ch "@") c) as [<-|]; [|done]. by vm_compute in H.
    + assert (starts_with [ch "@"] (handle_text id) = true) as -> by (rewrite handle_chars; done). by rewrite parse_handle_print.
  - destruct (ident_name name Hn) as [Hne Hc].
    assert (starts_with [ch "@"] (name ++ ch "(" :: join [ch ","] (map print_arg args) ++ [ch ")"]) = false) as ->.
    { destruct name as [|c r]; [done|]. cbn in Hn. reflect_bools. unfold starts_with. cbn [strip_prefix app].
      destruct (Z.eqb_spec (ch "@") c) as [<-|]; [|done]. by vm_compute in H. }
    rewrite find_char_first by by apply name_no_paren.
    assert (ends_with [ch ")"] (name ++ ch "(" :: join [ch ","] (map print_arg args) ++ [ch ")"]) = true) as ->.
    { unfold ends_with. rewrite (proj2 (strip_suffix_spec [ch ")"] _ (name ++ ch "(" :: join [ch ","] (map print_arg args)))); [done|].
      by rewrite <-app_assoc. }
    destruct (name_solid name Hne Hc) as (_ & _ & Hsd). rewrite solid_trim, Hn by done. cbn [negb]. rewrite removelast_last.
    rewrite parse_args_print; [done|done|]. intros e He. pose proof (args_length name args subs _ He) as L.
    pose proof (Forall_in _ _ _ Ha He) as Hao. inversion Hao; subst. by apply Hok.
Qed.
End ReadBack.

Lemma segs_solid e : Forall seg_ok e -> Forall solid (map print_seg e).
Proof.
  intros He. apply Forall_map. eapply list.Forall_impl; [exact He|]. intros s Hs. by destruct (seg_shaped s Hs) as (_ & _ & ?).
Qed.
Lemma split_segments_print e : e <> [] -> Forall seg_ok e -> split_segments (print_expr e) = Ok (map print_seg e).
Proof.
  intros Hne He. assert (Forall (fun p => balanced p /\ quiet (ch ".") all_shut p) (map print_seg e)) as Hp.
  { apply Forall_map. eapply list.Forall_impl; [exact He|]. intros s Hs. destruct (seg_shaped s Hs) as (? & _).
    split; [done|by apply seg_quiet_dot]. }
  pose proof (segs_solid e He) as Hsd. unfold split_segments, print_expr. rewrite cut_join; [|by right; right|by_compute|by destruct e|done]. cbn [negb orb].
  destruct (exists_last (l := e)) as (init & s & ->); [done|]. rewrite map_app. cbn [map].
  rewrite removelast_last, last_last. rewrite map_app in Hsd. apply Forall_app in Hsd as [H1 H2]. apply Forall_inv in H2.
  rewrite (solid_trim _ H2). assert (map trim (map print_seg init) = map print_seg init) as ->.
  { rewrite <-(map_id (map print_seg init)) at 2. apply map_ext_in. intros p Hin. apply solid_trim.
    by eapply Forall_in; [|apply list_elem_of_In]. }
  rewrite bool_decide_eq_false_2; [done|]. intros K. rewrite K in H2. destruct H2 as [(? & ? & ? & _) _]. done.
Qed.

Lemma parse_expr_print n e :
  e <> [] -> Forall seg_ok e -> (length (print_expr e) <= n)%nat -> parse_expr_with (expr_ok n) (print_expr e) = Ok (map seg_of e).
Proof.
  revert e. induction n as [|n IH]; intros e Hne He Hn.
  { destruct (expr_head e Hne He) as (c & r & E & _). rewrite E in Hn. cbn in Hn. lia. }
  destruct (expr_head e Hne He) as (c & r & E & _). pose proof (segs_solid e He) as Hsd.
  unfold parse_expr_with. rewrite solid_trim by (apply solid_join; [done|by destruct e|done]). rewrite E at 1.
  rewrite split_segments_print by done.
  cbn. destruct (map print_seg e) eqn:M; [by destruct e|]. rewrite <-M. apply mapM_print. intros s Hs.
  apply parse_seg_print; [by eapply Forall_in|]. intros e' L Hne' He'. cbn [expr_ok].
  rewrite IH; [done|done|done|]. pose proof (segs_length e s Hs). lia.
Qed.

(** ** The recursion of the parser

    The parser asks about texts shorter than its own only. *)

Section Shorter.
Context (f g : chars -> bool).

Lemma mapM_ext_in {A B} (h k : A -> result ExprError B) l : (forall x, x ∈ l -> h x = k x) -> mapM h l = mapM k l.
Proof.
  induction l as [|x l IH]; intros H; [done|]. cbn. rewrite (H x) by (apply elem_of_cons; by left).
  destruct (k x); [|done]. cbn. rewrite IH; [done|]. intros y Hy. apply H, elem_of_cons. by right.
Qed.

Lemma parse_lit_ext n t : (length t <= n)%nat -> (forall u, (length u <= n)%nat -> f u = g u) -> parse_lit f t = parse_lit g t.
Proof. intros Hn H. unfold parse_lit. rewrite (H (trim t)); [done|]. pose proof (trim_length t). lia. Qed.

Lemma cut_from_length sep opens closes s cur q d p :
  p ∈ (cut_from sep opens closes s cur q d).1.1 -> (length p <= length cur + length s)%nat.
Proof.
  revert cur q d. induction s as [|c s IH]; intros cur q d; cbn [cut_from].
  { intros ->%list_elem_of_singleton. lia. }
  destruct (_ && _).
  - specialize (IH [] (quoted_step q c) (count_step opens closes (negb (inside q)) c d)).
    destruct (cut_from sep opens closes s [] _ _) as [[parts q'] d']. cbn [fst] in *.
    intros [->|H]%elem_of_cons; [lia|]. specialize (IH H). cbn [length] in *. lia.
  - intros H. specialize (IH _ _ _ H). rewrite length_app in IH. cbn [length] in *. lia.
Qed.

Lemma parse_args_ext n s : (length s <= n)%nat -> (forall u, (length u <= n)%nat -> f u = g u) -> parse_args f s = parse_args g s.
Proof.
  intros Hn H. unfold parse_args. destruct (trim s) as [|c r] eqn:E; [done|]. apply mapM_ext_in. intros p Hp.
  apply (parse_lit_ext n); [|done]. apply cut_from_length in Hp. pose proof (trim_length s). rewrite E in *. cbn [length] in *. lia.
Qed.

Lemma parse_subscript_ext n s : (length s <= n)%nat -> (forall u, (length u <= n)%nat -> f u = g u) -> parse_subscript f s = parse_subscript g s.
Proof.
  intros Hn H. unfold parse_subscript. rewrite (parse_lit_ext n (trim s)); [done| |done]. pose proof (trim_length s). lia.
Qed.

Lemma groups_of_length fuel raw rest gs b :
  groups_of fuel raw rest = Ok gs -> b ∈ gs -> (length b < length rest)%nat.
Proof.
  revert rest gs. induction fuel as [|fuel IH]; intros rest gs; cbn [groups_of].
  { destruct rest; [|done]. intros [= <-]. by intros ?%elem_of_nil. }
  destruct rest as [|c r]; [intros [= <-]; by intros ?%elem_of_nil|]. destruct (negb _); [done|].
  destruct (group_close (c :: r) quoted_default 0) as [close|]; [|done]. rewrite result_bind_ok. intros (k & Hk & [= <-]).
  intros [->|Hb]%elem_of_cons.
  - pose proof (trim_length (drop 1 (take close (c :: r)))). rewrite length_drop, length_take in H. cbn [length] in *. lia.
  - specialize (IH _ _ Hk Hb). pose proof (trim_length (drop (S close) (c :: r))). rewrite length_drop in H. cbn [length] in *. lia.
Qed.

Lemma parse_seg_ext raw : (forall u, (length u < length raw)%nat -> f u = g u) -> parse_seg f raw = parse_seg g raw.
Proof.
  intros H. unfold parse_seg. destruct (split_subscripts raw) as [[head gs]|] eqn:E; [|done]. cbn.
  unfold split_subscripts in E. rewrite result_bind_ok in E. destruct E as (k & Hk & [= <- <-]).
  set (n := head_end raw quoted_default 0) in *. assert (length raw <> 0%nat -> forall u, (length u <= pred (length raw))%nat -> f u = g u) as H'
    by (intros N u Hu; apply H; lia).
  assert (mapM (parse_subscript f) k = mapM (parse_subscript g) k) as ->.
  { apply mapM_ext_in. intros b Hb. pose proof (groups_of_length _ _ _ _ _ Hk Hb) as L. pose proof (trim_length (drop n raw)) as T.
    rewrite length_drop in T. apply (parse_subscript_ext (pred (length raw))); [lia|]. apply H'. lia. }
  destruct (mapM _ k); [|done]. cbn. destruct (starts_with _ _); [done|].
  destruct (find_char (ch "(") (trim (take n raw))) as [[pre post]|] eqn:F; [|done].
  destruct (negb _); [done|]. destruct (negb _); [done|]. rewrite (parse_args_ext (pred (length raw)) (removelast post)); [done| |].
  - apply split_once_app in F. pose proof (trim_length (take n raw)) as T. rewrite F, length_take, !length_app in T. cbn [length] in T.
    assert (length (removelast post) <= length post)%nat by (rewrite removelast_firstn_len, length_take; lia). lia.
  - apply H'. apply split_once_app in F. pose proof (trim_length (take n raw)) as T. rewrite F, length_take, !length_app in T. cbn [length] in T. lia.
Qed.

Lemma parse_expr_ext e : (forall u, (length u < length e)%nat -> f u = g u) -> parse_expr_with f e = parse_expr_with g e.
Proof.
  intros H. unfold parse_expr_with. destruct (trim e) as [|c r] eqn:E; [done|].
  destruct (split_segments (c :: r)) as [raws|] eqn:F; [|done]. cbn. destruct raws as [|x raws]; [done|].
  apply mapM_ext_in. intros p Hp. apply parse_seg_ext. intros u Hu. apply H.
  assert (length p <= length (c :: r))%nat; [|pose proof (trim_length e); rewrite E in *; lia].
  unfold split_segments in F. pose proof (cut_from_length (ch ".") all_open all_shut (c :: r) [] quoted_default 0) as L.
  destruct (cut_from _ _ _ (c :: r) _ _ _) as [[parts q] d]. cbn [fst] in L. destruct (_ || _); [done|].
  assert (forall y, y ∈ parts -> (length (trim y) <= length (c :: r))%nat) as T.
  { intros y Hy. specialize (L _ Hy). cbn [length Nat.add] in L. pose proof (trim_length y). cbn [length]. lia. }
  assert (p ∈ map trim (removelast parts) \/ p = trim (List.last parts [])) as [Hp'| ->].
  { injection F as F. rewrite <-F in Hp. destruct (bool_decide _); [by left|]. apply elem_of_app in Hp as [Hp|Hp]; [by left|].
    right. by apply list_elem_of_singleton in Hp. }
  - apply list_elem_of_fmap in Hp' as (y & -> & Hy). apply T. destruct (decide (parts = [])) as [->|N]; [by apply elem_of_nil in Hy|].
    rewrite (app_removelast_last [] N). apply elem_of_app. by left.
  - destruct (decide (parts = [])) as [->|N]; [cbn; lia|]. apply T. rewrite (app_removelast_last [] N) at 2.
    apply elem_of_app. right. by apply list_elem_of_singleton.
Qed.
End Shorter.

Lemma expr_ok_enough n m t : (length t < n)%nat -> (length t < m)%nat -> expr_ok n t = expr_ok m t.
Proof.
  remember (length t) as k eqn:Ek. revert t Ek n m. induction (lt_wf k) as [k _ IH]. intros t -> [|n] [|m] Hn Hm; try lia.
  cbn [expr_ok]. rewrite (parse_expr_ext (expr_ok n) (expr_ok m)); [done|]. intros u Hu. apply (IH (length u)); lia.
Qed.

Lemma groups_of_enough n m raw rest :
  (length rest <= n)%nat -> (length rest <= m)%nat -> groups_of n raw rest = groups_of m raw rest.
Proof.
  revert m rest. induction n as [|n IH]; intros [|m] [|c r] Hn Hm; try done; cbn [length] in *; try lia. cbn [groups_of].
  destruct (negb _); [done|]. destruct (group_close _ _ _) as [close|]; [|done].
  pose proof (trim_length (drop (S close) (c :: r))) as T. rewrite length_drop in T. cbn [length] in T.
  by rewrite (IH m) by lia.
Qed.

(** The expression parser's recursion. On every text the parser satisfies the equation its source
    writes: an argument that is no literal is accepted exactly when the parser itself, run on it to the
    end, accepts it. No fuel beyond the length of the text is ever used, for the arguments or for the
    groups of subscripts. *)
Theorem parse_expr_equation :
  (forall e, parse_expr e = parse_expr_with (fun t => is_ok (parse_expr t)) e)
  /\ (forall n e, (length e <= n)%nat -> parse_expr_with (expr_ok n) e = parse_expr e)
  /\ (forall n raw rest, (length rest <= n)%nat -> groups_of n raw rest = groups_of (length rest) raw rest).
Proof.
  assert (forall n e, (length e <= n)%nat -> parse_expr_with (expr_ok n) e = parse_expr e) as K.
  { intros n e Hn. apply parse_expr_ext. intros u Hu. apply expr_ok_enough; lia. }
  split; [|split; [done|intros; by apply groups_of_enough]].
  intros e. apply parse_expr_ext. intros u Hu. rewrite <-(K (pred (length e))) by lia.
  destruct (length e) as [|k]; [lia|done].
Qed.

Lemma parse_expr_equation_witness :
  parse_expr_with (expr_ok 50) (chars_of "a.f(b.c)[0]") = parse_expr (chars_of "a.f(b.c)[0]")
  /\ groups_of 9 [] (chars_of "[0][1]") = Ok [chars_of "0"; chars_of "1"].
Proof.
  destruct parse_expr_equation as (_ & H & K). split.
  - apply H. vm_compute. lia.
  - rewrite K by (vm_compute; lia). vm_compute. reflexivity.
Defined.

(** C27. Expressions are read back. For every well-formed expression (chains of fields, calls and object
    handles; integer, long, double, boolean, null, string and character literals; nested expressions as
    arguments; index, range and filter subscripts), parsing its text gives its segments, with nested
    expressions as the text they print; its strings, calls and subscripts hide dots, commas and brackets
    from the scanners around them. The one text that must be kept out is two dots in an index:
    [m[x]] with [x] the string a..b is read as a range and refused. *)
Theorem parse_expr_roundtrip :
  (forall e, e <> [] -> Forall seg_ok e -> parse_expr (print_expr e) = Ok (map seg_of e))
  /\ (let e := [XS (chars_of "m") None [XIndex (XStr (chars_of "a..b"))]] in
      exists what bound range, parse_expr (print_expr e) = Err (RangeBound what bound range)).
Proof.
  split.
  - intros e Hne He. by apply parse_expr_print.
  - eexists _, _, _. vm_compute. reflexivity.
Qed.

Definition sample_expr : list XSeg :=
  [XS (chars_of "svc") None [];
   XS (chars_of "find") (Some [XStr (chars_of "a, (b].c"); XExpr [XS (handle_text 255) None []; XS (chars_of "id") (Some []) []]; XLong (-7)])
      [XIndex (XInt 3); XRange 0 2; XFilter (chars_of "total(1) > 2")];
   XS (chars_of "x") None []].

Lemma sample_expr_ok : Forall seg_ok sample_expr.
Proof.
  constructor; [apply field_ok; [by left|constructor]|]. constructor; [|repeat constructor].
  apply call_ok; [done| |].
  - constructor; [apply str_ok; by_compute|]. constructor; [|repeat constructor; by_compute].
    apply expr_ok_arg; [done| |by_compute]. constructor; [|repeat constructor].
    apply field_ok; [right; exists 255; split; [by_compute|done]|constructor].
  - constructor; [apply index_ok; [by constructor; by_compute|by vm_compute]|].
    constructor; [apply range_ok; by_compute|]. constructor; [|constructor]. apply filter_sub_ok.
    split_and!; [by vm_compute|done|by vm_compute|]. apply quiet_absent. by_compute.
Qed.

Lemma parse_expr_roundtrip_witness : parse_expr (print_expr sample_expr) = Ok (map seg_of sample_expr).
Proof. apply (proj1 parse_expr_roundtrip); [done|apply sample_expr_ok]. Defined.
