(* ===== verification/Host.v ===== *)
(** * A session at work ([mcp-server/src/handlers.rs])

    What every handler of the server works on: a [DebugSession] whose connection it may use, the clock,
    and the alerts it pushes to its caller, as a state monad; and the operations on stop points that the
    event pump, the watchdog and the tools share: finding the owner of a request, disarming, and noting
    the requests whose hits may still be in flight.

    Where the code looks a stop point up by request it iterates a [HashMap]: the order is a parameter.
    Under [stops_ok] (a request has one owner, an entry's key is its id) the order does not matter. *)

From S2P Require Import Prelude Protocol Types Reader Events Connection Client EventRequest StopPoint.
From S2P Require Import EventRing MonitorClock Suspensions Traces Session Manager Api.

(** ** State *)

(** [Instant::now]: what the [n]th reading of the clock answers. *)
Class Clock : Type := { instant : nat -> Z }.

(** What a description of an event holds ([serde_json::Map], in the order of its keys). *)
Inductive Json : Type := JString (s : string) | JBool (b : bool) | JNumber (n : Z) | JNull.
Definition JsonMap : Type := list (string * Json).
Fixpoint json_insert (key : string) (v : Json) (m : JsonMap) : JsonMap :=
  match m with
  | [] => [(key, v)]
  | (k, old) :: m =>
    if String.eqb k key then (key, v) :: m
    else if bytes_le (bytes_of_string key) (bytes_of_string k) then (key, v) :: (k, old) :: m
    else (k, old) :: json_insert key v m
  end.

(** What the server pushes without being asked ([Alerter::alert]). *)
Inductive Alert : Type :=
| SuspensionAlert (seq : Z) (event : string) (description : JsonMap) (suspended : bool)
    (escalation : option string) (stop_point : option string)
| WatchdogAlert (level note : string).

Record Host : Type := { h_session : DebugSession; h_ticks : nat; h_alerts : list Alert }.

Definition H (A : Type) : Type := Host -> A * Host.
#[global] Instance h_ret : MRet H := fun _ a h => (a, h).
#[global] Instance h_bind : MBind H := fun _ _ k m h => let '(a, h) := m h in k a h.

(** The fields of a session the handlers change. *)
Definition session_with (connection : World -> World) (state : SessionState -> SessionState)
    (events : EventRing -> EventRing) (last_thread : option Z -> option Z)
    (pending_step : option (Z * Z) -> option (Z * Z)) (suspensions : Suspensions -> Suspensions)
    (traces : TraceBuffer -> TraceBuffer) (sets : gmap string PatternStopSet -> gmap string PatternStopSet)
    (clock : MonitorClock -> MonitorClock) (s : DebugSession) : DebugSession := {|
  ds_connection := connection (ds_connection s); ds_endpoint := ds_endpoint s; ds_state := state (ds_state s);
  ds_events := events (ds_events s); ds_event_listener_task := ds_event_listener_task s;
  ds_last_thread := last_thread (ds_last_thread s); ds_pending_step := pending_step (ds_pending_step s);
  ds_suspensions := suspensions (ds_suspensions s); ds_watchdog_task := ds_watchdog_task s;
  ds_traces := traces (ds_traces s); ds_read_only := ds_read_only s; ds_source_roots := ds_source_roots s;
  ds_class_roots := ds_class_roots s; ds_trace_exprs := ds_trace_exprs s;
  ds_step_exclude_classes := ds_step_exclude_classes s; ds_step_only_classes := ds_step_only_classes s;
  ds_redefinitions := ds_redefinitions s; ds_pattern_sets := sets (ds_pattern_sets s);
  ds_launched := ds_launched s; ds_monitor_clock := clock (ds_monitor_clock s)
|}.

Definition with_connection (w : World) : DebugSession -> DebugSession :=
  session_with (fun _ => w) id id id id id id id id.
Definition with_state f : DebugSession -> DebugSession := session_with id f id id id id id id id.
Definition with_events f : DebugSession -> DebugSession := session_with id id f id id id id id id.
Definition with_last_thread t : DebugSession -> DebugSession := session_with id id id (fun _ => t) id id id id id.
Definition with_pending_step p : DebugSession -> DebugSession := session_with id id id id (fun _ => p) id id id id.
Definition with_suspensions f : DebugSession -> DebugSession := session_with id id id id id f id id id.
Definition with_traces f : DebugSession -> DebugSession := session_with id id id id id id f id id.
Definition with_pattern_sets f : DebugSession -> DebugSession := session_with id id id id id id id f id.
Definition with_monitor_clock f : DebugSession -> DebugSession := session_with id id id id id id id id f.

Definition on_session (f : DebugSession -> DebugSession) : H unit := fun h =>
  (tt, {| h_session := f (h_session h); h_ticks := h_ticks h; h_alerts := h_alerts h |}).
(** Compute an answer from the session and change it. *)
Definition of_session {A} (f : DebugSession -> A * DebugSession) : H A := fun h =>
  let '(a, s) := f (h_session h) in (a, {| h_session := s; h_ticks := h_ticks h; h_alerts := h_alerts h |}).
Definition session : H DebugSession := fun h => (h_session h, h).
(** A call on the session's connection. *)
Definition conn {A} (m : World -> A * World) : H A := fun h =>
  let '(a, w) := m (ds_connection (h_session h)) in
  (a, {| h_session := with_connection w (h_session h); h_ticks := h_ticks h; h_alerts := h_alerts h |}).
Definition on_state (f : SessionState -> SessionState) : H unit := on_session (with_state f).
Definition alert (a : Alert) : H unit := fun h =>
  (tt, {| h_session := h_session h; h_ticks := h_ticks h; h_alerts := h_alerts h ++ [a] |}).

(** A loop over a list, for its effect. *)
Fixpoint for_each {A} (l : list A) (f : A -> H unit) : H unit :=
  match l with
  | [] => mret tt
  | a :: l => _ ← f a; for_each l f
  end.

Definition map_err {E F A} (f : E -> F) (r : result E A) : result F A :=
  match r with Ok a => Ok a | Err e => Err (f e) end.

Section Handlers.
Context `{BC : BytesCrate} `{D : Debuggee} `{CL : Clock}.
Context {StopOrder : IterOrder string StopPoint} {SetOrder : IterOrder string PatternStopSet}.

Definition now : H Z := fun h =>
  (instant (h_ticks h), {| h_session := h_session h; h_ticks := S (h_ticks h); h_alerts := h_alerts h |}).

(** ** Stop points by request *)

Definition with_stop_points (f : gmap string StopPoint -> gmap string StopPoint) (s : SessionState) : SessionState := {|
  ss_stop_points := f (ss_stop_points s); ss_pending_breakpoints := ss_pending_breakpoints s;
  ss_disarmed_traced_requests := ss_disarmed_traced_requests s; ss_stop_seq := ss_stop_seq s
|}.

(** The entry [values().find(..)] comes to first. *)
Definition find_entry (p : StopPoint -> bool) (s : SessionState) : option (string * StopPoint) :=
  List.find (fun e => p (snd e)) (iter (ss_stop_points s)).
Definition find_stop_point (p : StopPoint -> bool) (s : SessionState) : option StopPoint := snd <$> find_entry p s.
(** [values_mut().find(..)], changed in place. *)
Definition change_stop_point (p : StopPoint -> bool) (f : StopPoint -> StopPoint) (s : SessionState) : SessionState :=
  match find_entry p s with
  | Some (id, _) => with_stop_points (alter f id) s
  | None => s
  end.

Definition owner (req_id : Z) (s : DebugSession) : option StopPoint :=
  find_stop_point (fun sp => owns_request sp req_id) (ds_state s).

Definition stop_point_id (req : Z) (s : DebugSession) : option string := sp_id <$> owner req s.

Definition suspending_condition (req_id : Z) (s : DebugSession) : option string := owner req_id s ≫= sp_condition.

(** The payload of a monitor stop a traced hit needs. *)
Record MonitorTraceSpec : Type := {
  mts_pair : MonitorPair;
  mts_opening : bool;
  mts_paired : bool;
  mts_min_duration_ms : option Z;
}.

Record TracedRequest : Type := {
  tq_id : string;
  tq_condition : option string;
  tq_trace_expr : list string;
  tq_trace_frames : Z;
  tq_trace_max_length : option Z;
  tq_method_filter : option string;
  tq_monitor : option MonitorTraceSpec;
}.

Definition traced_request_of (sp : StopPoint) : TracedRequest := {|
  tq_id := sp_id sp;
  tq_condition := sp_condition sp;
  tq_trace_expr := sp_trace_expr sp;
  tq_trace_frames := sp_trace_frames sp;
  tq_trace_max_length := sp_trace_max_length sp;
  tq_method_filter := method_exit sp ≫= mx_method;
  tq_monitor := (fun mon =>
    let '(p, opening) := pair_of (mo_kind mon) in
    {| mts_pair := p; mts_opening := opening; mts_paired := mo_paired mon;
       mts_min_duration_ms := mo_min_duration_ms mon |}) <$> monitor sp
|}.

Definition find_traced_request (req_id : Z) (s : DebugSession) : option TracedRequest :=
  traced_request_of <$> find_stop_point (fun sp => owns_request sp req_id && sp_trace sp) (ds_state s).

(** ** Clearing and disarming *)

(** The fields of a stop point a hit or a handler changes. *)
Definition stop_with (requests : list Z -> list Z) (enabled spent : bool -> bool) (hits : Z -> Z)
    (budget : option Z -> option Z) (cost : TraceCost -> TraceCost) (armed_on : ArmedOn -> ArmedOn)
    (sp : StopPoint) : StopPoint := {|
  sp_id := sp_id sp; sp_request_ids := requests (sp_request_ids sp); sp_enabled := enabled (sp_enabled sp);
  sp_spent := spent (sp_spent sp); sp_hit_count := sp_hit_count sp; sp_hits := hits (sp_hits sp);
  sp_condition := sp_condition sp; sp_trace := sp_trace sp; sp_trace_expr := sp_trace_expr sp;
  sp_trace_budget := budget (sp_trace_budget sp); sp_trace_frames := sp_trace_frames sp;
  sp_trace_max_length := sp_trace_max_length sp; sp_trace_cost := cost (sp_trace_cost sp);
  sp_thread_filter := sp_thread_filter sp; sp_instance_filter := sp_instance_filter sp;
  sp_armed_on := armed_on (sp_armed_on sp)
|}.

(** [request_ids.clear()] and [enabled = false]. *)
Definition disabled : StopPoint -> StopPoint := stop_with (fun _ => []) (fun _ => false) id id id id id.

(** The [Clear] of one request, under the event kind it was armed with. *)
Definition clear_request_of (armed_on : ArmedOn) (req : Z) : M unit :=
  match armed_on with
  | OnLine _ => clear_breakpoint req
  | OnException _ => clear_exception_request req
  | OnWatchpoint w => clear_field_watch req (wp_kind w)
  | OnMethodExit m => clear_method_exit_request req (mx_with_return_value m)
  | OnMonitor m => clear_monitor_request req (mo_kind m)
  end.

Fixpoint clear_requests_of (armed_on : ArmedOn) (reqs : list Z) : M unit :=
  match reqs with
  | [] => mret tt
  | req :: reqs => _ ← clear_request_of armed_on req; clear_requests_of armed_on reqs
  end.

Definition clear_stop_point_requests (sp : StopPoint) : H (result string unit) :=
  r ← conn (clear_requests_of (sp_armed_on sp) (sp_request_ids sp));
  mret (map_err display_error r).

Record Disarmed : Type := { di_id : string; di_description : string }.

Definition disarm_request (req_id : Z) : H (option Disarmed) :=
  s ← session;
  _ ← (if is_some (find_traced_request req_id s) then on_state (note_disarmed_traced req_id) else mret tt);
  s ← session;
  match owner req_id s with
  | None => mret None
  | Some sp =>
    _ ← clear_stop_point_requests sp;
    _ ← on_state (with_stop_points (alter disabled (sp_id sp)));
    mret (Some {| di_id := sp_id sp; di_description := describe_for_rescue sp |})
  end.

Definition disable_stop_point (id : string) : H (result string string) :=
  s ← session;
  match ss_stop_points (ds_state s) !! id with
  | None => mret (Err ("Stop point not found: " +s+ id))
  | Some sp =>
    cleared ← clear_stop_point_requests sp;
    match cleared with
    | Err e => mret (Err ("Failed to clear " +s+ wire_noun (sp_armed_on sp) +s+ ": " +s+ e))
    | Ok _ =>
      _ ← on_state (with_stop_points (alter disabled id));
      mret (Ok (describe (sp_armed_on sp)))
    end
  end.

(** ** Hits in flight *)

Definition note_traced_in_flight (traced : bool) (reqs : list Z) : H unit :=
  if traced then on_state (note_all reqs) else mret tt.

Definition traced_requests (s : SessionState) : list Z :=
  concat (map (fun e => sp_request_ids (snd e)) (base.filter (fun e => sp_trace (snd e)) (iter (ss_stop_points s)))).

Definition note_every_traced_request_in_flight : H unit :=
  s ← session; on_state (note_all (traced_requests (ds_state s))).

(** ** Disarming everything ([debug.panic]) *)

Definition standing_watches (s : SessionState) : list Z := omap (fun e => rearm_request (snd e)) (iter (ss_stop_points s)).

(** [let _ = session.connection.clear_class_prepare(req).await]. *)
Definition drop_class_prepare (req : Z) : H unit := _ ← conn (clear_class_prepare req); mret tt.

Definition clear_standing_rearm_watches : H unit :=
  s ← session; for_each (standing_watches (ds_state s)) drop_class_prepare.

Definition disarm_everything : H unit :=
  _ ← note_every_traced_request_in_flight;
  _ ← conn clear_all_breakpoints;
  _ ← clear_standing_rearm_watches;
  pend ← of_session (fun s =>
    (map pb_class_prepare_request_id (ss_pending_breakpoints (ds_state s)),
     with_state (fun st => {| ss_stop_points := ss_stop_points st; ss_pending_breakpoints := [];
       ss_disarmed_traced_requests := ss_disarmed_traced_requests st; ss_stop_seq := ss_stop_seq st |}) s));
  _ ← for_each pend drop_class_prepare;
  sets ← of_session (fun s =>
    (omap (fun e => watch_request_id (ps_watch (snd e))) (iter (ds_pattern_sets s)), with_pattern_sets (fun _ => ∅) s));
  _ ← for_each sets drop_class_prepare;
  survivors ← of_session (fun s =>
    (base.filter (fun sp => kind sp <> KLine) (map snd (iter (ss_stop_points (ds_state s)))),
     with_state (with_stop_points (fun _ => ∅)) s));
  _ ← for_each survivors (fun sp => _ ← clear_stop_point_requests sp; mret tt);
  on_session (with_monitor_clock clock_clear).
End Handlers.

(** ** Ownership *)

(** A request has one owner, and an entry's key is its stop point's id. *)
Record stops_ok (s : SessionState) : Prop := {
  so_keyed id sp : ss_stop_points s !! id = Some sp -> sp_id sp = id;
  so_once id id' sp sp' req : ss_stop_points s !! id = Some sp -> ss_stop_points s !! id' = Some sp' ->
    req ∈ sp_request_ids sp -> req ∈ sp_request_ids sp' -> id = id';
}.

Section Ownership.
Context {StopOrder : IterOrder string StopPoint}.

Lemma find_entry_some p s id sp :
  find_entry p s = Some (id, sp) -> ss_stop_points s !! id = Some sp /\ p sp = true.
Proof.
  unfold find_entry. intros [Hin Hp]%List.find_some. split; [|done].
  apply list_elem_of_In in Hin. rewrite iter_perm in Hin. by apply elem_of_map_to_list in Hin.
Qed.

Lemma find_entry_none p s :
  find_entry p s = None -> forall id sp, ss_stop_points s !! id = Some sp -> p sp = false.
Proof.
  unfold find_entry. intros Hn id sp Hl. apply (List.find_none _ _ Hn (id, sp)).
  apply list_elem_of_In. rewrite iter_perm. by apply elem_of_map_to_list.
Qed.

(** Under [stops_ok] the iteration order does not matter. *)
Lemma find_entry_owner s p req id sp :
  stops_ok s -> (forall x, p x = true -> req ∈ sp_request_ids x) ->
  ss_stop_points s !! id = Some sp -> p sp = true -> find_entry p s = Some (id, sp).
Proof.
  intros Hok Hp Hl Hsp. destruct (find_entry p s) as [[id' sp']|] eqn:E.
  - apply find_entry_some in E as [Hl' Hp']. assert (id' = id) as -> by (eapply so_once; eauto). by simplify_eq.
  - by rewrite (find_entry_none _ _ E _ _ Hl) in Hsp.
Qed.

Lemma owns_request_spec sp req : owns_request sp req = true <-> req ∈ sp_request_ids sp.
Proof. apply bool_decide_eq_true. Qed.

Lemma owner_spec s req sp :
  stops_ok (ds_state s) ->
  owner req s = Some sp <-> ss_stop_points (ds_state s) !! sp_id sp = Some sp /\ req ∈ sp_request_ids sp.
Proof.
  intros Hok. unfold owner, find_stop_point. split.
  - intros ([id sp'] & [Hl Ho]%find_entry_some & ->)%fmap_Some. simpl. rewrite (so_keyed _ Hok _ _ Hl).
    split; [done|]. by apply owns_request_spec.
  - intros [Hl Hr]. by erewrite find_entry_owner; [|done| |done|by apply owns_request_spec]; [|intros x; apply owns_request_spec].
Qed.

Lemma find_traced_request_spec s req :
  stops_ok (ds_state s) ->
  find_traced_request req s = (sp ← owner req s; if sp_trace sp then Some (traced_request_of sp) else None).
Proof.
  intros Hok. unfold find_traced_request, owner, find_stop_point.
  destruct (find_entry (fun sp => owns_request sp req) (ds_state s)) as [[id sp]|] eqn:E; simpl.
  - apply find_entry_some in E as [Hl Ho]. destruct (sp_trace sp) eqn:Et.
    + erewrite find_entry_owner; [done|done| |done|by rewrite Ho, Et]. intros x [Hx _]%andb_true_iff. by apply owns_request_spec.
    + destruct (find_entry (fun sp => owns_request sp req && sp_trace sp) (ds_state s)) as [[id' sp']|] eqn:E'; [|done].
      apply find_entry_some in E' as [Hl' [Ho' Ht']%andb_true_iff].
      assert (id' = id) as -> by (eapply so_once; eauto; by apply owns_request_spec). simplify_eq. congruence.
  - destruct (find_entry (fun sp => owns_request sp req && sp_trace sp) (ds_state s)) as [[id' sp']|] eqn:E'; [|done].
    apply find_entry_some in E' as [Hl' [Ho' Ht']%andb_true_iff]. by rewrite (find_entry_none _ _ E _ _ Hl') in Ho'.
Qed.

(** A change of the owner of [req] is a change of every stop point that owns it. *)
Definition change_owner (req : Z) (f : StopPoint -> StopPoint) (m : gmap string StopPoint) : gmap string StopPoint :=
  (fun sp => if owns_request sp req then f sp else sp) <$> m.

Lemma change_stop_point_owner req f s :
  stops_ok s ->
  change_stop_point (fun sp => owns_request sp req) f s = with_stop_points (change_owner req f) s.
Proof.
  intros Hok. unfold change_stop_point, change_owner.
  destruct (find_entry _ s) as [[id sp]|] eqn:E.
  - apply find_entry_some in E as [Hl Ho]. unfold with_stop_points. f_equal. apply map_eq. intros id'. rewrite lookup_fmap.
    destruct (decide (id' = id)) as [->|Hne].
    + rewrite lookup_alter_eq, Hl. simpl. by rewrite Ho.
    + rewrite lookup_alter_ne by done. destruct (ss_stop_points s !! id') as [sp'|] eqn:E'; [|done]. simpl.
      destruct (owns_request sp' req) eqn:Eo; [|done]. exfalso. apply Hne. symmetry.
      eapply so_once; eauto; by apply owns_request_spec.
  - destruct s as [m pb dt seq]. unfold with_stop_points. simpl. f_equal. symmetry. apply map_eq. intros id'.
    rewrite lookup_fmap. destruct (m !! id') as [sp'|] eqn:E'; [|done]. simpl.
    by rewrite (find_entry_none _ _ E _ _ E').
Qed.

(** What keeps ids and takes no request keeps [stops_ok]. *)
Definition narrows (f : StopPoint -> StopPoint) : Prop :=
  forall sp, sp_id (f sp) = sp_id sp /\ sp_request_ids (f sp) ⊆ sp_request_ids sp.

Lemma stops_ok_change_owner s req f :
  narrows f -> stops_ok s -> stops_ok (with_stop_points (change_owner req f) s).
Proof.
  intros Hf [H1 H2]. unfold change_owner. split; simpl.
  - intros id sp. rewrite lookup_fmap. intros (sp0 & Hl & ->)%fmap_Some. case_match; [|by apply H1].
    destruct (Hf sp0) as [-> _]. by apply H1.
  - intros id id' sp sp' r. rewrite !lookup_fmap.
    intros (a & Ha & ->)%fmap_Some (b & Hb & ->)%fmap_Some Hr Hr'. destruct (Hf a) as [_ Sa], (Hf b) as [_ Sb].
    apply (H2 id id' a b r Ha Hb); repeat case_match; auto.
Qed.
End Ownership.

Lemma stops_ok_new : stops_ok session_state_new.
Proof. split; simpl; intros *; by rewrite lookup_empty. Qed.

(** Registering a stop point whose requests nobody else has. *)
Lemma stops_ok_register sp s :
  stops_ok s -> (forall id sp' r, id <> sp_id sp -> ss_stop_points s !! id = Some sp' -> r ∈ sp_request_ids sp -> r ∉ sp_request_ids sp') ->
  stops_ok (register_stop_point sp s).
Proof.
  intros [H1 H2] Hnew. split; simpl.
  - by intros id a [[<- <-]|[_ Ha]]%lookup_insert_Some; [|apply H1].
  - intros id id' a b r [[<- <-]|[Hn Ha]]%lookup_insert_Some [[<- <-]|[Hn' Hb]]%lookup_insert_Some Hr Hr'; [done|..].
    + by destruct (Hnew id' b r).
    + by destruct (Hnew id a r).
    + by eapply H2.
Qed.
