(* ===== verification/EventPump.v ===== *)
(** * The event pump ([mcp-server/src/handlers.rs]: [try_record_trace], [store_reportable_event] and
      what they call)

    What a session does with an event set: record the hits of traced stop points and let their thread
    go, or decide whether a hit is reported, drop it or hold what it suspended, count it, spend it.

    Reading the debuggee to evaluate one leaf of a condition, to snapshot a hit and to describe an event
    is the class [Inspection]: functions of the connection without any law. *)

From S2P Require Import Prelude Protocol Types Reader Events Connection Client EventRequest StopPoint.
From S2P Require Import EventRing MonitorClock Suspensions Traces Session Manager Api Text Condition Host.

(** ** Events *)

Definition event_location (d : EventKind) : option (Z * Location) :=
  match d with
  | Breakpoint thread location | Step thread location | MethodExit thread location _
  | Exception thread location _ _ => Some (thread, location)
  | FieldAccess field | FieldModification field _ => Some (fe_thread field, fe_location field)
  | MonitorContendedEnter monitor | MonitorContendedEntered monitor | MonitorWait monitor _
  | MonitorWaited monitor _ => Some (me_thread monitor, me_location monitor)
  | _ => None
  end.

Definition monitor_of (d : EventKind) : option (MonitorEvent * MonitorKind) :=
  match d with
  | MonitorContendedEnter monitor => Some (monitor, Blocked)
  | MonitorContendedEntered monitor => Some (monitor, Acquired)
  | MonitorWait monitor _ => Some (monitor, Wait)
  | MonitorWaited monitor _ => Some (monitor, Waited)
  | _ => None
  end.

Definition event_thread (es : EventSet) : option Z :=
  e ← head (es_events es); fst <$> event_location (ev_details e).

Definition reports_suspension (d : EventKind) : bool :=
  match d with
  | Breakpoint _ _ | Step _ _ | Exception _ _ _ _ | MethodExit _ _ _ | FieldAccess _ | FieldModification _ _
  | MonitorContendedEnter _ | MonitorContendedEntered _ | MonitorWait _ _ | MonitorWaited _ _ => true
  | _ => false
  end.
Definition event_suspends (es : EventSet) : bool :=
  negb (es_suspend_policy es =? 0) && existsb (fun e => reports_suspension (ev_details e)) (es_events es).

Definition monitor_event_type_name (d : EventKind) : string :=
  match d with
  | MonitorContendedEnter _ => "monitor_blocked"
  | MonitorContendedEntered _ => "monitor_acquired"
  | MonitorWait _ _ => "monitor_wait"
  | MonitorWaited _ _ => "monitor_waited"
  | _ => "unknown"
  end.
Definition event_type_name (d : EventKind) : string :=
  match d with
  | Breakpoint _ _ => "breakpoint"
  | Step _ _ => "step"
  | Exception _ _ _ _ => "exception"
  | MethodExit _ _ _ => "method_exit"
  | MonitorContendedEnter _ | MonitorContendedEntered _ | MonitorWait _ _ | MonitorWaited _ _ =>
    monitor_event_type_name d
  | VMStart _ => "vm_start"
  | VMDeath => "vm_death"
  | ThreadStart _ => "thread_start"
  | ThreadDeath _ => "thread_death"
  | ClassPrepare _ _ _ _ => "class_prepare"
  | FieldAccess _ => "field_access"
  | FieldModification _ _ => "field_modification"
  | UnknownEvent _ => "unknown"
  end.

Definition exception_instance (d : EventKind) : option Z :=
  match d with Exception _ _ exception _ => Some exception | _ => None end.

Definition condition_bindings (d : EventKind) : ConditionBindings :=
  match d with
  | Exception _ _ exception _ => {| cb_exception := Some exception; cb_new_value := None |}
  | FieldModification _ new_value => {| cb_exception := None; cb_new_value := Some new_value |}
  | _ => {| cb_exception := None; cb_new_value := None |}
  end.

(** ** Policies *)

Definition DEFAULT_TRACE_BUDGET : Z := 200.

Definition suspend_policy_for (trace : bool) : SuspendPolicy := if trace then EventThread else SuspendAll.
Definition suspend_policy_for_line (trace conditional : bool) : SuspendPolicy :=
  if conditional then EventThread else suspend_policy_for trace.
Definition refreshed_budget (current : option Z) : option Z :=
  match current with Some 0 => Some DEFAULT_TRACE_BUDGET | other => other end.

(** ** Monitor spans *)

Inductive MonitorSpan : Type := Opened | Closed (elapsed : option Z).

Definition as_millis (d : Z) : Z := d / 1000000.

Definition monitor_hit_is_recordable (spec : MonitorTraceSpec) (span : MonitorSpan) : bool :=
  match mts_min_duration_ms spec with
  | None => true
  | Some min =>
    match span with
    | Opened | Closed None => false
    | Closed (Some d) => min <=? as_millis d
    end
  end.

Definition monitor_duration_detail (spec : MonitorTraceSpec) (span : MonitorSpan) : string * string :=
  let label := duration_label (mts_pair spec) in
  match span with
  | Opened =>
    if mts_paired spec then
      (label, "<pending — this is where it started; the matching event carries the measurement>")
    else
      (label, "<not measurable — the other half of this pair is not armed. Arm " +s+
        match mts_pair spec with Contended => "acquired" | WaitPair => "waited" end +s+ " as well>")
  | Closed (Some d) =>
    (label, pretty (as_millis d) +s+ "ms (measured by the DEBUGGER across both events — no monitor event carries a duration, so this spans OUR handling of the two, not the JVM's: on a traced stop the hit thread is held at the first event until we resume it, which makes this how long it waited AFTER we released it. It reads SHORT when our event pump was late — measured at 1ms for a thread kept off a lock 800ms — so a small figure is not evidence of a brief wait)")
  | Closed None =>
    (label, "<not measured — no matching start was seen, so this pair opened before the stop point did, its opening kind is not armed, or the pending entry was evicted>")
  end.

(** ** Reading a method's name and line *)

Definition line_at (lt : LineTable) (index : Z) : option Z :=
  lte_line_number <$>
    foldl (fun best e =>
      if lte_line_code_index e <=? index then
        match best with
        | Some b => if lte_line_code_index b <=? lte_line_code_index e then Some e else best
        | None => Some e
        end
      else best) None (lt_lines lt).

Section Reading.
Context `{BC : BytesCrate} `{D : Debuggee}.

Definition source_line (class_id method_id index : Z) : St (option Z) :=
  lt ← attempt (get_line_table class_id method_id);
  mret (match lt with Ok lt => line_at lt index | Err _ => None end).

(** [frame_method_info] without variables and without a prefetch. *)
Definition frame_method_info (location : Location) : St (string * option Z) :=
  let unnamed := "method@" +s+ show_hex (loc_method_id location) in
  methods ← attempt (get_methods (loc_class_id location));
  match methods with
  | Err _ => mret (unnamed, None)
  | Ok methods =>
    match List.find (fun m => mi_method_id m =? loc_method_id location) methods with
    | None => mret (unnamed, None)
    | Some method =>
      line ← source_line (loc_class_id location) (loc_method_id location) (loc_index location);
      mret (mi_name method, line)
    end
  end.

Definition method_name_matches (want : option string) (loc : Location) : St bool :=
  match want with
  | None => mret true
  | Some want => info ← frame_method_info loc; mret (bool_decide (fst info = want))
  end.
End Reading.

(** The parts of a handler that read the debuggee at a hit: one leaf of a condition on a frame
    ([eval_condition_leaf]), the snapshot ([capture_trace]), the description of an event for an alert
    ([describe_event_into]). *)
Class Inspection : Type := {
  leaf_value : Z -> Frame -> ConditionBindings -> chars -> World -> result string bool * World;
  capture_trace : TracedRequest -> Z -> Location -> EventKind -> World -> TraceRecord * World;
  describe_event : EventKind -> World -> JsonMap * World;
}.

Section Pump.
Context `{BC : BytesCrate} `{D : Debuggee} `{CL : Clock} `{I : Inspection}.
Context {StopOrder : IterOrder string StopPoint}.
Context {ClockOrder : IterOrder MonitorPairKey Z} {ThrowOrder : IterOrder ThrowKey RethrowChain}.

(** [evaluate_condition_on_thread], on the connection. *)
Definition condition_holds (thread : Z) (condition : string) (bindings : ConditionBindings) : St bool :=
  evaluate_condition_on_thread (get_frames thread 0 1) (leaf_value thread) (str_chars condition) bindings.

(** ** The books of a hit *)

Definition hit (sp : StopPoint) : StopPoint := stop_with id id id (fun n => sat_add_u 32 n 1) id id id sp.
Definition record_stop_point_hit (req_id : Z) : SessionState -> SessionState :=
  change_stop_point (fun sp => owns_request sp req_id) hit.

Definition discard (sp : StopPoint) : StopPoint :=
  stop_with id id id id id id (fun armed_on =>
    match armed_on with
    | OnMethodExit me =>
      OnMethodExit {| mx_discarded := sat_add_u 32 (mx_discarded me) 1; mx_class_pattern := mx_class_pattern me;
        mx_exclude_classes := mx_exclude_classes me; mx_method := mx_method me;
        mx_with_return_value := mx_with_return_value me |}
    | armed_on => armed_on
    end) sp.
Definition record_discarded_exit (req_id : Z) : SessionState -> SessionState :=
  change_stop_point (fun sp => owns_request sp req_id) discard.

Definition record_trace_cost (req_id started took : Z) : SessionState -> SessionState :=
  change_stop_point (fun sp => owns_request sp req_id) (stop_with id id id id id (record started took) id).

Definition decrement_trace_budget (req_id : Z) (s : DebugSession) : option Z * DebugSession :=
  match (sp ← owner req_id s; sp_trace_budget sp : option Z) with
  | None => (None, s)
  | Some budget =>
    let n := sat_sub budget 1 in
    (Some n, with_state (change_stop_point (fun sp => owns_request sp req_id)
               (stop_with id id id id (fun _ => Some n) id id)) s)
  end.

Definition charge_trace_budget (req_id : Z) : H (option string) :=
  remaining ← of_session (decrement_trace_budget req_id);
  match remaining with
  | Some 0 =>
    what ← disarm_request req_id;
    mret ((fun what => di_description what +s+ " stopped recording — reached its trace-hit budget and disarmed itself. Re-arm with a higher trace_max_hits if you need more.") <$> what)
  | _ => mret None
  end.

(** A counted stop point that fired once will not fire again. *)
Definition spend : StopPoint -> StopPoint := stop_with (fun _ => []) (fun _ => false) (fun _ => true) id id id id.

Definition spend_if_counted (req_id : Z) : H unit :=
  s ← session;
  match owner req_id s with
  | None => mret tt
  | Some sp =>
    match sp_hit_count sp with
    | None => mret tt
    | Some _ =>
      let survivors := base.filter (fun r => r <> req_id) (sp_request_ids sp) in
      _ ← on_state (change_stop_point (fun sp => owns_request sp req_id) spend);
      _ ← note_traced_in_flight (sp_trace sp) survivors;
      for_each survivors (fun req => _ ← conn (clear_breakpoint req); mret tt)
    end
  end.

(** ** Traced hits *)

Definition span_monitor_event (spec : MonitorTraceSpec) (details : EventKind) (at_ : Z) (s : DebugSession) :
    option MonitorSpan * DebugSession :=
  match monitor_of details with
  | None => (None, s)
  | Some (m, _) =>
    let key := {| mk_thread := me_thread m; mk_monitor := me_monitor m; mk_pair := mts_pair spec |} in
    if mts_opening spec then (Some Opened, with_monitor_clock (clock_open key at_) s)
    else
      let '(elapsed, clock) := clock_close key at_ (ds_monitor_clock s) in
      (Some (Closed elapsed), with_monitor_clock (fun _ => clock) s)
  end.

Definition add_detail (d : string * string) (rec : TraceRecord) : TraceRecord := {|
  tr_seq := tr_seq rec; tr_bp_id := tr_bp_id rec; tr_thread := tr_thread rec; tr_class := tr_class rec;
  tr_method := tr_method rec; tr_line := tr_line rec; tr_args := tr_args rec; tr_captured := tr_captured rec;
  tr_callers := tr_callers rec; tr_expr := tr_expr rec; tr_detail := tr_detail rec ++ [d]; tr_rethrow := tr_rethrow rec
|}.

Definition file_trace_record (req : TracedRequest) (span : option MonitorSpan) (rec : TraceRecord) (req_id thread : Z)
    (details : EventKind) (s : DebugSession) : ThrowKind * DebugSession :=
  let rec :=
    match tq_monitor req, span with
    | Some spec, Some span => add_detail (monitor_duration_detail spec span) rec
    | _, _ => rec
    end in
  let '(kind, traces) := trace_push rec req_id thread (exception_instance details) (ds_traces s) in
  (kind, with_traces (fun _ => traces) s).

(** [let skip = wrong_method || .. || ..]. *)
Definition skips (req : TracedRequest) (wrong_method : bool) (span : option MonitorSpan) (thread : Z)
    (details : EventKind) : H bool :=
  if wrong_method then mret true
  else if match tq_monitor req, span with
          | Some spec, Some span => negb (monitor_hit_is_recordable spec span)
          | _, _ => false
          end then mret true
  else
    match tq_condition req with
    | Some cond => holds ← conn (condition_holds thread cond (condition_bindings details)); mret (negb holds)
    | None => mret false
    end.

(** The snapshot, timed and filed, and whether it was a fresh throw. *)
Definition record_snapshot (req : TracedRequest) (span : option MonitorSpan) (req_id thread : Z) (loc : Location)
    (details : EventKind) (skip : bool) : H bool :=
  started ← now;
  snapshot ← (if skip then mret None else rec ← conn (capture_trace req thread loc details); mret (Some rec) : H (option TraceRecord));
  ended ← now;
  match snapshot with
  | None => mret false
  | Some rec =>
    _ ← on_state (record_trace_cost req_id started (saturating_duration_since ended started));
    kind ← of_session (file_trace_record req span rec req_id thread details);
    mret match kind with First => true | Rethrow _ _ => false end
  end.

Definition record_one_traced_event (event : Event) : H (option Z) :=
  match event_location (ev_details event) with
  | None => mret None
  | Some (thread, loc) =>
    let req_id := ev_request_id event in
    let details := ev_details event in
    s ← session;
    match find_traced_request req_id s with
    | None => mret (if was_traced_and_disarmed req_id (ds_state s) then Some thread else None)
    | Some req =>
      matches_ ← conn (method_name_matches (tq_method_filter req) loc);
      let wrong_method := negb matches_ in
      _ ← on_state (if wrong_method then record_discarded_exit req_id else record_stop_point_hit req_id);
      span ← match tq_monitor req with
             | Some spec => at_ ← now; of_session (span_monitor_event spec details at_)
             | None => mret None
             end;
      skip ← skips req wrong_method span thread details;
      recorded ← record_snapshot req span req_id thread loc details skip;
      _ ← (if recorded : bool then
             label ← charge_trace_budget req_id;
             match label with
             | Some label => on_session (with_traces (note_disarm label))
             | None => mret tt
             end
           else mret tt);
      _ ← spend_if_counted req_id;
      mret (Some thread)
    end
  end.

(** Every event of the set: the last thread released, and whether every event was a traced one. *)
Fixpoint record_traced_events (events : list Event) (handled : option Z) (all_ours : bool) : H (option Z * bool) :=
  match events with
  | [] => mret (handled, all_ours)
  | event :: events =>
    r ← record_one_traced_event event;
    match r with
    | Some thread => record_traced_events events (Some thread) all_ours
    | None => record_traced_events events handled false
    end
  end.

Definition try_record_trace (es : EventSet) : H bool :=
  r ← record_traced_events (es_events es) None (negb (bool_decide (es_events es = [])));
  match r with
  | (Some thread, true) => _ ← conn (resume_thread thread); mret true
  | _ => mret false
  end.

(** ** Hits that suspend *)

Definition release_dropped_hit (thread : Z) (held_thread_only : bool) : H unit :=
  if held_thread_only then _ ← conn (resume_thread thread); mret tt
  else _ ← conn resume_all; mret tt.

(** At most three threads of the list are asked. *)
Fixpoint sample_threads (hit_ : Z) (threads : list Z) (sampled : nat) : H (option bool) :=
  match threads with
  | [] => mret (if (0 <? sampled)%nat then Some true else None)
  | tid :: threads =>
    s ← session;
    if (tid =? hit_) || is_some (su_threads (ds_suspensions s) !! tid) then sample_threads hit_ threads sampled
    else
      count ← conn (suspend_count tid);
      match count with
      | Err _ => mret None
      | Ok count =>
        if count <=? 0 then mret (Some false)
        else if (S sampled =? 3)%nat then mret (Some true)
        else sample_threads hit_ threads (S sampled)
      end
  end.

Definition another_thread_is_suspended (hit_ : Z) : H (option bool) :=
  all ← conn get_all_threads;
  match all with
  | Err _ => mret None
  | Ok all => sample_threads hit_ all 0
  end.

Definition escalate_to_vm_suspend (thread : Z) : H (option FailedEscalation) :=
  r ← conn suspend_all;
  match r with
  | Ok _ => mret None
  | Err e =>
    verdict ← another_thread_is_suspended thread;
    mret (Some match verdict with
    | Some true => {| fe_vm_running := false; fe_note :=
        "the condition MATCHED and the VM-wide suspend reported an error (" +s+ display_error e +s+ "), but another thread is verified suspended, so the application does appear to be stopped after all — something on this connection is misreporting. The frame is readable and this session still holds the VM, so debug.continue is still what releases it." |}
    | verdict => {| fe_vm_running := true; fe_note :=
        "the condition MATCHED, but suspending the rest of the VM FAILED (" +s+ display_error e +s+ ") — the application is " +s+
        (if is_some verdict then "STILL" else "as far as this session can tell STILL") +s+
        " RUNNING and only the hit thread 0x" +s+ show_hex thread +s+ " is held. Its frames are readable (debug.get_stack, debug.evaluate), but anything they point at may be being mutated by another thread as you read it. debug.continue releases the thread; debug.pause retries the VM-wide suspend." |}
    end)
  end.

Definition notify_suspension (seq : Z) : H unit :=
  s ← session;
  match list.last (ring_held (ds_events s)) with
  | None => mret tt
  | Some rec =>
    match head (es_events (ev_set rec)) with
    | None => mret tt
    | Some ev =>
      description ← conn (describe_event (ev_details ev));
      s ← session;
      alert (SuspensionAlert seq (event_type_name (ev_details ev)) description
        (negb match ev_escalation rec with Some e => fe_vm_running e | None => false end)
        (fe_note <$> ev_escalation rec) (stop_point_id (ev_request_id ev) s))
    end
  end.

(** The reserved names of the event of a request. *)
Definition hit_bindings (es : EventSet) (req_id : Z) : ConditionBindings :=
  match List.find (fun e => ev_request_id e =? req_id) (es_events es) with
  | Some e => condition_bindings (ev_details e)
  | None => {| cb_exception := None; cb_new_value := None |}
  end.

(** What is decided for the first event of a set that is at a location: whether the hit is dropped, the
    escalation that failed, the request to spend. *)
Definition judge_first_event (es : EventSet) (held_thread_only : bool) (thread : Z) (loc : Location) (req_id : Z) :
    H (bool * option FailedEscalation) :=
  s ← session;
  let method_filter := (sp ← owner req_id s; me ← method_exit sp; mx_method me : option string) in
  matches_ ← (if is_some method_filter then conn (method_name_matches method_filter loc) else mret true);
  if negb matches_ then
    _ ← release_dropped_hit thread held_thread_only;
    _ ← on_state (record_discarded_exit req_id);
    mret (true, None)
  else
    _ ← on_state (record_stop_point_hit req_id);
    s ← session;
    match suspending_condition req_id s with
    | None => mret (false, None)
    | Some cond =>
      holds ← conn (condition_holds thread cond (hit_bindings es req_id));
      if holds : bool then
        if held_thread_only then escalation ← escalate_to_vm_suspend thread; mret (false, escalation)
        else mret (false, None)
      else
        _ ← release_dropped_hit thread held_thread_only; mret (true, None)
    end.

(** The thread and the request of the first event. *)
Definition first_hit (es : EventSet) : option (Z * Location * Z) :=
  e ← head (es_events es); '(thread, loc) ← event_location (ev_details e); Some (thread, loc, ev_request_id e).

(** What a reported hit holds suspended. *)
Definition mark_held (es : EventSet) (escalation : option FailedEscalation) : H unit :=
  let held_alone := match escalation with Some e => fe_vm_running e | None => false end in
  match (if held_alone then first_hit es else None) with
  | Some (tid, _, req_id) =>
    name ← conn (get_thread_name tid);
    let name := match name with Ok n => if bool_decide (n = "") then "?" else n | Err _ => "?" end in
    at_ ← now;
    on_session (with_suspensions (hold_thread_for_failed_escalation tid name at_ req_id))
  | None =>
    let cause :=
      match head (es_events es) with Some e => CauseStopPoint (ev_request_id e) | None => ManualPause end in
    at_ ← now;
    on_session (with_suspensions (mark_suspended cause at_))
  end.

Definition report (es : EventSet) (escalation : option FailedEscalation) : H unit :=
  _ ← match event_thread es with
      | Some tid => on_session (with_last_thread (Some tid))
      | None => mret tt
      end;
  let suspends := event_suspends es in
  _ ← (if suspends then mark_held es escalation else mret tt);
  seq ← of_session (fun s =>
    let '(seq, events) := ring_push es escalation (ds_events s) in (seq, with_events (fun _ => events) s));
  if suspends then notify_suspension seq else mret tt.

Definition store_reportable_event (es : EventSet) : H unit :=
  let held_thread_only := es_suspend_policy es =? policy_byte EventThread in
  verdict ← match first_hit es with
            | Some (thread, loc, req_id) => judge_first_event es held_thread_only thread loc req_id
            | None => mret (false, None)
            end;
  _ ← (if fst verdict : bool then mret tt else report es (snd verdict));
  match first_hit es with
  | Some (_, _, req_id) => spend_if_counted req_id
  | None => mret tt
  end.
End Pump.
