(* ===== verification/Steering.v ===== *)
(** * Reads that neither stop nor start the debuggee

    The packets that suspend or resume threads, and the calls of the client that never send one: what the
    event pump does between a hit and the decision about its thread. *)

From S2P Require Import Prelude Protocol Types Reader Events Connection Client EventRequest Api Text Condition Host EventPump.

(** ** The relation *)

(** The commands that suspend or resume the virtual machine or one thread. *)
Definition steering (set command : Z) : bool :=
  bool_decide ((set, command) ∈
    [(command_sets.VIRTUAL_MACHINE, vm_commands.SUSPEND); (command_sets.VIRTUAL_MACHINE, vm_commands.RESUME);
     (command_sets.THREAD_REFERENCE, thread_commands.SUSPEND); (command_sets.THREAD_REFERENCE, thread_commands.RESUME)]).
Definition steers (p : CommandPacket) : bool := steering (cp_command_set p) (cp_command p).

(** What a log offered to the wire that steers the debuggee: commands with their bodies, in order. *)
Definition steered (log : list WireEvent) : list (Z * Z * bytes) :=
  map (fun p => (cp_command_set p, cp_command p, cp_data p)) (base.filter (fun p => steers p = true) (attempts log)).

Definition steady : relation World := sends (fun p => steers p = false).

#[global] Instance steady_preorder : PreOrder steady.
Proof. split; [intros w; apply sends_refl|intros w1 w2 w3; apply sends_trans]. Qed.

Lemma steered_app l k : steered (l ++ k) = steered l ++ steered k.
Proof. unfold steered, attempts. by rewrite omap_app, list.filter_app, map_app. Qed.

Lemma steady_steered w w' : steady w w' -> steered (w_log w') = steered (w_log w).
Proof.
  intros (new & -> & HF & _). rewrite steered_app. unfold steered at 2.
  replace (base.filter _ (attempts new)) with (@nil CommandPacket); [by rewrite app_nil_r|].
  symmetry. induction HF as [|p l Hp HF IH]; [done|]. by rewrite filter_cons_False by congruence.
Qed.

Lemma still_steady {A} (m : World -> A * World) w :
  w_log (snd (m w)) = w_log w -> w_next_id (snd (m w)) = w_next_id w -> w_read_only (snd (m w)) = w_read_only w ->
  steady w (snd (m w)).
Proof. intros HL HN HR. exists []. rewrite app_nil_r. split_and!; done || constructor. Qed.

#[global] Instance Steady_with_types f : Respects steady (modify (with_types f)).
Proof. intros w. by apply still_steady. Qed.

Class MakesSteady (p : St CommandPacket) : Prop := makes_steady w : steers (fst (p w)) = false.
#[export] Hint Extern 0 (MakesSteady _) => (intros; open_request; intros ?; reflexivity) : typeclass_instances.

Section Calls.
Context `{BC : BytesCrate} `{D : Debuggee}.

#[global] Instance Steady_exchange packet : MakesPacket packet -> MakesSteady packet -> Respects steady (exchange packet).
Proof. intros Hp Hs w. apply exchange_sends; [apply send_command_one|done|apply Hs]. Qed.

#[global] Instance Steady_methods t b : Respects steady (read_methods t b).
Proof. unfold read_methods. destruct b; apply _. Qed.
#[global] Instance Steady_get_methods t : Respects steady (get_methods t).
Proof. unfold get_methods. apply Respects_bind; try apply _. intros types. case_match; apply _. Qed.
#[global] Instance Steady_line_table t m : Respects steady (get_line_table t m).
Proof. unfold get_line_table. apply _. Qed.
#[global] Instance Steady_frames t a b : Respects steady (get_frames t a b).
Proof. unfold get_frames. apply _. Qed.
#[global] Instance Steady_all_threads : Respects steady get_all_threads.
Proof. unfold get_all_threads. apply _. Qed.
#[global] Instance Steady_thread_name t : Respects steady (get_thread_name t).
Proof. unfold get_thread_name. apply _. Qed.
#[global] Instance Steady_suspend_count t : Respects steady (suspend_count t).
Proof. unfold suspend_count. apply _. Qed.
#[global] Instance Steady_clear k r : Respects steady (clear_request k r).
Proof. unfold clear_request. apply _. Qed.
#[global] Instance Steady_clear_all : Respects steady clear_all_breakpoints.
Proof. unfold clear_all_breakpoints. apply _. Qed.
#[global] Instance Steady_clear_of a r : Respects steady (clear_request_of a r).
Proof. destruct a; apply Steady_clear. Qed.
#[global] Instance Steady_clear_each a rs : Respects steady (clear_requests_of a rs).
Proof. induction rs; cbn [clear_requests_of]; apply _. Qed.

(** ** The calls that steer *)

Lemma acknowledged_steers set command body w :
  steering set command = true ->
  steered (w_log (snd ((reply ← exchange (request set command body); of_result (acknowledge reply) : M unit) w))) =
  steered (w_log w) ++ [(set, command, body)].
Proof.
  intros Hs. set (pk := with_data (new_command (w_next_id w) set command) body).
  unfold exchange, mbind, m_bind, lift, request, mbind, st_bind, next_id, mret, st_ret. fold pk.
  match goal with |- context [send_command _ ?w1] => pose proof (send_command_one pk w1) as [(new & HL & HA) _];
    destruct (send_command pk w1) as [[reply|err] w2] end; cbn [snd] in HL.
  all: unfold of_result; cbn [snd w_log] in *; rewrite HL, steered_app; f_equal; unfold steered; rewrite HA.
  all: change (cp_command_set pk) with set; assert (steers pk = true) as E by exact Hs.
  all: rewrite filter_cons_True by exact E; rewrite list.filter_nil; reflexivity.
Qed.

Lemma resume_thread_steers t w :
  steered (w_log (snd (resume_thread t w))) =
  steered (w_log w) ++ [(command_sets.THREAD_REFERENCE, thread_commands.RESUME, put_be 8 t)].
Proof. by apply acknowledged_steers. Qed.
Lemma resume_all_steers w :
  steered (w_log (snd (resume_all w))) = steered (w_log w) ++ [(command_sets.VIRTUAL_MACHINE, vm_commands.RESUME, [])].
Proof. by apply acknowledged_steers. Qed.
Lemma suspend_all_steers w :
  steered (w_log (snd (suspend_all w))) = steered (w_log w) ++ [(command_sets.VIRTUAL_MACHINE, vm_commands.SUSPEND, [])].
Proof. by apply acknowledged_steers. Qed.

#[global] Instance Steady_source_line c m i : Respects steady (source_line c m i).
Proof. unfold source_line. apply _. Qed.
#[global] Instance Steady_frame_method_info l : Respects steady (frame_method_info l).
Proof. unfold frame_method_info. apply Respects_st_bind; try apply _. intros []; [case_match|]; apply _. Qed.
#[global] Instance Steady_method_name f l : Respects steady (method_name_matches f l).
Proof. destruct f; apply _. Qed.
End Calls.

(** ** Inspections *)

(** An inspection that reads, and may invoke methods, but suspends and resumes nothing itself. *)
Class QuietInspection (I : Inspection) : Prop := {
  leaf_steady t f b l : Respects steady (leaf_value t f b l);
  capture_steady q t l d : Respects steady (capture_trace q t l d);
  describe_steady d : Respects steady (describe_event d);
}.
#[global] Existing Instance leaf_steady.
#[global] Existing Instance capture_steady.
#[global] Existing Instance describe_steady.

Lemma Respects_tree (Q : relation World) `{PreOrder World Q} (leaf_eval : chars -> World -> result string bool * World) :
  (forall l, Respects Q (leaf_eval l)) -> forall t, Respects Q (eval_bool_tree_on_frame leaf_eval t).
Proof.
  intros Hl t. remember (tree_size t) as n eqn:En. revert t En. induction (lt_wf n) as [n _ IH]. intros t -> w.
  destruct t as [bs|bs|t|l]; cbn [tree_size] in IH; [| | |apply Hl].
  1, 2: assert (forall b, In b bs -> Respects Q (eval_bool_tree_on_frame leaf_eval b)) as K
    by (intros b Hb; by apply (IH _ (branch_smaller _ _ Hb))); clear IH.
  - revert w. induction bs as [|b bs IHb]; intros w; [done|]. cbn. pose proof (K b ltac:(by left) w) as E.
    cbn in E. destruct (eval_bool_tree_on_frame leaf_eval b w) as [[[]|] w1]; [done| |done].
    transitivity w1; [done|]. apply IHb. intros; apply K; by right.
  - revert w. induction bs as [|b bs IHb]; intros w; [done|]. cbn. pose proof (K b ltac:(by left) w) as E.
    cbn in E. destruct (eval_bool_tree_on_frame leaf_eval b w) as [[[]|] w1]; [|done..].
    transitivity w1; [done|]. apply IHb. intros; apply K; by right.
  - cbn. pose proof (IH (tree_size t) ltac:(lia) t eq_refl w) as E.
    destruct (eval_bool_tree_on_frame leaf_eval t w) as [[[]|] w1]; done.
Qed.

#[global] Instance Steady_condition `{BC : BytesCrate} `{D : Debuggee} `{I : Inspection} {QI : QuietInspection I} t c b :
  Respects steady (condition_holds t c b).
Proof.
  intros w. unfold condition_holds, evaluate_condition_on_thread.
  pose proof (Steady_frames t 0 1 w) as E. destruct (get_frames t 0 1 w) as [[[|f fs]|e] w1]; [done| |done].
  pose proof (Respects_tree steady (leaf_value t f b) _ (parse_bool_tree (bind_object_heads (str_chars c) (object_heads b))) w1) as E1.
  unfold eval_condition. destruct (eval_bool_tree_on_frame _ _ w1) as [r w2]. by transitivity w1.
Qed.
