(* ===== verification/PumpFacts.v ===== *)
(** * What a hit does to the books

    The event pump run symbolically: [put] is a host of which the pump's part (connection, stop points,
    traces, monitor clock, clock readings) is replaced and nothing else, so that an operation proved to
    end in a [put] changed nothing the caller reads elsewhere. *)

From S2P Require Import Prelude Protocol Types Reader Events Connection Client EventRequest StopPoint.
From S2P Require Import EventRing MonitorClock Suspensions Traces Session Manager Api Text Condition Host EventPump Steering.

(** ** Running the pump *)

Record PumpState : Type := {
  pu_wire : World; pu_state : SessionState; pu_traces : TraceBuffer; pu_clock : MonitorClock; pu_ticks : nat
}.

Definition pump_of (h : Host) : PumpState := {|
  pu_wire := ds_connection (h_session h); pu_state := ds_state (h_session h); pu_traces := ds_traces (h_session h);
  pu_clock := ds_monitor_clock (h_session h); pu_ticks := h_ticks h
|}.

Definition put (h : Host) (p : PumpState) : Host := {|
  h_session := session_with (fun _ => pu_wire p) (fun _ => pu_state p) id id id id (fun _ => pu_traces p) id
                 (fun _ => pu_clock p) (h_session h);
  h_ticks := pu_ticks p;
  h_alerts := h_alerts h
|}.

Definition wire_in (w : World) (p : PumpState) : PumpState :=
  {| pu_wire := w; pu_state := pu_state p; pu_traces := pu_traces p; pu_clock := pu_clock p; pu_ticks := pu_ticks p |}.
Definition state_in (s : SessionState) (p : PumpState) : PumpState :=
  {| pu_wire := pu_wire p; pu_state := s; pu_traces := pu_traces p; pu_clock := pu_clock p; pu_ticks := pu_ticks p |}.
Definition traces_in (t : TraceBuffer) (p : PumpState) : PumpState :=
  {| pu_wire := pu_wire p; pu_state := pu_state p; pu_traces := t; pu_clock := pu_clock p; pu_ticks := pu_ticks p |}.
Definition clock_in (c : MonitorClock) (p : PumpState) : PumpState :=
  {| pu_wire := pu_wire p; pu_state := pu_state p; pu_traces := pu_traces p; pu_clock := c; pu_ticks := pu_ticks p |}.
Definition tick (p : PumpState) : PumpState :=
  {| pu_wire := pu_wire p; pu_state := pu_state p; pu_traces := pu_traces p; pu_clock := pu_clock p; pu_ticks := S (pu_ticks p) |}.

Lemma put_pump_of h : put h (pump_of h) = h.
Proof. by destruct h as [[] ? ?]. Qed.

Lemma bind_run {A B} (m : H A) (k : A -> H B) h a h1 : m h = (a, h1) -> (m ≫= k) h = k a h1.
Proof. intros E. unfold mbind, h_bind. by rewrite E. Qed.

Lemma conn_put {A} (m : World -> A * World) h p :
  conn m (put h p) = (fst (m (pu_wire p)), put h (wire_in (snd (m (pu_wire p))) p)).
Proof. unfold conn. simpl. by destruct (m (pu_wire p)). Qed.

(** The pump's part after [p] differs from [p] only on the wire, which grew by reads. *)
Definition read_more (p p' : PumpState) : Prop := exists w, p' = wire_in w p /\ steady (pu_wire p) w.

Lemma read_more_refl p : read_more p p.
Proof. exists (pu_wire p). split; [by destruct p|reflexivity]. Qed.

Lemma read_more_trans p1 p2 p3 : read_more p1 p2 -> read_more p2 p3 -> read_more p1 p3.
Proof. intros (w & -> & Hw) (w' & -> & Hw'). exists w'. split; [done|]. by transitivity w. Qed.

Lemma conn_reads {A} (m : World -> A * World) h p :
  Respects steady m -> exists a p', conn m (put h p) = (a, put h p') /\ a = fst (m (pu_wire p)) /\ read_more p p'.
Proof. intros Hm. rewrite conn_put. do 2 eexists. split; [done|]. split; [done|]. eexists. split; [done|apply Hm]. Qed.

(** A loop of reads. *)
Lemma for_each_reads {A B} (l : list A) (m : A -> World -> B * World) h p :
  (forall a, Respects steady (m a)) ->
  exists p', for_each l (fun a => _ ← conn (m a); mret tt) (put h p) = (tt, put h p') /\ read_more p p'.
Proof.
  intros Hm. revert p. induction l as [|a l IH]; intros p; cbn [for_each].
  { exists p. split; [done|apply read_more_refl]. }
  destruct (conn_reads (m a) h p (Hm a)) as (b & p1 & E & _ & R1). destruct (IH p1) as (p2 & E2 & R2).
  exists p2. split; [|by eapply read_more_trans].
  erewrite bind_run; [exact E2|]. by erewrite bind_run; [|exact E].
Qed.

(** ** One stop point of a session *)

Definition set_stop (id : string) (sp : StopPoint) (s : SessionState) : SessionState := with_stop_points (<[id := sp]>) s.

(** [sp] is the stop point [id] of a well-formed session. *)
Record entry (s : SessionState) (id : string) (sp : StopPoint) : Prop := {
  en_ok : stops_ok s; en_at : ss_stop_points s !! id = Some sp
}.

Lemma entry_id s id sp : entry s id sp -> sp_id sp = id.
Proof. intros [Hok Hl]. by apply (so_keyed _ Hok). Qed.

Lemma set_stop_again id sp sp' s : set_stop id sp (set_stop id sp' s) = set_stop id sp s.
Proof. unfold set_stop, with_stop_points. simpl. by rewrite insert_insert_eq. Qed.

Lemma note_all_app r1 r2 s : note_all (r1 ++ r2) s = note_all r2 (note_all r1 s).
Proof. apply foldl_app. Qed.

Lemma note_all_set_stop rs id sp s : note_all rs (set_stop id sp s) = set_stop id sp (note_all rs s).
Proof. unfold note_all. revert s. induction rs as [|r rs IH]; intros s; [done|]. cbn [foldl]. by rewrite <- IH. Qed.

Lemma entry_note rs s id sp : entry s id sp -> entry (note_all rs s) id sp.
Proof.
  intros [[H1 H2] Hl]. destruct (note_all_queue rs s) as (_ & Hs & _). split; [split|]; rewrite Hs; done.
Qed.

Lemma entry_set s id sp sp' :
  entry s id sp -> sp_id sp' = sp_id sp -> sp_request_ids sp' ⊆ sp_request_ids sp -> entry (set_stop id sp' s) id sp'.
Proof.
  intros [[H1 H2] Hl] Hid Hsub. split; [|by simpl; rewrite lookup_insert_eq].
  assert (K : forall k a, <[id := sp']> (ss_stop_points s) !! k = Some a ->
    exists b, ss_stop_points s !! k = Some b /\ sp_id a = sp_id b /\ sp_request_ids a ⊆ sp_request_ids b).
  { intros k a [[<- <-]|[Hne Hk]]%lookup_insert_Some; [by exists sp|by exists a]. }
  split; simpl.
  - intros k a (b & Hb & -> & _)%K. by apply H1.
  - intros k k' a a' r (b & Hb & _ & Sb)%K (b' & Hb' & _ & Sb')%K Hr Hr'. by eapply H2; eauto.
Qed.

Section Facts.
Context `{BC : BytesCrate} `{D : Debuggee} `{CL : Clock} `{I : Inspection} {QI : QuietInspection I}.
Context {StopOrder : IterOrder string StopPoint}.
Context {ClockOrder : IterOrder MonitorPairKey Z} {ThrowOrder : IterOrder ThrowKey RethrowChain}.

Lemma entry_owner h p id sp req :
  entry (pu_state p) id sp -> req ∈ sp_request_ids sp -> owner req (h_session (put h p)) = Some sp.
Proof. intros He Hr. apply owner_spec; simpl; [apply He|]. rewrite (entry_id _ _ _ He). by split; [apply He|]. Qed.

(** Nobody owns the requests a stop point gave up. *)
Lemma entry_disowned h p id sp sp' req :
  entry (pu_state p) id sp -> req ∈ sp_request_ids sp -> sp_id sp' = sp_id sp -> sp_request_ids sp' ⊆ sp_request_ids sp ->
  req ∉ sp_request_ids sp' -> owner req (h_session (put h (state_in (set_stop id sp' (pu_state p)) p))) = None.
Proof.
  intros He Hr Hid Hsub Hno. destruct (owner req _) as [a|] eqn:E; [|done]. exfalso.
  apply owner_spec in E as [Hl Hra]; [|simpl; by apply (entry_set _ _ sp sp')]. simpl in Hl.
  apply lookup_insert_Some in Hl as [[_ <-]|[Hne Hl]]; [done|].
  apply Hne. eapply so_once; [apply He|apply He|exact Hl|done|done].
Qed.

Lemma change_entry s id sp req f :
  entry s id sp -> req ∈ sp_request_ids sp ->
  change_stop_point (fun sp => owns_request sp req) f s = set_stop id (f sp) s.
Proof.
  intros [Hok Hl] Hr. unfold change_stop_point.
  erewrite find_entry_owner; [|done| |exact Hl|by apply owns_request_spec]; [|intros x; apply owns_request_spec].
  unfold set_stop, with_stop_points. f_equal. apply map_eq. intros k.
  destruct (decide (k = id)) as [->|Hne].
  - by rewrite lookup_alter_eq, lookup_insert_eq, Hl.
  - by rewrite lookup_alter_ne, lookup_insert_ne.
Qed.

Lemma alter_entry s id sp f : entry s id sp -> with_stop_points (alter f id) s = set_stop id (f sp) s.
Proof.
  intros [Hok Hl]. unfold set_stop, with_stop_points. f_equal. apply map_eq. intros k.
  destruct (decide (k = id)) as [->|Hne].
  - by rewrite lookup_alter_eq, lookup_insert_eq, Hl.
  - by rewrite lookup_alter_ne, lookup_insert_ne.
Qed.

(** ** Disarming and spending one entry *)

(** What the pump's part becomes when the state is set to [s] and reads are made. *)
Definition moves (p : PumpState) (s : SessionState) (p' : PumpState) : Prop := read_more (state_in s p) p'.

Lemma moves_state p s p' : moves p s p' -> pu_state p' = s.
Proof. by intros (w & -> & _). Qed.

Lemma disarm_entry h p id sp req :
  entry (pu_state p) id sp -> req ∈ sp_request_ids sp ->
  exists p', disarm_request req (put h p) =
      (Some {| di_id := sp_id sp; di_description := describe_for_rescue sp |}, put h p') /\
    moves p (set_stop id (disabled sp) (note_all (if sp_trace sp then [req] else []) (pu_state p))) p'.
Proof.
  intros He Hr. unfold disarm_request. erewrite bind_run; [|reflexivity].
  rewrite find_traced_request_spec by (apply He). rewrite (entry_owner _ _ _ _ _ He Hr). simpl.
  set (notes := if sp_trace sp then [req] else []).
  set (p1 := state_in (note_all notes (pu_state p)) p).
  assert (E : (if is_some (if sp_trace sp then Some (traced_request_of sp) else None)
    then on_state (note_disarmed_traced req) else mret tt) (put h p) = (tt, put h p1)).
  { unfold p1, notes. destruct (sp_trace sp); [done|]. by destruct p. }
  erewrite bind_run; [|exact E]. clear E. erewrite bind_run; [|reflexivity].
  assert (He1 : entry (pu_state p1) id sp) by (by apply entry_note).
  rewrite (entry_owner h p1 _ _ _ He1 Hr).
  destruct (conn_reads (clear_requests_of (sp_armed_on sp) (sp_request_ids sp)) h p1 _) as (a & p2 & E2 & _ & w & -> & Hw).
  erewrite bind_run; [|unfold clear_stop_point_requests; by erewrite bind_run; [|exact E2]].
  erewrite bind_run; [|reflexivity].
  exists (state_in (set_stop id (disabled sp) (pu_state p1)) (wire_in w p1)). split.
  - rewrite (entry_id _ _ _ He). rewrite <- (alter_entry (pu_state p1) id sp disabled He1). reflexivity.
  - exists w. split; [done|exact Hw].
Qed.

Lemma spend_entry h p id sp req :
  entry (pu_state p) id sp -> req ∈ sp_request_ids sp ->
  exists p', spend_if_counted req (put h p) = (tt, put h p') /\
    moves p (match sp_hit_count sp with
             | Some _ => set_stop id (spend sp)
                 (note_all (if sp_trace sp then base.filter (fun r => r <> req) (sp_request_ids sp) else []) (pu_state p))
             | None => pu_state p
             end) p'.
Proof.
  intros He Hr. unfold spend_if_counted. erewrite bind_run; [|reflexivity]. rewrite (entry_owner _ _ _ _ _ He Hr).
  destruct (sp_hit_count sp) as [n|].
  2: { exists p. split; [done|]. exists (pu_wire p). split; [by destruct p|reflexivity]. }
  set (survivors := base.filter _ _). set (s' := set_stop id (spend sp) (note_all _ _)).
  erewrite bind_run; [|reflexivity].
  erewrite (bind_run _ _ _ tt (put h (state_in s' p))).
  - destruct (for_each_reads survivors (fun r => clear_breakpoint r) h (state_in s' p) _) as (p' & E & R).
    exists p'. split; [exact E|exact R].
  - unfold s'. rewrite <- note_all_set_stop, <- (change_entry (pu_state p) id sp req spend He Hr).
    unfold note_traced_in_flight. by destruct (sp_trace sp).
Qed.

Lemma spend_nobody h p req :
  owner req (h_session (put h p)) = None -> spend_if_counted req (put h p) = (tt, put h p).
Proof. intros Hn. unfold spend_if_counted. erewrite bind_run; [|reflexivity]. by rewrite Hn. Qed.

(** ** One traced hit *)

(** The stop point after a hit that its method filter let pass or not, and that was filed as [cost]. *)
Definition counted_hit (wrong_method : bool) (sp : StopPoint) : StopPoint := if wrong_method then discard sp else hit sp.
Definition costed (cost : option (Z * Z)) (sp : StopPoint) : StopPoint :=
  match cost with Some (started, took) => stop_with id id id id id (record started took) id sp | None => sp end.
Definition charged (sp : StopPoint) : StopPoint := stop_with id id id id (fmap (fun b => sat_sub b 1)) id id sp.

(** The last snapshot the budget allows. *)
Definition exhausts (sp : StopPoint) : bool := bool_decide (sp_trace_budget (charged sp) = Some 0).

Definition disarm_label (sp : StopPoint) : string :=
  describe_for_rescue sp +s+ " stopped recording — reached its trace-hit budget and disarmed itself. Re-arm with a higher trace_max_hits if you need more.".

Lemma charge_entry h p id sp req :
  entry (pu_state p) id sp -> req ∈ sp_request_ids sp ->
  exists p', charge_trace_budget req (put h p) =
      (if exhausts sp then Some (disarm_label sp) else None, put h p') /\
    moves p (if exhausts sp
             then set_stop id (disabled (charged sp)) (note_all (if sp_trace sp then [req] else []) (pu_state p))
             else set_stop id (charged sp) (pu_state p)) p'.
Proof.
  intros He Hr. unfold charge_trace_budget, exhausts, charged. set (sp1 := stop_with _ _ _ _ _ _ _ sp).
  assert (He1 : entry (set_stop id sp1 (pu_state p)) id sp1) by (by apply (entry_set _ _ sp)).
  destruct (sp_trace_budget sp) as [b|] eqn:Eb.
  - set (p1 := state_in (set_stop id sp1 (pu_state p)) p).
    erewrite (bind_run _ _ _ (Some (sat_sub b 1)) (put h p1)).
    2: { unfold of_session, decrement_trace_budget. rewrite (entry_owner _ _ _ _ _ He Hr). cbn [mbind option_bind]. rewrite Eb.
      assert (Hf : sp1 = stop_with Datatypes.id Datatypes.id Datatypes.id Datatypes.id (fun _ => Some (sat_sub b 1)) Datatypes.id Datatypes.id sp) by (unfold sp1, stop_with; by rewrite Eb).
      unfold p1. rewrite Hf, <- (change_entry (pu_state p) id sp req _ He Hr). reflexivity. }
    simpl sp_trace_budget. rewrite Eb. simpl fmap. case_bool_decide as H0.
    + injection H0 as ->. destruct (disarm_entry h p1 id sp1 req He1 Hr) as (p' & E & M).
      exists p'. split; [by erewrite bind_run; [|exact E]|].
      unfold p1 in M. simpl in M. by rewrite note_all_set_stop, set_stop_again in M.
    + exists p1. split; [|by apply read_more_refl]. by destruct (sat_sub b 1).
  - exists p. assert (sp1 = sp) as E1 by (unfold sp1, stop_with; rewrite Eb; by destruct sp; simpl in *; rewrite Eb).
    erewrite (bind_run _ _ _ None (put h p)).
    2: { unfold of_session, decrement_trace_budget. rewrite (entry_owner _ _ _ _ _ He Hr). simpl. by rewrite Eb. }
    rewrite bool_decide_eq_false_2 by (unfold sp1; simpl; by rewrite Eb). rewrite E1.
    split; [done|]. exists (pu_wire p). split; [|reflexivity].
    assert (set_stop id sp (pu_state p) = pu_state p) as ->; [|by destruct p].
    unfold set_stop, with_stop_points. rewrite insert_id by apply He. by destruct (pu_state p).
Qed.

Lemma skips_reads req wrong span thread d h p :
  exists b p', skips req wrong span thread d (put h p) = (b, put h p') /\ read_more p p' /\ (wrong = true -> b = true) /\
    (wrong = false -> tq_condition req = None -> tq_monitor req = None -> b = false).
Proof.
  unfold skips. destruct wrong; [exists true, p; split_and!; [done|apply read_more_refl|done|done]|].
  match goal with |- context [if ?c then mret true else _] => destruct c eqn:Ec end.
  { exists true, p. split_and!; [done|apply read_more_refl|done|]. intros _ _ Hm. by rewrite Hm in Ec. }
  destruct (tq_condition req) as [cond|]; [|exists false, p; split_and!; [done|apply read_more_refl|done|done]].
  destruct (conn_reads (condition_holds thread cond (condition_bindings d)) h p _) as (a & p' & E & _ & R).
  exists (negb a), p'. split_and!; [by erewrite bind_run; [|exact E]|done|done|done].
Qed.

(** What filing [rec] does to the traces. *)
Definition filed (rec : option TraceRecord) (req thread : Z) (d : EventKind) (b : TraceBuffer) : option ThrowKind * TraceBuffer :=
  match rec with
  | Some rec => let '(kind, b) := trace_push rec req thread (exception_instance d) b in (Some kind, b)
  | None => (None, b)
  end.
Definition fresh (kind : option ThrowKind) : bool := match kind with Some First => true | _ => false end.

Lemma snapshot_entry rq span req thread loc d skip h p id sp :
  entry (pu_state p) id sp -> req ∈ sp_request_ids sp ->
  exists rec cost w k, record_snapshot rq span req thread loc d skip (put h p) =
      (fresh (fst (filed rec req thread d (pu_traces p))),
       put h {| pu_wire := w; pu_state := set_stop id (costed cost sp) (pu_state p);
                pu_traces := snd (filed rec req thread d (pu_traces p)); pu_clock := pu_clock p; pu_ticks := k |}) /\
    steady (pu_wire p) w /\ (rec = None <-> skip = true).
Proof.
  intros He Hr. unfold record_snapshot. destruct skip.
  - exists None, None, (pu_wire p), (S (S (pu_ticks p))). split_and!; [|reflexivity|done].
    do 3 (erewrite bind_run; [|reflexivity]). cbn [filed fresh fst snd costed].
    assert (set_stop id sp (pu_state p) = pu_state p) as ->; [|done].
    unfold set_stop, with_stop_points. rewrite insert_id by apply He. by destruct (pu_state p).
  - erewrite bind_run; [|reflexivity].
    destruct (conn_reads (capture_trace rq thread loc d) h (tick p) _) as (r & p2 & E & _ & w & -> & Hw).
    erewrite bind_run; [|by erewrite bind_run; [|exact E]]. erewrite bind_run; [|reflexivity].
    set (cost := Some (instant (pu_ticks p), saturating_duration_since (instant (S (pu_ticks p))) (instant (pu_ticks p)))).
    set (p3 := state_in (set_stop id (costed cost sp) (pu_state p)) (tick (wire_in w (tick p)))).
    erewrite (bind_run _ _ _ tt (put h p3)).
    2: { unfold p3, cost, costed. by rewrite <- (change_entry (pu_state p) id sp req _ He Hr). }
    exists (Some match tq_monitor rq, span with
      | Some spec, Some span => add_detail (monitor_duration_detail spec span) r | _, _ => r end), cost, w, (S (S (pu_ticks p))).
    split_and!; [|exact Hw|done]. cbn [filed].
    unfold mbind, h_bind, of_session, file_trace_record.
    change (ds_traces (h_session (put h p3))) with (pu_traces p).
    destruct (trace_push _ req thread (exception_instance d) _) as [kind traces]. by destruct kind.
Qed.

(** What the debuggee answered about one hit: its method was another one, the snapshot taken, its cost. *)
Record Verdict : Type := { ve_wrong : bool; ve_record : option TraceRecord; ve_cost : option (Z * Z) }.

Section Verdict.
Context (req thread : Z) (d : EventKind) (b : TraceBuffer) (v : Verdict) (sp : StopPoint).

Definition hit_filing : option ThrowKind * TraceBuffer := filed (ve_record v) req thread d b.
Definition hit_counted : StopPoint := costed (ve_cost v) (counted_hit (ve_wrong v) sp).
Definition hit_charged : StopPoint := if fresh (fst hit_filing) then charged hit_counted else hit_counted.
Definition hit_exhausts : bool := fresh (fst hit_filing) && exhausts hit_counted.
Definition hit_stop : StopPoint :=
  if hit_exhausts then disabled hit_charged
  else if is_some (sp_hit_count sp) then spend hit_charged else hit_charged.
Definition hit_noted : list Z :=
  if hit_exhausts then [req]
  else if is_some (sp_hit_count sp) then base.filter (fun r => r <> req) (sp_request_ids sp) else [].
Definition hit_traces : TraceBuffer :=
  if hit_exhausts then note_disarm (disarm_label hit_counted) (snd hit_filing) else snd hit_filing.

Lemma hit_counted_frame :
  sp_id hit_counted = sp_id sp /\ sp_request_ids hit_counted = sp_request_ids sp /\ sp_trace hit_counted = sp_trace sp /\
  sp_hit_count hit_counted = sp_hit_count sp /\ sp_trace_budget hit_counted = sp_trace_budget sp /\
  sp_enabled hit_counted = sp_enabled sp /\ sp_spent hit_counted = sp_spent sp.
Proof. unfold hit_counted, costed, counted_hit. by destruct (ve_cost v) as [[? ?]|], (ve_wrong v). Qed.
End Verdict.

Lemma counted_step wrong req s id sp :
  entry s id sp -> req ∈ sp_request_ids sp ->
  (if wrong : bool then record_discarded_exit req else record_stop_point_hit req) s =
  set_stop id (counted_hit wrong sp) s.
Proof. intros He Hr. destruct wrong; by apply change_entry. Qed.

Lemma span_step spec d at_ h p :
  exists span c, of_session (span_monitor_event spec d at_) (put h p) = (span, put h (clock_in c p)).
Proof.
  unfold of_session, span_monitor_event. destruct (monitor_of d) as [[m k]|].
  2: { exists None, (pu_clock p). by destruct p. }
  destruct (mts_opening spec); [by do 2 eexists|].
  destruct (clock_close _ at_ (ds_monitor_clock (h_session (put h p)))) as [e c]. by do 2 eexists.
Qed.

(** After the snapshot: the budget, and the count. *)
Lemma settle_hit (recorded : bool) h p id sp req thread :
  entry (pu_state p) id sp -> req ∈ sp_request_ids sp -> sp_trace sp = true ->
  let out := recorded && exhausts sp in
  let sp2 := if recorded then charged sp else sp in
  exists p', (_ ← (if recorded then
        label ← charge_trace_budget req;
        match label with Some label => on_session (with_traces (note_disarm label)) | None => mret tt end
      else mret tt);
    _ ← spend_if_counted req; mret (Some thread) : H (option Z)) (put h p) = (Some thread, put h p') /\
    steady (pu_wire p) (pu_wire p') /\
    pu_state p' = set_stop id (if out then disabled sp2 else if is_some (sp_hit_count sp) then spend sp2 else sp2)
      (note_all (if out then [req] else if is_some (sp_hit_count sp) then base.filter (fun r => r <> req) (sp_request_ids sp) else [])
        (pu_state p)) /\
    pu_traces p' = (if out then note_disarm (disarm_label sp) (pu_traces p) else pu_traces p).
Proof.
  intros He Hr Ht out sp2.
  assert (Hid : forall s, entry s id sp -> set_stop id sp s = s).
  { intros s Hs. unfold set_stop, with_stop_points. rewrite insert_id by apply Hs. by destruct s. }
  assert (E : exists p1, (if recorded then
        label ← charge_trace_budget req;
        match label with Some label => on_session (with_traces (note_disarm label)) | None => mret tt end
      else mret tt) (put h p) = (tt, put h p1) /\ steady (pu_wire p) (pu_wire p1) /\
    pu_state p1 = set_stop id (if out then disabled sp2 else sp2) (note_all (if out then [req] else []) (pu_state p)) /\
    pu_traces p1 = (if out then note_disarm (disarm_label sp) (pu_traces p) else pu_traces p)).
  { unfold out, sp2. clear out sp2. destruct recorded; cbn [andb].
    - destruct (charge_entry h p id sp req He Hr) as (p1 & E & w & -> & Hw). rewrite Ht in E, Hw.
      erewrite bind_run; [|exact E]. destruct (exhausts sp).
      + exists (traces_in (note_disarm (disarm_label sp) (pu_traces p)) (wire_in w (state_in (set_stop id (disabled (charged sp)) (note_all [req] (pu_state p))) p))).
        by split_and!.
      + by eexists.
    - exists p. split_and!; [done|reflexivity| |done]. symmetry. by apply Hid. }
  destruct E as (p1 & E & W1 & S1 & T1). erewrite bind_run; [|exact E]. clear E.
  destruct out eqn:Eo.
  - exists p1. split_and!; [|done..]. erewrite bind_run; [done|]. apply spend_nobody.
    destruct (owner req (h_session (put h p1))) as [a|] eqn:Ea; [|done]. exfalso.
    apply (entry_note [req]) in He.
    assert (Hp : put h p1 = put h (state_in (set_stop id (disabled sp2) (note_all [req] (pu_state p))) p1)).
    { rewrite <- S1. by destruct p1. }
    rewrite Hp in Ea.
    assert (He' : entry (pu_state (state_in (note_all [req] (pu_state p)) p1)) id sp) by done.
    pose proof (entry_disowned h _ id sp (disabled sp2) req He' Hr) as K.
    change (state_in (set_stop id (disabled sp2) (pu_state (state_in (note_all [req] (pu_state p)) p1)))
      (state_in (note_all [req] (pu_state p)) p1)) with
      (state_in (set_stop id (disabled sp2) (note_all [req] (pu_state p))) p1) in K.
    rewrite Ea in K. unfold sp2 in K. by destruct recorded; discriminate K; first [done | set_solver].
  - assert (He1 : entry (pu_state p1) id sp2).
    { rewrite S1. apply (entry_set _ _ sp); [done|unfold sp2; by destruct recorded..]. }
    assert (Hr1 : req ∈ sp_request_ids sp2) by (unfold sp2; by destruct recorded).
    destruct (spend_entry h p1 id sp2 req He1 Hr1) as (p2 & E & w & -> & Hw).
    assert (Hf : sp_hit_count sp2 = sp_hit_count sp /\ sp_trace sp2 = true /\ sp_request_ids sp2 = sp_request_ids sp)
      by (unfold sp2; by destruct recorded).
    destruct Hf as (Hc & Ht2 & Hr2). rewrite Hc, Ht2, Hr2 in E, Hw.
    eexists. split_and!; [by erewrite bind_run; [|exact E]|by transitivity (pu_wire p1)| |done].
    cbn [pu_state wire_in state_in]. rewrite S1. destruct (sp_hit_count sp); cbn [is_some]; [|done].
    by rewrite note_all_set_stop, set_stop_again.
Qed.

Lemma traced_hit h p id sp e thread loc :
  entry (pu_state p) id sp -> ev_request_id e ∈ sp_request_ids sp -> sp_trace sp = true ->
  event_location (ev_details e) = Some (thread, loc) ->
  exists v p', record_one_traced_event e (put h p) = (Some thread, put h p') /\
    steady (pu_wire p) (pu_wire p') /\ (ve_wrong v = true -> ve_record v = None) /\
    ((me ← method_exit sp; mx_method me) = None -> ve_wrong v = false) /\
    (ve_wrong v = false -> sp_condition sp = None -> monitor sp = None -> is_Some (ve_record v)) /\
    let b := pu_traces p in let req := ev_request_id e in let d := ev_details e in
    pu_state p' = set_stop id (hit_stop req thread d b v sp) (note_all (hit_noted req thread d b v sp) (pu_state p)) /\
    pu_traces p' = hit_traces req thread d b v sp.
Proof.
  intros He Hr Ht Hl. unfold record_one_traced_event. rewrite Hl. set (req := ev_request_id e). set (d := ev_details e).
  erewrite bind_run; [|reflexivity].
  rewrite find_traced_request_spec by (apply He). rewrite (entry_owner _ _ _ _ _ He Hr). cbn [mbind option_bind]. rewrite Ht.
  set (rq := traced_request_of sp).
  destruct (conn_reads (method_name_matches (tq_method_filter rq) loc) h p _) as (ok & p1 & E1 & Hok & w1 & -> & W1).
  erewrite bind_run; [|exact E1]. set (wrong := negb ok). clear E1.
  set (sp1 := counted_hit wrong sp).
  assert (He1 : entry (set_stop id sp1 (pu_state p)) id sp1) by (by apply (entry_set _ _ sp); [|unfold sp1; by destruct wrong..]).
  assert (Hr1 : req ∈ sp_request_ids sp1) by (unfold sp1; by destruct wrong).
  erewrite (bind_run _ _ _ tt (put h (state_in (set_stop id sp1 (pu_state p)) (wire_in w1 p)))).
  2: { unfold sp1. by rewrite <- (counted_step wrong req (pu_state p) id sp He Hr). }
  set (p2 := state_in _ _).
  assert (S : exists span c k, (match tq_monitor rq with
      | Some spec => at_ ← now; of_session (span_monitor_event spec d at_)
      | None => mret None
      end : H (option MonitorSpan)) (put h p2) =
    (span, put h {| pu_wire := w1; pu_state := pu_state p2; pu_traces := pu_traces p; pu_clock := c; pu_ticks := k |})).
  { destruct (tq_monitor rq) as [spec|]; [|by exists None, (pu_clock p), (pu_ticks p)].
    destruct (span_step spec d (instant (pu_ticks p2)) h (tick p2)) as (span & c & E).
    exists span, c, (S (pu_ticks p)). erewrite bind_run; [|reflexivity]. exact E. }
  destruct S as (span & c & k & E). erewrite bind_run; [|exact E]. clear E. set (p3 := {| pu_clock := c |}).
  destruct (skips_reads rq wrong span thread d h p3) as (skip & p4 & E & (w4 & -> & W4) & Hskip & Hkeep).
  erewrite bind_run; [|exact E]. clear E.
  destruct (snapshot_entry rq span req thread loc d skip h (wire_in w4 p3) id sp1 He1 Hr1) as (rec & cost & w5 & k5 & E & W5 & Hrec).
  erewrite bind_run; [|exact E]. clear E.
  assert (W : steady (pu_wire p) w5) by (transitivity w1; [done|]; by transitivity w4).
  pose (v := {| ve_wrong := wrong; ve_record := rec; ve_cost := cost |}). exists v.
  set (p5 := {| pu_wire := w5 |}).
  assert (He5 : entry (pu_state p5) id (hit_counted v sp)).
  { destruct (hit_counted_frame v sp) as (F1 & F2 & _). unfold p5, p3, p2. cbn [pu_state wire_in state_in].
    rewrite set_stop_again. apply (entry_set _ _ sp); [done|done|by rewrite F2]. }
  pose proof (hit_counted_frame v sp) as (F1 & F2 & F3 & F4 & F5 & F6 & F7).
  assert (Hr5 : req ∈ sp_request_ids (hit_counted v sp)) by (by rewrite F2).
  assert (H5 : pu_state p5 = set_stop id (hit_counted v sp) (pu_state p)).
  { unfold p5, p3, p2. cbn [pu_state wire_in state_in]. by rewrite set_stop_again. }
  change (pu_traces (wire_in w4 p3)) with (pu_traces p).
  change (filed rec req thread d (pu_traces p)) with (hit_filing req thread d (pu_traces p) v).
  assert (Ht5 : sp_trace (hit_counted v sp) = true) by congruence.
  destruct (settle_hit (fresh (hit_filing req thread d (pu_traces p) v).1) h p5 id _ req thread He5 Hr5 Ht5)
    as (p6 & E & W6 & S6 & T6).
  exists p6. split_and!; [exact E|by transitivity w5|by intros; apply Hrec, Hskip| | | |].
  - intros Hf. unfold v, wrong. cbn [ve_wrong]. rewrite Hok. unfold rq, traced_request_of. cbn [tq_method_filter].
    by replace (method_exit sp ≫= mx_method) with (@None string).
  - cbn [ve_wrong ve_record v]. intros Hw Hc Hm.
    destruct rec; [by eexists|]. exfalso. rewrite Hkeep in Hrec; [|done|done|by unfold rq; simpl; rewrite Hm].
    discriminate (proj1 Hrec eq_refl).
  - rewrite S6, H5, F4, F2, note_all_set_stop, set_stop_again. done.
  - rewrite T6. done.
Qed.
End Facts.
