(* ===== verification/TracedHits.v ===== *)
(** * Trace mode's promise

    What a set of traced hits does to the session, the stop points and the debuggee: the books of each
    hit, and that the hit thread is let go exactly when every event of the set was a traced one. *)

From S2P Require Import Prelude Protocol Types Reader Events Connection Client EventRequest StopPoint.
From S2P Require Import EventRing MonitorClock Suspensions Traces Session Manager Api Text Condition Host EventPump.
From S2P Require Import Steering PumpFacts.

Definition discarded (sp : StopPoint) : Z := match method_exit sp with Some me => mx_discarded me | None => 0 end.
Definition method_filter (sp : StopPoint) : option string := me ← method_exit sp; mx_method me.

(** The session [h'] of a host differs from that of [h] in nothing but what the pump works on. *)
Definition undisturbed (h h' : Host) : Prop := exists p, h' = put h p.

Lemma undisturbed_view h h' :
  undisturbed h h' ->
  ds_events (h_session h') = ds_events (h_session h) /\ ds_suspensions (h_session h') = ds_suspensions (h_session h) /\
  ds_last_thread (h_session h') = ds_last_thread (h_session h) /\
  ds_pending_step (h_session h') = ds_pending_step (h_session h) /\ h_alerts h' = h_alerts h.
Proof. by intros [p ->]. Qed.

(** ** What a step may do to stop points *)

Definition rearms_alike (sp sp' : StopPoint) : Prop := rearm_request sp' = rearm_request sp.

Record evolves (s s' : SessionState) : Prop := {
  ev_forth id sp : ss_stop_points s !! id = Some sp -> exists sp', ss_stop_points s' !! id = Some sp' /\
    sp_trace sp' = sp_trace sp /\ sp_request_ids sp' ⊆ sp_request_ids sp /\ rearms_alike sp sp' /\
    (sp_trace sp = false -> sp' = sp);
  ev_back id : is_Some (ss_stop_points s' !! id) -> is_Some (ss_stop_points s !! id);
  ev_pending : ss_pending_breakpoints s' = ss_pending_breakpoints s;
  ev_noted r : r ∈ ss_disarmed_traced_requests s' -> r ∈ ss_disarmed_traced_requests s \/
    exists id sp, ss_stop_points s !! id = Some sp /\ sp_trace sp = true /\ r ∈ sp_request_ids sp;
}.

Lemma evolves_refl s : evolves s s.
Proof. split; auto. intros id sp Hl. exists sp. by unfold rearms_alike. Qed.

Lemma evolves_trans s1 s2 s3 : evolves s1 s2 -> evolves s2 s3 -> evolves s1 s3.
Proof.
  intros [F1 B1 P1 N1] [F2 B2 P2 N2]. split.
  - intros id sp Hl. destruct (F1 _ _ Hl) as (a & Ha & T1 & S1 & R1 & U1).
    destruct (F2 _ _ Ha) as (b & Hb & T2 & S2 & R2 & U2). exists b. unfold rearms_alike in *.
    split_and!; [done|congruence|set_solver|congruence|].
    intros Hu. rewrite <- (U1 Hu). apply U2. congruence.
  - auto.
  - congruence.
  - intros r [Hr|(id & sp & Hl & Ht & Hr)]%N2; [by apply N1|].
    right. destruct (B1 id) as [a Ha]; [by eexists|]. destruct (F1 _ _ Ha) as (b & Hb & T & S & _). simplify_eq.
    exists id, a. split_and!; [done|congruence|set_solver].
Qed.

Lemma note_all_members reqs s r :
  r ∈ ss_disarmed_traced_requests (note_all reqs s) -> r ∈ ss_disarmed_traced_requests s \/ r ∈ reqs.
Proof.
  unfold note_all. revert s. induction reqs as [|q reqs IH]; intros s Hr; [by left|]. cbn [foldl] in Hr.
  apply IH in Hr as [Hr|Hr]; [|set_solver]. simpl in Hr. unfold remember_bounded in Hr.
  case_bool_decide; [by left|]. destruct (MAX_DISARMED_TRACED =? 0)%nat; [by left|].
  apply elem_of_app in Hr as [Hr|Hr]; [|set_solver]. left. case_match; [|done].
  destruct (ss_disarmed_traced_requests s); [done|]. by right.
Qed.

Section Traced.
Context `{BC : BytesCrate} `{D : Debuggee} `{CL : Clock} `{I : Inspection} {QI : QuietInspection I}.
Context {StopOrder : IterOrder string StopPoint}.
Context {ClockOrder : IterOrder MonitorPairKey Z} {ThrowOrder : IterOrder ThrowKey RethrowChain}.

Lemma hit_stop_frame req thread d b v sp :
  let sp' := hit_stop req thread d b v sp in
  sp_id sp' = sp_id sp /\ sp_trace sp' = sp_trace sp /\ sp_request_ids sp' ⊆ sp_request_ids sp /\ rearms_alike sp sp'.
Proof.
  unfold hit_stop, hit_charged, hit_counted, counted_hit, costed, rearms_alike, rearm_request, line.
  destruct (ve_cost v) as [[? ?]|], (ve_wrong v); repeat case_match; simpl in *; split_and!; try done;
    try (by intros x ?%elem_of_nil); destruct (sp_armed_on sp); simplify_eq; done.
Qed.

Lemma hit_counted_label v sp : disarm_label (hit_counted v sp) = disarm_label sp.
Proof.
  unfold disarm_label, hit_counted, counted_hit, costed, describe_for_rescue.
  destruct (ve_cost v) as [[? ?]|], (ve_wrong v); simpl; by destruct (sp_armed_on sp).
Qed.

Lemma hit_stop_kept req thread d b v sp :
  sp_hits (hit_stop req thread d b v sp) = sp_hits (hit_counted v sp) /\
  sp_armed_on (hit_stop req thread d b v sp) = sp_armed_on (hit_counted v sp).
Proof. unfold hit_stop, hit_charged. by destruct (hit_exhausts _ _ _ _ _ _), (sp_hit_count sp), (fresh _). Qed.

Lemma hit_stop_hits req thread d b v sp :
  sp_hits (hit_stop req thread d b v sp) = if ve_wrong v then sp_hits sp else sat_add_u 32 (sp_hits sp) 1.
Proof.
  rewrite (proj1 (hit_stop_kept _ _ _ _ _ _)). unfold hit_counted, counted_hit, costed.
  by destruct (ve_wrong v), (ve_cost v) as [[? ?]|].
Qed.

Lemma hit_stop_discarded req thread d b v sp :
  discarded (hit_stop req thread d b v sp) =
  if ve_wrong v && is_some (method_exit sp) then sat_add_u 32 (discarded sp) 1 else discarded sp.
Proof.
  unfold discarded, method_exit. rewrite (proj2 (hit_stop_kept _ _ _ _ _ _)). unfold hit_counted, counted_hit, costed.
  destruct (ve_wrong v), (ve_cost v) as [[? ?]|]; cbn [sp_armed_on stop_with hit discard]; unfold Datatypes.id;
    by destruct (sp_armed_on sp).
Qed.

(** One traced hit, on the state. *)
Lemma hit_evolves h p id sp e thread loc :
  entry (pu_state p) id sp -> ev_request_id e ∈ sp_request_ids sp -> sp_trace sp = true ->
  event_location (ev_details e) = Some (thread, loc) ->
  exists p', record_one_traced_event e (put h p) = (Some thread, put h p') /\ steady (pu_wire p) (pu_wire p') /\
    evolves (pu_state p) (pu_state p') /\ stops_ok (pu_state p') /\
    (forall id', id' <> id -> ss_stop_points (pu_state p') !! id' = ss_stop_points (pu_state p) !! id').
Proof.
  intros He Hr Ht Hl. destruct (traced_hit h p id sp e thread loc He Hr Ht Hl) as (v & p' & E & W & _ & _ & _ & S & _).
  set (sp' := hit_stop _ _ _ _ _ _) in S. set (noted := hit_noted _ _ _ _ _ _) in S.
  destruct (hit_stop_frame (ev_request_id e) thread (ev_details e) (pu_traces p) v sp) as (I1 & I2 & I3 & I4). fold sp' in I1, I2, I3, I4.
  destruct (note_all_queue noted (pu_state p)) as (_ & Hs & Hp).
  assert (He' : entry (pu_state p') id sp') by (rewrite S; apply (entry_set _ _ sp); [by apply entry_note|done|done]).
  exists p'. split_and!; [done|done| |apply He'|].
  - rewrite S. split; simpl.
    + intros id' a Ha. destruct (decide (id' = id)) as [->|Hne].
      * exists sp'. rewrite lookup_insert_eq. destruct He as [_ Hat]. simplify_eq. split_and!; try done. congruence.
      * exists a. rewrite lookup_insert_ne, Hs by done. by unfold rearms_alike.
    + intros id' [a Ha]. destruct (decide (id' = id)) as [->|Hne]; [exists sp; apply He|].
      rewrite lookup_insert_ne, Hs in Ha by done. by exists a.
    + done.
    + intros r Hin%note_all_members. destruct Hin as [Hin|Hin]; [by left|]. right. exists id, sp. split_and!; [apply He|done|].
      unfold noted, hit_noted in Hin. repeat case_match; [|by apply list_elem_of_filter in Hin as [_ ?]|by apply elem_of_nil in Hin].
      by apply list_elem_of_singleton in Hin as ->.
  - intros id' Hne. rewrite S. simpl. by rewrite lookup_insert_ne, Hs by done.
Qed.

(** ** Whose hit an event is *)

(** An event of a traced stop point of the session. *)
Definition traced_by (s : SessionState) (e : Event) (id : string) : Prop :=
  is_Some (event_location (ev_details e)) /\
  exists sp, ss_stop_points s !! id = Some sp /\ sp_trace sp = true /\ ev_request_id e ∈ sp_request_ids sp.

(** An event at a location, of a traced stop point or of a request known to be disarmed. *)
Definition ours (s : SessionState) (e : Event) : Prop :=
  is_Some (event_location (ev_details e)) /\
  ((exists id, traced_by s e id) \/ was_traced_and_disarmed (ev_request_id e) s = true).

Lemma ours_back s s' e : evolves s s' -> ours s' e -> ours s e.
Proof.
  intros [F B P N] [Hl [(id & _ & sp' & Hs' & Ht & Hr)|Hw]]; (split; [done|]).
  - left. exists id. split; [done|]. destruct (B id) as [sp Hs]; [by eexists|].
    destruct (F _ _ Hs) as (a & Ha & T & S & _). simplify_eq. exists sp. split_and!; [done|congruence|set_solver].
  - apply andb_true_iff in Hw as [Hin Hown]. apply bool_decide_eq_true, N in Hin.
    destruct Hin as [Hin|(id & sp & Hs & Ht & Hr)]; [|by left; exists id; split; [|exists sp]].
    destruct (owns_live_request (ev_request_id e) s) eqn:Eo.
    2: { right. unfold was_traced_and_disarmed. by rewrite bool_decide_eq_true_2, Eo. }
    left. apply negb_true_iff, not_true_iff_false in Hown. rewrite owns_live_request_spec in Eo, Hown.
    destruct Eo as [(id & sp & Hs & Hb)|(q & Hq & Hr)]; [|destruct Hown; right; exists q; by rewrite P].
    destruct (F _ _ Hs) as (sp' & Hs' & T & S & R & U).
    destruct (sp_trace sp) eqn:Et.
    + destruct Hb as [Hb|Hb]; [by exists id; split; [|exists sp]|]. exfalso. apply Hown. left. exists id, sp'.
      split; [done|]. right. by rewrite R.
    + exfalso. apply Hown. left. exists id, sp'. split; [done|]. by rewrite (U eq_refl).
Qed.

(** One event, whosever it is. *)
Lemma one_event h p e :
  stops_ok (pu_state p) ->
  exists r p', record_one_traced_event e (put h p) = (r, put h p') /\ steady (pu_wire p) (pu_wire p') /\
    evolves (pu_state p) (pu_state p') /\ stops_ok (pu_state p') /\
    (r = None \/ ours (pu_state p) e /\ r = fst <$> event_location (ev_details e)).
Proof.
  intros Hok. unfold record_one_traced_event.
  destruct (event_location (ev_details e)) as [[thread loc]|] eqn:El.
  2: { exists None, p. split_and!; [done|reflexivity|apply evolves_refl|done|by left]. }
  fold (record_one_traced_event e).
  destruct (find_traced_request (ev_request_id e) (h_session (put h p))) as [rq|] eqn:Ef.
  - rewrite find_traced_request_spec in Ef by done. destruct (owner _ _) as [sp|] eqn:Eo; [|done]. simpl in Ef.
    destruct (sp_trace sp) eqn:Et; [|done]. apply owner_spec in Eo as [Hs Hr]; [|done].
    destruct (hit_evolves h p (sp_id sp) sp e thread loc) as (p' & E & W & V & Hok' & _); [by split|done..|].
    exists (Some thread), p'. unfold record_one_traced_event in E. rewrite El in E. split_and!; try done.
    right. split; [|done]. split; [by rewrite El|]. left. exists (sp_id sp). split; [by rewrite El|]. by exists sp.
  - erewrite bind_run; [|reflexivity]. rewrite Ef.
    exists (if was_traced_and_disarmed (ev_request_id e) (pu_state p) then Some thread else None), p.
    split_and!; [done|reflexivity|apply evolves_refl|done|].
    destruct (was_traced_and_disarmed _ _) eqn:Ew; [|by left]. right. split; [|done]. split; [by rewrite El|by right].
Qed.

(** The thread of the last event of a set. *)
Definition last_thread_of (es : list Event) : option Z := e ← list.last es; fst <$> event_location (ev_details e).

Lemma run_events h es : forall p handled all_ours, stops_ok (pu_state p) ->
  exists r all' p', record_traced_events es handled all_ours (put h p) = ((r, all'), put h p') /\
    steady (pu_wire p) (pu_wire p') /\ stops_ok (pu_state p') /\
    (all' = true -> all_ours = true /\ Forall (ours (pu_state p)) es /\
       r = match es with [] => handled | _ => last_thread_of es end).
Proof.
  induction es as [|e es IH]; intros p handled all_ours Hok; cbn [record_traced_events].
  { exists handled, all_ours, p. by split_and!; [|reflexivity|..]. }
  destruct (one_event h p e Hok) as (r & p1 & E & W & V & Hok1 & Hr). erewrite bind_run; [|exact E].
  destruct r as [thread|].
  - destruct (IH p1 (Some thread) all_ours Hok1) as (r & all' & p2 & E2 & W2 & Hok2 & Hall).
    exists r, all', p2. split_and!; [done|by transitivity (pu_wire p1)|done|].
    intros Ha. destruct (Hall Ha) as (-> & HF & ->). destruct Hr as [|[Hours Ht]]; [done|].
    split_and!; [done| |].
    + constructor; [done|]. eapply list.Forall_impl; [exact HF|]. intros e'. by apply ours_back.
    + destruct es as [|e' es]; [done|]. done.
  - destruct (IH p1 handled false Hok1) as (r & all' & p2 & E2 & W2 & Hok2 & Hall).
    exists r, all', p2. split_and!; [done|by transitivity (pu_wire p1)|done|].
    intros Ha. by destruct (Hall Ha).
Qed.

Lemma run_traced h es ids : forall p handled all_ours,
  stops_ok (pu_state p) -> NoDup ids -> Forall2 (traced_by (pu_state p)) es ids ->
  exists r p', record_traced_events es handled all_ours (put h p) = ((r, all_ours), put h p') /\
    (es = [] \/ is_Some r).
Proof.
  revert ids. induction es as [|e es IH]; intros ids p handled all_ours Hok Hn HF; cbn [record_traced_events].
  { exists handled, p. by split; [|left]. }
  inversion HF as [|? id ? ids' [[[thread loc] El] (sp & Hs & Ht & Hr)] HF']; subst.
  apply list.NoDup_cons in Hn as [Hid Hn].
  destruct (hit_evolves h p id sp e thread loc) as (p1 & E & W & V & Hok1 & Hoth); [by split|done..|].
  erewrite bind_run; [|exact E].
  destruct (IH ids' p1 (Some thread) all_ours Hok1 Hn) as (r & p2 & E2 & Hr2).
  { clear -HF' Hid Hoth. induction HF' as [|e id0 es ids0 [Hl (sp & Hs & H)] HF' IH]; [constructor|].
    apply not_elem_of_cons in Hid as [Hne Hid]. constructor; [|by apply IH].
    split; [done|]. exists sp. by rewrite Hoth. }
  exists r, p2. split; [done|]. right. destruct Hr2 as [->|]; [|done]. injection E2 as <- _. by eexists.
Qed.

(** An event of ours is traced by some stop point, or only released. *)
Lemma one_ours h p e :
  stops_ok (pu_state p) -> ours (pu_state p) e ->
  (exists id, traced_by (pu_state p) e id) \/ exists thread, record_one_traced_event e (put h p) = (Some thread, put h p).
Proof.
  intros Hok [[[thread loc] El] [Ht|Hw]]; [by left|].
  destruct (find_traced_request (ev_request_id e) (h_session (put h p))) as [rq|] eqn:Ef.
  - left. rewrite find_traced_request_spec in Ef by done. destruct (owner _ _) as [sp|] eqn:Eo; [|done]. simpl in Ef.
    destruct (sp_trace sp) eqn:Etr; [|done]. apply owner_spec in Eo as [Hsp Hr]; [|done].
    exists (sp_id sp). split; [by rewrite El|]. by exists sp.
  - right. exists thread. unfold record_one_traced_event. rewrite El. erewrite bind_run; [|reflexivity]. rewrite Ef.
    change (ds_state (h_session (put h p))) with (pu_state p). by rewrite Hw.
Qed.

(** C29. Trace mode's promise. A set of events is kept from the caller exactly when every event of it is
    a traced hit: if it is handled, each event is at a location and belongs to a traced stop point or to
    a request remembered as disarmed; and a set of hits of different traced stop points, or of one
    disarmed request, is handled. A handled set resumes one thread once, the thread of its last event,
    after everything else; a set that is not resumes none. Either way the event ring, what is held
    suspended, the last thread, the pending step and the alerts are as they were. *)
Theorem traced_sets_pass (h : Host) (es : EventSet) :
  stops_ok (ds_state (h_session h)) ->
  let '(handled, h') := try_record_trace es h in
  let s := ds_state (h_session h) in
  undisturbed h h' /\ stops_ok (ds_state (h_session h')) /\
  steered (w_log (ds_connection (h_session h'))) = steered (w_log (ds_connection (h_session h))) ++
    (if handled then option_list ((fun t => (11, 3, put_be 8 t)) <$> last_thread_of (es_events es)) else []) /\
  (handled = true -> is_Some (last_thread_of (es_events es)) /\ Forall (ours s) (es_events es)) /\
  (es_events es <> [] -> (exists ids, NoDup ids /\ Forall2 (traced_by s) (es_events es) ids) -> handled = true) /\
  (forall e, es_events es = [e] -> ours s e -> handled = true).
Proof.
  intros Hok. destruct (try_record_trace es h) as [handled h'] eqn:Et. unfold try_record_trace in Et.
  rewrite <- (put_pump_of h) in Et. set (p := pump_of h) in *.
  assert (Hs : ds_state (h_session h) = pu_state p) by done.
  destruct (run_events h (es_events es) p None (negb (bool_decide (es_events es = [])))) as (r & all' & p1 & E & W & Hok1 & Hall); [done|].
  assert (Hne : all' = true -> es_events es <> []).
  { intros Ha. destruct (Hall Ha) as [Hne _]. by apply negb_true_iff, bool_decide_eq_false in Hne. }
  assert (Hfwd : es_events es <> [] -> (exists ids, NoDup ids /\ Forall2 (traced_by (pu_state p)) (es_events es) ids) ->
    all' = true /\ is_Some r).
  { intros Hn (ids & Hd & HF). destruct (run_traced h (es_events es) ids p None true Hok Hd HF) as (r2 & p2 & E2 & Hr2).
    rewrite bool_decide_eq_false_2 in E by done. simpl in E. rewrite E in E2. injection E2 as -> -> _.
    split; [done|]. by destruct Hr2. }
  assert (Hone : forall e, es_events es = [e] -> ours (pu_state p) e -> all' = true /\ is_Some r).
  { intros e Ee Ho. destruct Ho as [Hl [(id & Hid)|Hw]].
    - apply Hfwd; [by rewrite Ee|]. exists [id]. rewrite Ee. split; [apply NoDup_singleton|constructor; [exact Hid|constructor]].
    - destruct (one_ours h p e) as [(id & Hid)|(thread & Er)]; [done|by split; [|right]|..].
      + apply Hfwd; [by rewrite Ee|]. exists [id]. rewrite Ee. split; [apply NoDup_singleton|constructor; [exact Hid|constructor]].
      + rewrite Ee in E. cbn [record_traced_events] in E. erewrite bind_run in E; [|exact Er].
        injection E as <- <- _. split; [done|by eexists]. }
  erewrite bind_run in Et; [|exact E]. destruct r as [thread|]; [destruct all'|].
  - erewrite bind_run in Et; [|by apply conn_put]. injection Et as <- <-.
    destruct (Hall eq_refl) as (_ & HF & Hr).
    assert (Hlast : last_thread_of (es_events es) = Some thread) by (destruct (es_events es); [by destruct (Hne eq_refl)|done]).
    pose proof (resume_thread_steers thread (pu_wire p1)) as Hw.
    split_and!; [by eexists|done| |by rewrite Hlast|done|done].
    cbn [h_session put ds_connection session_with pu_wire wire_in]. rewrite Hw, Hlast. cbn [option_fmap option_map option_list].
    by rewrite (steady_steered _ _ W).
  - injection Et as <- <-. split_and!; [by eexists|done|by rewrite app_nil_r; apply (steady_steered _ _ W)|done| |].
    + intros Hn HF. by destruct (Hfwd Hn HF).
    + intros e Ee Ho. by destruct (Hone e Ee Ho).
  - injection Et as <- <-. split_and!; [by eexists|done|by rewrite app_nil_r; apply (steady_steered _ _ W)|done| |].
    + intros Hn HF. by destruct (Hfwd Hn HF) as [_ [? ?]].
    + intros e Ee Ho. by destruct (Hone e Ee Ho) as [_ [? ?]].
Qed.

(** The books of one traced hit. Of the stop points only the one the hit belongs to changes. It
    counts the hit, or, if it narrows a method exit to another method, counts it as discarded and files
    nothing; a hit without condition, method filter or duration threshold is always filed. A filing
    pushes one record on the traces. A filing that is not a rethrow, and no other, spends one of the
    budget; the last one disarms the stop point: its requests are cleared, it is disabled, the disarm is
    noted in the traces and the request of the hit is remembered. A stop point with a hit count is spent
    by its first hit, recorded or not, and its other requests are remembered. *)
Theorem traced_hit_books (h : Host) (e : Event) (id : string) (sp : StopPoint) (thread : Z) (loc : Location) :
  let s := ds_state (h_session h) in
  stops_ok s -> ss_stop_points s !! id = Some sp -> ev_request_id e ∈ sp_request_ids sp -> sp_trace sp = true ->
  event_location (ev_details e) = Some (thread, loc) ->
  let '(r, h') := record_one_traced_event e h in
  let s' := ds_state (h_session h') in
  let req := ev_request_id e in
  r = Some thread /\ undisturbed h h' /\ stops_ok s' /\
  exists sp' (wrong_method : bool) (rec : option TraceRecord),
    let '(kind, traces) := filed rec req thread (ev_details e) (ds_traces (h_session h)) in
    let exhausted := fresh kind && bool_decide (sp_trace_budget sp' = Some 0) in
    let counted := is_some (sp_hit_count sp) in
    ss_stop_points s' = <[id := sp']> (ss_stop_points s) /\ ss_pending_breakpoints s' = ss_pending_breakpoints s /\
    (method_filter sp = None -> wrong_method = false) /\ (wrong_method = true -> rec = None) /\
    (wrong_method = false -> sp_condition sp = None -> monitor sp = None -> is_Some rec) /\
    sp_hits sp' = (if wrong_method then sp_hits sp else sat_add_u 32 (sp_hits sp) 1) /\
    (discarded sp' = if wrong_method && is_some (method_exit sp) then sat_add_u 32 (discarded sp) 1 else discarded sp) /\
    sp_trace_budget sp' = (if fresh kind then (fun b => sat_sub b 1) <$> sp_trace_budget sp else sp_trace_budget sp) /\
    sp_request_ids sp' = (if exhausted || counted then [] else sp_request_ids sp) /\
    sp_enabled sp' = (if exhausted || counted then false else sp_enabled sp) /\
    sp_spent sp' = (if counted && negb exhausted then true else sp_spent sp) /\
    ss_disarmed_traced_requests s' = foldl (fun q r => remember_bounded q r MAX_DISARMED_TRACED) (ss_disarmed_traced_requests s)
      (if exhausted then [req] else if counted then base.filter (fun r => r <> req) (sp_request_ids sp) else []) /\
    ds_traces (h_session h') = if exhausted then note_disarm (disarm_label sp) traces else traces.
Proof.
  cbv zeta. intros Hok Hs Hr Ht Hl. destruct (record_one_traced_event e h) as [r h'] eqn:E0.
  rewrite <- (put_pump_of h) in E0. set (p := pump_of h) in *.
  assert (He : entry (pu_state p) id sp) by by split.
  destruct (traced_hit h p id sp e thread loc He Hr Ht Hl) as (v & p' & E & _ & Hw & Hf & Hk & S & T).
  rewrite E in E0. injection E0 as <- <-. set (req := ev_request_id e) in *. set (d := ev_details e) in *.
  set (sp' := hit_stop _ _ _ _ _ _) in S. set (noted := hit_noted _ _ _ _ _ _) in S.
  destruct (hit_stop_frame req thread d (pu_traces p) v sp) as (I1 & _ & I3 & _). fold sp' in I1, I3.
  assert (He' : entry (pu_state p') id sp') by (rewrite S; apply (entry_set _ _ sp); [by apply entry_note|done|done]).
  destruct (note_all_queue noted (pu_state p)) as (Hq & Hsp & Hpb).
  split; [done|]. split; [by eexists|]. split; [apply He'|]. exists sp', (ve_wrong v), (ve_record v).
  change (ds_traces (h_session h)) with (pu_traces p).
  destruct (filed (ve_record v) req thread d (pu_traces p)) as [kind traces] eqn:Ef.
  assert (Hkind : fst (hit_filing req thread d (pu_traces p) v) = kind) by (unfold hit_filing; by rewrite Ef).
  assert (Htr : snd (hit_filing req thread d (pu_traces p) v) = traces) by (unfold hit_filing; by rewrite Ef).
  assert (Hb : sp_trace_budget sp' = if fresh kind then (fun b => sat_sub b 1) <$> sp_trace_budget sp else sp_trace_budget sp).
  { unfold sp', hit_stop, hit_charged, hit_exhausts. rewrite Hkind.
    destruct (hit_counted_frame v sp) as (_ & _ & _ & _ & F & _). repeat case_match; simpl; by rewrite ?F. }
  assert (Hx : hit_exhausts req thread d (pu_traces p) v sp = fresh kind && bool_decide (sp_trace_budget sp' = Some 0)).
  { unfold hit_exhausts, exhausts. rewrite Hkind, Hb. destruct (hit_counted_frame v sp) as (_ & _ & _ & _ & F & _).
    destruct (fresh kind); [|done]. simpl. by rewrite F. }
  change (ds_state (h_session (put h p'))) with (pu_state p'). change (ds_traces (h_session (put h p'))) with (pu_traces p').
  rewrite <- Hx. destruct (hit_counted_frame v sp) as (F1 & F2 & F3 & F4 & F5 & F6 & F7).
  split_and!; [rewrite S; exact (f_equal (<[id := sp']>) Hsp)|rewrite S; exact Hpb|exact Hf|exact Hw|exact Hk| | |exact Hb|..].
  - unfold sp'. by rewrite hit_stop_hits.
  - unfold sp'. apply hit_stop_discarded.
  - unfold sp', hit_stop, hit_charged. rewrite Hkind.
    destruct (hit_exhausts _ _ _ _ _ _), (sp_hit_count sp), (fresh kind); first [done|exact F2].
  - unfold sp', hit_stop, hit_charged. rewrite Hkind.
    destruct (hit_exhausts _ _ _ _ _ _), (sp_hit_count sp), (fresh kind); first [done|exact F6].
  - unfold sp', hit_stop, hit_charged. rewrite Hkind.
    destruct (hit_exhausts _ _ _ _ _ _), (sp_hit_count sp), (fresh kind); first [done|exact F7].
  - rewrite S. exact Hq.
  - rewrite T. unfold hit_traces. by rewrite Htr, hit_counted_label.
Qed.
End Traced.

(** ** A session to run *)

Definition steady_clock : Clock := {| instant n := Z.of_nat n |}.

Definition blank_record : TraceRecord := {|
  tr_seq := 0; tr_bp_id := "bp_1"; tr_thread := 7; tr_class := "A"; tr_method := "run"; tr_line := Some 3; tr_args := [];
  tr_captured := []; tr_callers := []; tr_expr := []; tr_detail := []; tr_rethrow := None
|}.

(** Conditions answer [answer]; snapshots are blank; nothing is read. *)
Definition blind_inspection (answer : bool) : Inspection := {|
  leaf_value _ _ _ _ w := (Ok answer, w);
  capture_trace _ _ _ _ w := (blank_record, w);
  describe_event _ w := ([], w)
|}.

#[global] Instance blind_quiet answer : QuietInspection (blind_inspection answer).
Proof. split; intros; intros w; apply sends_refl. Qed.

Definition sample_arm : BreakpointArm := {|
  ba_class_id := 1; ba_method_id := 2; ba_bytecode_index := 0; ba_extra_locations := []; ba_suspend_policy := EventThread
|}.
Definition sample_stop (id : string) (reqs : list Z) (trace : bool) (condition : option string) (hit_count budget : option Z) :
    StopPoint := {|
  sp_id := id; sp_request_ids := reqs; sp_enabled := true; sp_spent := false; sp_hit_count := hit_count; sp_hits := 0;
  sp_condition := condition; sp_trace := trace; sp_trace_expr := []; sp_trace_budget := budget; sp_trace_frames := 0;
  sp_trace_max_length := None; sp_trace_cost := no_cost; sp_thread_filter := None; sp_instance_filter := None;
  sp_armed_on := OnLine {| lb_class_pattern := "A"; lb_line := 3; lb_method := None; lb_arm_line := Some 3;
    lb_arm_method := None; lb_drift := Current; lb_loaders := []; lb_arm := sample_arm; lb_rearm := Unwatched |}
|}.

Definition host_with (stops : list StopPoint) : Host := {|
  h_session := with_state (fun s => foldr register_stop_point s stops) (new_session world_init "a:1" sample_seed);
  h_ticks := 0; h_alerts := []
|}.

Definition sample_location : Location := {| loc_type_tag := 1; loc_class_id := 1; loc_method_id := 2; loc_index := 0 |}.
Definition hit_event (req : Z) : Event :=
  {| ev_kind := 2; ev_request_id := req; ev_details := Breakpoint 7 sample_location |}.
Definition hit_set (policy : Z) (reqs : list Z) : EventSet := {| es_suspend_policy := policy; es_events := map hit_event reqs |}.

Definition traced_stop : StopPoint := sample_stop "bp_1" [5; 6] true None None (Some 1).

Lemma host_with_one sp : stops_ok (ds_state (h_session (host_with [sp]))).
Proof. apply stops_ok_register; [apply stops_ok_new|]. simpl. intros id sp' r _. by rewrite lookup_empty. Qed.

Lemma traced_sets_pass_witness :
  stops_ok (ds_state (h_session (host_with [traced_stop]))) /\
  fst (try_record_trace (BC := network_order) (D := silent_debuggee) (CL := steady_clock) (I := blind_inspection true)
    (StopOrder := some_order) (ClockOrder := some_order) (ThrowOrder := some_order) (hit_set 1 [5]) (host_with [traced_stop])) = true.
Proof.
  split; [apply host_with_one|].
  pose proof (traced_sets_pass (BC := network_order) (D := silent_debuggee) (CL := steady_clock) (I := blind_inspection true)
    (StopOrder := some_order) (ClockOrder := some_order) (ThrowOrder := some_order)
    (host_with [traced_stop]) (hit_set 1 [5]) (host_with_one _)) as K.
  destruct (try_record_trace _ _) as [handled h']. apply K; [done|]. exists ["bp_1"].
  split; [apply NoDup_singleton|]. constructor; [|constructor]. split; [by eexists|]. exists traced_stop.
  split_and!; [reflexivity|reflexivity|by_compute].
Defined.

Lemma traced_hit_books_witness :
  fst (record_one_traced_event (BC := network_order) (D := silent_debuggee) (CL := steady_clock) (I := blind_inspection true)
    (StopOrder := some_order) (ClockOrder := some_order) (ThrowOrder := some_order) (hit_event 5) (host_with [traced_stop])) = Some 7.
Proof.
  pose proof (traced_hit_books (BC := network_order) (D := silent_debuggee) (CL := steady_clock) (I := blind_inspection true)
    (StopOrder := some_order) (ClockOrder := some_order) (ThrowOrder := some_order)
    (host_with [traced_stop]) (hit_event 5) "bp_1" traced_stop 7 sample_location (host_with_one _)) as K.
  destruct (record_one_traced_event _ _) as [r h'].
  apply K; [reflexivity|by_compute|reflexivity|reflexivity].
Defined.

(** A trace disarmed by the hit of one request of its stop point does not know the in-flight hit of the
    other: that set is left to the suspending path, and its thread is not resumed here. *)
Example sibling_hit_surfaces :
  let record reqs h := try_record_trace (BC := network_order) (D := silent_debuggee) (CL := steady_clock) (I := blind_inspection true)
    (StopOrder := some_order) (ClockOrder := some_order) (ThrowOrder := some_order) (hit_set 1 reqs) h in
  let '(first, h) := record [5] (host_with [traced_stop]) in
  (first, fst (record [5] h), fst (record [6] h)) = (true, true, false).
Proof. vm_compute. reflexivity. Qed.

(** A debuggee that acknowledges everything. *)
Definition obliging_debuggee : Debuggee := {|
  issue_outcome _ _ := None;
  reply_outcome _ p := Ok {| rp_id := cp_id p; rp_error_code := 0; rp_data := [] |};
  lapses_unissued _ _ := false;
  lapses_unanswered _ _ := false
|}.

(** Disabling a traced stop point by hand does not remember its requests: a hit in flight surfaces. *)
Example disabled_hit_surfaces :
  let '(_, h) := disable_stop_point (BC := network_order) (D := obliging_debuggee) "bp_1" (host_with [traced_stop]) in
  fst (try_record_trace (BC := network_order) (D := silent_debuggee) (CL := steady_clock) (I := blind_inspection true)
    (StopOrder := some_order) (ClockOrder := some_order) (ThrowOrder := some_order) (hit_set 1 [5]) h) = false.
Proof. vm_compute. reflexivity. Qed.
