(* ===== verification/ReportedHits.v ===== *)
(** * Hits that are reported, and hits that are dropped

    [store_reportable_event]: a suspending hit is either let go exactly as it was held, or reported and
    recorded as held. *)

From S2P Require Import Prelude Protocol Types Reader Events Connection Client EventRequest StopPoint.
From S2P Require Import EventRing MonitorClock Suspensions Traces Session Manager Api Text Condition Host EventPump.
From S2P Require Import Steering PumpFacts TracedHits.

(** What is recorded as held by a reported set: the hit thread alone after a failed escalation, or the
    virtual machine by the first event's stop point. *)
Definition held_alone (escalation : option FailedEscalation) : bool :=
  match escalation with Some e => fe_vm_running e | None => false end.
Definition cause_of (es : EventSet) : SuspendCause :=
  match head (es_events es) with Some e => CauseStopPoint (ev_request_id e) | None => ManualPause end.
Definition hold_of (es : EventSet) (escalation : option FailedEscalation) (name : string) (at_ : Z) (s : Suspensions) :
    Suspensions :=
  match (if held_alone escalation then first_hit es else None) with
  | Some (tid, _, req_id) => hold_thread_for_failed_escalation tid name at_ req_id s
  | None => mark_suspended (cause_of es) at_ s
  end.

(** The session after a report. *)
Definition reported (es : EventSet) (escalation : option FailedEscalation) (w : World) (su : Suspensions)
    (ticks : nat) (alerts : list Alert) (h : Host) : Host := {|
  h_session := session_with (fun _ => w) id (fun r => snd (ring_push es escalation r))
    (fun t => match event_thread es with Some tid => Some tid | None => t end) id (fun _ => su) id id id (h_session h);
  h_ticks := ticks;
  h_alerts := h_alerts h ++ alerts
|}.

Lemma first_hit_thread es t l r : first_hit es = Some (t, l, r) -> event_thread es = Some t.
Proof.
  unfold first_hit, event_thread. destruct (head (es_events es)) as [e|]; [|done]. simpl.
  destruct (event_location (ev_details e)) as [[t' l']|]; [|done]. simpl. by intros [= -> _ _].
Qed.

Section Reported.
Context `{BC : BytesCrate} `{D : Debuggee} `{CL : Clock} `{I : Inspection} {QI : QuietInspection I}.
Context {StopOrder : IterOrder string StopPoint}.
Context {ClockOrder : IterOrder MonitorPairKey Z} {ThrowOrder : IterOrder ThrowKey RethrowChain}.

Lemma conn_reads_on {A} (m : World -> A * World) h :
  Respects steady m ->
  exists a w, conn m h = (a, {| h_session := with_connection w (h_session h); h_ticks := h_ticks h; h_alerts := h_alerts h |}) /\
    steady (ds_connection (h_session h)) w.
Proof.
  intros Hm. unfold conn. destruct (m _) as [a w] eqn:E. exists a, w. split; [done|].
  specialize (Hm (ds_connection (h_session h))). by rewrite E in Hm.
Qed.

Lemma mark_held_holds es esc h :
  exists w name at_, mark_held es esc h =
    (tt, {| h_session := session_with (fun _ => w) id id id id (hold_of es esc name at_) id id id (h_session h);
            h_ticks := S (h_ticks h); h_alerts := h_alerts h |}) /\
    steady (ds_connection (h_session h)) w.
Proof.
  unfold mark_held, hold_of. fold (held_alone esc).
  destruct (if held_alone esc then first_hit es else None) as [[[tid l] req]|].
  - destruct (conn_reads_on (get_thread_name tid) h _) as (a & w & E & W). erewrite bind_run; [|exact E].
    erewrite bind_run; [|reflexivity]. by do 3 eexists.
  - erewrite bind_run; [|reflexivity]. exists (ds_connection (h_session h)), "", (instant (h_ticks h)). split; [|reflexivity].
    unfold cause_of. destruct h as [[] ? ?]. done.
Qed.

Lemma ring_push_last es esc r : list.last (ring_held (snd (ring_push es esc r))) =
  Some {| ev_seq := fst (ring_push es esc r); ev_set := es; ev_escalation := esc |}.
Proof. unfold ring_push. simpl. apply last_snoc. Qed.

Lemma suspends_nonempty es : event_suspends es = true -> exists e, head (es_events es) = Some e.
Proof.
  unfold event_suspends. intros [_ H]%andb_true_iff. destruct (es_events es) as [|e l]; [done|]. by exists e.
Qed.

(** The alert of a reported set. *)
Definition alert_of (es : EventSet) (esc : option FailedEscalation) (h : Host) (a : Alert) : Prop :=
  exists e description, head (es_events es) = Some e /\
    a = SuspensionAlert (fst (ring_push es esc (ds_events (h_session h)))) (event_type_name (ev_details e)) description
          (negb (held_alone esc)) (fe_note <$> esc) (stop_point_id (ev_request_id e) (h_session h)).

Lemma report_reports es esc h :
  exists w su k alerts, report es esc h = (tt, reported es esc w su k alerts h) /\
    steady (ds_connection (h_session h)) w /\
    if event_suspends es
    then (exists name at_, su = hold_of es esc name at_ (ds_suspensions (h_session h))) /\
         exists a, alerts = [a] /\ alert_of es esc h a
    else su = ds_suspensions (h_session h) /\ alerts = [].
Proof.
  unfold report.
  set (last := fun t : option Z => match event_thread es with Some tid => Some tid | None => t end).
  set (h1 := {| h_session := session_with id id id last id id id id id (h_session h); h_ticks := h_ticks h; h_alerts := h_alerts h |}).
  erewrite (bind_run _ _ _ tt h1).
  2: { unfold h1, last. destruct (event_thread es); [done|]. by destruct h as [[] ? ?]. }
  destruct (event_suspends es) eqn:Es.
  - destruct (mark_held_holds es esc h1) as (w & name & at_ & E & W). erewrite bind_run; [|exact E].
    erewrite bind_run; [|reflexivity].
    destruct (suspends_nonempty es Es) as [e He].
    unfold notify_suspension. erewrite bind_run; [|reflexivity].
    match goal with |- context [list.last (ring_held (ds_events ?s))] =>
      change (ds_events s) with (snd (ring_push es esc (ds_events (h_session h)))) end.
    rewrite ring_push_last. cbn [ev_set]. rewrite He.
    match goal with |- context [conn (describe_event (ev_details e)) ≫= ?k] =>
      match goal with |- context [(_ ≫= k) ?h2] => destruct (conn_reads_on (describe_event (ev_details e)) h2 _) as (desc & w' & E' & W') end end.
    erewrite bind_run; [|exact E']. erewrite bind_run; [|reflexivity].
    do 4 eexists. split; [reflexivity|]. split; [by transitivity w|]. split; [by do 2 eexists|].
    eexists. split; [reflexivity|]. by exists e, desc.
  - erewrite bind_run; [|reflexivity]. erewrite bind_run; [|reflexivity].
    exists (ds_connection (h_session h)), (ds_suspensions (h_session h)), (h_ticks h), []. split_and!; [|reflexivity|done|done].
    unfold reported. rewrite app_nil_r. by destruct h as [[] ? ?].
Qed.

(** ** The verdict on the first hit *)

Lemma sample_reads hit_ threads n h p :
  exists r p', sample_threads hit_ threads n (put h p) = (r, put h p') /\ read_more p p'.
Proof.
  revert n p. induction threads as [|t threads IH]; intros n p; cbn [sample_threads].
  { do 2 eexists. split; [reflexivity|apply read_more_refl]. }
  erewrite bind_run; [|reflexivity]. destruct ((t =? hit_) || _); [apply IH|].
  destruct (conn_reads (suspend_count t) h p _) as (c & p1 & E & _ & R1). erewrite bind_run; [|exact E].
  destruct c as [c|e]; [|by do 2 eexists]. destruct (c <=? 0); [by do 2 eexists|].
  destruct (S n =? 3)%nat; [by do 2 eexists|].
  destruct (IH (S n) p1) as (r & p2 & E2 & R2). exists r, p2. split; [done|]. by eapply read_more_trans.
Qed.

Lemma escalate_step thread h p :
  exists esc w, escalate_to_vm_suspend thread (put h p) = (esc, put h (wire_in w p)) /\
    steered (w_log w) = steered (w_log (pu_wire p)) ++ [(1, 8, [])].
Proof.
  unfold escalate_to_vm_suspend, another_thread_is_suspended. erewrite bind_run; [|apply conn_put].
  set (p1 := wire_in _ p).
  assert (H1 : steered (w_log (pu_wire p1)) = steered (w_log (pu_wire p)) ++ [(1, 8, [])]) by apply suspend_all_steers.
  destruct (fst (suspend_all (pu_wire p))); [by exists None, (pu_wire p1)|].
  assert (K : exists r p2, (all ← conn get_all_threads; match all with Err _ => mret None | Ok all => sample_threads thread all 0 end
    : H (option bool)) (put h p1) = (r, put h p2) /\ read_more p1 p2).
  { destruct (conn_reads get_all_threads h p1 _) as (all & p2 & E & _ & R2). erewrite bind_run; [|exact E].
    destruct all as [all|]; [|by do 2 eexists].
    destruct (sample_reads thread all 0 h p2) as (r & p3 & E3 & R3). exists r, p3. split; [done|]. by eapply read_more_trans. }
  destruct K as (r & p2 & E & w & -> & W). erewrite bind_run; [|exact E]. eexists _, w. split; [reflexivity|].
  by rewrite (steady_steered _ _ W).
Qed.

(** The one command that lets a dropped hit go. *)
Definition release_command (thread : Z) (held_thread_only : bool) : Z * Z * bytes :=
  if held_thread_only then (11, 3, put_be 8 thread) else (1, 9, []).

Lemma release_step thread held h p :
  exists w, release_dropped_hit thread held (put h p) = (tt, put h (wire_in w p)) /\
    steered (w_log w) = steered (w_log (pu_wire p)) ++ [release_command thread held].
Proof.
  unfold release_dropped_hit, release_command.
  destruct held; (erewrite bind_run; [|apply conn_put]); eexists; (split; [reflexivity|]).
  - apply resume_thread_steers.
  - apply resume_all_steers.
Qed.

(** Why a hit of [sp] was dropped: its method is not the one asked for, or its condition answered false. *)
Definition rejected (es : EventSet) (thread : Z) (loc : Location) (req : Z) (wrong : bool) (sp : StopPoint) : Prop :=
  if wrong then exists w, fst (method_name_matches (method_filter sp) loc w) = false
  else exists cond w, sp_condition sp = Some cond /\ fst (condition_holds thread cond (hit_bindings es req) w) = false.

(** The state after a hit counted or discarded, whoever owns its request. *)
Definition count_hit (req : Z) (wrong : bool) : SessionState -> SessionState :=
  change_stop_point (fun sp => owns_request sp req) (counted_hit wrong).

Record judged (es : EventSet) (held : bool) (thread : Z) (loc : Location) (req : Z) (h : Host) (p p' : PumpState) (dropped wrong : bool)
    (esc : option FailedEscalation) : Prop := {
  ju_state : pu_state p' = count_hit req wrong (pu_state p);
  ju_wrong : wrong = true -> dropped = true;
  ju_dropped : dropped = true -> esc = None /\ exists sp, owner req (h_session (put h p)) = Some sp /\
    rejected es thread loc req wrong sp;
  ju_escalated : is_Some esc -> held = true;
  ju_steered : steered (w_log (pu_wire p')) = steered (w_log (pu_wire p)) ++
    (if dropped then [release_command thread held]
     else if held && is_some (suspending_condition req (h_session (put h p))) then [(1, 8, [])] else []);
  ju_rest : pu_traces p' = pu_traces p /\ pu_clock p' = pu_clock p;
}.

Lemma counted_condition s req sp :
  stops_ok (ds_state s) -> owner req s = Some sp ->
  forall s', ds_state s' = count_hit req false (ds_state s) -> suspending_condition req s' = sp_condition sp.
Proof.
  intros Hok Ho s' Hs'. apply owner_spec in Ho as [Hl Hr]; [|done].
  assert (He : entry (ds_state s) (sp_id sp) sp) by by split.
  unfold count_hit in Hs'. rewrite (change_entry _ _ _ _ _ He Hr) in Hs'.
  assert (He' : entry (ds_state s') (sp_id sp) (hit sp)) by (rewrite Hs'; by apply (entry_set _ _ sp)).
  unfold suspending_condition. rewrite (proj2 (owner_spec s' req (hit sp) (en_ok _ _ _ He'))); [done|].
  split; [apply He'|exact Hr].
Qed.

Lemma count_hit_nobody s req wrong : owner req s = None -> count_hit req wrong (ds_state s) = ds_state s.
Proof.
  unfold owner, find_stop_point, count_hit, change_stop_point. by destruct (find_entry _ _) as [[id sp]|].
Qed.

(** The stop point's condition does not depend on its hit being counted. *)
Lemma suspending_counted s s' req :
  stops_ok (ds_state s) -> ds_state s' = count_hit req false (ds_state s) ->
  suspending_condition req s' = suspending_condition req s.
Proof.
  intros Hok Hs'. destruct (owner req s) as [sp|] eqn:Eo.
  - rewrite (counted_condition s req sp Hok Eo s' Hs'). unfold suspending_condition. by rewrite Eo.
  - rewrite (count_hit_nobody _ _ _ Eo) in Hs'. unfold suspending_condition, owner. by rewrite Hs'.
Qed.

Lemma judge_first es held thread loc req h p :
  stops_ok (pu_state p) ->
  exists dropped wrong esc p', judge_first_event es held thread loc req (put h p) = ((dropped, esc), put h p') /\
    judged es held thread loc req h p p' dropped wrong esc.
Proof.
  intros Hok. unfold judge_first_event. erewrite bind_run; [|reflexivity].
  set (mf := (sp ← owner req (h_session (put h p)); me ← method_exit sp; mx_method me : option string)).
  assert (K : exists ok p1, (if is_some mf then conn (method_name_matches mf loc) else mret true) (put h p) = (ok, put h p1) /\
    read_more p p1 /\ (ok = false -> is_Some mf /\ exists w, fst (method_name_matches mf loc w) = false)).
  { destruct mf as [want|]; [|by exists true, p; split_and!; [|apply read_more_refl|]].
    destruct (conn_reads (method_name_matches (Some want) loc) h p _) as (ok & p1 & E & Hok1 & R). exists ok, p1.
    split_and!; [done|done|]. intros ->. split; [by eexists|]. by exists (pu_wire p). }
  destruct K as (ok & p1 & E & (w1 & -> & W1) & Hmf). erewrite bind_run; [|exact E]. clear E.
  destruct ok; cbn [negb].
  - erewrite bind_run; [|reflexivity]. fold (count_hit req false). 
    set (p2 := state_in (count_hit req false (pu_state p)) (wire_in w1 p)).
    match goal with |- context [(session ≫= ?k) _] => change ((session ≫= k) _) with ((session ≫= k) (put h p2)) end.
    erewrite bind_run; [|reflexivity].
    rewrite (suspending_counted (h_session (put h p)) (h_session (put h p2)) req Hok eq_refl).
    destruct (suspending_condition req (h_session (put h p))) as [cond|] eqn:Ec.
    2: { exists false, false, None, p2. split; [done|]. split; try done. rewrite Ec, andb_false_r, app_nil_r.
      apply (steady_steered _ _ W1). }
    destruct (conn_reads (condition_holds thread cond (hit_bindings es req)) h p2 _) as (holds & p3 & E & Hholds & w3 & -> & W3).
    erewrite bind_run; [|exact E]. clear E.
    assert (W : steered (w_log w3) = steered (w_log (pu_wire p))) by (rewrite (steady_steered _ _ W3); apply (steady_steered _ _ W1)).
    destruct holds; [destruct held|].
    + destruct (escalate_step thread h (wire_in w3 p2)) as (esc & w4 & E & S). erewrite bind_run; [|exact E].
      exists false, false, esc, (wire_in w4 (wire_in w3 p2)). split; [done|].
      split; try done. rewrite Ec. cbn [pu_wire wire_in] in *. by rewrite S, W.
    + exists false, false, None, (wire_in w3 p2). split; [done|]. split; try done. by rewrite app_nil_r.
    + destruct (release_step thread held h (wire_in w3 p2)) as (w4 & E & S). erewrite bind_run; [|exact E].
      exists true, false, None, (wire_in w4 (wire_in w3 p2)). split; [done|].
      split; try done; [|by cbn [pu_wire wire_in] in *; rewrite S, W].
      intros _. split; [done|]. unfold suspending_condition in Ec. destruct (owner req _) as [sp|]; [|done]. exists sp.
      split; [done|]. by exists cond, (pu_wire p2).
  - destruct (release_step thread held h (wire_in w1 p)) as (w2 & E & S). erewrite bind_run; [|exact E].
    erewrite bind_run; [|reflexivity].
    exists true, true, None, (state_in (count_hit req true (pu_state p)) (wire_in w2 (wire_in w1 p))). split; [done|].
    split; try done.
    + intros _. split; [done|]. destruct (Hmf eq_refl) as [[f Hf] Hw]. unfold mf in Hf, Hw.
      destruct (owner req _) as [sp|]; [|done]. by exists sp.
    + cbn [pu_wire wire_in state_in] in *. rewrite S. by rewrite (steady_steered _ _ W1).
Qed.

(** ** The books of the first hit *)

Definition counted_stop (sp : StopPoint) : bool := is_some (sp_hit_count sp).

(** The first event's stop point after its hit: counted or discarded, and spent if it was counted. *)
Definition first_hit_stop (wrong : bool) (sp : StopPoint) : StopPoint :=
  if counted_stop sp then spend (counted_hit wrong sp) else counted_hit wrong sp.

(** The state after the first hit's books are closed. *)
Definition books_closed (req : Z) (wrong : bool) (s s' : SessionState) : Prop :=
  stops_ok s' /\ ss_pending_breakpoints s' = ss_pending_breakpoints s /\
  (forall id sp, ss_stop_points s !! id = Some sp -> req ∈ sp_request_ids sp ->
     ss_stop_points s' = <[id := first_hit_stop wrong sp]> (ss_stop_points s)) /\
  ((forall id sp, ss_stop_points s !! id = Some sp -> req ∉ sp_request_ids sp) -> s' = s).

Lemma counted_hit_frame wrong sp :
  sp_id (counted_hit wrong sp) = sp_id sp /\ sp_request_ids (counted_hit wrong sp) = sp_request_ids sp /\
  sp_hit_count (counted_hit wrong sp) = sp_hit_count sp.
Proof. by destruct wrong. Qed.

Lemma owner_after_count s s' req wrong :
  stops_ok (ds_state s) -> ds_state s' = count_hit req wrong (ds_state s) ->
  stops_ok (ds_state s') /\ owner req s' = counted_hit wrong <$> owner req s.
Proof.
  intros Hok Hs'. destruct (owner req s) as [sp|] eqn:Eo.
  - apply owner_spec in Eo as [Hl Hr]; [|done]. assert (He : entry (ds_state s) (sp_id sp) sp) by by split.
    unfold count_hit in Hs'. rewrite (change_entry _ _ _ _ _ He Hr) in Hs'.
    destruct (counted_hit_frame wrong sp) as (F1 & F2 & _).
    assert (He' : entry (ds_state s') (sp_id sp) (counted_hit wrong sp)).
    { rewrite Hs'. apply (entry_set _ _ sp); [done|done|by rewrite F2]. }
    split; [apply He'|]. apply owner_spec; [apply He'|]. rewrite F1, F2. split; [apply He'|done].
  - rewrite (count_hit_nobody _ _ _ Eo) in Hs'. unfold owner in *. by rewrite Hs'.
Qed.

Lemma count_then_spend s s1 req wrong h p :
  stops_ok (ds_state s) -> ds_state s1 = count_hit req wrong (ds_state s) -> pu_state p = ds_state s1 ->
  exists p', spend_if_counted req (put h p) = (tt, put h p') /\ steady (pu_wire p) (pu_wire p') /\
    pu_traces p' = pu_traces p /\ books_closed req wrong (ds_state s) (pu_state p').
Proof.
  intros Hok Hs1 Hp. destruct (owner_after_count s s1 req wrong Hok Hs1) as [Hok1 Ho].
  destruct (owner req s) as [sp|] eqn:Eo; simpl in Ho.
  - apply owner_spec in Ho as [Hl1 Hr1]; [|done]. destruct (counted_hit_frame wrong sp) as (F1 & F2 & F3).
    assert (He1 : entry (pu_state p) (sp_id sp) (counted_hit wrong sp)) by (rewrite Hp; split; [done|by rewrite <- F1]).
    apply owner_spec in Eo as [Hl Hr]; [|done]. assert (He : entry (ds_state s) (sp_id sp) sp) by by split.
    assert (Hsp : pu_state p = set_stop (sp_id sp) (counted_hit wrong sp) (ds_state s)).
    { rewrite Hp, Hs1. by apply change_entry. }
    destruct (spend_entry h p (sp_id sp) _ req He1 Hr1) as (p' & E & w & -> & W).
    eexists. split; [exact E|]. split; [exact W|]. split; [done|]. cbn [pu_state wire_in state_in].
    unfold books_closed, first_hit_stop, counted_stop. rewrite F3.
    assert (Huniq : forall id a, ss_stop_points (ds_state s) !! id = Some a -> req ∈ sp_request_ids a -> id = sp_id sp /\ a = sp).
    { intros id a Ha Hra. assert (id = sp_id sp) as -> by (by apply (so_once _ Hok id (sp_id sp) a sp req)). by simplify_eq. }
    destruct (sp_hit_count sp) as [n|] eqn:Ec; cbn [is_some].
    + set (notes := if sp_trace _ then _ else _).
      destruct (note_all_queue notes (pu_state p)) as (_ & N1 & N2).
      split_and!; [|simpl; by rewrite N2, Hsp| |].
      * eapply en_ok. apply (entry_set _ (sp_id sp) (counted_hit wrong sp)); [by apply entry_note|done|by intros x ?%elem_of_nil].
      * intros id a Ha Hra. destruct (Huniq id a Ha Hra) as [-> ->]. simpl. rewrite N1, Hsp. simpl. by rewrite insert_insert_eq, Ec.
      * intros Hno. by destruct (Hno _ _ Hl Hr).
    + split_and!; [apply He1|by rewrite Hsp| |by intros Hno; destruct (Hno _ _ Hl Hr)].
      intros id a Ha Hra. destruct (Huniq id a Ha Hra) as [-> ->]. by rewrite Ec, Hsp.
  - exists p. split; [by apply spend_nobody; unfold owner in *; rewrite <- Hp in Ho|]. split; [reflexivity|]. split; [done|].
    assert (Hsame : pu_state p = ds_state s) by (rewrite Hp, Hs1; by apply count_hit_nobody).
    rewrite Hsame. split_and!; [done|done| |done].
    intros id sp Hl Hr. exfalso. assert (owner req s = Some sp) as K; [|by rewrite K in Eo].
    apply owner_spec; [done|]. by rewrite (so_keyed _ Hok _ _ Hl).
Qed.

Lemma stop_id_after_count s s' req wrong q :
  stops_ok (ds_state s) -> ds_state s' = count_hit req wrong (ds_state s) -> q = req ->
  stop_point_id q s' = stop_point_id q s.
Proof.
  intros Hok Hs' ->. unfold stop_point_id. rewrite (proj2 (owner_after_count s s' req wrong Hok Hs')).
  destruct (owner req s); [|done]. simpl. by rewrite (proj1 (counted_hit_frame _ _)).
Qed.

(** What a kept set leaves: reported, and held if it suspends. *)
Definition kept (es : EventSet) (esc : option FailedEscalation) (h h' : Host) : Prop :=
  let s := h_session h in let s' := h_session h' in
  ds_events s' = snd (ring_push es esc (ds_events s)) /\
  ds_last_thread s' = match event_thread es with Some tid => Some tid | None => ds_last_thread s end /\
  ds_pending_step s' = ds_pending_step s /\
  if event_suspends es
  then (exists name at_, ds_suspensions s' = hold_of es esc name at_ (ds_suspensions s)) /\
       exists a, h_alerts h' = h_alerts h ++ [a] /\ alert_of es esc h a
  else ds_suspensions s' = ds_suspensions s /\ h_alerts h' = h_alerts h.

Lemma report_keeps es esc h p : 
  (forall e, head (es_events es) = Some e ->
     stop_point_id (ev_request_id e) (h_session (put h p)) = stop_point_id (ev_request_id e) (h_session h)) ->
  exists h', report es esc (put h p) = (tt, h') /\ kept es esc h h' /\
    steady (pu_wire p) (ds_connection (h_session h')) /\ ds_state (h_session h') = pu_state p /\
    ds_traces (h_session h') = pu_traces p.
Proof.
  intros Hid. destruct (report_reports es esc (put h p)) as (w & su & k & alerts & E & W & Hsu).
  exists (reported es esc w su k alerts (put h p)). split; [exact E|]. split_and!; try done.
  - unfold kept. split_and!; try done. destruct (event_suspends es).
    + destruct Hsu as [(name & at_ & ->) (a & -> & Ha)]. split; [by exists name, at_|]. exists a. split; [done|].
      destruct Ha as (e & desc & He & ->). exists e, desc. split; [done|]. by rewrite Hid.
    + destruct Hsu as [-> ->]. split; [done|]. apply app_nil_r.
Qed.

(** C30. No stop is lost or doubled. Of a set of events the session either keeps a record of the whole
    set or lets the debuggee go, never both and never neither. It is dropped only if its first event is
    a hit of a stop point that narrows it to another method, or whose condition answered false; then one
    command is sent, the resume that undoes what the set had suspended (the hit thread, or the whole
    virtual machine), and ring, suspensions, alerts and last thread stay. Otherwise nothing is resumed:
    the set is in the ring, and if it suspends, the suspension is recorded with its cause and one alert
    goes out; a condition that held on the hit thread alone suspends the rest of the virtual machine
    with one command, and only if that failed is the thread recorded as held alone. The first event's
    stop point alone is counted or discarded, and spent if it is counted. *)
Theorem kept_or_released (h : Host) (es : EventSet) :
  let s := h_session h in
  stops_ok (ds_state s) ->
  let h' := snd (store_reportable_event es h) in
  let s' := h_session h' in
  let held := es_suspend_policy es =? 1 in
  exists (dropped wrong : bool) (esc : option FailedEscalation),
    (dropped = true -> undisturbed h h' /\ exists thread loc req sp,
       first_hit es = Some (thread, loc, req) /\ owner req s = Some sp /\
       rejected es thread loc req wrong sp /\
       steered (w_log (ds_connection s')) = steered (w_log (ds_connection s)) ++ [release_command thread held]) /\
    (dropped = false -> wrong = false /\ kept es esc h h' /\
       exists escalated : bool, steered (w_log (ds_connection s')) =
         steered (w_log (ds_connection s)) ++ (if escalated then [(1, 8, [])] else []) /\
       (escalated = true <-> held = true /\ exists thread loc req, first_hit es = Some (thread, loc, req) /\
          is_Some (suspending_condition req s)) /\ (is_Some esc -> held = true)) /\
    ds_traces s' = ds_traces s /\
    match first_hit es with
    | Some (_, _, req) => books_closed req wrong (ds_state s) (ds_state s')
    | None => dropped = false /\ ds_state s' = ds_state s
    end.
Proof.
  cbv zeta. intros Hok. destruct (store_reportable_event es h) as [[] h'] eqn:E. cbn [snd].
  set (held := es_suspend_policy es =? 1). unfold store_reportable_event in E.
  rewrite <- (put_pump_of h) in E. set (p := pump_of h) in *. assert (Hp : put h p = h) by apply put_pump_of.
  change (es_suspend_policy es =? policy_byte EventThread) with held in E.
  destruct (first_hit es) as [[[thread loc] req]|] eqn:Ef.
  - destruct (judge_first es held thread loc req h p Hok) as (dropped & wrong & esc & p1 & E1 & [J1 J2 J3 J4 J5 [J6 J7]]).
    erewrite bind_run in E; [|exact E1]. cbn [fst snd] in E. rewrite Hp in J3, J5.
    destruct dropped.
    + destruct (count_then_spend (h_session h) (h_session (put h p1)) req wrong h p1 Hok J1 eq_refl) as (p2 & E2 & W2 & T2 & B2).
      erewrite bind_run in E; [|reflexivity]. rewrite E2 in E. injection E as <-.
      exists true, wrong, esc. split_and!; [intros _|done|exact (eq_trans T2 J6)|exact B2].
      split; [by eexists|]. destruct (J3 eq_refl) as [_ (sp & Ho & Hs)]. exists thread, loc, req, sp.
      split_and!; try done. change (steered (w_log (pu_wire p2)) = steered (w_log (pu_wire p)) ++ [release_command thread held]).
      by rewrite (steady_steered _ _ W2).
    + destruct wrong; [by discriminate J2|].
      assert (Hid : forall e, head (es_events es) = Some e ->
        stop_point_id (ev_request_id e) (h_session (put h p1)) = stop_point_id (ev_request_id e) (h_session h)).
      { intros e He. apply (stop_id_after_count (h_session h) (h_session (put h p1)) req false); [done|exact J1|].
        unfold first_hit in Ef. rewrite He in Ef. simpl in Ef. destruct (event_location _) as [[? ?]|]; [|done]. by injection Ef. }
      destruct (report_keeps es esc h p1 Hid) as (h2 & E2 & (K1 & K2 & K3 & K4) & W2 & S2 & T2).
      erewrite bind_run in E; [|exact E2]. rewrite <- (put_pump_of h2) in E.
      destruct (count_then_spend (h_session h) (h_session (put h p1)) req false h2 (pump_of h2) Hok J1 S2) as (p3 & E3 & W3 & T3 & B3).
      rewrite E3 in E. injection E as <-. exists false, false, esc.
      split_and!; [done|intros _|exact (eq_trans T3 (eq_trans T2 J6))|exact B3]. split; [done|]. split; [by split_and!|].
      exists (held && is_some (suspending_condition req (h_session h))). split_and!; [| |done].
      * exact (eq_trans (steady_steered _ _ W3) (eq_trans (steady_steered _ _ W2) J5)).
      * rewrite andb_true_iff. split.
        -- intros [Hh Hc]. split; [done|]. exists thread, loc, req. split; [done|].
           by destruct (suspending_condition req _); [eexists|].
        -- intros [Hh (? & ? & ? & [= <- <- <-] & [c ->])]. done.
  - erewrite bind_run in E; [|reflexivity]. cbn [fst snd] in E.
    destruct (report_keeps es None h p ltac:(by rewrite Hp)) as (h2 & E2 & K & W2 & S2 & T2).
    erewrite bind_run in E; [|exact E2]. injection E as <-. exists false, false, None.
    split_and!; [done|intros _|exact T2|done|exact S2]. split; [done|]. split; [done|].
    exists false. split_and!; [by rewrite app_nil_r; apply (steady_steered _ _ W2)| |by intros []].
    split; [done|]. by intros (_ & ? & ? & ? & ? & _).
Qed.
End Reported.

(** A conditional stop point on the hit thread, whose condition does not hold, and one whose condition does. *)
Lemma kept_or_released_witness :
  let h := host_with [sample_stop "bp_2" [9] false (Some "x == 1") None None] in
  stops_ok (ds_state (h_session h)) /\
  exists (dropped wrong : bool) (esc : option FailedEscalation),
    let h' := snd (store_reportable_event (BC := network_order) (D := silent_debuggee) (CL := steady_clock)
      (I := blind_inspection false) (StopOrder := some_order) (hit_set 1 [9]) h) in
    books_closed 9 wrong (ds_state (h_session h)) (ds_state (h_session h')) /\
    ds_traces (h_session h') = ds_traces (h_session h) /\ (dropped = false -> kept (StopOrder := some_order) (hit_set 1 [9]) esc h h').
Proof.
  intros h. split; [apply host_with_one|].
  destruct (kept_or_released (BC := network_order) (D := silent_debuggee) (CL := steady_clock)
    (I := blind_inspection false) (StopOrder := some_order) h (hit_set 1 [9]) (host_with_one _))
    as (dropped & wrong & esc & _ & K & T & B).
  exists dropped, wrong, esc. split_and!; [exact B|exact T|]. intros Hd. by destruct (K Hd) as (_ & ? & _).
Defined.

(** Every thread has one frame. *)
Definition framed_debuggee : Debuggee := {|
  issue_outcome _ _ := None;
  reply_outcome _ p := Ok {|
    rp_id := cp_id p; rp_error_code := 0;
    rp_data := if (cp_command_set p =? command_sets.THREAD_REFERENCE) && (cp_command p =? thread_commands.FRAMES)
               then be_bytes 4 1 ++ be_bytes 8 1 ++ be_bytes 1 1 ++ be_bytes 8 1 ++ be_bytes 8 2 ++ be_bytes 8 0 else [] |};
  lapses_unissued _ _ := false;
  lapses_unanswered _ _ := false
|}.

(** Two stop points at one place: the condition of the first does not hold, the second has none. The set
    is dropped for the first, so the second is neither counted nor reported. *)
Example second_stop_dropped :
  let conditional := sample_stop "bp_2" [9] false (Some "x == 1") None None in
  let plain := sample_stop "bp_3" [10] false None None None in
  let '(_, h) := store_reportable_event (BC := network_order) (D := framed_debuggee) (CL := steady_clock)
      (I := blind_inspection false) (StopOrder := some_order) (hit_set 2 [9; 10]) (host_with [conditional; plain]) in
  (length (ring_held (ds_events (h_session h))), sp_hits <$> ss_stop_points (ds_state (h_session h)) !! "bp_3") = (0%nat, Some 0).
Proof. vm_compute. reflexivity. Qed.
