(* ===== verification/Watchdog.v ===== *)
(** * Letting the debuggee go ([mcp-server/src/handlers.rs]: [resume_and_verify],
      [release_thread_suspends], [spawn_watchdog])

    The operations that resume the virtual machine and the threads a session holds, each verified
    against the debuggee's own counts, and one round of the watchdog that uses them when something was
    left suspended for too long. *)

From S2P Require Import Prelude Protocol Types Reader Events Connection Client EventRequest StopPoint.
From S2P Require Import EventRing MonitorClock Suspensions Traces Session Manager Api Text Host.

Definition MAX_RESUME_ATTEMPTS : Z := 8.

Definition ago (d : Z) : string :=
  let secs := as_secs d in
  if secs <=? 59 then pretty secs +s+ "s ago"
  else if secs <=? 3599 then pretty (secs / 60) +s+ "m ago"
  else pretty (secs / 3600) +s+ "h " +s+ pretty ((secs mod 3600) / 60) +s+ "m ago".

(** [<[String]>::join(", ")]. *)
Fixpoint join (sep : string) (l : list string) : string :=
  match l with
  | [] => ""
  | [s] => s
  | s :: l => s +s+ sep +s+ join sep l
  end.

Definition hex_thread (tid : Z) : string := "0x" +s+ show_hex tid.
Definition quoted (s : string) : string := dquote +s+ s +s+ dquote.

Inductive ThreadLiveness : Type :=
| Live (thread_status suspend_status : Z)
| Finished
| Vanished
| Unreadable (e : string).

Section Watchdog.
Context `{BC : BytesCrate} `{D : Debuggee} `{CL : Clock}.
Context {StopOrder : IterOrder string StopPoint}.

(** ** Resuming, verified *)

Definition resume_and_verify : H (result string (option string)) :=
  s ← session;
  match ds_last_thread s with
  | None =>
    r ← conn resume_all;
    mret (match r with Ok _ => Ok None | Err e => Err ("Failed to resume: " +s+ display_error e) end)
  | Some probe =>
    r ← conn (resume_all_fully probe MAX_RESUME_ATTEMPTS);
    mret (match r with
    | Err e => Err ("Failed to resume: " +s+ display_error e)
    | Ok (issued, left_) =>
      if 0 <? left_ then
        Ok (Some ("the VM is STILL suspended after " +s+ pretty issued +s+ " resume(s) — thread " +s+ hex_thread probe +s+
          " has " +s+ pretty left_ +s+ " suspend(s) left. Something is holding it beyond this session; call debug.continue again, or debug.panic"))
      else Ok (if 1 <? issued then Some ("cleared a suspend depth of " +s+ pretty issued) else None)
    end)
  end.

Definition classify_thread (tid : Z) : H ThreadLiveness :=
  r ← conn (get_thread_status tid);
  mret (match r with
  | Ok (ts, ss) => if ts =? 0 then Finished else Live ts ss
  | Err (JdwpErrorCode code name) =>
    if (code =? 20) || (code =? 10) then Vanished else Unreadable (display_error (JdwpErrorCode code name))
  | Err e => Unreadable (display_error e)
  end).

(** At most [n] resumes of one thread, its count read after each; what is left of it. *)
Fixpoint release_loop (n : nat) (tid left_ : Z) : H Z :=
  match n with
  | O => mret left_
  | S n =>
    if left_ <=? 0 then mret left_
    else
      r ← conn (resume_thread tid);
      match r with
      | Err _ => mret 0
      | Ok _ => count ← conn (suspend_count tid); release_loop n tid (unwrap_or 0 count)
      end
  end.

Definition on_suspensions {A} (f : Suspensions -> A * Suspensions) : H A :=
  of_session (fun s => let '(a, su) := f (ds_suspensions s) in (a, with_suspensions (fun _ => su) s)).

(** The threads released and those still suspended. *)
Fixpoint release_each (held : list (Z * string)) (freed stuck : list string) : H (list string * list string) :=
  match held with
  | [] => mret (freed, stuck)
  | (tid, name) :: held =>
    count ← conn (suspend_count tid);
    left_ ← release_loop (Z.to_nat MAX_RESUME_ATTEMPTS) tid (unwrap_or 0 count);
    if 0 <? left_ then
      release_each held freed (stuck ++ [hex_thread tid +s+ " " +s+ quoted name +s+ " (" +s+ pretty left_ +s+ " left)"])
    else
      _ ← on_suspensions (forget_thread tid);
      release_each held (freed ++ [hex_thread tid +s+ " " +s+ quoted name]) stuck
  end.

Definition is_wanted (only : option (list Z)) (tid : Z) : bool :=
  match only with Some ids => bool_decide (tid ∈ ids) | None => true end.

Definition release_thread_suspends (only : option (list Z)) : H (list string * list string) :=
  s ← session;
  let held := map (fun e => (fst e, ts_name (snd e)))
    (base.filter (fun e => is_wanted only (fst e) = true) (btree_iter (su_threads (ds_suspensions s)))) in
  release_each held [] [].

(** The held threads the debuggee still counts as suspended; the others are forgotten. *)
Fixpoint verify_each (ids : list Z) (still : list string) : H (list string) :=
  match ids with
  | [] => mret still
  | tid :: ids =>
    count ← conn (suspend_count tid);
    if 0 <? unwrap_or 0 count then
      s ← session;
      match su_threads (ds_suspensions s) !! tid with
      | Some rec =>
        at_ ← now;
        verify_each ids (still ++ [hex_thread tid +s+ " " +s+ quoted (ts_name rec) +s+ " (" +s+ pretty (unwrap_or 0 count) +s+
          " suspend(s), held " +s+ ago (saturating_duration_since at_ (ts_since rec)) +s+ ")"])
      | None => verify_each ids still
      end
    else
      _ ← on_suspensions (forget_thread tid); verify_each ids still
  end.

Definition verify_thread_suspends : H string :=
  s ← session;
  still ← verify_each (map fst (btree_iter (su_threads (ds_suspensions s)))) [];
  mret (match still with
  | [] => ""
  | _ => newline +s+ "   ⏸️  " +s+ pretty (zlen still) +s+ " thread(s) held by this session are STILL suspended and this did not release them: " +s+
      join ", " still +s+ newline +s+ "   That is deliberate — debug.continue clears the VM's suspend depth, which is a different count. debug.resume_thread gives a thread back; debug.panic clears both."
  end).

(** ** The watchdog *)

(** A pending step goes before the resume. *)
Definition drop_pending_step : H unit :=
  s ← session;
  match ds_pending_step s with
  | Some (req, _) => _ ← on_session (with_pending_step None); _ ← conn (clear_step req); mret tt
  | None => mret tt
  end.

(** Disarm what suspended the virtual machine; what the note says of it, and the id disarmed. *)
Definition disarm_cause (cause : SuspendCause) : H (string * list string) :=
  match cause with
  | ManualPause => mret ("suspended by debug.pause (a manual pause — no stop point to disarm)", [])
  | CauseStopPoint req =>
    what ← disarm_request req;
    mret (match what with
    | None => ("(its stop point was already cleared, so there was nothing left to disarm)", [])
    | Some what =>
      ("and disabled " +s+ di_description what +s+ " so it can't re-freeze the VM — re-arm it with debug.toggle_stop_point (or use trace:true) when ready",
       [di_id what])
    end)
  end.

Definition note_rescue (note : string) (disarmed : list string) (level : string) : H unit :=
  _ ← on_session (with_events (note_watchdog note disarmed));
  alert (WatchdogAlert level note).

(** [detail.starts_with("cleared")]. *)
Definition reports_cleared (detail : string) : bool := starts_with (chars_of "cleared") (bytes_of_string detail).

Definition rescue_vm (cause : SuspendCause) (secs : Z) : H unit :=
  _ ← drop_pending_step;
  '(disarmed, disarmed_id) ← disarm_cause cause;
  r ← resume_and_verify;
  let after := "after " +s+ pretty secs +s+ "s" in
  match r with
  | Ok None =>
    _ ← on_session (with_suspensions mark_resumed);
    note_rescue ("watchdog auto-resumed the VM " +s+ after +s+ " " +s+ disarmed) disarmed_id "warning"
  | Ok (Some detail) =>
    if reports_cleared detail then
      _ ← on_session (with_suspensions mark_resumed);
      note_rescue ("watchdog auto-resumed the VM " +s+ after +s+ " " +s+ disarmed +s+ " (" +s+ detail +s+ ")") disarmed_id "warning"
    else
      note_rescue ("⚠️ watchdog tried to resume the VM " +s+ after +s+ " " +s+ disarmed +s+ ", but " +s+ detail) disarmed_id "error"
  | Err e =>
    note_rescue ("⚠️ watchdog could not resume the VM " +s+ after +s+ ": " +s+ e) disarmed_id "error"
  end.

(** The requests behind the threads held by a failed escalation. *)
Definition armed_behind (overdue : list Z) (s : Suspensions) : list Z :=
  omap (fun tid =>
    match ts_hold <$> su_threads s !! tid with
    | Some (HoldFailedEscalation req) => Some req
    | _ => None
    end) overdue.

Fixpoint disarm_each (reqs : list Z) (disarmed ids : list string) : H (list string * list string) :=
  match reqs with
  | [] => mret (disarmed, ids)
  | req :: reqs =>
    what ← disarm_request req;
    match what with
    | Some what => disarm_each reqs (disarmed ++ [di_description what]) (ids ++ [di_id what])
    | None => disarm_each reqs disarmed ids
    end
  end.

Definition rescue_overdue_thread_suspends (secs : Z) : H unit :=
  at_ ← now;
  s ← session;
  let overdue := overdue_threads secs at_ (ds_suspensions s) in
  if bool_decide (overdue = []) then mret tt
  else
    let held_for := longest_held overdue at_ (ds_suspensions s) in
    '(disarmed, disarmed_ids) ← disarm_each (armed_behind overdue (ds_suspensions s)) [] [];
    let also :=
      match disarmed with
      | [] => ""
      | _ => ", and disabled " +s+ join ", " disarmed +s+ " so it cannot re-freeze the thread — re-arm with debug.toggle_stop_point (or use trace:true) when ready"
      end in
    '(freed, stuck) ← release_thread_suspends (Some overdue);
    match stuck with
    | [] =>
      note_rescue ("watchdog released " +s+ pretty (zlen freed) +s+ " held thread(s) after " +s+ pretty secs +s+ "s (held up to " +s+
        ago held_for +s+ "): " +s+ join ", " freed +s+ also) disarmed_ids "warning"
    | _ =>
      note_rescue ("⚠️ watchdog tried to release " +s+ pretty (zlen freed + zlen stuck) +s+ " held thread(s) after " +s+ pretty secs +s+
        "s, but " +s+ pretty (zlen stuck) +s+ " are STILL suspended: " +s+ join ", " stuck +s+ also) disarmed_ids "error"
    end.

(** One round, between two sleeps of two seconds. *)
Definition watchdog_tick (secs : Z) : H unit :=
  s ← session;
  _ ← match su_vm (ds_suspensions s) with
      | Some vm =>
        at_ ← now;
        if secs <=? as_secs (saturating_duration_since at_ (vs_since vm)) then rescue_vm (vs_cause vm) secs else mret tt
      | None => mret tt
      end;
  rescue_overdue_thread_suspends secs.

(** [n] rounds; a limit of zero seconds is no watchdog. *)
Fixpoint watchdog_rounds (secs : Z) (n : nat) : H unit :=
  match n with
  | O => mret tt
  | S n => _ ← watchdog_tick secs; watchdog_rounds secs n
  end.
Definition watchdog (secs : Z) (n : nat) : H unit := if secs =? 0 then mret tt else watchdog_rounds secs n.
End Watchdog.
