(* ===== verification/Honest.v ===== *)
(** * A debuggee that counts its suspensions

    The debuggee the theorems about stopping and resuming are proved against: it counts the suspensions
    of each thread the way JDWP does ([honest]). What the shared steps of the handlers do to a host that
    is connected to it: nothing ([idles]), or nothing worse ([eases]). Handlers are run with weakest
    preconditions ([wp]). *)

From S2P Require Import Prelude Protocol Types Reader Events Connection Client EventRequest StopPoint.
From S2P Require Import EventRing MonitorClock Suspensions Traces Session Manager Api Text Condition Host EventPump Steering.
From S2P Require Import PumpFacts Watchdog.

(** ** A counting debuggee *)

Section Counting.
Context `{BC : BytesCrate} `{D : Debuggee}.

(** What a packet the debuggee took does to the suspend count of the thread whose id [body] encodes. *)
Definition depth_step (body : bytes) (d : Z) (e : WireEvent) : Z :=
  match e with
  | Issued p =>
    let concerns := (cp_command_set p =? command_sets.VIRTUAL_MACHINE) ||
      ((cp_command_set p =? command_sets.THREAD_REFERENCE) && bool_decide (cp_data p = body)) in
    let command := if cp_command_set p =? command_sets.VIRTUAL_MACHINE
      then (vm_commands.SUSPEND, vm_commands.RESUME) else (thread_commands.SUSPEND, thread_commands.RESUME) in
    if concerns && (cp_command p =? fst command) then d + 1
    else if concerns && (cp_command p =? snd command) then Z.max 0 (d - 1)
    else d
  | _ => d
  end.
Definition depth (c0 : Z -> Z) (t : Z) (log : list WireEvent) : Z := foldl (depth_step (put_be 8 t)) (c0 t) log.

(** Every packet is taken, suspending and resuming succeed, and a suspend count is answered truly. *)
Record honest (c0 : Z -> Z) : Prop := {
  ho_taken log p : issue_outcome log p = None;
  ho_steer log p : steers p = true ->
    reply_outcome log p = Ok {| rp_id := cp_id p; rp_error_code := 0; rp_data := [] |};
  ho_count log id t :
    reply_outcome log (with_data (new_command id command_sets.THREAD_REFERENCE thread_commands.SUSPEND_COUNT) (put_be 8 t)) =
    Ok {| rp_id := id; rp_error_code := 0; rp_data := put_be 4 (depth c0 t log) |};
}.

Context (c0 : Z -> Z) (HD : honest c0).

Lemma depth_app t l k : depth c0 t (l ++ k) = foldl (depth_step (put_be 8 t)) (depth c0 t l) k.
Proof. apply foldl_app. Qed.

Lemma depth_step_steady body d e : (forall p, e = Issued p -> steers p = false) -> depth_step body d e = d.
Proof.
  intros He. destruct e as [p|p er|p r|p|p]; try done. specialize (He p eq_refl). unfold depth_step.
  unfold steers, steering in He. apply bool_decide_eq_false in He.
  destruct (Z.eqb_spec (cp_command_set p) command_sets.VIRTUAL_MACHINE) as [Hs|Hs].
  - simpl. rewrite Hs in He. destruct (Z.eqb_spec (cp_command p) vm_commands.SUSPEND) as [Hc|Hc].
    { exfalso. apply He. rewrite Hc. by_compute. }
    destruct (Z.eqb_spec (cp_command p) vm_commands.RESUME) as [Hc'|Hc']; [|done].
    exfalso. apply He. rewrite Hc'. by_compute.
  - simpl. destruct (Z.eqb_spec (cp_command_set p) command_sets.THREAD_REFERENCE) as [Ht|Ht]; [|done].
    rewrite Ht in He. destruct (bool_decide (cp_data p = body)); [|done]. simpl.
    destruct (Z.eqb_spec (cp_command p) thread_commands.SUSPEND) as [Hc|Hc].
    { exfalso. apply He. rewrite Hc. by_compute. }
    destruct (Z.eqb_spec (cp_command p) thread_commands.RESUME) as [Hc'|Hc']; [|done].
    exfalso. apply He. rewrite Hc'. by_compute.
Qed.

Lemma depth_steady t w w' : steady w w' -> depth c0 t (w_log w') = depth c0 t (w_log w).
Proof.
  intros (new & -> & HF & _). rewrite depth_app. generalize (depth c0 t (w_log w)) as d.
  induction new as [|e new IH]; intros d; [done|]. cbn [foldl]. rewrite depth_step_steady.
  - apply IH. unfold attempts in *. simpl in HF. destruct (attempted e); [by inversion HF|done].
  - intros p ->. simpl in HF. by inversion HF.
Qed.

(** A command acknowledged by an honest debuggee. *)
Lemma acknowledged set command body w :
  steering set command = true ->
  exists w' p, (reply ← exchange (request set command body); of_result (acknowledge reply) : M unit) w = (Ok tt, w') /\
    cp_command_set p = set /\ cp_command p = command /\ cp_data p = body /\
    forall t, depth c0 t (w_log w') = depth_step (put_be 8 t) (depth c0 t (w_log w)) (Issued p).
Proof.
  intros Hs. set (pk := with_data (new_command (w_next_id w) set command) body).
  unfold exchange, send_command, mbind, m_bind, lift, request, mbind, st_bind, next_id, modify, issue_packet, await_reply,
    mret, st_ret, of_result, acknowledge. fold pk. simpl. rewrite (ho_taken _ HD). simpl.
  rewrite (ho_steer _ HD) by exact Hs. simpl. eexists _, pk. split; [done|]. split_and!; try done.
  intros t. simpl. rewrite <- (assoc_L (++)), depth_app. done.
Qed.

Lemma resume_all_honest w :
  exists w', resume_all w = (Ok tt, w') /\ forall t, depth c0 t (w_log w') = Z.max 0 (depth c0 t (w_log w) - 1).
Proof.
  destruct (acknowledged command_sets.VIRTUAL_MACHINE vm_commands.RESUME [] w eq_refl) as (w' & p & E & Hs & Hc & _ & Hd).
  exists w'. split; [exact E|]. intros t. rewrite Hd. unfold depth_step. by rewrite Hs, Hc.
Qed.

Lemma resume_thread_honest u w :
  exists w', resume_thread u w = (Ok tt, w') /\ depth c0 u (w_log w') = Z.max 0 (depth c0 u (w_log w) - 1) /\
    forall t, 0 <= depth c0 t (w_log w) -> 0 <= depth c0 t (w_log w') <= depth c0 t (w_log w).
Proof.
  destruct (acknowledged command_sets.THREAD_REFERENCE thread_commands.RESUME (put_be 8 u) w eq_refl) as (w' & p & E & Hs & Hc & Hb & Hd).
  exists w'. split; [exact E|]. split.
  - rewrite Hd. unfold depth_step. rewrite Hs, Hc, Hb, bool_decide_eq_true_2 by done. done.
  - intros t Ht. rewrite Hd. unfold depth_step. rewrite Hs, Hc, Hb. simpl. case_bool_decide; simpl; lia.
Qed.

Lemma suspend_count_honest t w :
  in_s 32 (depth c0 t (w_log w)) ->
  exists w', suspend_count t w = (Ok (depth c0 t (w_log w)), w') /\ forall u, depth c0 u (w_log w') = depth c0 u (w_log w).
Proof.
  intros Hr. pose proof (Steady_suspend_count t w) as W.
  assert (E : fst (suspend_count t w) = Ok (depth c0 t (w_log w))).
  { unfold suspend_count, exchange, thread_read_request, request, send_command, mbind, m_bind, st_bind, lift, next_id,
      modify, issue_packet, await_reply, mret, st_ret, of_result. simpl.
    rewrite (ho_taken _ HD). simpl. rewrite (ho_count _ HD), depth_app. cbn [foldl].
    rewrite depth_step_steady by (by intros p [= <-]).
    unfold decode_with, check_error, is_error. simpl.
    rewrite <- (app_nil_r (put_be 4 _)), (run_reader_reads read_i32 _ [] (depth c0 t (w_log w))); [done|].
    by apply read_i32_reads. }
  exists (snd (suspend_count t w)). split; [rewrite <- E; by destruct (suspend_count t w)|].
  intros u. by apply depth_steady.
Qed.

(** All counts are in range. *)
Definition counts_ok (w : World) : Prop := forall t, 0 <= depth c0 t (w_log w) < 2 ^ 31.

Lemma counts_range w t : counts_ok w -> in_s 32 (depth c0 t (w_log w)).
Proof. intros Hw. specialize (Hw t). unfold in_s. lia. Qed.

Lemma resume_until_honest n issued probe w :
  counts_ok w ->
  exists w', resume_until n issued probe w =
    (let d := depth c0 probe (w_log w) in
     (Ok (issued + Z.min (Z.of_nat n) (Z.max 1 d), Z.max 0 (d - Z.of_nat n)), w')) /\ counts_ok w' /\
    forall t, depth c0 t (w_log w') =
      Z.max 0 (depth c0 t (w_log w) - Z.min (Z.of_nat n) (Z.max 1 (depth c0 probe (w_log w)))).
Proof.
  revert issued w. induction n as [|n IH]; intros issued w Hw; cbn [resume_until].
  - destruct (suspend_count_honest probe w (counts_range _ _ Hw)) as (w' & E & Hd).
    unfold mbind, m_bind, lift, attempt, mret, m_ret. rewrite E. exists w'. specialize (Hw probe) as Hp. simpl.
    split_and!; [do 3 f_equal; lia|intros t; rewrite Hd; apply Hw|intros t; rewrite Hd; specialize (Hw t); lia].
  - destruct (resume_all_honest w) as (w1 & E1 & H1).
    assert (Hw1 : counts_ok w1) by (intros t; rewrite H1; specialize (Hw t); lia).
    destruct (suspend_count_honest probe w1 (counts_range _ _ Hw1)) as (w2 & E2 & H2).
    assert (Hw2 : counts_ok w2) by (intros t; rewrite H2; apply Hw1).
    unfold mbind at 1, m_bind at 1. rewrite E1. unfold mbind at 1, m_bind at 1, lift, attempt. rewrite E2.
    cbn [unwrap_or]. rewrite H1. specialize (Hw probe) as Hp. case_match eqn:Hle; reflect_bools.
    + exists w2. unfold mret, m_ret. split_and!; [do 3 f_equal; lia|done|].
      intros t. rewrite H2, H1. specialize (Hw t). lia.
    + destruct (IH (issued + 1) w2 Hw2) as (w3 & -> & Hw3 & Hd3). rewrite H2, H1 in *. exists w3.
      split_and!; [cbv zeta; do 3 f_equal; lia|done|]. intros t. rewrite Hd3, H2, H1. specialize (Hw t). lia.
Qed.
End Counting.

(** ** Weakest preconditions of handlers *)

Definition wp {A} (m : H A) (Q : A -> Host -> Prop) (h : Host) : Prop := let '(a, h') := m h in Q a h'.

Lemma wp_ret {A} (a : A) (Q : A -> Host -> Prop) h : Q a h -> wp (mret a) Q h.
Proof. done. Qed.
Lemma wp_bind {A B} (m : H A) (k : A -> H B) Q h : wp m (fun a => wp (k a) Q) h -> wp (m ≫= k) Q h.
Proof. unfold wp, mbind, h_bind. by destruct (m h). Qed.
Lemma wp_step {A B} (m : H A) (k : A -> H B) Q h a h1 : m h = (a, h1) -> wp (k a) Q h1 -> wp (m ≫= k) Q h.
Proof. intros E HQ. apply wp_bind. unfold wp at 1. by rewrite E. Qed.
Lemma wp_mono {A} (m : H A) (Q Q' : A -> Host -> Prop) h : wp m Q h -> (forall a h', Q a h' -> Q' a h') -> wp m Q' h.
Proof. unfold wp. destruct (m h). auto. Qed.
Lemma wp_conn {A} (m : World -> A * World) (Q : A -> Host -> Prop) h a w :
  m (ds_connection (h_session h)) = (a, w) ->
  Q a {| h_session := with_connection w (h_session h); h_ticks := h_ticks h; h_alerts := h_alerts h |} ->
  wp (conn m) Q h.
Proof. intros E HQ. unfold wp, conn. by rewrite E. Qed.

Section Rescue.
Context `{BC : BytesCrate} `{D : Debuggee} `{CL : Clock}.
Context {StopOrder : IterOrder string StopPoint}.
Context (c0 : Z -> Z) (HD : honest c0).

(** The suspend count of a thread, as the debuggee of a host has it. *)
Definition host_depth (t : Z) (h : Host) : Z := depth c0 t (w_log (ds_connection (h_session h))).

(** A well-formed host: request ids have one owner, counts are in range. *)
Record host_ok (h : Host) : Prop := {
  hk_stops : stops_ok (ds_state (h_session h));
  hk_counts : counts_ok c0 (ds_connection (h_session h));
}.

(** Nothing is suspended further, no request gains an owner, the clock moves on. *)
Record eases (h h' : Host) : Prop := {
  ea_ok : host_ok h -> host_ok h';
  ea_depth t : host_ok h -> host_depth t h' <= host_depth t h;
  ea_owner req : host_ok h -> owner req (h_session h) = None -> owner req (h_session h') = None;
  ea_ticks : (h_ticks h <= h_ticks h')%nat;
  ea_last : ds_last_thread (h_session h') = ds_last_thread (h_session h);
}.

#[global] Instance eases_preorder : PreOrder eases.
Proof.
  split.
  - intros h. split; auto. intros; lia.
  - intros h1 h2 h3 [A1 B1 C1 D1 E1] [A2 B2 C2 D2 E2]. split; auto; [|lia|congruence].
    intros t Hok. etransitivity; [apply B2|]; auto.
Qed.

(** What resumes nothing and holds what it held. *)
Record idles (h h' : Host) : Prop := {
  id_eases : eases h h';
  id_depth t : host_depth t h' = host_depth t h;
  id_held : ds_suspensions (h_session h') = ds_suspensions (h_session h);
}.

#[global] Instance idles_preorder : PreOrder idles.
Proof.
  split; [by intros h; split|]. intros h1 h2 h3 [A1 B1 C1] [A2 B2 C2]. split; [by etransitivity|intros t; by rewrite B2|congruence].
Qed.

Lemma idles_put h p p' :
  steady (pu_wire p) (pu_wire p') -> (pu_ticks p <= pu_ticks p')%nat ->
  (stops_ok (pu_state p) -> stops_ok (pu_state p') /\
     forall req, owner req (h_session (put h p)) = None -> owner req (h_session (put h p')) = None) ->
  idles (put h p) (put h p').
Proof.
  intros W Ht Hs. assert (Hd : forall t, host_depth t (put h p') = host_depth t (put h p)).
  { intros t. unfold host_depth. simpl. by apply depth_steady. }
  split; [split| |]; try done.
  - intros [H1 H2]. split; [by apply Hs|]. intros t. specialize (Hd t). unfold host_depth in Hd. rewrite Hd. apply H2.
  - intros t _. by rewrite Hd.
  - intros req [H1 _]. by apply Hs.
Qed.

(** Clearing whatever owns a request leaves nobody owning it. *)
Lemma disarm_idles req h :
  host_ok h -> wp (disarm_request req) (fun _ h' => idles h h' /\ owner req (h_session h') = None) h.
Proof.
  intros [Hok _]. rewrite <- (put_pump_of h). set (p := pump_of h).
  destruct (owner req (h_session (put h p))) as [sp|] eqn:Eo.
  - apply owner_spec in Eo as [Hl Hr]; [|done]. assert (He : entry (pu_state p) (sp_id sp) sp) by by split.
    destruct (disarm_entry h p (sp_id sp) sp req He Hr) as (p' & E & w & -> & W). unfold wp. rewrite E.
    set (notes := if sp_trace sp then [req] else []) in *.
    assert (Hen : entry (note_all notes (pu_state p)) (sp_id sp) sp) by by apply entry_note.
    assert (Hen' : entry (set_stop (sp_id sp) (disabled sp) (note_all notes (pu_state p))) (sp_id sp) (disabled sp))
      by (apply (entry_set _ _ sp); [done|done|by intros x ?%elem_of_nil]).
    assert (Hdis : forall r, r ∈ sp_request_ids sp \/ owner r (h_session (put h p)) = None ->
      owner r (h_session (put h (wire_in w (state_in (set_stop (sp_id sp) (disabled sp) (note_all notes (pu_state p))) p)))) = None).
    { intros r Hcase. destruct (owner r (h_session (put h (wire_in w _)))) as [a|] eqn:Ea; [|done]. exfalso.
      apply owner_spec in Ea as [Hla Hra]; [|apply Hen'].
      change (<[sp_id sp := disabled sp]> (ss_stop_points (note_all notes (pu_state p))) !! sp_id a = Some a) in Hla.
      destruct (note_all_queue notes (pu_state p)) as (_ & Hs & _).
      apply lookup_insert_Some in Hla as [[_ <-]|[Hne Hla]]; [by apply elem_of_nil in Hra|]. rewrite Hs in Hla.
      destruct Hcase as [Hrs|Hno].
      - apply Hne. exact (so_once _ Hok _ _ _ _ r Hl Hla Hrs Hra).
      - assert (owner r (h_session (put h p)) = Some a) as K; [|by rewrite K in Hno]. apply owner_spec; [done|by split]. }
    split; [|by apply Hdis; left]. apply idles_put; [exact W|done|]. intros _. split; [apply Hen'|]. intros r Hr'. apply Hdis. by right.
  - unfold wp, disarm_request. erewrite bind_run; [|reflexivity].
    rewrite find_traced_request_spec by done. rewrite Eo. cbn [mbind option_bind is_some].
    erewrite bind_run; [|reflexivity]. erewrite bind_run; [|reflexivity]. rewrite Eo. by split.
Qed.

(** ** Steps of a rescue *)

Lemma eases_same h h' :
  ds_connection (h_session h') = ds_connection (h_session h) -> ds_state (h_session h') = ds_state (h_session h) ->
  ds_last_thread (h_session h') = ds_last_thread (h_session h) -> (h_ticks h <= h_ticks h')%nat -> eases h h'.
Proof.
  intros Hc Hs Hl Ht. split; try done.
  - intros [H1 H2]. split; [by rewrite Hs|by rewrite Hc].
  - intros t _. unfold host_depth. by rewrite Hc.
  - intros req _. unfold owner. by rewrite Hs.
Qed.

Lemma eases_wire h w :
  counts_ok c0 w -> (forall t, depth c0 t (w_log w) <= host_depth t h) ->
  eases h {| h_session := with_connection w (h_session h); h_ticks := h_ticks h; h_alerts := h_alerts h |}.
Proof.
  intros Hc Hd. split; try done.
  - intros [H1 _]. by split.
  - intros t _. apply Hd.
Qed.

Lemma wp_reads {A} (m : World -> A * World) (Q : A -> Host -> Prop) h :
  Respects steady m -> (forall h', idles h h' -> Q (fst (m (ds_connection (h_session h)))) h') -> wp (conn m) Q h.
Proof.
  intros Hm HQ. eapply wp_conn; [apply surjective_pairing|]. apply HQ.
  assert (Hd := fun t => depth_steady c0 t _ _ (Hm (ds_connection (h_session h)))). split; [split|exact Hd|]; try done.
  - intros [H1 H2]. split; [done|]. intros t. cbn. rewrite Hd. apply H2.
  - intros t _. unfold host_depth. cbn. by rewrite Hd.
Qed.

Lemma wp_count (Q : result _ Z -> Host -> Prop) t h :
  host_ok h -> (forall h', idles h h' -> Q (Ok (host_depth t h)) h') -> wp (conn (suspend_count t)) Q h.
Proof.
  intros [_ Hc] HQ. apply wp_reads; [apply _|]. intros h' Hi.
  destruct (suspend_count_honest c0 HD t _ (counts_range _ _ t Hc)) as (w & E & _). rewrite E. by apply HQ.
Qed.

Lemma drop_pending_step_idles h : wp drop_pending_step (fun _ h' => idles h h') h.
Proof.
  unfold drop_pending_step. apply wp_bind. unfold wp at 1, session. destruct (ds_pending_step _) as [[req ?]|]; [|by apply wp_ret].
  apply wp_bind. unfold wp at 1, on_session. apply wp_bind. apply wp_reads; [apply Steady_clear|].
  intros h' Hi. unfold wp, mret, h_ret. etransitivity; [|exact Hi]. by split; [apply eases_same| |].
Qed.

Definition disarms (cause : SuspendCause) (h : Host) : Prop :=
  match cause with CauseStopPoint req => owner req (h_session h) = None | ManualPause => True end.

Lemma disarms_eases cause h h' : host_ok h -> eases h h' -> disarms cause h -> disarms cause h'.
Proof. intros Hok He. destruct cause; [|done]. by apply (ea_owner _ _ He). Qed.

Lemma disarm_cause_idles cause h :
  host_ok h -> wp (disarm_cause cause) (fun _ h' => idles h h' /\ disarms cause h') h.
Proof.
  intros Hok. unfold disarm_cause. destruct cause as [req|]; [|by apply wp_ret].
  apply wp_bind. eapply wp_mono; [by apply disarm_idles|]. intros a h' Hi. unfold wp. by destruct a.
Qed.

Lemma disarm_each_idles reqs acc ids h :
  host_ok h -> wp (disarm_each reqs acc ids) (fun _ h' => idles h h') h.
Proof.
  revert acc ids h. induction reqs as [|req reqs IH]; intros acc ids h Hok; cbn [disarm_each]; [by apply wp_ret|].
  apply wp_bind. eapply wp_mono; [by apply disarm_idles|]. intros a h1 [Hi _].
  destruct a as [what|]; (eapply wp_mono; [apply IH, (ea_ok _ _ (id_eases _ _ Hi)), Hok|]); intros b h2 Hi2; by transitivity h1.
Qed.

Lemma reports_cleared_true s : reports_cleared ("cleared a suspend depth of " +s+ s) = true.
Proof. reflexivity. Qed.
Lemma reports_cleared_false s : reports_cleared ("the VM is STILL suspended after " +s+ s) = false.
Proof. reflexivity. Qed.

(** What the caller of [resume_and_verify] takes for a virtual machine that runs. *)
Definition says_resumed (r : result string (option string)) : bool :=
  match r with
  | Ok None => true
  | Ok (Some detail) => reports_cleared detail
  | Err _ => false
  end.

Lemma resume_and_verify_eases probe h :
  host_ok h -> ds_last_thread (h_session h) = Some probe ->
  wp resume_and_verify (fun r h' => eases h h' /\ ds_suspensions (h_session h') = ds_suspensions (h_session h) /\
    host_depth probe h' = Z.max 0 (host_depth probe h - MAX_RESUME_ATTEMPTS) /\
    says_resumed r = (host_depth probe h <=? MAX_RESUME_ATTEMPTS)) h.
Proof.
  intros [_ Hc] Hl. unfold resume_and_verify. apply wp_bind. unfold wp at 1, session. rewrite Hl.
  destruct (resume_until_honest c0 HD (Z.to_nat MAX_RESUME_ATTEMPTS) 0 probe _ Hc) as (w & E & Hw & Hd).
  cbv zeta in E. change (Z.of_nat (Z.to_nat MAX_RESUME_ATTEMPTS)) with 8 in *. fold (host_depth probe h) in E, Hd.
  assert (Hp : depth c0 probe (w_log w) = Z.max 0 (host_depth probe h - 8)) by (rewrite Hd; unfold host_depth; lia).
  assert (Hle : forall t, depth c0 t (w_log w) <= host_depth t h).
  { intros t. rewrite Hd. specialize (Hc t). unfold host_depth. lia. }
  clear Hd.
  apply wp_bind. eapply wp_conn; [exact E|]. unfold wp, mret, h_ret. unfold MAX_RESUME_ATTEMPTS.
  split_and!; [by apply eases_wire|done|exact Hp|].
  destruct (Z.leb_spec (host_depth probe h) 8) as [Hd|Hd].
  - replace (0 <? Z.max 0 _) with false by (symmetry; apply Z.ltb_ge; lia). by case_match.
  - replace (0 <? Z.max 0 _) with true by (symmetry; apply Z.ltb_lt; lia). apply reports_cleared_false.
Qed.
End Rescue.

#[global] Arguments hk_stops {_ _} _ _.
#[global] Arguments hk_counts {_ _} _ _ _.
#[global] Arguments ea_ok {_ _ _} _ _ _ _.
#[global] Arguments ea_depth {_ _ _} _ _ _ _ _.
#[global] Arguments ea_owner {_ _ _} _ _ _ _ _ _.
#[global] Arguments ea_ticks {_ _ _} _ _ _.
#[global] Arguments ea_last {_ _ _} _ _ _.
#[global] Arguments id_eases {_ _ _} _ _ _.
#[global] Arguments id_depth {_ _ _} _ _ _ _.
#[global] Arguments id_held {_ _ _} _ _ _.
