(* ===== verification/WatchdogFacts.v ===== *)
(** * The watchdog frees what was left suspended

    The watchdog against a debuggee that counts its suspensions ([Honest]): every round past the limit
    makes progress, it never forgets a suspension that is still there, and it ends with the virtual
    machine and the overdue threads running. *)

From S2P Require Import Prelude Protocol Types Reader Events Connection Client EventRequest StopPoint.
From S2P Require Import EventRing MonitorClock Suspensions Traces Session Manager Api Text Condition Host EventPump Steering.
From S2P Require Import PumpFacts TracedHits Watchdog Honest.

Section Watching.
Context `{BC : BytesCrate} `{D : Debuggee} `{CL : Clock}.
Context {StopOrder : IterOrder string StopPoint}.
Context (c0 : Z -> Z) (HD : honest c0).

Abbreviation host_depth := (host_depth c0).
Abbreviation host_ok := (host_ok c0).
Abbreviation eases := (eases c0).
Abbreviation idles := (idles c0).

(** ** Progress *)

(** Thread [t] after a step: given back and forgotten, or still recorded; then, if the step was to free
    it, more than [n] resumes were missing and [n] fewer are. *)
Definition nearer (n : Z) (must : Prop) (t : Z) (h h' : Host) : Prop :=
  let threads h := su_threads (ds_suspensions (h_session h)) in
  (threads h' !! t = None /\ host_depth t h' = 0) \/
  (threads h' !! t = threads h !! t /\ (must -> n < host_depth t h /\ host_depth t h' <= host_depth t h - n)).

(** A step that frees the threads [ts] and leaves the record of the virtual machine alone. *)
Record frees (ts : list Z) (h h' : Host) : Prop := {
  fr_eases : eases h h';
  fr_vm : su_vm (ds_suspensions (h_session h')) = su_vm (ds_suspensions (h_session h));
  fr_nearer t : nearer MAX_RESUME_ATTEMPTS (t ∈ ts) t h h';
}.

Lemma idles_frees h h' : idles h h' -> frees [] h h'.
Proof. intros [E Hd Hs]. split; [done|by rewrite Hs|]. intros t. right. rewrite Hs. split; [done|]. by intros ?%elem_of_nil. Qed.

Lemma depth_nonneg t h : host_ok h -> 0 <= host_depth t h.
Proof. intros [_ Hc]. apply Hc. Qed.

(** A thread at depth zero stays there. *)
Lemma settled t h h' : host_ok h -> eases h h' -> host_depth t h = 0 -> host_depth t h' = 0.
Proof.
  intros Hok He Hz. pose proof (ea_depth _ _ He t Hok). pose proof (depth_nonneg t h' (ea_ok _ _ He Hok)). lia.
Qed.

Lemma nearer_trans n k (P Q : Prop) t h1 h2 h3 :
  host_ok h1 -> eases h1 h2 -> eases h2 h3 -> 0 <= n -> 0 <= k -> nearer n P t h1 h2 -> nearer k Q t h2 h3 ->
  nearer (n + k) (P /\ Q) t h1 h3 /\ nearer n P t h1 h3 /\ nearer k Q t h1 h3.
Proof.
  intros Hok E1 E2 Hn Hk HP HQ. pose proof (ea_ok _ _ E1 Hok) as Hok2.
  pose proof (ea_depth _ _ E1 t Hok) as D1. pose proof (ea_depth _ _ E2 t Hok2) as D2.
  destruct HQ as [HQ|[EQ HQ]]; [by split_and!; left|]. destruct HP as [[EP HP]|[EP HP]].
  - split_and!; left; (split; [congruence|by apply (settled t h2)]).
  - split_and!; right; (split; [congruence|]).
    + intros [p q]. specialize (HP p). specialize (HQ q). lia.
    + intros p. specialize (HP p). lia.
    + intros q. specialize (HQ q). lia.
Qed.

Lemma nearer_imp n (P Q : Prop) t h h' : (Q -> P) -> nearer n P t h h' -> nearer n Q t h h'.
Proof. intros Hpq [H|[H1 H2]]; [by left|right]. auto. Qed.

Lemma frees_trans ts ts' h1 h2 h3 : host_ok h1 -> frees ts h1 h2 -> frees ts' h2 h3 -> frees (ts ++ ts') h1 h3.
Proof.
  intros Hok [E1 V1 N1] [E2 V2 N2]. split; [by etransitivity|congruence|]. intros t.
  assert (K : 0 <= MAX_RESUME_ATTEMPTS) by by_compute.
  destruct (nearer_trans _ _ _ _ t _ _ _ Hok E1 E2 K K (N1 t) (N2 t)) as (_ & HP & HQ).
  destruct HP as [HP|[EP HP]]; [by left|]. destruct HQ as [HQ|[EQ HQ]]; [by left|right].
  split; [done|]. intros [J|J]%elem_of_app; auto.
Qed.

Lemma frees_sub ts ts' h h' : ts' ⊆ ts -> frees ts h h' -> frees ts' h h'.
Proof. intros Hs [E V N]. split; [done..|]. intros t. eapply nearer_imp; [|apply N]. apply Hs. Qed.

(** ** Releasing threads *)

Lemma release_loop_eases n tid h :
  host_ok h -> wp (release_loop n tid (host_depth tid h)) (fun l h' =>
    eases h h' /\ ds_suspensions (h_session h') = ds_suspensions (h_session h) /\ l = host_depth tid h' /\
    l = Z.max 0 (host_depth tid h - Z.of_nat n)) h.
Proof.
  revert h. induction n as [|n IH]; intros h Hok; cbn [release_loop]; pose proof (depth_nonneg tid h Hok) as Hp.
  { apply wp_ret. split_and!; [done..|lia]. }
  destruct (Z.leb_spec (host_depth tid h) 0) as [Hd|Hd]; [apply wp_ret; split_and!; [done..|lia]|].
  destruct (resume_thread_honest c0 HD tid (ds_connection (h_session h))) as (w & E & Ht & Hle).
  apply wp_bind. eapply wp_conn; [exact E|]. set (h1 := {| h_session := _ |}).
  assert (E1 : eases h h1).
  { destruct Hok as [_ Hc]. apply eases_wire; [|intros t; apply Hle, Hc].
    intros t. specialize (Hle t (proj1 (Hc t))). specialize (Hc t). lia. }
  fold (host_depth tid h) in Ht. change (depth c0 tid (w_log w)) with (host_depth tid h1) in Ht.
  pose proof (ea_ok _ _ E1 Hok) as Hok1. apply wp_bind. apply (wp_count c0 HD); [done|]. intros h2 I2. cbn [unwrap_or].
  rewrite <- (id_depth _ _ I2). eapply wp_mono; [apply IH, (ea_ok _ _ (id_eases _ _ I2)), Hok1|].
  intros l h3 (E3 & S3 & L3 & L3'). rewrite (id_depth _ _ I2) in L3'. split_and!; [|by rewrite S3, (id_held _ _ I2)|done|lia].
  etransitivity; [exact E1|]. etransitivity; [apply I2|exact E3].
Qed.

Lemma forget_frees tid h :
  host_depth tid h = 0 -> wp (on_suspensions (forget_thread tid)) (fun _ h' => frees [tid] h h') h.
Proof.
  intros Hz. unfold on_suspensions, wp, of_session, forget_thread. set (h' := {| h_session := _ |}).
  assert (E : eases h h') by by apply eases_same. split; [done..|]. intros t.
  assert (Hs : su_threads (ds_suspensions (h_session h')) = delete tid (su_threads (ds_suspensions (h_session h)))) by done.
  unfold nearer. rewrite Hs. destruct (decide (t = tid)) as [->|Hne].
  - left. by rewrite lookup_delete_eq.
  - right. rewrite lookup_delete_ne by done. split; [done|]. by intros ?%list_elem_of_singleton.
Qed.

Lemma release_each_frees held freed stuck h :
  host_ok h -> wp (release_each held freed stuck) (fun _ h' => frees (map fst held) h h') h.
Proof.
  revert freed stuck h. induction held as [|[tid name] held IH]; intros freed stuck h Hok; cbn [release_each].
  { apply wp_ret. by apply idles_frees. }
  apply wp_bind. apply (wp_count c0 HD); [done|]. intros h1 I1. cbn [unwrap_or]. rewrite <- (id_depth _ _ I1).
  pose proof (ea_ok _ _ (id_eases _ _ I1) Hok) as Hok1. apply wp_bind. eapply wp_mono; [by apply release_loop_eases|].
  intros l h2 (E2 & S2 & L2 & L2'). change (Z.of_nat (Z.to_nat MAX_RESUME_ATTEMPTS)) with MAX_RESUME_ATTEMPTS in L2'.
  pose proof (ea_ok _ _ E2 Hok1) as Hok2. pose proof (depth_nonneg tid h2 Hok2) as Hp. rewrite (id_depth _ _ I1) in L2'.
  assert (E02 : eases h h2) by (etransitivity; [apply I1|done]).
  assert (S02 : ds_suspensions (h_session h2) = ds_suspensions (h_session h)) by by rewrite S2, (id_held _ _ I1).
  change (map fst ((tid, name) :: held)) with ([tid] ++ map fst held).
  destruct (Z.ltb_spec 0 l) as [Hl|Hl].
  - eapply wp_mono; [by apply IH|]. intros a h3 F. eapply frees_trans; [done| |exact F].
    split; [done|by rewrite S02|]. intros t. right. rewrite S02. split; [done|]. intros ->%list_elem_of_singleton. lia.
  - apply wp_bind. eapply wp_mono; [apply forget_frees; lia|]. intros a h3 F. cbn beta.
    eapply wp_mono; [apply IH, (ea_ok _ _ (fr_eases _ _ _ F)), Hok2|]. intros b h4 F4.
    eapply frees_trans; [done| |exact F4]. change [tid] with ([] ++ [tid]). eapply frees_trans; [done| |exact F].
    split; [done|by rewrite S02|]. intros t. right. rewrite S02. split; [done|]. by intros ?%elem_of_nil.
Qed.

Lemma note_rescue_idles note ids level h : wp (note_rescue note ids level) (fun _ h' => idles h h') h.
Proof. unfold wp, note_rescue, mbind, h_bind, on_session, alert. simpl. by split; [apply eases_same| |]. Qed.

(** ** One round *)

(** The records of the threads the limit has passed for. *)
Definition overdue (secs : Z) (since : Z) (k : nat) : Prop :=
  forall n, (k <= n)%nat -> secs <= as_secs (saturating_duration_since (instant n) since).
Definition overdue_thread (secs : Z) (h : Host) (t : Z) : Prop :=
  exists r, su_threads (ds_suspensions (h_session h)) !! t = Some r /\ overdue secs (ts_since r) (h_ticks h).

Lemma overdue_later secs since k k' : (k <= k')%nat -> overdue secs since k -> overdue secs since k'.
Proof. intros Hk H n Hn. apply H. lia. Qed.

Lemma rescue_overdue_nearer secs h :
  host_ok h -> wp (rescue_overdue_thread_suspends secs) (fun _ h' => eases h h' /\
    su_vm (ds_suspensions (h_session h')) = su_vm (ds_suspensions (h_session h)) /\
    forall t, nearer MAX_RESUME_ATTEMPTS (overdue_thread secs h t) t h h') h.
Proof.
  intros Hok. unfold rescue_overdue_thread_suspends. apply wp_bind. unfold wp at 1, now. set (h1 := {| h_session := _ |}).
  assert (I1 : idles h h1) by (split; [apply eases_same; simpl; by auto| |]; done).
  apply wp_bind. unfold wp at 1, session. cbn beta iota zeta.
  set (su := ds_suspensions (h_session h1)). set (late := overdue_threads secs (instant (h_ticks h)) su).
  assert (Hlate : forall t, overdue_thread secs h t -> t ∈ late).
  { intros t (r & Hr & Ho). apply elem_of_overdue. exists r. split; [done|]. by apply Ho. }
  apply (wp_mono _ (fun _ h' => frees late h h')).
  2: { intros _ h' [E V N]. split_and!; [done..|]. intros t. eapply nearer_imp; [|apply N]. apply Hlate. }
  pose proof (ea_ok _ _ (id_eases _ _ I1) Hok) as Hok1.
  case_bool_decide as Hnil; [apply wp_ret; rewrite Hnil; by apply idles_frees|].
  apply wp_bind. eapply wp_mono; [by apply (disarm_each_idles c0)|]. intros [disarmed ids] h2 I2. cbn beta iota zeta.
  pose proof (ea_ok _ _ (id_eases _ _ I2) Hok1) as Hok2. unfold release_thread_suspends.
  apply wp_bind. apply wp_bind. unfold wp at 1, session. set (held := map _ _).
  eapply wp_mono; [by apply release_each_frees|]. intros [freed stuck] h3 F3.
  assert (Hsub : late ⊆ map fst held).
  { intros t Ht. apply list_elem_of_fmap. pose proof Ht as (r & Hr & _)%elem_of_overdue. exists (t, ts_name r). split; [done|].
    apply list_elem_of_fmap. exists (t, r). split; [done|]. apply list_elem_of_filter. split; [by apply bool_decide_eq_true_2|].
    apply elem_of_btree_iter. by rewrite (id_held _ _ I2). }
  assert (I02 : idles h h2) by by transitivity h1.
  assert (F03 : frees late h h3).
  { eapply (frees_trans [] late); [done|by apply idles_frees|]. by eapply frees_sub. }
  assert (Hn : forall note lids level, wp (note_rescue note lids level) (fun _ h' => frees late h h') h3).
  { intros note lids level. eapply wp_mono; [apply note_rescue_idles|]. intros ? h4 I4. rewrite <- (app_nil_r late).
    eapply frees_trans; [done|exact F03|by apply idles_frees]. }
  destruct stuck; apply Hn.
Qed.

(** What a rescue of the virtual machine did: it runs, or as many resumes fewer are missing. *)
Definition vm_nearer (n : Z) (probe : Z) (vm : VmSuspend) (h h' : Host) : Prop :=
  (su_vm (ds_suspensions (h_session h')) = None /\ host_depth probe h' = 0) \/
  (su_vm (ds_suspensions (h_session h')) = Some vm /\ n < host_depth probe h /\ host_depth probe h' <= host_depth probe h - n).

Lemma rescue_vm_nearer probe vm secs h :
  host_ok h -> ds_last_thread (h_session h) = Some probe -> su_vm (ds_suspensions (h_session h)) = Some vm ->
  wp (rescue_vm (vs_cause vm) secs) (fun _ h' => eases h h' /\ vm_nearer MAX_RESUME_ATTEMPTS probe vm h h' /\
    su_threads (ds_suspensions (h_session h')) = su_threads (ds_suspensions (h_session h)) /\ disarms (vs_cause vm) h') h.
Proof.
  intros Hok Hl Hvm. unfold rescue_vm. apply wp_bind. eapply wp_mono; [apply (drop_pending_step_idles c0)|]. intros ? h1 I1.
  pose proof (ea_ok _ _ (id_eases _ _ I1) Hok) as Hok1.
  apply wp_bind. eapply wp_mono; [by apply (disarm_cause_idles c0)|]. intros [disarmed ids] h2 [I2 D2]. cbn beta iota zeta.
  pose proof (ea_ok _ _ (id_eases _ _ I2) Hok1) as Hok2. assert (I02 : idles h h2) by by transitivity h1.
  apply wp_bind. eapply wp_mono; [apply (resume_and_verify_eases c0 HD probe); [done|by rewrite (ea_last _ _ (id_eases _ _ I02))]|].
  intros r h3 (E3 & S3 & P3 & R3). rewrite (id_depth _ _ I02) in P3, R3. rewrite (id_held _ _ I02) in S3.
  assert (E03 : eases h h3) by (etransitivity; [apply I02|done]).
  pose proof (depth_nonneg probe h Hok) as Hp. pose proof (disarms_eases _ _ _ _ Hok2 E3 D2) as D3.
  assert (Hresumed : says_resumed r = true -> forall note lids level,
    wp (_ ← on_session (with_suspensions mark_resumed); note_rescue note lids level)
      (fun _ h' => eases h h' /\ vm_nearer MAX_RESUME_ATTEMPTS probe vm h h' /\
        su_threads (ds_suspensions (h_session h')) = su_threads (ds_suspensions (h_session h)) /\ disarms (vs_cause vm) h') h3).
  { intros Hr note lids level. rewrite Hr in R3. symmetry in R3. apply Z.leb_le in R3.
    apply wp_bind. unfold wp at 1, on_session. set (h4 := {| h_session := _ |}).
    assert (E4 : eases h3 h4) by by apply eases_same.
    eapply wp_mono; [apply note_rescue_idles|]. intros ? h5 I5. assert (E5 : eases h3 h5) by (etransitivity; [done|apply I5]).
    split_and!; [by etransitivity|left|by rewrite (id_held _ _ I5); simpl; rewrite S3|
      by eapply disarms_eases; [apply (ea_ok _ _ E3)| |]].
    rewrite (id_held _ _ I5), (id_depth _ _ I5). split; [done|]. change (host_depth probe h4) with (host_depth probe h3). lia. }
  assert (Hheld : says_resumed r = false -> forall note lids level,
    wp (note_rescue note lids level)
      (fun _ h' => eases h h' /\ vm_nearer MAX_RESUME_ATTEMPTS probe vm h h' /\
        su_threads (ds_suspensions (h_session h')) = su_threads (ds_suspensions (h_session h)) /\ disarms (vs_cause vm) h') h3).
  { intros Hr note lids level. rewrite Hr in R3. symmetry in R3. apply Z.leb_gt in R3.
    eapply wp_mono; [apply note_rescue_idles|]. intros ? h5 I5. assert (E5 : eases h3 h5) by apply I5.
    split_and!; [by etransitivity|right|by rewrite (id_held _ _ I5), S3|by eapply disarms_eases; [apply (ea_ok _ _ E3)| |]].
    rewrite (id_held _ _ I5), (id_depth _ _ I5), S3. split_and!; [done|done|lia]. }
  destruct r as [[detail|]|e]; cbn beta iota zeta; cbn [says_resumed] in *; [|by apply Hresumed|by apply Hheld].
  destruct (reports_cleared detail); [by apply Hresumed|by apply Hheld].
Qed.

(** What rounds that take [n] resumes from everything overdue did. *)
Record rescued (secs probe n : Z) (h h' : Host) : Prop := {
  re_eases : eases h h';
  re_running : su_vm (ds_suspensions (h_session h)) = None -> su_vm (ds_suspensions (h_session h')) = None;
  re_vm vm : su_vm (ds_suspensions (h_session h)) = Some vm -> overdue secs (vs_since vm) (h_ticks h) ->
    vm_nearer n probe vm h h' /\ disarms (vs_cause vm) h';
  re_thread t : nearer n (overdue_thread secs h t) t h h';
}.

Lemma tick_rescues secs probe h :
  host_ok h -> ds_last_thread (h_session h) = Some probe ->
  wp (watchdog_tick secs) (fun _ h' => rescued secs probe MAX_RESUME_ATTEMPTS h h') h.
Proof.
  intros Hok Hl. unfold watchdog_tick. apply wp_bind. unfold wp at 1, session. apply wp_bind.
  apply (wp_mono _ (fun _ h1 => eases h h1 /\
    su_threads (ds_suspensions (h_session h1)) = su_threads (ds_suspensions (h_session h)) /\
    (su_vm (ds_suspensions (h_session h)) = None -> su_vm (ds_suspensions (h_session h1)) = None) /\
    forall vm, su_vm (ds_suspensions (h_session h)) = Some vm -> overdue secs (vs_since vm) (h_ticks h) ->
      vm_nearer MAX_RESUME_ATTEMPTS probe vm h h1 /\ disarms (vs_cause vm) h1)).
  - destruct (su_vm (ds_suspensions (h_session h))) as [vm|] eqn:Hvm; [|by apply wp_ret].
    apply wp_bind. unfold wp at 1, now. set (h0 := {| h_session := _ |}).
    assert (E0 : eases h h0) by (apply eases_same; simpl; by auto).
    destruct (secs <=? _) eqn:Hle.
    + eapply wp_mono; [apply (rescue_vm_nearer probe); [by apply (ea_ok _ _ E0)|done|done]|].
      intros ? h1 (E1 & V1 & T1 & D1). split_and!; [by etransitivity|done|done|]. by intros ? [= <-] _.
    + apply wp_ret. split_and!; [done..|]. intros ? [= <-] Ho. specialize (Ho (h_ticks h) (le_n _)).
      apply Z.leb_gt in Hle. lia.
  - intros ? h1 (E1 & T1 & N1 & V1). pose proof (ea_ok _ _ E1 Hok) as Hok1.
    eapply wp_mono; [by apply rescue_overdue_nearer|]. intros ? h2 (E2 & S2 & T2).
    split; [by etransitivity|rewrite S2; exact N1| |].
    + intros vm Hvm Ho. destruct (V1 vm Hvm Ho) as [Hn Hd]. split; [|by eapply disarms_eases].
      destruct Hn as [[Hn Hz]|(Hs & Hb & Hle)]; [left|right]; rewrite S2; (split; [done|]); [by apply (settled _ h1)|].
      split; [done|]. pose proof (ea_depth _ _ E2 probe Hok1). lia.
    + intros t. assert (K : nearer MAX_RESUME_ATTEMPTS (overdue_thread secs h1 t) t h h2).
      * destruct (T2 t) as [K|[K1 K2]]; [by left|right]. split; [by rewrite K1, T1|]. intros Ho. specialize (K2 Ho).
        pose proof (ea_depth _ _ E1 t Hok). lia.
      * eapply nearer_imp; [|exact K]. intros (r & Hr & Ho). exists r. rewrite T1. split; [done|].
        by apply (overdue_later _ _ (h_ticks h)); [apply (ea_ticks _ _ E1)|].
Qed.

Lemma rescued_trans secs probe n k h1 h2 h3 :
  host_ok h1 -> 0 <= n -> 0 <= k -> rescued secs probe n h1 h2 -> rescued secs probe k h2 h3 -> rescued secs probe (n + k) h1 h3.
Proof.
  intros Hok Hn Hk [E1 R1 V1 T1] [E2 R2 V2 T2]. pose proof (ea_ok _ _ E1 Hok) as Hok2.
  split; [by etransitivity|auto| |].
  - intros vm Hvm Ho. destruct (V1 vm Hvm Ho) as [Hv Hd]. split; [|by eapply disarms_eases].
    destruct Hv as [[Hs Hz]|(Hs & Hb & Hle)]; [left; split; [auto|by apply (settled _ h2)]|].
    destruct (V2 vm Hs) as [Hv2 _]; [by eapply overdue_later; [apply E1|]|].
    destruct Hv2 as [K|(Hs2 & Hb2 & Hle2)]; [by left|right]. split_and!; [done|lia|lia].
  - intros t. destruct (T1 t) as [[K Hz]|[K1 H1]].
    + destruct (nearer_trans n k _ _ t h1 h2 h3 Hok E1 E2 Hn Hk (T1 t) (T2 t)) as (_ & Hp & _).
      left. split; [|by apply (settled _ h2)]. destruct (T2 t) as [[K' _]|[K' _]]; congruence.
    + destruct (T2 t) as [K|[K2 H2]]; [by left|right]. split; [congruence|]. intros Ho. specialize (H1 Ho).
      assert (overdue_thread secs h2 t) as Ho2; [|specialize (H2 Ho2); lia].
      destruct Ho as (r & Hr & Hr'). exists r. split; [congruence|]. eapply overdue_later; [apply E1|done].
Qed.

Lemma rounds_rescue secs probe n h :
  host_ok h -> ds_last_thread (h_session h) = Some probe ->
  wp (watchdog_rounds secs (S n)) (fun _ h' => rescued secs probe (MAX_RESUME_ATTEMPTS * Z.of_nat (S n)) h h') h.
Proof.
  revert h. induction n as [|n IH]; intros h Hok Hl.
  - cbn [watchdog_rounds]. apply wp_bind. eapply wp_mono; [by apply (tick_rescues _ probe)|]. by intros.
  - change (watchdog_rounds secs (S (S n))) with (_ ← watchdog_tick secs; watchdog_rounds secs (S n)).
    apply wp_bind. eapply wp_mono; [by apply (tick_rescues _ probe)|]. intros ? h1 R1.
    pose proof (re_eases _ _ _ _ _ R1) as E1.
    eapply wp_mono; [apply IH; [by apply (ea_ok _ _ E1)|by rewrite (ea_last _ _ E1)]|]. intros ? h2 R2.
    replace (MAX_RESUME_ATTEMPTS * Z.of_nat (S (S n))) with (MAX_RESUME_ATTEMPTS + MAX_RESUME_ATTEMPTS * Z.of_nat (S n))
      by (unfold MAX_RESUME_ATTEMPTS; lia).
    apply (rescued_trans _ _ _ _ h h1 h2); [done|by_compute|unfold MAX_RESUME_ATTEMPTS; lia|exact R1|exact R2].
Qed.

(** C31. The watchdog frees what was left suspended, and never says so falsely, in a session that has seen a
    thread. Against a debuggee that counts suspensions the way JDWP does, with a last thread [probe] whose
    count it can read, and a limit of [secs] seconds that has passed for the suspension [vm] at every later
    reading of the clock: after [n] rounds the session records the virtual machine as running only if the
    thread it last saw has no suspension left; otherwise it still records [vm], so that the next round tries
    again, and has taken eight resumes per round off that thread; once the rounds outnumber the suspensions
    eight to one the machine is recorded as running. The request that caused the suspension has no stop
    point behind it, so it cannot suspend it again. And every thread the session holds past the limit is
    likewise forgotten only with a count of zero, and is after as many rounds. (Without a last thread there
    is none to probe, and one resume is taken for a rescue, whatever is left of the suspension:
    [unprobed_machine_forgotten], beside the theorems about the control tools.) *)
Theorem watchdog_frees secs n h vm probe :
  host_ok h -> secs <> 0 -> (0 < n)%nat -> ds_last_thread (h_session h) = Some probe ->
  su_vm (ds_suspensions (h_session h)) = Some vm -> overdue secs (vs_since vm) (h_ticks h) ->
  let h' := snd (watchdog secs n h) in
  let bound := 8 * Z.of_nat n in
  (su_vm (ds_suspensions (h_session h')) = None /\ host_depth probe h' = 0 \/
   su_vm (ds_suspensions (h_session h')) = Some vm /\ host_depth probe h' <= host_depth probe h - bound) /\
  (host_depth probe h <= bound -> su_vm (ds_suspensions (h_session h')) = None) /\
  disarms (vs_cause vm) h' /\
  forall t, overdue_thread secs h t ->
    (su_threads (ds_suspensions (h_session h')) !! t = None -> host_depth t h' = 0) /\
    (host_depth t h <= bound -> su_threads (ds_suspensions (h_session h')) !! t = None).
Proof.
  intros Hok Hsecs Hn Hl Hvm Ho. destruct n as [|n]; [lia|].
  pose proof (rounds_rescue secs probe n h Hok Hl) as R. unfold wp in R. unfold watchdog.
  rewrite (proj2 (Z.eqb_neq secs 0) Hsecs).
  destruct (watchdog_rounds secs (S n) h) as [a h2]. cbn [snd]. set (bound := 8 * Z.of_nat (S n)).
  change (MAX_RESUME_ATTEMPTS * Z.of_nat (S n)) with bound in R. destruct R as [E _ V T]. destruct (V vm Hvm Ho) as [Hv Hd].
  split_and!; [| |done|].
  - destruct Hv as [Hv|(H1 & H2 & H3)]; [by left|by right].
  - intros Hb. destruct Hv as [Hv|(H1 & H2 & H3)]; [apply Hv|lia].
  - intros t Ht. destruct (T t) as [K|[K1 K2]]; [split; intros _; apply K|].
    destruct Ht as (r & Hr & Hr'). specialize (K2 ltac:(by exists r)). rewrite K1, Hr. split; [done|lia].
Qed.
End Watching.

(** Every thread suspended three times, counted the way JDWP does. *)
Definition three_deep : Debuggee := {|
  issue_outcome _ _ := None;
  reply_outcome log p := Ok {|
    rp_id := cp_id p; rp_error_code := 0;
    rp_data := if steers p then [] else be_bytes 4 (foldl (depth_step (cp_data p)) 3 log) |};
  lapses_unissued _ _ := false;
  lapses_unanswered _ _ := false
|}.
Definition late_clock : Clock := {| instant n := 400 * 10 ^ 9 + Z.of_nat n |}.
(** A stop point suspended the virtual machine long ago, and thread 9 is held. *)
Definition stopped_host : Host := {|
  h_session := with_last_thread (Some 7) (with_suspensions (fun su => mark_suspended (CauseStopPoint 5) 0 (snd (hold_thread 9 "main" 0 su)))
    (h_session (host_with [sample_stop "bp_1" [5] false None None None])));
  h_ticks := 0; h_alerts := []
|}.

Lemma three_deep_honest : honest (BC := network_order) (D := three_deep) (fun _ => 3).
Proof. split; [done| |done]. intros log p Hs. simpl. by rewrite Hs. Qed.

Lemma watchdog_frees_witness :
  let h' := snd (watchdog (BC := network_order) (D := three_deep) (CL := late_clock) (StopOrder := some_order) 300 1 stopped_host) in
  su_vm (ds_suspensions (h_session h')) = None /\ su_threads (ds_suspensions (h_session h')) !! 9 = None.
Proof.
  assert (Hlate : forall since k, since = 0 -> overdue (CL := late_clock) 300 since k).
  { intros ? k -> n _. unfold saturating_duration_since, sat_sub, as_secs, instant, late_clock. Z.div_mod_to_equations. lia. }
  assert (Hok : host_ok (BC := network_order) (fun _ => 3) stopped_host).
  { split; [apply host_with_one|]. intros t. unfold depth. simpl. lia. }
  pose proof (watchdog_frees (BC := network_order) (D := three_deep) (CL := late_clock) (StopOrder := some_order) (fun _ => 3)
    three_deep_honest 300 1 stopped_host {| vs_since := 0; vs_cause := CauseStopPoint 5 |} 7 Hok) as K.
  destruct K as (_ & Hvm & _ & Ht); [done|lia|done|done|by apply Hlate|].
  split; [apply Hvm; by_compute|]. apply (Ht 9); [|by_compute]. eexists. split; [reflexivity|]. by apply Hlate.
Defined.
