(* ===== verification/Control.v ===== *)
(** * Stopping, stepping and going on ([mcp-server/src/handlers.rs]: [handle_continue], [handle_step],
      [handle_panic], [handle_pause], [handle_suspend_thread], [handle_resume_thread])

    The six tools that suspend and resume, with their replies. A handler gets the session it locked and
    its arguments as they were parsed; the limit of the watchdog, an environment variable, is an
    argument. *)

From S2P Require Import Prelude Protocol Types Reader Events Connection Client EventRequest StopPoint.
From S2P Require Import EventRing MonitorClock Suspensions Traces Session Manager Api Text Expr Host Watchdog.

(** ** Thread ids *)

(** [trim_start_matches("0x")], which takes every leading occurrence. *)
Fixpoint trim_0x (n : nat) (s : chars) : chars :=
  match n with
  | O => s
  | S n => match strip_prefix (chars_of "0x") s with Some s => trim_0x n s | None => s end
  end.
Definition parse_thread_id (s : option string) : option Z :=
  s ← s; let s := bytes_of_string s in parse_hex 64 (trim_0x (length s) s).

Definition thread_status_name (ts : Z) : string :=
  if ts =? 0 then "zombie"
  else if ts =? 1 then "running"
  else if ts =? 2 then "sleeping"
  else if ts =? 3 then "monitor"
  else if ts =? 4 then "wait"
  else "unknown".

(** ** Replies *)

Definition bad_thread_id (raw : string) : string :=
  "thread_id '" +s+ raw +s+ "' is not a thread id. They are hex, as debug.list_threads and debug.thread_dump print them — 0x7f2c1a0b3800. debug.list_threads {name_filter:" +s+
  quoted "worker" +s+ "} is the usual way to find the one you want.".

Definition vanished_thread_note (tid : Z) : string :=
  "Thread " +s+ hex_thread tid +s+ " has VANISHED — the JVM no longer recognises the id, so there is nothing to name, describe or suspend. A thread id is a weak reference, so on a pool that retires workers this is ordinary rather than exotic: the id was valid when it was listed and the thread ended between then and now. Re-read debug.list_threads and pick a current one. This is NOT the same as a finished thread, which is still a row you can read.".

Definition finished_thread_note (tid : Z) (name : option string) : string :=
  "Thread " +s+ hex_thread tid +s+ match name with Some n => " " +s+ quoted n | None => "" end +s+
  " has FINISHED — it ran to completion, and the JVM answers ZOMBIE for it while the debugger still holds its Thread object. It can be named and described but never suspended, so there is no frame here to evaluate against and nothing this call could unlock. Pick a running thread from debug.list_threads. This is NOT the same as a vanished thread, whose id is gone entirely.".

Definition nothing_held_note (vm_held : option SuspendCause) : string :=
  "This session is not holding any thread with debug.suspend_thread, so there is nothing for debug.resume_thread to release." +s+
  match vm_held with
  | Some ManualPause => newline +s+ "   The whole VM is suspended by an earlier debug.pause, which is a different subject: debug.continue is what clears that, and it releases every thread at once."
  | Some (CauseStopPoint _) => newline +s+ "   The whole VM is suspended at a stop point, which is a different subject: debug.continue is what clears that, and it releases every thread at once."
  | None => ""
  end.

Record ThreadSuspendReply : Type := {
  tr_tid : Z;
  tr_name : string;
  tr_depth : Z;
  tr_ours : Z;
  tr_secs : Z;
  tr_vm_held : option SuspendCause;
  tr_status : string;
  tr_was_already_suspended : bool;
}.

Definition depth_note (depth ours : Z) : string :=
  if depth =? 1 then "   Suspend depth 1 — one debug.resume_thread gives it back." +s+ newline
  else if 1 <? depth then
    "   ⚠️  Suspend depth " +s+ pretty depth +s+ ", not 1 — JDWP counts suspends, so this thread needs " +s+ pretty depth +s+ " resumes before it runs. " +s+
    (if 1 <? ours then pretty ours +s+ " of them are this session's debug.suspend_thread calls;"
     else "Something else is holding it too — a stop point that suspended it, a debug.pause, or another debugger;") +s+
    " debug.resume_thread decrements ONE at a time and tells you what is left." +s+ newline
  else "   ⚠️  Could not read this thread's suspend count back, so the depth is unknown — check with debug.list_threads before relying on the frame." +s+ newline.

Definition render_thread_suspend (r : ThreadSuspendReply) : string :=
  "⏸️  Suspended thread " +s+ hex_thread (tr_tid r) +s+ " " +s+ quoted (tr_name r) +s+ " — ONLY this thread. Every other thread in the JVM is still running and still serving requests." +s+ newline +s+
  depth_note (tr_depth r) (tr_ours r) +s+
  (if tr_was_already_suspended r then "   It was ALREADY suspended before this call, so the depth above was not built here." +s+ newline else "") +s+
  "   It was [" +s+ tr_status r +s+ "] when it stopped." +s+ newline +s+ "   NOW READABLE on this thread: debug.get_stack with its locals, debug.evaluate of a local or a field, expand_objects (it walks fields and invokes nothing), debug.set_value on a local, and this thread's own monitors via debug.thread_dump." +s+ newline +s+
  "   NOT UNLOCKED — method INVOCATION. JDWP allows an invoke only on a thread suspended by an EVENT, so a Map subscript, a getter, .toArray() and a toString() all answer INVALID_THREAD here, and debug.pause does not help either: only a suspending stop point does. Nor are other threads' frames or the monitor GRAPH — a lock cycle needs the threads on both ends suspended, which is debug.thread_dump with suspend:true." +s+ newline +s+
  (if bool_decide (tr_status r ∈ ["sleeping"; "wait"; "monitor"]) then
     "   Its top frame is almost certainly native ([sleeping]/[wait] threads are parked inside the JVM), so debug.force_return and debug.pop_frame will answer OPAQUE_FRAME — they act on the top frame, and a native one cannot be popped. Reading and writing locals in the Java frames below it works: pass frame_index (debug.get_stack numbers them)." +s+ newline
   else "") +s+
  (if bool_decide (tr_status r = "monitor") then
     "   ⚠️  It is BLOCKED ON A MONITOR. Two consequences: other threads waiting for whatever it holds are stalled for as long as you hold it, and a debug.evaluate that INVOKES a method runs on this thread, so an invocation needing that same lock cannot complete. The invocation budget (2s) returns control to YOU; it does not cancel anything in the JVM. Prefer expand_objects:true, which reads fields and invokes nothing." +s+ newline
   else "") +s+
  match tr_vm_held r with
  | Some cause =>
    "   Note: the whole VM is ALSO suspended (" +s+ match cause with ManualPause => "by an earlier debug.pause" | CauseStopPoint _ => "at a stop point" end +s+
    "), so " +s+ quoted "the rest of the JVM is running" +s+ " is not true right now — debug.continue is what ends that." +s+ newline
  | None => ""
  end +s+
  "   " +s+
  (if tr_secs r =? 0 then "⚠️ The watchdog is disabled (JDWP_WATCHDOG_SECS=0), so nothing will release this thread but you: debug.resume_thread, debug.panic or debug.disconnect."
   else "The watchdog releases it after " +s+ pretty (tr_secs r) +s+ "s if you don't (JDWP_WATCHDOG_SECS) — a suspended worker holding a monitor can stall a pool, so this is not a freeze you can leave lying around.").

Definition render_thread_resume (name : string) (left_ : Z) (vm_held : option SuspendCause) : string :=
  if left_ <=? 0 then
    "▶️  Resumed thread " +s+ name +s+ " — its suspend count is 0, so it is running again." +s+ newline +s+ "   Any frame id or variable you read from it is now stale: the thread has moved on."
  else
    "⚠️  Thread " +s+ name +s+ " is STILL suspended — " +s+ pretty left_ +s+ " suspend(s) left after that resume, so it is not running." +s+ newline +s+
    "   That is JDWP being counted, not a failure: this decrements ONE. The extra depth comes from another debug.suspend_thread, a stop point that suspended this thread, or a debug.pause." +s+
    match vm_held with
    | Some ManualPause => " At least one of them is the debug.pause holding the whole VM — debug.continue clears that, and this tool cannot."
    | Some (CauseStopPoint _) => " At least one of them is the stop point holding the whole VM — debug.continue clears that, and this tool cannot."
    | None => ""
    end +s+ newline +s+ "   Call debug.resume_thread again to take the next one off, or debug.panic to clear everything.".

(** ** Step filters *)

Definition DEFAULT_STEP_EXCLUSIONS : list string :=
  ["java.*"; "javax.*"; "jakarta.*"; "sun.*"; "com.sun.*"; "jdk.*"; "org.jboss.*"; "io.undertow.*"; "org.wildfly.*"; "org.hibernate.*"].

Definition step_exclusions (from_caller : option (list string)) : list string := default DEFAULT_STEP_EXCLUSIONS from_caller.

Inductive StepFilterSource : Type := Call | SessionDefault | BuiltIn.
#[global] Instance StepFilterSource_eq_dec : EqDecision StepFilterSource.
Proof. solve_decision. Defined.

Definition resolve_step_filter (asked_exclude asked_only session_exclude session_only : option (list string)) :
    list string * list string * bool * StepFilterSource :=
  let '(exclude, only, source) :=
    if is_some asked_exclude || is_some asked_only then (asked_exclude, asked_only, Call)
    else if is_some session_exclude || is_some session_only then (session_exclude, session_only, SessionDefault)
    else (None, None, BuiltIn) in
  let defaulted := negb (is_some exclude) in
  let exclude := step_exclusions exclude in
  let only := default [] only in
  let source := if bool_decide (source = SessionDefault) && defaulted && bool_decide (only = []) then BuiltIn else source in
  (exclude, only, defaulted, source).

Definition describe_step_filter (exclude only : list string) (defaulted : bool) (source : StepFilterSource) : string :=
  (if bool_decide (source = SessionDefault) then
     newline +s+ "   ↪ Using the session step filter set at attach — this call named none. Pass exclude_classes or only_classes here to step under a different one."
   else "") +s+
  (if bool_decide (exclude = []) && bool_decide (only = []) then
     newline +s+ "   No class filter: this steps into framework and JDK code as well as yours."
   else
     (if bool_decide (exclude = []) then ""
      else
        newline +s+ "   Stepping OVER " +s+ join ", " exclude +s+ " (" +s+
        (if defaulted then "the default set"
         else if bool_decide (source = SessionDefault) then "the session's step_exclude_classes"
         else "your exclude_classes") +s+ ")" +s+
        (if defaulted then " — pass exclude_classes:[] to step into everything" else "")) +s+
     (if bool_decide (only = []) then "" else newline +s+ "   Stepping ONLY within " +s+ join ", " only)).

Section Control.
Context `{BC : BytesCrate} `{D : Debuggee} `{CL : Clock}.
Context {StopOrder : IterOrder string StopPoint} {SetOrder : IterOrder string PatternStopSet}.

(** ** Going on *)

(** The rest of a handler after a step that may fail. *)
Definition h_try {A B} (m : H (result string A)) (k : A -> H (result string B)) : H (result string B) :=
  r ← m;
  match r with
  | Ok a => k a
  | Err e => mret (Err e)
  end.

Definition handle_continue : H (result string string) :=
  _ ← drop_pending_step;
  h_try resume_and_verify (fun note =>
    _ ← on_session (with_suspensions mark_resumed);
    held ← verify_thread_suspends;
    mret (Ok (match note with Some n => "▶️  " +s+ n | None => "▶️  Execution resumed" end +s+ held))).

(** A call of the connection whose error is reported after [what]. *)
Definition conn_or {A} (what : string) (m : M A) : H (result string A) :=
  r ← conn m; mret (map_err (fun e => what +s+ display_error e) r).

Definition handle_step (thread_id : option string) (exclude_classes only_classes : option (list string)) (depth : StepDepth)
    (label : string) : H (result string string) :=
  s ← session;
  match union (parse_thread_id thread_id) (ds_last_thread s) with
  | None => mret (Err "No thread to step. Pass thread_id, or hit a breakpoint first.")
  | Some thread_id =>
    _ ← drop_pending_step;
    let '(exclude, only, defaulted_exclusions, filter_source) :=
      resolve_step_filter exclude_classes only_classes (ds_step_exclude_classes s) (ds_step_only_classes s) in
    h_try (conn_or "Failed to set step: " (set_step_ex thread_id depth exclude only)) (fun req =>
      _ ← on_session (with_pending_step (Some (req, thread_id)));
      _ ← on_session (with_suspensions mark_resumed);
      h_try (conn_or "Failed to resume for step: " resume_all) (fun _ =>
        mret (Ok ("👣 Stepping " +s+ label +s+ " on thread " +s+ hex_thread thread_id +s+ ". Call debug.get_last_event to see where it stopped." +s+
          describe_step_filter exclude only defaulted_exclusions filter_source))))
  end.

Definition count_of_kind (k : StopPointKind) (s : DebugSession) : Z :=
  zlen (base.filter (fun e => kind (snd e) = k) (iter (ss_stop_points (ds_state s)))).

(** [" + {n} what"], unless there are none. *)
Definition also_cleared (n : Z) (what : string) : string := if 0 <? n then " + " +s+ pretty n +s+ what else "".

(** [BTreeMap<String, _>::iter]. *)
Definition string_iter {A} (m : gmap string A) : list (string * A) :=
  merge_sort (fun a b => Is_true (String.leb (fst a) (fst b))) (map_to_list m).

Fixpoint redefinition_lines (l : list (string * Redefinition)) : H string :=
  match l with
  | [] => mret ""
  | (class, r) :: l =>
    at_ ← now;
    rest ← redefinition_lines l;
    mret ("   " +s+ class +s+ " — reloaded " +s+ (if rd_count r =? 1 then "once" else pretty (rd_count r) +s+ "× times") +s+ ", " +s+
      ago (saturating_duration_since at_ (rd_at r)) +s+ ", " +s+
      (if rd_popped_since r then "a frame was popped since, so the new code is live"
       else "no frame popped since, so frames that were already running may still hold the old code") +s+ newline +s+ rest)
  end.

Definition describe_outstanding_redefinitions (redefinitions : gmap string Redefinition) : H string :=
  if bool_decide (redefinitions = ∅) then mret ""
  else
    rows ← redefinition_lines (string_iter redefinitions);
    mret (newline +s+ "⚠️  " +s+ pretty (Z.of_nat (size redefinitions)) +s+
      " class(es) are still running bytecode this session installed. Nothing here can put them back — only redeploying the artifact restores the original code:" +s+
      newline +s+ rows).

Definition handle_panic : H (result string string) :=
  _ ← drop_pending_step;
  s ← session;
  let n := count_of_kind KLine s in
  let np := zlen (ss_pending_breakpoints (ds_state s)) in
  let nf := Z.of_nat (size (ds_pattern_sets s)) in
  let ne := count_of_kind KException s in
  let nw := count_of_kind KWatchpoint s in
  let nm := count_of_kind KMethodExit s in
  let nmon := count_of_kind KMonitor s in
  _ ← disarm_everything;
  h_try resume_and_verify (fun note =>
    _ ← on_session (with_suspensions mark_resumed);
    '(freed, stuck) ← release_thread_suspends None;
    s ← session;
    residue ← describe_outstanding_redefinitions (redefined (ds_redefinitions s));
    let threads :=
      (match freed with
       | [] => ""
       | _ => newline +s+ "   ▶️  Also released " +s+ pretty (zlen freed) +s+ " thread(s) this session was holding: " +s+ join ", " freed
       end) +s+
      match stuck with
      | [] => ""
      | _ => newline +s+ "   ⚠️  " +s+ pretty (zlen stuck) +s+ " thread(s) are STILL suspended after " +s+ pretty MAX_RESUME_ATTEMPTS +s+
          " resumes each: " +s+ join ", " stuck +s+ " — something outside this session is holding them."
      end in
    mret (Ok ("🧯 Panic: cleared " +s+ pretty n +s+ " breakpoint(s)" +s+ also_cleared nf " wildcard family(ies)" +s+
      also_cleared np " deferred" +s+ also_cleared ne " exception" +s+ also_cleared nw " watchpoint" +s+
      also_cleared nm " method-exit" +s+ also_cleared nmon " monitor" +s+ " and resumed all threads." +s+
      match note with Some t => newline +s+ "   ⚠️  " +s+ t | None => "" end +s+ threads +s+ residue))).

(** ** Stopping *)

Definition handle_pause (watchdog_secs : Z) : H (result string string) :=
  s ← session;
  match su_vm (ds_suspensions s) with
  | Some vm =>
    at_ ← now;
    mret (Ok ("⏸️  Already suspended " +s+
      match vs_cause vm with ManualPause => "by an earlier debug.pause" | CauseStopPoint _ => "at a stop point" end +s+
      " (" +s+ pretty (as_secs (saturating_duration_since at_ (vs_since vm))) +s+ "s ago) — left as it is." +s+ newline +s+
      "   Suspending again would need an extra debug.continue to undo, so this is a no-op. Use debug.continue to resume."))
  | None =>
    h_try (conn_or "Failed to suspend: " suspend_all) (fun _ =>
      at_ ← now;
      _ ← on_session (with_suspensions (mark_suspended ManualPause at_));
      mret (Ok ("⏸️  Execution paused (all threads suspended)" +s+
        (if watchdog_secs =? 0 then
           " — ⚠️ the watchdog is disabled (JDWP_WATCHDOG_SECS=0), so nothing will auto-resume this. Call debug.continue."
         else " — the watchdog will auto-resume it after " +s+ pretty watchdog_secs +s+ "s if you don't. Call debug.continue when done."))))
  end.

Definition ok_of {E A} (r : result E A) : option A := match r with Ok a => Some a | Err _ => None end.

Definition handle_suspend_thread (watchdog_secs : Z) (thread_id : string) : H (result string string) :=
  match parse_thread_id (Some thread_id) with
  | None => mret (Err (bad_thread_id thread_id))
  | Some tid =>
    name ← conn (get_thread_name tid);
    let name := ok_of name in
    liveness ← classify_thread tid;
    match liveness with
    | Vanished => mret (Err (vanished_thread_note tid))
    | Finished => mret (Err (finished_thread_note tid name))
    | Unreadable e =>
      mret (Err ("Could not read thread " +s+ hex_thread tid +s+ "'s status, so it was NOT suspended: " +s+ e +s+ newline +s+
        "   Nothing was sent. debug.list_threads re-reads the JVM's own list."))
    | Live status already =>
      h_try (conn_or ("Failed to suspend thread " +s+ hex_thread tid +s+ ": ") (suspend_thread tid)) (fun _ =>
        depth ← conn (suspend_count tid);
        let label := default "?" name in
        at_ ← now;
        ours ← on_suspensions (hold_thread tid label at_);
        s ← session;
        mret (Ok (render_thread_suspend {| tr_tid := tid; tr_name := label; tr_depth := unwrap_or (-1) depth; tr_ours := ours;
          tr_secs := watchdog_secs; tr_vm_held := vs_cause <$> su_vm (ds_suspensions s);
          tr_status := thread_status_name status; tr_was_already_suspended := negb (already =? 0) |})))
    end
  end.

(** ** Giving one thread back *)

Fixpoint held_rows (held : list (Z * ThreadSuspend)) : H string :=
  match held with
  | [] => mret ""
  | (tid, rec) :: held =>
    at_ ← now;
    rest ← held_rows held;
    mret ("   " +s+ hex_thread tid +s+ " " +s+ quoted (ts_name rec) +s+ " — held " +s+ ago (saturating_duration_since at_ (ts_since rec)) +s+ newline +s+ rest)
  end.
Definition which_thread_note (held : gmap Z ThreadSuspend) : H string :=
  rows ← held_rows (btree_iter held);
  mret ("This session is holding " +s+ pretty (Z.of_nat (size held)) +s+
    " threads suspended, so thread_id is required — resuming the wrong one lets a worker you are still reading run away. Held now:" +s+ newline +s+ rows).

(** The thread a call means: the one it names, or the one that is held. *)
Definition thread_to_resume (thread_id : option string) : H (result string Z) :=
  s ← session;
  match thread_id with
  | Some raw => mret (match parse_thread_id (Some raw) with Some tid => Ok tid | None => Err (bad_thread_id raw) end)
  | None =>
    match btree_iter (su_threads (ds_suspensions s)) with
    | [] => mret (Err (nothing_held_note (vs_cause <$> su_vm (ds_suspensions s))))
    | [(tid, _)] => mret (Ok tid)
    | _ => note ← which_thread_note (su_threads (ds_suspensions s)); mret (Err note)
    end
  end.

(** The note of a thread that ended. *)
Definition gone_note (tid : Z) : H (option string) :=
  liveness ← classify_thread tid;
  match liveness with
  | Vanished => mret (Some (vanished_thread_note tid))
  | Finished => name ← conn (get_thread_name tid); mret (Some (finished_thread_note tid (ok_of name)))
  | Live _ _ | Unreadable _ => mret None
  end.

(** A step armed on the thread goes before the resume. *)
Definition drop_step_on (tid : Z) : H bool :=
  s ← session;
  match ds_pending_step s with
  | Some (req, owner) =>
    if owner =? tid then _ ← conn (clear_step req); _ ← on_session (with_pending_step None); mret true
    else mret false
  | None => mret false
  end.

Definition handle_resume_thread (thread_id : option string) : H (result string string) :=
  h_try (thread_to_resume thread_id) (fun tid =>
    gone ← gone_note tid;
    match gone with
    | Some note =>
      held ← on_suspensions (forget_thread tid);
      mret (Err (note +s+ newline +s+ "   " +s+
        (if held : bool then "This session was holding it suspended; that record has been dropped. A thread that has ended cannot hold anyone up, so there is nothing left to release."
         else "This session was not holding it suspended either.")))
    | None =>
      dropped_step ← drop_step_on tid;
      h_try (conn_or ("Failed to resume thread " +s+ hex_thread tid +s+ ": ") (resume_thread tid)) (fun _ =>
        count ← conn (suspend_count tid);
        released ← on_suspensions (release_thread tid);
        name ← match released with
               | Some r => at_ ← now; mret (hex_thread tid +s+ " " +s+ quoted (ts_name r) +s+ " (held " +s+ ago (saturating_duration_since at_ (ts_since r)) +s+ ")")
               | None => mret (hex_thread tid)
               end;
        s ← session;
        mret (Ok (render_thread_resume name (unwrap_or 0 count) (vs_cause <$> su_vm (ds_suspensions s)) +s+
          (if dropped_step : bool then newline +s+ "   A pending single step on this thread was dropped first — it would have re-stopped the thread on the next line, and a step event suspends every thread. Arm another with debug.step_over once it is suspended again."
           else ""))))
    end).
End Control.
