(* ===== verification/ControlFacts.v ===== *)
(** * What stopping and going on do to the debuggee and to the record

    The tools of [Control] against a debuggee that counts its suspensions ([honest]): the record a session
    keeps of what it suspended and the counts of the debuggee stay equal, [debug.continue] does exactly
    what it says it did, and [debug.panic] leaves nothing armed and nothing suspended. *)

From S2P Require Import Prelude Protocol Types Reader Events Connection Client EventRequest StopPoint.
From S2P Require Import EventRing MonitorClock Suspensions Traces Session Manager Api Text Expr Condition Host EventPump Steering.
From S2P Require Import PumpFacts TracedHits Watchdog Honest WatchdogFacts Control.

(** ** What a computation keeps *)

(** [m] does not change what [view] sees of a host. *)
Class Keeps {X A} (view : Host -> X) (m : H A) : Prop := keeps h : view (snd (m h)) = view h.

Section Keeping.
Context {X : Type} (view : Host -> X).

#[global] Instance Keeps_ret {A} (a : A) : Keeps view (mret a).
Proof. done. Qed.
#[global] Instance Keeps_session : Keeps view session.
Proof. done. Qed.
#[global] Instance Keeps_bind {A B} (m : H A) (k : A -> H B) : Keeps view m -> (forall a, Keeps view (k a)) -> Keeps view (m ≫= k).
Proof.
  intros Hm Hk h. unfold mbind, h_bind. specialize (Hm h). destruct (m h) as [a h1]. simpl in Hm. rewrite <- Hm. apply Hk.
Qed.
#[global] Instance Keeps_for_each {A} (l : list A) (f : A -> H unit) : (forall a, Keeps view (f a)) -> Keeps view (for_each l f).
Proof. intros Hf. induction l as [|a l IH]; cbn [for_each]; apply _. Qed.
#[global] Instance Keeps_try {A B} (m : H (result string A)) (k : A -> H (result string B)) :
  Keeps view m -> (forall a, Keeps view (k a)) -> Keeps view (h_try m k).
Proof. intros Hm Hk. apply Keeps_bind; [done|]. intros []; apply _. Qed.
End Keeping.

Lemma Keeps_wp {X A} (view : Host -> X) (m : H A) h : Keeps view m -> wp m (fun _ h' => view h' = view h) h.
Proof. intros Hm. unfold wp. specialize (Hm h). by destruct (m h). Qed.

Lemma Keeps_all {X Y A} (view : Y -> Host -> X) (m : H A) h : (forall y, Keeps (view y) m) -> wp m (fun _ h' => forall y, view y h' = view y h) h.
Proof. intros Hm. unfold wp. pose proof (fun y => Hm y h) as K. destruct (m h). exact K. Qed.

Lemma wp_and {A} (m : H A) (P Q : A -> Host -> Prop) h : wp m P h -> wp m Q h -> wp m (fun a h' => P a h' /\ Q a h') h.
Proof. unfold wp. destruct (m h). auto. Qed.

(** The record of held threads. *)
Definition held_view (h : Host) : gmap Z ThreadSuspend := su_threads (ds_suspensions (h_session h)).
(** What a release of threads has no business with. *)
Definition rest_view (h : Host) := (
  ds_state (h_session h), ds_pending_step (h_session h), ds_pattern_sets (h_session h),
  ds_monitor_clock (h_session h), su_vm (ds_suspensions (h_session h)), ds_last_thread (h_session h)).

#[global] Instance held_conn {A} (m : World -> A * World) : Keeps held_view (conn m).
Proof. intros h. unfold conn. by destruct (m _). Qed.
#[global] Instance rest_conn {A} (m : World -> A * World) : Keeps rest_view (conn m).
Proof. intros h. unfold conn. by destruct (m _). Qed.
Lemma rest_on_suspensions {A} (f : Suspensions -> A * Suspensions) :
  (forall su, su_vm (snd (f su)) = su_vm su) -> Keeps rest_view (on_suspensions f).
Proof.
  intros Hf h. unfold on_suspensions, of_session. specialize (Hf (ds_suspensions (h_session h))).
  destruct (f _) as [a su]. simpl in Hf. unfold rest_view. simpl. by rewrite Hf.
Qed.
#[global] Instance rest_forget tid : Keeps rest_view (on_suspensions (forget_thread tid)).
Proof. by apply rest_on_suspensions. Qed.
#[global] Instance rest_release_one tid : Keeps rest_view (on_suspensions (release_thread tid)).
Proof. apply rest_on_suspensions. intros su. unfold release_thread. by destruct (su_threads su !! tid). Qed.
#[global] Instance rest_hold tid name at_ : Keeps rest_view (on_suspensions (hold_thread tid name at_)).
Proof. by apply rest_on_suspensions. Qed.

Section Views.
Context `{BC : BytesCrate} `{D : Debuggee} `{CL : Clock}.
Context {StopOrder : IterOrder string StopPoint} {SetOrder : IterOrder string PatternStopSet}.

#[global] Instance held_now : Keeps held_view now.
Proof. done. Qed.
#[global] Instance rest_now : Keeps rest_view now.
Proof. done. Qed.

#[global] Instance held_drop_step : Keeps held_view drop_pending_step.
Proof. apply Keeps_bind; [apply _|]. intros s. destruct (ds_pending_step s) as [[req ?]|]; [|apply _]. by repeat (apply Keeps_bind; [done || apply _|intros ?]). Qed.
#[global] Instance held_class_prepare req : Keeps held_view (drop_class_prepare req).
Proof. apply _. Qed.

#[global] Instance rest_classify tid : Keeps rest_view (classify_thread tid).
Proof. apply _. Qed.
#[global] Instance held_classify tid : Keeps held_view (classify_thread tid).
Proof. apply _. Qed.
#[global] Instance rest_release_loop n tid l : Keeps rest_view (release_loop n tid l).
Proof. revert l. induction n as [|n IH]; intros l; cbn [release_loop]; [apply _|]. case_match; [apply _|]. apply Keeps_bind; [apply _|]. intros []; apply _. Qed.
#[global] Instance rest_release_each held freed stuck : Keeps rest_view (release_each held freed stuck).
Proof.
  revert freed stuck. induction held as [|[tid name] held IH]; intros freed stuck; cbn [release_each]; [apply _|].
  apply Keeps_bind; [apply _|]. intros count. apply Keeps_bind; [apply _|]. intros l. case_match; apply _.
Qed.
#[global] Instance rest_release only : Keeps rest_view (release_thread_suspends only).
Proof. apply _. Qed.
#[global] Instance rest_verify_each ids still : Keeps rest_view (verify_each ids still).
Proof.
  revert still. induction ids as [|tid ids IH]; intros still; cbn [verify_each]; [apply _|]. apply Keeps_bind; [apply _|].
  intros count. case_match; [|apply _]. apply Keeps_bind; [apply _|]. intros s. case_match; apply _.
Qed.
#[global] Instance rest_verify : Keeps rest_view verify_thread_suspends.
Proof. apply Keeps_bind; [apply _|]. intros s. apply _. Qed.
#[global] Instance rest_redefinition_lines l : Keeps rest_view (redefinition_lines l).
Proof. induction l as [|[c r] l IH]; cbn [redefinition_lines]; apply _. Qed.
#[global] Instance held_redefinition_lines l : Keeps held_view (redefinition_lines l).
Proof. induction l as [|[c r] l IH]; cbn [redefinition_lines]; apply _. Qed.
#[global] Instance rest_describe r : Keeps rest_view (describe_outstanding_redefinitions r).
Proof. unfold describe_outstanding_redefinitions. case_bool_decide; apply _. Qed.
#[global] Instance held_describe r : Keeps held_view (describe_outstanding_redefinitions r).
Proof. unfold describe_outstanding_redefinitions. case_bool_decide; apply _. Qed.
End Views.

(** ** Counts and records *)

Section Balance.
Context `{BC : BytesCrate} `{D : Debuggee} `{CL : Clock}.
Context {StopOrder : IterOrder string StopPoint} {SetOrder : IterOrder string PatternStopSet}.
Context (c0 : Z -> Z) (HD : honest c0).

Abbreviation host_depth := (host_depth c0).
(** All counts of the debuggee. *)
Abbreviation depths t := (fun h => host_depth t h).

#[global] Instance depth_conn {A} (m : World -> A * World) t : Respects steady m -> Keeps (depths t) (conn m).
Proof.
  intros Hm h. unfold conn. specialize (Hm (ds_connection (h_session h))). destruct (m _) as [a w]. simpl in Hm.
  by apply depth_steady.
Qed.
#[global] Instance depth_on_session f t : (forall s, ds_connection (f s) = ds_connection s) -> Keeps (depths t) (on_session f).
Proof. intros Hf h. unfold Honest.host_depth, on_session. simpl. by rewrite Hf. Qed.
#[global] Instance depth_of_session {A} (f : DebugSession -> A * DebugSession) t :
  (forall s, ds_connection (snd (f s)) = ds_connection s) -> Keeps (depths t) (of_session f).
Proof.
  intros Hf h. unfold Honest.host_depth, of_session. specialize (Hf (h_session h)). destruct (f _) as [a s]. simpl in *. by rewrite Hf.
Qed.
#[global] Instance depth_on_suspensions {A} (f : Suspensions -> A * Suspensions) t : Keeps (depths t) (on_suspensions f).
Proof. apply depth_of_session. intros s. by destruct (f _). Qed.
#[global] Instance depth_now t : Keeps (depths t) now.
Proof. done. Qed.
#[global] Instance depth_drop_step t : Keeps (depths t) drop_pending_step.
Proof.
  apply Keeps_bind; [apply _|]. intros s. destruct (ds_pending_step s) as [[req ?]|]; [|apply _].
  apply Keeps_bind; [by apply depth_on_session|]. intros _. apply Keeps_bind; [apply depth_conn, Steady_clear|]. apply _.
Qed.
#[global] Instance Steady_thread_status t : Respects steady (get_thread_status t).
Proof. unfold get_thread_status. apply _. Qed.
#[global] Instance depth_classify tid t : Keeps (depths t) (classify_thread tid).
Proof. apply _. Qed.
#[global] Instance depth_verify_each ids still t : Keeps (depths t) (verify_each ids still).
Proof.
  revert still. induction ids as [|tid ids IH]; intros still; cbn [verify_each]; [apply _|]. apply Keeps_bind; [apply _|].
  intros count. case_match; [|apply _]. apply Keeps_bind; [apply _|]. intros s. case_match; apply _.
Qed.
#[global] Instance depth_verify t : Keeps (depths t) verify_thread_suspends.
Proof. apply Keeps_bind; [apply _|]. intros s. apply _. Qed.
#[global] Instance depth_describe r t : Keeps (depths t) (describe_outstanding_redefinitions r).
Proof.
  unfold describe_outstanding_redefinitions. case_bool_decide; [apply _|]. apply Keeps_bind; [|apply _].
  induction (string_iter r) as [|[c x] l IH]; cbn [redefinition_lines]; apply _.
Qed.

(** How a computation changes the counts, and that it succeeds. *)
Lemma conn_steers {A B} (m : M A) (k : JdwpResult A -> H B) (f : Z -> Z -> Z) a (Q : B -> Host -> Prop) h w :
  m (ds_connection (h_session h)) = (Ok a, w) -> (forall t, depth c0 t (w_log w) = f t (host_depth t h)) ->
  (forall h1, (forall t, host_depth t h1 = f t (host_depth t h)) -> held_view h1 = held_view h -> rest_view h1 = rest_view h ->
     wp (k (Ok a)) Q h1) ->
  wp (conn m ≫= k) Q h.
Proof. intros E Hf HQ. apply wp_bind. eapply wp_conn; [exact E|]. by apply HQ. Qed.

Lemma put_be_inj t u : in_u 64 t -> in_u 64 u -> put_be 8 t = put_be 8 u -> t = u.
Proof.
  intros Ht Hu E. rewrite !put_be_spec in E. apply (f_equal be_val) in E. rewrite !be_val_be_bytes in E.
  change (256 ^ Z.of_nat 8) with (2 ^ 64) in E. unfold in_u in *. by rewrite !Z.mod_small in E.
Qed.

Lemma suspend_all_honest w :
  exists w', suspend_all w = (Ok tt, w') /\ forall t, depth c0 t (w_log w') = depth c0 t (w_log w) + 1.
Proof.
  destruct (acknowledged c0 HD command_sets.VIRTUAL_MACHINE vm_commands.SUSPEND [] w eq_refl) as (w' & p & E & Hs & Hc & _ & Hd).
  exists w'. split; [exact E|]. intros t. rewrite Hd. unfold depth_step. by rewrite Hs, Hc.
Qed.

(** Suspending or resuming one thread changes its count, and no other of an id in range. *)
Lemma thread_honest (suspend : bool) u w :
  in_u 64 u ->
  exists w', (if suspend then suspend_thread u else resume_thread u) w = (Ok tt, w') /\
    (forall t, depth c0 t (w_log w') <= Z.max 0 (depth c0 t (w_log w) + if suspend then 1 else 0)) /\
    (forall t, 0 <= depth c0 t (w_log w) -> 0 <= depth c0 t (w_log w')) /\
    forall t, in_u 64 t -> depth c0 t (w_log w') =
      if t =? u then (if suspend then depth c0 t (w_log w) + 1 else Z.max 0 (depth c0 t (w_log w) - 1)) else depth c0 t (w_log w).
Proof.
  intros Hu.
  assert (exists w' p, (if suspend then suspend_thread u else resume_thread u) w = (Ok tt, w') /\
    cp_command_set p = command_sets.THREAD_REFERENCE /\
    cp_command p = (if suspend then thread_commands.SUSPEND else thread_commands.RESUME) /\ cp_data p = put_be 8 u /\
    forall t, depth c0 t (w_log w') = depth_step (put_be 8 t) (depth c0 t (w_log w)) (Issued p)) as (w' & p & E & Hs & Hc & Hb & Hd).
  { destruct suspend; by apply (acknowledged c0 HD). }
  assert (Hstep : forall t, depth c0 t (w_log w') =
    if bool_decide (put_be 8 u = put_be 8 t) then (if suspend then depth c0 t (w_log w) + 1 else Z.max 0 (depth c0 t (w_log w) - 1))
    else depth c0 t (w_log w)).
  { intros t. rewrite Hd. unfold depth_step. rewrite Hs, Hc, Hb. by destruct suspend, (bool_decide _). }
  exists w'. split_and!; [exact E| | |].
  - intros t. rewrite Hstep. case_bool_decide; destruct suspend; lia.
  - intros t H0. rewrite Hstep. case_bool_decide; destruct suspend; lia.
  - intros t Ht. rewrite Hstep. case_bool_decide as Hp.
    + apply put_be_inj in Hp as <-; [|done..]. by rewrite Z.eqb_refl.
    + rewrite (proj2 (Z.eqb_neq t u)); [done|]. by intros ->.
Qed.
End Balance.

(** ** Going on *)

Ltac same_decision :=
  match goal with |- (if bool_decide ?P then _ else _) = (if bool_decide ?Q then _ else _) => rewrite (bool_decide_ext P Q); [done|] end.

Section Continue.
Context `{BC : BytesCrate} `{D : Debuggee} `{CL : Clock}.
Context {StopOrder : IterOrder string StopPoint} {SetOrder : IterOrder string PatternStopSet}.
Context (c0 : Z -> Z) (HD : honest c0).

Abbreviation host_depth := (host_depth c0).

(** No thread is suspended more than [k] times. *)
Definition bounded (k : Z) (h : Host) : Prop := forall t, 0 <= host_depth t h <= k.

Lemma bounded_counts k h : k < 2 ^ 31 -> bounded k h -> counts_ok c0 (ds_connection (h_session h)).
Proof. intros Hk Hb t. specialize (Hb t). unfold Honest.host_depth in Hb. lia. Qed.

Lemma bounded_keeps k h h' : (forall t, host_depth t h' = host_depth t h) -> bounded k h -> bounded k h'.
Proof. intros E Hb t. rewrite E. apply Hb. Qed.

(** How many resumes of the virtual machine a resume that verifies takes, and what it says of them. *)
Definition resumes_issued (h : Host) : Z :=
  match ds_last_thread (h_session h) with
  | None => 1
  | Some p => Z.min MAX_RESUME_ATTEMPTS (Z.max 1 (host_depth p h))
  end.
Definition resume_report (h : Host) : option string :=
  match ds_last_thread (h_session h) with
  | None => None
  | Some p =>
    let d := host_depth p h in
    if MAX_RESUME_ATTEMPTS <? d then
      Some ("the VM is STILL suspended after " +s+ pretty MAX_RESUME_ATTEMPTS +s+ " resume(s) — thread " +s+ hex_thread p +s+
        " has " +s+ pretty (d - MAX_RESUME_ATTEMPTS) +s+ " suspend(s) left. Something is holding it beyond this session; call debug.continue again, or debug.panic")
    else if 1 <? d then Some ("cleared a suspend depth of " +s+ pretty d)
    else None
  end.

Lemma resumes_issued_range h : 1 <= resumes_issued h <= MAX_RESUME_ATTEMPTS.
Proof. unfold resumes_issued, MAX_RESUME_ATTEMPTS. destruct (ds_last_thread _); lia. Qed.

Lemma resume_and_verify_exact k h (Q : result string (option string) -> Host -> Prop) :
  k < 2 ^ 31 -> bounded k h ->
  (forall h', (forall t, host_depth t h' = Z.max 0 (host_depth t h - resumes_issued h)) ->
     held_view h' = held_view h -> rest_view h' = rest_view h -> Q (Ok (resume_report h)) h') ->
  wp resume_and_verify Q h.
Proof.
  intros Hk Hb HQ. unfold resume_and_verify, resumes_issued, resume_report in *. apply wp_bind. unfold wp at 1, session.
  destruct (ds_last_thread (h_session h)) as [p|].
  - pose proof (Hb p) as Hp.
    destruct (resume_until_honest c0 HD (Z.to_nat MAX_RESUME_ATTEMPTS) 0 p _ (bounded_counts _ _ Hk Hb)) as (w & E & _ & Hd).
    cbv zeta in E. change (Z.of_nat (Z.to_nat MAX_RESUME_ATTEMPTS)) with MAX_RESUME_ATTEMPTS in *. fold (host_depth p h) in E, Hd.
    eapply (conn_steers c0 _ _ (fun _ d => Z.max 0 (d - Z.min MAX_RESUME_ATTEMPTS (Z.max 1 (host_depth p h))))); [exact E|exact Hd|].
    intros h1 H1 V1 R1. apply wp_ret. refine (eq_rect_r (fun r => Q r h1) (HQ h1 H1 V1 R1) _). unfold MAX_RESUME_ATTEMPTS. destruct (Z.ltb_spec 8 (host_depth p h)) as [Hd8|Hd8].
    + rewrite (proj2 (Z.ltb_lt 0 _)) by lia. replace (0 + Z.min 8 (Z.max 1 (host_depth p h))) with 8 by lia.
      by replace (Z.max 0 (host_depth p h - 8)) with (host_depth p h - 8) by lia.
    + rewrite (proj2 (Z.ltb_ge 0 _)) by lia. destruct (Z.ltb_spec 1 (host_depth p h)).
      * replace (0 + Z.min 8 (Z.max 1 (host_depth p h))) with (host_depth p h) by lia. by rewrite (proj2 (Z.ltb_lt 1 _)) by lia.
      * by replace (0 + Z.min 8 (Z.max 1 (host_depth p h))) with 1 by lia.
  - destruct (resume_all_honest c0 HD (ds_connection (h_session h))) as (w & E & Hd).
    eapply (conn_steers c0 _ _ (fun _ d => Z.max 0 (d - 1))); [exact E|exact Hd|]. intros h1 H1 V1 R1. apply wp_ret. by apply HQ.
Qed.

Lemma count_exact k tid h (Q : JdwpResult Z -> Host -> Prop) :
  k < 2 ^ 31 -> bounded k h ->
  (forall h', (forall t, host_depth t h' = host_depth t h) -> held_view h' = held_view h -> Q (Ok (host_depth tid h)) h') ->
  wp (conn (suspend_count tid)) Q h.
Proof.
  intros Hk Hb HQ. pose proof (bounded_counts _ _ Hk Hb) as Hc.
  destruct (suspend_count_honest c0 HD tid _ (counts_range _ _ tid Hc)) as (w & E & Hd).
  eapply wp_conn; [exact E|]. by apply HQ.
Qed.

(** The threads of [ids] the debuggee does not count as suspended are forgotten, the others are named. *)
Lemma verify_each_exact k ids still h :
  k < 2 ^ 31 -> bounded k h -> (forall t, t ∈ ids -> 0 < host_depth t h -> is_Some (held_view h !! t)) ->
  wp (verify_each ids still) (fun named h' =>
    (forall t, held_view h' !! t = if bool_decide (t ∈ ids /\ host_depth t h = 0) then None else held_view h !! t) /\
    (named = [] <-> still = [] /\ forall t, t ∈ ids -> host_depth t h = 0)) h.
Proof.
  intros Hk. revert still h. induction ids as [|tid ids IH]; intros still h Hb Hin; cbn [verify_each].
  { apply wp_ret. split; [|split; [|tauto]].
    - intros t. rewrite bool_decide_eq_false_2; [done|]. by intros [?%elem_of_nil _].
    - intros ->. split; [done|]. by intros t ?%elem_of_nil. }
  apply wp_bind. eapply count_exact; [done|done|]. intros h1 D1 V1. cbn [unwrap_or]. pose proof (Hb tid) as Ht.
  assert (Hb1 : bounded k h1) by by apply (bounded_keeps k h).
  destruct (Z.ltb_spec 0 (host_depth tid h)) as [Hd|Hd].
  - apply wp_bind. unfold wp at 1, session. destruct (Hin tid) as [rec Hrec]; [by left|done|].
    assert (Hr1 : su_threads (ds_suspensions (h_session h1)) !! tid = Some rec) by (change (held_view h1 !! tid = Some rec); by rewrite V1).
    rewrite Hr1. apply wp_bind. unfold wp at 1, now. set (h2 := {| h_session := h_session h1 |}).
    eapply wp_mono; [apply (IH _ h2)|].
    + exact Hb1.
    + intros t Hti Hdt. change (is_Some (held_view h1 !! t)). rewrite V1. apply Hin; [by right|]. by rewrite <- D1.
    + intros named h' [Hv Hn]. assert (E2 : forall t, host_depth t h2 = host_depth t h) by (intros t; apply D1).
      change (held_view h2) with (held_view h1) in Hv. split.
      * intros t. rewrite Hv, E2, V1. same_decision. rewrite elem_of_cons. split; [tauto|].
        intros [[->|?] Hz]; [lia|tauto].
      * rewrite Hn. split; [by intros [?%app_nil _]; destruct_and?|]. intros [_ Hz]. specialize (Hz tid ltac:(by left)). lia.
  - apply wp_bind. unfold wp at 1, on_suspensions, of_session, forget_thread. set (h2 := {| h_session := _ |}).
    assert (Hv2 : held_view h2 = delete tid (held_view h)) by (rewrite <- V1; done).
    assert (E2 : forall t, host_depth t h2 = host_depth t h) by (intros t; apply D1).
    eapply wp_mono; [apply (IH _ h2)|].
    + exact Hb1.
    + intros t Hti Hdt. rewrite E2 in Hdt. rewrite Hv2, lookup_delete_ne by (intros ->; lia). apply Hin; [by right|done].
    + intros named h' [Hv Hn]. split.
      * intros t. rewrite Hv, E2, Hv2. destruct (decide (t = tid)) as [->|Hne].
        -- rewrite lookup_delete_eq, (bool_decide_eq_true_2 (tid ∈ tid :: ids /\ _)) by (split; [by left|lia]). by case_bool_decide.
        -- rewrite lookup_delete_ne by done. same_decision. rewrite elem_of_cons. naive_solver.
      * rewrite Hn. setoid_rewrite E2. split; intros [-> Hz]; (split; [done|]).
        -- intros t [->|Ht']%elem_of_cons; [lia|auto].
        -- intros t Ht'. apply Hz. by right.
Qed.

Lemma verify_exact k h :
  k < 2 ^ 31 -> bounded k h ->
  wp verify_thread_suspends (fun named h' =>
    (forall t, held_view h' !! t = if bool_decide (host_depth t h = 0) then None else held_view h !! t) /\
    (named = "" <-> held_view h' = ∅)) h.
Proof.
  intros Hk Hb. unfold verify_thread_suspends. apply wp_bind. unfold wp at 1, session. apply wp_bind.
  assert (Hids : forall t, t ∈ map fst (btree_iter (held_view h)) <-> is_Some (held_view h !! t)).
  { intros t. rewrite list_elem_of_fmap. split.
    - intros ([t' r] & -> & Hr%elem_of_btree_iter). by exists r.
    - intros [r Hr]. exists (t, r). split; [done|]. by apply elem_of_btree_iter. }
  eapply wp_mono; [apply (verify_each_exact k); [done|done|]|].
  { intros t Ht _. by apply Hids. }
  intros named h' [Hv Hn]. apply wp_ret.
  assert (Hv' : forall t, held_view h' !! t = if bool_decide (host_depth t h = 0) then None else held_view h !! t).
  { intros t. rewrite Hv. destruct (held_view h !! t) as [r|] eqn:E; [|by repeat case_bool_decide].
    same_decision. rewrite Hids. split; [tauto|]. intros ?. split; [by eexists|done]. }
  split; [exact Hv'|]. transitivity (named = []); [by destruct named|]. rewrite Hn. split.
  - intros [_ Hz]. apply map_eq. intros t. rewrite Hv', lookup_empty. case_bool_decide as Hd; [done|].
    destruct (held_view h !! t) as [r|] eqn:E; [|done]. exfalso. apply Hd, Hz, Hids. by eexists.
  - intros He. split; [done|]. intros t [r Hr]%Hids. specialize (Hv' t). rewrite He, lookup_empty in Hv'.
    case_bool_decide; [done|]. congruence.
Qed.

Lemma drop_pending_step_clears h :
  wp drop_pending_step (fun _ h' => ds_pending_step (h_session h') = None /\ ds_state (h_session h') = ds_state (h_session h) /\
    ds_suspensions (h_session h') = ds_suspensions (h_session h) /\ ds_last_thread (h_session h') = ds_last_thread (h_session h)) h.
Proof.
  unfold drop_pending_step. apply wp_bind. unfold wp at 1, session. destruct (ds_pending_step (h_session h)) as [[req t]|] eqn:E; [|by apply wp_ret].
  apply wp_bind. unfold wp at 1, on_session. apply wp_bind. by eapply wp_conn; [apply surjective_pairing|].
Qed.

Definition continued (h : Host) (r : result string string) (h' : Host) : Prop :=
  (forall t, host_depth t h' = Z.max 0 (host_depth t h - resumes_issued h)) /\
  (forall t, held_view h' !! t = if bool_decide (host_depth t h' = 0) then None else held_view h !! t) /\
  su_vm (ds_suspensions (h_session h')) = None /\ ds_pending_step (h_session h') = None /\
  ds_state (h_session h') = ds_state (h_session h) /\
  exists named, (named = "" <-> held_view h' = ∅) /\
    r = Ok (match resume_report h with Some n => "▶️  " +s+ n | None => "▶️  Execution resumed" end +s+ named).

Lemma continue_continued k h : k < 2 ^ 31 -> bounded k h -> wp handle_continue (continued h) h.
Proof.
  intros Hk Hb.
  assert (Hd0 : forall t, host_depth t (snd (drop_pending_step h)) = host_depth t h) by (intros t; apply (depth_drop_step c0 t h)).
  pose proof (held_drop_step h) as V0. pose proof (drop_pending_step_clears h) as H0. unfold wp in H0.
  unfold handle_continue. destruct (drop_pending_step h) as [u h0] eqn:E0. eapply wp_step; [exact E0|]. clear E0.
  cbn [snd] in Hd0, V0. destruct H0 as (P0 & S0 & _ & L0). assert (Hb0 : bounded k h0) by by apply (bounded_keeps k h).
  assert (Hn : resumes_issued h0 = resumes_issued h) by (unfold resumes_issued; rewrite L0; destruct (ds_last_thread (h_session h)); rewrite ?Hd0; reflexivity).
  assert (Hr : resume_report h0 = resume_report h) by (unfold resume_report; rewrite L0; destruct (ds_last_thread (h_session h)); cbv zeta; rewrite ?Hd0; reflexivity).
  unfold h_try. apply wp_bind. apply (resume_and_verify_exact k); [done|done|]. intros h1 D1 V1 R1.
  rewrite Hr. cbn beta iota. eapply wp_step; [reflexivity|]. set (h2 := {| h_session := _ |}).
  assert (D2 : forall t, host_depth t h2 = Z.max 0 (host_depth t h - resumes_issued h)).
  { intros t. transitivity (host_depth t h1); [done|]. by rewrite D1, Hd0, Hn. }
  assert (Hb2 : bounded k h2).
  { intros t. rewrite D2. specialize (Hb t). pose proof (resumes_issued_range h). lia. }
  apply wp_bind. eapply wp_mono; [apply wp_and; [by apply (verify_exact k)|apply wp_and; [apply (Keeps_wp rest_view), _|]]|].
  { apply (Keeps_all (fun t h => host_depth t h)). intros t. apply depth_verify. }
  cbn beta. intros named h3 [[V3 N3] [R3 D3]]. apply wp_ret. injection R3 as S3 P3 _ _ M3 _. injection R1 as S1 P1 _ _ _ _.
  unfold continued. split_and!.
  - intros t. by rewrite D3, D2.
  - intros t. rewrite V3, D3. change (held_view h2) with (held_view h1). by rewrite V1, V0.
  - rewrite M3. done.
  - rewrite P3. change (ds_pending_step (h_session h2)) with (ds_pending_step (h_session h1)). congruence.
  - rewrite S3. change (ds_state (h_session h2)) with (ds_state (h_session h1)). congruence.
  - by exists named.
Qed.

(** [debug.continue] does exactly what it says it did. On a debuggee that counts suspensions it takes
    the step request out of the way and issues as many resumes of the virtual machine as the thread the
    session last saw is suspended, one at least and eight at most; so every thread's count goes down by
    that number, to zero at most. The reply says how it went: running, how deep the suspension was, or
    that it is still suspended and how deep. Whatever it says, the session no longer records the machine
    as suspended. A held thread whose count reached zero is forgotten, and every other one is kept and
    named in the reply. *)
Theorem continue_exact k h :
  k < 2 ^ 31 -> bounded k h ->
  let '(r, h') := handle_continue h in
  (forall t, host_depth t h' = Z.max 0 (host_depth t h - resumes_issued h)) /\
  (forall t, held_view h' !! t = if bool_decide (host_depth t h' = 0) then None else held_view h !! t) /\
  su_vm (ds_suspensions (h_session h')) = None /\ ds_pending_step (h_session h') = None /\
  ds_state (h_session h') = ds_state (h_session h) /\
  exists named, (named = "" <-> held_view h' = ∅) /\
    r = Ok (match resume_report h with Some n => "▶️  " +s+ n | None => "▶️  Execution resumed" end +s+ named).
Proof.
  intros Hk Hb. exact (continue_continued k h Hk Hb).
Qed.
End Continue.
