(* ===== verification/Locate.v ===== *)
(** * Where a line or a method is ([mcp-server/src/handlers.rs])

    The names of classes as the wire and as Java spell them, the patterns of a family, and the
    resolution of a line or a method to the locations of its bytecode. *)

From S2P Require Import Prelude Protocol Types Reader Connection Client Generics Text Expr.

(** ** Names *)

(** [str::split] on one byte. *)
Fixpoint split_on (c : Z) (s : bytes) : list bytes :=
  match s with
  | [] => [[]]
  | b :: s =>
    if b =? c then [] :: split_on c s
    else match split_on c s with seg :: segs => (b :: seg) :: segs | [] => [[b]] end
  end.

(** [str::rsplit_once] on one byte. *)
Definition rsplit_once (c : Z) (s : bytes) : option (bytes * bytes) :=
  '(b, a) ← split_once [c] (rev s); Some (rev a, rev b).

(** A later segment: what the virtual machine assigned begins with a digit and keeps its slash. *)
Definition later_segment (segment : bytes) : bytes :=
  (if match segment with b :: _ => is_ascii_digit b | [] => false end then ch "/" else ch ".") :: segment.

Definition dots (s : bytes) : bytes := map (fun b => if b =? ch "/" then ch "." else b) s.

Definition decode_internal_name (internal : bytes) : bytes :=
  match split_once [ch "."] internal with
  | Some (binary_name, assigned_by_the_vm) => dots binary_name ++ ch "/" :: assigned_by_the_vm
  | None =>
    match split_on (ch "/") internal with
    | segment :: segments => segment ++ concat (map later_segment segments)
    | [] => []
    end
  end.

Fixpoint array_dims (s : bytes) : nat * bytes :=
  match s with
  | b :: r => if b =? ch "[" then let '(n, rest) := array_dims r in (S n, rest) else (0%nat, s)
  | [] => (0%nat, [])
  end.

Definition decode_signature (sig : string) : string :=
  let '(dims, rest) := array_dims (bytes_of_string sig) in
  let base :=
    match rest with
    | b :: inner =>
      if b =? ch "L" then decode_internal_name (default inner (strip_suffix [ch ";"] inner))
      else if b =? ch "Z" then chars_of "boolean"
      else if b =? ch "B" then chars_of "byte"
      else if b =? ch "C" then chars_of "char"
      else if b =? ch "S" then chars_of "short"
      else if b =? ch "I" then chars_of "int"
      else if b =? ch "J" then chars_of "long"
      else if b =? ch "F" then chars_of "float"
      else if b =? ch "D" then chars_of "double"
      else if b =? ch "V" then chars_of "void"
      else bytes_of_string sig
    | [] => bytes_of_string sig
    end in
  string_of_bytes base +s+ repeat_str "[]" dims.

Definition slashes (s : string) : string :=
  string_of_bytes (map (fun b => if b =? ch "." then ch "/" else b) (bytes_of_string s)).

Definition signature_for_dotted (dotted : string) : string :=
  let s := bytes_of_string dotted in
  if starts_with [ch "L"] s && ends_with [ch ";"] s then dotted else "L" +s+ slashes dotted +s+ ";".

(** ** Patterns *)

(** [str::contains]. *)
Definition contains (p s : bytes) : bool := is_some (split_once p s).

Definition is_wildcard (pattern : string) : bool := contains [ch "*"] (bytes_of_string pattern).

Fixpoint trim_start_of (c : Z) (s : bytes) : bytes :=
  match s with b :: r => if b =? c then trim_start_of c r else s | [] => [] end.
(** [str::trim_matches]. *)
Definition trim_of (c : Z) (s : bytes) : bytes := rev (trim_start_of c (rev (trim_start_of c s))).

Definition class_matches (fqn filter : string) : bool :=
  let n := bytes_of_string fqn in
  let f := bytes_of_string filter in
  match strip_suffix [ch "*"] f, strip_prefix [ch "*"] f with
  | Some _, Some _ => contains (trim_of (ch "*") f) n
  | Some prefix, None => starts_with prefix n
  | None, Some suffix => ends_with suffix n || bool_decide (n = trim_start_of (ch ".") suffix)
  | None, None => contains f n
  end.

(** The class pattern of the wire for a pattern of ours, and whether it had to be widened. *)
Definition jdwp_class_match_for (pattern : string) : string * bool :=
  let p := bytes_of_string pattern in
  let one_star := (length (base.filter (fun b => b = ch "*") p) =? 1)%nat in
  if one_star && (starts_with [ch "*"] p || ends_with [ch "*"] p) then (pattern, false) else ("*", true).

(** ** Locations *)

Record ResolvedLocation : Type := {
  rl_method : MethodInfo;
  rl_code_index : Z;
  rl_extra_code_indices : list Z;
  rl_line : Z;
  rl_lines : list (Z * Z);
}.

Inductive BpLocationError : Type := NoSuchMethod (m : string) | NoSuchLine (l : Z) | Unreadable (e : string).

Definition show_location_error (e : BpLocationError) : string :=
  match e with
  | NoSuchMethod m => "Method '" +s+ m +s+ "' not found"
  | NoSuchLine l => "No method contains line " +s+ pretty l
  | Unreadable e => e
  end.

(** The first executable location of a method. *)
Definition first_location (lt : LineTable) : option (Z * list Z * Z) :=
  e ← min_by_key lte_line_code_index (lt_lines lt); Some (lte_line_code_index e, [], lte_line_number e).

Definition line_hits (lt : LineTable) (want : Z) : list Z :=
  merge_sort Z.le (map lte_line_code_index (base.filter (fun e => lte_line_number e = want) (lt_lines lt))).

Definition locations_in_method (lt : LineTable) (line_opt : option Z) (method_hint : option string) :
    option (Z * list Z * Z) :=
  match line_opt with
  | None => first_location lt
  | Some want =>
    match line_hits lt want with
    | first :: hits => Some (first, hits, want)
    | [] => if is_some method_hint then first_location lt else None
    end
  end.

Section Resolve.
Context `{BC : BytesCrate} `{D : Debuggee}.

(** The loop over the methods: the first that has the location. *)
Fixpoint choose_method (class_type_id : Z) (line_opt : option Z) (method_hint : option string)
    (methods : list MethodInfo) : St (option ResolvedLocation) :=
  match methods with
  | [] => mret None
  | method :: methods =>
    if match method_hint with Some hint => negb (bool_decide (mi_name method = hint)) | None => false end
    then choose_method class_type_id line_opt method_hint methods
    else
      line_table ← attempt (get_line_table class_type_id (mi_method_id method));
      match line_table with
      | Err _ => choose_method class_type_id line_opt method_hint methods
      | Ok lt =>
        match locations_in_method lt line_opt method_hint with
        | Some (first, extra, line) =>
          mret (Some {| rl_method := method; rl_code_index := first; rl_extra_code_indices := extra; rl_line := line;
                        rl_lines := map (fun e => (lte_line_code_index e, lte_line_number e)) (lt_lines lt) |})
        | None => choose_method class_type_id line_opt method_hint methods
        end
      end
  end.

Definition resolve_bp_location (class_type_id : Z) (line_opt : option Z) (method_hint : option string) :
    St (result BpLocationError ResolvedLocation) :=
  methods ← attempt (get_methods class_type_id);
  match methods with
  | Err e => mret (Err (Unreadable ("Failed to get methods: " +s+ display_error e)))
  | Ok methods =>
    chosen ← choose_method class_type_id line_opt method_hint methods;
    mret (match chosen with
          | Some loc => Ok loc
          | None => Err (match line_opt with
                         | Some l => NoSuchLine l
                         | None => NoSuchMethod (default "" method_hint)
                         end)
          end)
  end.

(** ** Class loaders *)

Definition loader_label (cid : Z) : St string :=
  loader ← attempt (get_class_loader cid);
  match loader with
  | Ok None => mret "bootstrap"
  | Ok (Some loader) =>
    lt ← attempt (get_object_reference_type loader);
    named ← match lt with
            | Ok lt => s ← attempt (get_signature lt);
              mret ((fun s => string_of_bytes (decode_internal_name (bytes_of_string s))) <$> ok_of s)
            | Err _ => mret None
            end;
    let id := "0x" +s+ show_hex loader in
    mret (match named with Some n => n +s+ "@" +s+ id | None => id end)
  | Err e => mret ("(loader unreadable: " +s+ display_error e +s+ ")")
  end.

Fixpoint describe_loaders_from (i : Z) (class_ids : list Z) : St (list string) :=
  match class_ids with
  | [] => mret []
  | cid :: class_ids =>
    label ← loader_label cid;
    rest ← describe_loaders_from (i + 1) class_ids;
    mret (("#" +s+ pretty i +s+ " " +s+ label) :: rest)
  end.
Definition describe_class_loaders (class_ids : list Z) : St (list string) := describe_loaders_from 0 class_ids.
End Resolve.

(** ** Where a line is *)

Definition pairs_of (lt : LineTable) : list (Z * Z) := map (fun e => (lte_line_code_index e, lte_line_number e)) (lt_lines lt).

(** The first executable location of the entries. *)
Definition first_of (entries : list (Z * Z)) (r : option (Z * list Z * Z)) : Prop :=
  match r with
  | Some (i, extra, l) => extra = [] /\ (i, l) ∈ entries /\ forall e, e ∈ entries -> i <= fst e
  | None => entries = []
  end.

(** Every copy of the line that was asked for, in the order of the bytecode; where the method has none,
    its first location for a caller that named the method, and nothing for another. *)
Definition located (entries : list (Z * Z)) (line_opt : option Z) (method_hint : option string) (r : option (Z * list Z * Z)) : Prop :=
  match line_opt with
  | None => first_of entries r
  | Some want =>
    let copies := map fst (base.filter (fun e => snd e = want) entries) in
    (copies <> [] -> exists first extra, r = Some (first, extra, want) /\ first :: extra ≡ₚ copies /\ StronglySorted Z.le (first :: extra)) /\
    (copies = [] -> if is_some method_hint then first_of entries r else r = None)
  end.

Lemma first_location_first lt : first_of (pairs_of lt) (first_location lt).
Proof.
  unfold first_location. destruct (min_by_key lte_line_code_index (lt_lines lt)) as [e|] eqn:E; simpl.
  - apply min_by_key_least in E as [Hin Hle]. split_and!; [done|by apply (list_elem_of_fmap_2 (fun e => (lte_line_code_index e, lte_line_number e)))|].
    intros x (y & -> & Hy)%list_elem_of_fmap. by apply Hle.
  - unfold pairs_of. by destruct (lt_lines lt).
Qed.

Lemma line_hits_copies lt want : line_hits lt want ≡ₚ map fst (base.filter (fun e => snd e = want) (pairs_of lt)).
Proof.
  unfold line_hits, pairs_of. rewrite merge_sort_Permutation. induction (lt_lines lt) as [|e l IH]; [done|].
  rewrite filter_cons. simpl. rewrite filter_cons. simpl. case_decide; simpl; by rewrite IH.
Qed.

Lemma locations_in_method_located lt line_opt hint : located (pairs_of lt) line_opt hint (locations_in_method lt line_opt hint).
Proof.
  destruct line_opt as [want|]; [|apply first_location_first]. unfold located, locations_in_method. cbv zeta.
  pose proof (line_hits_copies lt want) as P.
  assert (S : StronglySorted Z.le (line_hits lt want)) by (apply StronglySorted_merge_sort; apply _).
  destruct (line_hits lt want) as [|first extra]; split; intros Hc.
  - by apply Permutation_nil_l in P.
  - destruct (is_some hint); [apply first_location_first|done].
  - eauto.
  - rewrite Hc in P. by apply Permutation_nil_r in P.
Qed.

Lemma choose_method_located `{BC : BytesCrate} `{D : Debuggee} c line_opt hint methods w loc :
  fst (choose_method c line_opt hint methods w) = Some loc ->
  rl_method loc ∈ methods /\ (forall name, hint = Some name -> mi_name (rl_method loc) = name) /\
  located (rl_lines loc) line_opt hint (Some (rl_code_index loc, rl_extra_code_indices loc, rl_line loc)).
Proof.
  revert w. induction methods as [|m methods IH]; intros w; cbn [choose_method]; [done|].
  assert (Next : forall w, fst (choose_method c line_opt hint methods w) = Some loc -> _) by
    (intros w0 (Hin & Hr)%IH; exact (conj (list_elem_of_further _ m _ Hin) Hr)).
  clear IH. case_match eqn:Hint; [apply Next|]. unfold mbind, st_bind.
  destruct (attempt (get_line_table c (mi_method_id m)) w) as [[lt|e] w1]; [|apply Next].
  destruct (locations_in_method lt line_opt hint) as [[[first extra] line]|] eqn:E; [|apply Next].
  intros [= <-]. simpl. split_and!; [by left| |by rewrite <- E; apply locations_in_method_located].
  intros name ->. by apply negb_false_iff, bool_decide_eq_true in Hint.
Qed.

(** Resolving a line to locations: in the line table of a method, every copy of the line is answered
    once, the least bytecode index first; a method that has no copy answers its own first location when
    the caller named the method (or asked for no line), and none otherwise. Whatever the debuggee
    answers, a class resolves to a method of the name asked for with exactly the locations its table has,
    or to an error that names the line or the method asked for. *)
Theorem locations_exact `{BC : BytesCrate} `{D : Debuggee} :
  (forall lt line_opt hint, located (pairs_of lt) line_opt hint (locations_in_method lt line_opt hint)) /\
  (forall c line_opt hint w,
     match fst (resolve_bp_location c line_opt hint w) with
     | Ok loc => (forall name, hint = Some name -> mi_name (rl_method loc) = name) /\
         located (rl_lines loc) line_opt hint (Some (rl_code_index loc, rl_extra_code_indices loc, rl_line loc))
     | Err (NoSuchLine l) => line_opt = Some l
     | Err (NoSuchMethod m) => line_opt = None /\ m = default ""%string hint
     | Err (Unreadable _) => exists e, fst (attempt (get_methods c) w) = Err e
     end).
Proof.
  split; [apply locations_in_method_located|]. intros c line_opt hint w. unfold resolve_bp_location, mbind, st_bind.
  destruct (attempt (get_methods c) w) as [[methods|e] w1]; [|by eexists].
  pose proof (choose_method_located c line_opt hint methods w1) as K.
  destruct (choose_method c line_opt hint methods w1) as [[loc|] w2]; simpl.
  - destruct (K loc eq_refl) as (_ & Hn & Hl). done.
  - by destruct line_opt.
Qed.
