(* ===== verification/Paths.v ===== *)
(** * Files of the build and of the checkout ([mcp-server/src/handlers.rs])

    Where the class file or the source of a class is under the roots an operator named, which lines of a
    source a reply shows, and that nothing outside the roots is ever read. A path is the UTF-8 text of a
    Unix path. What the file system answers, and the tables of Unicode the standard library's [Debug] of a
    text consults beyond ASCII, are the class [Platform]. *)

From S2P Require Import Prelude Types Reader Generics Text Expr Locate.

Class Platform : Type := {
  is_file : string -> bool;
  canonicalize : string -> option string;
  (** [tokio::fs::read] and [std::fs::read_to_string], an error as it is displayed. *)
  read_file : string -> result string bytes;
  read_to_string : string -> result string string;
  (** Beyond ASCII: combining characters, and characters [Debug] shows as they are. *)
  grapheme_extended : Z -> bool;
  unicode_printable : Z -> bool;
}.

(** ** Text *)

Definition trimmed (s : string) : string := string_of_bytes (concat (map encode_utf8 (trim (str_chars s)))).

(** [str::lines]. *)
Definition end_of_line (s : bytes) : bytes := default s (strip_suffix [13] s).
Fixpoint lines_of (segments : list bytes) : list bytes :=
  match segments with
  | [] => []
  | [last] => if bool_decide (last = []) then [] else [last]
  | segment :: segments => end_of_line segment :: lines_of segments
  end.
Definition text_lines (s : string) : list string := map string_of_bytes (lines_of (split_on 10 (bytes_of_string s))).

(** A number in a field of a width, to the right. *)
Definition pad_left (width : nat) (s : string) : string := repeat_str " " (width - String.length s) +s+ s.

(** ** Paths *)

(** [PathBuf::push]. *)
Definition path_push (path segment : bytes) : bytes :=
  match segment with
  | b :: _ =>
    if b =? ch "/" then segment
    else match list.last path with
         | None => segment
         | Some l => if l =? ch "/" then path ++ segment else path ++ ch "/" :: segment
         end
  | [] => match list.last path with
          | None => []
          | Some l => if l =? ch "/" then path else path ++ [ch "/"]
          end
  end.
Definition path_join (root rel : string) : string := string_of_bytes (path_push (bytes_of_string root) (bytes_of_string rel)).

(** [Path::components]: the root, and the segments that are neither empty nor the dot; a relative path
    keeps a dot it begins with. *)
Definition is_component (segment : bytes) : bool := negb (bool_decide (segment = []) || bool_decide (segment = [ch "."])).
Definition components (path : bytes) : list bytes :=
  match split_on (ch "/") path with
  | [] => []
  | first :: rest =>
    let rest := base.filter (fun s => is_component s = true) rest in
    if bool_decide (path = []) then []
    else if bool_decide (first = []) then [ch "/"] :: rest
    else first :: rest
  end.
(** [Path::starts_with]. *)
Definition path_starts_with (path base : string) : bool :=
  bool_decide (components (bytes_of_string base) `prefix_of` components (bytes_of_string path)).

Definition is_safe_path_segment (segment : bytes) : bool :=
  negb (bool_decide (segment = [])) && negb (bool_decide (segment = [ch "."])) && negb (bool_decide (segment = chars_of ".."))
  && negb (existsb (fun b => (b =? ch "/") || (b =? 92) || (b =? ch ":")) segment).

(** The segments of a package pushed onto a path, while they are safe. *)
Fixpoint push_segments (segments : list bytes) (path : bytes) : option bytes :=
  match segments with
  | [] => Some path
  | segment :: segments => if is_safe_path_segment segment then push_segments segments (path_push path segment) else None
  end.
Definition package_path (package : bytes) : option bytes :=
  if bool_decide (package = []) then Some [] else push_segments (split_on (ch ".") package) [].

Definition class_relative_path (class_name : string) : option string :=
  let '(package, simple) := default ([], bytes_of_string class_name) (rsplit_once (ch ".") (bytes_of_string class_name)) in
  path ← package_path package;
  if is_safe_path_segment simple then Some (string_of_bytes (path_push path (simple ++ chars_of ".class"))) else None.

Definition source_relative_path (class_name source_file : string) : option string :=
  path ← package_path (default [] (fst <$> rsplit_once (ch ".") (bytes_of_string class_name)));
  if is_safe_path_segment (bytes_of_string source_file) then Some (string_of_bytes (path_push path (bytes_of_string source_file))) else None.

(** [Debug] of a text. *)
Definition printable `{Platform} (c : Z) : bool := if c <? 128 then between 32 126 c else unicode_printable c.
Definition debug_char `{Platform} (c : Z) : bytes :=
  if c =? 0 then chars_of "\0" else if c =? 9 then chars_of "\t" else if c =? 13 then chars_of "\r"
  else if c =? 10 then chars_of "\n" else if c =? 34 then [92; 34] else if c =? 92 then [92; 92]
  else if ((128 <=? c) && grapheme_extended c) || negb (printable c) then chars_of ("\u{" +s+ show_hex c +s+ "}")
  else encode_utf8 c.
Definition debug_text `{Platform} (s : string) : string := dquote +s+ string_of_bytes (concat (map debug_char (str_chars s))) +s+ dquote.

(** ** Looking under the roots *)

Inductive SourceLookup : Type := Found (path : string) | Missing | Escaped (path : string).

Section Files.
Context `{PF : Platform}.

Fixpoint find_under_roots (roots : list string) (rel : string) : SourceLookup :=
  match roots with
  | [] => Missing
  | root :: roots =>
    let candidate := path_join root rel in
    if negb (is_file candidate) then find_under_roots roots rel
    else match canonicalize root, canonicalize candidate with
         | Some real_root, Some resolved => if path_starts_with resolved real_root then Found resolved else Escaped candidate
         | _, _ => find_under_roots roots rel
         end
  end.

Definition resolve_class_file (class_name : string) (class_file : option string) (roots : list string) : result string string :=
  match (f ← class_file; let f := trimmed f in if bool_decide (f = "") then None else Some f) with
  | Some path =>
    if is_file path then Ok path
    else Err ("class_file " +s+ path +s+ " is not a readable file. Nothing was sent to the JVM.")
  | None =>
    if bool_decide (roots = []) then
      Err ("No class roots are configured, so there is nowhere to read " +s+ class_name +s+
           "'s new bytecode from. Set them per session with debug.attach {" +s+ dquote +s+ "class_roots" +s+ dquote +s+
           ":[...]}, deploy-wide with JDWP_CLASS_ROOTS (a path list in this platform's spelling), or pass class_file with the path to one .class file. A class root is where the PACKAGE TREE starts in the BUILD OUTPUT — for com.example.Order that is target/classes, the directory containing `com`, not src/main/java and not the project root.")
    else
      match class_relative_path class_name with
      | None =>
        Err ("Refusing to build a path from " +s+ debug_text class_name +s+
             ": a segment of it is empty, `.`, `..`, or carries a path separator or a drive/stream marker, so the result could point outside every configured root.")
      | Some rel =>
        match find_under_roots roots rel with
        | Found p => Ok p
        | Missing =>
          Err ("Not found on disk: no configured class root holds " +s+ rel +s+ ". Searched " +s+ pretty (zlen roots) +s+ " root(s): " +s+
               join ", " roots +s+
               ". Either the root list is wrong (a class root is where the package tree starts in the build output, e.g. target/classes) or this class has not been COMPILED yet — this server does not run your build, so `mvn compile` (or your equivalent) is still yours to run.")
        | Escaped p =>
          Err ("⚠ Refusing to read " +s+ p +s+
               ": it is under a configured class root but resolves outside it — a symlink out of the tree. Nothing was sent to the JVM.")
        end
      end
  end.
End Files.

(** ** Paths stay under their roots *)

(** The pieces of a text between the separators. *)
Lemma split_on_app c a b : split_on c (a ++ c :: b) = split_on c a ++ split_on c b.
Proof.
  induction a as [|x a IH]; cbn [app split_on]; [by rewrite Z.eqb_refl|]. destruct (x =? c); [by rewrite IH|].
  rewrite IH. by destruct (split_on c a) as [|s l] eqn:E; [destruct a as [|y a]; cbn in E; repeat case_match|].
Qed.
Lemma split_on_whole c s : existsb (fun b => b =? c) s = false -> split_on c s = [s].
Proof. induction s as [|x s IH]; [done|]. cbn. intros [E1 E2]%orb_false_iff. by rewrite E1, IH. Qed.

Record SafeSegment (s : bytes) : Prop := {
  seg_nonempty : s <> [];
  seg_component : is_component s = true;
  seg_not_parent : s <> chars_of "..";
  seg_whole : split_on (ch "/") s = [s];
  seg_head : head s <> Some (ch "/");
  seg_last : list.last s <> Some (ch "/");
}.

Lemma no_slash s b : existsb (fun b => (b =? ch "/") || (b =? 92) || (b =? ch ":")) s = false -> b ∈ s -> b <> ch "/".
Proof.
  intros H Hb ->. apply eq_true_false_abs in H; [done|]. apply existsb_exists. exists (ch "/"). split; [by apply list_elem_of_In|done].
Qed.

Lemma safe_segment s : is_safe_path_segment s = true -> SafeSegment s.
Proof.
  unfold is_safe_path_segment. rewrite !andb_true_iff, !negb_true_iff, !bool_decide_eq_false. intros [[[H1 H2] H3] H4].
  split; try done.
  - unfold is_component. by rewrite !bool_decide_eq_false_2.
  - apply split_on_whole. destruct (existsb (fun b => b =? ch "/") s) eqn:E; [|done].
    apply existsb_exists in E as (b & Hb%list_elem_of_In & Eb%Z.eqb_eq). by apply (no_slash s b H4 Hb) in Eb.
  - destruct s as [|b s]; [done|]. intros [= K]. by apply (no_slash (b :: s) b H4); [left|].
  - intros K. apply last_Some_elem_of in K. by apply (no_slash s _ H4 K).
Qed.

Lemma split_on_cons c s : exists first rest, split_on c s = first :: rest.
Proof. induction s as [|x s (f & r & E)]; cbn; [by exists [], []|]. destruct (x =? c); [by eexists _, _|]. rewrite E. by eexists _, _. Qed.

Definition components_from (segments : list bytes) : list bytes :=
  match segments with
  | [] => []
  | first :: rest => (if bool_decide (first = []) then [ch "/"] else first) :: base.filter (fun s => is_component s = true) rest
  end.
Lemma components_nonempty path : path <> [] -> components path = components_from (split_on (ch "/") path).
Proof.
  intros Hp. unfold components. destruct (split_on (ch "/") path) as [|f r]; [done|]. rewrite bool_decide_eq_false_2 by done. simpl.
  by case_bool_decide.
Qed.
Lemma components_from_app segments s :
  segments <> [] -> SafeSegment s -> components_from (segments ++ [s]) = components_from segments ++ [s].
Proof. destruct segments as [|f r]; [done|]. intros _ Hs. simpl. by rewrite list.filter_app, filter_cons_True by apply Hs. Qed.

(** Pushing a safe segment adds exactly that component. *)
Lemma components_push path s : SafeSegment s -> components (path_push path s) = components path ++ [s].
Proof.
  intros Hs. destruct s as [|b s']; [by destruct (seg_nonempty _ Hs)|]. unfold path_push.
  assert ((b =? ch "/") = false) as -> by (apply Z.eqb_neq; intros ->; by apply (seg_head _ Hs)).
  set (s := b :: s') in *. destruct (split_on_cons (ch "/") path) as (f & r & Ef).
  destruct path as [|x path] using rev_ind; [change (components s = [] ++ [s]); by rewrite components_nonempty, (seg_whole _ Hs) by apply Hs|].
  rewrite last_snoc. destruct (Z.eqb_spec x (ch "/")) as [->|Hx].
  - rewrite <- (assoc_L (++)). cbn [app]. rewrite (components_nonempty (path ++ [ch "/"])) by (by destruct path).
    rewrite (components_nonempty (path ++ ch "/" :: s)) by (by destruct path). rewrite !split_on_app, (seg_whole _ Hs).
    destruct (split_on_cons (ch "/") path) as (f' & r' & ->). rewrite components_from_app by done. f_equal. simpl. by rewrite list.filter_app, app_nil_r.
  - rewrite (components_nonempty (path ++ [x])) by (by destruct path).
    rewrite (components_nonempty ((path ++ [x]) ++ _)) by (by destruct path). rewrite split_on_app, (seg_whole _ Hs), Ef. by apply components_from_app.
Qed.

(** A relative path made of safe segments. *)
Lemma push_segments_components segments path p :
  push_segments segments path = Some p ->
  components p = components path ++ segments /\ Forall (fun s => is_safe_path_segment s = true) segments.
Proof.
  revert path. induction segments as [|s segments IH]; intros path; cbn [push_segments].
  - intros [= ->]. by rewrite app_nil_r.
  - destruct (is_safe_path_segment s) eqn:Hs; [|done]. intros (E & HF)%IH. rewrite components_push in E by by apply safe_segment.
    rewrite <- (assoc_L (++)) in E. by split; [|constructor].
Qed.

(** A path that neither begins nor ends with a separator. *)
Definition relative (p : bytes) : Prop := p <> [] /\ head p <> Some (ch "/") /\ list.last p <> Some (ch "/").
Lemma relative_segment s : SafeSegment s -> relative s.
Proof. intros Hs. split_and!; apply Hs. Qed.

Lemma last_app_ne {A} (a b : list A) : b <> [] -> list.last (a ++ b) = list.last b.
Proof. intros Hb. rewrite last_app. destruct (list.last b) eqn:E; [done|]. by apply last_None in E. Qed.

Definition directory (path : bytes) : bytes :=
  match list.last path with None => [] | Some l => if l =? ch "/" then path else path ++ [ch "/"] end.
Lemma path_push_relative path p : relative p -> path_push path p = directory path ++ p.
Proof.
  intros (Hn & Hh & _). destruct p as [|b p]; [done|]. unfold path_push, directory.
  assert ((b =? ch "/") = false) as -> by (apply Z.eqb_neq; intros ->; by apply Hh).
  destruct (list.last path) as [l|]; [|done]. destruct (l =? ch "/"); [done|]. by rewrite <- (assoc_L (++)).
Qed.

Lemma path_push_next p s : p <> [] -> list.last p <> Some (ch "/") -> SafeSegment s -> path_push p s = p ++ ch "/" :: s.
Proof.
  intros Hn Hl Hs. rewrite path_push_relative by by apply relative_segment. unfold directory.
  destruct (list.last p) as [l|] eqn:El; [|by apply last_None in El]. destruct (Z.eqb_spec l (ch "/")) as [->|]; [done|]. by rewrite <- (assoc_L (++)).
Qed.
Lemma relative_next p s : relative p -> SafeSegment s -> relative (p ++ ch "/" :: s).
Proof.
  intros (Hn & Hh & Hl) Hs. split_and!; [by destruct p|by destruct p|].
  change (p ++ ch "/" :: s) with (p ++ [ch "/"] ++ s). rewrite (assoc_L (++)), last_app_ne by apply Hs. apply Hs.
Qed.

(** Pushing a path of safe segments is pushing the segments. *)
Lemma push_segments_next root segments p q :
  relative p -> push_segments segments p = Some q -> push_segments segments (path_push root p) = Some (path_push root q).
Proof.
  revert p. induction segments as [|s segments IH]; intros p Hp; cbn [push_segments]; [by intros [= <-]|].
  destruct (is_safe_path_segment s) eqn:Es; [|done]. pose proof (safe_segment _ Es) as Hs. intros Hq.
  pose proof Hp as (Hn & Hh & Hl). rewrite path_push_next in Hq by done. apply IH in Hq; [|by apply relative_next]. rewrite <- Hq. f_equal.
  rewrite (path_push_relative root p), (path_push_relative root (p ++ _)) by (try apply relative_next; done).
  rewrite path_push_next; [by rewrite <- (assoc_L (++))| | |done].
  - by destruct (directory root), p.
  - by rewrite last_app_ne.
Qed.
Lemma push_segments_under root segments q :
  segments <> [] -> push_segments segments [] = Some q -> push_segments segments root = Some (path_push root q).
Proof.
  destruct segments as [|s segments]; [done|]. intros _. cbn [push_segments]. destruct (is_safe_path_segment s) eqn:Es; [|done].
  pose proof (safe_segment _ Es) as Hs. intros Hq. apply (push_segments_next root) in Hq.
  - rewrite <- Hq. f_equal. rewrite (path_push_relative root (path_push [] s)); rewrite (path_push_relative [] s) by by apply relative_segment.
    + by rewrite path_push_relative by by apply relative_segment.
    + by apply relative_segment.
  - rewrite path_push_relative by by apply relative_segment. by apply relative_segment.
Qed.

(** The segments of the path of a class. *)
Definition package_segments (package : bytes) : list bytes := if bool_decide (package = []) then [] else split_on (ch ".") package.
Lemma package_path_push package final p :
  package_path package = Some p -> is_safe_path_segment final = true ->
  push_segments (package_segments package ++ [final]) [] = Some (path_push p final).
Proof.
  unfold package_path, package_segments. intros Hp Hf. case_bool_decide; [injection Hp as <-; simpl; by rewrite Hf|].
  revert Hp. generalize (@nil Z). induction (split_on (ch ".") package) as [|s l IH]; intros q; cbn [push_segments app]; [intros [= ->]; by rewrite Hf|].
  destruct (is_safe_path_segment s); [apply IH|done].
Qed.

Lemma bytes_path_push p s : bytes_ok p -> bytes_ok s -> bytes_ok (path_push p s).
Proof.
  intros Hp Hs. assert (H1 : bytes_ok [ch "/"]) by exact (bytes_of_string_ok "/").
  assert (H2 : bytes_ok (p ++ ch "/" :: s)) by (apply Forall_app; split; [done|by apply (Forall_app _ [_] s)]).
  assert (H3 : bytes_ok (p ++ s)) by (by apply Forall_app). assert (H4 : bytes_ok (p ++ [ch "/"])) by (by apply Forall_app).
  unfold path_push. by destruct s as [|b s]; [|destruct (b =? ch "/"); [done|]]; destruct (list.last p) as [l|]; try done; destruct (l =? ch "/").
Qed.
Lemma bytes_split c s : bytes_ok s -> Forall bytes_ok (split_on c s).
Proof.
  induction 1 as [|x s Hx Hs IH]; cbn; [by repeat constructor|]. destruct (x =? c); [by constructor; [constructor|]|].
  destruct (split_on c s) as [|l ls]; [by constructor; [constructor|]|]. inversion_clear IH. by constructor; [constructor|].
Qed.
Lemma bytes_push_segments segments p q : Forall bytes_ok segments -> bytes_ok p -> push_segments segments p = Some q -> bytes_ok q.
Proof.
  revert p. induction segments as [|s segments IH]; intros p HF Hp; cbn [push_segments]; [by intros [= <-]|].
  inversion_clear HF. destruct (is_safe_path_segment s); [|done]. apply IH; [done|]. by apply bytes_path_push.
Qed.

(** A relative path text: it is made of the safe segments [segments], and joined to a root it adds exactly
    those components. *)
Definition lexically_under (rel : string) (segments : list bytes) : Prop :=
  Forall (fun s => is_safe_path_segment s = true) segments /\
  forall root, components (bytes_of_string (path_join root rel)) = components (bytes_of_string root) ++ segments.

Lemma pushed_lexically segments q :
  segments <> [] -> Forall bytes_ok segments -> push_segments segments [] = Some q -> lexically_under (string_of_bytes q) segments.
Proof.
  intros Hn HF Hq. pose proof (bytes_push_segments _ _ _ HF (List.Forall_nil _) Hq) as Hb. split; [by apply push_segments_components in Hq as [_ ?]|].
  intros root. unfold path_join. rewrite (bytes_of_string_of_bytes q) by done.
  pose proof (bytes_of_string_ok root) as Hr. rewrite bytes_of_string_of_bytes by by apply bytes_path_push.
  apply (push_segments_under (bytes_of_string root)) in Hq; [|done]. by apply push_segments_components in Hq as [-> _].
Qed.

(** ** The contract of the lookups *)

Section Lookup.
Context `{PF : Platform}.

(** A root that does not hold the file, or whose paths the file system could not resolve. *)
Definition skipped (rel root : string) : Prop :=
  is_file (path_join root rel) = false \/ canonicalize root = None \/ canonicalize (path_join root rel) = None.

(** Looking under the roots answers for the first that holds the file: the file it resolves to when that
    is under the resolved root, and a refusal when it is not. *)
Definition lookup_answer (roots : list string) (rel : string) (r : SourceLookup) : Prop :=
  match r with
  | Missing => Forall (skipped rel) roots
  | Found p => exists before root after real, roots = before ++ root :: after /\ Forall (skipped rel) before /\
      is_file (path_join root rel) = true /\ canonicalize root = Some real /\ canonicalize (path_join root rel) = Some p /\
      components (bytes_of_string real) `prefix_of` components (bytes_of_string p)
  | Escaped c => exists before root after real p, roots = before ++ root :: after /\ Forall (skipped rel) before /\
      c = path_join root rel /\ is_file c = true /\ canonicalize root = Some real /\ canonicalize c = Some p /\
      ~ components (bytes_of_string real) `prefix_of` components (bytes_of_string p)
  end.

Lemma lookup_answered roots rel : lookup_answer roots rel (find_under_roots roots rel).
Proof.
  induction roots as [|root roots IH]; cbn [find_under_roots]; [constructor|].
  assert (Next : skipped rel root -> lookup_answer (root :: roots) rel (find_under_roots roots rel)).
  { intros Hs. destruct (find_under_roots roots rel); cbn in IH |- *.
    - destruct IH as (before & r & after & real & -> & HF & IH). exists (root :: before), r, after, real. by split; [|split; [constructor|]].
    - by constructor.
    - destruct IH as (before & r & after & real & p & -> & HF & IH). exists (root :: before), r, after, real, p. by split; [|split; [constructor|]]. }
  destruct (is_file (path_join root rel)) eqn:Ef; cbn [negb]; [|apply Next; by left].
  destruct (canonicalize root) as [real|] eqn:Er; [|apply Next; by right; left].
  destruct (canonicalize (path_join root rel)) as [p|] eqn:Ec; [|apply Next; by right; right].
  unfold path_starts_with. case_bool_decide as Hp; cbn; [exists [], root, roots, real|exists [], root, roots, real, p]; by split_and!.
Qed.

(** The segments a class name and the name of a source file give. *)
Definition simple_name (class_name : string) : bytes * bytes :=
  default ([], bytes_of_string class_name) (rsplit_once (ch ".") (bytes_of_string class_name)).
Definition package_of (class_name : string) : bytes := fst (simple_name class_name).
Definition class_segments (class_name : string) : list bytes :=
  package_segments (package_of class_name) ++ [snd (simple_name class_name) ++ chars_of ".class"].
Definition source_segments (class_name source_file : string) : list bytes :=
  package_segments (package_of class_name) ++ [bytes_of_string source_file].

Lemma simple_name_bytes class_name : bytes_ok (package_of class_name) /\ bytes_ok (snd (simple_name class_name)).
Proof.
  unfold package_of, simple_name, rsplit_once. pose proof (bytes_of_string_ok class_name) as H.
  destruct (split_once _ (rev (bytes_of_string class_name))) as [[b a]|] eqn:E; [|by split; [constructor|]].
  apply split_once_app, (f_equal (@rev Z)) in E. rewrite rev_involutive, !rev_app_distr in E. simpl.
  rewrite E in H. apply Forall_app in H as [[H1 _]%Forall_app H2]. done.
Qed.

Lemma package_path_safe package : is_some (package_path package) = forallb is_safe_path_segment (package_segments package).
Proof.
  unfold package_path, package_segments. case_bool_decide; [done|]. generalize (@nil Z).
  induction (split_on (ch ".") package) as [|s l IH]; intros q; cbn [push_segments forallb]; [done|]. by destruct (is_safe_path_segment s).
Qed.

Lemma safe_class_file simple : is_safe_path_segment simple = true -> is_safe_path_segment (simple ++ chars_of ".class") = true.
Proof.
  unfold is_safe_path_segment. rewrite !andb_true_iff, !negb_true_iff, !bool_decide_eq_false. intros [[[H1 H2] H3] H4]. rewrite existsb_app, H4.
  split_and!; try done; intros K%(f_equal length); rewrite length_app in K; simpl in K; destruct simple; simpl in K; lia.
Qed.

Lemma path_lexically package final p :
  bytes_ok package -> bytes_ok final -> package_path package = Some p -> is_safe_path_segment final = true ->
  lexically_under (string_of_bytes (path_push p final)) (package_segments package ++ [final]).
Proof.
  intros Hb Hf Hp Hs. apply pushed_lexically; [by destruct (package_segments package)| |by apply package_path_push].
  apply Forall_app. split; [|by constructor]. unfold package_segments. case_bool_decide; [constructor|]. by apply bytes_split.
Qed.

Lemma class_path_lexically class_name rel :
  class_relative_path class_name = Some rel -> lexically_under rel (class_segments class_name).
Proof.
  unfold class_relative_path, class_segments, package_of. fold (simple_name class_name).
  pose proof (simple_name_bytes class_name) as [H1 H2]. unfold package_of in H1. destruct (simple_name class_name) as [package simple]. simpl in *.
  destruct (package_path package) as [p|] eqn:Ep; [|done]. simpl. destruct (is_safe_path_segment simple) eqn:Es; [|done]. intros [= <-].
  apply path_lexically; [done| |done|by apply safe_class_file]. apply Forall_app. split; [done|]. apply (bytes_of_string_ok ".class").
Qed.
Lemma source_path_lexically class_name source_file rel :
  source_relative_path class_name source_file = Some rel -> lexically_under rel (source_segments class_name source_file).
Proof.
  unfold source_relative_path, source_segments.
  assert (default [] (fst <$> rsplit_once (ch ".") (bytes_of_string class_name)) = package_of class_name) as ->.
  { unfold package_of, simple_name. by destruct (rsplit_once _ _) as [[? ?]|]. }
  destruct (package_path (package_of class_name)) as [p|] eqn:Ep; [|done]. simpl. destruct (is_safe_path_segment _) eqn:Es; [|done]. intros [= <-].
  apply path_lexically; [apply simple_name_bytes|apply bytes_of_string_ok|done|done].
Qed.

(** C34. Nothing outside the roots is read. The path built from the name of a class, or from its package
    and the file name the debuggee reported, exists exactly when every segment is safe; joined to a root it
    adds exactly those segments, so it stays lexically under the root. And a file is answered only for the
    first root that holds it, when what it resolves to lies under what the root resolves to: a link
    out of the tree is a refusal. [debug.reload_class] and the drift checks read only such a file. *)
Theorem reads_stay_under_roots class_name source_file roots :
  is_some (class_relative_path class_name) = forallb is_safe_path_segment (package_segments (package_of class_name) ++ [snd (simple_name class_name)]) /\
  is_some (source_relative_path class_name source_file) = forallb is_safe_path_segment (source_segments class_name source_file) /\
  (forall rel, class_relative_path class_name = Some rel -> lexically_under rel (class_segments class_name)) /\
  (forall rel, source_relative_path class_name source_file = Some rel -> lexically_under rel (source_segments class_name source_file)) /\
  (forall rel, lookup_answer roots rel (find_under_roots roots rel)) /\
  match resolve_class_file class_name None roots with
  | Ok p => exists rel, class_relative_path class_name = Some rel /\ lookup_answer roots rel (Found p)
  | Err _ => roots = [] \/ class_relative_path class_name = None \/
      exists rel, class_relative_path class_name = Some rel /\ forall p, find_under_roots roots rel <> Found p
  end.
Proof.
  split_and!.
  - rewrite forallb_app, <- package_path_safe. unfold class_relative_path, package_of. fold (simple_name class_name).
    destruct (simple_name class_name) as [package simple]. simpl. rewrite andb_true_r. destruct (package_path package); [|done]. simpl. by case_match.
  - unfold source_segments. rewrite forallb_app, <- package_path_safe. simpl. rewrite andb_true_r. unfold source_relative_path.
    assert (default [] (fst <$> rsplit_once (ch ".") (bytes_of_string class_name)) = package_of class_name) as ->.
    { unfold package_of, simple_name. by destruct (rsplit_once _ _) as [[? ?]|]. }
    destruct (package_path (package_of class_name)); [|done]. simpl. by case_match.
  - apply class_path_lexically.
  - apply source_path_lexically.
  - apply lookup_answered.
  - unfold resolve_class_file. simpl. case_bool_decide; [by left|]. destruct (class_relative_path class_name) as [rel|]; [|by right; left].
    pose proof (lookup_answered roots rel) as L. destruct (find_under_roots roots rel) eqn:E; [by exists rel|right; right; exists rel; split; [done|]; by rewrite E..].
Qed.
End Lookup.
