(* ===== verification/Drift.v ===== *)
(** * Is the build on disk the code that runs? ([mcp-server/src/handlers.rs])

    What arming a stop point says about the build: the line table the debuggee answered against the one
    of the class file on disk, and whether the build declares a method no loaded copy has. *)

From S2P Require Import Prelude Types Reader Connection Generics ClassFile StopPoint Text Expr Locate Paths.

Definition NO_CLASS_ROOT_TO_COMPARE : string :=
  "no class root is configured, so there is no compiled .class to compare the JVM's line table against. The line above was resolved against WHATEVER THIS DEPLOYMENT HAS LOADED, which may not be your build." +s+
  newline +s+ "       Set one with debug.attach {" +s+ dquote +s+ "class_roots" +s+ dquote +s+
  ":[...]} or JDWP_CLASS_ROOTS (a path list in this platform's spelling) — a class root is where the package tree starts in the BUILD OUTPUT (target/classes), not src/main/java — and this check then runs on every arm, unasked.".

(** ** Comparing line tables *)

Record MethodLines : Type := {
  ml_name : string;
  ml_descriptor : string;
  ml_lines : list (Z * Z);
  ml_comparable : bool;
}.
Definition method_key (m : MethodLines) : string * string := (ml_name m, ml_descriptor m).

Record StaleReport : Type := {
  sr_matched : Z;
  sr_differing : list string;
  sr_only_in_jvm : list string;
  sr_only_in_build : list string;
  sr_skipped : Z;
}.

Definition is_stale (r : StaleReport) : bool :=
  negb (bool_decide (sr_differing r = [])) || negb (bool_decide (sr_only_in_jvm r = []))
  || negb (bool_decide (sr_only_in_build r = [])).

Fixpoint first_difference_from (i : Z) (jvm file : list (Z * Z)) : option string :=
  match jvm, file with
  | j :: jvm, f :: file =>
    if bool_decide (j = f) then first_difference_from (i + 1) jvm file
    else Some ("entry " +s+ pretty i +s+ " differs: the JVM has line " +s+ pretty (snd j) +s+ " at bytecode " +s+ pretty (fst j) +s+
               ", your build has line " +s+ pretty (snd f) +s+ " at " +s+ pretty (fst f))
  | _, _ => None
  end.
Definition first_difference (jvm file : MethodLines) : string :=
  match first_difference_from 0 (ml_lines jvm) (ml_lines file) with
  | Some s => s
  | None => "the JVM's table has " +s+ pretty (zlen (ml_lines jvm)) +s+ " entr(ies), your build's has " +s+
            pretty (zlen (ml_lines file)) +s+ " — same prefix, different length"
  end.

Definition built_lines (m : ClassFileMethod) : MethodLines := {|
  ml_name := cm_name m; ml_descriptor := cm_descriptor m; ml_lines := cm_lines m;
  ml_comparable := cm_has_code m && cm_has_line_table m && negb (bool_decide (cm_lines m = []))
|}.

Definition compare_one (built : list MethodLines) (report : StaleReport) (jvm : MethodLines) : StaleReport :=
  match List.find (fun b => bool_decide (method_key b = method_key jvm)) built with
  | None =>
    {| sr_matched := sr_matched report; sr_differing := sr_differing report;
       sr_only_in_jvm := sr_only_in_jvm report ++ [ml_name jvm +s+ ml_descriptor jvm];
       sr_only_in_build := sr_only_in_build report; sr_skipped := sr_skipped report |}
  | Some file =>
    if negb (ml_comparable jvm) || negb (ml_comparable file) then
      {| sr_matched := sr_matched report; sr_differing := sr_differing report;
         sr_only_in_jvm := sr_only_in_jvm report; sr_only_in_build := sr_only_in_build report;
         sr_skipped := sr_skipped report + 1 |}
    else if bool_decide (ml_lines jvm = ml_lines file) then
      {| sr_matched := sr_matched report + 1; sr_differing := sr_differing report;
         sr_only_in_jvm := sr_only_in_jvm report; sr_only_in_build := sr_only_in_build report;
         sr_skipped := sr_skipped report |}
    else
      {| sr_matched := sr_matched report;
         sr_differing := sr_differing report ++ [ml_name jvm +s+ ml_descriptor jvm +s+ " — " +s+ first_difference jvm file];
         sr_only_in_jvm := sr_only_in_jvm report; sr_only_in_build := sr_only_in_build report;
         sr_skipped := sr_skipped report |}
  end.

Definition compare_line_tables (running : list MethodLines) (built : list ClassFileMethod) : StaleReport :=
  let built := map built_lines built in
  let report := foldl (compare_one built)
    {| sr_matched := 0; sr_differing := []; sr_only_in_jvm := []; sr_only_in_build := []; sr_skipped := 0 |} running in
  {| sr_matched := sr_matched report; sr_differing := sr_differing report; sr_only_in_jvm := sr_only_in_jvm report;
     sr_only_in_build := map (fun file => ml_name file +s+ ml_descriptor file)
       (base.filter (fun file => existsb (fun j => bool_decide (method_key j = method_key file)) running = false) built);
     sr_skipped := sr_skipped report |}.

Definition drift_caveat_from_tables (jvm : MethodLines) (built_methods : list ClassFileMethod) (path : string) : DriftCheck :=
  let same_method := base.filter (fun m => (cm_name m, cm_descriptor m) = method_key jvm) built_methods in
  let report := compare_line_tables [jvm] same_method in
  if negb (is_stale report) then
    if (sr_matched report =? 0) && (0 <? sr_skipped report) then
      NotChecked (path +s+ " has no line table for " +s+ ml_name jvm +s+ ml_descriptor jvm +s+
        " — a -g:none build has code with no line numbers, so there is nothing to compare the JVM's against.")
    else Current
  else
    let detail := match sr_differing report with
                  | d :: _ => d
                  | [] => ml_name jvm +s+ ml_descriptor jvm +s+ " is not in your build at all"
                  end in
    Stale (newline +s+ "   ⚠️  STALE BYTECODE: the JVM's line table for this method does not match " +s+ path +s+ "." +s+
      newline +s+ "       " +s+ detail +s+ newline +s+
      "       The line above was resolved against the DEPLOYED build, so it may not be the line you are reading. debug.check_stale for the whole class; debug.reload_class to install your build without a redeploy.").

Section Files.
Context `{PF : Platform}.

(** The class file of a class under its roots, or why it was not read. *)
Definition built_class (wrong_class : string) (class_name : string) (roots : list string) : result string (string * ClassFile) :=
  path ← resolve_class_file class_name None roots;
  bytes ← match read_file path with
          | Ok b => Ok b
          | Err why => Err ("found " +s+ path +s+ " but could not read it: " +s+ why)
          end;
  built ← match parse bytes with
          | Ok c => Ok c
          | Err why => Err (path +s+ " could not be parsed as a class file: " +s+ why)
          end;
  if bool_decide (cls_this_class built = class_name) then Ok (path, built)
  else Err (path +s+ " declares " +s+ cls_this_class built +s+ ", not " +s+ class_name +s+ wrong_class).

Definition drift_check_for_armed_method (class_roots : list string) (class_name : string) (method : MethodInfo)
    (jvm_lines : list (Z * Z)) : DriftCheck :=
  if bool_decide (class_roots = []) then NotChecked NO_CLASS_ROOT_TO_COMPARE
  else if bool_decide (jvm_lines = []) then
    NotChecked ("the JVM reports no line table for " +s+ mi_name method +s+ mi_signature method +s+
      ", so there is nothing on the running side to compare — a class deployed from a -g:none build.")
  else
    match built_class " — that is a wrong class root rather than drift, so nothing was compared." class_name class_roots with
    | Err why => NotChecked why
    | Ok (path, built) =>
      drift_caveat_from_tables
        {| ml_name := mi_name method; ml_descriptor := mi_signature method; ml_lines := jvm_lines; ml_comparable := true |}
        (cls_methods built) path
    end.

(** ** Does the build declare the method? *)

Inductive BuildVerdict : Type := Declares (path : string) | AbsentIn (path : string) | BuildNotChecked (why : string).

Definition build_declares_method (class_roots : list string) (class_name method : string) : BuildVerdict :=
  if bool_decide (method = "") then BuildNotChecked "the call named no method to look for"
  else if bool_decide (class_roots = []) then
    BuildNotChecked ("no class root is configured. Set one with debug.attach {" +s+ dquote +s+ "class_roots" +s+ dquote +s+
      ":[...]} or JDWP_CLASS_ROOTS — a class root is where the package tree starts in the BUILD OUTPUT (target/classes), not src/main/java — and this check then runs unasked")
  else
    match built_class " — that is a wrong class root rather than evidence either way" class_name class_roots with
    | Err why => BuildNotChecked why
    | Ok (path, built) =>
      if existsb (fun m => String.eqb (cm_name m) method) (cls_methods built) then Declares path else AbsentIn path
    end.
End Files.

Definition worse_drift (existing fresh : DriftCheck) : DriftCheck :=
  match existing, fresh with
  | Stale _, Current | Stale _, NotChecked _ | NotChecked _, Current => existing
  | _, _ => fresh
  end.

(** ** What the verdict means *)

(** The methods of a build that are the one a stop point was armed in. *)
Definition counterparts (jvm : MethodLines) (built : list ClassFileMethod) : list ClassFileMethod :=
  base.filter (fun m => (cm_name m, cm_descriptor m) = method_key jvm) built.

Lemma compare_single (jvm : MethodLines) (same : list ClassFileMethod) :
  Forall (fun m => (cm_name m, cm_descriptor m) = method_key jvm) same -> ml_comparable jvm = true ->
  compare_line_tables [jvm] same =
  match same with
  | [] => {| sr_matched := 0; sr_differing := []; sr_only_in_jvm := [ml_name jvm +s+ ml_descriptor jvm]; sr_only_in_build := []; sr_skipped := 0 |}
  | m :: _ =>
    if negb (ml_comparable (built_lines m)) then
      {| sr_matched := 0; sr_differing := []; sr_only_in_jvm := []; sr_only_in_build := []; sr_skipped := 1 |}
    else if bool_decide (ml_lines jvm = cm_lines m) then
      {| sr_matched := 1; sr_differing := []; sr_only_in_jvm := []; sr_only_in_build := []; sr_skipped := 0 |}
    else
      {| sr_matched := 0; sr_differing := [ml_name jvm +s+ ml_descriptor jvm +s+ " — " +s+ first_difference jvm (built_lines m)];
         sr_only_in_jvm := []; sr_only_in_build := []; sr_skipped := 0 |}
  end.
Proof.
  intros HF Hc. unfold compare_line_tables. cbn [foldl].
  assert (Hnone : base.filter (fun file => existsb (fun j => bool_decide (method_key j = method_key file)) [jvm] = false) (map built_lines same) = []).
  { induction HF as [|m l Hm HF IH]; [done|]. cbn [map]. rewrite filter_cons_False; [done|].
    simpl. rewrite bool_decide_eq_true_2; [done|]. by rewrite <- Hm. }
  rewrite Hnone. unfold compare_one. destruct same as [|m l]; [done|]. cbn [map List.find].
  inversion_clear HF as [|? ? Hm _]. rewrite bool_decide_eq_true_2 by (by rewrite <- Hm).
  rewrite Hc. cbn [negb orb]. destruct (ml_comparable (built_lines m)); [|done]. cbn [negb orb].
  by change (ml_lines (built_lines m)) with (cm_lines m); case_bool_decide.
Qed.

(** How bad a verdict is: proof of drift, no proof either way, checked and fine. *)
Definition badness (d : DriftCheck) : nat := match d with Stale _ => 2 | NotChecked _ => 1 | Current => 0 end.

(** The verdict on the build is decided by the first method of the class file that has the armed
    method's name and descriptor. There is proof of drift exactly when there is none, or when it has a line
    table that is not the running one; the build is called current exactly when the tables are equal;
    and a method without a table in the build gives no proof either way. Taking the worse of two verdicts
    never turns a proof into silence, keeps the worse of the two, and keeps the newer of two that are
    equally bad. *)
Theorem drift_decided (jvm : MethodLines) (built : list ClassFileMethod) (path : string) (d e : DriftCheck) :
  ml_comparable jvm = true ->
  let verdict := drift_caveat_from_tables jvm built path in
  let file := head (counterparts jvm built) in
  ((exists why, verdict = Stale why) <->
     match file with
     | None => True
     | Some m => ml_comparable (built_lines m) = true /\ cm_lines m <> ml_lines jvm
     end) /\
  (verdict = Current <-> exists m, file = Some m /\ ml_comparable (built_lines m) = true /\ cm_lines m = ml_lines jvm) /\
  badness (worse_drift d e) = Nat.max (badness d) (badness e) /\
  (badness d = badness e -> worse_drift d e = e) /\ (worse_drift d e = d \/ worse_drift d e = e).
Proof.
  intros Hc. cbv zeta. unfold drift_caveat_from_tables. rewrite compare_single; [|apply list.Forall_forall; by intros m [? _]%list_elem_of_filter|done].
  change (base.filter _ built) with (counterparts jvm built).
  split; [|split; [|by destruct d, e; split_and!; try done; auto]].
  - destruct (counterparts jvm built) as [|m l]; cbn [head]; [by split; [|eauto]|].
    destruct (ml_comparable (built_lines m)); cbn [negb]; [|by split; [intros [? ?]|intros [? ?]]].
    case_bool_decide as E; simpl; split.
    + by intros [? ?].
    + intros [_ K]. by rewrite E in K.
    + intros _. split; [done|]. congruence.
    + intros _. eauto.
  - destruct (counterparts jvm built) as [|m l]; cbn [head]; [by split; [|intros (? & ? & _)]|].
    destruct (ml_comparable (built_lines m)) eqn:Em; cbn [negb].
    + case_bool_decide as E; simpl; split; try done.
      * intros _. by exists m.
      * intros (m' & [= <-] & _ & K). congruence.
    + split; [done|]. intros (m' & [= <-] & K & _). congruence.
Qed.

Lemma drift_decided_witness :
  let jvm := {| ml_name := "run"; ml_descriptor := "()V"; ml_lines := [(0, 7); (4, 8)]; ml_comparable := true |} in
  let m := {| cm_access_flags := 1; cm_name := "run"; cm_descriptor := "()V"; cm_lines := [(0, 7); (4, 9)]; cm_has_code := true;
              cm_has_line_table := true; cm_code := [177] |} in
  exists why, drift_caveat_from_tables jvm [m] "A.class" = Stale why.
Proof.
  intros jvm m. apply (proj1 (drift_decided jvm [m] "A.class" Current Current eq_refl)). split; [reflexivity|]. by_compute.
Defined.
