(* ===== verification/Arming.v ===== *)
(** * Arming line stop points ([mcp-server/src/handlers.rs])

    From a class and a line or a method to breakpoint requests in the debuggee and a registered stop
    point: every copy of the class, every location of the line, the watch for copies loaded later, the
    deferred stop point when the class is not loaded, families of a class pattern, and batches. *)

From S2P Require Import Prelude Protocol Types Reader Events Connection Client EventRequest StopPoint.
From S2P Require Import EventRing MonitorClock Suspensions Traces Session Manager Api Generics Text Condition Host EventPump.
From S2P Require Import Locate Paths Drift.

Definition ACC_STATIC : Z := 8.

(** [m.map_err(f)?; k]. *)
Definition try_or {E F A B} (f : E -> F) (m : H (result E A)) (k : A -> H (result F B)) : H (result F B) :=
  r ← m; match r with Ok a => k a | Err e => mret (Err (f e)) end.

(** ** What to arm *)

Record BreakpointSpec : Type := {
  bs_instance_filter : option Z;
  bs_class_pattern : string;
  bs_signature : string;
  bs_line_opt : option Z;
  bs_method_hint : option string;
  bs_hit_count : option Z;
  bs_thread_filter : option Z;
  bs_condition : option string;
  bs_trace : bool;
  bs_trace_expr : list string;
  bs_trace_budget : option Z;
  bs_trace_frames : Z;
  bs_trace_max_length : option Z;
  bs_suspend_policy : SuspendPolicy;
}.

Definition for_pattern (pattern : string) (s : BreakpointSpec) : BreakpointSpec := {|
  bs_instance_filter := bs_instance_filter s; bs_class_pattern := pattern; bs_signature := signature_for_dotted pattern;
  bs_line_opt := bs_line_opt s; bs_method_hint := bs_method_hint s; bs_hit_count := bs_hit_count s;
  bs_thread_filter := bs_thread_filter s; bs_condition := bs_condition s; bs_trace := bs_trace s;
  bs_trace_expr := bs_trace_expr s; bs_trace_budget := bs_trace_budget s; bs_trace_frames := bs_trace_frames s;
  bs_trace_max_length := bs_trace_max_length s; bs_suspend_policy := bs_suspend_policy s
|}.

Definition filters_of (s : BreakpointSpec) : EventFilters :=
  {| ef_count := bs_hit_count s; ef_thread := bs_thread_filter s; ef_instance := bs_instance_filter s |}.

Inductive ArmError : Type := ArmNoSuchMethod (m : string) | ArmOther (m : string).
Definition from_location (e : BpLocationError) (class : string) : ArmError :=
  let msg := show_location_error e +s+ " in " +s+ class in
  match e with
  | NoSuchMethod _ => ArmNoSuchMethod msg
  | NoSuchLine _ | Unreadable _ => ArmOther msg
  end.
Definition into_message (e : ArmError) : string := match e with ArmNoSuchMethod m | ArmOther m => m end.

(** The standing watch a stop point keeps, and why it has none. *)
Record RearmPlan : Type := { rp_watch : RearmState; rp_refusal : option string }.

Definition no_later_copies : LaterCopies := {| lc_copies := 0; lc_lines := []; lc_misses := 0; lc_miss := None |}.
Definition family_member : RearmPlan := {| rp_watch := CoveredByFamily; rp_refusal := None |}.
Definition watching (request_id : Z) (spec : BreakpointSpec) : RearmPlan := {|
  rp_watch := RWatching {| rw_request_id := request_id; rw_signature := bs_signature spec; rw_later := no_later_copies;
    rw_line := bs_line_opt spec; rw_method := bs_method_hint spec |};
  rp_refusal := None
|}.

(** ** Several locations *)

Inductive SeveralLocations : Type := DuplicatedLine | ClassCopies | BothReasons.
#[global] Instance SeveralLocations_eq_dec : EqDecision SeveralLocations.
Proof. solve_decision. Defined.

Definition count_class (m : gmap Z Z) (c : Z) : gmap Z Z := <[c := default 0 (m !! c) + 1]> m.
Definition several_of (arm : BreakpointArm) : SeveralLocations :=
  let per_class := foldl count_class {[ba_class_id arm := 1]} (map al_class_id (ba_extra_locations arm)) in
  match (1 <? size per_class)%nat, existsb (fun e => 1 <? snd e) (map_to_list per_class) with
  | true, true => BothReasons
  | true, false => ClassCopies
  | _, _ => DuplicatedLine
  end.

Definition several_reason (s : SeveralLocations) : string :=
  match s with
  | DuplicatedLine => "one source line, several ARMED LOCATIONS in one copy of the class, which is what `javac` emits for a `finally` body — it inlines it once per exit path"
  | ClassCopies => "several COPIES of this class, one per classloader — each is a different reference type, and a redeploy is how a second one appears"
  | BothReasons => "several COPIES of this class, one per classloader (BP-5), AND several ARMED LOCATIONS for the line inside one of those copies, which is what `javac` emits for a `finally` body (BP-4)"
  end.
Definition several_cost (s : SeveralLocations) : string :=
  match s with
  | DuplicatedLine => " Arming only the first would fire on normal completion and stay silent on the throw."
  | ClassCopies => " Arming only the first is how a stop point reports " +s+ dquote +s+ "armed" +s+ dquote +s+ " and then never fires, because it is watching another deployment's copy."
  | BothReasons => " Arming only the first would miss both another deployment's copy and, inside the copy it did arm, the exception path through the line."
  end.

Record ArmedBreakpoint : Type := {
  ab_bp_id : string;
  ab_line : Z;
  ab_method_name : string;
  ab_request_ids : list Z;
  ab_loader_count : Z;
  ab_partial : list string;
  ab_drift : DriftCheck;
  ab_answered_by : option string;
  ab_several_locations : SeveralLocations;
}.

Definition refuse_instance_filter_without_this (what where_ : string) : string :=
  "instance_id cannot scope " +s+ where_ +s+ ", because " +s+ what +s+ " has no `this` for an InstanceOnly modifier to match. This is refused up front because HotSpot ACCEPTS an InstanceOnly modifier here and then does not apply it — no error, no warning, and a reply saying the stop point is scoped when it is not. Measured on Temurin 17/21/25 (FILT-9, ADR-0027). Drop instance_id, or use a condition, which we evaluate on our side and which works on every kind.".

(** [trim_end().trim_end_matches('.')]. *)
Definition why_terse (why : string) : string :=
  string_of_bytes (concat (map encode_utf8 (rev (trim_start_of (ch ".") (trim_start (rev (str_chars why))))))).

(** The locations of one copy of a class beyond the first of its line. *)
Definition extra_of (class_id : Z) (loc : ResolvedLocation) : list ArmedLocation :=
  map (fun index => {| al_class_id := class_id; al_method_id := mi_method_id (rl_method loc); al_bytecode_index := index |})
    (rl_extra_code_indices loc).

Section Arming.
Context `{BC : BytesCrate} `{D : Debuggee} `{PF : Platform}.

(** ** The copies of a class *)

(** What arming locations answered: the requests, the locations that have one, and the refusals. *)
Record ExtraLineCopies : Type := {
  el_request_ids : list Z;
  el_armed : list ArmedLocation;
  el_refused : list string;
}.

Fixpoint arm_locations (suspend_policy : SuspendPolicy) (filters : EventFilters) (locs : list ArmedLocation)
    (out : ExtraLineCopies) : H ExtraLineCopies :=
  match locs with
  | [] => mret out
  | loc :: locs =>
    req ← conn (set_breakpoint_ex (al_class_id loc) (al_method_id loc) (al_bytecode_index loc) suspend_policy filters);
    arm_locations suspend_policy filters locs
      match req with
      | Ok req => {| el_request_ids := el_request_ids out ++ [req]; el_armed := el_armed out ++ [loc]; el_refused := el_refused out |}
      | Err e => {| el_request_ids := el_request_ids out; el_armed := el_armed out;
          el_refused := el_refused out ++ ["class 0x" +s+ show_hex (al_class_id loc) +s+ " bytecode index " +s+
            pretty (al_bytecode_index loc) +s+ ": " +s+ display_error e] |}
      end
  end.
Definition arm_extra_line_locations (arm : BreakpointArm) (filters : EventFilters) : H ExtraLineCopies :=
  arm_locations (ba_suspend_policy arm) filters (ba_extra_locations arm)
    {| el_request_ids := []; el_armed := []; el_refused := [] |}.

(** The locations found in the other copies, after those already there, and the copies that have none. *)
Fixpoint resolve_other_classloader_copies (other_copies : list Z) (spec : BreakpointSpec) (locations : list ArmedLocation)
    (unresolved : list string) : H (list ArmedLocation * list string) :=
  match other_copies with
  | [] => mret (locations, unresolved)
  | other :: other_copies =>
    loc ← conn (resolve_bp_location other (bs_line_opt spec) (bs_method_hint spec));
    match loc with
    | Ok o =>
      resolve_other_classloader_copies other_copies spec
        (locations ++ {| al_class_id := other; al_method_id := mi_method_id (rl_method o); al_bytecode_index := rl_code_index o |}
           :: extra_of other o) unresolved
    | Err e =>
      resolve_other_classloader_copies other_copies spec locations
        (unresolved ++ ["another classloader's copy (class 0x" +s+ show_hex other +s+ "): " +s+ show_location_error e])
    end
  end.

Record PrimaryCopy : Type := {
  pc_class_id : Z;
  pc_loc : ResolvedLocation;
  pc_others : list Z;
  pc_caveat : option string;
}.

Definition arming_miss_message (class_roots : list string) (spec : BreakpointSpec) (miss : BpLocationError) (copies : Z) : string :=
  let class := bs_class_pattern spec in
  let method := default "" (bs_method_hint spec) in
  show_location_error miss +s+ " in " +s+ class +s+
  (if 1 <? copies then
     " — it is loaded " +s+ pretty copies +s+ " times, one class per classloader, and NONE of the " +s+ pretty copies +s+ " copies declares it"
   else " (1 loaded copy, and it was searched)") +s+
  match build_declares_method class_roots class method with
  | Declares path =>
    "." +s+ newline +s+ "   ⚠️  YOUR BUILD DOES DECLARE IT — " +s+ path +s+ " has " +s+ method +s+
    " — so this is not the name being wrong: the copy the JVM holds is OLDER than the source you are reading. A class loads on first use, so one that nothing has called or thrown since the redeploy is still the retired deployment's. Trigger the code path that loads the new copy and arm again, or debug.reload_class to install your build without one."
  | AbsentIn path =>
    "." +s+ newline +s+ "   Your build does not declare it either (" +s+ path +s+ " was read), so the name is wrong rather than stale. debug.list_methods on " +s+
    class +s+ " shows what it does have."
  | BuildNotChecked why =>
    "." +s+ newline +s+ "   ℹ️  The build was NOT consulted, so a stale loaded copy and a wrong name are still indistinguishable from here: " +s+
    why_terse why +s+ "." +s+ newline +s+ "   debug.list_methods on " +s+ class +s+ " shows what the loaded cop" +s+
    (if 1 <? copies then "ies" else "y") +s+ " declare" +s+ (if 1 <? copies then "" else "s") +s+ "."
  end.

Definition not_the_first (i copies : Z) (spec : BreakpointSpec) (labels : list string) : string :=
  let class := bs_class_pattern spec in
  newline +s+ "   ⚠️  Armed against copy #" +s+ pretty i +s+ " of " +s+ class +s+ ", not the first one — " +s+ class +s+ " is loaded " +s+
  pretty copies +s+ " times and the copies that sort ahead of #" +s+ pretty i +s+ " do not declare " +s+
  default "the target method" (bs_method_hint spec) +s+
  ". On WildFly that is the retired deployment's copy still being reachable; it means the arming reply and debug.list_methods can only agree once they are both looking at #" +s+
  pretty i +s+ ". Loaded by: " +s+ join "; " labels +s+ ". Pin a read to this copy with " +s+ class +s+ "@<the 0x… for #" +s+ pretty i +s+ ">.".

(** The loop over the copies: the first that has the method, or the first miss. *)
Fixpoint try_copies (class_type_ids : list Z) (spec : BreakpointSpec) (i : Z) (left_ : list Z) (absent : option BpLocationError) :
    H (result ArmError (PrimaryCopy + option BpLocationError)) :=
  match left_ with
  | [] => mret (Ok (inr absent))
  | class_id :: left_ =>
    attempt_ ← conn (resolve_bp_location class_id (bs_line_opt spec) (bs_method_hint spec));
    match attempt_ with
    | Ok loc =>
      caveat ← (if i =? 0 then mret None
                else
                  labels ← conn (describe_class_loaders class_type_ids);
                  mret (Some (not_the_first i (zlen class_type_ids) spec labels)) : H (option string));
      mret (Ok (inl {| pc_class_id := class_id; pc_loc := loc;
        pc_others := base.filter (fun o => o <> class_id) class_type_ids; pc_caveat := caveat |}))
    | Err (NoSuchMethod _ as e) => try_copies class_type_ids spec (i + 1) left_ (union absent (Some e))
    | Err other => mret (Err (from_location other (bs_class_pattern spec)))
    end
  end.

Definition resolve_primary_copy (class_type_ids : list Z) (spec : BreakpointSpec) (rearm : RearmPlan) :
    H (result ArmError PrimaryCopy) :=
  try_or id (try_copies class_type_ids spec 0 class_type_ids None) (fun found =>
    match found with
    | inl primary => mret (Ok primary)
    | inr absent =>
      let miss := default (NoSuchMethod (default "" (bs_method_hint spec))) absent in
      match rp_watch rearm with
      | CoveredByFamily => mret (Err (from_location miss (bs_class_pattern spec)))
      | _ =>
        s ← session;
        mret (Err (ArmNoSuchMethod (arming_miss_message (ds_class_roots s) spec miss (zlen class_type_ids))))
      end
    end).

(** ** Arming and registering *)

Definition armed_line_stop_point (id : string) (request_ids : list Z) (spec : BreakpointSpec) (armed_on : LineBreakpoint) :
    StopPoint := {|
  sp_id := id; sp_request_ids := request_ids; sp_enabled := true; sp_spent := false; sp_hit_count := bs_hit_count spec;
  sp_hits := 0; sp_condition := bs_condition spec; sp_trace := bs_trace spec; sp_trace_expr := bs_trace_expr spec;
  sp_trace_budget := bs_trace_budget spec; sp_trace_frames := bs_trace_frames spec;
  sp_trace_max_length := bs_trace_max_length spec; sp_trace_cost := no_cost; sp_thread_filter := bs_thread_filter spec;
  sp_instance_filter := bs_instance_filter spec; sp_armed_on := OnLine armed_on
|}.

(** [u32::try_from(line).unwrap_or(0)]. *)
Definition listed_line (line : Z) : Z := if line <? 0 then 0 else line.

Definition is_static (m : MethodInfo) : bool := negb (Z.land (mi_mod_bits m) ACC_STATIC =? 0).

Definition arm_and_insert (class_type_ids : list Z) (spec : BreakpointSpec) (bp_id : string) (rearm : RearmPlan) :
    H (result ArmError ArmedBreakpoint) :=
  if bool_decide (class_type_ids = []) then mret (Err (ArmOther (bs_class_pattern spec +s+ " is not loaded"))) else
  try_or id (resolve_primary_copy class_type_ids spec rearm) (fun primary =>
  let class_type_id := pc_class_id primary in
  let loc := pc_loc primary in
  let method := rl_method loc in
  if is_some (bs_instance_filter spec) && is_static method then
    mret (Err (ArmOther (refuse_instance_filter_without_this "a static method"
      ("a line stop in " +s+ bs_class_pattern spec +s+ "." +s+ mi_name method))))
  else
  try_or (fun e => ArmOther ("Failed to set breakpoint: " +s+ display_error e))
    (conn (set_breakpoint_ex class_type_id (mi_method_id method) (rl_code_index loc) (bs_suspend_policy spec) (filters_of spec)))
  (fun request_id =>
  others ← resolve_other_classloader_copies (pc_others primary) spec (extra_of class_type_id loc) [];
  let '(locations, unresolved) := others in
  let arm := {| ba_class_id := class_type_id; ba_method_id := mi_method_id method; ba_bytecode_index := rl_code_index loc;
                ba_extra_locations := locations; ba_suspend_policy := bs_suspend_policy spec |} in
  extra_locs ← arm_extra_line_locations arm (filters_of spec);
  let arm := {| ba_class_id := class_type_id; ba_method_id := mi_method_id method; ba_bytecode_index := rl_code_index loc;
                ba_extra_locations := el_armed extra_locs; ba_suspend_policy := bs_suspend_policy spec |} in
  let request_ids := request_id :: el_request_ids extra_locs in
  let partial := el_refused extra_locs ++ unresolved ++ option_list (rp_refusal rearm) in
  let loader_count := zlen class_type_ids in
  loaders ← (if 1 <? loader_count then conn (describe_class_loaders class_type_ids) else mret [] : H (list string));
  s ← session;
  let drift := drift_check_for_armed_method (ds_class_roots s) (bs_class_pattern spec) method (rl_lines loc) in
  _ ← on_state (register_stop_point (armed_line_stop_point bp_id request_ids spec
    {| lb_class_pattern := bs_class_pattern spec; lb_line := listed_line (rl_line loc); lb_method := Some (mi_name method);
       lb_arm_line := bs_line_opt spec; lb_arm_method := bs_method_hint spec; lb_drift := drift; lb_loaders := loaders;
       lb_arm := arm; lb_rearm := rp_watch rearm |}));
  mret (Ok {| ab_bp_id := bp_id; ab_line := rl_line loc; ab_method_name := mi_name method; ab_request_ids := request_ids;
    ab_loader_count := loader_count; ab_partial := partial; ab_drift := drift; ab_answered_by := pc_caveat primary;
    ab_several_locations := several_of arm |}))).

(** ** Watching for later copies, and deferring *)

Definition register_rearm_watch (spec : BreakpointSpec) : H RearmPlan :=
  r ← conn (set_class_prepare (bs_class_pattern spec) EventThread);
  mret match r with
  | Ok request_id => watching request_id spec
  | Err e => {| rp_watch := Unwatched; rp_refusal := Some (
      "⚠️  Armed, but the class-load watch could NOT be registered (" +s+ display_error e +s+ "), so a copy of " +s+ bs_class_pattern spec +s+
      " loaded later — which is what a redeploy is — will not be armed. That silence would be indistinguishable from the code path not running, so: re-arm this stop point after every redeploy.") |}
  end.

Inductive DeferResult : Type := ArmedOnRecheck (armed : ArmedBreakpoint) | Deferred (bp_id : string).

Definition pending_of (bp_id : string) (cp_req : Z) (spec : BreakpointSpec) : PendingBreakpoint := {|
  pb_bp_id := bp_id; pb_class_prepare_request_id := cp_req; pb_class_pattern := bs_class_pattern spec;
  pb_signature := bs_signature spec; pb_line := bs_line_opt spec; pb_method := bs_method_hint spec;
  pb_hit_count := bs_hit_count spec; pb_instance_filter := bs_instance_filter spec; pb_thread_filter := bs_thread_filter spec;
  pb_condition := bs_condition spec; pb_trace := bs_trace spec; pb_trace_expr := bs_trace_expr spec;
  pb_trace_budget := bs_trace_budget spec; pb_trace_frames := bs_trace_frames spec;
  pb_trace_max_length := bs_trace_max_length spec
|}.

Definition with_pending (f : list PendingBreakpoint -> list PendingBreakpoint) (s : SessionState) : SessionState := {|
  ss_stop_points := ss_stop_points s; ss_pending_breakpoints := f (ss_pending_breakpoints s);
  ss_disarmed_traced_requests := ss_disarmed_traced_requests s; ss_stop_seq := ss_stop_seq s
|}.

Definition defer_breakpoint (spec : BreakpointSpec) (bp_id : string) : H (result string DeferResult) :=
  if is_some (bs_instance_filter spec) then
    mret (Err ("instance_id cannot be used on a stop point for '" +s+ bs_class_pattern spec +s+
      "', which is not loaded yet. An InstanceOnly filter matches the hit's `this`, so the object would have to be an instance of that class — and a class the JVM has not loaded has none, so the handle you passed belongs to something else. Arm the stop point without it, then re-arm with instance_id once the class has loaded and debug.list_instances can give you a handle that means what you want."))
  else
  try_or (fun e => "Failed to register the class-load watch: " +s+ display_error e)
    (conn (set_class_prepare (bs_class_pattern spec) EventThread)) (fun cp_req =>
  recheck ← conn (attempt (classes_by_signature (bs_signature spec)));
  let recheck := unwrap_or [] recheck in
  if negb (bool_decide (recheck = [])) then
    try_or into_message (arm_and_insert (map ci_type_id recheck) spec bp_id (watching cp_req spec))
      (fun armed => mret (Ok (ArmedOnRecheck armed)))
  else
    _ ← on_state (with_pending (fun l => l ++ [pending_of bp_id cp_req spec]));
    mret (Ok (Deferred bp_id))).

Definition describe_where (line : option Z) (method : option string) : string :=
  match line, method with
  | Some l, _ => "line " +s+ pretty l
  | None, Some m => "method " +s+ m
  | None, None => ""
  end.

(** ** Families *)

Record FamilyMember : Type := { fm_class : string; fm_armed : ArmedBreakpoint }.
Record FamilyOutcome : Type := {
  fo_set_id : string;
  fo_members : list FamilyMember;
  fo_matched : Z;
  fo_skipped : Z;
  fo_no_method : Z;
  fo_failures : list string;
  fo_broadened_watch : bool;
  fo_watch_error : option string;
  fo_watch_parked : bool;
}.

Definition take_stop_id (prefix : string) : H string :=
  of_session (fun s => let '(id, st) := next_stop_id prefix (ds_state s) in (id, with_state (fun _ => st) s)).

(** What the loop over the matching classes has armed, skipped and refused. *)
Record Expansion : Type := { ex_members : list FamilyMember; ex_skipped : Z; ex_no_method : Z; ex_failures : list string }.

Fixpoint arm_matches (hits : list (string * Z)) (spec : BreakpointSpec) (max_classes : Z) (ex : Expansion) : H Expansion :=
  match hits with
  | [] => mret ex
  | (fqn, type_id) :: hits =>
    if max_classes <=? zlen (ex_members ex) then
      arm_matches hits spec max_classes
        {| ex_members := ex_members ex; ex_skipped := ex_skipped ex + 1; ex_no_method := ex_no_method ex; ex_failures := ex_failures ex |}
    else
      bp_id ← take_stop_id "bp_";
      armed ← arm_and_insert [type_id] (for_pattern fqn spec) bp_id family_member;
      arm_matches hits spec max_classes
        match armed with
        | Ok armed => {| ex_members := ex_members ex ++ [{| fm_class := fqn; fm_armed := armed |}]; ex_skipped := ex_skipped ex;
                         ex_no_method := ex_no_method ex; ex_failures := ex_failures ex |}
        | Err (ArmNoSuchMethod _) => {| ex_members := ex_members ex; ex_skipped := ex_skipped ex;
                         ex_no_method := ex_no_method ex + 1; ex_failures := ex_failures ex |}
        | Err (ArmOther msg) => {| ex_members := ex_members ex; ex_skipped := ex_skipped ex;
                         ex_no_method := ex_no_method ex; ex_failures := ex_failures ex ++ [msg] |}
        end
  end.

Definition arm_pattern_family (spec : BreakpointSpec) (index : list (string * Z)) (max_classes : Z) : H FamilyOutcome :=
  set_id ← take_stop_id "bpset_";
  let hits := base.filter (fun e => class_matches (fst e) (bs_class_pattern spec) = true) index in
  ex ← arm_matches hits spec max_classes {| ex_members := []; ex_skipped := 0; ex_no_method := 0; ex_failures := [] |};
  let '(jdwp_pattern, broadened) := jdwp_class_match_for (bs_class_pattern spec) in
  watched ← (if max_classes <=? zlen (ex_members ex) then mret (Parked, None)
             else
               r ← conn (set_class_prepare jdwp_pattern EventThread);
               mret match r with
               | Ok req => (Watching req, None)
               | Err e => (Failed, Some (display_error e))
               end : H (ClassLoadWatch * option string));
  let '(watch, watch_error) := watched in
  _ ← on_session (with_pattern_sets (<[set_id := {|
    ps_id := set_id; ps_class_pattern := bs_class_pattern spec; ps_watch := watch; ps_enabled := true;
    ps_members := map (fun m => ab_bp_id (fm_armed m)) (ex_members ex); ps_armed_later := []; ps_armed_later_total := 0;
    ps_method := bs_method_hint spec; ps_hit_count := bs_hit_count spec; ps_instance_filter := bs_instance_filter spec;
    ps_thread_filter := bs_thread_filter spec; ps_condition := bs_condition spec; ps_trace := bs_trace spec;
    ps_trace_expr := bs_trace_expr spec; ps_trace_budget := bs_trace_budget spec; ps_trace_frames := bs_trace_frames spec;
    ps_trace_max_length := bs_trace_max_length spec; ps_max_classes := max_classes; ps_skipped_at_cap := ex_skipped ex;
    ps_no_method := ex_no_method ex |}]>));
  mret {| fo_set_id := set_id; fo_members := ex_members ex; fo_matched := zlen hits; fo_skipped := ex_skipped ex;
    fo_no_method := ex_no_method ex; fo_failures := ex_failures ex; fo_broadened_watch := broadened && is_watching watch;
    fo_watch_error := watch_error; fo_watch_parked := match watch with Parked => true | _ => false end |}.

(** ** One pattern of a call *)

Inductive PatternOutcome : Type :=
| PatternArmed (armed : ArmedBreakpoint)
| PatternDeferred (bp_id : string)
| PatternFamily (family : FamilyOutcome)
| PatternFailed (why : string).

Definition armed_count (o : PatternOutcome) : Z :=
  match o with PatternArmed _ => 1 | PatternFamily f => zlen (fo_members f) | PatternDeferred _ | PatternFailed _ => 0 end.
Definition failed_count (o : PatternOutcome) : Z :=
  match o with PatternFailed _ => 1 | PatternFamily f => zlen (fo_failures f) | PatternArmed _ | PatternDeferred _ => 0 end.

Definition arm_one_pattern (spec : BreakpointSpec) (index : list (string * Z)) (max_classes : Z) : H PatternOutcome :=
  if is_wildcard (bs_class_pattern spec) then family ← arm_pattern_family spec index max_classes; mret (PatternFamily family) else
  bp_id ← take_stop_id "bp_";
  classes ← conn (attempt (classes_by_signature (bs_signature spec)));
  match classes with
  | Err e => mret (PatternFailed ("Failed to find class: " +s+ display_error e))
  | Ok [] =>
    deferred ← defer_breakpoint spec bp_id;
    mret match deferred with
    | Ok (ArmedOnRecheck armed) => PatternArmed armed
    | Ok (Deferred bp_id) => PatternDeferred bp_id
    | Err e => PatternFailed e
    end
  | Ok classes =>
    plan ← register_rearm_watch spec;
    armed ← arm_and_insert (map ci_type_id classes) spec bp_id plan;
    mret match armed with
    | Ok armed => PatternArmed armed
    | Err e => PatternFailed (into_message e)
    end
  end.

(** The loop over the patterns of a call. *)
Fixpoint arm_patterns (patterns : list string) (base : BreakpointSpec) (index : list (string * Z)) (max_classes : Z) :
    H (list PatternOutcome) :=
  match patterns with
  | [] => mret []
  | p :: patterns =>
    outcome ← arm_one_pattern (for_pattern p base) index max_classes;
    outcomes ← arm_patterns patterns base index max_classes;
    mret (outcome :: outcomes)
  end.
End Arming.

(** The classes of the debuggee by name, without arrays, sorted ([sort_by] is stable). *)
Definition name_le (a b : string * Z) : Prop := bytes_le (bytes_of_string (fst a)) (bytes_of_string (fst b)) = true.
#[global] Instance name_le_dec a b : Decision (name_le a b) := decide (bytes_le _ _ = true).

Definition REF_TAG_ARRAY : Z := 3.

Section Index.
Context `{BC : BytesCrate} `{D : Debuggee}.

Definition load_class_index : H (result string (list (string * Z))) :=
  all ← conn (attempt all_classes);
  mret match all with
  | Err e => Err ("Failed to list classes: " +s+ display_error e)
  | Ok all =>
    Ok (merge_sort name_le (map (fun c => (decode_signature (ci_signature c), ci_type_id c))
         (base.filter (fun c => ci_ref_type_tag c <> REF_TAG_ARRAY) all)))
  end.

Definition class_index_for (patterns : list string) : H (result string (list (string * Z))) :=
  if existsb is_wildcard patterns then load_class_index else mret (Ok []).
End Index.

Definition MAX_CLASSES_CEILING : Z := 200.
Definition clamped_max_classes (requested : Z) : Z := Z.min (Z.max requested 1) MAX_CLASSES_CEILING.
