(* ===== verification/Rearm.v ===== *)
(** * Re-arming, editing and clearing stop points ([mcp-server/src/handlers.rs]: [rearm_stop_point],
      [handle_toggle_stop_point], [handle_update_stop_point], [handle_clear_stop_point])

    Stop points of every kind re-armed from their definition, families toggled and cleared as a unit,
    conditions and hit counts edited in place. Handlers get the session they locked and their arguments
    as they were parsed. *)

From S2P Require Import Prelude Protocol Types Reader Events Connection Client EventRequest StopPoint.
From S2P Require Import EventRing MonitorClock Suspensions Traces Session Manager Api Generics Text Expr Condition ConditionScan Host EventPump.
From S2P Require Import Control Locate Paths Drift Arming.

(** ** Classes by name *)

Definition split_loader_selector (dotted : string) : string * option Z :=
  match rsplit_once (ch "@") (bytes_of_string dotted) with
  | None => (dotted, None)
  | Some (name, sel) =>
    match strip_prefix (chars_of "0x") sel with
    | None => (dotted, None)
    | Some hex => match parse_hex 64 hex with
                  | Some id => (string_of_bytes name, Some id)
                  | None => (dotted, None)
                  end
    end
  end.

Definition descriptor_candidates (class_name : string) : list string :=
  let internal := slashes class_name in
  ("L" +s+ internal +s+ ";") ::
  match rsplit_once (ch "/") (bytes_of_string internal) with
  | Some (binary_name, assigned_by_the_vm) =>
    if match assigned_by_the_vm with b :: _ => is_ascii_digit b | [] => false end
    then ["L" +s+ string_of_bytes binary_name +s+ "." +s+ string_of_bytes assigned_by_the_vm +s+ ";"]
    else []
  | None => []
  end.

(** Classes before interfaces. *)
Definition rank_classes (classes : list ClassInfo) : list Z :=
  map ci_type_id (base.filter (fun c => ci_ref_type_tag c = 1) classes)
  ++ map ci_type_id (base.filter (fun c => ci_ref_type_tag c <> 1) classes).

Section Names.
Context `{BC : BytesCrate} `{D : Debuggee}.

(** The loop over the candidates: the copies of the first that is loaded. *)
Fixpoint first_loaded (dotted : string) (want_loader : option Z) (candidates : list string) :
    St (result string (option (list Z))) :=
  match candidates with
  | [] => mret (Ok None)
  | sig :: candidates =>
    classes ← attempt (classes_by_signature sig);
    match classes with
    | Err e => mret (Err ("classes_by_signature failed: " +s+ display_error e))
    | Ok [] => first_loaded dotted want_loader candidates
    | Ok classes =>
      match want_loader with
      | None => mret (Ok (Some (rank_classes classes)))
      | Some want =>
        let ids := map ci_type_id classes in
        labels ← describe_class_loaders ids;
        let needle := "0x" +s+ show_hex want in
        mret match List.find (fun e => contains (bytes_of_string needle) (bytes_of_string (snd e))) (zip ids labels) with
             | Some (id, _) => Ok (Some [id])
             | None => Err (dotted +s+ " is loaded " +s+ pretty (zlen ids) +s+ " time(s), but none by classloader " +s+ needle +s+
                            ". Loaded by: " +s+ join "; " labels +s+ ".")
             end
      end
    end
  end.

Definition resolve_class_copies_by_dotted (dotted : string) : St (result string (list Z)) :=
  let '(dotted, want_loader) := split_loader_selector dotted in
  found ← first_loaded dotted want_loader (descriptor_candidates dotted);
  match found with
  | Err e => mret (Err e)
  | Ok (Some ids) => mret (Ok ids)
  | Ok None =>
    if contains [ch "."] (bytes_of_string dotted) then mret (Ok []) else
    all ← attempt all_classes;
    mret match all with
         | Err e => Err ("all_classes failed: " +s+ display_error e)
         | Ok all => Ok (rank_classes (base.filter (fun c =>
             ends_with (bytes_of_string ("/" +s+ dotted +s+ ";")) (bytes_of_string (ci_signature c)) = true
             \/ ci_signature c = "L" +s+ dotted +s+ ";") all))
         end
  end.

Definition resolve_class_by_dotted (dotted : string) : St (result string (option Z)) :=
  r ← resolve_class_copies_by_dotted dotted; mret (head <$> r).

(** The walk over the superclasses, at most fifty of them. *)
Fixpoint find_field_from (fuel : nat) (tid : Z) (name : string) (want_static : option bool) :
    St (result string (option (Z * FieldInfo))) :=
  match fuel with
  | O => mret (Ok None)
  | S fuel =>
    fields ← attempt (get_fields tid);
    match fields with
    | Err e => mret (Err ("Failed to get fields: " +s+ display_error e))
    | Ok fields =>
      let static_ f := negb (Z.land (fi_mod_bits f) ACC_STATIC =? 0) in
      match List.find (fun f => String.eqb (fi_name f) name &&
              match want_static with Some b => eqb (static_ f) b | None => true end) fields with
      | Some f => mret (Ok (Some (tid, f)))
      | None =>
        parent ← attempt (get_superclass tid);
        match unwrap_or None parent with
        | Some parent => find_field_from fuel parent name want_static
        | None => mret (Ok None)
        end
      end
    end
  end.
Definition find_field_info (type_id : Z) (name : string) (want_static : option bool) :=
  find_field_from 50 type_id name want_static.

Definition resolve_monitor_class (dotted : string) : St (result string Z) :=
  r ← resolve_class_by_dotted dotted;
  mret (o ← r; ok_or ("monitor_class '" +s+ dotted +s+ "' is not loaded in this JVM, so a ClassOnly filter on it would match nothing — and it cannot be deferred, because JDWP's ClassOnly takes a concrete type rather than a pattern. A lock type the JVM has never loaded is also not being contended. Exercise the code that uses it once, then arm; or drop monitor_class and filter with thread_id.") o).

Definition object_is_gone (oid : Z) : St bool :=
  r ← attempt (is_collected oid);
  mret match r with
       | Ok collected => collected
       | Err (JdwpErrorCode code _) => code =? ERR_INVALID_OBJECT
       | Err _ => false
       end.
End Names.

Section Rearm.
Context `{BC : BytesCrate} `{D : Debuggee} `{PF : Platform}.

(** ** Re-arming *)

Record ReArmed : Type := { ra_request_ids : list Z; ra_armed_on : option ArmedOn }.

Definition stop_filters (sp : StopPoint) : EventFilters :=
  {| ef_count := sp_hit_count sp; ef_thread := sp_thread_filter sp; ef_instance := sp_instance_filter sp |}.

Definition armed_once (what : string) (m : M Z) : H (result string ReArmed) :=
  try_or (fun e => what +s+ display_error e) (conn m) (fun req => mret (Ok {| ra_request_ids := [req]; ra_armed_on := None |})).

Definition rearm_breakpoint_location (bp : LineBreakpoint) : H (result string BreakpointArm) :=
  let signature := "L" +s+ slashes (lb_class_pattern bp) +s+ ";" in
  try_or (fun e => "Failed to look up '" +s+ lb_class_pattern bp +s+ "': " +s+ display_error e)
    (conn (classes_by_signature signature)) (fun classes =>
  match classes with
  | [] => mret (Err ("Cannot re-arm: class '" +s+ lb_class_pattern bp +s+
      "' is not loaded any more (was it redeployed? trigger it once so the JVM loads it, then retry — or set a fresh breakpoint, which defers until it loads)"))
  | class :: _ =>
    let line_opt := if in_s_dec 32 (lb_line bp) then Some (lb_line bp) else None in
    loc ← conn (resolve_bp_location (ci_type_id class) line_opt (lb_method bp));
    mret (Ok match loc with
             | Ok loc => {| ba_class_id := ci_type_id class; ba_method_id := mi_method_id (rl_method loc);
                            ba_bytecode_index := rl_code_index loc; ba_extra_locations := extra_of (ci_type_id class) loc;
                            ba_suspend_policy := ba_suspend_policy (lb_arm bp) |}
             | Err _ => lb_arm bp
             end)
  end).

Definition with_arm (arm : BreakpointArm) (bp : LineBreakpoint) : LineBreakpoint := {|
  lb_class_pattern := lb_class_pattern bp; lb_line := lb_line bp; lb_method := lb_method bp; lb_arm_line := lb_arm_line bp;
  lb_arm_method := lb_arm_method bp; lb_drift := lb_drift bp; lb_loaders := lb_loaders bp; lb_arm := arm; lb_rearm := lb_rearm bp
|}.
Definition with_extra (locs : list ArmedLocation) (arm : BreakpointArm) : BreakpointArm := {|
  ba_class_id := ba_class_id arm; ba_method_id := ba_method_id arm; ba_bytecode_index := ba_bytecode_index arm;
  ba_extra_locations := locs; ba_suspend_policy := ba_suspend_policy arm
|}.

Definition rearm_line_breakpoint (sp : StopPoint) (bp : LineBreakpoint) : H (result string ReArmed) :=
  try_or id (rearm_breakpoint_location bp) (fun arm =>
  try_or (fun e => "Failed to re-arm breakpoint: " +s+ display_error e)
    (conn (set_breakpoint_ex (ba_class_id arm) (ba_method_id arm) (ba_bytecode_index arm) (ba_suspend_policy arm) (stop_filters sp)))
  (fun req =>
  extra_locs ← arm_extra_line_locations arm (stop_filters sp);
  mret (Ok {| ra_request_ids := req :: el_request_ids extra_locs;
              ra_armed_on := Some (OnLine (with_arm (with_extra (el_armed extra_locs) arm) bp)) |}))).

Definition rearm_exception_request (sp : StopPoint) (er : ExceptionBreakpoint) : H (result string ReArmed) :=
  ref_type ← (if bool_decide (eb_class_pattern er = "*") then mret (Ok None)
              else
                r ← conn (resolve_class_by_dotted (eb_class_pattern er));
                mret (o ← r; Some <$> ok_or ("Cannot re-arm " +s+ sp_id sp +s+ ": exception class '" +s+ eb_class_pattern er +s+
                  "' is not loaded any more (was it redeployed? trigger it once so the JVM loads it, then retry)") o)
              : H (result string (option Z)));
  try_or id (mret ref_type) (fun ref_type =>
    armed_once "Failed to re-arm exception breakpoint: "
      (set_exception_request_ex ref_type (eb_caught er) (eb_uncaught er) (suspend_policy_for (sp_trace sp)) (stop_filters sp))).

Definition rearm_watchpoint (sp : StopPoint) (wp : Watchpoint) : H (result string ReArmed) :=
  try_or id (conn (resolve_class_by_dotted (wp_class_name wp))) (fun type_id =>
  match type_id with
  | None => mret (Err ("Cannot re-arm " +s+ sp_id sp +s+ ": class '" +s+ wp_class_name wp +s+
      "' is not loaded any more (was it redeployed? exercise it once so the JVM loads it, then retry)"))
  | Some type_id =>
    try_or id (conn (find_field_info type_id (wp_field_name wp) None)) (fun found =>
    match found with
    | None => mret (Err ("Cannot re-arm " +s+ sp_id sp +s+ ": class '" +s+ wp_class_name wp +s+ "' no longer has a field '" +s+
        wp_field_name wp +s+ "'"))
    | Some (declaring, field) =>
      armed_once "Failed to re-arm watchpoint: "
        (set_field_watch_ex declaring (fi_field_id field) (wp_kind wp) (suspend_policy_for (sp_trace sp)) (stop_filters sp))
    end)
  end).

Definition rearm_method_exit (sp : StopPoint) (me : MethodExitRequest) : H (result string ReArmed) :=
  armed_once "Failed to re-arm method-exit request: "
    (set_method_exit_request_ex (mx_class_pattern me) (mx_with_return_value me) (suspend_policy_for (sp_trace sp))
       (mx_exclude_classes me) (stop_filters sp)).

Definition rearm_monitor_request (sp : StopPoint) (mon : MonitorStop) : H (result string ReArmed) :=
  class_filter ← match mo_monitor_class mon with
                 | Some name =>
                   r ← conn (resolve_monitor_class name);
                   mret (map_err (fun e => "Cannot re-arm " +s+ sp_id sp +s+ ": " +s+ e) (Some <$> r))
                 | None => mret (Ok None)
                 end;
  try_or id (mret class_filter) (fun class_filter =>
  try_or (fun e => "Failed to re-arm monitor request: " +s+ display_error e)
    (conn (set_monitor_request (mo_kind mon) (suspend_policy_for (sp_trace sp))
       (if class_filter_tests_monitor (mo_kind mon) then class_filter else None)
       {| ef_count := sp_hit_count sp; ef_thread := sp_thread_filter sp; ef_instance := None |})) (fun req =>
  _ ← on_session (with_monitor_clock (forget_pair (fst (pair_of (mo_kind mon)))));
  mret (Ok {| ra_request_ids := [req]; ra_armed_on := None |}))).

Definition rearm_by_kind (sp : StopPoint) : H (result string ReArmed) :=
  match sp_armed_on sp with
  | OnLine bp => rearm_line_breakpoint sp bp
  | OnException er => rearm_exception_request sp er
  | OnWatchpoint wp => rearm_watchpoint sp wp
  | OnMethodExit me => rearm_method_exit sp me
  | OnMonitor mon => rearm_monitor_request sp mon
  end.

(** Enabled on its new requests, with a fresh budget and cost. *)
Definition rearmed (armed : ReArmed) (sp : StopPoint) : StopPoint :=
  stop_with (fun _ => ra_request_ids armed) (fun _ => true) (fun _ => false) id refreshed_budget (fun _ => no_cost)
    (fun armed_on => default armed_on (ra_armed_on armed)) sp.

Definition rearm_stop_point (id_ : string) : H (result string string) :=
  s ← session;
  match ss_stop_points (ds_state s) !! id_ with
  | None => mret (Err ("Stop point not found: " +s+ id_))
  | Some sp =>
    try_or id (rearm_by_kind sp) (fun armed =>
    _ ← on_state (with_stop_points (alter (rearmed armed) id_));
    mret (Ok (describe (sp_armed_on sp))))
  end.

(** ** Toggling *)

(** One member after the other: how many changed and how many could not be. *)
Fixpoint toggle_members (want : bool) (members : list string) (changed failed : Z) : H (Z * Z) :=
  match members with
  | [] => mret (changed, failed)
  | member :: members =>
    outcome ← (if want then rearm_stop_point member else disable_stop_point member);
    match outcome with
    | Ok _ => toggle_members want members (changed + 1) failed
    | Err _ => toggle_members want members changed (failed + 1)
    end
  end.

Definition change_set (set_id : string) (f : PatternStopSet -> PatternStopSet) : H unit :=
  on_session (with_pattern_sets (alter f set_id)).

(** The fields of a family the handlers change. *)
Definition set_with (watch : ClassLoadWatch -> ClassLoadWatch) (enabled : bool -> bool) (members : list string -> list string)
    (condition : option string -> option string) (hit_count : option Z -> option Z) (skipped no_method : Z -> Z)
    (p : PatternStopSet) : PatternStopSet := {|
  ps_id := ps_id p; ps_class_pattern := ps_class_pattern p; ps_watch := watch (ps_watch p); ps_enabled := enabled (ps_enabled p);
  ps_members := members (ps_members p); ps_armed_later := ps_armed_later p; ps_armed_later_total := ps_armed_later_total p;
  ps_method := ps_method p; ps_hit_count := hit_count (ps_hit_count p); ps_instance_filter := ps_instance_filter p;
  ps_thread_filter := ps_thread_filter p; ps_condition := condition (ps_condition p); ps_trace := ps_trace p;
  ps_trace_expr := ps_trace_expr p; ps_trace_budget := ps_trace_budget p; ps_trace_frames := ps_trace_frames p;
  ps_trace_max_length := ps_trace_max_length p; ps_max_classes := ps_max_classes p;
  ps_skipped_at_cap := skipped (ps_skipped_at_cap p); ps_no_method := no_method (ps_no_method p)
|}.
Definition set_watch (w : ClassLoadWatch) : PatternStopSet -> PatternStopSet := set_with (fun _ => w) id id id id id id.

(** What a family that is toggled does about classes that load later, and what the reply says of it. *)
Definition toggle_watch (set_id pattern : string) (want : bool) : H string :=
  s ← session;
  let set := ds_pattern_sets s !! set_id in
  if want then
    if match set with Some s => negb (has_room s) | None => false end then
      _ ← change_set set_id (set_watch Parked);
      mret " and is NOT watching for new classes, because it is still full at max_classes — clear a member and it starts watching again"
    else
      r ← conn (set_class_prepare (fst (jdwp_class_match_for pattern)) EventThread);
      match r with
      | Ok req => _ ← change_set set_id (set_watch (Watching req)); mret " and is watching for matching classes again"
      | Err _ => _ ← change_set set_id (set_watch Failed);
        mret " — but its watch for classes loading later could NOT be re-registered, so only the breakpoints above are live"
      end
  else
    _ ← match (set ← set; watch_request_id (ps_watch set) : option Z) with
        | Some req => drop_class_prepare req
        | None => mret tt
        end;
    _ ← change_set set_id (set_watch Disabled);
    mret " and stopped watching for new classes".

Definition toggle_pattern_family (set_id : string) (want : bool) : H (result string string) :=
  s ← session;
  match ds_pattern_sets s !! set_id with
  | None => mret (Err ("Stop point not found: " +s+ set_id))
  | Some set =>
    counts ← toggle_members want (ps_members set) 0 0;
    let '(changed, failed) := counts in
    watch_note ← toggle_watch set_id (ps_class_pattern set) want;
    _ ← change_set set_id (set_with id (fun _ => want) id id id id id);
    let failures := if 0 <? failed then " (" +s+ pretty failed +s+ " member(s) could not be changed — see the server log)" else "" in
    mret (Ok (if want then
        "✅ Re-armed family " +s+ set_id +s+ " (" +s+ ps_class_pattern set +s+ ") — " +s+ pretty changed +s+ " breakpoint(s)" +s+ watch_note +s+
        failures +s+ ". Same ids, so anything holding them keeps working."
      else
        "🔕 Disabled family " +s+ set_id +s+ " (" +s+ ps_class_pattern set +s+ ") — " +s+ pretty changed +s+ " breakpoint(s)" +s+ watch_note +s+
        failures +s+ ". Their definitions are kept; toggle it back on to re-arm."))
  end.

Definition enabled_state_of (id : string) (s : DebugSession) : result string bool :=
  match ss_stop_points (ds_state s) !! id with
  | Some sp => Ok (sp_enabled sp)
  | None =>
    match List.find (fun p => String.eqb (pb_bp_id p) id) (ss_pending_breakpoints (ds_state s)) with
    | Some pb => Err (id +s+ " is a deferred breakpoint waiting for " +s+ pb_class_pattern pb +s+
        " to load — it holds no active breakpoint request yet, so there is nothing to toggle. Use debug.clear_stop_point to drop it, or toggle it once the class loads and it arms.")
    | None => Err ("Stop point not found: " +s+ id)
    end
  end.

Definition check_instance_filter_still_live (id : string) : H (result string unit) :=
  s ← session;
  match (sp ← ss_stop_points (ds_state s) !! id; sp_instance_filter sp : option Z) with
  | None => mret (Ok tt)
  | Some oid =>
    gone ← conn (object_is_gone oid);
    mret (if gone : bool then
      Err ("Cannot re-arm " +s+ id +s+ ": it is scoped to @0x" +s+ show_hex oid +s+ ", and the debuggee has collected that object. While " +s+ id +s+
        " was armed the InstanceOnly modifier pinned it (ADR-0027); disabling " +s+ id +s+
        " released that pin, and the application has since dropped its own last reference. Re-arming would give you a stop point that lists itself as armed and can never fire — silence that reads as the code never running. Take a fresh handle from debug.list_instances and arm a new stop point, or clear this one and re-arm it unscoped.")
      else Ok tt)
  end.

Definition no_change (id : string) (current : bool) : string :=
  "No change: " +s+ id +s+ " is already " +s+ (if current then "armed" else "disabled") +s+ ".".

(** [a.breakpoint_id.trim()]. *)

Definition handle_toggle_stop_point (breakpoint_id : string) (enabled : option bool) : H (result string string) :=
  let id_ := trimmed breakpoint_id in
  s ← session;
  match ds_pattern_sets s !! id_ with
  | Some set =>
    let current := ps_enabled set in
    let want := default (negb current) enabled in
    if eqb want current then mret (Ok (no_change id_ current)) else toggle_pattern_family id_ want
  | None =>
    try_or id (mret (enabled_state_of id_ s)) (fun current =>
    let want := default (negb current) enabled in
    if eqb want current then mret (Ok (no_change id_ current)) else
    try_or id (if want then check_instance_filter_still_live id_ else mret (Ok tt)) (fun _ =>
    try_or id (if want then rearm_stop_point id_ else disable_stop_point id_) (fun what =>
    mret (Ok (if want then "✅ Re-armed " +s+ id_ +s+ " (" +s+ what +s+ ") — same id, so anything holding it keeps working."
              else "🔕 Disabled " +s+ id_ +s+ " (" +s+ what +s+ ") — its definition is kept; toggle it back on to re-arm.")))))
  end.
End Rearm.

Section Clear.
Context `{BC : BytesCrate} `{D : Debuggee} `{PF : Platform}.
Context {StopOrder : IterOrder string StopPoint} {SetOrder : IterOrder string PatternStopSet}.

(** ** Slots of a family *)

Definition park_family_watch_if_full (set_id : string) : H unit :=
  s ← session;
  match ds_pattern_sets s !! set_id with
  | None => mret tt
  | Some set =>
    if has_room set then mret tt else
    match watch_request_id (ps_watch set) with
    | None => mret tt
    | Some req =>
      r ← conn (clear_class_prepare req);
      match r with
      | Err _ => mret tt
      | Ok _ => change_set set_id (set_watch Parked)
      end
    end
  end.

Definition is_parked (w : ClassLoadWatch) : bool := match w with Parked => true | _ => false end.

Definition unpark_family_watch (set_id : string) : H bool :=
  s ← session;
  match ds_pattern_sets s !! set_id with
  | None => mret false
  | Some set =>
    if negb (is_parked (ps_watch set)) || negb (ps_enabled set) || negb (has_room set) then mret false else
    watch ← conn (set_class_prepare (fst (jdwp_class_match_for (ps_class_pattern set))) EventThread);
    let state := match watch with Ok req => Watching req | Err _ => Failed end in
    _ ← change_set set_id (set_watch state);
    mret (is_watching state)
  end.

(** [members.retain(|m| m != bp_id)]. *)
Definition drop_member (bp_id : string) : PatternStopSet -> PatternStopSet :=
  set_with id id (fun l => base.filter (fun m => m <> bp_id) l) id id id id.

(** The families that lose a member. *)
Definition owning_sets (bp_id : string) (s : DebugSession) : list string :=
  map (fun e => ps_id (snd e)) (base.filter (fun e => bp_id ∈ ps_members (snd e)) (iter (ds_pattern_sets s))).

Fixpoint unpark_each (freed watching_again : list string) : H (list string) :=
  match freed with
  | [] => mret watching_again
  | set_id :: freed =>
    again ← unpark_family_watch set_id;
    unpark_each freed (if again : bool then watching_again ++ [set_id] else watching_again)
  end.

Definition release_family_slot (bp_id : string) : H string :=
  freed ← of_session (fun s => (owning_sets bp_id s, with_pattern_sets (fmap (drop_member bp_id)) s));
  watching_again ← unpark_each freed [];
  mret (if bool_decide (watching_again = []) then "" else
    newline +s+ "   ℹ️  That freed a slot in " +s+ join ", " watching_again +s+
    ", which was full and had stopped watching for new classes — it is watching again, so a matching class loading now WILL be armed.").

(** ** Clearing *)

Definition forget_stop (id : string) : H unit := on_state (with_stop_points (delete id)).

Fixpoint clear_members (members : list string) (cleared : Z) : H Z :=
  match members with
  | [] => mret cleared
  | member :: members =>
    sp ← of_session (fun s => (ss_stop_points (ds_state s) !! member, with_state (with_stop_points (delete member)) s));
    match sp with
    | None => clear_members members cleared
    | Some sp =>
      _ ← note_traced_in_flight (sp_trace sp) (sp_request_ids sp);
      _ ← clear_stop_point_requests sp;
      clear_members members (cleared + 1)
    end
  end.

Definition clear_pattern_family (set_id : string) (set : PatternStopSet) : H string :=
  _ ← match watch_request_id (ps_watch set) with Some req => drop_class_prepare req | None => mret tt end;
  cleared ← clear_members (ps_members set) 0;
  let already := sat_sub (zlen (ps_members set)) cleared in
  mret ("✅ Breakpoint family cleared: " +s+ set_id +s+ " (" +s+ ps_class_pattern set +s+ ") — " +s+ pretty cleared +s+
    " breakpoint(s), plus its watch for matching classes that load later." +s+
    (if 0 <? already then " (" +s+ pretty already +s+ " had already been cleared by their own id.)" else "")).

Definition requests_label (sp : StopPoint) : string :=
  if bool_decide (sp_request_ids sp = []) then (if sp_spent sp then "(spent)" else "(disabled)")
  else join ", " (map pretty (sp_request_ids sp)).

Definition clear_line_breakpoint (sp : StopPoint) (bp : LineBreakpoint) : H (result string string) :=
  _ ← match watch (lb_rearm bp) with Some w => drop_class_prepare (rw_request_id w) | None => mret tt end;
  family_note ← release_family_slot (sp_id sp);
  mret (Ok ("✅ Breakpoint cleared: " +s+ sp_id sp +s+ " at " +s+ lb_class_pattern bp +s+ ":" +s+ pretty (lb_line bp) +s+ newline +s+
    "   JDWP Request ID: " +s+ requests_label sp +s+ family_note +s+ clear_note sp)).

Definition monitor_stops (s : DebugSession) : list (StopPoint * MonitorStop) :=
  omap (fun e => m ← monitor (snd e); Some (snd e, m)) (iter (ss_stop_points (ds_state s))).

Definition clear_monitor_stop (sp : StopPoint) (mon : MonitorStop) : H string :=
  _ ← on_session (with_monitor_clock (forget_pair (fst (pair_of (mo_kind mon)))));
  s ← session;
  let widowed := List.find (fun e => bool_decide (monitor_event_kind (mo_kind (snd e)) = monitor_event_kind (partner (mo_kind mon)))) (monitor_stops s) in
  mret ("✅ Monitor reporting cleared: " +s+ sp_id sp +s+ " (" +s+ monitor_kind_label (mo_kind mon) +s+ ")" +s+ clear_note sp +s+
    match widowed with
    | Some (survivor, m) =>
      newline +s+ "   ⚠  " +s+ sp_id survivor +s+ " ('" +s+ monitor_kind_label (partner (mo_kind mon)) +s+
      "') is still armed and has lost its pair, so its snapshots can no longer carry a duration — a duration is measured across both events." +s+
      match mo_min_duration_ms m with
      | Some min => newline +s+ "   ⚠  It also has min_duration_ms: " +s+ pretty min +s+
          ", which it can no longer evaluate, so it will now record NOTHING. Clear it too, or re-arm the pair."
      | None => ""
      end
    | None => ""
    end).

Definition clear_one_stop_point (sp : StopPoint) : H (result string string) :=
  _ ← note_traced_in_flight (sp_trace sp) (sp_request_ids sp);
  sent ← clear_stop_point_requests sp;
  match sp_armed_on sp with
  | OnLine bp =>
    match sent with
    | Err e => mret (Err ("Failed to clear breakpoint: " +s+ e))
    | Ok _ => clear_line_breakpoint sp bp
    end
  | OnException er =>
    mret (Ok ("✅ Exception breakpoint cleared: " +s+ sp_id sp +s+ " (" +s+ eb_class_pattern er +s+ ")" +s+ clear_note sp))
  | OnWatchpoint wp =>
    mret (Ok ("✅ Watchpoint cleared: " +s+ sp_id sp +s+ " (" +s+ wp_class_name wp +s+ "." +s+ wp_field_name wp +s+ " " +s+
      watch_label (wp_kind wp) +s+ ")" +s+ clear_note sp))
  | OnMethodExit me =>
    mret (Ok ("✅ Method-exit reporting cleared: " +s+ sp_id sp +s+ " (" +s+ mx_class_pattern me +s+
      match mx_method me with Some m => "." +s+ m | None => ".*" end +s+ ")" +s+ clear_note sp))
  | OnMonitor mon => text ← clear_monitor_stop sp mon; mret (Ok text)
  end.

(** [pending_breakpoints.remove(position(..))]: the first of that id. *)
Fixpoint remove_pending (id : string) (l : list PendingBreakpoint) : option (PendingBreakpoint * list PendingBreakpoint) :=
  match l with
  | [] => None
  | p :: l =>
    if bool_decide (pb_bp_id p = id) then Some (p, l)
    else '(q, l) ← remove_pending id l; Some (q, p :: l)
  end.

Definition handle_clear_stop_point (bp_id : string) : H (result string string) :=
  s ← session;
  match ds_pattern_sets s !! bp_id with
  | Some set =>
    _ ← on_session (with_pattern_sets (delete bp_id));
    text ← clear_pattern_family bp_id set;
    mret (Ok text)
  | None =>
    match remove_pending bp_id (ss_pending_breakpoints (ds_state s)) with
    | Some (pb, l) =>
      _ ← on_state (with_pending (fun _ => l));
      _ ← drop_class_prepare (pb_class_prepare_request_id pb);
      mret (Ok ("✅ Deferred breakpoint cleared: " +s+ bp_id +s+ " (" +s+ pb_class_pattern pb +s+ ")"))
    | None =>
      match ss_stop_points (ds_state s) !! bp_id with
      | None => mret (Err ("Breakpoint not found: " +s+ bp_id))
      | Some sp =>
        try_or id (clear_one_stop_point sp) (fun reply =>
        _ ← forget_stop bp_id;
        mret (Ok reply))
      end
    end
  end.
End Clear.

(** ** Editing in place *)

Inductive FieldEdit (A : Type) : Type := Leave | ClearField | SetField (v : A).
Arguments Leave {A}.
Arguments ClearField {A}.
Arguments SetField {A} v.

Definition asked {A} (e : FieldEdit A) : bool := match e with Leave => false | _ => true end.
(** [put_condition] and [put_hit_count]. *)
Definition put_edit {A} (e : FieldEdit A) (dst : option A) : option A :=
  match e with Leave => dst | ClearField => None | SetField v => Some v end.

Record EditableStopPoint : Type := {
  es_kind : string;
  es_condition : option string;
  es_hit_count : option Z;
  es_spent : bool;
  es_supports_condition : bool;
  es_family_members : list string;
}.

Definition read_editable_stop_point (id : string) (s : DebugSession) : result string EditableStopPoint :=
  match ss_stop_points (ds_state s) !! id with
  | Some sp => Ok {| es_kind := kind_label (kind sp); es_condition := sp_condition sp; es_hit_count := sp_hit_count sp;
      es_spent := sp_spent sp; es_supports_condition := takes_condition (kind sp); es_family_members := [] |}
  | None =>
    match ds_pattern_sets s !! id with
    | Some set => Ok {| es_kind := "wildcard family"; es_condition := ps_condition set; es_hit_count := ps_hit_count set;
        es_spent := false; es_supports_condition := true; es_family_members := ps_members set |}
    | None =>
      match List.find (fun p => String.eqb (pb_bp_id p) id) (ss_pending_breakpoints (ds_state s)) with
      | Some pb => Ok {| es_kind := "deferred breakpoint"; es_condition := pb_condition pb; es_hit_count := pb_hit_count pb;
          es_spent := false; es_supports_condition := true; es_family_members := [] |}
      | None => Err ("Stop point not found: " +s+ id +s+ ". debug.list_stop_points shows every id this session holds.")
      end
    end
  end.

Definition parse_stop_point_edit (condition : option string) (clear_condition : bool) (hit_count : option Z) (clear_hit_count : bool) :
    result string (FieldEdit string * FieldEdit Z) :=
  if is_some condition && clear_condition then
    Err "Pass condition or clear_condition, not both — they ask for opposite things, and picking one for you would silently decide what this stop point fires on."
  else if is_some hit_count && clear_hit_count then Err "Pass hit_count or clear_hit_count, not both."
  else
    let edit {A} (v : option A) (clear : bool) : FieldEdit A :=
      if clear then ClearField else match v with Some v => SetField v | None => Leave end in
    Ok (edit condition clear_condition, edit hit_count clear_hit_count).

Definition edited_stop (condition : FieldEdit string) (hit_count : FieldEdit Z) (sp : StopPoint) : StopPoint := {|
  sp_id := sp_id sp; sp_request_ids := sp_request_ids sp; sp_enabled := sp_enabled sp; sp_spent := sp_spent sp;
  sp_hit_count := put_edit hit_count (sp_hit_count sp); sp_hits := sp_hits sp;
  sp_condition := if takes_condition (kind sp) then put_edit condition (sp_condition sp) else sp_condition sp;
  sp_trace := sp_trace sp; sp_trace_expr := sp_trace_expr sp; sp_trace_budget := sp_trace_budget sp;
  sp_trace_frames := sp_trace_frames sp; sp_trace_max_length := sp_trace_max_length sp; sp_trace_cost := sp_trace_cost sp;
  sp_thread_filter := sp_thread_filter sp; sp_instance_filter := sp_instance_filter sp; sp_armed_on := sp_armed_on sp
|}.

Definition edited_pending (condition : FieldEdit string) (hit_count : FieldEdit Z) (p : PendingBreakpoint) : PendingBreakpoint := {|
  pb_bp_id := pb_bp_id p; pb_class_prepare_request_id := pb_class_prepare_request_id p; pb_class_pattern := pb_class_pattern p;
  pb_signature := pb_signature p; pb_line := pb_line p; pb_method := pb_method p;
  pb_hit_count := put_edit hit_count (pb_hit_count p); pb_instance_filter := pb_instance_filter p;
  pb_thread_filter := pb_thread_filter p; pb_condition := put_edit condition (pb_condition p); pb_trace := pb_trace p;
  pb_trace_expr := pb_trace_expr p; pb_trace_budget := pb_trace_budget p; pb_trace_frames := pb_trace_frames p;
  pb_trace_max_length := pb_trace_max_length p
|}.

(** The first element that satisfies [p], changed. *)
Fixpoint change_first {A} (p : A -> bool) (f : A -> A) (l : list A) : list A :=
  match l with
  | [] => []
  | a :: l => if p a then f a :: l else a :: change_first p f l
  end.

Definition apply_stop_point_edit (id_ : string) (condition : FieldEdit string) (hit_count : FieldEdit Z) (s : DebugSession) : DebugSession :=
  match ss_stop_points (ds_state s) !! id_ with
  | Some _ => with_state (with_stop_points (alter (edited_stop condition hit_count) id_)) s
  | None =>
    if existsb (fun p => String.eqb (pb_bp_id p) id_) (ss_pending_breakpoints (ds_state s)) then
      with_state (with_pending (change_first (fun p => String.eqb (pb_bp_id p) id_) (edited_pending condition hit_count))) s
    else
      with_pattern_sets (alter (set_with id id id (put_edit condition) (put_edit hit_count) id id) id_) s
  end.

Definition refuse_uneditable (id : string) (before : EditableStopPoint) (condition : FieldEdit string) : result string unit :=
  if es_spent before then
    Err (id +s+ " is SPENT — it reached its hit count and the JVM has already deleted the request, so there is nothing armed to update. Arm a new stop point with the condition you want; its id and tally start fresh either way, which is the case this tool cannot save you from.")
  else if asked condition && negb (es_supports_condition before) then
    Err (id +s+ " is a " +s+ es_kind before +s+ " and takes no condition — debug.set_monitor_stop has no condition argument either, so there is none to change. Its hit_count can be updated.")
  else Ok tt.

Definition invoking_exprs (condition : option string) (trace_expr : list string) : list (string * string) :=
  map (fun c => ("condition", c)) (option_list condition) ++
  imap (fun i e => ((if (length trace_expr =? 1)%nat then "trace_expr" else "trace_expr[" +s+ pretty (Z.of_nat i) +s+ "]"), e)) trace_expr.
Definition check_readonly_exprs (read_only : bool) (condition : option string) (trace_expr : list string) : result string unit :=
  if negb read_only then Ok tt else
  match List.find (fun e => expr_invokes (str_chars (snd e))) (invoking_exprs condition trace_expr) with
  | Some (what, e) =>
    Err ("🔒 Read-only session: the " +s+ what +s+ " `" +s+ e +s+
      "` calls a method, which would have to execute code in the debuggee on every hit — refused. Use a comparison over fields instead (e.g. `status == " +s+
      dquote +s+ "OPEN" +s+ dquote +s+ "`), or attach without read_only.")
  | None => Ok tt
  end.

Definition render_optional_condition (c : option string) : string :=
  match c with Some c => "`" +s+ c +s+ "`" | None => "(none)" end.
Definition render_optional_count (n : option Z) : string := match n with Some n => pretty n | None => "(none)" end.

Definition render_stop_point_update (id : string) (before after : EditableStopPoint) (condition : FieldEdit string)
    (hit_count : FieldEdit Z) (family_members : Z) (wire : string) : string :=
  "✏️  Updated " +s+ id +s+ " (" +s+ es_kind after +s+ ")." +s+
  (if asked condition then newline +s+ "   Condition: " +s+ render_optional_condition (es_condition before) +s+ " → " +s+
     render_optional_condition (es_condition after) else "") +s+
  (if asked hit_count then newline +s+ "   Hit count: " +s+ render_optional_count (es_hit_count before) +s+ " → " +s+
     render_optional_count (es_hit_count after) else "") +s+
  (if 0 <? family_members then newline +s+ "   Applied to " +s+ pretty family_members +s+
     " member(s) of the family, and to classes that load later." else "") +s+
  wire +s+ newline +s+
  "   The id and the hit tally are unchanged — debug.list_stop_points shows the new values against the same counter.".

Section Edit.
Context `{BC : BytesCrate} `{D : Debuggee} `{PF : Platform}.

Definition is_armed_now (id : string) (s : DebugSession) : bool :=
  match ss_stop_points (ds_state s) !! id with Some sp => sp_enabled sp | None => false end.

Fixpoint rearm_each (targets : list string) (rearmed : Z) : H Z :=
  match targets with
  | [] => mret rearmed
  | t :: targets =>
    s ← session;
    if is_armed_now t s then
      _ ← disable_stop_point t;
      r ← rearm_stop_point t;
      rearm_each targets (if is_ok r then rearmed + 1 else rearmed)
    else rearm_each targets rearmed
  end.

Definition push_hit_count_to_the_wire (targets : list string) : H string :=
  rearmed ← rearm_each targets 0;
  mret (newline +s+ "   ↻ hit_count is JDWP's Count modifier, so the request was replaced on " +s+ pretty rearmed +s+
    " stop point(s) to carry it. The id and the tally below are this server's and survived; the JVM's own count starts again from zero.").

Definition handle_update_stop_point (breakpoint_id : string) (condition : option string) (clear_condition : bool)
    (hit_count : option Z) (clear_hit_count : bool) : H (result string string) :=
  let id_ := trimmed breakpoint_id in
  try_or id (mret (parse_stop_point_edit condition clear_condition hit_count clear_hit_count)) (fun '(condition, hit_count) =>
  if negb (asked condition) && negb (asked hit_count) then
    mret (Err ("Nothing to update on " +s+ id_ +s+
      ". Pass condition / clear_condition, hit_count / clear_hit_count, or both pairs. To silence it instead, use debug.toggle_stop_point."))
  else
  s ← session;
  try_or id (mret (read_editable_stop_point id_ s)) (fun before =>
  try_or id (mret (refuse_uneditable id_ before condition)) (fun _ =>
  try_or id (mret (match condition with
                   | SetField new => check_readonly_exprs (ds_read_only s) (Some new) []
                   | _ => Ok tt
                   end)) (fun _ =>
  let members := es_family_members before in
  _ ← on_session (apply_stop_point_edit id_ condition hit_count);
  _ ← for_each members (fun m => on_session (apply_stop_point_edit m condition hit_count));
  wire ← (if asked hit_count then push_hit_count_to_the_wire (if bool_decide (members = []) then [id_] else members)
          else mret "");
  s ← session;
  try_or id (mret (read_editable_stop_point id_ s)) (fun after =>
  mret (Ok (render_stop_point_update id_ before after condition hit_count (zlen members) wire))))))).
End Edit.
