(* ===== verification/ClassLoads.v ===== *)
(** * When a class loads ([mcp-server/src/handlers.rs]: [try_arm_deferred_breakpoints] and the loop of
      [spawn_event_listener])

    A class has been prepared and the thread that loads it is held: the stop points that wait for it are
    armed, the families whose pattern it matches grow, the stop points already armed in an earlier copy
    cover the new one, and the thread goes on. *)

From S2P Require Import Prelude Protocol Types Reader Events Connection Client EventRequest StopPoint.
From S2P Require Import EventRing MonitorClock Suspensions Traces Session Manager Api Generics Text Expr Condition Host EventPump.
From S2P Require Import Locate Paths Drift Arming Rearm.

(** The first [ClassPrepare] of a set: its thread, its type and its signature. *)
Definition class_prepared (e : Event) : option (Z * Z * string) :=
  match ev_details e with
  | ClassPrepare thread ref_type signature _ => Some (thread, ref_type, signature)
  | _ => None
  end.
Definition first_prepared (es : EventSet) : option (Z * Z * string) := head (omap class_prepared (es_events es)).

(** ** Deferred stop points *)

Definition deferred_arm (class_id method_id bytecode_index : Z) (extra : list Z) (suspend_policy : SuspendPolicy) : BreakpointArm := {|
  ba_class_id := class_id; ba_method_id := method_id; ba_bytecode_index := bytecode_index;
  ba_extra_locations := map (fun index => {| al_class_id := class_id; al_method_id := method_id; al_bytecode_index := index |}) extra;
  ba_suspend_policy := suspend_policy
|}.

Definition handover_watch (pend : PendingBreakpoint) : ReArmWatch := {|
  rw_request_id := pb_class_prepare_request_id pend; rw_signature := pb_signature pend; rw_later := no_later_copies;
  rw_line := pb_line pend; rw_method := pb_method pend
|}.

Definition pending_filters (pend : PendingBreakpoint) : EventFilters :=
  {| ef_count := pb_hit_count pend; ef_thread := pb_thread_filter pend; ef_instance := pb_instance_filter pend |}.

(** The stop point a deferred one becomes. *)
Definition armed_from_pending (pend : PendingBreakpoint) (request_ids : list Z) (loc : ResolvedLocation) (drift : DriftCheck)
    (arm : BreakpointArm) : StopPoint := {|
  sp_id := pb_bp_id pend; sp_request_ids := request_ids; sp_enabled := true; sp_spent := false;
  sp_hit_count := pb_hit_count pend; sp_hits := 0; sp_condition := pb_condition pend; sp_trace := pb_trace pend;
  sp_trace_expr := pb_trace_expr pend; sp_trace_budget := pb_trace_budget pend; sp_trace_frames := pb_trace_frames pend;
  sp_trace_max_length := pb_trace_max_length pend; sp_trace_cost := no_cost; sp_thread_filter := pb_thread_filter pend;
  sp_instance_filter := pb_instance_filter pend;
  sp_armed_on := OnLine {| lb_class_pattern := pb_class_pattern pend; lb_line := listed_line (rl_line loc);
    lb_method := Some (mi_name (rl_method loc)); lb_arm_line := pb_line pend; lb_arm_method := pb_method pend; lb_drift := drift;
    lb_loaders := []; lb_arm := arm; lb_rearm := RWatching (handover_watch pend) |}
|}.

Section ClassLoads.
Context `{BC : BytesCrate} `{D : Debuggee} `{PF : Platform}.
Context {StopOrder : IterOrder string StopPoint} {SetOrder : IterOrder string PatternStopSet}.

Definition arm_pending (cp_ref : Z) (pend : PendingBreakpoint) : H unit :=
  loc ← conn (resolve_bp_location cp_ref (pb_line pend) (pb_method pend));
  match loc with
  | Err _ => mret tt
  | Ok loc =>
    let method := rl_method loc in
    let sp := suspend_policy_for_line (pb_trace pend) (is_some (pb_condition pend)) in
    req ← conn (set_breakpoint_ex cp_ref (mi_method_id method) (rl_code_index loc) sp (pending_filters pend));
    match req with
    | Err _ => mret tt
    | Ok req_id =>
      let arm := deferred_arm cp_ref (mi_method_id method) (rl_code_index loc) (rl_extra_code_indices loc) sp in
      extra_locs ← arm_extra_line_locations arm (pending_filters pend);
      s ← session;
      let drift := drift_check_for_armed_method (ds_class_roots s) (pb_class_pattern pend) method (rl_lines loc) in
      on_state (fun st => snd (resolve_pending
        (armed_from_pending pend (req_id :: el_request_ids extra_locs) loc drift (with_extra (el_armed extra_locs) arm)) st))
    end
  end.

(** ** Families *)

Definition spec_from_pattern_set (set : PatternStopSet) (fqn signature : string) : BreakpointSpec := {|
  bs_instance_filter := ps_instance_filter set; bs_class_pattern := fqn; bs_signature := signature; bs_line_opt := None;
  bs_method_hint := ps_method set; bs_hit_count := ps_hit_count set; bs_thread_filter := ps_thread_filter set;
  bs_condition := ps_condition set; bs_trace := ps_trace set; bs_trace_expr := ps_trace_expr set;
  bs_trace_budget := ps_trace_budget set; bs_trace_frames := ps_trace_frames set; bs_trace_max_length := ps_trace_max_length set;
  bs_suspend_policy := suspend_policy_for_line (ps_trace set) (is_some (ps_condition set))
|}.

Definition matching_sets (fqn : string) (s : DebugSession) : list string :=
  map (fun e => ps_id (snd e))
    (base.filter (fun e => ps_enabled (snd e) = true /\ class_matches fqn (ps_class_pattern (snd e)) = true) (iter (ds_pattern_sets s))).

Definition skip_at_cap : PatternStopSet -> PatternStopSet := set_with id id id id id (fun n => wrap_u 64 (n + 1)) id.
Definition count_no_method : PatternStopSet -> PatternStopSet := set_with id id id id id id (fun n => wrap_u 64 (n + 1)).
Definition grow (bp_id fqn : string) (set : PatternStopSet) : PatternStopSet :=
  note_armed_later fqn (set_with id id (fun l => l ++ [bp_id]) id id id id set).

Definition arm_set_member (class_ref : Z) (signature fqn set_id : string) : H unit :=
  s ← session;
  match ds_pattern_sets s !! set_id with
  | None => mret tt
  | Some set =>
    if negb (has_room set) then
      _ ← (if is_watching (ps_watch set) then change_set set_id skip_at_cap else mret tt);
      park_family_watch_if_full set_id
    else
      bp_id ← take_stop_id "bp_";
      armed ← arm_and_insert [class_ref] (spec_from_pattern_set set fqn signature) bp_id family_member;
      match armed with
      | Ok armed =>
        _ ← change_set set_id (grow (ab_bp_id armed) fqn);
        park_family_watch_if_full set_id
      | Err (ArmNoSuchMethod _) => change_set set_id count_no_method
      | Err (ArmOther _) => mret tt
      end
  end.

Definition arm_pattern_set_members (class_ref : Z) (signature : string) : H unit :=
  let fqn := decode_signature signature in
  s ← session;
  for_each (matching_sets fqn s) (arm_set_member class_ref signature fqn).

(** ** Later copies *)

Record LaterCopyTarget : Type := {
  lt_bp_id : string;
  lt_line : option Z;
  lt_method : option string;
  lt_arm : BreakpointArm;
  lt_filters : EventFilters;
}.

(** Watching for this signature, and not already armed on this very type. *)
Definition later_copy_target (cp_ref : Z) (cp_sig : string) (sp : StopPoint) : option LaterCopyTarget :=
  b ← line sp;
  w ← watch (lb_rearm b);
  if sp_enabled sp && negb (sp_spent sp) && String.eqb (rw_signature w) cp_sig
     && negb (ba_class_id (lb_arm b) =? cp_ref)
     && negb (existsb (fun l => al_class_id l =? cp_ref) (ba_extra_locations (lb_arm b)))
  then Some {| lt_bp_id := sp_id sp; lt_line := rw_line w; lt_method := rw_method w; lt_arm := lb_arm b; lt_filters := stop_filters sp |}
  else None.

Definition with_later (f : LaterCopies -> LaterCopies) (r : RearmState) : RearmState :=
  match r with
  | RWatching w => RWatching {| rw_request_id := rw_request_id w; rw_signature := rw_signature w; rw_later := f (rw_later w);
                                rw_line := rw_line w; rw_method := rw_method w |}
  | r => r
  end.

Definition on_line (f : LineBreakpoint -> LineBreakpoint) : ArmedOn -> ArmedOn :=
  fun armed_on => match armed_on with OnLine b => OnLine (f b) | armed_on => armed_on end.

Definition missed (why : string) (b : LineBreakpoint) : LineBreakpoint := {|
  lb_class_pattern := lb_class_pattern b; lb_line := lb_line b; lb_method := lb_method b; lb_arm_line := lb_arm_line b;
  lb_arm_method := lb_arm_method b; lb_drift := lb_drift b; lb_loaders := lb_loaders b; lb_arm := lb_arm b;
  lb_rearm := with_later (fun l => {| lc_copies := lc_copies l; lc_lines := lc_lines l; lc_misses := wrap_u 64 (lc_misses l + 1);
    lc_miss := union (lc_miss l) (Some why) |}) (lb_rearm b)
|}.

Definition note_later_copy_miss (bp_id why : string) : H unit :=
  on_state (with_stop_points (alter (stop_with id id id id id id (on_line (missed why))) bp_id)).

Record LaterCopyArmed : Type := {
  lca_class_id : Z;
  lca_arm : BreakpointArm;
  lca_line : Z;
  lca_loaders : list string;
  lca_drift : DriftCheck;
}.

(** [i32::try_from(info.line).unwrap_or(0)]. *)
Definition line_as_i32 (line : Z) : Z := if in_s_dec 32 line then line else 0.

Definition covers (armed : LaterCopyArmed) (b : LineBreakpoint) : LineBreakpoint := {|
  lb_class_pattern := lb_class_pattern b; lb_line := lb_line b; lb_method := lb_method b; lb_arm_line := lb_arm_line b;
  lb_arm_method := lb_arm_method b; lb_drift := worse_drift (lb_drift b) (lca_drift armed); lb_loaders := lca_loaders armed;
  lb_arm := with_extra (ba_extra_locations (lb_arm b) ++
    {| al_class_id := lca_class_id armed; al_method_id := ba_method_id (lca_arm armed);
       al_bytecode_index := ba_bytecode_index (lca_arm armed) |} :: ba_extra_locations (lca_arm armed)) (lb_arm b);
  lb_rearm := with_later (fun l => {| lc_copies := wrap_u 64 (lc_copies l + 1);
    lc_lines := if negb (lca_line armed =? line_as_i32 (lb_line b)) && negb (bool_decide (lca_line armed ∈ lc_lines l))
                then lc_lines l ++ [lca_line armed] else lc_lines l;
    lc_misses := lc_misses l; lc_miss := lc_miss l |}) (lb_rearm b)
|}.

Definition record_later_copy (bp_id : string) (request_ids : list Z) (armed : LaterCopyArmed) : H unit :=
  on_state (with_stop_points (alter (stop_with (fun l => l ++ request_ids) id id id id id (on_line (covers armed))) bp_id)).

(** The classes of a stop point and of a new copy, each once, in order of appearance. *)
Fixpoint first_seen (seen : gset Z) (l : list Z) : list Z :=
  match l with
  | [] => []
  | x :: l => if bool_decide (x ∈ seen) then first_seen seen l else x :: first_seen ({[x]} ∪ seen) l
  end.

Definition arm_later_copy (cp_ref : Z) (cp_sig : string) (target : LaterCopyTarget) : H unit :=
  let arm := lt_arm target in
  loc ← conn (resolve_bp_location cp_ref (lt_line target) (lt_method target));
  match loc with
  | Err e => note_later_copy_miss (lt_bp_id target) (show_location_error e)
  | Ok loc =>
    let method := rl_method loc in
    let fresh := deferred_arm cp_ref (mi_method_id method) (rl_code_index loc) (rl_extra_code_indices loc) (ba_suspend_policy arm) in
    primary ← conn (set_breakpoint_ex cp_ref (mi_method_id method) (rl_code_index loc) (ba_suspend_policy arm) (lt_filters target));
    match primary with
    | Err e => note_later_copy_miss (lt_bp_id target) (display_error e)
    | Ok primary =>
      extra ← arm_extra_line_locations fresh (lt_filters target);
      let fresh := with_extra (el_armed extra) fresh in
      let class_ids := first_seen ∅ (ba_class_id arm :: map al_class_id (ba_extra_locations arm) ++
                         cp_ref :: map al_class_id (ba_extra_locations fresh)) in
      loaders ← conn (describe_class_loaders class_ids);
      s ← session;
      let drift := drift_check_for_armed_method (ds_class_roots s) (decode_signature cp_sig) method (rl_lines loc) in
      record_later_copy (lt_bp_id target) (primary :: el_request_ids extra)
        {| lca_class_id := cp_ref; lca_arm := fresh; lca_line := rl_line loc; lca_loaders := loaders; lca_drift := drift |}
    end
  end.

Definition rearm_later_copies (cp_ref : Z) (cp_sig : string) : H unit :=
  s ← session;
  for_each (omap (fun e => later_copy_target cp_ref cp_sig (snd e)) (iter (ss_stop_points (ds_state s)))) (arm_later_copy cp_ref cp_sig).

(** ** The event *)

Definition try_arm_deferred_breakpoints (es : EventSet) : H bool :=
  match first_prepared es with
  | None => mret false
  | Some (cp_thread, cp_ref, cp_sig) =>
    s ← session;
    _ ← for_each (base.filter (fun p => pb_signature p = cp_sig) (ss_pending_breakpoints (ds_state s))) (arm_pending cp_ref);
    _ ← arm_pattern_set_members cp_ref cp_sig;
    _ ← rearm_later_copies cp_ref cp_sig;
    _ ← conn (resume_thread cp_thread);
    mret true
  end.

(** ** The pump *)

Section Pump.
Context `{CL : Clock} `{I : Inspection}.
Context {ClockOrder : IterOrder MonitorPairKey Z} {ThrowOrder : IterOrder ThrowKey RethrowChain}.

(** One round of the loop: a received set goes to the first of the three that takes it. *)
Definition pump_step (es : EventSet) : H unit :=
  armed ← try_arm_deferred_breakpoints es;
  if armed : bool then mret tt else
  traced ← try_record_trace es;
  if traced : bool then mret tt else store_reportable_event es.

(** The sets of a connection, in the order they are received, until it closes. *)
Definition pump (received : list EventSet) : H unit := for_each received pump_step.
End Pump.
End ClassLoads.
