(* ===== verification/Ledger.v ===== *)
(** * The ledger of event requests

    What a log says about the event requests of the debuggee: those it granted that no packet has asked
    it to clear ([outstanding]); who of a session owns a request ([owned]); and what the calls of the
    client do to the ledger. Nothing is assumed of the debuggee. *)

From S2P Require Import Prelude Protocol Types Reader Events Connection Client EventRequest StopPoint.
From S2P Require Import EventRing MonitorClock Suspensions Traces Session Manager Api Generics Text Expr Condition Host EventPump Steering.
From S2P Require Import Honest Locate Drift Arming Rearm ClassLoads.

(** ** Outstanding requests *)

(** A request is known by its event kind and its id. *)
Abbreviation Request := (Z * Z)%type.

Definition event_packet (command : Z) (p : CommandPacket) : bool :=
  (cp_command_set p =? command_sets.EVENT_REQUEST) && (cp_command p =? command).
Definition concerns_requests (p : CommandPacket) : bool := cp_command_set p =? command_sets.EVENT_REQUEST.

(** A packet that neither steers nor concerns requests. *)
Class MakesIdle (p : St CommandPacket) : Prop := {
  mi_steady : MakesSteady p;
  mi_idle w : concerns_requests (fst (p w)) = false;
}.
#[export] Hint Extern 0 (MakesIdle _) => (intros; open_request; split; [intros ?; reflexivity|reflexivity]) : typeclass_instances.

Section Ledger.
Context `{BC : BytesCrate}.

(** The request an answer to [Set] grants. *)
Definition granted (p : CommandPacket) (r : JdwpResult ReplyPacket) : option Request :=
  if event_packet event_commands.SET p then
    match r, cp_data p with
    | Ok reply, k :: _ => match decode_with read_i32 reply with Ok req => Some (k, req) | Err _ => None end
    | _, _ => None
    end
  else None.

(** Does a packet ask to clear a request? *)
Definition asks_to_clear (p : CommandPacket) (r : Request) : bool :=
  (event_packet event_commands.CLEAR p && bool_decide (cp_data p = put_be 1 (fst r) ++ put_be 4 (snd r)))
  || (event_packet event_commands.CLEAR_ALL_BREAKPOINTS p && (fst r =? event_kinds.BREAKPOINT)).

Definition ledger_step (l : list Request) (e : WireEvent) : list Request :=
  match e with
  | Issued p => base.filter (fun r => asks_to_clear p r = false) l
  | Answered p r => l ++ option_list (granted p r)
  | _ => l
  end.
Definition outstanding (w : World) : list Request := foldl ledger_step [] (w_log w).

(** ** Calls that leave the ledger alone *)

Definition idle (w w' : World) : Prop := steady w w' /\ outstanding w' = outstanding w.

#[global] Instance idle_preorder : PreOrder idle.
Proof. split; [by intros w|]. intros w1 w2 w3 [S1 O1] [S2 O2]. split; [by transitivity w2|congruence]. Qed.

Lemma asks_nothing p r : concerns_requests p = false -> asks_to_clear p r = false.
Proof. unfold concerns_requests, asks_to_clear, event_packet. by intros ->. Qed.
Lemma grants_nothing p r : concerns_requests p = false -> granted p r = None.
Proof. unfold concerns_requests, granted, event_packet. by intros ->. Qed.

Lemma filter_id {A} (P : A -> Prop) `{forall x, Decision (P x)} (l : list A) : (forall x, x ∈ l -> P x) -> base.filter P l = l.
Proof.
  induction l as [|x l IH]; intros Hl; [done|]. rewrite filter_cons_True by (apply Hl; by left).
  f_equal. apply IH. intros y Hy. apply Hl. by right.
Qed.

Lemma ledger_other l e : (forall p, e = Issued p \/ (exists r, e = Answered p r) -> concerns_requests p = false) -> ledger_step l e = l.
Proof.
  intros He. destruct e as [p|p er|p r|p|p]; try done; simpl.
  - apply filter_id. intros r _. apply asks_nothing, He. by left.
  - rewrite grants_nothing by (apply He; eauto). simpl. by rewrite app_nil_r.
Qed.

#[global] Instance Idle_with_types f : Respects idle (modify (with_types f)).
Proof. intros w. split; [apply Steady_with_types|done]. Qed.

Context `{D : Debuggee}.

(** What an exchange adds to the log. *)
Lemma exchange_log (set command : Z) (body : bytes) w :
  let p := with_data (new_command (w_next_id w) set command) body in
  exists new, w_log (snd (exchange (request set command body) w)) = w_log w ++ new /\
    ((exists e, new = [Refused p e] /\ fst (exchange (request set command body) w) = Err e) \/
     (exists r, new = [Issued p; Answered p r] /\ fst (exchange (request set command body) w) = r)).
Proof.
  cbv zeta. unfold exchange, send_command, request, mbind, m_bind, st_bind, lift, next_id, modify, issue_packet, await_reply, mret, st_ret.
  simpl. destruct (issue_outcome (w_log w) _) as [e|]; simpl; [eexists; split; [done|]; left; by eexists|].
  eexists. rewrite <- (assoc_L (++)). split; [done|]. right. by eexists.
Qed.

(** A packet of another command set leaves the ledger as it is. *)
Lemma exchange_ledger set command body w :
  (set =? command_sets.EVENT_REQUEST) = false -> outstanding (snd (exchange (request set command body) w)) = outstanding w.
Proof.
  intros Hs. destruct (exchange_log set command body w) as (new & HL & Hnew). unfold outstanding. rewrite HL, foldl_app.
  destruct Hnew as [(e & -> & _)|(r & -> & _)]; cbn [foldl]; [done|].
  rewrite !ledger_other; [done|..]; intros p [[= <-]|[? [= <-]]]; exact Hs.
Qed.

#[global] Instance Idle_exchange packet : MakesPacket packet -> MakesIdle packet -> Respects idle (exchange packet).
Proof.
  intros Hp [Hs Hi] w. split; [by apply Steady_exchange|]. destruct Hp as (set & command & body & ->). apply exchange_ledger, (Hi w).
Qed.

Lemma resume_thread_ledger t w : outstanding (snd (resume_thread t w)) = outstanding w.
Proof.
  unfold resume_thread, mbind, m_bind.
  pose proof (exchange_ledger command_sets.THREAD_REFERENCE thread_commands.RESUME (put_be 8 t) w eq_refl) as E.
  destruct (exchange _ w) as [r w']. by destruct r.
Qed.

#[global] Instance Idle_methods t b : Respects idle (read_methods t b).
Proof. unfold read_methods. destruct b; apply _. Qed.
#[global] Instance Idle_get_methods t : Respects idle (get_methods t).
Proof. unfold get_methods. apply Respects_bind; try apply _. intros types. case_match; apply _. Qed.
#[global] Instance Idle_line_table t m : Respects idle (get_line_table t m).
Proof. unfold get_line_table. apply _. Qed.
#[global] Instance Idle_class_loader t : Respects idle (get_class_loader t).
Proof. unfold get_class_loader. apply _. Qed.
#[global] Instance Idle_reference_type o : Respects idle (get_object_reference_type o).
Proof. unfold get_object_reference_type. apply _. Qed.
#[global] Instance Idle_signature t : Respects idle (get_signature t).
Proof. unfold get_signature. apply Respects_bind; try apply _. intros types. case_match; apply _. Qed.
#[global] Instance Idle_by_signature s : Respects idle (classes_by_signature s).
Proof. unfold classes_by_signature. apply _. Qed.

#[global] Instance Idle_choose c line hint methods : Respects idle (choose_method c line hint methods).
Proof.
  induction methods as [|m methods IH]; cbn [choose_method]; [apply _|]. apply Respects_if; [done|].
  apply Respects_st_bind; try apply _. intros [lt|]; [|done]. destruct (locations_in_method lt line hint) as [[[? ?] ?]|]; [apply _|done].
Qed.
#[global] Instance Idle_resolve c line hint : Respects idle (resolve_bp_location c line hint).
Proof. unfold resolve_bp_location. apply Respects_st_bind; try apply _. intros []; apply _. Qed.
#[global] Instance Idle_loader_label c : Respects idle (loader_label c).
Proof.
  unfold loader_label. apply Respects_st_bind; try apply _. intros [[loader|]|e]; try apply _.
  apply Respects_st_bind; try apply _. intros lt. apply Respects_st_bind; try apply _. destruct lt; apply _.
Qed.
#[global] Instance Idle_loaders ids : Respects idle (describe_class_loaders ids).
Proof.
  unfold describe_class_loaders. generalize 0. induction ids as [|c ids IH]; intros i; cbn [describe_loaders_from]; [apply _|].
  apply Respects_st_bind; apply _.
Qed.

(** ** Setting and clearing *)

(** A [Set] grants one request of the body's kind, or none. *)
Lemma set_request_ledger k body w :
  let '(r, w') := set_request (k :: body) w in
  steady w w' /\ outstanding w' = outstanding w ++ option_list ((fun req => (k, req)) <$> ok_of r).
Proof.
  assert (W : Respects steady (set_request (k :: body))) by (unfold set_request; apply _). specialize (W w). revert W.
  unfold set_request. unfold mbind, m_bind.
  destruct (exchange_log command_sets.EVENT_REQUEST event_commands.SET (k :: body) w) as (new & HL & Hnew).
  destruct (exchange _ w) as [reply w'] eqn:E. cbn [fst snd] in *. intros W.
  assert (HO : outstanding w' = foldl ledger_step (outstanding w) new) by (unfold outstanding; by rewrite HL, foldl_app).
  destruct Hnew as [(e & -> & ->)|(r & -> & ->)]; cbn [snd] in W.
  { split; [exact W|]. rewrite HO. simpl. by rewrite app_nil_r. }
  cbn [foldl ledger_step] in HO. rewrite filter_id in HO by done. cbv beta iota.
  destruct r as [reply|e]; unfold of_result in *; cbn [snd] in W; (split; [exact W|]); rewrite HO; f_equal.
  unfold granted. simpl. by destruct (decode_with read_i32 reply).
Qed.

(** A [Clear] gives up its request at most, and certainly when it is acknowledged. *)
Lemma clear_request_ledger k req w :
  let '(r, w') := clear_request k req w in
  steady w w' /\ (forall x, x ∈ outstanding w' -> x ∈ outstanding w) /\
  (is_ok r = true -> (k, req) ∉ outstanding w').
Proof.
  pose proof (Steady_clear k req w) as W. revert W. unfold clear_request. unfold mbind, m_bind.
  destruct (exchange_log command_sets.EVENT_REQUEST event_commands.CLEAR (put_be 1 k ++ put_be 4 req) w) as (new & HL & Hnew).
  destruct (exchange _ w) as [reply w'] eqn:E. cbn [fst snd] in *. intros W.
  assert (HO : outstanding w' = foldl ledger_step (outstanding w) new) by (unfold outstanding; by rewrite HL, foldl_app).
  destruct Hnew as [(e & -> & ->)|(r & -> & ->)]; cbn [snd] in W.
  { simpl in HO. rewrite HO. split_and!; done. }
  cbn [foldl ledger_step] in HO. replace (granted _ r) with (@None Request) in HO by done. simpl in HO. rewrite app_nil_r in HO.
  assert (Hin : forall x, x ∈ outstanding w' <-> put_be 1 k ++ put_be 4 req <> put_be 1 (fst x) ++ put_be 4 (snd x) /\ x ∈ outstanding w).
  { intros x. rewrite HO, list_elem_of_filter. unfold asks_to_clear. simpl. rewrite orb_false_r, bool_decide_eq_false. done. }
  destruct r as [reply|e]; unfold of_result; cbn [snd] in W; (split; [exact W|]); split_and!.
  all: try (intros x [_ Hx]%Hin; exact Hx).
  all: intros Hok; by intros [K _]%Hin.
Qed.

(** ** Owners *)

Definition wire_kind (a : ArmedOn) : Z :=
  match a with
  | OnLine _ => event_kinds.BREAKPOINT
  | OnException _ => event_kinds.EXCEPTION
  | OnWatchpoint w => watch_event_kind (wp_kind w)
  | OnMethodExit m => method_exit_kind (mx_with_return_value m)
  | OnMonitor m => monitor_event_kind (mo_kind m)
  end.

(** A stop point owns what it is armed with and the watch it keeps for later copies. *)
Definition stop_owns (sp : StopPoint) (r : Request) : Prop :=
  (fst r = wire_kind (sp_armed_on sp) /\ snd r ∈ sp_request_ids sp) \/
  (fst r = event_kinds.CLASS_PREPARE /\ rearm_request sp = Some (snd r)).

(** A session owns a request through a stop point, a deferred one, a family or the step under way. *)
Definition owned (s : DebugSession) (r : Request) : Prop :=
  (exists id sp, ss_stop_points (ds_state s) !! id = Some sp /\ stop_owns sp r) \/
  (fst r = event_kinds.CLASS_PREPARE /\
     ((exists p, p ∈ ss_pending_breakpoints (ds_state s) /\ pb_class_prepare_request_id p = snd r) \/
      (exists id set, ds_pattern_sets s !! id = Some set /\ watch_request_id (ps_watch set) = Some (snd r)))) \/
  (fst r = event_kinds.SINGLE_STEP /\ exists t, ds_pending_step s = Some (snd r, t)).
End Ledger.
