(* ===== verification/ControlBalance.v ===== *)
(** * The books balance

    [debug.panic] leaves nothing of the session armed and nothing held; and through the sequences of the
    tools that stop and resume which resume only what the session holds, the counts of the debuggee are
    what the session's record says. *)

From S2P Require Import Prelude Protocol Types Reader Events Connection Client EventRequest StopPoint.
From S2P Require Import EventRing MonitorClock Suspensions Traces Session Manager Api Text Expr Condition Host EventPump Steering.
From S2P Require Import PumpFacts TracedHits Watchdog Honest WatchdogFacts Control ControlFacts Ledger.

(** ** What is cleared on the wire *)

Abbreviation wire := (fun h => ds_connection (h_session h)).

Section Sweeping.
Context `{BC : BytesCrate}.

Definition grants_no (e : WireEvent) : bool := match e with Answered p _ => negb (event_packet event_commands.SET p) | _ => true end.
(** Nothing is armed from [w] to [w'], and the debuggee took a packet that clears each request of [P]. *)
Definition cleared (P : Request -> Prop) (w w' : World) : Prop := exists new,
  w_log w' = w_log w ++ new /\ Forall (fun e => grants_no e = true) new /\ forall r, P r -> exists p, Issued p ∈ new /\ asks_to_clear p r = true.
Definition hushed : relation World := cleared (fun _ => False).

Lemma ledger_quiet new l r : Forall (fun e => grants_no e = true) new -> r ∈ foldl ledger_step l new ->
  r ∈ l /\ forall p, Issued p ∈ new -> asks_to_clear p r = false.
Proof.
  intros HF. revert l. induction HF as [|e new He _ IH]; intros l; cbn [foldl]; [intros Hr; split; [done|by intros p ?%elem_of_nil]|].
  intros Hr. destruct (IH _ Hr) as [Hin Hp]. assert (r ∈ l /\ forall p, e = Issued p -> asks_to_clear p r = false) as [Hl He'].
  { destruct e as [p|p er|p rr|p|p]; simpl in Hin; try done.
    - apply list_elem_of_filter in Hin as [Ha Hl]. split; [done|]. by intros p' [= <-].
    - unfold granted in Hin. simpl in He. destruct (event_packet event_commands.SET p); [done|]. simpl in Hin. by rewrite app_nil_r in Hin. }
  split; [done|]. intros p [<-|Hn]%elem_of_cons; [by apply He'|by apply Hp].
Qed.
Lemma cleared_gone P w w' r : cleared P w w' -> r ∈ outstanding w' -> r ∈ outstanding w /\ ~ P r.
Proof.
  intros (new & L & HF & HP) Hr. unfold outstanding in Hr. rewrite L, foldl_app in Hr. destruct (ledger_quiet _ _ _ HF Hr) as [Hin Hn].
  split; [exact Hin|]. intros [p [Hp Ha]]%HP. by rewrite (Hn p Hp) in Ha.
Qed.
Lemma cleared_both P Q w1 w2 w3 : cleared P w1 w2 -> cleared Q w2 w3 -> cleared (fun r => P r \/ Q r) w1 w3.
Proof.
  intros (n1 & L1 & F1 & P1) (n2 & L2 & F2 & P2). exists (n1 ++ n2). rewrite L2, L1, <- (assoc_L (++)). split; [done|].
  split; [by apply list.Forall_app|]. intros r [Hr|Hr]; [destruct (P1 r Hr) as (p & Hp & Ha)|destruct (P2 r Hr) as (p & Hp & Ha)];
    exists p; (split; [apply elem_of_app|done]); auto.
Qed.
Lemma cleared_only (P Q : Request -> Prop) w w' : (forall r, Q r -> P r) -> cleared P w w' -> cleared Q w w'.
Proof. intros HQ (new & L & F & HP). exists new. split_and!; [done..|]. intros r Hr. by apply HP, HQ. Qed.
#[global] Instance hushed_preorder : PreOrder hushed.
Proof.
  split; [intros w; exists []; rewrite app_nil_r; split_and!; [done|constructor|done]|].
  intros w1 w2 w3 H1 H2. eapply cleared_only; [|by eapply cleared_both]. done.
Qed.

Context `{D : Debuggee} (c0 : Z -> Z) (HD : honest c0).

(** An honest debuggee takes every packet. *)
Lemma exchange_taken set command body w : exists p r, w_log (snd (exchange (request set command body) w)) = w_log w ++ [Issued p; Answered p r] /\
  cp_command_set p = set /\ cp_command p = command /\ cp_data p = body.
Proof.
  destruct (exchange_log set command body w) as (new & L & [(e & -> & E)|(r & -> & E)]); [|eexists _, r; split; [exact L|done]].
  exfalso. revert L. unfold exchange, send_command, request, mbind, m_bind, st_bind, lift, next_id, modify, issue_packet, await_reply, mret, st_ret.
  simpl. rewrite (ho_taken _ HD). simpl. rewrite <- (assoc_L (++)). intros [=]%app_inv_head.
Qed.
Lemma exchange_hushed set command body : (set =? command_sets.EVENT_REQUEST) = false -> Respects hushed (exchange (request set command body)).
Proof.
  intros Hs w. destruct (exchange_taken set command body w) as (p & r & L & Ep & _). exists [Issued p; Answered p r]. split; [done|].
  split; [repeat constructor; simpl; unfold event_packet; by rewrite Ep, Hs|done].
Qed.
Lemma acknowledged_log reply w : w_log (snd ((of_result (acknowledge reply) : M unit) w)) = w_log w.
Proof. unfold of_result. by destruct (acknowledge reply). Qed.
Lemma clear_clears k req w : cleared (fun r => r = (k, req)) w (snd (clear_request k req w)).
Proof.
  destruct (exchange_taken command_sets.EVENT_REQUEST event_commands.CLEAR (put_be 1 k ++ put_be 4 req) w) as (p & r & L & Es & Ec & Ed).
  exists [Issued p; Answered p r]. split_and!.
  - unfold clear_request, mbind, m_bind. destruct (exchange _ w) as [[reply|e] w']; [by rewrite acknowledged_log|done].
  - repeat constructor. simpl. unfold event_packet. by rewrite Es, Ec.
  - intros x ->. exists p. split; [by left|]. unfold asks_to_clear, event_packet. rewrite Es, Ec, Ed. simpl. by rewrite bool_decide_true.
Qed.
Lemma clear_all_clears w : cleared (fun r => fst r = event_kinds.BREAKPOINT) w (snd (clear_all_breakpoints w)).
Proof.
  destruct (exchange_taken command_sets.EVENT_REQUEST event_commands.CLEAR_ALL_BREAKPOINTS [] w) as (p & r & L & Es & Ec & Ed).
  exists [Issued p; Answered p r]. split_and!.
  - unfold clear_all_breakpoints, mbind, m_bind. destruct (exchange _ w) as [[reply|e] w']; [by rewrite acknowledged_log|done].
  - repeat constructor. simpl. unfold event_packet. by rewrite Es, Ec.
  - intros [k req] Hk. simpl in Hk. exists p. split; [by left|]. unfold asks_to_clear, event_packet. rewrite Es, Ec, Hk. done.
Qed.
(** The first request of a stop point, at least: the requests behind it are tried only when it is acknowledged. *)
Lemma clear_first a reqs w : cleared (fun r => fst r = wire_kind a /\ head reqs = Some (snd r)) w (snd (clear_requests_of a reqs w)).
Proof.
  assert (forall l w, hushed w (snd (clear_requests_of a l w))) as Hush.
  { assert (forall req, Respects hushed (clear_request_of a req)) by
      (intros req w'; destruct a; (eapply cleared_only; [|apply clear_clears]; done)).
    intros l. change (Respects hushed (clear_requests_of a l)). induction l as [|req l IH]; cbn [clear_requests_of]; apply _. }
  destruct reqs as [|req reqs]; [eapply cleared_only; [|apply (Hush [])]; by intros r []|]. cbn [clear_requests_of head].
  assert (K : clear_request_of a req = clear_request (wire_kind a) req) by by destruct a. rewrite K. unfold mbind, m_bind.
  pose proof (clear_clears (wire_kind a) req w) as H1. destruct (clear_request _ req w) as [[u|e] w1]; simpl in *.
  - eapply cleared_only; [|eapply cleared_both; [exact H1|apply Hush]]. intros [k r] [Hk [= ->]]. left. simpl in Hk. by rewrite Hk.
  - eapply cleared_only; [|exact H1]. intros [k r] [Hk [= ->]]. simpl in Hk. by rewrite Hk.
Qed.

(** Of a host the connection alone is touched, and on it the requests of [P] are cleared. *)
Definition swept (P : Request -> Prop) (h h' : Host) : Prop :=
  cleared P (wire h) (wire h') /\ h_session h' = with_connection (wire h') (h_session h).
Lemma swept_both P Q h1 h2 h3 : swept P h1 h2 -> swept Q h2 h3 -> swept (fun r => P r \/ Q r) h1 h3.
Proof. intros [C1 S1] [C2 S2]. split; [by eapply cleared_both|]. rewrite S2, S1 at 1. by rewrite S1. Qed.
Lemma swept_conn {A} (m : World -> A * World) P h : (forall w, cleared P w (snd (m w))) -> wp (conn m) (fun _ => swept P h) h.
Proof. intros Hm. unfold wp, conn. specialize (Hm (wire h)). destruct (m _) as [a w]. by split. Qed.
Lemma swept_each {A} (l : list A) (f : A -> H unit) (P : A -> Request -> Prop) h : (forall a h, wp (f a) (fun _ => swept (P a) h) h) ->
  wp (for_each l f) (fun _ => swept (fun r => exists a, a ∈ l /\ P a r) h) h.
Proof.
  intros Hf. revert h. induction l as [|a l IH]; intros h; cbn [for_each].
  - apply wp_ret. split; [eapply cleared_only; [|apply hushed_preorder]; by intros r (a & ?%elem_of_nil & _)|by destruct h as [[] ? ?]].
  - apply wp_bind. eapply wp_mono; [apply Hf|]. cbn beta. intros _ h1 S1. eapply wp_mono; [apply IH|]. cbn beta. intros _ h2 S2.
    destruct (swept_both _ _ _ _ _ S1 S2) as [C S]. split; [|done]. eapply cleared_only; [|exact C].
    intros r (b & [->|Hb]%elem_of_cons & Hr); [by left|right; by exists b].
Qed.
Lemma swept_prepare req h : wp (drop_class_prepare req) (fun _ => swept (fun r => r = (event_kinds.CLASS_PREPARE, req)) h) h.
Proof.
  unfold drop_class_prepare. apply wp_bind. eapply wp_mono; [apply swept_conn; intros w; apply clear_clears|]. intros a h' S. by apply wp_ret.
Qed.
End Sweeping.

Section Panic.
Context `{BC : BytesCrate} `{D : Debuggee} `{CL : Clock}.
Context {StopOrder : IterOrder string StopPoint} {SetOrder : IterOrder string PatternStopSet}.
Context (c0 : Z -> Z) (HD : honest c0).

Abbreviation host_depth := (host_depth c0).
Abbreviation bounded := (bounded c0).
Abbreviation resumes_issued := (resumes_issued c0).
Abbreviation resume_report := (resume_report c0).

(** What disarming everything leaves of the bookkeeping. *)
Definition armed_view (h : Host) := (
  ss_stop_points (ds_state (h_session h)), ss_pending_breakpoints (ds_state (h_session h)),
  ss_disarmed_traced_requests (ds_state (h_session h)), ds_pattern_sets (h_session h), clock_pending (ds_monitor_clock (h_session h))).

(** The rest, which disarming does not touch. *)
Definition stopped_view (h : Host) :=
  (ds_pending_step (h_session h), ds_suspensions (h_session h), ds_last_thread (h_session h)).

#[global] Instance stopped_conn {A} (m : World -> A * World) : Keeps stopped_view (conn m).
Proof. intros h. unfold conn. by destruct (m _). Qed.
#[global] Instance armed_conn {A} (m : World -> A * World) : Keeps armed_view (conn m).
Proof. intros h. unfold conn. by destruct (m _). Qed.

Lemma disarm_everything_keeps {X} (view : Host -> X) :
  (forall f, Keeps view (on_state f)) -> (forall A (m : World -> A * World), Respects steady m -> Keeps view (conn m)) ->
  (forall A (f : DebugSession -> A * DebugSession), (forall s, ds_connection (snd (f s)) = ds_connection s /\
     ds_pending_step (snd (f s)) = ds_pending_step s /\ ds_suspensions (snd (f s)) = ds_suspensions s /\
     ds_last_thread (snd (f s)) = ds_last_thread s) -> Keeps view (of_session f)) ->
  Keeps view (on_session (with_monitor_clock clock_clear)) -> Keeps view disarm_everything.
Proof.
  intros Hs Hc Ho Hm.
  assert (Hd : forall r, Keeps view (drop_class_prepare r)).
  { intros r. apply Keeps_bind; [apply Hc, Steady_clear|]. intros ?. apply Keeps_ret. }
  unfold disarm_everything, note_every_traced_request_in_flight, clear_standing_rearm_watches.
  repeat first [apply Keeps_bind; [|intros ?] | apply Keeps_session | apply Keeps_for_each; intros ? | apply Hd | apply Hs | exact Hm |
    apply Hc; apply _ | apply Keeps_ret | apply Ho; intros ?; by split_and!].
Qed.

#[global] Instance depth_disarm_everything t : Keeps (fun h => host_depth t h) disarm_everything.
Proof.
  apply disarm_everything_keeps.
  - intros f. by apply depth_on_session.
  - intros A m Hm. by apply depth_conn.
  - intros A f Hf. apply depth_of_session. intros s. by destruct (Hf s).
  - by apply depth_on_session.
Qed.
#[global] Instance stopped_disarm_everything : Keeps stopped_view disarm_everything.
Proof.
  apply disarm_everything_keeps; try done; try apply _.
  intros A f Hf h. unfold of_session, stopped_view. specialize (Hf (h_session h)). destruct (f _) as [a s].
  simpl in *. destruct Hf as (_ & E1 & E2 & E3). congruence.
Qed.

Lemma for_each_armed {A} (l : list A) (f : A -> H unit) h :
  (forall a, Keeps armed_view (f a)) -> wp (for_each l f) (fun _ h' => armed_view h' = armed_view h) h.
Proof. intros Hf. apply (Keeps_wp armed_view). apply _. Qed.

Lemma disarm_everything_exact h :
  wp disarm_everything (fun _ h' => armed_view h' = (∅, [],
    ss_disarmed_traced_requests (note_all (traced_requests (ds_state (h_session h))) (ds_state (h_session h))), ∅, ∅)) h.
Proof.
  unfold disarm_everything, note_every_traced_request_in_flight, clear_standing_rearm_watches.
  apply wp_bind, wp_bind. unfold wp at 1, session. unfold wp at 1, on_state, on_session. set (h1 := {| h_session := _ |}).
  apply wp_bind. eapply wp_mono; [apply (Keeps_wp armed_view), _|]. intros ? h2 E2. injection E2 as S2 P2 Q2 M2 C2.
  apply wp_bind, wp_bind. unfold wp at 1, session.
  eapply wp_mono; [apply for_each_armed; intros; apply _|]. intros ? h3 E3. injection E3 as S3 P3 Q3 M3 C3.
  apply wp_bind. unfold wp at 1, of_session. set (h4 := {| h_session := _ |}).
  apply wp_bind. eapply wp_mono; [apply for_each_armed; intros; apply _|]. intros ? h5 E5. injection E5 as S5 P5 Q5 M5 C5.
  apply wp_bind. unfold wp at 1, of_session. set (h6 := {| h_session := _ |}).
  apply wp_bind. eapply wp_mono; [apply for_each_armed; intros; apply _|]. intros ? h7 E7. injection E7 as S7 P7 Q7 M7 C7.
  apply wp_bind. unfold wp at 1, of_session. set (h8 := {| h_session := _ |}).
  apply wp_bind. eapply wp_mono; [apply for_each_armed; intros; apply _|]. intros ? h9 E9. injection E9 as S9 P9 Q9 M9 C9.
  unfold wp, on_session, armed_view. simpl. rewrite S9, P9, Q9, M9. simpl. rewrite P7, Q7, M7. simpl. rewrite P5, Q5. simpl.
  by rewrite Q3, Q2.
Qed.

(** Releasing what is held: a thread suspended at most eight times is given back and forgotten. *)
Lemma release_all_frees h :
  host_ok c0 h ->
  wp (release_thread_suspends None) (fun _ h' => host_ok c0 h' /\ (forall t, host_depth t h' <= host_depth t h) /\
    (forall t, is_Some (held_view h !! t) -> host_depth t h <= MAX_RESUME_ATTEMPTS -> held_view h' !! t = None /\ host_depth t h' = 0) /\
    (forall t, held_view h' !! t = None \/ held_view h' !! t = held_view h !! t)) h.
Proof.
  intros Hok. unfold release_thread_suspends. apply wp_bind. unfold wp at 1, session. set (held := map _ _).
  assert (Hids : forall t, is_Some (held_view h !! t) -> t ∈ map fst held).
  { intros t [r Hr]. apply list_elem_of_fmap. exists (t, ts_name r). split; [done|].
    apply list_elem_of_fmap. exists (t, r). split; [done|]. apply list_elem_of_filter. split; [done|]. by apply elem_of_btree_iter. }
  eapply wp_mono; [by apply (release_each_frees c0 HD)|]. intros ? h' [E V N]. split_and!.
  - by apply (ea_ok _ _ E).
  - intros t. by apply (ea_depth _ _ E).
  - intros t Ht Hd. destruct (N t) as [K|[_ K]]; [exact K|]. specialize (K (Hids t Ht)). lia.
  - intros t. destruct (N t) as [[K _]|[K _]]; auto.
Qed.

Definition braked (h : Host) (r : result string string) (h' : Host) : Prop :=
  (exists text, r = Ok text) /\
  armed_view h' = (∅, [], ss_disarmed_traced_requests (note_all (traced_requests (ds_state (h_session h))) (ds_state (h_session h))), ∅, ∅) /\
  ds_pending_step (h_session h') = None /\ su_vm (ds_suspensions (h_session h')) = None /\
  (forall t, 0 <= host_depth t h' <= Z.max 0 (host_depth t h - resumes_issued h)) /\
  (forall t, held_view h' !! t = None \/ held_view h' !! t = held_view h !! t) /\
  (forall t, is_Some (held_view h !! t) -> host_depth t h <= resumes_issued h + MAX_RESUME_ATTEMPTS ->
     held_view h' !! t = None /\ host_depth t h' = 0).

Lemma panic_braked k h : k < 2 ^ 31 -> bounded k h -> wp handle_panic (braked h) h.
Proof.
  intros Hk Hb.
  assert (Hd0 : forall t, host_depth t (snd (drop_pending_step h)) = host_depth t h) by (intros t; apply (depth_drop_step c0 t h)).
  pose proof (held_drop_step h) as V0. pose proof (drop_pending_step_clears h) as H0. unfold wp in H0.
  unfold handle_panic. destruct (drop_pending_step h) as [u h0] eqn:E0. eapply wp_step; [exact E0|]. clear E0.
  cbn [snd] in Hd0, V0. destruct H0 as (P0 & S0 & _ & L0).
  apply wp_bind. unfold wp at 1, session. cbn beta zeta.
  apply wp_bind. eapply wp_mono; [apply wp_and; [apply disarm_everything_exact|apply wp_and; [apply (Keeps_wp stopped_view), _|]]|].
  { apply (Keeps_all (fun t h => host_depth t h)). intros t. apply depth_disarm_everything. }
  cbn beta. intros _ h1 (A1 & Z1 & D1). injection Z1 as P1 U1 L1. rewrite S0 in A1.
  assert (D01 : forall t, host_depth t h1 = host_depth t h) by (intros t; by rewrite D1, Hd0).
  assert (Hb1 : bounded k h1) by by apply (bounded_keeps c0 k h).
  assert (Hn : resumes_issued h1 = resumes_issued h).
  { unfold ControlFacts.resumes_issued. rewrite L1, L0. destruct (ds_last_thread (h_session h)); rewrite ?D01; reflexivity. }
  assert (V1 : held_view h1 = held_view h) by (unfold held_view in *; congruence).
  unfold h_try. apply wp_bind. apply (resume_and_verify_exact c0 HD k); [done|done|]. intros h2 D2 V2 R2.
  cbn beta iota. eapply wp_step; [reflexivity|]. set (h3 := {| h_session := _ |}).
  assert (D3 : forall t, host_depth t h3 = Z.max 0 (host_depth t h - resumes_issued h)).
  { intros t. transitivity (host_depth t h2); [done|]. by rewrite D2, D01, Hn. }
  assert (A3 : armed_view h3 = armed_view h1).
  { injection R2 as S2 _ M2 C2 _ _. change (armed_view h3) with (armed_view h2). unfold armed_view. by rewrite S2, M2, C2. }
  assert (Hok3 : host_ok c0 h3).
  { split.
    - assert (ss_stop_points (ds_state (h_session h3)) = ∅) as E by (rewrite A1 in A3; by injection A3).
      split; rewrite E; intros *; by rewrite lookup_empty.
    - apply (bounded_counts c0 k); [done|]. intros t. rewrite D3. specialize (Hb t). pose proof (resumes_issued_range c0 h). lia. }
  apply wp_bind. eapply wp_mono; [apply wp_and; [by apply release_all_frees|apply (Keeps_wp rest_view), _]|]. cbn beta.
  intros [freed stuck] h4 [(Hok4 & D4 & F4 & V4) R4]. cbn beta iota. apply wp_bind. unfold wp at 1, session.
  apply wp_bind. eapply wp_mono; [apply wp_and; [apply (Keeps_wp rest_view), _|apply wp_and; [apply (Keeps_wp held_view), _|]]|].
  { apply (Keeps_all (fun t h => host_depth t h)). intros t. apply depth_describe. }
  cbn beta. intros residue h5 (R5 & V5 & D5). apply wp_ret.
  assert (R35 : rest_view h5 = rest_view h3) by congruence. clear R4 R5. injection R35 as S5 P5 M5 C5 U5 _.
  assert (V3 : held_view h3 = held_view h) by (change (held_view h3) with (held_view h2); congruence).
  unfold braked. split_and!; [by eexists| | | | | |].
  - rewrite <- A1, <- A3. unfold armed_view. by rewrite S5, M5, C5.
  - rewrite P5. change (ds_pending_step (h_session h3)) with (ds_pending_step (h_session h2)). injection R2 as _ P2 _ _ _ _. congruence.
  - rewrite U5. done.
  - intros t. rewrite D5. specialize (D4 t). rewrite D3 in D4. split; [by apply (depth_nonneg c0)|lia].
  - intros t. rewrite V5, <- V3. apply V4.
  - intros t Ht Hd. rewrite V5, D5. apply F4; [by rewrite V3|]. rewrite D3. unfold MAX_RESUME_ATTEMPTS in *. lia.
Qed.

(** ** What the debuggee is left with *)

(** A stop point that is not a line breakpoint has one request at most. *)
Definition single (s : DebugSession) : Prop := forall id sp, ss_stop_points (ds_state s) !! id = Some sp -> kind sp <> KLine ->
  (length (sp_request_ids sp) <= 1)%nat.

Lemma iter_lookup {A} `{IterOrder string A} (m : gmap string A) id a : m !! id = Some a -> (id, a) ∈ iter m.
Proof. intros Hl. rewrite iter_perm. by apply elem_of_map_to_list. Qed.

(** Disarming everything clears every breakpoint request, and what the session owns but for a step under way. *)
Lemma disarm_everything_clears h : single (h_session h) ->
  wp disarm_everything (fun _ h' => cleared (fun r => fst r = event_kinds.BREAKPOINT \/ owned (h_session h) r /\ fst r <> event_kinds.SINGLE_STEP) (wire h) (wire h')) h.
Proof.
  intros H1. unfold disarm_everything, note_every_traced_request_in_flight, clear_standing_rearm_watches.
  apply wp_bind. apply wp_bind. unfold wp at 1, session. unfold wp at 1, on_state, on_session. set (h0 := {| h_session := with_state _ _ |}).
  assert (E0 : ss_stop_points (ds_state (h_session h0)) = ss_stop_points (ds_state (h_session h)) /\
    ss_pending_breakpoints (ds_state (h_session h0)) = ss_pending_breakpoints (ds_state (h_session h))).
  { unfold h0. simpl. pose proof (note_all_queue (traced_requests (ds_state (h_session h))) (ds_state (h_session h))) as K. intuition. }
  destruct E0 as [Es Ep].
  apply wp_bind. eapply wp_mono; [apply swept_conn; intros w; apply (clear_all_clears c0 HD)|]. cbn beta. intros _ h1 S1.
  apply wp_bind. apply wp_bind. unfold wp at 1, session. eapply wp_mono; [apply (swept_each _ _ _ _ (swept_prepare c0 HD))|]. cbn beta. intros _ h2 S2.
  pose proof (swept_both _ _ _ _ _ S1 S2) as [C2 Q2]. destruct S1 as [_ Q1]. clear S2.
  apply wp_bind. unfold wp at 1, of_session. set (h3 := {| h_session := with_state _ _ |}).
  apply wp_bind. eapply wp_mono; [apply (swept_each _ _ _ _ (swept_prepare c0 HD))|]. cbn beta. intros _ h4 [C4 Q4].
  apply wp_bind. unfold wp at 1, of_session. set (h5 := {| h_session := with_pattern_sets _ _ |}).
  apply wp_bind. eapply wp_mono; [apply (swept_each _ _ _ _ (swept_prepare c0 HD))|]. cbn beta. intros _ h6 [C6 Q6].
  apply wp_bind. unfold wp at 1, of_session. set (h7 := {| h_session := with_state _ _ |}). apply wp_bind. eapply wp_mono.
  { apply (swept_each _ _ (fun sp r => fst r = wire_kind (sp_armed_on sp) /\ head (sp_request_ids sp) = Some (snd r))). intros sp h8. unfold clear_stop_point_requests.
    apply wp_bind, wp_bind. eapply wp_mono; [apply swept_conn; intros w; apply (clear_first c0 HD)|]. intros r h9 S9. by apply wp_ret, wp_ret. }
  cbn beta. intros _ h8 [C8 Q8]. unfold wp, on_session. simpl.
  change (wire h3) with (wire h2) in C4. change (wire h5) with (wire h4) in C6. change (wire h7) with (wire h6) in C8.
  pose proof (cleared_both _ _ _ _ _ C2 (cleared_both _ _ _ _ _ C4 (cleared_both _ _ _ _ _ C6 C8))) as C. eapply cleared_only; [|exact C]. clear C C2 C4 C6 C8.
  assert (Est : ds_state (h_session h2) = ds_state (h_session h0)) by by rewrite Q2.
  assert (Es1 : ss_stop_points (ds_state (h_session h1)) = ss_stop_points (ds_state (h_session h))) by by rewrite Q1.
  assert (Es6 : ss_stop_points (ds_state (h_session h6)) = ss_stop_points (ds_state (h_session h))) by (rewrite Q6; simpl; rewrite Q4; simpl; by rewrite Est).
  assert (Ef4 : ds_pattern_sets (h_session h4) = ds_pattern_sets (h_session h)) by (rewrite Q4; simpl; by rewrite Q2).
  intros [k req] [Hk|[[(id & sp & Hl & [[Hk Hr]|[Hk Hr]])|[[Hk [(pb & Hin & Hr)|(id & set & Hl & Hw)]]|[Hk _]]] Hns]]; [by left; left|..]; simpl in *; subst k.
  - destruct (decide (kind sp = KLine)) as [Hline|Hline].
    { left. left. unfold kind, kind_of in Hline. by destruct (sp_armed_on sp). }
    right. right. right. exists sp. split; [|split; [done|]].
    + apply list_elem_of_filter. split; [done|]. apply list_elem_of_fmap. exists (id, sp). split; [done|]. apply iter_lookup. by rewrite Es6.
    + specialize (H1 id sp Hl Hline). destruct (sp_request_ids sp) as [|r0 [|]]; [by apply elem_of_nil in Hr| |simpl in H1; lia].
      apply list_elem_of_singleton in Hr as ->. done.
  - left. right. exists req. split; [|done]. unfold standing_watches. apply list_elem_of_omap. exists (id, sp). split; [|done]. apply iter_lookup. by rewrite Es1.
  - right. left. exists req. split; [|done]. apply list_elem_of_fmap. exists pb. split; [done|]. rewrite Est. by rewrite Ep.
  - right. right. left. exists req. split; [|done]. apply list_elem_of_omap. exists (id, set). split; [|done]. apply iter_lookup. by rewrite Ef4.
  - done.
Qed.

(** What arms nothing. *)
Class Hushes {A} (m : H A) : Prop := hushes h : hushed (wire h) (wire (snd (m h))).
#[local] Instance Hushes_ret {A} (a : A) : Hushes (mret a : H A).
Proof. intros h. apply hushed_preorder. Qed.
#[local] Instance Hushes_session : Hushes session.
Proof. intros h. apply hushed_preorder. Qed.
#[local] Instance Hushes_now : Hushes now.
Proof. intros h. apply hushed_preorder. Qed.
#[local] Instance Hushes_bind {A B} (m : H A) (k : A -> H B) : Hushes m -> (forall a, Hushes (k a)) -> Hushes (m ≫= k).
Proof.
  intros Hm Hk h. unfold mbind, h_bind. specialize (Hm h). destruct (m h) as [a h1]. transitivity (wire h1); [done|apply Hk].
Qed.
#[local] Instance Hushes_conn {A} (m : World -> A * World) : Respects hushed m -> Hushes (conn m).
Proof. intros Hm h. unfold conn. specialize (Hm (wire h)). by destruct (m _). Qed.
Lemma Hushes_on_session f : (forall s, ds_connection (f s) = ds_connection s) -> Hushes (on_session f).
Proof. intros Hf h. unfold on_session. simpl. rewrite Hf. apply hushed_preorder. Qed.
#[local] Instance Hushes_suspensions {A} (f : Suspensions -> A * Suspensions) : Hushes (on_suspensions f).
Proof. intros h. unfold on_suspensions, of_session. destruct (f _). apply hushed_preorder. Qed.
#[local] Instance hushed_resume_all : Respects hushed resume_all.
Proof. unfold resume_all. apply Respects_bind; [apply _|by apply (exchange_hushed c0 HD)|apply _]. Qed.
#[local] Instance hushed_resume t : Respects hushed (resume_thread t).
Proof. unfold resume_thread. apply Respects_bind; [apply _|by apply (exchange_hushed c0 HD)|apply _]. Qed.
#[local] Instance hushed_count t : Respects hushed (suspend_count t).
Proof. unfold suspend_count. apply Respects_bind; [apply _|by apply (exchange_hushed c0 HD)|apply _]. Qed.
#[local] Instance hushed_fully t n : Respects hushed (resume_all_fully t n).
Proof.
  unfold resume_all_fully. generalize (Z.to_nat n), 0. intros m. induction m as [|m IH]; intros i; cbn [resume_until]; [apply _|].
  apply Respects_bind; [apply _..|]. intros _. apply Respects_bind; [apply _..|]. intros r. case_match; apply _.
Qed.
#[local] Instance Hushes_verify : Hushes resume_and_verify.
Proof. unfold resume_and_verify. apply Hushes_bind; [apply _|]. intros s. case_match; apply _. Qed.
#[local] Instance Hushes_loop n t l : Hushes (release_loop n t l).
Proof.
  revert l. induction n as [|n IH]; intros l; cbn [release_loop]; [apply _|]. case_match; [apply _|].
  apply Hushes_bind; [apply _|]. intros []; apply _.
Qed.
#[local] Instance Hushes_each held freed stuck : Hushes (release_each held freed stuck).
Proof.
  revert freed stuck. induction held as [|[t n] held IH]; intros freed stuck; cbn [release_each]; [apply _|].
  apply Hushes_bind; [apply _|]. intros count. apply Hushes_bind; [apply _|]. intros l. case_match; apply _.
Qed.
#[local] Instance Hushes_residue redefinitions : Hushes (describe_outstanding_redefinitions redefinitions).
Proof.
  unfold describe_outstanding_redefinitions. case_match; [apply _|]. apply Hushes_bind; [|intros; apply _].
  generalize (string_iter redefinitions). intros l. induction l as [|[class r] l IH]; cbn [redefinition_lines]; apply _.
Qed.

Lemma panic_clears h : single (h_session h) -> wp handle_panic (fun _ h' => cleared (fun r => fst r = event_kinds.BREAKPOINT \/ owned (h_session h) r) (wire h) (wire h')) h.
Proof.
  intros H1. unfold handle_panic. apply wp_bind.
  assert (Hstep : wp drop_pending_step (fun _ h1 => cleared (fun r => fst r = event_kinds.SINGLE_STEP /\ exists t, ds_pending_step (h_session h) = Some (snd r, t)) (wire h) (wire h1) /\
    h_session h1 = with_connection (wire h1) (with_pending_step None (h_session h))) h).
  { unfold drop_pending_step. apply wp_bind. unfold wp at 1, session. destruct (ds_pending_step (h_session h)) as [[req t]|] eqn:Ep.
    - apply wp_bind. unfold wp at 1, on_session. apply wp_bind. eapply wp_mono; [apply swept_conn; intros w; apply (clear_clears c0 HD)|].
      cbn beta. intros _ h1 [C S]. apply wp_ret. split; [|exact S]. eapply cleared_only; [|exact C]. intros [k r] [Hk [t' [= -> _]]]. simpl in Hk. by rewrite Hk.
    - apply wp_ret. split; [eapply cleared_only; [|apply hushed_preorder]; by intros r [_ [t ?]]|]. destruct h as [[] ? ?]. simpl in *. by subst. }
  eapply wp_mono; [exact Hstep|]. cbn beta. intros _ h0 [C0 S0]. clear Hstep.
  apply wp_bind. unfold wp at 1, session. cbv zeta. apply wp_bind. eapply wp_mono; [apply disarm_everything_clears; by rewrite S0|]. cbn beta. intros _ h1 C1.
  set (rest := h_try _ _). assert (Hr : Hushes rest).
  { unfold rest, h_try. apply Hushes_bind; [apply _|]. intros [note|e]; [|apply _]. apply Hushes_bind; [by apply Hushes_on_session|]. intros _.
    apply Hushes_bind; [unfold release_thread_suspends; apply _|]. intros [freed stuck]. apply _. }
  specialize (Hr h1). unfold wp. destruct (rest h1) as [a h2]. eapply cleared_only; [|exact (cleared_both _ _ _ _ _ C0 (cleared_both _ _ _ _ _ C1 Hr))].
  intros r [Hb|Ho]; [by right; left; left|]. destruct (decide (fst r = event_kinds.SINGLE_STEP)) as [Hs|Hs].
  - left. split; [done|]. destruct Ho as [(id & sp & Hl & [[Hk _]|[Hk _]])|[[Hk _]|[_ Hp]]]; [|by rewrite Hk in Hs..|exact Hp].
    exfalso. rewrite Hk in Hs. clear -Hs. destruct (sp_armed_on sp) as [| |w|m|m]; try done; simpl in Hs; [by destruct (wp_kind w)|by destruct (mx_with_return_value m)|by destruct (mo_kind m)].
  - right. left. right. split; [|done]. rewrite S0. destruct Ho as [Ho|[Ho|[Hk _]]]; [by left|by right; left|done].
Qed.

(** C36. [debug.panic] is the emergency brake. On a debuggee that counts suspensions it succeeds. Nothing
    is left armed that the session owns: every request behind a stop point (line, exception, field,
    method exit or monitor), its watch for later copies, a deferred breakpoint, a wildcard family or the
    step under way has been asked to be cleared on the wire, so that what the debuggee still holds is what
    it held before, less everything the session owned and less every breakpoint request, whoever's; and the
    session records no stop point, no deferred breakpoint, no class-load watch, no monitor span and no step.
    (A stop point other than a line breakpoint has one request at most; a request the session does not own,
    such as a family's watch that it failed to clear earlier, is not claimed.) The requests of the traced
    stop points are remembered, in the session's order, so that their hits in flight are recognised: all of
    them, up to the last [MAX_DISARMED_TRACED] remembered. The virtual machine is resumed as often as the
    thread last seen is suspended, and is no longer recorded as suspended; no thread is suspended further,
    and every held thread that misses at most eight resumes after that is running and forgotten. *)
Theorem panic_frees k h :
  k < 2 ^ 31 -> bounded k h -> single (h_session h) ->
  let '(r, h') := handle_panic h in
  (exists text, r = Ok text) /\
  (forall r, r ∈ outstanding (wire h') -> r ∈ outstanding (wire h) /\ fst r <> event_kinds.BREAKPOINT /\ ~ owned (h_session h) r) /\
  armed_view h' = (∅, [], ss_disarmed_traced_requests (note_all (traced_requests (ds_state (h_session h))) (ds_state (h_session h))), ∅, ∅) /\
  ds_pending_step (h_session h') = None /\ su_vm (ds_suspensions (h_session h')) = None /\
  (forall t, 0 <= host_depth t h' <= Z.max 0 (host_depth t h - resumes_issued h)) /\
  (forall t, held_view h' !! t = None \/ held_view h' !! t = held_view h !! t) /\
  (forall t, is_Some (held_view h !! t) -> host_depth t h <= resumes_issued h + MAX_RESUME_ATTEMPTS ->
     held_view h' !! t = None /\ host_depth t h' = 0).
Proof.
  intros Hk Hb Hs. pose proof (panic_braked k h Hk Hb) as B. pose proof (panic_clears h Hs) as C. unfold wp in B, C.
  destruct (handle_panic h) as [r h']. destruct B as [Hr B]. split; [done|]. split; [|done]. intros x Hx. apply (cleared_gone _ _ _ _ C) in Hx. intuition.
Qed.
End Panic.

Section Balance.
Context `{BC : BytesCrate} `{D : Debuggee} `{CL : Clock}.
Context {StopOrder : IterOrder string StopPoint} {SetOrder : IterOrder string PatternStopSet}.
Context (c0 : Z -> Z) (HD : honest c0).

Abbreviation host_depth := (host_depth c0).
Abbreviation bounded := (bounded c0).

(** ** The balance *)

Definition vm_hold (h : Host) : Z := if is_some (su_vm (ds_suspensions (h_session h))) then 1 else 0.
Definition issued (h : Host) (t : Z) : Z := match held_view h !! t with Some r => ts_issued r | None => 0 end.

(** A thread is suspended once for the virtual machine and once per suspend of the session's own. *)
Record balanced (h : Host) : Prop := {
  ba_count t : in_u 64 t -> host_depth t h = vm_hold h + issued h t;
  ba_held t r : held_view h !! t = Some r -> in_u 64 t /\ 1 <= ts_issued r;
}.

Lemma vm_hold_range h : 0 <= vm_hold h <= 1.
Proof. unfold vm_hold. case_match; lia. Qed.

(** The tools that stop and resume, with their arguments. *)
Inductive ControlOp : Type :=
| OpPause (watchdog_secs : Z)
| OpSuspend (watchdog_secs : Z) (thread_id : string)
| OpResume (thread_id : option string)
| OpContinue
| OpStep (thread_id : option string) (exclude only : option (list string)) (depth : StepDepth) (label : string)
| OpPanic.

Definition control (op : ControlOp) : H (result string string) :=
  match op with
  | OpPause secs => handle_pause secs
  | OpSuspend secs thread_id => handle_suspend_thread secs thread_id
  | OpResume thread_id => handle_resume_thread thread_id
  | OpContinue => handle_continue
  | OpStep thread_id exclude only depth label => handle_step thread_id exclude only depth label
  | OpPanic => handle_panic
  end.

(** When the resumes an operation issues are resumes of what the session holds: continuing and stepping
    a machine the session suspended, the thread it probes not held besides; giving back a held thread;
    no thread held more than eight times over at a panic. *)
Definition allowed (op : ControlOp) (h : Host) : Prop :=
  match op with
  | OpPause _ | OpSuspend _ _ => True
  | OpResume thread_id => forall tid, parse_thread_id thread_id = Some tid -> is_Some (held_view h !! tid)
  | OpContinue => is_Some (su_vm (ds_suspensions (h_session h))) /\
      forall p, ds_last_thread (h_session h) = Some p -> in_u 64 p /\ held_view h !! p = None
  | OpStep _ _ _ _ _ => is_Some (su_vm (ds_suspensions (h_session h)))
  | OpPanic => forall t r, held_view h !! t = Some r -> ts_issued r <= MAX_RESUME_ATTEMPTS
  end.

Fixpoint control_run (ops : list ControlOp) (h : Host) : Host :=
  match ops with
  | [] => h
  | op :: ops => control_run ops (snd (control op h))
  end.
Fixpoint all_allowed (ops : list ControlOp) (h : Host) : Prop :=
  match ops with
  | [] => True
  | op :: ops => allowed op h /\ all_allowed ops (snd (control op h))
  end.

(** ** Steps that change nothing of it *)

Definition vm_view (h : Host) := (su_vm (ds_suspensions (h_session h)), ds_last_thread (h_session h)).
#[global] Instance vm_of_rest {A} (m : H A) : Keeps rest_view m -> Keeps vm_view m.
Proof. intros Hm h. specialize (Hm h). unfold rest_view in Hm. unfold vm_view. congruence. Qed.

Record alike (h h' : Host) : Prop := {
  al_depth t : host_depth t h' = host_depth t h;
  al_held : held_view h' = held_view h;
  al_vm : vm_view h' = vm_view h;
}.

#[global] Instance alike_preorder : PreOrder alike.
Proof.
  split; [by split|]. intros h1 h2 h3 [A1 B1 C1] [A2 B2 C2]. split; [intros t; by rewrite A2|congruence..].
Qed.

Lemma wp_alike {A B} (m : H A) (k : A -> H B) Q h :
  (forall t, Keeps (fun h => host_depth t h) m) -> Keeps held_view m -> Keeps vm_view m ->
  (forall a h', alike h h' -> wp (k a) Q h') -> wp (m ≫= k) Q h.
Proof.
  intros Hd Hh Hv HQ. destruct (m h) as [a h'] eqn:E. eapply wp_step; [exact E|]. apply HQ.
  split; [intros t|..]; [specialize (Hd t h)|specialize (Hh h)|specialize (Hv h)]; by rewrite E in *.
Qed.

Lemma balanced_alike h h' : alike h h' -> balanced h -> balanced h'.
Proof.
  intros [Ad Ah Av] [B1 B2]. unfold vm_view in Av. split.
  - intros t Ht. rewrite Ad, B1 by done. unfold vm_hold, issued. rewrite Ah. injection Av as -> _. done.
  - rewrite Ah. apply B2.
Qed.

#[global] Instance vm_drop_step : Keeps vm_view drop_pending_step.
Proof.
  intros h. pose proof (drop_pending_step_clears h) as K. unfold wp in K. destruct (drop_pending_step h) as [u h'].
  destruct K as (_ & _ & S & L). unfold vm_view. simpl. congruence.
Qed.
#[global] Instance Steady_step tid depth ex on : Respects steady (set_step_ex tid depth ex on).
Proof. unfold set_step_ex, set_request. apply _. Qed.

#[global] Instance depth_rows l t : Keeps (fun h => host_depth t h) (held_rows l).
Proof. induction l as [|[tid r] l IH]; cbn [held_rows]; [apply Keeps_ret|]. apply Keeps_bind; [apply depth_now|]. intros ?. apply Keeps_bind; [apply IH|]. intros ?. apply Keeps_ret. Qed.
#[global] Instance depth_note m t : Keeps (fun h => host_depth t h) (which_thread_note m).
Proof. apply Keeps_bind; [apply depth_rows|]. intros ?. apply Keeps_ret. Qed.
#[global] Instance held_rows_held l : Keeps held_view (held_rows l).
Proof. induction l as [|[tid r] l IH]; cbn [held_rows]; apply _. Qed.
#[global] Instance held_note m : Keeps held_view (which_thread_note m).
Proof. apply _. Qed.
#[global] Instance rest_rows l : Keeps rest_view (held_rows l).
Proof. induction l as [|[tid r] l IH]; cbn [held_rows]; apply _. Qed.
#[global] Instance rest_note m : Keeps rest_view (which_thread_note m).
Proof. apply _. Qed.

(** The invariant of a step: balance, and no count raised by more than one. *)
Definition settles (k : Z) (m : H (result string string)) (h : Host) : Prop :=
  wp m (fun _ h' => balanced h' /\ bounded (k + 1) h') h.

Lemma bounded_alike k h h' : alike h h' -> bounded k h -> bounded k h'.
Proof. intros [Ad _ _]. by apply bounded_keeps. Qed.

Lemma settles_ret k r h h' : alike h h' -> balanced h -> bounded k h -> wp (mret r : H (result string string)) (fun _ h' => balanced h' /\ bounded (k + 1) h') h'.
Proof.
  intros Ha Hb Hk. apply wp_ret. split; [by eapply balanced_alike|]. intros t.
  specialize (bounded_alike _ _ _ Ha Hk t) as Ht. lia.
Qed.

(** A call that steers, between the steps of a handler. *)
Lemma try_conn_or {A B} (m : M A) what (k : A -> H (result string B)) Q h a w :
  m (ds_connection (h_session h)) = (Ok a, w) ->
  (forall h1, (forall t, host_depth t h1 = depth c0 t (w_log w)) -> held_view h1 = held_view h -> rest_view h1 = rest_view h -> wp (k a) Q h1) ->
  wp (h_try (conn_or what m) k) Q h.
Proof.
  intros E HQ. unfold h_try, conn_or. apply wp_bind, wp_bind. eapply wp_conn; [exact E|]. apply wp_ret. cbn. by apply HQ.
Qed.

(** ** Each tool *)

Lemma pause_settles k secs h : balanced h -> bounded k h -> settles k (handle_pause secs) h.
Proof.
  intros Hb Hk. unfold settles, handle_pause. apply wp_bind. unfold wp at 1, session.
  destruct (su_vm (ds_suspensions (h_session h))) as [vm|] eqn:Hvm.
  - apply wp_alike; [apply _..|]. intros at_ h1 A1. by eapply settles_ret.
  - destruct (suspend_all_honest c0 HD (ds_connection (h_session h))) as (w & E & Hd).
    eapply try_conn_or; [exact E|]. intros h1 D1 V1 R1. apply wp_bind. unfold wp at 1, now. apply wp_bind. unfold wp at 1, on_session.
    apply wp_ret. set (h2 := {| h_session := _ |}).
    assert (D2 : forall t, host_depth t h2 = host_depth t h + 1) by (intros t; transitivity (host_depth t h1); [done|]; by rewrite D1, Hd).
    destruct Hb as [B1 B2]. split; [split|].
    + intros t Ht. rewrite D2, B1 by done. unfold vm_hold, issued. rewrite Hvm.
      change (held_view h2) with (held_view h1). rewrite V1. simpl. lia.
    + intros t r. change (held_view h2) with (held_view h1). rewrite V1. apply B2.
    + intros t. rewrite D2. specialize (Hk t). lia.
Qed.

Lemma continue_settles k h : k < 2 ^ 31 -> balanced h -> bounded k h -> allowed OpContinue h -> settles k handle_continue h.
Proof.
  intros Hk31 [B1 B2] Hk [[vm Hvm] Hp]. eapply wp_mono; [by apply (continue_continued c0 HD k)|].
  intros r h' (D' & V' & U' & _).
  assert (Hvh : vm_hold h = 1) by (unfold vm_hold; by rewrite Hvm).
  assert (Hn : resumes_issued c0 h = 1).
  { unfold resumes_issued. destruct (ds_last_thread (h_session h)) as [p|] eqn:Hl; [|done]. destruct (Hp p eq_refl) as [Hu Hno].
    rewrite B1 by done. unfold issued. rewrite Hno, Hvh. done. }
  rewrite Hn in D'. assert (Hnn : forall t, in_u 64 t -> host_depth t h' = issued h t).
  { intros t Ht. rewrite D', B1, Hvh by done. unfold issued. destruct (held_view h !! t) as [r'|] eqn:E; [|lia].
    apply B2 in E as [_ ?]. lia. }
  assert (Hv : held_view h' = held_view h).
  { apply map_eq. intros t. rewrite V'. destruct (held_view h !! t) as [r'|] eqn:E; [|by case_bool_decide].
    rewrite bool_decide_eq_false_2; [done|]. pose proof E as [Hu Hi]%B2. rewrite Hnn by done. unfold issued. rewrite E. lia. }
  split; [split|].
  - intros t Ht. rewrite Hnn by done. unfold vm_hold, issued. rewrite U', Hv. done.
  - rewrite Hv. apply B2.
  - intros t. rewrite D'. specialize (Hk t). lia.
Qed.

Lemma panic_settles k h : k < 2 ^ 31 -> balanced h -> bounded k h -> allowed OpPanic h -> settles k handle_panic h.
Proof.
  intros Hk31 [B1 B2] Hk Ha. eapply wp_mono; [by apply (panic_braked c0 HD k)|].
  intros r h' (_ & _ & _ & U' & D' & V' & F').
  pose proof (resumes_issued_range c0 h) as Hn. pose proof (vm_hold_range h) as Hvh.
  assert (Hheld : forall t, held_view h !! t = None \/ (held_view h' !! t = None /\ host_depth t h' = 0)).
  { intros t. destruct (held_view h !! t) as [r'|] eqn:E; [right|by left]. pose proof E as [Hu Hi]%B2. apply F'; [by eexists|].
    rewrite B1 by done. unfold issued. rewrite E. specialize (Ha t r' E). lia. }
  assert (Hv : held_view h' = ∅).
  { apply map_eq. intros t. rewrite lookup_empty. destruct (Hheld t) as [Hno | [K _]]; [|by rewrite K]. destruct (V' t) as [K | K]; by rewrite K, ?Hno. }
  split; [split|].
  - intros t Ht. unfold vm_hold, issued. rewrite U', Hv, lookup_empty. simpl. destruct (Hheld t) as [Hno | [_ K]]; [|by rewrite K].
    specialize (D' t). rewrite B1 in D' by done. unfold issued in D'. rewrite Hno in D'. lia.
  - rewrite Hv. intros t r'. by rewrite lookup_empty.
  - intros t. specialize (D' t). specialize (Hk t). lia.
Qed.

Lemma step_settles k thread_id exclude only depth label h :
  balanced h -> bounded k h -> is_Some (su_vm (ds_suspensions (h_session h))) ->
  settles k (handle_step thread_id exclude only depth label) h.
Proof.
  intros Hb Hk Hvm. unfold settles, handle_step. apply wp_bind. unfold wp at 1, session.
  destruct (union (parse_thread_id thread_id) _) as [tid|]; [|by eapply settles_ret].
  apply wp_alike; [apply _|apply _|by apply vm_drop_step|]. intros _ h1 A1.
  destruct (resolve_step_filter _ _ _ _) as [[[ex on] defaulted] source].
  unfold h_try at 1, conn_or. apply wp_bind. unfold conn_or. apply wp_alike; [intros t; apply depth_conn, Steady_step|apply _..|]. intros r h2 A2.
  assert (A02 : alike h h2) by by transitivity h1. apply wp_ret.
  destruct r as [req|e]; cbn [map_err]; [|by eapply settles_ret].
  apply wp_bind. unfold wp at 1, on_session. apply wp_bind. unfold wp at 1, on_session. set (h3 := {| h_session := _ |}).
  assert (D3 : forall t, host_depth t h3 = host_depth t h) by (intros t; apply (al_depth _ _ A02)).
  assert (V3 : held_view h3 = held_view h) by apply (al_held _ _ A02).
  destruct (resume_all_honest c0 HD (ds_connection (h_session h3))) as (w & E & Hd).
  eapply try_conn_or; [exact E|]. intros h4 D4 V4 R4. apply wp_ret.
  assert (Hvm4 : vm_hold h4 = 0) by (unfold vm_hold; injection R4 as _ _ _ _ -> _; done).
  assert (Hvh : vm_hold h = 1) by (unfold vm_hold; by destruct Hvm as [? ->]).
  assert (D04 : forall t, host_depth t h4 = Z.max 0 (host_depth t h - 1)) by (intros t; by rewrite D4, Hd, <- D3).
  assert (V04 : held_view h4 = held_view h) by congruence. destruct Hb as [B1 B2]. split; [split|].
  - intros t Ht. rewrite D04, B1, Hvh, Hvm4 by done. unfold issued. rewrite V04. destruct (held_view h !! t) as [r|] eqn:Er; [|lia].
    apply B2 in Er as [_ ?]. lia.
  - rewrite V04. apply B2.
  - intros t. rewrite D04. specialize (Hk t). lia.
Qed.

Lemma parse_thread_id_range raw tid : parse_thread_id raw = Some tid -> in_u 64 tid.
Proof.
  unfold parse_thread_id. destruct raw as [s|]; [|done]. cbn [mbind option_bind]. unfold parse_hex, in_range, in_u.
  destruct (trim_0x _ _) as [|c r]; [done|]. destruct (unsigned_value _ _) as [n|]; [|done].
  destruct ((0 <=? n) && (n <=? 2 ^ 64 - 1)) eqn:E; [|done]. intros [= <-]. reflect_bools. lia.
Qed.

(** What the session's own suspends of a thread become, and the count with them. *)
Lemma balanced_thread k tid (up : bool) h h' :
  balanced h -> bounded k h -> in_u 64 tid -> vm_hold h' = vm_hold h ->
  (forall t, in_u 64 t -> host_depth t h' =
     if t =? tid then (if up then host_depth t h + 1 else Z.max 0 (host_depth t h - 1)) else host_depth t h) ->
  (forall t, 0 <= host_depth t h' <= Z.max 0 (host_depth t h + if up then 1 else 0)) ->
  (forall t, t <> tid -> held_view h' !! t = held_view h !! t) ->
  issued h' tid = (if up then issued h tid + 1 else issued h tid - 1) ->
  (forall r, held_view h' !! tid = Some r -> 1 <= ts_issued r) -> 0 <= issued h' tid ->
  balanced h' /\ bounded (k + 1) h'.
Proof.
  intros [B1 B2] Hk Hu Hvm Hd Hb Hv Hi Hr Hn. split; [split|].
  - intros t Ht. rewrite Hd, Hvm by done. destruct (Z.eqb_spec t tid) as [->|Hne].
    + rewrite B1, Hi by done. pose proof (vm_hold_range h). destruct up; lia.
    + rewrite B1 by done. unfold issued. by rewrite Hv.
  - intros t r Hl. destruct (decide (t = tid)) as [->|Hne]; [split; [done|by apply Hr]|]. rewrite Hv in Hl by done. by apply B2 in Hl.
  - intros t. specialize (Hb t). specialize (Hk t). destruct up; lia.
Qed.

Lemma issued_bound k h t : balanced h -> bounded k h -> 0 <= issued h t <= k.
Proof.
  intros [B1 B2] Hk. unfold issued. destruct (held_view h !! t) as [r|] eqn:E; [|specialize (Hk t); lia].
  pose proof E as [Hu Hi]%B2. specialize (Hk t). rewrite B1 in Hk by done. unfold issued in Hk. rewrite E in Hk.
  pose proof (vm_hold_range h). lia.
Qed.

(** Taking one suspend of a thread, counted in its record. *)
Lemma hold_settles k tid name at_ h w h' :
  k + 1 < 2 ^ 31 -> balanced h -> bounded k h -> in_u 64 tid ->
  suspend_thread tid (ds_connection (h_session h)) = (Ok tt, w) -> (forall t, host_depth t h' = depth c0 t (w_log w)) ->
  ds_suspensions (h_session h') = snd (hold_thread tid name at_ (ds_suspensions (h_session h))) ->
  balanced h' /\ bounded (k + 1) h'.
Proof.
  intros Hk31 Hb Hk Hu E D' S'. destruct (thread_honest c0 HD true tid (ds_connection (h_session h)) Hu) as (w' & E' & Hle & Hnn & Hd).
  rewrite E in E'. injection E' as <-.
  assert (V' : held_view h' = su_threads (snd (hold_thread tid name at_ (ds_suspensions (h_session h))))) by (unfold held_view; by rewrite S').
  pose proof (issued_bound k h tid Hb Hk) as Hi. simpl in V'. fold (held_view h) in V'.
  assert (Hr : held_view h' !! tid = Some (with_issued (issued h tid + 1)
    (default {| ts_name := name; ts_since := at_; ts_issued := 0; ts_hold := Requested |} (held_view h !! tid)))).
  { rewrite V', lookup_insert_eq. f_equal. unfold with_issued, issued, sat_add_u in *. destruct (held_view h !! tid); simpl in *; f_equal; lia. }
  apply (balanced_thread k tid true h); try done.
  - unfold vm_hold. by rewrite S'.
  - intros t Ht. by rewrite D', Hd.
  - intros t. rewrite D'. split; [apply Hnn, Hk|apply Hle].
  - intros t Hne. rewrite V'. by rewrite lookup_insert_ne.
  - unfold issued at 1. rewrite Hr. done.
  - intros r. rewrite Hr. intros [= <-]. simpl. lia.
  - unfold issued. rewrite Hr. simpl. lia.
Qed.

(** Giving one suspend of a held thread back. *)
Lemma release_settles k tid h w h' :
  balanced h -> bounded k h -> is_Some (held_view h !! tid) ->
  resume_thread tid (ds_connection (h_session h)) = (Ok tt, w) -> (forall t, host_depth t h' = depth c0 t (w_log w)) ->
  ds_suspensions (h_session h') = snd (release_thread tid (ds_suspensions (h_session h))) ->
  balanced h' /\ bounded (k + 1) h'.
Proof.
  intros Hb Hk [r Hr] E D' S'. destruct (ba_held _ Hb tid r Hr) as [Hu Hi1].
  destruct (thread_honest c0 HD false tid (ds_connection (h_session h)) Hu) as (w' & E' & Hle & Hnn & Hd).
  rewrite E in E'. injection E' as <-. unfold release_thread in S'. fold (held_view h) in S'.
  change (su_threads (ds_suspensions (h_session h)) !! tid) with (held_view h !! tid) in S'. rewrite Hr in S'. simpl in S'.
  assert (V' : held_view h' = if sat_sub (ts_issued r) 1 =? 0 then delete tid (held_view h)
    else <[tid := with_issued (sat_sub (ts_issued r) 1) r]> (held_view h)) by (unfold held_view; rewrite S'; by case_match).
  assert (Hi : issued h tid = ts_issued r) by (unfold issued; by rewrite Hr).
  unfold sat_sub in V'. destruct (Z.eqb_spec (Z.max 0 (ts_issued r - 1)) 0) as [Hz|Hz].
  - assert (Hi' : issued h' tid = 0) by (unfold issued; by rewrite V', lookup_delete_eq).
    apply (balanced_thread k tid false h); try done.
    + unfold vm_hold. by rewrite S'.
    + intros t Ht. by rewrite D', Hd.
    + intros t. rewrite D'. split; [apply Hnn, Hk|apply Hle].
    + intros t Hne. by rewrite V', lookup_delete_ne.
    + lia.
    + intros x. by rewrite V', lookup_delete_eq.
    + lia.
  - assert (Hi' : issued h' tid = ts_issued r - 1) by (unfold issued; rewrite V', lookup_insert_eq; simpl; lia).
    apply (balanced_thread k tid false h); try done.
    + unfold vm_hold. by rewrite S'.
    + intros t Ht. by rewrite D', Hd.
    + intros t. rewrite D'. split; [apply Hnn, Hk|apply Hle].
    + intros t Hne. by rewrite V', lookup_insert_ne.
    + lia.
    + intros x. rewrite V', lookup_insert_eq. intros [= <-]. simpl. lia.
    + lia.
Qed.

Lemma wp_on_suspensions {A} (f : Suspensions -> A * Suspensions) (Q : A -> Host -> Prop) h :
  (forall h', ds_suspensions (h_session h') = snd (f (ds_suspensions (h_session h))) -> (forall t, host_depth t h' = host_depth t h) ->
     Q (fst (f (ds_suspensions (h_session h)))) h') -> wp (on_suspensions f) Q h.
Proof.
  intros HQ. unfold wp, on_suspensions, of_session. destruct (f (ds_suspensions (h_session h))) as [a su] eqn:E.
  specialize (HQ {| h_session := with_suspensions (fun _ => su) (h_session h); h_ticks := h_ticks h; h_alerts := h_alerts h |}).
  by apply HQ.
Qed.

Lemma suspend_settles k secs raw h :
  k + 1 < 2 ^ 31 -> balanced h -> bounded k h -> settles k (handle_suspend_thread secs raw) h.
Proof.
  intros Hk31 Hb Hk. unfold settles, handle_suspend_thread.
  destruct (parse_thread_id (Some raw)) as [tid|] eqn:Ep; [|by eapply settles_ret]. apply parse_thread_id_range in Ep.
  apply wp_alike; [intros t; apply depth_conn; apply _|apply _..|]. intros name h1 A1. cbn zeta.
  apply wp_alike; [intros t; apply depth_classify|apply _..|]. intros liveness h2 A2. assert (A : alike h h2) by by transitivity h1.
  destruct liveness as [status already| | |e]; [|by eapply settles_ret..].
  destruct (thread_honest c0 HD true tid (ds_connection (h_session h2)) Ep) as (w & E & _).
  eapply try_conn_or; [exact E|]. intros h3 D3 V3 R3.
  apply wp_alike; [intros t; apply depth_conn; apply _|apply _..|]. intros depth h4 A4. cbn zeta.
  apply wp_alike; [intros t; apply depth_now|apply _..|]. intros at_ h5 A5. assert (A35 : alike h3 h5) by by transitivity h4.
  apply wp_bind. apply wp_on_suspensions. intros h6 S6 D6. apply wp_bind. unfold wp at 1, session. apply wp_ret.
  assert (S5 : ds_suspensions (h_session h5) = ds_suspensions (h_session h2)).
  { destruct A35 as [_ H5 M5]. injection R3 as _ _ _ _ U3 _. unfold held_view, vm_view in *. injection M5 as U5 _.
    destruct (ds_suspensions (h_session h5)), (ds_suspensions (h_session h2)). simpl in *. congruence. }
  eapply (hold_settles k tid (default "?" (ok_of name)) at_ h2); [done|by eapply balanced_alike|by eapply bounded_alike|done|exact E| |].
  - intros t. by rewrite <- D3, <- (al_depth _ _ A35).
  - by rewrite S6, S5.
Qed.

(** Every thread is alive: its status can be read and is not that of a finished one. *)
Definition alive : Prop := forall log id t, exists ts ss, ts <> 0 /\ in_s 32 ts /\ in_s 32 ss /\
  reply_outcome log (with_data (new_command id command_sets.THREAD_REFERENCE thread_commands.STATUS) (put_be 8 t)) =
  Ok {| rp_id := id; rp_error_code := 0; rp_data := put_be 4 ts ++ put_be 4 ss |}.

Lemma status_alive t w : alive -> exists ts ss, ts <> 0 /\ fst (get_thread_status t w) = Ok (ts, ss).
Proof.
  intros Ha. unfold get_thread_status, exchange, thread_read_request, request, send_command, mbind, m_bind, st_bind, lift, next_id,
    modify, issue_packet, await_reply, mret, st_ret, of_result. simpl. rewrite (ho_taken _ HD). simpl.
  match goal with |- context [reply_outcome ?l (with_data (new_command ?i _ _) _)] => destruct (Ha l i t) as (ts & ss & Hts & R1 & R2 & E) end.
  rewrite E. exists ts, ss. split; [done|]. unfold decode_thread_status, decode_with, check_error, is_error. simpl.
  erewrite <- (app_nil_r (put_be 4 ts ++ _)), (run_reader_reads _ _ [] (ts, ss)); [done|].
  eapply Reads_bind; [by apply read_i32_reads|]. by eapply Reads_bind_ret; [apply read_i32_reads|].
Qed.

Lemma gone_note_alive tid h (Q : option string -> Host -> Prop) :
  alive -> (forall h', alike h h' -> Q None h') -> wp (gone_note tid) Q h.
Proof.
  intros Ha HQ. destruct (status_alive tid (ds_connection (h_session h)) Ha) as (ts & ss & Hts & E).
  assert (A : alike h (snd (conn (get_thread_status tid) h))).
  { split; [intros t; apply (depth_conn c0 _ t), _|apply held_conn|]. apply (vm_of_rest (conn (get_thread_status tid))), _. }
  unfold gone_note, classify_thread. destruct (conn (get_thread_status tid) h) as [r h1] eqn:Ec.
  assert (r = Ok (ts, ss)) as ->.
  { unfold conn in Ec. destruct (get_thread_status tid _) as [r' w]. simpl in E. congruence. }
  apply wp_bind. eapply wp_step; [exact Ec|]. cbn beta iota. rewrite (proj2 (Z.eqb_neq ts 0) Hts). apply wp_ret. by apply wp_ret, HQ.
Qed.

Lemma drop_step_on_alike tid h (Q : bool -> Host -> Prop) : (forall b h', alike h h' -> Q b h') -> wp (drop_step_on tid) Q h.
Proof.
  intros HQ. unfold drop_step_on. apply wp_bind. unfold wp at 1, session.
  destruct (ds_pending_step (h_session h)) as [[req owner]|]; [|by apply wp_ret, HQ].
  destruct (owner =? tid); [|by apply wp_ret, HQ].
  apply wp_alike; [intros t; apply depth_conn, Steady_clear|apply _..|]. intros _ h1 A1. apply wp_bind. unfold wp at 1, on_session.
  apply wp_ret, HQ. etransitivity; [exact A1|]. by split.
Qed.

(** The thread a call of [debug.resume_thread] means, if any, is a held one. *)
Lemma thread_to_resume_held raw h (Q : result string Z -> Host -> Prop) :
  allowed (OpResume raw) h ->
  (forall r h', alike h h' -> (forall tid, r = Ok tid -> is_Some (held_view h !! tid)) -> Q r h') -> wp (thread_to_resume raw) Q h.
Proof.
  intros Ha HQ. unfold thread_to_resume. apply wp_bind. unfold wp at 1, session. destruct raw as [raw|].
  - apply wp_ret, HQ; [done|]. intros tid. destruct (parse_thread_id (Some raw)) as [tid'|] eqn:E; [|done]. intros [= <-]. by apply Ha.
  - fold (held_view h). destruct (btree_iter (held_view h)) as [|[tid r] [|e l]] eqn:E.
    + by apply wp_ret, HQ.
    + apply wp_ret, HQ; [done|]. intros ? [= <-]. exists r. apply (elem_of_btree_iter (held_view h) (tid, r)). rewrite E. by left.
    + apply wp_alike; [intros t; apply depth_note|apply held_note|apply vm_of_rest, rest_note|].
      intros note h1 A1. by apply wp_ret, HQ.
Qed.

Lemma resume_settles k raw h :
  alive -> balanced h -> bounded k h -> allowed (OpResume raw) h -> settles k (handle_resume_thread raw) h.
Proof.
  intros Hal Hb Hk Ha. unfold settles, handle_resume_thread, h_try at 1. apply wp_bind. apply thread_to_resume_held; [done|].
  intros r h1 A1 Hr. destruct r as [tid|e]; [|by eapply settles_ret]. specialize (Hr tid eq_refl).
  apply wp_bind. apply gone_note_alive; [done|]. intros h2 A2. apply wp_bind. apply drop_step_on_alike. intros dropped h3 A3.
  assert (A : alike h h3) by (transitivity h1; [done|]; by transitivity h2).
  assert (Hr3 : is_Some (held_view h3 !! tid)) by by rewrite (al_held _ _ A).
  assert (Hu : in_u 64 tid) by (destruct Hr as [r Hr]; by apply (ba_held _ Hb tid r)).
  destruct (thread_honest c0 HD false tid (ds_connection (h_session h3)) Hu) as (w & E & _).
  eapply try_conn_or; [exact E|]. intros h4 D4 V4 R4.
  apply wp_alike; [intros t; apply depth_conn; apply _|apply _..|]. intros count h5 A5.
  apply wp_bind. apply wp_on_suspensions. intros h6 S6 D6.
  assert (S5 : ds_suspensions (h_session h5) = ds_suspensions (h_session h3)).
  { destruct A5 as [_ H5 M5]. injection R4 as _ _ _ _ U4 _. unfold held_view, vm_view in *. injection M5 as U5 _.
    destruct (ds_suspensions (h_session h5)), (ds_suspensions (h_session h3)). simpl in *. congruence. }
  assert (K : balanced h6 /\ bounded (k + 1) h6).
  { eapply (release_settles k tid h3); [by eapply balanced_alike|by eapply bounded_alike|done|exact E| |by rewrite S6, S5].
    intros t. by rewrite D6, (al_depth _ _ A5), D4. }
  destruct K as [K1 K2].
  assert (Hend : forall h7, alike h6 h7 -> balanced h7 /\ bounded (k + 1) h7) by (intros h7 A7; split; [by eapply balanced_alike|by eapply bounded_alike]).
  destruct (fst _) as [rec|].
  - apply wp_alike; [intros t; apply Keeps_bind; [apply depth_now|intros; apply Keeps_ret]|apply _..|]. intros name h7 A7.
    apply wp_bind. unfold wp at 1, session. by apply wp_ret, Hend.
  - apply wp_bind. apply wp_ret. apply wp_bind. unfold wp at 1, session. by apply wp_ret, Hend.
Qed.

Lemma control_settles k op h :
  alive -> k + 1 < 2 ^ 31 -> balanced h -> bounded k h -> allowed op h -> settles k (control op) h.
Proof.
  intros Hal Hk31 Hb Hk Ha. destruct op; cbn [control].
  - by apply pause_settles.
  - by apply suspend_settles.
  - by apply resume_settles.
  - apply continue_settles; [lia|done..].
  - by apply step_settles.
  - apply panic_settles; [lia|done..].
Qed.

(** C35. The books balance, where only what the session holds is resumed. Let a session carry out, on a
    debuggee that counts suspensions and whose threads are alive, a sequence of pausing, suspending and
    resuming threads, continuing, stepping and panicking in which each operation is [allowed] where it is
    carried out: a thread that is resumed is held by the session; a continue or a step finds the machine
    suspended by the session and the thread it probes not held; a panic finds no thread held more than eight
    times over. Then each thread is suspended exactly once for the virtual machine, if the session records
    it as suspended, and once for every suspend of the session's own that was not given back. So a thread
    runs exactly when nothing is recorded for it: no suspension is forgotten while it lasts and none is
    undone twice. The conditions matter: a resume of a thread that is not held, and a continue while the
    machine runs, undo a suspension the session goes on recording, or one it should have kept
    ([unheld_resume_unbalances], [continue_releases_held]). *)
Theorem control_balances (k : Z) (ops : list ControlOp) (h : Host) :
  alive -> k + zlen ops < 2 ^ 31 -> balanced h -> bounded k h -> all_allowed ops h ->
  balanced (control_run ops h).
Proof.
  intros Hal. revert k h. induction ops as [|op ops IH]; intros k h Hk Hb Hd Ha; [done|]. destruct Ha as [Ha Hr].
  unfold zlen in *. cbn [length] in Hk. cbn [control_run].
  pose proof (control_settles k op h Hal ltac:(lia) Hb Hd Ha) as K. unfold settles, wp in K.
  destruct (control op h) as [r h']. destruct K as [Hb' Hd']. apply (IH (k + 1) h'); [lia|done..].
Qed.
End Balance.

(** ** A debuggee to control *)

(** Every thread runs, is alive, and was suspended [n] times. *)
Definition counting_vm (n : Z) : Debuggee := {|
  issue_outcome _ _ := None;
  reply_outcome log p := Ok {|
    rp_id := cp_id p; rp_error_code := 0;
    rp_data := if steers p then []
               else if cp_command p =? thread_commands.STATUS then be_bytes 4 1 ++ be_bytes 4 0
               else be_bytes 4 (foldl (depth_step (cp_data p)) n log) |};
  lapses_unissued _ _ := false;
  lapses_unanswered _ _ := false
|}.

Lemma counting_vm_honest n : honest (BC := network_order) (D := counting_vm n) (fun _ => n).
Proof. split; [done| |done]. intros log p Hs. simpl. by rewrite Hs. Qed.

Lemma counting_vm_alive n : alive (BC := network_order) (D := counting_vm n).
Proof. intros log id t. exists 1, 0. by split_and!. Qed.

Definition idle_host : Host := host_with [].
Definition some_ops : list ControlOp :=
  [OpSuspend 300 "0x9"; OpPause 300; OpSuspend 300 "9"; OpPause 300; OpContinue; OpResume None; OpResume (Some "0x9"); OpPanic].

(** What the session records and the debuggee counts for thread 9 after each of [ops]. *)
Fixpoint trail (ops : list ControlOp) (h : Host) : list (Z * Z * Z) :=
  match ops with
  | [] => []
  | op :: ops =>
    let h' := snd (control (BC := network_order) (D := counting_vm 0) (CL := late_clock) (StopOrder := some_order) (SetOrder := some_order) op h) in
    (vm_hold h', issued h' 9, host_depth (BC := network_order) (fun _ => 0) 9 h') :: trail ops h'
  end.
Example some_ops_trail : trail some_ops idle_host =
  [(0, 1, 1); (1, 1, 2); (1, 2, 3); (1, 2, 3); (0, 2, 2); (0, 1, 1); (0, 0, 0); (0, 0, 0)].
Proof. vm_compute. reflexivity. Qed.

Lemma control_balances_witness :
  balanced (BC := network_order) (fun _ => 0)
    (control_run (BC := network_order) (D := counting_vm 0) (CL := late_clock) (StopOrder := some_order) (SetOrder := some_order)
      (take 7 some_ops) idle_host).
Proof.
  apply (control_balances (BC := network_order) (D := counting_vm 0) (CL := late_clock) (StopOrder := some_order) (SetOrder := some_order)
    (fun _ => 0) (counting_vm_honest 0) 0 (take 7 some_ops) idle_host (counting_vm_alive 0)).
  - by_compute.
  - split; [done|]. intros t r. change (held_view idle_host) with (∅ : gmap Z ThreadSuspend). by rewrite lookup_empty.
  - intros t. unfold Honest.host_depth, depth. simpl. lia.
  - cbn [take some_ops all_allowed allowed]. do 4 (split; [exact I|]). split; [split|split; [|split; [|exact I]]].
    + vm_compute. by eexists.
    + intros p Hp. vm_compute in Hp. discriminate Hp.
    + intros tid Hp. discriminate Hp.
    + intros tid Hp. vm_compute in Hp. injection Hp as <-. vm_compute. by eexists.
Defined.

Lemma stopped_bounded n : 0 <= n -> ControlFacts.bounded (BC := network_order) (fun _ => n) n stopped_host.
Proof. intros Hn t. unfold Honest.host_depth, depth. simpl. lia. Qed.

(** The debuggee granted a line breakpoint, a method exit and two class-load watches; the session owns all but
    the last. *)
Definition exit_stop : StopPoint := {|
  sp_id := "mx_1"; sp_request_ids := [8]; sp_enabled := true; sp_spent := false; sp_hit_count := None; sp_hits := 0;
  sp_condition := None; sp_trace := false; sp_trace_expr := []; sp_trace_budget := None; sp_trace_frames := 0;
  sp_trace_max_length := None; sp_trace_cost := no_cost; sp_thread_filter := None; sp_instance_filter := None;
  sp_armed_on := OnMethodExit {| mx_discarded := 0; mx_class_pattern := "A"; mx_exclude_classes := []; mx_method := None; mx_with_return_value := false |}
|}.
Definition deferred_stop : PendingBreakpoint := {|
  pb_bp_id := "bp_2"; pb_signature := "LB;"; pb_class_pattern := "B"; pb_line := Some 4; pb_method := None; pb_condition := None; pb_hit_count := None;
  pb_trace := false; pb_trace_expr := []; pb_trace_budget := None; pb_trace_frames := 0; pb_trace_max_length := None; pb_thread_filter := None;
  pb_instance_filter := None; pb_class_prepare_request_id := 9
|}.
Definition grants : list WireEvent := map (fun '(k, req) =>
    Answered (with_data (new_command 1 command_sets.EVENT_REQUEST event_commands.SET) [k]) (Ok {| rp_id := 1; rp_error_code := 0; rp_data := be_bytes 4 req |}))
  [(event_kinds.BREAKPOINT, 5); (event_kinds.METHOD_EXIT, 8); (event_kinds.CLASS_PREPARE, 9); (event_kinds.CLASS_PREPARE, 10)].
Definition armed_host : Host := {|
  h_session := with_state (fun st => {| ss_stop_points := <["mx_1" := exit_stop]> (ss_stop_points st); ss_pending_breakpoints := [deferred_stop];
      ss_disarmed_traced_requests := ss_disarmed_traced_requests st; ss_stop_seq := ss_stop_seq st |})
    (with_connection (foldl (fun w e => record_event e w) world_init grants) (h_session stopped_host));
  h_ticks := 0; h_alerts := []
|}.
Lemma armed_bounded n : 0 <= n -> ControlFacts.bounded (BC := network_order) (fun _ => n) n armed_host.
Proof. intros Hn t. unfold Honest.host_depth, depth. simpl. lia. Qed.

(** Of the four requests the debuggee held, the one the session does not own is left. *)
Lemma panic_frees_witness :
  let h' := snd (handle_panic (BC := network_order) (D := counting_vm 3) (CL := late_clock) (StopOrder := some_order) (SetOrder := some_order) armed_host) in
  outstanding (BC := network_order) (wire armed_host) = [(2, 5); (41, 8); (8, 9); (8, 10)] /\
  (forall r, r ∈ outstanding (BC := network_order) (wire h') -> ~ owned (h_session armed_host) r) /\
  outstanding (BC := network_order) (wire h') = [(8, 10)] /\ held_view h' !! 9 = None.
Proof.
  pose proof (panic_frees (BC := network_order) (D := counting_vm 3) (CL := late_clock) (StopOrder := some_order) (SetOrder := some_order)
    (fun _ => 3) (counting_vm_honest 3) 3 armed_host) as K. cbv zeta. split; [by vm_compute|].
  assert (E : outstanding (BC := network_order) (wire (snd (handle_panic (BC := network_order) (D := counting_vm 3) (CL := late_clock) (StopOrder := some_order)
    (SetOrder := some_order) armed_host))) = [(8, 10)]) by by vm_compute.
  destruct (handle_panic armed_host) as [r h']. cbn [snd] in *. destruct K as (_ & Kr & _ & _ & _ & _ & _ & K); [done|exact (armed_bounded 3 ltac:(done))| |].
  - intros id sp Hl _. change (ss_stop_points (ds_state (h_session armed_host))) with
      (<["mx_1"%string := exit_stop]> (<["bp_1"%string := sample_stop "bp_1" [5] false None None None]> (∅ : gmap string StopPoint))) in Hl.
    apply lookup_insert_Some in Hl as [[_ <-]|[_ Hl]]; [by apply le_n|]. apply lookup_insert_Some in Hl as [[_ <-]|[_ Hl]]; [by apply le_n|by rewrite lookup_empty in Hl].
  - split; [intros x Hx; by apply Kr|]. split; [exact E|]. apply K; [vm_compute; by eexists|by_compute].
Defined.

(** A continue that could not clear the depth: it says that the machine is still suspended and records
    that it runs, so that the watchdog has nothing left to rescue. *)
Lemma continue_exact_witness :
  let '(r, h') := handle_continue (BC := network_order) (D := counting_vm 20) (CL := late_clock) stopped_host in
  su_vm (ds_suspensions (h_session h')) = None /\ Honest.host_depth (BC := network_order) (fun _ => 20) 7 h' = 12.
Proof.
  pose proof (continue_exact (BC := network_order) (D := counting_vm 20) (CL := late_clock)
    (fun _ => 20) (counting_vm_honest 20) 20 stopped_host) as K.
  destruct (handle_continue stopped_host) as [r h']. destruct K as (Hd & _ & Hv & _); [done|exact (stopped_bounded 20 ltac:(done))|].
  split; [exact Hv|]. rewrite Hd. by_compute.
Defined.

(** A continue while the machine runs takes its one resume off a held thread, and forgets it. *)
Example continue_releases_held :
  let h' := control_run (BC := network_order) (D := counting_vm 0) (CL := late_clock) (StopOrder := some_order) (SetOrder := some_order)
    [OpSuspend 300 "0x9"; OpContinue] idle_host in
  (issued h' 9, Honest.host_depth (BC := network_order) (fun _ => 0) 9 h') = (0, 0).
Proof. vm_compute. reflexivity. Qed.

(** A resume of a thread the session does not hold takes the suspend of the virtual machine off it: thread 9
    runs, and the machine is recorded as suspended. *)
Example unheld_resume_unbalances : trail [OpPause 300; OpResume (Some "0x9"%string)] idle_host = [(1, 0, 1); (1, 0, 0)].
Proof. vm_compute. reflexivity. Qed.

(** Paused three deep by a session that has seen no thread, there is none to probe: one round of the watchdog
    takes one resume off, and records the machine as running. *)
Example unprobed_machine_forgotten :
  let paused := snd (handle_pause (D := counting_vm 2) (CL := late_clock) 300 idle_host) in
  let h' := snd (watchdog (BC := network_order) (D := counting_vm 2) (CL := {| instant n := 800 * 10 ^ 9 + Z.of_nat n |}) (StopOrder := some_order) 300 1 paused) in
  (ds_last_thread (h_session paused), vm_hold paused, Honest.host_depth (BC := network_order) (fun _ => 2) 7 paused) = (None, 1, 3) /\
  (vm_hold h', Honest.host_depth (BC := network_order) (fun _ => 2) 7 h') = (0, 2).
Proof. split; vm_compute; reflexivity. Qed.
