(* ===== verification/ArmingFacts.v ===== *)
(** * What arming a stop point does

    Arming either fails and leaves the session and the ledger of requests as they were, or registers one
    stop point that owns exactly the requests it was granted, one for each location it is armed at. *)

From S2P Require Import Prelude Protocol Types Reader Events Connection Client EventRequest StopPoint.
From S2P Require Import EventRing MonitorClock Suspensions Traces Session Manager Api Generics Text Expr Condition Host EventPump Steering.
From S2P Require Import Honest Locate Paths Drift Arming Rearm ClassLoads Ledger.

(** ** The connection of a host *)

Abbreviation wire h := (ds_connection (h_session h)).

(** The host after its connection became [w], and after a change of its session. *)
Definition wired (w : World) (h : Host) : Host :=
  {| h_session := with_connection w (h_session h); h_ticks := h_ticks h; h_alerts := h_alerts h |}.
Definition changed (f : DebugSession -> DebugSession) (h : Host) : Host :=
  {| h_session := f (h_session h); h_ticks := h_ticks h; h_alerts := h_alerts h |}.

Lemma wired_same h : wired (wire h) h = h.
Proof. by destruct h as [[] ? ?]. Qed.

(** A step that changed the connection only, and its ledger by the breakpoint requests [reqs]. *)
Definition grants (w w' : World) `{BytesCrate} (reqs : list Z) : Prop :=
  steady w w' /\ outstanding w' = outstanding w ++ map (pair event_kinds.BREAKPOINT) reqs.

Section Facts.
Context `{BC : BytesCrate} `{D : Debuggee} `{PF : Platform}.

Lemma grants_idle w w' : idle w w' -> grants w w' [].
Proof. intros [S O]. split; [done|]. by rewrite O, app_nil_r. Qed.
Lemma grants_trans w1 w2 w3 r1 r2 : grants w1 w2 r1 -> grants w2 w3 r2 -> grants w1 w3 (r1 ++ r2).
Proof. intros [S1 O1] [S2 O2]. split; [by transitivity w2|]. by rewrite O2, O1, map_app, (assoc_L (++)). Qed.
Lemma grants_nil w w' : grants w w' [] -> idle w w'.
Proof. intros [S O]. split; [done|]. by rewrite O, app_nil_r. Qed.

Lemma wp_idle {A} (m : World -> A * World) (Q : A -> Host -> Prop) h :
  Respects idle m -> (forall a w, idle (wire h) w -> Q a (wired w h)) -> wp (conn m) Q h.
Proof. intros Hm HQ. eapply wp_conn; [apply surjective_pairing|]. apply HQ, Hm. Qed.

Lemma wp_set_breakpoint_of c m i pol f (Q : JdwpResult Z -> Host -> Prop) h :
  (forall r w, set_breakpoint_ex c m i pol f (wire h) = (r, w) -> grants (wire h) w (option_list (ok_of r)) -> Q r (wired w h)) ->
  wp (conn (set_breakpoint_ex c m i pol f)) Q h.
Proof.
  intros HQ. eapply wp_conn; [apply surjective_pairing|]. apply HQ; [apply surjective_pairing|]. unfold set_breakpoint_ex, breakpoint_ex_body.
  rewrite !put_be_spec. cbn [be_bytes app]. change (event_kinds.BREAKPOINT / _) with event_kinds.BREAKPOINT.
  change (event_kinds.BREAKPOINT mod 256) with event_kinds.BREAKPOINT.
  match goal with |- context [set_request (?k :: ?body) ?w] => pose proof (set_request_ledger k body w) as L; destruct (set_request (k :: body) w) as [r w'] end.
  destruct L as [S O]. split; [done|]. cbn [fst snd]. rewrite O. by destruct r.
Qed.

Lemma wp_set_breakpoint c m i pol f (Q : JdwpResult Z -> Host -> Prop) h :
  (forall r w, grants (wire h) w (option_list (ok_of r)) -> Q r (wired w h)) ->
  wp (conn (set_breakpoint_ex c m i pol f)) Q h.
Proof. intros HQ. apply wp_set_breakpoint_of. intros r w _. apply HQ. Qed.

Lemma wp_class_prepare pattern pol (Q : JdwpResult Z -> Host -> Prop) h :
  (forall r w, steady (wire h) w -> outstanding w = outstanding (wire h) ++ option_list ((fun req => (event_kinds.CLASS_PREPARE, req)) <$> ok_of r) ->
     Q r (wired w h)) ->
  wp (conn (set_class_prepare pattern pol)) Q h.
Proof.
  intros HQ. eapply wp_conn; [apply surjective_pairing|]. unfold set_class_prepare, class_prepare_body.
  rewrite (put_be_spec 1 event_kinds.CLASS_PREPARE). cbn [be_bytes app]. change (event_kinds.CLASS_PREPARE / _) with event_kinds.CLASS_PREPARE.
  change (event_kinds.CLASS_PREPARE mod 256) with event_kinds.CLASS_PREPARE.
  match goal with |- context [set_request (?k :: ?body) ?w] => pose proof (set_request_ledger k body w) as L; destruct (set_request (k :: body) w) as [r w'] end.
  destruct L as [S O]. by apply HQ.
Qed.

(** ** Locations *)

Lemma wp_arm_locations pol f locs out (Q : ExtraLineCopies -> Host -> Prop) h :
  (forall w reqs locs' refused, grants (wire h) w reqs -> sublist locs' locs -> length reqs = length locs' ->
     length locs = (length locs' + length refused)%nat ->
     Q {| el_request_ids := el_request_ids out ++ reqs; el_armed := el_armed out ++ locs'; el_refused := el_refused out ++ refused |} (wired w h)) ->
  wp (arm_locations pol f locs out) Q h.
Proof.
  revert out h. induction locs as [|loc locs IH]; intros out h HQ; cbn [arm_locations].
  - apply wp_ret. rewrite <- (wired_same h). destruct out as [a b c].
    pose proof (HQ (wire h) [] [] []) as K. rewrite !app_nil_r in K. apply K; [apply grants_idle; reflexivity|constructor|done|done].
  - apply wp_bind, wp_set_breakpoint. intros r w1 G1. apply IH. intros w2 reqs locs' refused G2 Hs Hl Hn.
    change (wired w2 (wired w1 h)) with (wired w2 h). change (wire (wired w1 h)) with w1 in G2.
    destruct r as [req|e]; simpl; rewrite <- !(assoc_L (++)); apply HQ.
    + exact (grants_trans _ _ _ [req] reqs G1 G2).
    + by constructor.
    + simpl. by rewrite Hl.
    + simpl. lia.
    + exact (grants_trans _ _ _ [] reqs G1 G2).
    + by constructor.
    + done.
    + simpl. lia.
Qed.

Lemma wp_arm_extra arm f (Q : ExtraLineCopies -> Host -> Prop) h :
  (forall w reqs locs' refused, grants (wire h) w reqs -> sublist locs' (ba_extra_locations arm) -> length reqs = length locs' ->
     length (ba_extra_locations arm) = (length locs' + length refused)%nat ->
     Q {| el_request_ids := reqs; el_armed := locs'; el_refused := refused |} (wired w h)) ->
  wp (arm_extra_line_locations arm f) Q h.
Proof. intros HQ. apply wp_arm_locations. exact HQ. Qed.

Lemma wp_other_copies others spec locations unresolved (Q : list ArmedLocation * list string -> Host -> Prop) h :
  (forall w locs un, idle (wire h) w -> (forall l, l ∈ locs -> al_class_id l ∈ others) ->
     Q (locations ++ locs, unresolved ++ un) (wired w h)) ->
  wp (resolve_other_classloader_copies others spec locations unresolved) Q h.
Proof.
  revert locations unresolved h. induction others as [|c others IH]; intros locations unresolved h HQ; cbn [resolve_other_classloader_copies].
  - apply wp_ret. rewrite <- (wired_same h). pose proof (HQ (wire h) [] []) as K. rewrite !app_nil_r in K.
    apply K; [reflexivity|by intros l ?%elem_of_nil].
  - apply wp_bind, wp_idle; [apply _|]. intros r w1 I1. destruct r as [o|e]; apply IH; intros w2 locs un I2 Hl;
      change (wired w2 (wired w1 h)) with (wired w2 h); rewrite <- ?(assoc_L (++)).
    + rewrite <- app_comm_cons. apply HQ; [by transitivity w1|]. intros l [->|[Hx|Hx%Hl]%elem_of_app]%elem_of_cons; [by left| |by right].
      apply list_elem_of_fmap in Hx as (i & -> & _). by left.
    + apply HQ; [by transitivity w1|]. intros l Hx%Hl. by right.
Qed.

Lemma wp_try_copies ids spec i left_ absent (Q : result ArmError (PrimaryCopy + option BpLocationError) -> Host -> Prop) h :
  (forall w r, idle (wire h) w ->
     (forall p, r = Ok (inl p) -> pc_class_id p ∈ left_ /\ pc_others p = base.filter (fun o => o <> pc_class_id p) ids) -> Q r (wired w h)) ->
  wp (try_copies ids spec i left_ absent) Q h.
Proof.
  revert i absent h. induction left_ as [|c left_ IH]; intros i absent h HQ; cbn [try_copies].
  - apply wp_ret. rewrite <- (wired_same h). by apply HQ.
  - apply wp_bind, wp_idle; [apply _|]. intros r w1 I1. destruct r as [loc|[m|l|e]].
    + apply wp_bind. set (K := fun caveat : option string => _). cbv beta.
      assert (HK : forall caveat w, idle (wire h) w -> K caveat (wired w h)).
      { intros caveat w I. apply wp_ret. apply HQ; [done|]. intros p [= <-]. simpl. split; [by left|done]. }
      destruct (i =? 0); [apply wp_ret; by apply HK|]. apply wp_bind, wp_idle; [apply _|]. intros labels w2 I2. apply wp_ret.
      apply (HK _ w2). by transitivity w1.
    + apply IH. intros w2 r I2 Hr. change (wired w2 (wired w1 h)) with (wired w2 h). apply HQ; [by transitivity w1|].
      intros p Hp. destruct (Hr p Hp). split; [by right|done].
    + apply wp_ret. by apply HQ.
    + apply wp_ret. by apply HQ.
Qed.

Lemma wp_primary ids spec rearm (Q : result ArmError PrimaryCopy -> Host -> Prop) h :
  (forall w r, idle (wire h) w ->
     (forall p, r = Ok p -> pc_class_id p ∈ ids /\ pc_others p = base.filter (fun o => o <> pc_class_id p) ids) -> Q r (wired w h)) ->
  wp (resolve_primary_copy ids spec rearm) Q h.
Proof.
  intros HQ. unfold resolve_primary_copy, try_or. apply wp_bind, wp_try_copies. intros w r I Hr.
  destruct r as [[p|absent]|e].
  - apply wp_ret. apply HQ; [done|]. intros p' [= <-]. by apply Hr.
  - destruct (rp_watch rearm); [apply wp_bind; unfold wp at 1, session| |apply wp_bind; unfold wp at 1, session]; apply wp_ret; by apply HQ.
  - apply wp_ret. by apply HQ.
Qed.

(** ** Arming and registering *)

(** The stop point [sp] is registered on top of [h], whose connection became [w]. *)
Definition registered (sp : StopPoint) (w : World) (h : Host) : Host :=
  changed (with_state (register_stop_point sp)) (wired w h).

(** [sp] is what arming [spec] under [bp_id] with the watch [rearm] makes of it. *)
Definition armed_as (class_ids : list Z) (spec : BreakpointSpec) (bp_id : string) (rearm : RearmState) (sp : StopPoint) : Prop :=
  exists b, sp = armed_line_stop_point bp_id (sp_request_ids sp) spec b /\
    lb_class_pattern b = bs_class_pattern spec /\ lb_arm_line b = bs_line_opt spec /\ lb_arm_method b = bs_method_hint spec /\
    lb_rearm b = rearm /\ ba_suspend_policy (lb_arm b) = bs_suspend_policy spec /\
    length (sp_request_ids sp) = S (length (ba_extra_locations (lb_arm b))) /\
    ba_class_id (lb_arm b) ∈ class_ids /\ (forall l, l ∈ ba_extra_locations (lb_arm b) -> al_class_id l ∈ class_ids).

Lemma wp_arm_and_insert ids spec bp_id rearm (Q : result ArmError ArmedBreakpoint -> Host -> Prop) h :
  (forall e w, idle (wire h) w -> Q (Err e) (wired w h)) ->
  (forall a sp w, armed_as ids spec bp_id (rp_watch rearm) sp -> grants (wire h) w (sp_request_ids sp) ->
     ab_bp_id a = bp_id -> ab_request_ids a = sp_request_ids sp -> ab_loader_count a = zlen ids ->
     Q (Ok a) (registered sp w h)) ->
  wp (arm_and_insert ids spec bp_id rearm) Q h.
Proof.
  intros HErr HOk. unfold arm_and_insert, try_or.
  case_bool_decide; [apply wp_ret; rewrite <- (wired_same h); by apply HErr|].
  apply wp_bind, wp_primary. intros w1 r I1 Hr. destruct r as [p|e]; [|apply wp_ret; by apply HErr].
  destruct (Hr p eq_refl) as [Hp Ho]. clear Hr. cbv zeta. destruct (is_some (bs_instance_filter spec) && _); [apply wp_ret; by apply HErr|].
  apply wp_bind, wp_set_breakpoint. intros [req|e] w2 G2; change (wire (wired w1 h)) with w1 in G2;
    change (wired w2 (wired w1 h)) with (wired w2 h).
  2: { apply wp_ret, HErr. transitivity w1; [done|]. by apply grants_nil. }
  apply wp_bind, wp_other_copies. intros w3 locs un I3 Hl. change (wired w3 (wired w2 h)) with (wired w3 h).
  change (wire (wired w2 h)) with w2 in I3. cbn beta iota.
  apply wp_bind, wp_arm_extra. intros w4 reqs armed refused G4 Hs Hn _. change (wired w4 (wired w3 h)) with (wired w4 h).
  change (wire (wired w3 h)) with w3 in G4. cbn [el_request_ids el_armed el_refused ba_extra_locations] in *.
  assert (G : grants (wire h) w4 (req :: reqs)).
  { apply (grants_trans _ w1 _ [] (req :: reqs)); [by apply grants_idle|]. apply (grants_trans _ w2 _ [req] reqs); [exact G2|].
    by apply (grants_trans _ w3 _ [] reqs); [apply grants_idle|]. }
  apply wp_bind. set (K := fun loaders : list string => _).
  assert (HK : forall loaders w, idle w4 w -> K loaders (wired w h)).
  { intros loaders w I. unfold K. apply wp_bind. unfold wp at 1, session. apply wp_bind. unfold wp at 1, on_state, on_session.
    apply wp_ret.
    match goal with |- Q (Ok ?a) {| h_session := with_state (register_stop_point ?sp) _; h_ticks := _; h_alerts := _ |} =>
      apply (HOk a sp w) end; try done.
    2: { replace (sp_request_ids _) with ((req :: reqs) ++ []) by (simpl; by rewrite app_nil_r). eapply grants_trans; [exact G|].
         by apply grants_idle. }
    eexists. split; [reflexivity|]. cbn [lb_class_pattern lb_arm_line lb_arm_method lb_rearm lb_arm ba_suspend_policy ba_extra_locations
      ba_class_id sp_request_ids armed_line_stop_point]. split_and!; try done.
    - simpl. by rewrite Hn.
    - intros l Hx. apply (sublist_subseteq _ _ Hs) in Hx. apply elem_of_app in Hx as [Hx|Hx%Hl].
      + by apply list_elem_of_fmap in Hx as (i & -> & _).
      + rewrite Ho in Hx. by apply list_elem_of_filter in Hx as [_ ?]. }
  destruct (1 <? zlen ids); [|apply wp_ret; by apply HK].
  apply wp_idle; [apply _|]. intros loaders w I. apply (HK loaders w I).
Qed.
End Facts.

(** ** The contract of arming *)

(** C33. Arming a line stop point, whatever the debuggee answers, steers nothing and does one of two
    things. It fails, and the session, and the requests the debuggee holds, are as they were. Or it
    registers exactly one stop point, under the id it was given: that stop point is built from the
    specification alone, owns exactly the requests the debuggee granted, in their order, one for each location
    it is armed at, and every one of its locations is in one of the copies of the class it was given. *)
Theorem arming_exact `{BC : BytesCrate} `{D : Debuggee} `{PF : Platform} class_ids spec bp_id rearm h :
  let '(r, h') := arm_and_insert class_ids spec bp_id rearm h in
  match r with
  | Err _ => exists w, idle (wire h) w /\ h' = wired w h
  | Ok a => exists sp w, h' = registered sp w h /\ armed_as class_ids spec bp_id (rp_watch rearm) sp /\
      grants (wire h) w (sp_request_ids sp) /\ ab_bp_id a = bp_id /\ ab_request_ids a = sp_request_ids sp /\ ab_loader_count a = zlen class_ids
  end.
Proof.
  apply (wp_arm_and_insert class_ids spec bp_id rearm (fun r h' => _)).
  - by eexists.
  - intros a sp w Ha G E1 E2 E3. by exists sp, w.
Qed.
