(* ===== verification/ClassLoadFacts.v ===== *)
(** * What a class load does to the books of a session

    The books of a session say who owns each request the debuggee holds. Arming what waits for a class,
    growing the families it matches and covering its new copy keep them: no request is left without an
    owner, no stop point is lost or redefined, and the debuggee is steered by nothing but the one resume
    that lets the loading thread go. *)

From S2P Require Import Prelude Protocol Types Reader Events Connection Client EventRequest StopPoint.
From S2P Require Import EventRing MonitorClock Suspensions Traces Session Manager Api Generics Text Expr Condition Host EventPump Steering.
From S2P Require Import Honest Locate Paths Drift Arming Rearm ClassLoads Ledger ArmingFacts.

(** ** The books *)

Abbreviation stops s := (ss_stop_points (ds_state s)).
Abbreviation pendings s := (ss_pending_breakpoints (ds_state s)).
Abbreviation stop_seq s := (ss_stop_seq (ds_state s)).


(** ** What may become of a stop point *)

(** A line stop point whose armed locations grew, and whose notes changed. *)
Record covers_more (b b' : LineBreakpoint) : Prop := {
  cm_class : lb_class_pattern b' = lb_class_pattern b;
  cm_line : (lb_line b', lb_method b', lb_arm_line b', lb_arm_method b') = (lb_line b, lb_method b, lb_arm_line b, lb_arm_method b);
  cm_locations : exists more, lb_arm b' = with_extra (ba_extra_locations (lb_arm b) ++ more) (lb_arm b);
  cm_watch : (fun w => (rw_request_id w, rw_signature w)) <$> watch (lb_rearm b') = (fun w => (rw_request_id w, rw_signature w)) <$> watch (lb_rearm b);
}.

(** The same stop point, with more requests and locations at most. *)
Record extends (sp sp' : StopPoint) : Prop := {
  ex_rest : stop_with (fun _ => sp_request_ids sp) id id id id id (fun _ => sp_armed_on sp) sp' = sp;
  ex_requests : exists more, sp_request_ids sp' = sp_request_ids sp ++ more;
  ex_armed : match sp_armed_on sp, sp_armed_on sp' with OnLine b, OnLine b' => covers_more b b' | a, a' => a = a' end;
}.

#[global] Instance covers_more_preorder : PreOrder covers_more.
Proof.
  split.
  - intros b. split; try done. exists []. rewrite app_nil_r. by destruct b as [? ? ? ? ? ? ? [] ?].
  - intros b1 b2 b3 [A1 B1 (m1 & C1) D1] [A2 B2 (m2 & C2) D2]. split; [congruence..| |congruence].
    exists (m1 ++ m2). rewrite C2, C1. simpl. by rewrite (assoc_L (++)).
Qed.

#[global] Instance extends_preorder : PreOrder extends.
Proof.
  split.
  - intros sp. split; [by destruct sp|exists []; by rewrite app_nil_r|]. by destruct (sp_armed_on sp).
  - intros s1 s2 s3 [A1 (m1 & B1) C1] [A2 (m2 & B2) C2]. split.
    + transitivity (stop_with (fun _ => sp_request_ids s1) id id id id id (fun _ => sp_armed_on s1) s2); [by rewrite <- A2|done].
    + exists (m1 ++ m2). by rewrite B2, B1, (assoc_L (++)).
    + destruct (sp_armed_on s1), (sp_armed_on s2), (sp_armed_on s3); try done; try congruence. by etransitivity.
Qed.

(** Does a stop point watch for copies of the class of a signature? *)
Definition watches (sig : string) (sp : StopPoint) : Prop :=
  exists b w, sp_armed_on sp = OnLine b /\ watch (lb_rearm b) = Some w /\ rw_signature w = sig.
Definition kept (sig : string) (sp sp' : StopPoint) : Prop := sp' = sp \/ (watches sig sp /\ extends sp sp').

#[global] Instance kept_preorder sig : PreOrder (kept sig).
Proof.
  split; [by left|]. intros s1 s2 s3 [->|[W1 E1]] [->|[W2 E2]]; [by left|by right|by right|right]. split; [done|]. by etransitivity.
Qed.

(** ** What a class load may do to a session *)

(** [sp] is what the deferred stop point [p] becomes when it is armed in the type [cp_ref]. *)
Definition became (cp_ref : Z) (p : PendingBreakpoint) (sp : StopPoint) : Prop :=
  exists reqs loc drift arm, sp = armed_from_pending p reqs loc drift arm /\ ba_class_id arm = cp_ref /\
    length reqs = S (length (ba_extra_locations arm)) /\ forall l, l ∈ ba_extra_locations arm -> al_class_id l = cp_ref.

(** What the operator said of a family. *)
Definition family (s : PatternStopSet) : _ :=
  (ps_id s, ps_class_pattern s, ps_enabled s, ps_method s, ps_hit_count s, ps_instance_filter s, ps_thread_filter s, ps_condition s,
   (ps_trace s, ps_trace_expr s, ps_trace_budget s, ps_trace_frames s, ps_trace_max_length s, ps_max_classes s)).

(** What a class load does not touch at all. *)
Definition untouched (s : DebugSession) : _ :=
  (ds_events s, ds_last_thread s, ds_pending_step s, ds_suspensions s, ds_traces s, ds_redefinitions s, ds_monitor_clock s,
   (ds_class_roots s, ds_read_only s, ss_disarmed_traced_requests (ds_state s), family <$> ds_pattern_sets s)).

Record loads (cp_ref : Z) (sig : string) (s s' : DebugSession) : Prop := {
  ld_steady : steady (ds_connection s) (ds_connection s');
  ld_untouched : untouched s' = untouched s;
  ld_stops id sp : stops s !! id = Some sp -> exists sp', stops s' !! id = Some sp' /\ kept sig sp sp';
  ld_pending p : p ∈ pendings s' -> p ∈ pendings s;
  ld_resolved p : p ∈ pendings s -> p ∈ pendings s' \/
    (pb_signature p = sig /\ exists sp sp', became cp_ref p sp /\ extends sp sp' /\ stops s' !! pb_bp_id p = Some sp');
}.

#[global] Instance loads_preorder cp_ref sig : PreOrder (loads cp_ref sig).
Proof.
  split; [intros s; split; [done|done|by intros id sp; exists sp|done|by left]|]. intros s1 s2 s3 L1 L2. split.
  - etransitivity; [apply L1|apply L2].
  - etransitivity; [apply L2|apply L1].
  - intros id sp (sp2 & H2 & K2)%(ld_stops _ _ _ _ L1). destruct (ld_stops _ _ _ _ L2 _ _ H2) as (sp3 & H3 & K3).
    exists sp3. split; [done|]. by etransitivity.
  - intros p Hp. apply L1, L2, Hp.
  - intros p [Hp|(Hs & sp & sp2 & B & E & H2)]%(ld_resolved _ _ _ _ L1); [by apply L2|right]. split; [done|].
    destruct (ld_stops _ _ _ _ L2 _ _ H2) as (sp3 & H3 & K3). exists sp, sp3. split_and!; [done| |done].
    destruct K3 as [->|[_ K3]]; [done|]. by etransitivity.
Qed.

Section Steps.
Context `{BC : BytesCrate} `{D : Debuggee} `{PF : Platform}.






(** ** A deferred stop point is armed *)







(** ** A stop point covers more *)




(** ** A new stop point of a family *)





(** ** Deferred stop points *)






(** ** Families *)







(** ** Later copies *)







End Steps.

(** ** The contract of a class load *)


(** ** Sample runs *)

(** A debuggee that has loaded one class, in the types [loaded], with one method whose line 7 has two
    copies; it grants every request but those for a breakpoint when [refusing], each under the id of its packet. *)
Definition class_vm (loaded : list Z) (refusing : bool) : Debuggee := {|
  issue_outcome _ _ := None;
  reply_outcome _ p :=
    let set := cp_command_set p in
    let command := cp_command p in
    let text s := write_jdwp_string (BC := network_order) s in
    let refused := refusing && event_packet event_commands.SET p && bool_decide (head (cp_data p) = Some event_kinds.BREAKPOINT) in
    Ok {| rp_id := cp_id p; rp_error_code := if refused then 103 else 0;
          rp_data :=
            if (set =? 1) && (command =? 2) then be_bytes 4 (zlen loaded) ++ concat (map (fun t => be_bytes 1 1 ++ be_bytes 8 t ++ be_bytes 4 7) loaded)
            else if (set =? 2) && (command =? 15) then be_bytes 4 1 ++ be_bytes 8 2 ++ text "run" ++ text "()V" ++ text "" ++ be_bytes 4 1
            else if (set =? 6) && (command =? 1) then
              be_bytes 8 0 ++ be_bytes 8 9 ++ be_bytes 4 3 ++ concat (map (fun '(i, l) => be_bytes 8 i ++ be_bytes 4 l) [(0, 7); (4, 8); (9, 7)])
            else if event_packet event_commands.SET p then be_bytes 4 (cp_id p)
            else if (set =? 2) && (command =? 2) then be_bytes 8 0 else [] |};
  lapses_unissued _ _ := false;
  lapses_unanswered _ _ := false
|}.

(** A platform with no file. *)
Definition bare_platform : Platform := {|
  is_file _ := false; canonicalize _ := None; read_file _ := Err "absent"; read_to_string _ := Err "absent";
  grapheme_extended _ := false; unicode_printable _ := true
|}.

Definition waiting : PendingBreakpoint := {|
  pb_bp_id := "bp_1"; pb_class_prepare_request_id := 40; pb_class_pattern := "A"; pb_signature := "LA;"; pb_line := Some 7; pb_method := None;
  pb_hit_count := None; pb_instance_filter := None; pb_thread_filter := None; pb_condition := None; pb_trace := false; pb_trace_expr := [];
  pb_trace_budget := None; pb_trace_frames := 0; pb_trace_max_length := None
|}.
Definition waiting_host : Host := {|
  h_session := with_state (fun _ => {| ss_stop_points := ∅; ss_pending_breakpoints := [waiting]; ss_disarmed_traced_requests := []; ss_stop_seq := 1 |})
    (new_session world_init "a:1" sample_seed);
  h_ticks := 0; h_alerts := []
|}.
Definition loading : EventSet :=
  {| es_suspend_policy := 1; es_events := [{| ev_kind := 8; ev_request_id := 40; ev_details := ClassPrepare 7 31 "LA;" 7 |}] |}.



(** The deferred stop point is armed at both copies of its line, with the ids of the two requests. *)
Example both_copies_armed :
  let h := snd (try_arm_deferred_breakpoints (BC := network_order) (D := class_vm [31] false) (PF := bare_platform)
    (StopOrder := some_order) (SetOrder := some_order) loading waiting_host) in
  (sp_request_ids <$> stops (h_session h) !! "bp_1", pendings (h_session h), outstanding (BC := network_order) (wire h)) =
  (Some [3; 4], [], [(event_kinds.BREAKPOINT, 3); (event_kinds.BREAKPOINT, 4)]).
Proof. vm_compute. reflexivity. Qed.

(** * Runs that lose a request or a copy

    Concrete runs of the handlers against the debuggee [class_vm] in which a request the debuggee holds
    is left without an owner, or a stop point stops covering a copy of its class. *)

Definition line_spec (pattern : string) (line : option Z) (method : option string) : BreakpointSpec := {|
  bs_instance_filter := None; bs_class_pattern := pattern; bs_signature := signature_for_dotted pattern; bs_line_opt := line; bs_method_hint := method;
  bs_hit_count := None; bs_thread_filter := None; bs_condition := None; bs_trace := false; bs_trace_expr := []; bs_trace_budget := None;
  bs_trace_frames := 0; bs_trace_max_length := None; bs_suspend_policy := SuspendAll
|}.

Definition fresh_host : Host := {| h_session := new_session world_init "a:1" sample_seed; h_ticks := 0; h_alerts := [] |}.

(** Everything that may own a request, and the requests of a host. *)
Definition owners (h : Host) : list (string * list Z) * list string * list string :=
  (map (fun e => (fst e, sp_request_ids (snd e))) (map_to_list (stops (h_session h))), map pb_bp_id (pendings (h_session h)),
   map fst (map_to_list (ds_pattern_sets (h_session h)))).
Definition held_requests (h : Host) : list Request := outstanding (BC := network_order) (wire h).

Section Runs.
#[local] Existing Instances network_order bare_platform.
#[local] Instance stop_order : IterOrder string StopPoint := some_order.
#[local] Instance set_order : IterOrder string PatternStopSet := some_order.

(** The class is loaded and has no line 99: arming fails after the watch for later copies was granted, and
    nothing owns the watch. *)
Example watch_of_nobody :
  let h := snd (arm_one_pattern (D := class_vm [31] false) (line_spec "A" (Some 99) None) [] 10 fresh_host) in
  (held_requests h, owners h) = ([(event_kinds.CLASS_PREPARE, 2)], ([], [], [])).
Proof. vm_compute. reflexivity. Qed.

(** A family is disabled, its member is enabled on its own, then the family is enabled: the member is
    armed a second time, and its first request is held by the debuggee for nobody. *)
Example rearmed_twice :
  let run := (
    f ← arm_pattern_family (D := class_vm [31] false) (line_spec "A*" None (Some "run")) [("A", 31)] 10;
    _ ← toggle_pattern_family (D := class_vm [31] false) (fo_set_id f) false;
    _ ← handle_toggle_stop_point (D := class_vm [31] false) "bp_2" (Some true);
    toggle_pattern_family (D := class_vm [31] false) (fo_set_id f) true) in
  let h := snd (run fresh_host) in
  (base.filter (fun r => fst r = event_kinds.BREAKPOINT) (held_requests h), owners h) =
    ([(event_kinds.BREAKPOINT, 9); (event_kinds.BREAKPOINT, 10); (event_kinds.BREAKPOINT, 13); (event_kinds.BREAKPOINT, 14)],
     ([("bp_2", [13; 14])], [], ["bpset_1"])).
Proof. vm_compute. reflexivity. Qed.

(** The types a stop point is armed in, one for each location. *)
Definition armed_in (id : string) (h : Host) : option (list Z) :=
  sp ← stops (h_session h) !! id; b ← line sp; Some (ba_class_id (lb_arm b) :: map al_class_id (ba_extra_locations (lb_arm b))).

(** Armed in two copies of its class, disabled and enabled again: only the first copy is covered. *)
Example copy_lost :
  let vm := class_vm [31; 32] false in
  let armed := snd (arm_and_insert (D := vm) [31; 32] (line_spec "A" (Some 8) None) "bp_1" family_member fresh_host) in
  let off := snd (handle_toggle_stop_point (D := vm) "bp_1" (Some false) armed) in
  let on := snd (handle_toggle_stop_point (D := vm) "bp_1" (Some true) off) in
  (armed_in "bp_1" armed, armed_in "bp_1" on) = (Some [31; 32], Some [31]).
Proof. vm_compute. reflexivity. Qed.

(** Armed by the name of its method, at the entry: enabled again it is armed at every copy of the line
    the entry is on. *)
Example entry_becomes_line :
  let vm := class_vm [31] false in
  let armed := snd (arm_and_insert (D := vm) [31] (line_spec "A" None (Some "run")) "bp_1" family_member fresh_host) in
  let off := snd (handle_toggle_stop_point (D := vm) "bp_1" (Some false) armed) in
  let on := snd (handle_toggle_stop_point (D := vm) "bp_1" (Some true) off) in
  (armed_in "bp_1" armed, armed_in "bp_1" on) = (Some [31], Some [31; 31]).
Proof. vm_compute. reflexivity. Qed.
End Runs.
