(* ===== verification/Reading.v ===== *)
(** * Reads of one object ([mcp-server/src/handlers.rs], [value_reads.rs])

    What every reader of values shares: the walks over a class and its superclasses for a method or a
    field, the reads a caller has committed to and fetched in one wave, and whether a Hibernate
    association has been fetched, read from its fields. *)

From S2P Require Import Prelude Protocol Types Reader Connection Client Generics Text Expr Locate Paths StopPoint Arming Rearm.

(** ** The question mark *)

Definition st_try {E A B} (m : St (result E A)) (k : A -> St (result E B)) : St (result E B) :=
  r ← m; match r with Ok a => k a | Err e => mret (Err e) end.
Definition st_some {A B} (m : St (option A)) (k : A -> St (option B)) : St (option B) :=
  o ← m; match o with Some a => k a | None => mret None end.

(** [m.await.map_err(|e| format!("{what}{e}"))], [m.await.ok()] and [m.await.unwrap_or(d)]. *)
Definition failing {A} (what : string) (m : M A) : St (result string A) :=
  r ← attempt m; mret (match r with Ok a => Ok a | Err e => Err (what +s+ display_error e) end).
Definition st_ok {A} (m : M A) : St (option A) := r ← attempt m; mret (ok_of r).
Definition st_or {A} (d : A) (m : M A) : St A := r ← attempt m; mret (unwrap_or d r).

Notation "x ←? m ; k" := (st_try m (fun x => k)) (at level 20, m at level 100, k at level 200, right associativity).
Notation "x ←~ m ; k" := (st_some m (fun x => k)) (at level 20, m at level 100, k at level 200, right associativity).

Definition string_of_chars (s : chars) : string := string_of_bytes (concat (map encode_utf8 s)).

(** [truncate]: by characters. *)
Definition truncate (s : string) (max : Z) : string :=
  let n := zlen (str_chars s) in
  if max <? n then
    string_of_chars (take (Z.to_nat max) (str_chars s)) +s+ "… (" +s+ pretty n +s+ " chars total)"
  else s.

Definition as_object_id (v : Value) : option Z :=
  match val_data v with VObject id => if id =? 0 then None else Some id | _ => None end.
Definition as_int (v : Value) : option Z := match val_data v with VInt n => Some n | _ => None end.
Definition as_long (v : Value) : option Z := match val_data v with VLong n => Some n | _ => None end.

(** ** Descriptors of methods *)

Definition index_of (c : Z) (s : chars) : option nat := fst <$> list_find (fun x => x = c) s.

(** The text between the parentheses. *)
Definition parameters_of (sig : string) : option chars :=
  let s := str_chars sig in
  a ← index_of (ch "(") s;
  b ← index_of (ch ")") s;
  if (a <? b)%nat then Some (take (b - S a) (drop (S a) s)) else None.

(** The count: [skipping] is inside a class name, up to its semicolon. *)
Fixpoint count_arguments (skipping : bool) (s : chars) : nat :=
  match s with
  | [] => 0
  | c :: s =>
    if skipping then count_arguments (negb (c =? ch ";")) s
    else if c =? ch "[" then count_arguments false s
    else if c =? ch "L" then S (count_arguments true s)
    else S (count_arguments false s)
  end.
Definition sig_arg_count (sig : string) : nat :=
  match parameters_of sig with Some s => count_arguments false s | None => 0%nat end.

(** What Rust prints for a [ValueData] with [Debug]; [Debug] of a float is the standard library's. *)
Class FloatText : Type := { show_f32 : Z -> string; show_f64 : Z -> string; debug_f32 : Z -> string; debug_f64 : Z -> string }.

Definition debug_value_data `{FloatText} (d : ValueData) : string :=
  match d with
  | VByte v => "Byte(" +s+ pretty v +s+ ")"
  | VChar v => "Char(" +s+ pretty v +s+ ")"
  | VFloat v => "Float(" +s+ debug_f32 v +s+ ")"
  | VDouble v => "Double(" +s+ debug_f64 v +s+ ")"
  | VInt v => "Int(" +s+ pretty v +s+ ")"
  | VLong v => "Long(" +s+ pretty v +s+ ")"
  | VShort v => "Short(" +s+ pretty v +s+ ")"
  | VBoolean v => "Boolean(" +s+ show_bool v +s+ ")"
  | VObject v => "Object(" +s+ pretty v +s+ ")"
  | VVoid => "Void"
  end.

Definition debug_option (o : option string) : string :=
  match o with Some s => "Some(" +s+ s +s+ ")" | None => "None" end.

Section Reading.
Context `{BC : BytesCrate} `{D : Debuggee}.

(** ** Walks up the superclasses *)

(** [while let Some(tid) = current { guard += 1; if guard > 50 { break } .. }]: at most [n] classes. *)
Fixpoint climb {E A} (n : nat) (current : option Z) (visit : Z -> St (result E (option A))) : St (result E (option A)) :=
  match n, current with
  | S n, Some tid =>
    found ←? visit tid;
    match found with
    | Some a => mret (Ok (Some a))
    | None => parent ← st_or None (get_superclass tid); climb n parent visit
    end
  | _, _ => mret (Ok None)
  end.
Definition CHAIN_GUARD : nat := 50.

Definition find_method_arity (type_id : Z) (name : string) (argc : nat) : St (result string (option (Z * MethodInfo))) :=
  climb CHAIN_GUARD (Some type_id) (fun tid =>
    methods ←? failing "Failed to get methods: " (get_methods tid);
    mret (Ok (pair tid <$> List.find (fun m => String.eqb (mi_name m) name && (sig_arg_count (mi_signature m) =? argc)%nat) methods))).

Definition find_field (type_id : Z) (name : string) : St (result string (option Z)) :=
  climb CHAIN_GUARD (Some type_id) (fun tid =>
    fields ←? failing "Failed to get fields: " (get_fields tid);
    mret (Ok (fi_field_id <$> List.find (fun f => String.eqb (fi_name f) name) fields))).

Definition find_static_field (type_id : Z) (name : string) : St (result string (option Z)) :=
  climb CHAIN_GUARD (Some type_id) (fun tid =>
    fields ←? failing "Failed to get fields: " (get_fields tid);
    mret (Ok (fi_field_id <$> List.find (fun f => String.eqb (fi_name f) name && negb (Z.land (fi_mod_bits f) ACC_STATIC =? 0)) fields))).

(** The instance fields of a class and of its superclasses; a class whose fields cannot be read ends the walk. *)
Fixpoint instance_fields_from (n : nat) (current : option Z) (out : list FieldInfo) : St (list FieldInfo) :=
  match n, current with
  | S n, Some tid =>
    fields ← attempt (get_fields tid);
    match fields with
    | Ok fields =>
      let out := out ++ base.filter (fun f => Z.land (fi_mod_bits f) ACC_STATIC = 0) fields in
      parent ← st_or None (get_superclass tid); instance_fields_from n parent out
    | Err _ => mret out
    end
  | _, _ => mret out
  end.
Definition collect_instance_fields (type_id : Z) : St (list FieldInfo) := instance_fields_from CHAIN_GUARD (Some type_id) [].

Definition type_name_of (id : Z) : St string :=
  t ← attempt (get_object_reference_type id);
  match t with
  | Ok t => sig ← st_or "" (get_signature t); mret (decode_signature sig)
  | Err _ => mret "object"
  end.

Definition invoke_no_arg (id type_id tid : Z) (method : string) : St (option Value) :=
  found ← find_method_arity type_id method 0;
  match found with
  | Ok (Some (decl, m)) =>
    r ←~ st_ok (invoke_method id tid decl (mi_method_id m) []);
    mret (if snd r =? 0 then Some (fst r) else None)
  | _ => mret None
  end.

(** ** Reads fetched in one wave ([value_reads.rs]) *)

Definition TAG_STRING : Z := 115.

Inductive FirstRead : Type := StringContents (id : Z) | ReferenceType (id : Z).

Record ValueReads : Type := {
  vr_strings : gmap Z (option string);
  vr_types : gmap Z (option Z);
  vr_boxed : gmap Z (option Value);
}.
Definition reads_none : ValueReads := {| vr_strings := ∅; vr_types := ∅; vr_boxed := ∅ |}.

Definition first_read (value : Value) : option FirstRead :=
  match val_data value with
  | VObject id =>
    if id =? 0 then None
    else if val_tag value =? TAG_STRING then Some (StringContents id) else Some (ReferenceType id)
  | _ => None
  end.

(** The reads the values need first, each once: the strings and the objects. *)
Record Plan : Type := { pl_seen : gset Z; pl_strings : list Z; pl_objects : list Z }.
Definition no_plan : Plan := {| pl_seen := ∅; pl_strings := []; pl_objects := [] |}.

Definition plan_step (reads : ValueReads) (p : Plan) (value : Value) : Plan :=
  match first_read value with
  | Some (StringContents id) =>
    if negb (is_some (vr_strings reads !! id)) && negb (bool_decide (id ∈ pl_seen p))
    then {| pl_seen := {[ id ]} ∪ pl_seen p; pl_strings := pl_strings p ++ [id]; pl_objects := pl_objects p |} else p
  | Some (ReferenceType id) =>
    if negb (is_some (vr_types reads !! id)) && negb (bool_decide (id ∈ pl_seen p))
    then {| pl_seen := {[ id ]} ∪ pl_seen p; pl_strings := pl_strings p; pl_objects := pl_objects p ++ [id] |} else p
  | None => p
  end.

Definition keep_all {A} (ids : list Z) (got : list (JdwpResult A)) (m : gmap Z (option A)) : gmap Z (option A) :=
  foldl (fun m e => <[fst e := ok_of (snd e)]> m) m (zip ids got).

(** One wave for the ids that are wanted, none for none. *)
Definition fetch {A} (read : list Z -> St (list (JdwpResult A))) (ids : list Z) (m : gmap Z (option A)) : St (gmap Z (option A)) :=
  if bool_decide (ids = []) then mret m else got ← read ids; mret (keep_all ids got m).

Definition extend_committed (values : list Value) (reads : ValueReads) : St ValueReads :=
  let p := foldl (plan_step reads) no_plan values in
  strings ← fetch read_string_values_independently (pl_strings p) (vr_strings reads);
  types ← fetch read_reference_types_independently (pl_objects p) (vr_types reads);
  mret {| vr_strings := strings; vr_types := types; vr_boxed := vr_boxed reads |}.

Definition committed (values : list Value) : St ValueReads := extend_committed values reads_none.

Definition committed_boxed (wanted : list (Z * list Z)) (reads : ValueReads) : St ValueReads :=
  if bool_decide (wanted = []) then mret reads else
  got ← read_object_values_independently wanted;
  mret {| vr_strings := vr_strings reads; vr_types := vr_types reads;
          vr_boxed := foldl (fun m e => <[fst (fst e) := ok_of (snd e) ≫= head]> m) (vr_boxed reads) (zip wanted got) |}.

Definition string_contents (reads : ValueReads) (id : Z) : St (option string) :=
  match vr_strings reads !! id with
  | Some prefetched => mret prefetched
  | None => st_ok (get_string_value id)
  end.

Definition known_type (reads : ValueReads) (id : Z) : option Z := default None (vr_types reads !! id).

Definition reference_type (reads : ValueReads) (id : Z) : St (option Z) :=
  match vr_types reads !! id with
  | Some prefetched => mret prefetched
  | None => st_ok (get_object_reference_type id)
  end.

Definition boxed_value (reads : ValueReads) (id field_id : Z) : St (option Value) :=
  match vr_boxed reads !! id with
  | Some prefetched => mret prefetched
  | None => values ←~ st_ok (get_object_values id [field_id]); mret (head values)
  end.

(** ** Boxed primitives *)

Definition BOXED_PRIMITIVES : list string :=
  ["java.lang.Integer"; "java.lang.Long"; "java.lang.Short"; "java.lang.Byte"; "java.lang.Character"; "java.lang.Boolean";
   "java.lang.Float"; "java.lang.Double"].

Definition boxed_value_field (type_id : Z) (name : string) : St (option Z) :=
  if negb (bool_decide (name ∈ BOXED_PRIMITIVES)) then mret None else
  found ← find_field_info type_id "value" (Some false);
  mret (match found with Ok (Some (_, f)) => Some (fi_field_id f) | _ => None end).

Context `{FT : FloatText}.

Definition render_boxed_primitive (reads : ValueReads) (id type_id : Z) (name : string) : St (option string) :=
  field_id ←~ boxed_value_field type_id name;
  v ←~ boxed_value reads id field_id;
  mret (format_primitive show_f32 show_f64 (val_data v)).

(** ** Hibernate associations *)

Definition HIBERNATE_PROXY_IFACE : string := "Lorg/hibernate/proxy/HibernateProxy;".
Definition HIBERNATE_COLLECTION_IFACES : list string :=
  ["Lorg/hibernate/collection/spi/PersistentCollection;"; "Lorg/hibernate/collection/PersistentCollection;"].
Definition LAZY_INITIALIZER_FIELDS : list string := ["$$_hibernate_interceptor"; "handler"].
Definition INITIALIZED_FIELD : string := "initialized".

Inductive LazyShape : Type := EntityProxy | LazyCollection.
Inductive LazyState : Type := Loaded | Unfetched (shape : LazyShape) | UnknownState (why : string).

Definition hibernate_candidate (sig : string) : option LazyShape :=
  let s := bytes_of_string sig in
  if contains (chars_of "$HibernateProxy$") s || contains (chars_of "_$$_javassist") s then Some EntityProxy
  else if starts_with (chars_of "Lorg/hibernate/collection/") s then Some LazyCollection else None.

Fixpoint lazy_initializer_in (names : list string) (obj_id type_id : Z) : St (option Z) :=
  match names with
  | [] => mret None
  | name :: names =>
    found ← find_field type_id name;
    match found with
    | Ok (Some fid) =>
      vals ← attempt (get_object_values obj_id [fid]);
      match vals with
      | Ok (v :: _) =>
        match as_object_id v with Some id => mret (Some id) | None => lazy_initializer_in names obj_id type_id end
      | _ => lazy_initializer_in names obj_id type_id
      end
    | _ => lazy_initializer_in names obj_id type_id
    end
  end.
Definition read_lazy_initializer (obj_id type_id : Z) : St (option Z) :=
  lazy_initializer_in LAZY_INITIALIZER_FIELDS obj_id type_id.

(** [.map_err(|e| format!("{before}{e}{after}"))]. *)
Definition failing_in {A} (before after : string) (m : M A) : St (result string A) :=
  r ← attempt m; mret (match r with Ok a => Ok a | Err e => Err (before +s+ display_error e +s+ after) end).

Definition read_initialized_flag (obj_id : Z) : St (result string bool) :=
  type_id ←? failing_in "its lazy initialiser's own type could not be read (" ")" (get_object_reference_type obj_id);
  found ← find_field type_id INITIALIZED_FIELD;
  match found with
  | Err e => mret (Err ("looking for its `" +s+ INITIALIZED_FIELD +s+ "` field failed (" +s+ e +s+ ")"))
  | Ok None => mret (Err ("it has no `" +s+ INITIALIZED_FIELD +s+ "` field, so this is not a layout this recognises"))
  | Ok (Some fid) =>
    vals ←? failing_in ("reading its `" +s+ INITIALIZED_FIELD +s+ "` field failed (") ")" (get_object_values obj_id [fid]);
    mret (match val_data <$> head vals with
          | Some (VBoolean b) => Ok b
          | other => Err ("its `" +s+ INITIALIZED_FIELD +s+ "` field is " +s+ debug_option (debug_value_data <$> other) +s+ ", not a boolean")
          end)
  end.

Definition flag_state (shape : LazyShape) (r : result string bool) : LazyState :=
  match r with Ok true => Loaded | Ok false => Unfetched shape | Err why => UnknownState why end.

(** Whether one of the interfaces is implemented; the first that is ends the loop. *)
Fixpoint implements_one (type_id : Z) (ifaces : list string) : St bool :=
  match ifaces with
  | [] => mret false
  | iface :: ifaces => yes ← implements_interface type_id iface; if yes : bool then mret true else implements_one type_id ifaces
  end.

Definition hibernate_lazy_state (obj_id type_id : Z) : St LazyState :=
  sig ← st_or "" (get_signature type_id);
  match hibernate_candidate sig with
  | None => mret Loaded
  | Some EntityProxy =>
    proxy ← implements_interface type_id HIBERNATE_PROXY_IFACE;
    if negb proxy then mret Loaded else
    init ← read_lazy_initializer obj_id type_id;
    match init with
    | None => mret (UnknownState ("it implements " +s+ decode_signature HIBERNATE_PROXY_IFACE +s+
        " but has neither of the fields that hold a lazy initialiser (" +s+ join " or " LAZY_INITIALIZER_FIELDS +s+
        "), so whether the row has been fetched cannot be read without invoking something"))
    | Some init_id => flag ← read_initialized_flag init_id; mret (flag_state EntityProxy flag)
    end
  | Some LazyCollection =>
    is_collection ← implements_one type_id HIBERNATE_COLLECTION_IFACES;
    if negb is_collection then mret Loaded else
    flag ← read_initialized_flag obj_id; mret (flag_state LazyCollection flag)
  end.

Definition declares_field (type_id : Z) (name : string) : St bool :=
  fields ← attempt (get_fields type_id);
  mret (match fields with Ok fs => existsb (fun f => String.eqb (fi_name f) name) fs | Err _ => false end).
End Reading.

(** ** What is said of an association that was not fetched *)

Inductive LazyPolicy : Type := Report | Initialize.

Definition lazy_policy (force_initialize read_only : bool) : result string LazyPolicy :=
  if force_initialize && read_only then
    Err "🔒 read-only session: force_initialize is refused. Initialising a Hibernate lazy association runs the SELECTs Hibernate deferred, in the debuggee, against whatever persistence context that thread is in — a write, not a read. Without it the unfetched link is still REPORTED, which is the answer read-only can give honestly."
  else Ok (if force_initialize then Initialize else Report).

Definition lazy_link_note (shape : LazyShape) : string :=
  match shape with
  | EntityProxy => "a row nobody has fetched — neither null nor a value"
  | LazyCollection => "contents not fetched — neither empty nor populated"
  end.
Definition lazy_link_kind (shape : LazyShape) : string :=
  match shape with EntityProxy => "Hibernate proxy" | LazyCollection => "Hibernate collection" end.
Definition lazy_link_summary (shape : LazyShape) (class_name : string) : string :=
  "⏳ UNFETCHED " +s+ lazy_link_kind shape +s+ " (" +s+ class_name +s+ ") — " +s+ lazy_link_note shape.

Definition lazy_link_report (shape : LazyShape) (class_name member : string) : string :=
  lazy_link_summary shape class_name +s+ newline +s+ "   '." +s+ member +s+ "' was NOT resolved. " +s+
  match shape with
  | EntityProxy => "Resolving it would issue SELECTs into whatever persistence context this thread is in — on a shared instance that is someone ELSE's in-flight request, whose entity graph you would have mutated — or throw LazyInitializationException if the entity is detached, which is ordinary rather than exotic here." +s+ newline +s+ "   A field read is NOT the safe alternative and this is measured, not assumed: a proxy's own inherited fields are never populated, so `.id` reads null while the proxy's identity is set. That is a wrong answer with no error at all."
  | LazyCollection => "Resolving it would trigger the collection's initialisation — the SELECT Hibernate deferred — in whatever persistence context this thread is in. On a shared instance that is someone else's in-flight request."
  end +s+ newline +s+ "   Pass force_initialize:true to walk in anyway, accepting the load; or read the association from a request that already fetched it.".

Definition lazy_unknown_report (why class_name member : string) : string :=
  "❓ CANNOT TELL whether this Hibernate lazy value has been fetched (" +s+ class_name +s+ ") — " +s+ why +s+ "." +s+ newline +s+
  "   '." +s+ member +s+ "' was NOT resolved, because the alternative is to guess 'already loaded' and then perform the very load this check exists to avoid. Pass force_initialize:true to resolve it anyway, accepting that.".

(** The member a segment names: a call is shown as one. *)
Definition seg_member_display (seg : Seg) : string :=
  if is_some (seg_args seg) then string_of_chars (seg_name seg) +s+ "()" else string_of_chars (seg_name seg).

Section LazyReceiver.
Context `{BC : BytesCrate} `{D : Debuggee} `{FT : FloatText}.

Definition check_lazy_receiver (obj_id type_id : Z) (seg : Seg) (policy : LazyPolicy) : St (result string unit) :=
  match policy with
  | Initialize => mret (Ok tt)
  | Report =>
    let member := seg_member_display seg in
    state ← hibernate_lazy_state obj_id type_id;
    match state with
    | Loaded => mret (Ok tt)
    | _ =>
      safe ← (if is_some (seg_args seg) then mret false else
              match state with
              | Unfetched LazyCollection => mret true
              | _ => declares_field type_id (string_of_chars (seg_name seg))
              end : St bool);
      if safe : bool then mret (Ok tt) else
      sig ← st_or "" (get_signature type_id);
      mret (match state with
            | Loaded => Ok tt
            | Unfetched shape => Err (lazy_link_report shape (decode_signature sig) member)
            | UnknownState why => Err (lazy_unknown_report why (decode_signature sig) member)
            end)
    end
  end.
End LazyReceiver.
