(* ===== verification/ReadingFacts.v ===== *)
(** * Reads fetched ahead answer what single reads answer ([mcp-server/src/value_reads.rs])

    Against a debuggee that is not changing, the reads a caller committed to and fetched in one wave
    give the answers the reads one at a time would have given, send nothing more, and each object is
    asked about once. *)

From S2P Require Import Prelude Protocol Types Reader Connection Client Generics Text Expr Locate Reading.

Section Constant.
Context `{BC : BytesCrate} `{D : Debuggee}.

(** The debuggee takes every packet and answers a command the same way whenever it is asked. *)
Record constant (f : Z -> Z -> bytes -> JdwpResult (Z * bytes)) : Prop := {
  cn_taken log p : issue_outcome log p = None;
  cn_answers log p : reply_outcome log p =
    '(code, data) ← f (cp_command_set p) (cp_command p) (cp_data p); Ok {| rp_id := cp_id p; rp_error_code := code; rp_data := data |};
}.

Context (f : Z -> Z -> bytes -> JdwpResult (Z * bytes)) (Hf : constant f).

(** What a command answers, decoded. *)
Definition given {B} (set command : Z) (body : bytes) (r : Reader B) : JdwpResult B :=
  '(code, data) ← f set command body; decode_with r {| rp_id := 0; rp_error_code := code; rp_data := data |}.

Definition reply_to (p : CommandPacket) : JdwpResult ReplyPacket :=
  '(code, data) ← f (cp_command_set p) (cp_command p) (cp_data p); Ok {| rp_id := cp_id p; rp_error_code := code; rp_data := data |}.

Lemma decode_reply {B} id set command body (r : Reader B) :
  reply_to (with_data (new_command id set command) body) ≫= decode_with r = given set command body r.
Proof. unfold reply_to, given. simpl. by destruct (f set command body) as [[code data]|e]. Qed.

Lemma ask_constant {B} set command body (r : Reader B) w :
  fst ((reply ← exchange (request set command body); of_result (decode_with r reply) : M B) w) = given set command body r.
Proof.
  rewrite <- (decode_reply (w_next_id w)). unfold mbind at 1, m_bind, exchange, send_command, request, mbind, m_bind, st_bind, lift, next_id,
    modify, issue_packet, await_reply, mret, st_ret. simpl. rewrite (cn_taken _ Hf). simpl. rewrite (cn_answers _ Hf). fold (reply_to (with_data (new_command (w_next_id w) set command) body)).
  by destruct (reply_to _).
Qed.

Lemma drain_constant window results w : fst (drain window results w) = results ++ map reply_to window.
Proof.
  revert results w. induction window as [|p window IH]; intros results w; simpl; [by rewrite app_nil_r|].
  unfold mbind, st_bind, attempt, await_reply. rewrite IH, (cn_answers _ Hf), <- app_assoc. done.
Qed.

Lemma issue_all_constant packets window results w :
  fst (issue_all packets window results w) = results ++ map reply_to (window ++ packets).
Proof.
  revert window results w. induction packets as [|p packets IH]; intros window results w; simpl.
  { by rewrite drain_constant, app_nil_r. }
  assert (Step : forall window results w, fst ((issued ← attempt (issue_packet p);
    match issued with
    | Ok _ => issue_all packets (window ++ [p]) results
    | Err e => results ← drain window results; issue_all packets [] (results ++ [Err e])
    end : St _) w) = results ++ map reply_to (window ++ p :: packets)).
  { clear window results w. intros window results w. unfold mbind, st_bind, attempt, issue_packet. rewrite (cn_taken _ Hf), IH.
    by rewrite <- app_assoc. }
  case_match; [|apply Step]. destruct window as [|oldest window]; [apply Step|].
  unfold mbind at 1, st_bind at 1, mbind at 1, st_bind at 1, attempt at 1, await_reply at 1, mret at 1, st_ret at 1.
  rewrite (cn_answers _ Hf). etransitivity; [apply Step|]. simpl. by rewrite <- app_assoc.
Qed.

Lemma st_map_cons {A B} (g : A -> St B) a l w :
  fst (st_map g (a :: l) w) = fst (g a w) :: fst (st_map g l (snd (g a w))).
Proof.
  cbn [st_map]. unfold mbind, st_bind. destruct (g a w) as [b w1]. simpl. by destruct (st_map g l w1).
Qed.

Lemma wave_constant_of {A B} set command (body : A -> bytes) (request_of : A -> St CommandPacket) (r : Reader B) l w :
  (forall a, request_of a = request set command (body a)) ->
  fst (wave request_of (decode_with r) l w) = map (fun a => given set command (body a) r) l.
Proof.
  intros Hb. assert (Packets : forall w, map (fun p => reply_to p ≫= decode_with r) (fst (st_map request_of l w)) =
    map (fun a => given set command (body a) r) l).
  { clear w. induction l as [|a l IH]; intros w; [done|]. rewrite st_map_cons. cbn [map]. rewrite IH, Hb. f_equal. apply decode_reply. }
  unfold wave, mbind at 1, st_bind at 1. specialize (Packets w). destruct (st_map _ l w) as [ps w1]. simpl in Packets.
  unfold read_independently, modify, mbind, st_bind. destruct (issue_all ps [] [] _) as [replies w2] eqn:E.
  apply (f_equal fst) in E. rewrite issue_all_constant in E. simpl in *. subst. by rewrite map_map.
Qed.
Lemma wave_constant {A B} set command (body : A -> bytes) (r : Reader B) l w :
  fst (wave (fun a => request set command (body a)) (decode_with r) l w) = map (fun a => given set command (body a) r) l.
Proof. by apply wave_constant_of. Qed.

(** ** What was kept *)

Lemma keep_all_lookup {A} ids (got : list (JdwpResult A)) m id :
  keep_all ids got m !! id = match List.find (fun e => bool_decide (fst e = id)) (rev (zip ids got)) with
                             | Some e => Some (ok_of (snd e))
                             | None => m !! id
                             end.
Proof.
  unfold keep_all. revert m. induction (zip ids got) as [|e l IH] using rev_ind; intros m; [done|].
  rewrite foldl_app, rev_app_distr. simpl. case_bool_decide as E.
  - by rewrite E, lookup_insert_eq.
  - by rewrite lookup_insert_ne, IH.
Qed.

(** The answers of a wave, kept by id. *)
Lemma keep_all_map {A} ids (g : Z -> JdwpResult A) m id :
  keep_all ids (map g ids) m !! id = if bool_decide (id ∈ ids) then Some (ok_of (g id)) else m !! id.
Proof.
  rewrite keep_all_lookup. assert (Hz : zip ids (map g ids) = map (fun i => (i, g i)) ids) by
    (induction ids as [|i ids IH]; simpl; [done|by rewrite IH]). rewrite Hz, <- map_rev.
  destruct (List.find _ _) as [e|] eqn:E.
  - apply List.find_some in E as [Hin He%bool_decide_eq_true]. apply in_map_iff in Hin as (i & <- & Hi). simpl in *. subst.
    rewrite bool_decide_true; [done|]. by apply list_elem_of_In, in_rev.
  - rewrite bool_decide_false; [done|]. intros Hin. pose proof (List.find_none _ _ E (id, g id)) as K. simpl in K.
    rewrite bool_decide_true in K by done. discriminate K. apply in_map_iff. exists id. split; [done|]. by apply in_rev, list_elem_of_In in Hin || (rewrite <- in_rev; by apply list_elem_of_In).
Qed.

Definition one_string (id : Z) : JdwpResult string := given command_sets.STRING_REFERENCE string_reference_commands.VALUE (put_be 8 id) read_string.
Definition one_type (id : Z) : JdwpResult Z :=
  given command_sets.OBJECT_REFERENCE object_reference_commands.REFERENCE_TYPE (put_be 8 id) (_type_tag ← read_u8; read_u64).

Lemma get_string_value_constant id w : fst (get_string_value id w) = one_string id.
Proof. apply ask_constant. Qed.
Lemma get_object_reference_type_constant id w : fst (get_object_reference_type id w) = one_type id.
Proof. apply ask_constant. Qed.
Lemma read_strings_constant ids w : fst (read_string_values_independently ids w) = map one_string ids.
Proof. apply (wave_constant command_sets.STRING_REFERENCE string_reference_commands.VALUE (fun id => put_be 8 id)). Qed.
Lemma read_types_constant ids w : fst (read_reference_types_independently ids w) = map one_type ids.
Proof. apply (wave_constant command_sets.OBJECT_REFERENCE object_reference_commands.REFERENCE_TYPE (fun id => put_be 8 id)). Qed.

(** Reads that hold nothing a single read would not answer. *)
Definition faithful (reads : ValueReads) : Prop := forall id,
  (forall o, vr_strings reads !! id = Some o -> o = ok_of (one_string id)) /\
  (forall o, vr_types reads !! id = Some o -> o = ok_of (one_type id)).

Definition plan_of (values : list Value) (reads : ValueReads) : Plan := foldl (plan_step reads) no_plan values.

(** What a wave keeps: the ids planned, each with its own answer, and what was there. *)
Lemma extend_committed_kept values reads w :
  let reads' := fst (extend_committed values reads w) in
  (forall id, vr_strings reads' !! id =
     if bool_decide (id ∈ pl_strings (plan_of values reads)) then Some (ok_of (one_string id)) else vr_strings reads !! id) /\
  (forall id, vr_types reads' !! id =
     if bool_decide (id ∈ pl_objects (plan_of values reads)) then Some (ok_of (one_type id)) else vr_types reads !! id).
Proof.
  unfold extend_committed. fold (plan_of values reads). set (p := plan_of values reads). cbv zeta.
  assert (Wave : forall {A} ids (g : Z -> JdwpResult A) (read : list Z -> St (list (JdwpResult A))) m,
    (forall ids w, fst (read ids w) = map g ids) -> forall w, exists w', fetch read ids m w = (keep_all ids (map g ids) m, w')).
  { intros A ids g read m Hr w0. unfold fetch. case_bool_decide as E; [rewrite E; by eexists|].
    unfold mbind, st_bind. specialize (Hr ids w0). destruct (read ids w0) as [got w1]. simpl in Hr. subst. by eexists. }
  destruct (Wave _ (pl_strings p) one_string read_string_values_independently (vr_strings reads) read_strings_constant w) as [w1 H1].
  destruct (Wave _ (pl_objects p) one_type read_reference_types_independently (vr_types reads) read_types_constant w1) as [w2 H2].
  unfold mbind, st_bind. rewrite H1, H2. simpl. split; intros id; apply keep_all_map.
Qed.
Lemma st_ok_fst {A} (m : M A) w : fst (st_ok m w) = ok_of (fst (m w)).
Proof. unfold st_ok, attempt, mbind, st_bind. by destruct (m w). Qed.

Lemma held_answers reads id w : faithful reads ->
  fst (string_contents reads id w) = fst (string_contents reads_none id w) /\
  fst (reference_type reads id w) = fst (reference_type reads_none id w).
Proof.
  intros Hr. destruct (Hr id) as [Hs Ht]. unfold string_contents, reference_type. simpl. rewrite !lookup_empty, !st_ok_fst,
    get_string_value_constant, get_object_reference_type_constant.
  destruct (vr_strings reads !! id) as [o|], (vr_types reads !! id) as [o'|]; simpl;
    rewrite ?st_ok_fst, ?get_string_value_constant, ?get_object_reference_type_constant; split; auto.
Qed.
End Constant.

(** ** The plan *)

Definition read_id (r : FirstRead) : Z := match r with StringContents id | ReferenceType id => id end.
Definition held (reads : ValueReads) (r : FirstRead) : Prop :=
  match r with StringContents id => is_Some (vr_strings reads !! id) | ReferenceType id => is_Some (vr_types reads !! id) end.

(** Every id planned was seen, once; every value's first read is planned, or its answer is held, or its id was. *)
Record plan_ok (reads : ValueReads) (values : list Value) (p : Plan) : Prop := {
  po_seen id : id ∈ pl_seen p <-> id ∈ pl_strings p ++ pl_objects p;
  po_once : NoDup (pl_strings p ++ pl_objects p);
  po_covers v r : v ∈ values -> first_read v = Some r -> held reads r \/ read_id r ∈ pl_strings p ++ pl_objects p;
  po_planned id : id ∈ pl_strings p ++ pl_objects p -> exists v r, v ∈ values /\ first_read v = Some r /\ read_id r = id;
}.

Lemma is_some_spec {A} (o : option A) : is_some o = true <-> is_Some o.
Proof. destruct o; simpl; [|by split; [|intros []]]. by split; [eexists|]. Qed.

Lemma plan_step_ok reads values p v : plan_ok reads values p -> plan_ok reads (values ++ [v]) (plan_step reads p v).
Proof.
  intros [Hseen Hnd Hcov Hpl].
  assert (Same : forall r, first_read v = Some r -> held reads r \/ read_id r ∈ pl_strings p ++ pl_objects p -> plan_ok reads (values ++ [v]) p).
  { intros r Hr Hh. split; [done..| |].
    - intros v' r' [Hin| ->%list_elem_of_singleton]%elem_of_app; [by apply Hcov|]. intros ?. by simplify_eq.
    - intros id (v' & r' & Hin & ?)%Hpl. exists v', r'. split; [|done]. apply elem_of_app. by left. }
  assert (New : forall r strings objects, first_read v = Some r -> read_id r ∉ pl_strings p ++ pl_objects p ->
    (strings ++ objects ≡ₚ read_id r :: pl_strings p ++ pl_objects p) ->
    plan_ok reads (values ++ [v]) {| pl_seen := {[ read_id r ]} ∪ pl_seen p; pl_strings := strings; pl_objects := objects |}).
  { intros r strings objects Hr Hn HP. split; simpl.
    - intros id. rewrite HP, elem_of_union, elem_of_singleton, elem_of_cons, Hseen. done.
    - rewrite HP. by apply list.NoDup_cons.
    - intros v' r' [Hin| ->%list_elem_of_singleton]%elem_of_app Hr'; rewrite HP, elem_of_cons.
      + destruct (Hcov v' r' Hin Hr'); tauto.
      + simplify_eq. tauto.
    - intros id. rewrite HP, elem_of_cons. intros [->|(v' & r' & Hin & ?)%Hpl].
      + exists v, r. split_and!; [|done..]. apply elem_of_app. right. by apply list_elem_of_singleton.
      + exists v', r'. split; [|done]. apply elem_of_app. by left. }
  unfold plan_step. destruct (first_read v) as [r|] eqn:Hr.
  - destruct r as [id|id].
    + destruct (is_some (vr_strings reads !! id)) eqn:E; simpl; [eapply Same; [done|]; left; by apply is_some_spec|].
      case_bool_decide as Hs; simpl; [eapply Same; [done|]; right; by apply Hseen|].
      apply (New (StringContents id)); [done|by rewrite <- Hseen|]. rewrite <- app_assoc. symmetry. apply Permutation_middle.
    + destruct (is_some (vr_types reads !! id)) eqn:E; simpl; [eapply Same; [done|]; left; by apply is_some_spec|].
      case_bool_decide as Hs; simpl; [eapply Same; [done|]; right; by apply Hseen|].
      apply (New (ReferenceType id)); [done|by rewrite <- Hseen|]. rewrite app_assoc. symmetry. apply Permutation_cons_append.
  - split; [done..| |].
    + intros v' r' [Hin| ->%list_elem_of_singleton]%elem_of_app; [by apply Hcov|]. intros ?. by simplify_eq.
    + intros id (v' & r' & Hin & ?)%Hpl. exists v', r'. split; [|done]. apply elem_of_app. by left.
Qed.

Lemma plan_of_ok reads values : plan_ok reads values (plan_of values reads).
Proof.
  unfold plan_of. induction values as [|v values IH] using rev_ind.
  - split; simpl; [set_solver|by apply list.NoDup_nil|set_solver..].
  - rewrite foldl_app. by apply plan_step_ok.
Qed.

(** Reads that were fetched ahead answer what the reads one at a time would have answered, whatever
    object is asked about and whenever, so long as the debuggee does not change; the wave asks about no
    object twice and about none that no value names; and after it every committed value's object was
    asked about, so its first read is served from what was kept. *)
Theorem prefetch_agrees `{BC : BytesCrate} `{D : Debuggee} (f : Z -> Z -> bytes -> JdwpResult (Z * bytes)) values reads w :
  constant f -> faithful f reads ->
  let reads' := fst (extend_committed values reads w) in
  let p := plan_of values reads in
  faithful f reads' /\
  (forall id w', fst (string_contents reads' id w') = fst (string_contents reads_none id w') /\
     fst (reference_type reads' id w') = fst (reference_type reads_none id w')) /\
  NoDup (pl_strings p ++ pl_objects p) /\
  (forall id, id ∈ pl_strings p ++ pl_objects p -> exists v r, v ∈ values /\ first_read v = Some r /\ read_id r = id) /\
  (forall v r, v ∈ values -> first_read v = Some r -> held reads' r \/ held reads' (StringContents (read_id r)) \/ held reads' (ReferenceType (read_id r))).
Proof.
  intros Hc Hr reads' p. destruct (extend_committed_kept f Hc values reads w) as [Ks Kt]. destruct (plan_of_ok reads values) as [_ Hnd Hcov Hpl].
  assert (Hr' : faithful f reads').
  { intros id. unfold reads'. rewrite Ks, Kt. destruct (Hr id) as [H1 H2]. split; intros o; case_bool_decide; [by intros [= <-]|apply H1|by intros [= <-]|apply H2]. }
  split_and!; [done| |done|done|].
  - intros id w'. by apply (held_answers f).
  - intros v r Hv Hf. destruct (Hcov v r Hv Hf) as [Hh|[Hin|Hin]%elem_of_app].
    + left. destruct r as [id|id]; simpl in *; unfold reads'; [rewrite Ks|rewrite Kt]; by case_bool_decide.
    + right. left. simpl. unfold reads'. rewrite Ks, bool_decide_true by done. by eexists.
    + right. right. simpl. unfold reads'. rewrite Kt, bool_decide_true by done. by eexists.
Qed.

(** A debuggee of strings that all say the same, and of objects of one type. *)
Definition same_answers (set command : Z) (body : bytes) : JdwpResult (Z * bytes) :=
  match set, command with
  | 10, 1 => Ok (0, write_jdwp_string (BC := network_order) "hi")
  | 9, 1 => Ok (0, 1 :: be_bytes 8 7)
  | _, _ => Ok (99, [])
  end.
Definition answering (f : Z -> Z -> bytes -> JdwpResult (Z * bytes)) : Debuggee := {|
  issue_outcome _ _ := None;
  reply_outcome _ p :=
    '(code, data) ← f (cp_command_set p) (cp_command p) (cp_data p); Ok {| rp_id := cp_id p; rp_error_code := code; rp_data := data |};
  lapses_unissued _ _ := false;
  lapses_unanswered _ _ := false
|}.
Lemma answering_constant f : constant (D := answering f) f.
Proof. by split. Qed.

Definition named_string : Value := {| val_tag := TAG_STRING; val_data := VObject 17 |}.

Lemma prefetch_agrees_witness :
  let values := [named_string; value_object 3; value_int 4; named_string] in
  let reads := fst (extend_committed (BC := network_order) (D := answering same_answers) values reads_none world_init) in
  vr_strings reads !! 17 = Some (Some "hi"%string) /\ vr_types reads !! 3 = Some (Some 7) /\
  fst (string_contents (BC := network_order) (D := answering same_answers) reads 17 world_init) = Some "hi"%string /\
  faithful (BC := network_order) same_answers reads.
Proof.
  destruct (prefetch_agrees (BC := network_order) (D := answering same_answers) same_answers
    [named_string; value_object 3; value_int 4; named_string] reads_none world_init (answering_constant _)) as (K & K2 & _).
  { intros id. split; intros o; simpl; by rewrite lookup_empty. }
  split; [by vm_compute|]. split; [by vm_compute|]. split; [|exact K].
  destruct (K2 17 world_init) as [K3 _]. rewrite K3. by vm_compute.
Defined.
