(* ===== verification/TextArrays.v ===== *)
(** * Arrays of bytes and of characters as text ([mcp-server/src/handlers.rs])

    The charset of a [byte[]], the selector that names it, and the decoding that marks what is not
    readable text. The theorem: the marks lose nothing, so the octets can be read back from the text. *)

From S2P Require Import Prelude Protocol Types Reader Connection Client Generics Text Expr Locate Reading.

(** ** Charsets *)

Inductive Charset : Type := Utf8 | Latin1 | Ascii.
#[global] Instance Charset_eq : EqDecision Charset.
Proof. solve_decision. Defined.

Definition charset_label (c : Charset) : string :=
  match c with Utf8 => "UTF-8" | Latin1 => "ISO-8859-1" | Ascii => "US-ASCII" end.
Definition max_bytes_per_char (c : Charset) : Z := match c with Utf8 => 4 | Latin1 | Ascii => 1 end.

Inductive ByteRender : Type := AsText (c : Charset) | Raw.
Definition default_render : ByteRender := AsText Utf8.

Definition to_ascii_lowercase (c : Z) : Z := if between 65 90 c then c + 32 else c.

Definition parse_byte_render (name : chars) : option ByteRender :=
  let key := map to_ascii_lowercase (base.filter (fun c => is_ascii_alphanumeric c = true) name) in
  let named s := bool_decide (key = chars_of s) in
  if named "utf8" then Some (AsText Utf8)
  else if named "iso88591" || named "latin1" || named "l1" then Some (AsText Latin1)
  else if named "usascii" || named "ascii" then Some (AsText Ascii)
  else if named "raw" || named "bytes" then Some Raw
  else None.

(** The last hash outside a string literal: its place among the characters. *)
Fixpoint last_hash_from (i : nat) (in_str escaped : bool) (found : option nat) (s : chars) : option nat :=
  match s with
  | [] => found
  | c :: s =>
    if in_str then
      if escaped then last_hash_from (S i) true false found s
      else if c =? BACKSLASH then last_hash_from (S i) true true found s
      else if c =? QUOTE then last_hash_from (S i) false false found s
      else last_hash_from (S i) true false found s
    else if c =? QUOTE then last_hash_from (S i) true escaped found s
    else if c =? ch "#" then last_hash_from (S i) false escaped (Some i) s
    else last_hash_from (S i) false escaped found s
  end.
Definition last_selector_hash (expr : chars) : option nat := last_hash_from 0 false false None expr.

Definition split_charset (expr : chars) : result string (chars * ByteRender) :=
  match last_selector_hash expr with
  | None => Ok (expr, default_render)
  | Some at_ =>
    let name := trim (drop (S at_) expr) in
    how ← ok_or ("'#" +s+ string_of_chars name +s+ "' is not a render selector. A trailing `#…` on an expression says how to render a byte[]/char[]: UTF-8 (the default), ISO-8859-1 (aliases: latin1), US-ASCII (ascii), or `raw` for the element list. A '#' inside a string literal is left alone.") (parse_byte_render name);
    Ok (trim_end (take at_ expr), how)
  end.

(** ** Decoding

    The text is kept as its characters. *)

Definition push_raw_byte (b : Z) : chars := BACKSLASH :: chars_of ("x" +s+ show_hex_pad false 2 b).
Definition push_raw_unit (unit : Z) : chars := BACKSLASH :: chars_of ("u" +s+ show_hex_pad true 4 unit).

Definition push_text_char (c : Z) : chars :=
  if c =? BACKSLASH then [BACKSLASH; BACKSLASH]
  else if c =? 10 then [BACKSLASH; ch "n"]
  else if c =? 13 then [BACKSLASH; ch "r"]
  else if c =? 9 then [BACKSLASH; ch "t"]
  else if (c <? 0x20) || (c =? 0x7f) then push_raw_byte c
  else [c].
Definition push_text (s : chars) : chars := s ≫= push_text_char.

(** Every octet that is in no character is marked; the fuel is the octets that are left. *)
Fixpoint utf8_marked (fuel : nat) (rest : bytes) : chars :=
  match fuel with
  | O => []
  | S fuel =>
    match utf8_check 0 rest with
    | None => push_text (utf8_chars rest)
    | Some (valid_up_to, error_len) =>
      let good := Z.to_nat valid_up_to in
      let text := if utf8_valid (take good rest) then push_text (utf8_chars (take good rest)) else [] in
      let bad := Nat.max 1 (match error_len with Some n => Z.to_nat n | None => length rest - good end) in
      let end_ := Nat.min (good + bad) (length rest) in
      text ++ (take (end_ - good) (drop good rest) ≫= push_raw_byte) ++
      match drop end_ rest with [] => [] | r => utf8_marked fuel r end
    end
  end.
Definition decode_utf8_marked (raw : bytes) : chars := utf8_marked (S (length raw)) raw.

Definition decoded_bytes (raw : bytes) (charset : Charset) : chars :=
  match charset with
  | Latin1 => raw ≫= push_text_char
  | Ascii => raw ≫= (fun b => if b <? 0x80 then push_text_char b else push_raw_byte b)
  | Utf8 => decode_utf8_marked raw
  end.
Definition decode_bytes (raw : bytes) (charset : Charset) : string := string_of_chars (decoded_bytes raw charset).

(** [char::decode_utf16]: a character, or a surrogate on its own. *)
Definition high_surrogate (u : Z) : bool := between 0xD800 0xDBFF u.
Definition low_surrogate (u : Z) : bool := between 0xDC00 0xDFFF u.

Fixpoint decode_utf16 (units : list Z) : list (Z + Z) :=
  match units with
  | [] => []
  | u :: rest =>
    if high_surrogate u then
      match rest with
      | u2 :: rest' =>
        if low_surrogate u2 then inl (0x10000 + (u - 0xD800) * 1024 + (u2 - 0xDC00)) :: decode_utf16 rest'
        else inr u :: decode_utf16 rest
      | [] => [inr u]
      end
    else if low_surrogate u then inr u :: decode_utf16 rest
    else inl u :: decode_utf16 rest
  end.

Definition decoded_chars (units : list Z) : chars :=
  decode_utf16 units ≫= (fun unit => match unit with inl c => push_text_char c | inr u => push_raw_unit u end).
Definition decode_chars (units : list Z) : string := string_of_chars (decoded_chars units).

(** ** The rendering *)

Definition TEXT_SCAN_CAP : Z := 65536.

Definition byte_of (v : Value) : option Z := match val_data v with VByte b => Some (wrap_u 8 b) | _ => None end.
Definition char_unit_of (v : Value) : option Z := match val_data v with VChar c => Some c | _ => None end.

Section Rendering.
Context `{BC : BytesCrate} `{D : Debuggee}.

Definition render_text_array (id : Z) (sig : string) (max_len : Z) (how : ByteRender) : St (option string) :=
  match how with
  | Raw => mret None
  | AsText charset =>
    let is_bytes := String.eqb sig "[B" in
    if negb is_bytes && negb (String.eqb sig "[C") then mret None else
    len ←~ st_ok (get_array_length id);
    let per := if is_bytes then max_bytes_per_char charset else 1 in
    let want := i32_of_len (Z.min (Z.min (2 ^ 64 - 1) (max_len * per)) TEXT_SCAN_CAP) in
    let take_ := Z.min len want in
    values ←~ (if take_ <=? 0 then mret (Some []) else st_ok (get_array_values id 0 take_) : St (option (list Value)));
    let '(kind, unit, label, text) :=
      if is_bytes then ("byte", "bytes", charset_label charset, decode_bytes (omap byte_of values) charset)
      else ("char", "chars", "UTF-16", decode_chars (omap char_unit_of values)) in
    let note := if take_ <? len then " (decoded " +s+ pretty take_ +s+ " of " +s+ pretty len +s+ " " +s+ unit +s+ ")" else "" in
    mret (Some (kind +s+ "[" +s+ pretty len +s+ "] " +s+ label +s+ " " +s+ dquote +s+ truncate text max_len +s+ dquote +s+ note))
  end.
End Rendering.

(** ** Characters and their octets *)

Definition scalar (c : Z) : Prop := 0 <= c < 0xD800 \/ 0xE000 <= c <= 0x10FFFF.
#[global] Instance scalar_dec c : Decision (scalar c).
Proof. unfold scalar. apply _. Defined.
Definition utf8 (cs : chars) : bytes := concat (map encode_utf8 cs).

(** Comparisons that the context settles. *)
Ltac settle := repeat (match goal with
  | |- context [?a <? ?b] => first [rewrite (proj2 (Z.ltb_lt a b)) by lia | rewrite (proj2 (Z.ltb_ge a b)) by lia]
  | |- context [?a =? ?b] => first [rewrite (proj2 (Z.eqb_eq a b)) by lia | rewrite (proj2 (Z.eqb_neq a b)) by lia]
  | |- context [?a <=? ?b] => first [rewrite (proj2 (Z.leb_le a b)) by lia | rewrite (proj2 (Z.leb_gt a b)) by lia]
  end; cbn [andb orb negb]).

(** The digits of a number in base 64. *)
Lemma digit_range c n : 0 < n -> 0 <= c mod n < n.
Proof. apply Z.mod_pos_bound. Qed.
Lemma digit_split c n : 0 < n -> c = n * (c / n) + c mod n.
Proof. intros. apply Z.div_mod. lia. Qed.
Ltac base64 c :=
  pose proof (digit_range c 64 eq_refl); pose proof (digit_split c 64 eq_refl);
  pose proof (digit_range (c / 64) 64 eq_refl); pose proof (digit_split (c / 64) 64 eq_refl);
  pose proof (digit_range (c / 4096) 64 eq_refl); pose proof (digit_split (c / 4096) 64 eq_refl);
  assert (c / 64 / 64 = c / 4096) by (rewrite Z.div_div by lia; done);
  assert (c / 4096 / 64 = c / 262144) by (rewrite Z.div_div by lia; done).

Lemma encode_check c p r : scalar c -> utf8_check p (encode_utf8 c ++ r) = utf8_check (p + zlen (encode_utf8 c)) r.
Proof.
  intros Hc. base64 c. unfold encode_utf8, scalar, zlen in *.
  destruct (Z.ltb_spec c 0x80); [|destruct (Z.ltb_spec c 0x800); [|destruct (Z.ltb_spec c 0x10000)]]; cbn [app utf8_check length];
    unfold utf8_lead, between, is_cont; settle; try done.
  - destruct (Z.eq_dec (0xE0 + c / 4096) 224); [by settle|]. destruct (Z.eq_dec (0xE0 + c / 4096) 237); [by settle|].
    destruct (Z_le_gt_dec (0xE0 + c / 4096) 236); by settle.
  - destruct (Z.eq_dec (0xF0 + c / 262144) 240); [by settle|]. destruct (Z.eq_dec (0xF0 + c / 262144) 244); by settle.
Qed.

Lemma encode_chars c r : scalar c -> utf8_chars (encode_utf8 c ++ r) = c :: utf8_chars r.
Proof.
  intros Hc. base64 c. unfold encode_utf8, scalar in *.
  destruct (Z.ltb_spec c 0x80); [|destruct (Z.ltb_spec c 0x800); [|destruct (Z.ltb_spec c 0x10000)]]; cbn [app utf8_chars];
    settle; f_equal; lia.
Qed.

Lemma encode_ok c : scalar c -> bytes_ok (encode_utf8 c).
Proof.
  intros Hc. base64 c. unfold encode_utf8, scalar, bytes_ok, in_u in *. change (2 ^ 8) with 256.
  destruct (Z.ltb_spec c 0x80); [|destruct (Z.ltb_spec c 0x800); [|destruct (Z.ltb_spec c 0x10000)]];
    repeat apply Forall_cons_2; try apply Forall_nil_2; lia.
Qed.

Lemma utf8_check_utf8 cs p r : Forall scalar cs -> utf8_check p (utf8 cs ++ r) = utf8_check (p + zlen (utf8 cs)) r.
Proof.
  intros H. revert p. induction H as [|c cs Hc _ IH]; intros p; [by rewrite Z.add_0_r|].
  unfold utf8 in *. simpl. rewrite <- app_assoc, encode_check, IH, zlen_app by done. f_equal. lia.
Qed.
Lemma utf8_chars_utf8 cs : Forall scalar cs -> utf8_chars (utf8 cs) = cs.
Proof. induction 1 as [|c cs Hc _ IH]; [done|]. unfold utf8 in *. simpl. by rewrite encode_chars, IH. Qed.
Lemma utf8_ok cs : Forall scalar cs -> bytes_ok (utf8 cs).
Proof. induction 1 as [|c cs Hc _ IH]; [by apply Forall_nil|]. apply bytes_ok_app. split; [by apply encode_ok|done]. Qed.

Lemma string_of_chars_bytes cs : Forall scalar cs -> bytes_of_string (string_of_chars cs) = utf8 cs.
Proof. intros H. by apply bytes_of_string_of_bytes, utf8_ok. Qed.
Lemma str_chars_of_chars cs : Forall scalar cs -> str_chars (string_of_chars cs) = cs.
Proof. intros H. unfold str_chars. by rewrite string_of_chars_bytes, utf8_chars_utf8. Qed.
Lemma string_of_chars_string cs : Forall scalar cs -> is_string (string_of_chars cs).
Proof.
  intros H. unfold is_string. rewrite string_of_chars_bytes, <- (app_nil_r (utf8 cs)), utf8_check_utf8 by done. done.
Qed.

(** The bytes of a character, from their values. *)
Lemma encode_two b0 b1 : 194 <= b0 <= 223 -> 128 <= b1 <= 191 ->
  let c := (b0 - 192) * 64 + (b1 - 128) in scalar c /\ encode_utf8 c = [b0; b1].
Proof. intros H0 H1 c. base64 c. unfold scalar, encode_utf8. split; [lia|]. settle. repeat f_equal; lia. Qed.
Lemma encode_three b0 b1 b2 : 224 <= b0 <= 239 -> 128 <= b1 <= 191 -> (b0 = 224 -> 160 <= b1) -> (b0 = 237 -> b1 <= 159) -> 128 <= b2 <= 191 ->
  let c := (b0 - 224) * 4096 + (b1 - 128) * 64 + (b2 - 128) in scalar c /\ encode_utf8 c = [b0; b1; b2].
Proof. intros H0 H1 Hl Hs H2 c. base64 c. unfold scalar, encode_utf8. split; [lia|]. settle. repeat f_equal; lia. Qed.
Lemma encode_four b0 b1 b2 b3 : 240 <= b0 <= 244 -> 128 <= b1 <= 191 -> (b0 = 240 -> 144 <= b1) -> (b0 = 244 -> b1 <= 143) ->
  128 <= b2 <= 191 -> 128 <= b3 <= 191 ->
  let c := (b0 - 240) * 262144 + (b1 - 128) * 4096 + (b2 - 128) * 64 + (b3 - 128) in scalar c /\ encode_utf8 c = [b0; b1; b2; b3].
Proof. intros H0 H1 Hl Hs H2 H3 c. base64 c. unfold scalar, encode_utf8. split; [lia|]. settle. repeat f_equal; lia. Qed.

Lemma utf8_lead_range b0 lo hi more : utf8_lead b0 = Some (lo, hi, more) ->
  128 <= lo /\ hi <= 191 /\
  match more with
  | O => 194 <= b0 <= 223
  | S O => 224 <= b0 <= 239 /\ (b0 = 224 -> lo = 160) /\ (b0 = 237 -> hi = 159)
  | S _ => 240 <= b0 <= 244 /\ (b0 = 240 -> lo = 144) /\ (b0 = 244 -> hi = 143)
  end.
Proof. unfold utf8_lead, between. intros H. repeat case_match; simplify_eq; reflect_bools; lia. Qed.

Lemma utf8_step b0 r p : in_u 8 b0 ->
  (exists e, utf8_check p (b0 :: r) = Some (p, e)) \/ exists c r', scalar c /\ b0 :: r = encode_utf8 c ++ r'.
Proof.
  intros Hb. cbn [utf8_check]. destruct (Z.ltb_spec b0 128) as [Hlt|_].
  { right. exists b0, r. unfold in_u, scalar, encode_utf8 in *. split; [lia|]. by settle. }
  destruct (utf8_lead b0) as [[[lo hi] more]|] eqn:E; [|by left; eexists].
  apply utf8_lead_range in E as (Hlo & Hhi & Hm).
  destruct r as [|b1 r1]; [by left; eexists|]. destruct (between lo hi b1) eqn:E1; simpl; [|by left; eexists].
  unfold between in E1. apply andb_true_iff in E1 as [?%Z.leb_le ?%Z.leb_le].
  destruct more as [|more].
  { right. destruct (encode_two b0 b1) as [Hc He]; [lia..|]. eexists _, r1. split; [exact Hc|]. by rewrite He. }
  destruct r1 as [|b2 r2]; [by left; eexists|]. destruct (is_cont b2) eqn:E2; simpl; [|by left; eexists].
  unfold is_cont in E2. apply andb_true_iff in E2 as [?%Z.leb_le ?%Z.leb_le].
  destruct more as [|more].
  { right. destruct (encode_three b0 b1 b2) as [Hc He]; [lia..|]. eexists _, r2. split; [exact Hc|]. by rewrite He. }
  destruct r2 as [|b3 r3]; [by left; eexists|]. destruct (is_cont b3) eqn:E3; simpl; [|by left; eexists].
  unfold is_cont in E3. apply andb_true_iff in E3 as [?%Z.leb_le ?%Z.leb_le].
  right. destruct (encode_four b0 b1 b2 b3) as [Hc He]; [lia..|]. eexists _, r3. split; [exact Hc|]. by rewrite He.
Qed.

Lemma encode_utf8_length c : (0 < length (encode_utf8 c))%nat.
Proof. unfold encode_utf8. repeat case_match; simpl; lia. Qed.

(** A text up to its first ill-formed octet is the characters it decodes to. *)
Lemma utf8_check_split bs p : bytes_ok bs -> exists cs rest, Forall scalar cs /\ bs = utf8 cs ++ rest /\
  match utf8_check p bs with Some (pos, _) => pos = p + zlen (utf8 cs) /\ rest <> [] | None => rest = [] end.
Proof.
  remember (length bs) as n eqn:En. revert bs p En. induction (lt_wf n) as [n _ IH]. intros bs p -> Hb.
  destruct bs as [|b0 r]; [by exists [], []|].
  destruct (utf8_step b0 r p) as [[e He]|(c & r' & Hc & E)]; [by apply Forall_inv in Hb|..].
  { exists [], (b0 :: r). rewrite He. split_and!; [by apply Forall_nil|done|unfold utf8, zlen; simpl; lia|done]. }
  rewrite E in *. apply bytes_ok_app in Hb as [_ Hb].
  destruct (IH (length r')) with (bs := r') (p := p + zlen (encode_utf8 c)) as (cs & rest & Hcs & -> & Hr); [|done..|].
  { rewrite length_app. pose proof (encode_utf8_length c). lia. }
  exists (c :: cs), rest. split_and!; [by apply Forall_cons|unfold utf8; simpl; by rewrite app_assoc|].
  rewrite encode_check by done. unfold utf8 in *. simpl. rewrite zlen_app.
  destruct (utf8_check _ _) as [[pos e]|]; [|done]. destruct Hr as [-> Hne]. split; [lia|done].
Qed.

(** ** Reading the octets back *)

Definition hex_value (c : Z) : Z := default 0 (digit_value 16 c).

(** A backslash begins a mark; every other character stands for [enc] of itself. *)
Fixpoint read_back (enc : Z -> list Z) (s : chars) : list Z :=
  match s with
  | [] => []
  | c :: s =>
    if negb (c =? BACKSLASH) then enc c ++ read_back enc s else
    match s with
    | [] => []
    | k :: s =>
      if k =? ch "n" then 10 :: read_back enc s
      else if k =? ch "r" then 13 :: read_back enc s
      else if k =? ch "t" then 9 :: read_back enc s
      else if k =? ch "x" then
        match s with a :: b :: s => (hex_value a * 16 + hex_value b) :: read_back enc s | _ => [] end
      else if k =? ch "u" then
        match s with
        | a :: b :: c :: d :: s => (((hex_value a * 16 + hex_value b) * 16 + hex_value c) * 16 + hex_value d) :: read_back enc s
        | _ => []
        end
      else k :: read_back enc s
    end
  end.

(** What a reader of the text sees: no control character. *)
Definition readable (c : Z) : Prop := scalar c /\ 32 <= c /\ c <> 127.
#[global] Instance readable_dec c : Decision (readable c).
Proof. unfold readable. apply _. Defined.

Definition marks_octet (b : Z) : bool :=
  match push_raw_byte b with
  | [m; x; d; e] => (m =? BACKSLASH) && (x =? ch "x") && (hex_value d * 16 + hex_value e =? b) && bool_decide (Forall readable [m; x; d; e])
  | _ => false
  end.
Definition marks_unit (u : Z) : bool :=
  match push_raw_unit u with
  | [m; x; d; e; f; g] => (m =? BACKSLASH) && (x =? ch "u") && (((hex_value d * 16 + hex_value e) * 16 + hex_value f) * 16 + hex_value g =? u) &&
      bool_decide (Forall readable [m; x; d; e; f; g])
  | _ => false
  end.

Lemma checked (f : Z -> bool) lo n x : forallb (fun i => f (lo + Z.of_nat i)) (seq 0 n) = true -> lo <= x < lo + Z.of_nat n -> f x = true.
Proof.
  intros H Hx. rewrite forallb_forall in H. specialize (H (Z.to_nat (x - lo))).
  rewrite Z2Nat.id in H by lia. replace (lo + (x - lo)) with x in H by lia. apply H, in_seq. lia.
Qed.
Lemma octets_marked b : in_u 8 b -> marks_octet b = true.
Proof. intros Hb. apply (checked marks_octet 0 256); [by vm_compute|]. unfold in_u in Hb. lia. Qed.
Lemma units_marked u : 0xD800 <= u <= 0xDFFF -> marks_unit u = true.
Proof. intros Hu. apply (checked marks_unit 0xD800 2048); [by vm_compute|]. lia. Qed.

Section ReadBack.
Context (enc : Z -> list Z) (Henc : forall c, 0 <= c < 128 -> enc c = [c]).

Lemma read_back_octet b r : in_u 8 b -> read_back enc (push_raw_byte b ++ r) = b :: read_back enc r.
Proof.
  intros Hb. pose proof (octets_marked b Hb) as Hm. unfold marks_octet in Hm.
  destruct (push_raw_byte b) as [|m [|x [|d [|e [|]]]]]; try done.
  apply andb_true_iff in Hm as [[[?%Z.eqb_eq ?%Z.eqb_eq]%andb_true_iff Hv%Z.eqb_eq]%andb_true_iff _]. by subst.
Qed.

Lemma read_back_unit u r : 0xD800 <= u <= 0xDFFF -> read_back enc (push_raw_unit u ++ r) = u :: read_back enc r.
Proof.
  intros Hu. pose proof (units_marked u Hu) as Hm. unfold marks_unit in Hm.
  destruct (push_raw_unit u) as [|m [|x [|d [|e [|f [|g [|]]]]]]]; try done.
  apply andb_true_iff in Hm as [[[?%Z.eqb_eq ?%Z.eqb_eq]%andb_true_iff Hv%Z.eqb_eq]%andb_true_iff _]. by subst.
Qed.

Lemma read_back_char c r : scalar c -> read_back enc (push_text_char c ++ r) = enc c ++ read_back enc r.
Proof.
  intros Hc. unfold push_text_char.
  destruct (Z.eqb_spec c BACKSLASH) as [->|]; [by rewrite Henc|].
  destruct (Z.eqb_spec c 10) as [->|]; [by rewrite Henc|]. destruct (Z.eqb_spec c 13) as [->|]; [by rewrite Henc|].
  destruct (Z.eqb_spec c 9) as [->|]; [by rewrite Henc|].
  destruct ((c <? 0x20) || (c =? 0x7f)) eqn:E.
  - assert (0 <= c < 128) by (unfold scalar in Hc; reflect_bools; lia). rewrite read_back_octet, Henc; [done|lia|unfold in_u; lia].
  - simpl. by rewrite (proj2 (Z.eqb_neq c BACKSLASH)).
Qed.

Lemma read_back_text cs r : Forall scalar cs -> read_back enc (push_text cs ++ r) = concat (map enc cs) ++ read_back enc r.
Proof.
  induction 1 as [|c cs Hc _ IH]; [done|]. change (push_text (c :: cs)) with (push_text_char c ++ push_text cs). simpl.
  by rewrite <- !app_assoc, read_back_char, IH.
Qed.
Lemma read_back_octets l r : bytes_ok l -> read_back enc ((l ≫= push_raw_byte) ++ r) = l ++ read_back enc r.
Proof. induction 1 as [|b l Hb _ IH]; [done|]. rewrite bind_cons. by rewrite <- app_assoc, read_back_octet, IH. Qed.
End ReadBack.

Lemma readable_octet b : in_u 8 b -> Forall readable (push_raw_byte b).
Proof.
  intros Hb. pose proof (octets_marked b Hb) as Hm. unfold marks_octet in Hm.
  destruct (push_raw_byte b) as [|m [|x [|d [|e [|]]]]]; try done. apply andb_true_iff in Hm as [_ Hm%bool_decide_eq_true]. done.
Qed.
Lemma readable_unit u : 0xD800 <= u <= 0xDFFF -> Forall readable (push_raw_unit u).
Proof.
  intros Hu. pose proof (units_marked u Hu) as Hm. unfold marks_unit in Hm.
  destruct (push_raw_unit u) as [|m [|x [|d [|e [|f [|g [|]]]]]]]; try done. apply andb_true_iff in Hm as [_ Hm%bool_decide_eq_true]. done.
Qed.
Lemma readable_char c : scalar c -> Forall readable (push_text_char c).
Proof.
  assert (Short : forall k, scalar k /\ 32 <= k /\ k <> 127 -> Forall readable [BACKSLASH; k]).
  { intros k Hk. apply Forall_cons_2; [unfold readable, scalar; lia|by apply Forall_singleton]. }
  assert (Shown : forall k, bool_decide (readable k) = true -> Forall readable [BACKSLASH; k]) by
    (intros k Hk%bool_decide_eq_true; by apply Short).
  intros Hc. unfold push_text_char. destruct (c =? BACKSLASH); [by apply Shown|]. destruct (c =? 10); [by apply Shown|].
  destruct (c =? 13); [by apply Shown|]. destruct (c =? 9); [by apply Shown|].
  destruct ((c <? 0x20) || (c =? 0x7f)) eqn:E.
  - apply readable_octet. unfold scalar, in_u in *. reflect_bools; lia.
  - apply orb_false_iff in E as [?%Z.ltb_ge ?%Z.eqb_neq]. apply Forall_singleton. unfold readable. split_and!; [done|lia|done].
Qed.
Lemma readable_all {A} (f : A -> chars) (P : A -> Prop) l : (forall a, P a -> Forall readable (f a)) -> Forall P l -> Forall readable (l ≫= f).
Proof. intros Hf. induction 1 as [|a l Ha _ IH]; [by apply Forall_nil|]. rewrite bind_cons. apply Forall_app. auto. Qed.
Lemma readable_scalar cs : Forall readable cs -> Forall scalar cs.
Proof. intros H. eapply Forall_impl; [|exact H]. by intros c [Hc _]. Qed.

(** ** The decoders *)

Lemma utf8_marked_back fuel rest : (length rest < fuel)%nat -> bytes_ok rest ->
  read_back encode_utf8 (utf8_marked fuel rest) = rest /\ Forall readable (utf8_marked fuel rest).
Proof.
  assert (Ascii : forall c, 0 <= c < 128 -> encode_utf8 c = [c]) by (intros c Hc; unfold encode_utf8; by settle).
  revert rest. induction fuel as [|fuel IH]; intros rest Hn Hb; [lia|]. cbn [utf8_marked].
  destruct (utf8_check_split rest 0 Hb) as (cs & tail & Hcs & -> & Hr).
  apply bytes_ok_app in Hb as [_ Hb]. rewrite length_app in Hn.
  assert (Text : forall r, read_back encode_utf8 (push_text cs ++ r) = utf8 cs ++ read_back encode_utf8 r) by
    (intros; by apply read_back_text).
  assert (Rcs : Forall readable (push_text cs)) by (eapply readable_all; [apply readable_char|done]).
  destruct (utf8_check 0 _) as [[pos e]|]; simpl.
  - destruct Hr as [-> Hne]. rewrite Z.add_0_l. unfold zlen. rewrite Nat2Z.id.
    set (bad := Nat.max 1 _). set (end_ := Nat.min _ _).
    assert (length tail <> 0)%nat by (by destruct tail). rewrite take_app_length, drop_app_length.
    assert (Valid : utf8_valid (utf8 cs) = true).
    { apply bool_decide_eq_true. pose proof (utf8_check_utf8 cs 0 [] Hcs) as Hv. rewrite app_nil_r in Hv. by rewrite Hv. }
    rewrite Valid, utf8_chars_utf8, Text, read_back_octets by (done || by apply bytes_ok_take).
    assert (He : end_ = (length (utf8 cs) + Nat.min bad (length tail))%nat) by (subst end_; rewrite length_app; lia).
    rewrite He, drop_app_add. replace (length (utf8 cs) + Nat.min bad (length tail) - length (utf8 cs))%nat with (Nat.min bad (length tail)) by lia.
    set (k := Nat.min bad _). assert (0 < k <= length tail)%nat by (subst k bad; lia).
    assert (Rk : Forall readable (take k tail ≫= push_raw_byte)) by
      (eapply readable_all; [apply readable_octet|by apply bytes_ok_take]).
    pose proof (take_drop k tail) as Hk. destruct (drop k tail) as [|b r] eqn:Ed.
    + simpl. rewrite ?app_nil_r in *. rewrite Hk in Rk |- *. split; [done|]. by rewrite Forall_app.
    + rewrite <- Ed in *. destruct (IH (drop k tail)) as [-> Hf]; [rewrite length_drop; lia|by apply bytes_ok_drop|].
      rewrite Hk. split; [done|]. by rewrite !Forall_app.
  - subst. rewrite !app_nil_r, utf8_chars_utf8 by done. split; [|done].
    rewrite <- (app_nil_r (push_text cs)), Text. simpl. apply app_nil_r.
Qed.

Lemma decode_utf16_back units : Forall (in_u 16) units ->
  Forall (fun u => match u with inl c => scalar c | inr u => 0xD800 <= u <= 0xDFFF end) (decode_utf16 units) /\
  decode_utf16 units ≫= (fun u => match u with inl c => utf16_of c | inr u => [u] end) = units.
Proof.
  induction units as [units IH] using (induction_ltof1 _ (@length Z)). unfold ltof in IH. intros Hu.
  destruct units as [|u rest]; [done|]. apply list.Forall_cons in Hu as [Hu Hrest]. unfold in_u in Hu.
  assert (Next : decode_utf16 rest ≫= (fun u => match u with inl c => utf16_of c | inr u => [u] end) = rest /\
    Forall (fun u => match u with inl c => scalar c | inr u => 0xD800 <= u <= 0xDFFF end) (decode_utf16 rest)).
  { by destruct (IH rest) as [? ?]; [simpl; lia|..]. }
  destruct Next as [Nb Nf]. cbn [decode_utf16]. unfold high_surrogate, low_surrogate, between in *.
  destruct ((0xD800 <=? u) && (u <=? 0xDBFF)) eqn:Eh.
  - destruct rest as [|u2 rest'].
    { split; [|done]. apply Forall_singleton. reflect_bools; lia. }
    destruct ((0xDC00 <=? u2) && (u2 <=? 0xDFFF)) eqn:El.
    + apply list.Forall_cons in Hrest as [Hu2 Hr']. destruct (IH rest') as [Hf Hb']; [simpl; lia|done..|].
      reflect_bools. rewrite bind_cons, Hb'. split; [apply Forall_cons_2; [unfold scalar; lia|done]|].
      unfold utf16_of. settle.
      replace (0x10000 + (u - 0xD800) * 1024 + (u2 - 0xDC00) - 65536) with ((u - 0xD800) * 1024 + (u2 - 0xDC00)) by lia.
      rewrite <- (Z.div_unique _ 1024 (u - 0xD800) (u2 - 0xDC00)), <- (Z.mod_unique _ 1024 (u - 0xD800) (u2 - 0xDC00)) by lia.
      simpl. repeat f_equal; lia.
    + rewrite bind_cons, Nb. split; [|done]. apply Forall_cons_2; [reflect_bools; lia|done].
  - destruct ((0xDC00 <=? u) && (u <=? 0xDFFF)) eqn:El; rewrite bind_cons, Nb.
    + split; [|done]. apply Forall_cons_2; [reflect_bools; lia|done].
    + unfold utf16_of. assert (scalar u) by (unfold scalar; reflect_bools; lia). settle.
      split; [by apply Forall_cons_2|done].
Qed.

Lemma octet_scalar b : in_u 8 b -> scalar b.
Proof. unfold in_u, scalar. lia. Qed.

Lemma latin1_back raw : bytes_ok raw ->
  Forall readable (raw ≫= push_text_char) /\ read_back encode_utf8 (raw ≫= push_text_char) = utf8 raw.
Proof.
  intros H. assert (Hs : Forall scalar raw) by (eapply Forall_impl; [apply octet_scalar|exact H]).
  split; [by eapply readable_all; [apply readable_char|]|].
  pose proof (read_back_text encode_utf8 (fun c Hc => ltac:(unfold encode_utf8; by settle)) raw [] Hs) as K.
  unfold push_text in K. by rewrite !app_nil_r in K.
Qed.

Lemma ascii_back raw : bytes_ok raw ->
  let text := raw ≫= (fun b => if b <? 0x80 then push_text_char b else push_raw_byte b) in
  Forall readable text /\ read_back encode_utf8 text = raw.
Proof.
  intros H. split.
  - eapply readable_all; [|exact H]. intros b Hb. case_match; [by apply readable_char, octet_scalar|by apply readable_octet].
  - induction H as [|b raw Hb _ IH]; [done|]. rewrite bind_cons.
    assert (Ascii : forall c, 0 <= c < 128 -> encode_utf8 c = [c]) by (intros c Hc; unfold encode_utf8; by settle).
    destruct (Z.ltb_spec b 0x80).
    + rewrite read_back_char by (done || by apply octet_scalar). unfold in_u in Hb. rewrite Ascii by lia. simpl. by f_equal.
    + rewrite read_back_octet by done. by f_equal.
Qed.

Lemma decoded_chars_back units :
  Forall (fun u => match u with inl c => scalar c | inr u => 0xD800 <= u <= 0xDFFF end) (decode_utf16 units) ->
  Forall readable (decoded_chars units) /\
  read_back utf16_of (decoded_chars units) = decode_utf16 units ≫= (fun u => match u with inl c => utf16_of c | inr u => [u] end).
Proof.
  intros H. unfold decoded_chars. split.
  - eapply readable_all; [|exact H]. intros [c|u]; [apply readable_char|apply readable_unit].
  - assert (Unit : forall c, 0 <= c < 128 -> utf16_of c = [c]) by (intros c Hc; unfold utf16_of; by settle).
    induction H as [|[c|u] l Hu _ IH]; [done|..]; rewrite !bind_cons.
    + rewrite read_back_char by done. by f_equal.
    + rewrite read_back_unit by done. simpl. by f_equal.
Qed.

Lemma unmarked cs : Forall readable cs -> BACKSLASH ∉ cs -> push_text cs = cs.
Proof.
  induction 1 as [|c cs Hc _ IH]; [done|]. intros [Hn1 Hn2]%not_elem_of_cons.
  change (push_text (c :: cs)) with (push_text_char c ++ push_text cs). rewrite IH by done.
  destruct Hc as (Hs & H1 & H2). unfold push_text_char. by settle.
Qed.

(** C21. What cannot be read as text is marked, never replaced or dropped. The text of a [byte[]] (of a
    [char[]]) holds no control character, so it stays on one line, is well-formed, and determines the
    array: reading its marks back, and every other character as the octets (the code units) it stands
    for, gives the octets the debuggee holds under UTF-8 and US-ASCII, the octets of the same text in
    UTF-8 under ISO-8859-1, and the code units of a [char[]], unpaired surrogates included. Text that
    needs no mark is shown as it is. *)
Theorem decoding_marks raw units :
  bytes_ok raw -> Forall (in_u 16) units ->
  (forall charset, let text := decode_bytes raw charset in
     is_string text /\ Forall readable (str_chars text) /\
     read_back encode_utf8 (str_chars text) = match charset with Latin1 => utf8 raw | _ => raw end) /\
  (let text := decode_chars units in
     is_string text /\ Forall readable (str_chars text) /\ read_back utf16_of (str_chars text) = units) /\
  (forall cs, Forall readable cs -> BACKSLASH ∉ cs -> decode_bytes (utf8 cs) Utf8 = string_of_chars cs).
Proof.
  intros Hraw Hunits.
  assert (Ascii : forall c, 0 <= c < 128 -> encode_utf8 c = [c]) by (intros c Hc; unfold encode_utf8; by settle).
  assert (Unit : forall c, 0 <= c < 128 -> utf16_of c = [c]) by (intros c Hc; unfold utf16_of; by settle).
  assert (Shown : forall cs, Forall readable cs -> is_string (string_of_chars cs) /\ str_chars (string_of_chars cs) = cs).
  { intros cs Hcs%readable_scalar. split; [by apply string_of_chars_string|by apply str_chars_of_chars]. }
  split_and!.
  - intros charset text.
    assert (K : Forall readable (decoded_bytes raw charset) /\
      read_back encode_utf8 (decoded_bytes raw charset) = match charset with Latin1 => utf8 raw | _ => raw end).
    { destruct charset; simpl.
      + split; by apply utf8_marked_back; [lia|].
      + by apply latin1_back.
      + by apply ascii_back. }
    destruct K as [Kr Kb]. destruct (Shown _ Kr) as [Ks Kc]. unfold text, decode_bytes. by rewrite Kc.
  - intros text. destruct (decode_utf16_back units Hunits) as [Hf Hb].
    destruct (decoded_chars_back units Hf) as [Kr Kb]. destruct (Shown _ Kr) as [Ks Kc].
    unfold text, decode_chars. rewrite Kc. split_and!; [done..|]. by rewrite Kb.
  - intros cs Hcs Hn. unfold decode_bytes, decoded_bytes, decode_utf8_marked. f_equal.
    cbn [utf8_marked]. pose proof (utf8_check_utf8 cs 0 [] (readable_scalar _ Hcs)) as Hv. rewrite app_nil_r in Hv.
    rewrite Hv, utf8_chars_utf8 by by apply readable_scalar. simpl. by apply unmarked.
Qed.

Lemma decoding_marks_witness :
  bytes_ok [0x41; 0xE7; 0x0A; 0x5C; 0xC3; 0xA7] /\ Forall (in_u 16) [0x41; 0xD83D; 0xDE00; 0xDC00] /\
  read_back encode_utf8 (str_chars (decode_bytes [0x41; 0xE7; 0x0A; 0x5C; 0xC3; 0xA7] Utf8)) = [0x41; 0xE7; 0x0A; 0x5C; 0xC3; 0xA7] /\
  decode_bytes [0x41; 0xE7; 0x0A; 0x5C; 0xC3; 0xA7] Utf8 = "A\xe7\n\\ç"%string /\
  read_back utf16_of (str_chars (decode_chars [0x41; 0xD83D; 0xDE00; 0xDC00])) = [0x41; 0xD83D; 0xDE00; 0xDC00].
Proof.
  assert (Hb : bytes_ok [0x41; 0xE7; 0x0A; 0x5C; 0xC3; 0xA7]) by by_compute.
  assert (Hu : Forall (in_u 16) [0x41; 0xD83D; 0xDE00; 0xDC00]) by by_compute.
  destruct (decoding_marks _ _ Hb Hu) as (H1 & H2 & _).
  split_and!; [exact Hb|exact Hu|apply (H1 Utf8)|by_compute|apply H2].
Defined.

(** A hash in a character literal is taken for a selector, although the grammar of expressions reads
    [s.indexOf('#')] as a call on the character. *)
Example hash_of_a_char_literal :
  is_ok (split_charset (chars_of "s.indexOf('#')")) = false /\ is_ok (parse_expr (chars_of "s.indexOf('#')")) = true.
Proof. split; by vm_compute. Qed.
