(* ===== verification/Structures.v ===== *)
(** * Collections read through their own fields ([mcp-server/src/handlers.rs])

    [java.util.HashMap], [LinkedHashMap], [ConcurrentHashMap] and [ArrayList], walked through their
    tables, bins and backing arrays with nothing invoked in the debuggee: one key or index, every entry
    up to the scan's cap, and the reason a walk was declined. *)

From S2P Require Import Prelude Protocol Types Reader Connection Client Generics Text Expr Locate Paths Reading.

Definition SUBSCRIPT_SCAN_CAP : Z := 1000.
Definition BIN_CHAIN_GUARD : nat := Z.to_nat 4096.
Definition TABLE_CHUNK : Z := 4096.
Definition CHM_MOVED : Z := -1.
Definition CHM_TREEBIN : Z := -2.
Definition CHM_RESERVED : Z := -3.
Definition CHM_FORWARD_HOPS : nat := 8.

Inductive Layout : Type := HashMap | LinkedHashMap | ConcurrentHashMap | ArrayList.
#[global] Instance Layout_eq : EqDecision Layout.
Proof. solve_decision. Defined.

Definition is_map (l : Layout) : bool := match l with ArrayList => false | _ => true end.
Definition fields_walked (l : Layout) : string :=
  match l with
  | HashMap => "table[] → Node.key/value/next, treeified bins included"
  | LinkedHashMap => "table[] for a key, head/after for iteration order"
  | ConcurrentHashMap => "table[] → Node.key/val/next, TreeBin.first included"
  | ArrayList => "elementData[0..size]"
  end.
Definition KNOWN_LAYOUTS : string :=
  "java.util.HashMap, java.util.LinkedHashMap, java.util.concurrent.ConcurrentHashMap, java.util.ArrayList".

Definition layout_of (sig : string) : option Layout :=
  if String.eqb sig "Ljava/util/HashMap;" then Some HashMap
  else if String.eqb sig "Ljava/util/LinkedHashMap;" then Some LinkedHashMap
  else if String.eqb sig "Ljava/util/concurrent/ConcurrentHashMap;" then Some ConcurrentHashMap
  else if String.eqb sig "Ljava/util/ArrayList;" then Some ArrayList
  else None.

(** ** The outcome of a walk *)

Inductive Walked (A : Type) : Type := Read (a : A) | Declined (why : string).
Arguments Read {A} a.
Arguments Declined {A} why.

(** The field ids resolved so far, and the one object whose type the caller already knew. *)
Record FieldIds : Type := { fid_ids : gmap (Z * string) (option Z); fid_known : option (Z * Z) }.
Definition ids_default : FieldIds := {| fid_ids := ∅; fid_known := None |}.
Definition rooted_at (obj type_id : Z) : FieldIds := {| fid_ids := ∅; fid_known := Some (obj, type_id) |}.

(** [&mut FieldIds] beside the connection; and a walk, which may be declined or fail. *)
Definition F (A : Type) : Type := FieldIds -> World -> A * FieldIds * World.
#[global] Instance f_ret : MRet F := fun _ a ids w => (a, ids, w).
#[global] Instance f_bind : MBind F := fun _ _ k m ids w => let '(a, ids, w) := m ids w in k a ids w.

Definition W (A : Type) : Type := FieldIds -> World -> result string (Walked A) * FieldIds * World.
#[global] Instance w_ret : MRet W := fun _ a ids w => (Ok (Read a), ids, w).
#[global] Instance w_bind : MBind W := fun _ _ k m ids w =>
  match m ids w with
  | (Ok (Read a), ids, w) => k a ids w
  | (Ok (Declined why), ids, w) => (Ok (Declined why), ids, w)
  | (Err e, ids, w) => (Err e, ids, w)
  end.

Definition on_conn {A} (m : St A) : F A := fun ids w => let '(a, w) := m w in (a, ids, w).
Definition walk {A} (m : F A) : W A := fun ids w => let '(a, ids, w) := m ids w in (Ok (Read a), ids, w).
(** [let Some(x) = m else { return Ok(Walked::Declined(why)) }]. *)
Definition need {A} (why : string) (m : F (option A)) : W A := fun ids w =>
  let '(o, ids, w) := m ids w in (Ok (match o with Some a => Read a | None => Declined why end), ids, w).
Definition call {A} (what : string) (m : M A) : W A := fun ids w =>
  let '(r, w) := failing what m w in (Read <$> r, ids, w).
Definition decline {A} (why : string) : W A := fun ids w => (Ok (Declined why), ids, w).
Definition fail {A} (e : string) : W A := fun ids w => (Err e, ids, w).

(** ** Hashes *)

(** [java_hash]: what [hashCode] answers for a literal, where it is specified; an [i32]. *)
Definition string_hash (units : list Z) : Z := foldl (fun h c => wrap_s 32 (wrap_s 32 (h * 31) + c)) 0 units.

Definition i32_or (d n : Z) : Z := if bool_decide (in_s 32 n) then n else d.
Definition java_hash (key : ArgLit) : option Z :=
  match key with
  | ArgStr s => Some (string_hash (encode_utf16 s))
  | ArgInt i => Some i
  | ArgLong n => Some (Z.lxor (i32_or 0 (Z.shiftr n 32)) (i32_or 0 (Z.lxor (Z.land n 0xFFFFFFFF) 0x80000000 - 0x80000000)))
  | ArgChar c => Some c
  | ArgBool b => Some (if b then 1231 else 1237)
  | ArgFloat _ | ArgDouble _ | ArgNull | ArgExpr _ => None
  end.

Definition hashmap_spread (h : Z) : Z := Z.lxor h (Z.land (Z.shiftr h 16) 0xFFFF).
Definition chm_spread (h : Z) : Z := Z.land (Z.lxor h (Z.land (Z.shiftr h 16) 0xFFFF)) 0x7fffffff.

Definition arglit_kind (key : ArgLit) : string :=
  match key with
  | ArgStr _ => "String"
  | ArgInt _ => "int"
  | ArgLong _ => "long"
  | ArgFloat _ => "float"
  | ArgDouble _ => "double"
  | ArgChar _ => "char"
  | ArgBool _ => "boolean"
  | ArgNull => "null"
  | ArgExpr _ => "expression"
  end.
Definition unhashable_key (key : ArgLit) : string :=
  "a " +s+ arglit_kind key +s+ " key cannot be hashed without invoking hashCode() in the debuggee".

Definition bin_guard_reason : string :=
  "a hash bin was still going after 4096 nodes, which a concurrent resize can make a read look like".
Definition node_shape_reason (value_field : string) : string :=
  "a bin node has no key/" +s+ value_field +s+ "/next, so this is not the layout walked here".
Definition chm_resizing_reason : string :=
  "one of its bins had already been moved by a resize running now, and a scan spanning both tables would double-count or lose entries".

Section Walks.
Context `{BC : BytesCrate} `{D : Debuggee}.

Definition recognise_layout (type_id : Z) : St (option Layout) :=
  sig ←~ st_ok (get_signature type_id); mret (layout_of sig).

(** ** The fields of an object *)

Definition field_id (type_id : Z) (name : string) : F (option Z) := fun ids w =>
  match fid_ids ids !! (type_id, name) with
  | Some hit => (hit, ids, w)
  | None =>
    let '(r, w) := find_field type_id name w in
    let found := match r with Ok o => o | Err _ => None end in
    (found, {| fid_ids := <[(type_id, name) := found]> (fid_ids ids); fid_known := fid_known ids |}, w)
  end.

(** Stops at the first name the class does not have. *)
Fixpoint field_ids (type_id : Z) (names : list string) : F (option (list Z)) :=
  match names with
  | [] => mret (Some [])
  | name :: names =>
    fid ← field_id type_id name;
    match fid with
    | None => mret None
    | Some fid => rest ← field_ids type_id names; mret (cons fid <$> rest)
    end
  end.

Definition type_of_object (obj : Z) : F (option Z) := fun ids w =>
  match fid_known ids with
  | Some (rooted, type_id) => if rooted =? obj then (Some type_id, ids, w) else on_conn (st_ok (get_object_reference_type obj)) ids w
  | None => on_conn (st_ok (get_object_reference_type obj)) ids w
  end.

Definition read_fields_of (obj : Z) (names : list string) : F (option (list Value)) :=
  type_id ← type_of_object obj;
  match type_id with
  | None => mret None
  | Some type_id =>
    fids ← field_ids type_id names;
    match fids with
    | None => mret None
    | Some fids =>
      vals ← on_conn (st_ok (get_object_values obj fids));
      mret (vals ← vals; if (length vals =? length names)%nat then Some vals else None)
    end
  end.

Definition nth_value (n : nat) (vals : list Value) : Value := default value_null (vals !! n).
Definition nth_object (n : nat) (vals : list Value) : option Z := vals !! n ≫= as_object_id.
Definition nth_int (n : nat) (vals : list Value) : option Z := vals !! n ≫= as_int.

(** ** Keys *)

Definition boxed_data (id : Z) : F (option ValueData) :=
  vals ← read_fields_of id ["value"]; mret (val_data <$> (vals ≫= head)).

Definition matches_data (want : ValueData) (o : option ValueData) : bool := bool_decide (o = Some want).

Definition key_matches (stored : Value) (want : ArgLit) : F bool :=
  match as_object_id stored with
  | None => mret false
  | Some id =>
    t ← on_conn (st_ok (get_object_reference_type id));
    match t with
    | None => mret false
    | Some type_id =>
      sig ← on_conn (st_or "" (get_signature type_id));
      match want with
      | ArgStr s =>
        if String.eqb sig "Ljava/lang/String;" then
          read ← on_conn (st_ok (get_string_value id)); mret (bool_decide (read = Some (string_of_chars s)))
        else mret false
      | ArgInt i => if String.eqb sig "Ljava/lang/Integer;" then d ← boxed_data id; mret (matches_data (VInt i) d) else mret false
      | ArgLong l => if String.eqb sig "Ljava/lang/Long;" then d ← boxed_data id; mret (matches_data (VLong l) d) else mret false
      | ArgBool b => if String.eqb sig "Ljava/lang/Boolean;" then d ← boxed_data id; mret (matches_data (VBoolean b) d) else mret false
      | ArgChar c => if String.eqb sig "Ljava/lang/Character;" then d ← boxed_data id; mret (matches_data (VChar c) d) else mret false
      | _ => mret false
      end
    end
  end.

(** ** Bins *)

(** [guard] nodes may still be read. *)
Fixpoint bin_lookup_from (guard : nat) (cur : option Z) (hash : Z) (key : ArgLit) (value_field : string) : W Value :=
  match cur with
  | None => mret value_null
  | Some node =>
    match guard with
    | O => decline bin_guard_reason
    | S guard =>
      nf ← need (node_shape_reason value_field) (read_fields_of node ["hash"; "key"; value_field; "next"]);
      found ← walk (if bool_decide (nth_int 0 nf = Some hash) then
          match nf !! 1%nat with Some k => key_matches k key | None => mret false end
        else mret false : F bool);
      if found : bool then mret (nth_value 2 nf)
      else bin_lookup_from guard (nth_object 3 nf) hash key value_field
    end
  end.
Definition bin_lookup (start : option Z) (hash : Z) (key : ArgLit) (value_field : string) : W Value :=
  bin_lookup_from BIN_CHAIN_GUARD start hash key value_field.

Abbreviation Pairs := (list (Value * Value)).

(** The entries of a bin after those of [out], while there are fewer than [cap]. *)
Fixpoint bin_collect_from (guard : nat) (cur : option Z) (value_field : string) (cap : nat) (out : Pairs) : W Pairs :=
  match cur with
  | None => mret out
  | Some node =>
    if (cap <=? length out)%nat then mret out else
    match guard with
    | O => decline bin_guard_reason
    | S guard =>
      nf ← need (node_shape_reason value_field) (read_fields_of node ["key"; value_field; "next"]);
      bin_collect_from guard (nth_object 2 nf) value_field cap (out ++ [(nth_value 0 nf, nth_value 1 nf)])
    end
  end.
Definition bin_collect (start : option Z) (value_field : string) (cap : nat) (out : Pairs) : W Pairs :=
  bin_collect_from BIN_CHAIN_GUARD start value_field cap out.

(** The first field as an object, the second as a count. *)
Definition map_table (map_ : Z) (names : list string) : W (option Z * Z) :=
  f ← need ("it has no " +s+ join "/" names +s+ ", so this is not the layout walked here") (read_fields_of map_ names);
  mret (nth_object 0 f, default 0 (nth_int 1 f)).

(** ** One key *)

Definition hash_map_lookup (map_ : Z) (key : ArgLit) : W Value :=
  match hashmap_spread <$> java_hash key with
  | None => decline (unhashable_key key)
  | Some hash =>
    '(table, _) ← map_table map_ ["table"];
    match table with
    | None => mret value_null
    | Some table =>
      n ← call "Failed to read the map's table: " (get_array_length table);
      if n <=? 0 then mret value_null else
      head_ ← call "Failed to read the map's bin: " (get_array_values table (Z.land (n - 1) hash) 1);
      bin_lookup (head head_ ≫= as_object_id) hash key "value"
    end
  end.

Inductive Bin : Type := Chain (start : option Z) | Forward (next : option Z) | Empty.

Definition chm_bin (head_id : Z) : W Bin :=
  hf ← need "a bin head has no `hash` field, so this is not the layout walked here" (read_fields_of head_id ["hash"]);
  match nth_int 0 hf with
  | Some h =>
    if h =? CHM_TREEBIN then
      tf ← need "a TreeBin has no `first` field, so this is not the layout walked here" (read_fields_of head_id ["first"]);
      mret (Chain (nth_object 0 tf))
    else if h =? CHM_MOVED then
      nf ← need "a ForwardingNode has no `nextTable` field, so this is not the layout walked here" (read_fields_of head_id ["nextTable"]);
      mret (Forward (nth_object 0 nf))
    else if h =? CHM_RESERVED then mret Empty
    else mret (Chain (Some head_id))
  | None => mret (Chain (Some head_id))
  end.

(** [for _ in 0..CHM_FORWARD_HOPS]: [hops] tables may still be read. *)
Fixpoint chm_lookup_in (hops : nat) (table hash : Z) (key : ArgLit) : W Value :=
  match hops with
  | O => decline "the map forwarded to a new table more than 8 times — it is resizing under the read"
  | S hops =>
    n ← call "Failed to read the map's table: " (get_array_length table);
    if n <=? 0 then mret value_null else
    head_ ← call "Failed to read the map's bin: " (get_array_values table (Z.land (n - 1) hash) 1);
    match head head_ ≫= as_object_id with
    | None => mret value_null
    | Some head_id =>
      bin ← chm_bin head_id;
      match bin with
      | Empty | Forward None => mret value_null
      | Chain start => bin_lookup start hash key "val"
      | Forward (Some next) => chm_lookup_in hops next hash key
      end
    end
  end.

Definition chm_lookup (map_ : Z) (key : ArgLit) : W Value :=
  match chm_spread <$> java_hash key with
  | None => decline (unhashable_key key)
  | Some hash =>
    '(table, _) ← map_table map_ ["table"];
    match table with
    | None => mret value_null
    | Some table => chm_lookup_in CHM_FORWARD_HOPS table hash key
    end
  end.

(** ** Lists *)

Definition array_list_backing (obj : Z) : W (option Z * Z) :=
  '(arr, size) ← map_table obj ["elementData"; "size"];
  match arr with
  | None => mret (None, 0)
  | Some arr =>
    cap ← call "Failed to read the list's backing array: " (get_array_length arr);
    mret (Some arr, Z.max 0 (Z.min cap size))
  end.

Definition array_list_at (id i : Z) (label : string) : W Value :=
  '(arr, size) ← array_list_backing id;
  if (i <? 0) || (size <=? i) then
    fail ("Index " +s+ pretty i +s+ " is out of bounds for '" +s+ label +s+ "' (length " +s+ pretty size +s+ ")")
  else
    match arr with
    | None => fail ("Index " +s+ pretty i +s+ " is out of bounds for '" +s+ label +s+ "' (length 0)")
    | Some arr =>
      vals ← call ("Failed to read '" +s+ label +s+ "[" +s+ pretty i +s+ "]': ") (get_array_values arr i 1);
      match vals with
      | v :: _ => mret v
      | [] => fail ("No value returned for '" +s+ label +s+ "[" +s+ pretty i +s+ "]'")
      end
    end.

(** ** Every entry *)

Abbreviation Entries := (Pairs * Z)%type.

Definition scan_cap : nat := Z.to_nat SUBSCRIPT_SCAN_CAP.

Fixpoint hash_bins (heads : list Value) (cap : nat) (out : Pairs) : W Pairs :=
  match heads with
  | [] => mret out
  | h :: heads =>
    if (cap <=? length out)%nat then mret out else
    out ← bin_collect (as_object_id h) "value" cap out; hash_bins heads cap out
  end.

(** A bin head of a [ConcurrentHashMap]: [None] is the map that is resizing. *)
Fixpoint chm_collect_bins (heads : list Value) (cap : nat) (out : Pairs) : W Pairs :=
  match heads with
  | [] => mret out
  | h :: heads =>
    if (cap <=? length out)%nat then mret out else
    match as_object_id h with
    | None => chm_collect_bins heads cap out
    | Some head_id =>
      bin ← chm_bin head_id;
      match bin with
      | Empty => chm_collect_bins heads cap out
      | Forward _ => decline chm_resizing_reason
      | Chain start => out ← bin_collect start "val" cap out; chm_collect_bins heads cap out
      end
    end
  end.

(** The table from [slot] on, a chunk of at most [TABLE_CHUNK] bins at a time; the fuel is the chunks left. *)
Fixpoint table_chunks (fuel : nat) (collect : list Value -> nat -> Pairs -> W Pairs) (table n slot : Z) (cap : nat) (out : Pairs) : W Pairs :=
  match fuel with
  | O => mret out
  | S fuel =>
    if (slot <? n) && (length out <? cap)%nat then
      let chunk := Z.min TABLE_CHUNK (n - slot) in
      heads ← call "Failed to read the map's bins: " (get_array_values table slot chunk);
      out ← collect heads cap out;
      table_chunks fuel collect table n (slot + chunk) cap out
    else mret out
  end.
(** A chunk is at least one bin. *)
Definition whole_table (collect : list Value -> nat -> Pairs -> W Pairs) (table n : Z) (cap : nat) : W Pairs :=
  table_chunks (Z.to_nat (n / TABLE_CHUNK) + 1) collect table n 0 cap [].

Definition hash_map_entries (map_ : Z) : W Entries :=
  '(table, size) ← map_table map_ ["table"; "size"];
  match table with
  | None => mret ([], size)
  | Some table =>
    n ← call "Failed to read the map's table: " (get_array_length table);
    out ← whole_table hash_bins table n scan_cap;
    mret (out, size)
  end.

(** The entries of a linked map in their order: at most [more] of them. *)
Fixpoint linked_from (more : nat) (cur : option Z) (out : Pairs) : W Pairs :=
  match more, cur with
  | S more, Some node =>
    nf ← need "an entry has no key/value/after, so this is not the layout walked here" (read_fields_of node ["key"; "value"; "after"]);
    linked_from more (nth_object 2 nf) (out ++ [(nth_value 0 nf, nth_value 1 nf)])
  | _, _ => mret out
  end.
Definition linked_map_entries (map_ : Z) : W Entries :=
  '(head_, size) ← map_table map_ ["head"; "size"];
  out ← linked_from scan_cap head_ [];
  mret (out, size).

(** The counter cells of a [ConcurrentHashMap], added up as [i64]. *)
Fixpoint add_cells (cells : list Value) (total : Z) : F Z :=
  match cells with
  | [] => mret total
  | c :: cells =>
    match as_object_id c with
    | None => add_cells cells total
    | Some cid =>
      cf ← read_fields_of cid ["value"];
      add_cells cells (match cf with Some cf => wrap_s 64 (total + default 0 (head cf ≫= as_long)) | None => total end)
    end
  end.

Definition i32_of (n : Z) : option Z := if bool_decide (in_s 32 n) then Some n else None.

Definition chm_size (map_ : Z) : F (option Z) :=
  f ← read_fields_of map_ ["baseCount"; "counterCells"];
  match f with
  | None => mret None
  | Some f =>
    match head f ≫= as_long with
    | None => mret None
    | Some total =>
      match nth_object 1 f with
      | None => mret (i32_of (Z.max 0 total))
      | Some cells =>
        vals ← on_conn (n ←~ st_ok (get_array_length cells); st_ok (get_array_values cells 0 n) : St (option (list Value)));
        match vals with
        | None => mret None
        | Some vals => total ← add_cells vals total; mret (i32_of (Z.max 0 total))
        end
      end
    end
  end.

Definition chm_entries (map_ : Z) : W Entries :=
  '(table, _) ← map_table map_ ["table"];
  counted ← walk (chm_size map_);
  match table with
  | None => mret ([], default 0 counted)
  | Some table =>
    n ← call "Failed to read the map's table: " (get_array_length table);
    out ← whole_table chm_collect_bins table n scan_cap;
    match counted with
    | Some s => mret (out, s)
    | None =>
      if (scan_cap <=? length out)%nat then
        decline "its baseCount/counterCells could not be read, so a truncated scan could not say how much it left out"
      else mret (out, i32_of_len (zlen out))
    end
  end.

End Walks.

(** ** An index into a list, and the two kinds of structure *)

Section Index.
Context `{BC : BytesCrate} `{D : Debuggee} `{FT : FloatText} `{PF : Platform}.

(** [Debug] of a literal. *)
Definition debug_arglit (key : ArgLit) : string :=
  match key with
  | ArgInt n => "Int(" +s+ pretty n +s+ ")"
  | ArgLong n => "Long(" +s+ pretty n +s+ ")"
  | ArgFloat n => "Float(" +s+ debug_f32 n +s+ ")"
  | ArgDouble n => "Double(" +s+ debug_f64 n +s+ ")"
  | ArgChar n => "Char(" +s+ pretty n +s+ ")"
  | ArgBool b => "Bool(" +s+ show_bool b +s+ ")"
  | ArgNull => "Null"
  | ArgStr s => "Str(" +s+ debug_text (string_of_chars s) +s+ ")"
  | ArgExpr e => "Expr(" +s+ debug_text (string_of_chars e) +s+ ")"
  end.

Definition array_list_index (id : Z) (key : ArgLit) (label : string) : W Value :=
  match key with
  | ArgInt i => array_list_at id i label
  | _ => fail ("A list index must be an int — '" +s+ label +s+ "' is a java.util.ArrayList, got " +s+ debug_arglit key)
  end.

Definition structural_index (id : Z) (layout : Layout) (key : ArgLit) (label : string) : W Value :=
  match layout with
  | HashMap | LinkedHashMap => hash_map_lookup id key
  | ConcurrentHashMap => chm_lookup id key
  | ArrayList => array_list_index id key label
  end.
End Index.

(** ** How a collection was read *)

Definition ReadPath : Type := list string.

Definition push_note (note : string) (path : ReadPath) : ReadPath :=
  if bool_decide (note ∈ path) then path else path ++ [note].

Definition walked (layout : Layout) (name : string) : ReadPath -> ReadPath := push_note
  ("📐 read structurally: " +s+ name +s+ " was walked through its own fields (" +s+ fields_walked layout +s+
   ") — nothing was invoked in the debuggee and no thread had to be suspended. Nothing was locked either, so this is a SAMPLE of a live collection, not a transaction: a concurrent resize or write can make it inconsistent.").

Definition invoked (name why : string) : ReadPath -> ReadPath := push_note
  ("⚙️ read by invoking in the debuggee (needs a suspended thread): " +s+ name +s+ " " +s+ why +s+ ".").

Definition internals_only (name : string) : ReadPath -> ReadPath := push_note
  ("🔍 read as its own fields: " +s+ name +s+ " is not one of the layouts read structurally (" +s+ KNOWN_LAYOUTS +s+
   ") and no invocation was available (that needs a thread suspended BY AN EVENT), so what is shown is the object's INTERNAL STRUCTURE and not its contents — the entries are in there, held the way the class holds them. A stop point on the code you want to ask about is what turns this into entries.").

Definition unrecognised (name : string) : ReadPath -> ReadPath := invoked name
  ("is not one of the layouts read structurally (" +s+ KNOWN_LAYOUTS +s+ "), so it fell back rather than guess at its internals").

Definition answered_by_later_copy (class member : string) (used : nat) (labels : list string) : ReadPath -> ReadPath := push_note
  ("⚠️  '" +s+ class +s+ "' is loaded by " +s+ pretty (zlen labels) +s+ " classloaders and '" +s+ member +s+
   "' is not on all of them: copy " +s+ default "?"%string (labels !! used) +s+
   " answered, after copy #0 was tried and did not have it. That asymmetry is what a redeploy leaves behind — the retired deployment's copy is still loaded, and it is the one that sorts first. Loaded by: " +s+
   join "; " labels +s+ ". Pin a specific copy with " +s+ class +s+ "@<the 0x… you want>.").

Definition render_path (path : ReadPath) : string :=
  if bool_decide (path = []) then "" else newline +s+ join newline path.
