(* ===== verification/StructureFacts.v ===== *)
(** * A walk finds what the map holds ([mcp-server/src/handlers.rs])

    Against a debuggee that is not changing, every read of the walk answers what the heap holds; and in
    a [HashMap] laid out the way the JDK lays one out, looking a key up answers the value the map has for
    it, or [null] when it has none. *)

From S2P Require Import Prelude Protocol Types Reader Connection Client TypeGraph Generics Text Expr Locate Reading ReadingFacts TextArrays Structures.

(** ** The heap behind the answers *)

Section Heap.
Context `{BC : BytesCrate} `{D : Debuggee}.
Context (f : Z -> Z -> bytes -> JdwpResult (Z * bytes)) (Hf : constant f).

Definition heap_type (o : Z) : JdwpResult Z := one_type f o.
Definition heap_string (o : Z) : JdwpResult string := one_string f o.
Definition heap_signature (t : Z) : JdwpResult string := given f 2 1 (put_be 8 t) read_string.
Definition heap_superclass (t : Z) : JdwpResult (option Z) :=
  sc ← given f 3 1 (put_be 8 t) read_u64; Ok (if sc =? 0 then None else Some sc).
Definition fields_read (t : Z) (generic : bool) : JdwpResult (list FieldInfo) :=
  given f 2 (if generic then 14 else 4) (put_be 8 t) (count ← read_i32; read_count count (read_field_info generic)).
Definition heap_fields (t : Z) : JdwpResult (list FieldInfo) :=
  if not_implemented (fields_read t true) then fields_read t false else fields_read t true.
Definition heap_values (o : Z) (fids : list Z) : JdwpResult (list Value) :=
  given f 9 2 (put_be 8 o ++ put_len fids ++ put_ids fids) read_values.
Definition heap_length (a : Z) : JdwpResult Z := given f 13 1 (put_be 8 a) read_i32.
Definition heap_region (a i n : Z) : JdwpResult (list Value) := given f 13 2 (put_be 8 a ++ put_be 4 i ++ put_be 4 n) read_array_region.

(** The cache holds answers of the debuggee. *)
Record honest_cache (c : TypeCache) : Prop := {
  hc_signature t s : tc_signatures c !! t = Some s -> heap_signature t = Ok s;
  hc_fields t l : tc_fields c !! t = Some l -> heap_fields t = Ok l;
  hc_superclass t p : tc_superclasses c !! t = Some p -> heap_superclass t = Ok p;
}.

(** A call that answers [r] from every such world, and leaves one. *)
Definition answers {A} (m : World -> A * World) (r : A) : Prop := forall w, honest_cache (w_types w) ->
  exists w', m w = (r, w') /\ honest_cache (w_types w').

Lemma answers_ask {B} set command body (r : Reader B) :
  answers (reply ← exchange (request set command body); of_result (decode_with r reply) : M B) (given f set command body r).
Proof.
  intros w Hw. pose proof (ask_constant f Hf set command body r w) as E. pose proof (keeps_types_ask set command body (decode_with r) w) as K.
  destruct ((reply ← exchange (request set command body); of_result (decode_with r reply) : M B) w) as [x w1]. simpl in *. subst. eexists. split; [done|]. by rewrite K.
Qed.

Lemma answers_bind {A B} (m : St A) (k : A -> St B) a b : answers m a -> answers (k a) b -> answers (m ≫= k) b.
Proof.
  intros Hm Hk w Hw. destruct (Hm w Hw) as (w1 & E1 & H1). destruct (Hk w1 H1) as (w2 & E2 & H2).
  exists w2. split; [|done]. unfold mbind, st_bind. by rewrite E1, E2.
Qed.
Lemma answers_ret {A} (a : A) : answers (mret a : St A) a.
Proof. intros w Hw. by exists w. Qed.
Lemma answers_attempt {A} (m : M A) r : answers m r -> answers (attempt m) r.
Proof. done. Qed.
Lemma answers_ok {A} (m : M A) r : answers m r -> answers (st_ok m) (ok_of r).
Proof. intros H. eapply answers_bind; [exact H|apply answers_ret]. Qed.
Lemma answers_or {A} (d : A) (m : M A) r : answers m r -> answers (st_or d m) (unwrap_or d r).
Proof. intros H. eapply answers_bind; [exact H|apply answers_ret]. Qed.

(** A read through the cache answers what the debuggee would. *)
Lemma answers_cached {A} find_ remember (ask m : M A) (r : JdwpResult A) :
  (forall w, m w = through_cache find_ remember ask w) -> answers ask r ->
  (forall c a, honest_cache c -> find_ c = Some a -> r = Ok a) ->
  (forall c a, honest_cache c -> r = Ok a -> honest_cache (remember a c)) ->
  answers m r.
Proof.
  intros Hm Ha Hfind Hrem w Hw. rewrite Hm. unfold through_cache. destruct (find_ (w_types w)) as [a|] eqn:E.
  - rewrite (Hfind _ a Hw E). by exists w.
  - destruct (Ha w Hw) as (w' & -> & Hw'). destruct r as [a|e]; [|by exists w'].
    eexists. split; [done|]. simpl. by apply Hrem.
Qed.

Lemma answers_signature t : answers (get_signature t) (heap_signature t).
Proof.
  eapply answers_cached; [apply get_signature_cached|apply answers_ask|by intros c a [H1 _ _]; apply H1|].
  intros c a [H1 H2 H3] E. split; simpl; [|done..]. intros t' s. rewrite lookup_insert_Some. by intros [[<- <-]|[_ ?]]; [|apply H1].
Qed.

Lemma answers_superclass t : answers (get_superclass t) (heap_superclass t).
Proof.
  eapply answers_cached; [apply get_superclass_cached| |by intros c a [_ _ H3]; apply H3|].
  - intros w Hw. destruct (answers_ask 3 1 (put_be 8 t) read_u64 w Hw) as (w' & E & Hw').
    unfold mbind, m_bind in E |- *. destruct (exchange _ w) as [[reply|e] w1] eqn:Ex; [|injection E as E <-; exists w1].
    + unfold of_result in *. injection E as E <-. unfold heap_superclass. rewrite <- E. exists w1. split; [|done].
      by destruct (decode_with read_u64 reply).
    + unfold heap_superclass. rewrite <- E. done.
  - intros c a [H1 H2 H3] E. split; simpl; [done..|]. intros t' s. rewrite lookup_insert_Some. by intros [[<- <-]|[_ ?]]; [|apply H3].
Qed.

Lemma answers_fields t : answers (get_fields t) (heap_fields t).
Proof.
  eapply answers_cached; [apply get_fields_cached| |by intros c a [_ H2 _]; apply H2|].
  - assert (Hr : forall b, answers (read_fields t b) (fields_read t b)) by (intros b; apply answers_ask).
    intros w Hw. unfold with_fallback, lift, attempt, mbind, m_bind. destruct (Hr true w Hw) as (w1 & -> & H1).
    unfold heap_fields. destruct (not_implemented (fields_read t true)); [by apply Hr|]. by exists w1.
  - intros c a [H1 H2 H3] E. split; simpl; [done| |done]. intros t' s. rewrite lookup_insert_Some. by intros [[<- <-]|[_ ?]]; [|apply H2].
Qed.

Lemma answers_type o : answers (get_object_reference_type o) (heap_type o).
Proof. apply answers_ask. Qed.
Lemma answers_string o : answers (get_string_value o) (heap_string o).
Proof. apply answers_ask. Qed.
Lemma answers_values o fids : answers (get_object_values o fids) (heap_values o fids).
Proof. apply answers_ask. Qed.
Lemma answers_length a : answers (get_array_length a) (heap_length a).
Proof. apply answers_ask. Qed.
Lemma answers_region a i n : answers (get_array_values a i n) (heap_region a i n).
Proof. apply answers_ask. Qed.

(** ** Fields *)

Fixpoint heap_field_from (n : nat) (current : option Z) (name : string) : option Z :=
  match n, current with
  | S n, Some t =>
    match heap_fields t with
    | Ok fields =>
      match List.find (fun f => String.eqb (fi_name f) name) fields with
      | Some f => Some (fi_field_id f)
      | None => heap_field_from n (unwrap_or None (heap_superclass t)) name
      end
    | Err _ => None
    end
  | _, _ => None
  end.
(** The id of a field of a class, its superclasses' included. *)
Definition heap_field (t : Z) (name : string) : option Z := heap_field_from CHAIN_GUARD (Some t) name.

Lemma answers_find_field t name : exists r, answers (find_field t name) r /\ match r with Ok o => o | Err _ => None end = heap_field t name.
Proof.
  unfold find_field, heap_field. generalize (Some t) as current. induction CHAIN_GUARD as [|n IH]; intros current;
    [by eexists; split; [apply answers_ret|]|].
  destruct current as [t0|]; [|by eexists; split; [apply answers_ret|]]. cbn [climb heap_field_from].
  assert (Hv : answers (fields ←? failing "Failed to get fields: " (get_fields t0);
      mret (Ok (fi_field_id <$> List.find (fun f => String.eqb (fi_name f) name) fields)) : St (result string (option Z)))
    (match heap_fields t0 with
     | Ok fields => Ok (fi_field_id <$> List.find (fun f => String.eqb (fi_name f) name) fields)
     | Err e => Err ("Failed to get fields: " +s+ display_error e)
     end)).
  { eapply answers_bind; [eapply answers_bind; [apply answers_fields|apply answers_ret]|].
    destruct (heap_fields t0); apply answers_ret. }
  revert Hv. destruct (heap_fields t0) as [fields|e]; [destruct (List.find _ fields) as [fi|]|]; intros Hv.
  - eexists. split; [eapply answers_bind; [apply Hv|apply answers_ret]|done].
  - destruct (IH (unwrap_or None (heap_superclass t0))) as (r & Hr & E). exists r. split; [|done].
    eapply answers_bind; [apply Hv|]. simpl. eapply answers_bind; [apply answers_or, answers_superclass|exact Hr].
  - eexists. split; [eapply answers_bind; [apply Hv|apply answers_ret]|done].
Qed.

(** The fields of an object by name. *)
Definition heap_object (o : Z) (names : list string) : option (list Value) :=
  t ← ok_of (heap_type o);
  fids ← mapM (heap_field t) names;
  vals ← ok_of (heap_values o fids);
  if (length vals =? length names)%nat then Some vals else None.

(** The field ids resolved so far are the heap's. *)
Record honest_ids (ids : FieldIds) : Prop := {
  hi_ids t name o : fid_ids ids !! (t, name) = Some o -> heap_field t name = o;
  hi_known o t : fid_known ids = Some (o, t) -> heap_type o = Ok t;
}.

(** A walk that answers [r] whatever has been resolved before. *)
Definition reads_as {A} (m : FieldIds -> World -> A * FieldIds * World) (r : A) : Prop := forall ids w,
  honest_ids ids -> honest_cache (w_types w) ->
  exists ids' w', m ids w = (r, ids', w') /\ honest_ids ids' /\ honest_cache (w_types w').

Lemma reads_ret {A} (a : A) : reads_as (mret a : F A) a.
Proof. intros ids w Hi Hw. by exists ids, w. Qed.
Lemma reads_bind {A B} (m : F A) (k : A -> F B) a b : reads_as m a -> reads_as (k a) b -> reads_as (m ≫= k) b.
Proof.
  intros Hm Hk ids w Hi Hw. destruct (Hm ids w Hi Hw) as (ids1 & w1 & E1 & Hi1 & Hw1).
  destruct (Hk ids1 w1 Hi1 Hw1) as (ids2 & w2 & E2 & ? & ?). exists ids2, w2. unfold mbind, f_bind. by rewrite E1, E2.
Qed.
Lemma reads_conn {A} (m : St A) a : answers m a -> reads_as (on_conn m) a.
Proof. intros Hm ids w Hi Hw. destruct (Hm w Hw) as (w' & E & Hw'). exists ids, w'. unfold on_conn. by rewrite E. Qed.

Lemma reads_field_id t name : reads_as (field_id t name) (heap_field t name).
Proof.
  intros ids w Hi Hw. unfold field_id. destruct (fid_ids ids !! (t, name)) as [o|] eqn:E.
  - rewrite (hi_ids _ Hi _ _ _ E). by exists ids, w.
  - destruct (answers_find_field t name) as (r & Hr & Er). destruct (Hr w Hw) as (w' & E' & Hw'). rewrite E', Er.
    eexists _, w'. split; [done|]. split; [|done]. destruct Hi as [H1 H2]. split; simpl; [|done].
    intros t' n' o. rewrite lookup_insert_Some. by intros [[[= <- <-] <-]|[_ ?]]; [|apply H1].
Qed.

Lemma reads_field_ids t names : reads_as (field_ids t names) (mapM (heap_field t) names).
Proof.
  induction names as [|name names IH]; [apply reads_ret|]. cbn [field_ids mapM]. eapply reads_bind; [apply reads_field_id|].
  destruct (heap_field t name) as [fid|]; [|apply reads_ret]. simpl. eapply reads_bind; [exact IH|].
  destruct (mapM _ _); apply reads_ret.
Qed.

Lemma reads_type o : reads_as (type_of_object o) (ok_of (heap_type o)).
Proof.
  intros ids w Hi Hw. unfold type_of_object.
  assert (Ask : exists ids' w', on_conn (st_ok (get_object_reference_type o)) ids w = (ok_of (heap_type o), ids', w') /\ honest_ids ids' /\ honest_cache (w_types w'))
    by (apply reads_conn; [apply answers_ok, answers_type|done..]).
  destruct (fid_known ids) as [[rooted t]|] eqn:E; [|done]. destruct (Z.eqb_spec rooted o) as [->|]; [|done].
  rewrite (hi_known _ Hi _ _ E). by exists ids, w.
Qed.

Lemma reads_object o names : reads_as (read_fields_of o names) (heap_object o names).
Proof.
  unfold read_fields_of, heap_object. eapply reads_bind; [apply reads_type|].
  destruct (ok_of (heap_type o)) as [t|]; simpl; [|apply reads_ret]. eapply reads_bind; [apply reads_field_ids|].
  destruct (mapM (heap_field t) names) as [fids|]; simpl; [|apply reads_ret].
  eapply reads_bind; [apply reads_conn, answers_ok, answers_values|]. apply reads_ret.
Qed.
End Heap.

(** ** What the JDK computes

    The JDK's own definitions, over the integers, wrapped where Java wraps. *)

Definition jdk_string_hash (units : list Z) : Z := wrap_s 32 (foldl (fun h c => h * 31 + c) 0 units).
(** [(int)(value ^ (value >>> 32))]. *)
Definition jdk_long_hash (n : Z) : Z := wrap_s 32 (Z.lxor n (Z.shiftr (wrap_u 64 n) 32)).
(** [h ^ (h >>> 16)]. *)
Definition jdk_spread (h : Z) : Z := wrap_s 32 (Z.lxor h (Z.shiftr (wrap_u 32 h) 16)).

Definition jdk_hash (key : ArgLit) : Z :=
  match key with
  | ArgStr s => jdk_string_hash (encode_utf16 s)
  | ArgInt i => i
  | ArgLong n => jdk_long_hash n
  | ArgChar c => c
  | ArgBool b => if b then 1231 else 1237
  | _ => 0
  end.

Definition hashable (key : ArgLit) : Prop :=
  match key with
  | ArgStr s => Forall scalar s
  | ArgBool _ => True
  | ArgInt i => in_s 32 i
  | ArgLong n => in_s 64 n
  | ArgChar c => in_u 16 c
  | _ => False
  end.

Lemma top_bits w y i : 0 < w -> in_s w y -> w - 1 <= i -> Z.testbit y i = Z.testbit y (w - 1).
Proof.
  intros Hw Hy Hi. unfold in_s in Hy.
  assert (Hs : Z.shiftr y (w - 1) = 0 \/ Z.shiftr y (w - 1) = -1).
  { rewrite Z.shiftr_div_pow2 by lia. assert (0 < 2 ^ (w - 1)) by (apply Z.pow_pos_nonneg; lia).
    destruct (Z.ltb_spec y 0).
    - right. symmetry. apply (Z.div_unique _ _ _ (y + 2 ^ (w - 1))); lia.
    - left. apply Z.div_small. lia. }
  replace i with (i - (w - 1) + (w - 1)) by lia. rewrite <- (Z.shiftr_spec y (w - 1) (i - (w - 1))) by lia.
  replace (w - 1) with (0 + (w - 1)) at 3 by lia. rewrite <- Z.shiftr_spec by lia.
  destruct Hs as [-> | ->]; [by rewrite !Z.bits_0|]. rewrite !Z.bits_m1 by lia. done.
Qed.

Lemma wrap_s_bits w x i : 0 < w -> 0 <= i -> Z.testbit (wrap_s w x) i = Z.testbit x (Z.min i (w - 1)).
Proof.
  intros Hw Hi.
  assert (Low : forall j, 0 <= j < w -> Z.testbit (wrap_s w x) j = Z.testbit x j).
  { intros j Hj. rewrite <- (Z.mod_pow2_bits_low (wrap_s w x) w j), <- (Z.mod_pow2_bits_low x w j) by lia. f_equal.
    unfold wrap_s. rewrite Zminus_mod_idemp_l. f_equal. lia. }
  destruct (Z.leb_spec (w - 1) i).
  - rewrite Z.min_r, (top_bits w) by (done || by apply wrap_s_range). apply Low. lia.
  - rewrite Z.min_l by lia. apply Low. lia.
Qed.

Lemma wrap_s_mod w x : 0 < w -> wrap_s w x mod 2 ^ w = x mod 2 ^ w.
Proof. intros Hw. unfold wrap_s. rewrite Zminus_mod_idemp_l. f_equal. lia. Qed.
Lemma wrap_s_congruent w x y : 0 < w -> x mod 2 ^ w = y mod 2 ^ w -> wrap_s w x = wrap_s w y.
Proof. intros Hw E. unfold wrap_s. rewrite <- (Zplus_mod_idemp_l x), <- (Zplus_mod_idemp_l y), E. done. Qed.

Lemma wrap_s_lxor w a b : 0 < w -> wrap_s w (Z.lxor a b) = Z.lxor (wrap_s w a) (wrap_s w b).
Proof. intros Hw. apply Z.bits_inj'. intros i Hi. by rewrite Z.lxor_spec, !wrap_s_bits, Z.lxor_spec. Qed.

Lemma flip_top_bit m : 0 <= m < 2 ^ 32 -> Z.lxor m (2 ^ 31) = (m + 2 ^ 31) mod 2 ^ 32.
Proof.
  intros Hm. assert (Disjoint : forall r, 0 <= r < 2 ^ 31 -> Z.land r (2 ^ 31) = 0).
  { intros r Hr. apply Z.bits_inj'. intros i Hi. rewrite Z.land_spec, Z.bits_0, Z.pow2_bits_eqb by lia.
    destruct (Z.eqb_spec 31 i) as [<-|]; [|by rewrite andb_false_r]. rewrite <- (Z.mod_small r (2 ^ 31)), Z.mod_pow2_bits_high by lia. done. }
  destruct (Z.ltb_spec m (2 ^ 31)).
  - rewrite Z.mod_small by lia. symmetry. apply Z.add_nocarry_lxor, Disjoint. lia.
  - replace m with (m - 2 ^ 31 + 2 ^ 31) at 1 by lia. rewrite (Z.add_nocarry_lxor _ _ (Disjoint (m - 2 ^ 31) ltac:(lia))).
    rewrite Z.lxor_assoc, Z.lxor_nilpotent, Z.lxor_0_r. apply (Z.mod_unique _ _ 1); lia.
Qed.

Lemma low_word n : Z.lxor (Z.land n 0xFFFFFFFF) 0x80000000 - 0x80000000 = wrap_s 32 n.
Proof.
  change 0xFFFFFFFF with (Z.ones 32). rewrite Z.land_ones by lia. change 0x80000000 with (2 ^ 31).
  rewrite flip_top_bit by (apply Z.mod_pos_bound; lia). unfold wrap_s. by rewrite Zplus_mod_idemp_l.
Qed.

Lemma high_word n : in_s 64 n -> wrap_s 32 (Z.shiftr (wrap_u 64 n) 32) = Z.shiftr n 32.
Proof.
  intros Hn. apply Z.bits_inj'. intros i Hi. rewrite wrap_s_bits, !Z.shiftr_spec by lia. unfold wrap_u.
  rewrite Z.mod_pow2_bits_low by lia. destruct (Z.leb_spec 31 i).
  - rewrite Z.min_r by lia. change (32 - 1 + 32) with (64 - 1). rewrite (top_bits 64 n (i + 32)); [done|done|exact Hn|lia].
  - by rewrite Z.min_l by lia.
Qed.

Lemma jdk_hash_range key : hashable key -> in_s 32 (jdk_hash key).
Proof.
  destruct key; simpl; try done; try (intros _; by apply wrap_s_range); unfold in_u, in_s; [lia|]. by destruct b.
Qed.

(** [java_hash] is [hashCode], and the spread is the JDK's. *)
Lemma java_hash_jdk key : hashable key -> java_hash key = Some (jdk_hash key).
Proof.
  destruct key as [|n| | | | | |s|]; simpl; try done.
  - intros Hn. f_equal. unfold i32_or, jdk_long_hash. rewrite low_word, wrap_s_lxor, high_word by (done || lia).
    rewrite !bool_decide_true; [by rewrite Z.lxor_comm|by apply wrap_s_range|].
    unfold in_s in *. rewrite Z.shiftr_div_pow2 by lia. split; [apply Z.div_le_lower_bound; lia|apply Z.div_lt_upper_bound; lia].
  - intros _. f_equal. unfold string_hash, jdk_string_hash. change 0 with (wrap_s 32 0) at 1. generalize 0 as h.
    induction (encode_utf16 s) as [|c units IH]; intros h; [done|]. simpl. rewrite <- IH. f_equal.
    apply wrap_s_congruent; [done|]. rewrite Zplus_mod, wrap_s_mod, Zmult_mod, wrap_s_mod by done.
    by rewrite <- Zmult_mod, <- Zplus_mod.
Qed.

Lemma spread_jdk h : in_s 32 h -> hashmap_spread h = jdk_spread h.
Proof.
  intros Hh. unfold hashmap_spread, jdk_spread. rewrite wrap_s_lxor, (wrap_s_id 32 h) by done. f_equal.
  change 0xFFFF with (Z.ones 16). rewrite Z.land_ones by lia. unfold wrap_u.
  assert (Hm : 0 <= h mod 2 ^ 32 < 2 ^ 32) by (apply Z.mod_pos_bound; lia).
  rewrite wrap_s_id; [|done|].
  - rewrite !Z.shiftr_div_pow2 by lia.
    assert (E1 : h mod 2 ^ 32 = h + - (2 ^ 16 * (h / 2 ^ 32)) * 2 ^ 16) by (rewrite Z.mod_eq by lia; lia).
    assert (E2 : (h / 2 ^ 16) mod 2 ^ 16 = h / 2 ^ 16 - 2 ^ 16 * (h / 2 ^ 32)) by (rewrite Z.mod_eq, Z.div_div by lia; done).
    rewrite E2, E1, Z.div_add by lia. lia.
  - rewrite Z.shiftr_div_pow2 by lia. unfold in_s. assert (0 <= (h mod 2 ^ 32) / 2 ^ 16 < 2 ^ 16); [|lia].
    split; [apply Z.div_pos; lia|apply Z.div_lt_upper_bound; lia].
Qed.

(** ** A key in a map *)

Section Lookup.
Context `{BC : BytesCrate} `{D : Debuggee}.
Context (f : Z -> Z -> bytes -> JdwpResult (Z * bytes)) (Hf : constant f).

Abbreviation object := (heap_object f).

Definition heap_data (o : Z) : option ValueData := val_data <$> (object o ["value"%string] ≫= head).

(** Whether a stored key is the literal: an instance of its class with its contents. *)
Definition heap_matches (stored : Value) (want : ArgLit) : bool :=
  match as_object_id stored ≫= (fun id => pair id <$> ok_of (heap_type f id)) with
  | None => false
  | Some (id, t) =>
    let class s := String.eqb (unwrap_or "" (heap_signature f t)) s in
    match want with
    | ArgStr s => class "Ljava/lang/String;" && bool_decide (ok_of (heap_string f id) = Some (string_of_chars s))
    | ArgInt i => class "Ljava/lang/Integer;" && matches_data (VInt i) (heap_data id)
    | ArgLong l => class "Ljava/lang/Long;" && matches_data (VLong l) (heap_data id)
    | ArgBool b => class "Ljava/lang/Boolean;" && matches_data (VBoolean b) (heap_data id)
    | ArgChar c => class "Ljava/lang/Character;" && matches_data (VChar c) (heap_data id)
    | _ => false
    end
  end.

Abbreviation reads_as := (reads_as f).

Lemma reads_data id : reads_as (boxed_data id) (heap_data id).
Proof. eapply reads_bind; [by apply reads_object|]. apply reads_ret. Qed.

Lemma reads_if {A} (b : bool) (m : F A) (n : F A) a a' : reads_as m a -> reads_as n a' -> reads_as (if b then m else n) (if b then a else a').
Proof. by destruct b. Qed.

Lemma reads_matches stored want : reads_as (key_matches stored want) (heap_matches stored want).
Proof.
  assert (Data : forall (b : bool) id d, reads_as (if b then o ← boxed_data id; mret (matches_data d o) else mret false : F bool) (b && matches_data d (heap_data id))).
  { intros [] id d; [|apply reads_ret]. eapply reads_bind; [apply reads_data|apply reads_ret]. }
  unfold key_matches, heap_matches. destruct (as_object_id stored) as [id|]; simpl; [|apply reads_ret].
  eapply reads_bind; [by apply reads_conn, answers_ok, answers_type|]. destruct (ok_of (heap_type f id)) as [t|]; simpl; [|apply reads_ret].
  eapply reads_bind; [by apply reads_conn, answers_or, answers_signature|].
  destruct want; try apply Data; try apply reads_ret.
  destruct (String.eqb _ _); [|apply reads_ret]. eapply reads_bind; [by apply reads_conn, answers_ok, answers_string|apply reads_ret].
Qed.

(** A walk that answers [a]. *)
Definition walks {A} (m : W A) (a : A) : Prop := reads_as m (Ok (Read a)).

Lemma walks_ret {A} (a : A) : walks (mret a) a.
Proof. intros ids w Hi Hw. by exists ids, w. Qed.
Lemma walks_bind {A B} (m : W A) (k : A -> W B) a b : walks m a -> walks (k a) b -> walks (m ≫= k) b.
Proof.
  intros Hm Hk ids w Hi Hw. destruct (Hm ids w Hi Hw) as (ids1 & w1 & E1 & Hi1 & Hw1).
  destruct (Hk ids1 w1 Hi1 Hw1) as (ids2 & w2 & E2 & ? & ?). exists ids2, w2. unfold mbind, w_bind. by rewrite E1.
Qed.
Lemma walks_need {A} why (m : F (option A)) a : reads_as m (Some a) -> walks (need why m) a.
Proof. intros Hm ids w Hi Hw. destruct (Hm ids w Hi Hw) as (ids1 & w1 & E1 & ? & ?). exists ids1, w1. unfold need. by rewrite E1. Qed.
Lemma walks_walk {A} (m : F A) a : reads_as m a -> walks (walk m) a.
Proof. intros Hm ids w Hi Hw. destruct (Hm ids w Hi Hw) as (ids1 & w1 & E1 & ? & ?). exists ids1, w1. unfold walk. by rewrite E1. Qed.
Lemma walks_call {A} what (m : M A) a : answers f m (Ok a) -> walks (call what m) a.
Proof.
  intros Hm ids w Hi Hw. destruct (Hm w Hw) as (w1 & E1 & ?). exists ids, w1. unfold call, failing, attempt, mbind, st_bind. by rewrite E1.
Qed.
Lemma walks_object o names why vals : object o names = Some vals -> walks (need why (read_fields_of o names)) vals.
Proof. intros E. apply walks_need. rewrite <- E. by apply reads_object. Qed.

(** ** The layout of the JDK

    The nodes of a bin, in the order of their [next] fields. *)

Record Node : Type := { nd_hash : Z; nd_key : Value; nd_value : Value }.

Inductive chain_at (value_field : string) : option Z -> list Node -> Prop :=
| chain_end : chain_at value_field None []
| chain_node id hash key value next nodes :
    object id ["hash"; "key"; value_field; "next"]%string = Some [value_int hash; key; value; next] ->
    chain_at value_field (as_object_id next) nodes ->
    chain_at value_field (Some id) ({| nd_hash := hash; nd_key := key; nd_value := value |} :: nodes).

(** The value of the first node whose key is the literal. *)
Definition value_for (key : ArgLit) (nodes : list Node) : Value :=
  match List.find (fun nd => heap_matches (nd_key nd) key) nodes with Some nd => nd_value nd | None => value_null end.

Lemma bin_walks guard value_field start nodes hash key :
  chain_at value_field start nodes -> (length nodes <= guard)%nat ->
  (forall nd, nd ∈ nodes -> heap_matches (nd_key nd) key = true -> nd_hash nd = hash) ->
  walks (bin_lookup_from guard start hash key value_field) (value_for key nodes).
Proof.
  intros Hc. revert guard. induction Hc as [|id h k v next nodes Ho Hc IH]; intros guard Hg Hh.
  { destruct guard; apply walks_ret. }
  destruct guard as [|guard]; simpl in Hg; [lia|]. cbn [bin_lookup_from].
  eapply walks_bind; [by eapply walks_object|]. unfold nth_int, nth_object, nth_value. simpl.
  eapply (walks_bind _ _ (heap_matches k key)).
  - apply walks_walk. unfold as_int. simpl. case_bool_decide as E; [apply reads_matches|].
    destruct (heap_matches k key) eqn:Em; [|apply reads_ret]. exfalso. apply E. f_equal.
    by apply (Hh _ (list_elem_of_here _ _)).
  - unfold value_for. simpl. destruct (heap_matches k key); [apply walks_ret|]. apply IH; [lia|].
    intros nd Hin. apply Hh. by right.
Qed.

(** A [java.util.HashMap]: its table, a bin per slot, and every node of a key that hashes as specified in
    the bin its hash selects, with that hash. *)
Record hash_map_at (m : Z) (bins : list (list Node)) : Prop := {
  hm_table : exists tv, object m ["table"%string] = Some [tv] /\
    match as_object_id tv with
    | None => bins = []
    | Some table =>
      heap_length f table = Ok (zlen bins) /\
      forall i bin, bins !! i = Some bin -> exists head_,
        heap_region f table (Z.of_nat i) 1 = Ok [head_] /\ chain_at "value" (as_object_id head_) bin
    end;
  hm_chains bin : bin ∈ bins -> (length bin <= BIN_CHAIN_GUARD)%nat;
  hm_placed i bin nd key : bins !! i = Some bin -> nd ∈ bin -> hashable key -> heap_matches (nd_key nd) key = true ->
    nd_hash nd = jdk_spread (jdk_hash key) /\ Z.land (zlen bins - 1) (nd_hash nd) = Z.of_nat i;
}.

Lemma find_app_none {A} (p : A -> bool) l k : (forall x, x ∈ l -> p x = false) -> List.find p (l ++ k) = List.find p k.
Proof. intros H. induction l as [|x l IH]; [done|]. simpl. rewrite H by by left. apply IH. intros y Hy. apply H. by right. Qed.
Lemma find_app_some {A} (p : A -> bool) l k x : List.find p l = Some x -> List.find p (l ++ k) = Some x.
Proof. induction l as [|y l IH]; [done|]. simpl. destruct (p y); [done|exact IH]. Qed.
Lemma find_concat_none {A} (p : A -> bool) (bins : list (list A)) :
  (forall j bin x, bins !! j = Some bin -> x ∈ bin -> p x = false) -> List.find p (concat bins) = None.
Proof.
  induction bins as [|bin bins IH]; intros H; [done|]. simpl. rewrite find_app_none by (intros x; by apply (H 0%nat)).
  apply IH. intros j. apply (H (S j)).
Qed.

(** Only one bin can hold the key. *)
Lemma find_in_bin {A} (p : A -> bool) (bins : list (list A)) i bin :
  bins !! i = Some bin -> (forall j bin' x, bins !! j = Some bin' -> x ∈ bin' -> p x = true -> j = i) ->
  List.find p (concat bins) = List.find p bin.
Proof.
  revert i. induction bins as [|b bins IH]; intros i Hi Hp; [done|]. destruct i as [|i]; simpl in *.
  - injection Hi as ->. destruct (List.find p bin) as [x|] eqn:E; [by apply find_app_some|].
    rewrite find_app_none by (intros x Hx; by apply (List.find_none p bin E), list_elem_of_In).
    apply find_concat_none. intros j bin' x Hj Hx. destruct (p x) eqn:Ex; [|done]. by specialize (Hp (S j) bin' x Hj Hx Ex).
  - rewrite find_app_none.
    + apply (IH i Hi). intros j bin' x Hj Hx Ex. by injection (Hp (S j) bin' x Hj Hx Ex).
    + intros x Hx. destruct (p x) eqn:Ex; [|done]. by specialize (Hp 0%nat b x eq_refl Hx Ex).
Qed.

Lemma land_index n h : 0 < n -> 0 <= Z.land (n - 1) h < n.
Proof.
  intros Hn. split; [apply Z.land_nonneg; lia|]. assert (E : n - 1 - Z.land (n - 1) h = Z.ldiff (n - 1) (Z.land (n - 1) h)).
  { apply Z.sub_nocarry_ldiff, Z.bits_inj'. intros i Hi. rewrite Z.ldiff_spec, Z.land_spec, Z.bits_0. by destruct (Z.testbit (n - 1) i), (Z.testbit h i). }
  assert (0 <= Z.ldiff (n - 1) (Z.land (n - 1) h)) by (apply Z.ldiff_nonneg; lia). lia.
Qed.

Lemma hash_map_walks m bins key :
  hashable key -> hash_map_at m bins -> walks (hash_map_lookup m key) (value_for key (concat bins)).
Proof.
  intros Hk [(tv & Ht & Htable) Hchains Hplaced]. unfold hash_map_lookup. rewrite java_hash_jdk by done. simpl.
  rewrite spread_jdk by by apply jdk_hash_range. set (hash := jdk_spread (jdk_hash key)) in *.
  eapply (walks_bind _ _ (as_object_id tv, 0)).
  { eapply walks_bind; [by eapply walks_object|]. unfold nth_object, nth_int. simpl. apply walks_ret. }
  destruct (as_object_id tv) as [table|]; [|subst; apply walks_ret]. destruct Htable as [Hlen Hbins].
  eapply walks_bind; [apply walks_call; rewrite <- Hlen; by apply answers_length|].
  destruct (Z.leb_spec (zlen bins) 0) as [Hz|Hz].
  { destruct bins as [|b bins]; [apply walks_ret|]. unfold zlen in Hz. simpl in Hz. lia. }
  pose proof (land_index (zlen bins) hash Hz) as Hi. set (i := Z.land (zlen bins - 1) hash) in *.
  destruct (lookup_lt_is_Some_2 bins (Z.to_nat i)) as [bin Hbin]; [unfold zlen in Hi; lia|].
  destruct (Hbins _ _ Hbin) as (head_ & Hregion & Hchain). rewrite Z2Nat.id in Hregion by lia.
  eapply walks_bind; [apply walks_call; rewrite <- Hregion; by apply answers_region|]. simpl.
  assert (Hash : forall j bin' nd, bins !! j = Some bin' -> nd ∈ bin' -> heap_matches (nd_key nd) key = true ->
    nd_hash nd = hash /\ j = Z.to_nat i).
  { intros j bin' nd Hj Hnd Hm. destruct (Hplaced j bin' nd key Hj Hnd Hk Hm) as [E1 E2]. split; [done|].
    rewrite E1 in E2. fold hash i in E2. lia. }
  replace (value_for key (concat bins)) with (value_for key bin).
  - apply bin_walks; [done|by apply Hchains; eapply list_elem_of_lookup_2|]. intros nd Hnd Hm. by destruct (Hash _ _ nd Hbin Hnd Hm).
  - unfold value_for. rewrite (find_in_bin _ _ _ _ Hbin); [done|]. intros j bin' nd Hj Hnd Hm. by destruct (Hash j bin' nd Hj Hnd Hm).
Qed.
End Lookup.

(** C19. A key of a [HashMap] is found through the table alone. Against a debuggee that is not changing
    and holds a map laid out as the JDK lays one out (every node of a key whose hash is specified sits in
    the bin that hash selects and carries it, in chains of at most 4096 nodes), looking a string, an
    integer, a long, a char or a boolean up answers exactly the value the map has for that key, or [null]
    when no node has it: it never declines, never fails, and keeps what it resolved and cached true. *)
Theorem hash_map_lookup_exact `{BC : BytesCrate} `{D : Debuggee} (f : Z -> Z -> bytes -> JdwpResult (Z * bytes)) m bins key ids w :
  constant f -> hashable key -> hash_map_at f m bins -> honest_ids f ids -> honest_cache f (w_types w) ->
  exists ids' w', hash_map_lookup m key ids w = (Ok (Read (value_for f key (concat bins))), ids', w') /\
    honest_ids f ids' /\ honest_cache f (w_types w').
Proof. intros Hf Hk Hm Hi Hw. by apply hash_map_walks. Qed.

(** ** A small map

    [{5 => object 501, "a" => object 502}] in a table of two bins, both keys in the second. *)

Definition map_answers (set command : Z) (body : bytes) : JdwpResult (Z * bytes) :=
  let int32 := be_bytes 4 in
  let text := write_jdwp_string (BC := network_order) in
  let values l := int32 (zlen l) ++ concat (map (write_tagged_value (BC := network_order)) l) in
  let field id name := be_bytes 8 id ++ text name ++ text "I"%string ++ text ""%string ++ int32 0 in
  let fields names := int32 (zlen names) ++ concat (imap (fun i name => field (Z.of_nat i + 1) name) names) in
  let id := be_val (take 8 body) in
  let ok data := Ok (0, data) in
  match set, command, id with
  | 9, 1, 100 => ok (1 :: be_bytes 8 10)
  | 9, 1, 301 | 9, 1, 302 => ok (1 :: be_bytes 8 11)
  | 9, 1, 401 => ok (1 :: be_bytes 8 12)
  | 9, 1, 402 => ok (1 :: be_bytes 8 13)
  | 2, 1, 12 => ok (text "Ljava/lang/Integer;"%string)
  | 2, 1, 13 => ok (text "Ljava/lang/String;"%string)
  | 2, 14, 10 => ok (fields ["table"%string])
  | 2, 14, 11 => ok (fields ["hash"; "key"; "value"; "next"]%string)
  | 2, 14, 12 => ok (fields ["value"%string])
  | 9, 2, 100 => ok (values [value_object 200])
  | 9, 2, 301 => ok (values [value_int 5; value_object 401; value_object 501; value_object 302])
  | 9, 2, 302 => ok (values [value_int 97; value_object 402; value_object 502; value_null])
  | 9, 2, 401 => ok (values [value_int 5])
  | 10, 1, 402 => ok (text "a"%string)
  | 13, 1, 200 => ok (int32 2)
  | 13, 2, 200 =>
    let head_ := if be_val (take 4 (drop 8 body)) =? 1 then value_object 301 else value_null in
    ok (76 :: int32 1 ++ write_tagged_value (BC := network_order) head_)
  | _, _, _ => Ok (99, [])
  end.

Definition sample_bins : list (list Node) :=
  [[]; [{| nd_hash := 5; nd_key := value_object 401; nd_value := value_object 501 |};
        {| nd_hash := 97; nd_key := value_object 402; nd_value := value_object 502 |}]].

Lemma map_answers_map : hash_map_at (BC := network_order) map_answers 100 sample_bins.
Proof.
  split.
  - exists (value_object 200). split; [by vm_compute|]. split; [by vm_compute|].
    intros [|[|i]] bin; simpl; intros [= <-].
    + exists value_null. split; [by vm_compute|]. apply chain_end.
    + exists (value_object 301). split; [by vm_compute|].
      apply (chain_node _ _ _ _ _ _ (value_object 302)); [by vm_compute|].
      apply (chain_node _ _ _ _ _ _ value_null); [by vm_compute|]. apply chain_end.
  - intros bin [->|[->|[]%not_elem_of_nil]%elem_of_cons]%elem_of_cons; by_compute.
  - intros i bin nd key Hb Hnd Hk Hm. destruct i as [|[|i]]; simpl in Hb; [injection Hb as <-; by apply not_elem_of_nil in Hnd| |done].
    injection Hb as <-.
    apply elem_of_cons in Hnd as [->|[->|[]%not_elem_of_nil]%elem_of_cons].
    + destruct key; try discriminate Hm. apply andb_true_iff in Hm as [_ Hm%bool_decide_eq_true].
      vm_compute in Hm. injection Hm as <-. split; by vm_compute.
    + destruct key as [| | | | | | |s|]; try discriminate Hm. apply andb_true_iff in Hm as [_ Hm%bool_decide_eq_true].
      assert (Ha : ok_of (heap_string (BC := network_order) map_answers 402) = Some "a"%string) by by vm_compute.
      assert (Hs : string_of_chars s = "a"%string) by (apply (inj Some); by rewrite <- Ha).
      rewrite <- (str_chars_of_chars s Hk), Hs. split; by vm_compute.
Qed.

Lemma hash_map_lookup_exact_witness :
  let lookup key := fst (fst (hash_map_lookup (BC := network_order) (D := answering map_answers) 100 key ids_default world_init)) in
  lookup (ArgStr [97]) = Ok (Read (value_object 502)) /\ lookup (ArgInt 5) = Ok (Read (value_object 501)) /\
  lookup (ArgInt 6) = Ok (Read value_null).
Proof.
  assert (K : forall key, hashable key -> fst (fst (hash_map_lookup (BC := network_order) (D := answering map_answers) 100 key ids_default world_init)) =
    Ok (Read (value_for (BC := network_order) map_answers key (concat sample_bins)))).
  { intros key Hk. destruct (hash_map_lookup_exact (BC := network_order) (D := answering map_answers) map_answers 100 sample_bins key ids_default
      world_init (answering_constant map_answers) Hk map_answers_map) as (ids' & w' & E & _).
    - split; simpl; [intros t name o H; by rewrite lookup_empty in H|done].
    - split; simpl; intros t s H; by rewrite lookup_empty in H.
    - by rewrite E. }
  cbv zeta. split_and!; rewrite K by by_compute; by vm_compute.
Defined.
