(* ===== verification/Rendering.v ===== *)
(** * Rendering values ([mcp-server/src/handlers.rs])

    A value on one line, and a value expanded into its fields, elements and entries under a node
    budget, with the reads that are certain to be needed fetched in one wave; the scans a slice and a
    filter work on. *)

From S2P Require Import Prelude Protocol Types Reader Connection Client Generics Text Expr Locate Paths StopPoint Arming Rearm.
From S2P Require Import Reading TextArrays Structures.

Definition quoted_text (s : string) : string := dquote +s+ s +s+ dquote.
Definition handle (id : Z) : string := "@0x" +s+ show_hex id.

(** [name.strip_suffix("[]").unwrap_or(name)]. *)
Definition element_name (name : string) : string :=
  string_of_bytes (default (bytes_of_string name) (strip_suffix (chars_of "[]") (bytes_of_string name))).

Section OneLine.
Context `{BC : BytesCrate} `{D : Debuggee} `{FT : FloatText}.

(** ** One line *)

Definition render_element (value : Value) (how : ByteRender) : St string :=
  match val_data value with
  | VObject id =>
    if id =? 0 then mret "null" else
    contents ← (if val_tag value =? 115 then st_ok (get_string_value id) else mret None : St (option string));
    match contents with
    | Some s => mret (quoted_text (truncate s 60))
    | None =>
      t ← attempt (get_object_reference_type id);
      match t with
      | Ok t =>
        sig ← st_or "" (get_signature t);
        text ← render_text_array id sig 60 how;
        mret (default (decode_signature sig +s+ " " +s+ handle id) text)
      | Err _ => mret ("(object) " +s+ handle id)
      end
    end
  | _ => mret (format show_f32 show_f64 value)
  end.

Definition render_array (id : Z) (name : string) (how : ByteRender) : St (option string) :=
  len ←~ st_ok (get_array_length id);
  let take_ := Z.min len 16 in
  elems ←~ st_ok (get_array_values id 0 take_);
  parts ← st_map (fun e => render_element e how) elems;
  let more := if take_ <? len then ", … +" +s+ pretty (len - take_) +s+ " more" else "" in
  mret (Some (element_name name +s+ "[" +s+ pretty len +s+ "]{" +s+ join ", " parts +s+ more +s+ "}")).

Inductive ToStringOutcome : Type := Rendered (s : string) | TimedOut (ms : Z) | Unavailable.

Definition render_via_tostring (id type_id tid : Z) (name : string) (max_len : Z) : St ToStringOutcome :=
  found ← find_method_arity type_id "toString" 0;
  match found with
  | Ok (Some (decl, m)) =>
    if negb (String.eqb (mi_signature m) "()Ljava/lang/String;") then mret Unavailable else
    r ← attempt (invoke_method id tid decl (mi_method_id m) []);
    match r with
    | Err (InvokeTimeout ms) => mret (TimedOut ms)
    | Err _ => mret Unavailable
    | Ok (ret, exc) =>
      if negb (exc =? 0) then mret Unavailable else
      match as_object_id ret with
      | None => mret Unavailable
      | Some sid =>
        s ← attempt (get_string_value sid);
        mret (match s with
              | Ok s => Rendered (name +s+ " " +s+ quoted_text (truncate s max_len))
              | Err _ => Unavailable
              end)
      end
    end
  | _ => mret Unavailable
  end.

(** The tail of a rendering, and what follows when it is not an array that reads as text or elements. *)
Definition render_plain_object (reads : ValueReads) (id type_id : Z) (name : string) (thread_id : option Z) (max_len : Z) : St string :=
  unboxed ← render_boxed_primitive reads id type_id name;
  match unboxed with
  | Some unboxed => mret unboxed
  | None =>
    lazy ← hibernate_lazy_state id type_id;
    match lazy with
    | Unfetched shape =>
      mret (name +s+ " " +s+ handle id +s+ " ⏳ UNFETCHED " +s+ lazy_link_kind shape +s+ " — " +s+ lazy_link_note shape)
    | _ =>
      match thread_id with
      | None => mret (name +s+ " " +s+ handle id)
      | Some tid =>
        r ← render_via_tostring id type_id tid name max_len;
        mret (match r with
              | Rendered s => s
              | TimedOut ms => name +s+ " " +s+ handle id +s+ " ⚠️ toString() did not return within " +s+ pretty ms +s+ "ms — value not rendered. JDWP cannot cancel an invocation, so that thread is STILL executing it and its frames are unreadable until it finishes or you debug.continue. Use expand_objects:true instead, which reads fields and invokes nothing."
              | Unavailable => name +s+ " " +s+ handle id
              end)
      end
    end
  end.

Definition render_resolved_object (reads : ValueReads) (id type_id : Z) (sig name : string) (tag : Z) (thread_id : option Z)
    (max_len : Z) (how : ByteRender) : St string :=
  as_array ← (if tag =? 91 then
      text ← render_text_array id sig max_len how;
      match text with Some text => mret (Some text) | None => render_array id name how end
    else mret None : St (option string));
  match as_array with
  | Some rendered => mret rendered
  | None => render_plain_object reads id type_id name thread_id max_len
  end.

(** The contents of a string, when the tag or the type says it is one. *)
Definition render_object (reads : ValueReads) (id tag : Z) (thread_id : option Z) (max_len : Z) (how : ByteRender) : St string :=
  contents ← (if tag =? 115 then string_contents reads id else mret None : St (option string));
  match contents with
  | Some s => mret (quoted_text (truncate s max_len))
  | None =>
    t ← reference_type reads id;
    match t with
    | None => mret ("(object) " +s+ handle id)
    | Some type_id =>
      sig ← st_or "" (get_signature type_id);
      let name := decode_signature sig in
      contents ← (if String.eqb name "java.lang.String" then string_contents reads id else mret None : St (option string));
      match contents with
      | Some s => mret (quoted_text (truncate s max_len))
      | None => render_resolved_object reads id type_id sig name tag thread_id max_len how
      end
    end
  end.

Definition render_value_committed (reads : ValueReads) (value : Value) (thread_id : option Z) (max_len : Z) (how : ByteRender) : St string :=
  match val_data value with
  | VObject id => if id =? 0 then mret "null" else render_object reads id (val_tag value) thread_id max_len how
  | other => mret (default "(?)" (format_primitive show_f32 show_f64 other))
  end.
Definition render_value (value : Value) (thread_id : option Z) (max_len : Z) (how : ByteRender) : St string :=
  render_value_committed reads_none value thread_id max_len how.

(** ** Containers *)

Inductive ContainerKind : Type := Collection | Map | Optional.

Definition method_signature (found : result string (option (Z * MethodInfo))) : option string :=
  match found with Ok (Some (_, m)) => Some (mi_signature m) | _ => None end.

Definition classify_container (type_id : Z) (name : string) : St (option ContainerKind) :=
  if String.eqb name "java.util.Optional" then mret (Some Optional) else
  size ← find_method_arity type_id "size" 0;
  if negb (bool_decide (method_signature size = Some "()I"%string)) then mret None else
  entry_set ← find_method_arity type_id "entrySet" 0;
  if is_some (method_signature entry_set) then mret (Some Map) else
  to_array ← find_method_arity type_id "toArray" 0;
  mret (if bool_decide (method_signature to_array = Some "()[Ljava/lang/Object;"%string) then Some Collection else None).

Definition entry_pair (entry_value : Value) (tid : Z) : St (option (Value * Value)) :=
  match as_object_id entry_value with
  | None => mret None
  | Some entry =>
    etype ←~ st_ok (get_object_reference_type entry);
    k ←~ invoke_no_arg entry etype tid "getKey";
    v ←~ invoke_no_arg entry etype tid "getValue";
    mret (Some (k, v))
  end.
End OneLine.

(** ** The node budget *)

Record DeepOpts : Type := { do_depth_limit : nat; do_child_limit : Z; do_text_len : Z; do_bytes : ByteRender }.

Definition DEEP_NODE_BUDGET : Z := 400.
Definition STACK_NODE_BUDGET : Z := 1000.

(** [usize::saturating_mul], [usize::saturating_add]. *)
Definition sat (n : Z) : Z := Z.min (2 ^ 64 - 1) n.

(** The most nodes the subtree of one child can spend, [levels] of expansion below it. *)
Fixpoint subtree_bound (levels : nat) (fanout : Z) : Z :=
  match levels with
  | O => 1
  | S levels => sat (1 + sat (fanout * subtree_bound levels fanout))
  end.
Definition subtree_max (depth : nat) (opts : DeepOpts) : Z :=
  subtree_bound (do_depth_limit opts - depth) (sat (do_child_limit opts * 2)).

Definition certain_children (budget children : Z) (child_depth : nat) (opts : DeepOpts) : Z :=
  if (children =? 0) || (budget =? 0) then 0
  else Z.min ((budget - 1) / Z.max 1 (subtree_max child_depth opts) + 1) children.

Record DeepState : Type := { dp_budget : Z; dp_path : list Z; dp_reads : ValueReads; dp_read_path : ReadPath }.
Definition deep_state (budget : Z) : DeepState := {| dp_budget := budget; dp_path := []; dp_reads := reads_none; dp_read_path := [] |}.
Definition exhausted (s : DeepState) : bool := dp_budget s =? 0.

Definition deep_with (budget : Z -> Z) (path : list Z -> list Z) (note : ReadPath -> ReadPath) (s : DeepState) : DeepState :=
  {| dp_budget := budget (dp_budget s); dp_path := path (dp_path s); dp_reads := dp_reads s; dp_read_path := note (dp_read_path s) |}.

(** [&mut DeepState] beside the connection. *)
Definition Deep (A : Type) : Type := DeepState -> World -> A * DeepState * World.
#[global] Instance deep_ret : MRet Deep := fun _ a s w => (a, s, w).
#[global] Instance deep_bind : MBind Deep := fun _ _ k m s w => let '(a, s, w) := m s w in k a s w.
Definition on_wire {A} (m : St A) : Deep A := fun s w => let '(a, w) := m w in (a, s, w).
Definition reading {A} (m : ValueReads -> St A) : Deep A := fun s w => let '(a, w) := m (dp_reads s) w in (a, s, w).
Definition deep_state_is : Deep DeepState := fun s w => (s, s, w).
Definition change (f : DeepState -> DeepState) : Deep unit := fun s w => (tt, f s, w).
Definition note_read (f : ReadPath -> ReadPath) : Deep unit := change (deep_with id id f).

Definition indent (depth : nat) : string := repeat_str "  " depth.
Definition new_line (depth : nat) : string := newline +s+ indent depth.

Section Deep.
Context `{BC : BytesCrate} `{D : Debuggee} `{FT : FloatText}.
Context (opts : DeepOpts).

(** The children a rendering is certain to reach, read in one wave. *)
Definition commit_children (children : list Value) (rendered : Z) (depth : nat) : Deep unit := fun s w =>
  let certain := certain_children (dp_budget s) rendered (S depth) opts in
  let '(reads, w) := extend_committed (take (Z.to_nat certain) children) (dp_reads s) w in
  (tt, {| dp_budget := dp_budget s; dp_path := dp_path s; dp_reads := reads; dp_read_path := dp_read_path s |}, w).

(** ** One level

    [child] renders a node one level down. *)
Section Level.
Context (child : Value -> option Z -> Deep string) (depth : nat).

Fixpoint field_lines (l : list (FieldInfo * Value)) (thread_id : option Z) (out : string) : Deep string :=
  match l with
  | [] => mret out
  | (f, v) :: l =>
    rendered ← child v thread_id;
    field_lines l thread_id (out +s+ new_line (S depth) +s+ fi_name f +s+ " = " +s+ rendered)
  end.

Fixpoint element_lines (i : Z) (l : list Value) (thread_id : option Z) (out : string) : Deep string :=
  match l with
  | [] => mret out
  | e :: l =>
    rendered ← child e thread_id;
    element_lines (i + 1) l thread_id (out +s+ new_line (S depth) +s+ "[" +s+ pretty i +s+ "] = " +s+ rendered)
  end.

Definition entry_line (kv : Value * Value) (thread_id : option Z) (out : string) : Deep string :=
  kr ← child (fst kv) thread_id;
  vr ← child (snd kv) thread_id;
  mret (out +s+ new_line (S depth) +s+ kr +s+ " → " +s+ vr).

Fixpoint pair_lines (l : list (Value * Value)) (thread_id : option Z) (out : string) : Deep string :=
  match l with
  | [] => mret out
  | kv :: l => out ← entry_line kv thread_id out; pair_lines l thread_id out
  end.

(** The entries of a map read by invoking: one that cannot be read is skipped. *)
Fixpoint entry_lines (l : list Value) (tid : Z) (out : string) : Deep string :=
  match l with
  | [] => mret out
  | e :: l =>
    kv ← on_wire (entry_pair e tid);
    match kv with
    | None => entry_lines l tid out
    | Some kv => out ← entry_line kv (Some tid) out; entry_lines l tid out
    end
  end.

Definition closed (out : string) : string := out +s+ new_line depth +s+ "}".
Definition more_line (n : Z) (unit : string) : string := new_line (S depth) +s+ "… +" +s+ pretty n +s+ " more" +s+ unit.

(** [len.min(i32::try_from(opts.child_limit).unwrap_or(i32::MAX))]. *)
Definition shown_of (len : Z) : Z := Z.min len (i32_of_len (do_child_limit opts)).

Definition render_indexed_block (header : string) (arr len : Z) (thread_id : option Z) : Deep (option string) :=
  if len =? 0 then mret (Some (header +s+ " {}")) else
  let take_ := shown_of len in
  elems ← on_wire (st_ok (get_array_values arr 0 take_));
  match elems with
  | None => mret None
  | Some elems =>
    _ ← commit_children elems (zlen elems) depth;
    out ← element_lines 0 elems thread_id (header +s+ " {");
    mret (Some (closed (out +s+ (if take_ <? len then more_line (len - take_) "" else ""))))
  end.

Definition render_array_deep (id : Z) (name : string) (thread_id : option Z) : Deep string :=
  len ← on_wire (st_ok (get_array_length id));
  match len with
  | None => mret (name +s+ " " +s+ handle id +s+ " (length unreadable)")
  | Some len =>
    block ← render_indexed_block (element_name name +s+ "[" +s+ pretty len +s+ "]") id len thread_id;
    mret (default (name +s+ " " +s+ handle id +s+ " (elements unreadable)") block)
  end.

Definition render_fields_deep (id type_id : Z) (name : string) (thread_id : option Z) : Deep string :=
  fields ← on_wire (collect_instance_fields type_id);
  if bool_decide (fields = []) then
    sig ← on_wire (st_or "" (get_signature type_id));
    on_wire (render_resolved_object reads_none id type_id sig name 76 thread_id (do_text_len opts) (do_bytes opts))
  else
    let shown := Z.min (zlen fields) (do_child_limit opts) in
    values ← on_wire (st_ok (get_object_values id (map fi_field_id (take (Z.to_nat shown) fields))));
    match values with
    | None => mret (name +s+ " " +s+ handle id +s+ " (fields unreadable)")
    | Some values =>
      _ ← commit_children values (Z.min shown (zlen values)) depth;
      out ← field_lines (zip (take (Z.to_nat shown) fields) values) thread_id (name +s+ " " +s+ handle id +s+ " {");
      mret (closed (out +s+ (if shown <? zlen fields then more_line (zlen fields - shown) " field(s)" else "")))
    end.

(** A map or a list read through its fields: [inl] is the rendering, [inr] why it was declined. *)
Definition render_list_deep (id type_id : Z) (name : string) (thread_id : option Z) : Deep (Walked string) :=
  backing ← on_wire (fun w => let '(r, _, w) := array_list_backing id (rooted_at id type_id) w in (r, w));
  match backing with
  | Ok (Read (arr, size)) =>
    let header := name +s+ "[" +s+ pretty size +s+ "]" in
    rendered ← match arr with
               | Some a => render_indexed_block header a size thread_id
               | None => mret (Some (header +s+ " {}"))
               end;
    mret (Read (default (header +s+ " {}") rendered))
  | Ok (Declined why) => mret (Declined why)
  | Err e => mret (Declined e)
  end.

Definition map_entries (layout : Layout) (id : Z) : W (list (Value * Value) * Z) :=
  match layout with
  | LinkedHashMap => linked_map_entries id
  | ConcurrentHashMap => chm_entries id
  | _ => hash_map_entries id
  end.

Definition render_layout_deep (id type_id : Z) (layout : Layout) (name : string) (thread_id : option Z) : Deep (Walked string) :=
  match layout with
  | ArrayList => render_list_deep id type_id name thread_id
  | _ =>
    entries ← on_wire (fun w => let '(r, _, w) := map_entries layout id (rooted_at id type_id) w in (r, w));
    match entries with
    | Ok (Declined why) => mret (Declined why)
    | Err e => mret (Declined e)
    | Ok (Read (pairs, len)) =>
      if len =? 0 then mret (Read (name +s+ "{} (0 entries)")) else
      let take_ := Z.min (zlen pairs) (do_child_limit opts) in
      out ← pair_lines (take (Z.to_nat take_) pairs) thread_id (name +s+ "(" +s+ pretty len +s+ " entries) {");
      let shown := i32_of_len take_ in
      mret (Read (closed (out +s+ (if shown <? len then more_line (len - shown) " entr(ies)" else ""))))
    end
  end.

(** ** Containers read by invoking *)

Definition render_optional_deep (id type_id tid : Z) : Deep (option string) :=
  present ← on_wire (invoke_no_arg id type_id tid "isPresent");
  if negb (bool_decide (val_data <$> present = Some (VBoolean true))) then mret (Some "Optional.empty"%string) else
  v ← on_wire (invoke_no_arg id type_id tid "get");
  match v with
  | None => mret None
  | Some v => rendered ← child v (Some tid); mret (Some ("Optional[" +s+ rendered +s+ "]"))
  end.

Definition array_of (id type_id tid : Z) (method : string) : St (option Z) :=
  v ←~ invoke_no_arg id type_id tid method; mret (as_object_id v).

Definition render_elements_deep (id type_id : Z) (name : string) (tid : Z) : Deep (option string) :=
  found ← on_wire (arr ←~ array_of id type_id tid "toArray"; len ←~ st_ok (get_array_length arr); mret (Some (arr, len))
                   : St (option (Z * Z)));
  match found with
  | None => mret None
  | Some (arr, len) => render_indexed_block (name +s+ "[" +s+ pretty len +s+ "]") arr len (Some tid)
  end.

Definition render_map_deep (id type_id : Z) (name : string) (tid : Z) : Deep (option string) :=
  found ← on_wire (set ←~ array_of id type_id tid "entrySet";
                   set_type ←~ st_ok (get_object_reference_type set);
                   arr ←~ array_of set set_type tid "toArray";
                   len ←~ st_ok (get_array_length arr); mret (Some (arr, len)) : St (option (Z * Z)));
  match found with
  | None => mret None
  | Some (arr, len) =>
    if len =? 0 then mret (Some (name +s+ "{} (0 entries)")) else
    let take_ := shown_of len in
    entries ← on_wire (st_ok (get_array_values arr 0 take_));
    match entries with
    | None => mret None
    | Some entries =>
      out ← entry_lines entries tid (name +s+ "(" +s+ pretty len +s+ " entries) {");
      mret (Some (closed (out +s+ (if take_ <? len then more_line (len - take_) " entr(ies)" else ""))))
    end
  end.

Definition render_collection_deep (id type_id : Z) (name : string) (tid : Z) (kind : ContainerKind) : Deep (option string) :=
  match kind with
  | Optional => render_optional_deep id type_id tid
  | Collection => render_elements_deep id type_id name tid
  | Map => render_map_deep id type_id name tid
  end.

(** What is left when the object was not read through a layout that is known. *)
Definition expand_by_kind (id type_id : Z) (name : string) (thread_id : option Z) (declined : option string) : Deep string :=
  kind ← on_wire (classify_container type_id name);
  rendered ← match kind, thread_id with
             | Some k, Some tid => render_collection_deep id type_id name tid k
             | _, _ => mret None
             end;
  match rendered with
  | Some rendered =>
    _ ← note_read (match declined with Some why => invoked name why | None => unrecognised name end);
    mret rendered
  | None =>
    _ ← (if is_some kind then note_read (internals_only name) else mret tt);
    render_fields_deep id type_id name thread_id
  end.

Definition expand_object (id type_id : Z) (sig name : string) (tag : Z) (thread_id : option Z) : Deep string :=
  if tag =? 91 then
    text ← on_wire (render_text_array id sig (do_text_len opts) (do_bytes opts));
    match text with
    | Some text => mret text
    | None => render_array_deep id name thread_id
    end
  else
    layout ← on_wire (recognise_layout type_id);
    match layout with
    | None => expand_by_kind id type_id name thread_id None
    | Some layout =>
      read ← render_layout_deep id type_id layout name thread_id;
      match read with
      | Read rendered => _ ← note_read (walked layout name); mret rendered
      | Declined why => expand_by_kind id type_id name thread_id (Some why)
      end
    end.
End Level.

(** ** A node

    [levels] is how far the depth limit is: [opts.depth_limit - depth], or zero at the limit and below. *)
Fixpoint render_node (levels : nat) (value : Value) (thread_id : option Z) (depth : nat) : Deep string :=
  match val_data value with
  | VObject id =>
    if id =? 0 then mret "null" else
    s ← deep_state_is;
    if dp_budget s =? 0 then mret ("… (budget exhausted) " +s+ handle id) else
    _ ← change (deep_with (fun b => b - 1) (fun p => p) (fun n => n));
    if bool_decide (id ∈ dp_path s) then
      name ← on_wire (type_name_of id); mret ("↩ " +s+ name +s+ " " +s+ handle id +s+ " (cycle)")
    else
    contents ← (if val_tag value =? 115 then reading (fun reads => string_contents reads id) else mret None : Deep (option string));
    match contents with
    | Some s => mret (quoted_text (truncate s (do_text_len opts)))
    | None =>
    t ← reading (fun reads => reference_type reads id);
    match t with
    | None => mret ("(object) " +s+ handle id)
    | Some type_id =>
    sig ← on_wire (st_or "" (get_signature type_id));
    let name := decode_signature sig in
    contents ← (if String.eqb name "java.lang.String" then reading (fun reads => string_contents reads id) else mret None : Deep (option string));
    match contents with
    | Some s => mret (quoted_text (truncate s (do_text_len opts)))
    | None =>
    unboxed ← reading (fun reads => render_boxed_primitive reads id type_id name);
    match unboxed with
    | Some unboxed => mret unboxed
    | None =>
    match levels with
    | O => reading (fun reads => render_resolved_object reads id type_id sig name (val_tag value) thread_id (do_text_len opts) (do_bytes opts))
    | S levels =>
      _ ← change (deep_with (fun b => b) (fun p => p ++ [id]) (fun n => n));
      rendered ← expand_object (fun v thread_id => render_node levels v thread_id (S depth)) depth id type_id sig name (val_tag value) thread_id;
      _ ← change (deep_with (fun b => b) (fun p => removelast p) (fun n => n));
      mret rendered
    end
    end end end end
  | other => mret (default "(?)" (format_primitive show_f32 show_f64 other))
  end.

Definition render_value_deep (value : Value) (thread_id : option Z) : St string := fun w =>
  let '(body, state, w) := render_node (do_depth_limit opts) value thread_id 0 (deep_state DEEP_NODE_BUDGET) w in
  let notes := render_path (dp_read_path state) in
  (if exhausted state
   then body +s+ newline +s+ "… node budget (400) exhausted — raise max_depth only if needed" +s+ notes
   else body +s+ notes, w).
End Deep.

Definition render_one `{BC : BytesCrate} `{D : Debuggee} `{FT : FloatText} (value : Value) (thread_id : option Z) (max_len : Z)
    (deep : option DeepOpts) (how : ByteRender) : St string :=
  match deep with
  | Some opts => render_value_deep opts value thread_id
  | None => render_value value thread_id max_len how
  end.
