(* ===== verification/RenderingFacts.v ===== *)
(** * What a deep rendering spends ([mcp-server/src/handlers.rs], [value_reads.rs])

    A node never spends more of the budget than the bound its children's prefetch is computed from, so
    a read that was fetched ahead is a read that is used; and reads fetched ahead answer what the
    individual reads would have. *)

From S2P Require Import Prelude Protocol Types Reader Connection Client Generics Text Expr Locate Reading TextArrays Structures Rendering.

(** ** Spending *)

(** The budget falls by at most the cost, and the path of enclosing objects is what it was. *)
Definition spends {A} (cost : A -> Z) (m : Deep A) : Prop := forall s w, in_u 64 (dp_budget s) ->
  let '(a, s', _) := m s w in
  0 <= dp_budget s' <= dp_budget s /\ dp_budget s - dp_budget s' <= cost a /\ dp_path s' = dp_path s.

Lemma spends_ret {A} (a : A) cost : 0 <= cost a -> spends cost (mret a).
Proof. intros Hc s w Hs. unfold in_u in Hs. simpl. split_and!; lia || done. Qed.

Lemma spends_bind {A B} (m : Deep A) (k : A -> Deep B) c cost :
  spends c m -> (forall a, spends (fun b => cost b - c a) (k a)) -> spends cost (m ≫= k).
Proof.
  intros Hm Hk s w Hs. unfold mbind, deep_bind. specialize (Hm s w Hs).
  destruct (m s w) as [[a s1] w1]. destruct Hm as (H1 & H2 & H3). specialize (Hk a s1 w1).
  destruct (k a s1 w1) as [[b s2] w2]. unfold in_u in *. destruct Hk as (H4 & H5 & H6); [lia|].
  split_and!; [lia..|congruence].
Qed.

Lemma spends_le {A} (m : Deep A) c d : spends c m -> (forall a, c a <= d a) -> spends d m.
Proof.
  intros Hm Hle s w Hs. specialize (Hm s w Hs). destruct (m s w) as [[a s1] w1]. specialize (Hle a).
  split_and!; [tauto..|lia|tauto].
Qed.

(** What does not touch the budget and the path. *)
Definition free {A} (m : Deep A) : Prop := spends (fun _ => 0) m.

Lemma free_bind {A B} (m : Deep A) (k : A -> Deep B) cost : free m -> (forall a, spends cost (k a)) -> spends cost (m ≫= k).
Proof. intros Hm Hk. eapply spends_bind; [exact Hm|]. intros a. eapply spends_le; [apply Hk|]. intros b. lia. Qed.

Lemma free_wire {A} (m : St A) : free (on_wire m).
Proof. intros s w Hs. unfold on_wire, in_u in *. destruct (m w). split_and!; lia || done. Qed.
Lemma free_reading {A} (m : ValueReads -> St A) : free (reading m).
Proof. intros s w Hs. unfold reading, in_u in *. destruct (m _ w). split_and!; lia || done. Qed.
Lemma free_note f : free (note_read f).
Proof. intros s w Hs. unfold note_read, change, in_u in *. simpl. split_and!; lia || done. Qed.
Lemma free_commit `{BC : BytesCrate} `{D : Debuggee} opts children n depth : free (commit_children opts children n depth).
Proof. intros s w Hs. unfold commit_children, in_u in *. destruct (extend_committed _ _ w). simpl. split_and!; lia || done. Qed.
Lemma free_if {A} (b : bool) (m n : Deep A) cost : spends cost m -> spends cost n -> spends cost (if b then m else n).
Proof. by destruct b. Qed.

(** An answer of the wire of which something is known. *)
Lemma spends_wire {A B} (P : A -> Prop) (m : St A) (k : A -> Deep B) cost :
  (forall w, P (fst (m w))) -> (forall a, P a -> spends cost (k a)) -> spends cost (on_wire m ≫= k).
Proof.
  intros Hm Hk s w Hs. unfold mbind, deep_bind, on_wire. specialize (Hm w). destruct (m w) as [a w1]. by apply Hk.
Qed.

Create HintDb spending.
#[export] Hint Resolve free_wire free_reading free_note free_commit : spending.

(** ** One level *)

Section Spending.
Context `{BC : BytesCrate} `{D : Debuggee} `{FT : FloatText}.
Context (opts : DeepOpts).

(** A region of an array has no more elements than were asked for. *)
Definition bounded_regions : Prop := forall a i n w,
  match fst (get_array_values a i n w) with Ok vs => zlen vs <= Z.max 0 n | Err _ => True end.

Context (Hregions : bounded_regions) (Hlimit : 1 <= do_child_limit opts).

Definition region_of (n : Z) (o : option (list Value)) : Prop := match o with Some vs => zlen vs <= Z.max 0 n | None => True end.
Lemma region_size a i n w : region_of n (fst (st_ok (get_array_values a i n) w)).
Proof.
  pose proof (Hregions a i n w) as H. unfold st_ok, mbind, st_bind, attempt, mret, st_ret.
  by destruct (get_array_values a i n w) as [[vs|e] w1].
Qed.

Section Level.
Context (child : Value -> option Z -> Deep string) (depth : nat) (c : Z) (Hc : 0 <= c).
Context (Hchild : forall v t, spends (fun _ => c) (child v t)).

Lemma zlen_nonneg {A} (l : list A) : 0 <= zlen l.
Proof. unfold zlen. lia. Qed.

Lemma field_lines_spends l t out : spends (fun _ => zlen l * c) (field_lines child depth l t out).
Proof.
  revert out. induction l as [|[f v] l IH]; intros out; [by apply spends_ret|]. cbn [field_lines].
  eapply spends_bind; [apply Hchild|]. intros r. eapply spends_le; [apply IH|]. intros ?. cbv beta. rewrite zlen_cons. lia.
Qed.
Lemma element_lines_spends i l t out : spends (fun _ => zlen l * c) (element_lines child depth i l t out).
Proof.
  revert i out. induction l as [|v l IH]; intros i out; [by apply spends_ret|]. cbn [element_lines].
  eapply spends_bind; [apply Hchild|]. intros r. eapply spends_le; [apply IH|]. intros ?. cbv beta. rewrite zlen_cons. lia.
Qed.
Lemma entry_line_spends kv t out : spends (fun _ => 2 * c) (entry_line child depth kv t out).
Proof.
  eapply spends_bind; [apply Hchild|]. intros k. eapply spends_bind; [apply Hchild|]. intros v.
  apply spends_ret. lia.
Qed.
Lemma pair_lines_spends l t out : spends (fun _ => zlen l * (2 * c)) (pair_lines child depth l t out).
Proof.
  revert out. induction l as [|kv l IH]; intros out; [by apply spends_ret|]. cbn [pair_lines].
  eapply spends_bind; [apply entry_line_spends|]. intros r. eapply spends_le; [apply IH|]. intros ?. cbv beta. rewrite zlen_cons. lia.
Qed.
Lemma entry_lines_spends l tid out : spends (fun _ => zlen l * (2 * c)) (entry_lines child depth l tid out).
Proof.
  revert out. induction l as [|e l IH]; intros out; [by apply spends_ret|]. cbn [entry_lines].
  apply free_bind; [auto with spending|]. intros [kv|].
  - eapply spends_bind; [apply entry_line_spends|]. intros r. eapply spends_le; [apply IH|]. intros ?. cbv beta. rewrite zlen_cons. lia.
  - eapply spends_le; [apply IH|]. intros ?. cbv beta. rewrite zlen_cons. lia.
Qed.

(** What a level may spend on its children: nothing when it gave up. *)
Definition level : Z := do_child_limit opts * 2 * c.
Definition on_answer {A} (o : option A) : Z := if is_some o then level else 0.

Lemma level_many n : 0 <= n <= do_child_limit opts -> n * (2 * c) <= level.
Proof. intros Hn. unfold level. nia. Qed.
Lemma level_few n : 0 <= n <= do_child_limit opts -> n * c <= level.
Proof. intros Hn. unfold level. nia. Qed.
Lemma level_nonneg : 0 <= level.
Proof. unfold level. nia. Qed.

Lemma shown_limit len : shown_of opts len <= do_child_limit opts.
Proof. unfold shown_of, i32_of_len. repeat case_match; lia. Qed.
Lemma region_limit n len : n <= Z.max 0 (shown_of opts len) -> n <= do_child_limit opts.
Proof. pose proof (shown_limit len). lia. Qed.

Lemma indexed_block_spends header arr len t : spends on_answer (render_indexed_block opts child depth header arr len t).
Proof.
  pose proof level_nonneg. unfold render_indexed_block. apply free_if; [by apply spends_ret|].
  eapply spends_wire; [intros w; apply (region_size _ _ _ w)|]. intros [elems|] Hn; [|by apply spends_ret].
  apply region_limit in Hn. pose proof (zlen_nonneg elems).
  apply free_bind; [auto with spending|]. intros _.
  eapply spends_bind; [apply element_lines_spends|]. intros out. apply spends_ret. simpl.
  pose proof (level_few (zlen elems)). unfold on_answer. simpl. lia.
Qed.

Lemma array_deep_spends id name t : spends (fun _ => level) (render_array_deep opts child depth id name t).
Proof.
  pose proof level_nonneg. apply free_bind; [auto with spending|]. intros [len|]; [|by apply spends_ret].
  eapply spends_bind; [apply indexed_block_spends|]. intros o. apply spends_ret. unfold on_answer. case_match; lia.
Qed.

Lemma fields_deep_spends id type_id name t : spends (fun _ => level) (render_fields_deep opts child depth id type_id name t).
Proof.
  pose proof level_nonneg. apply free_bind; [auto with spending|]. intros fields. apply free_if.
  - apply free_bind; [auto with spending|]. intros sig. eapply spends_le; [apply free_wire|]. done.
  - apply free_bind; [auto with spending|]. intros [values|]; [|by apply spends_ret].
    apply free_bind; [auto with spending|]. intros _.
    eapply spends_bind; [apply field_lines_spends|]. intros out. apply spends_ret.
    set (l := zip _ values). assert (zlen l <= do_child_limit opts).
    { subst l. unfold zlen at 1. rewrite length_zip_with, length_take. unfold zlen. lia. }
    pose proof (zlen_nonneg l). pose proof (level_few (zlen l)). simpl. lia.
Qed.

Definition on_read {A} (o : Walked A) : Z := match o with Read _ => level | Declined _ => 0 end.

Lemma list_deep_spends id type_id name t : spends on_read (render_list_deep opts child depth id type_id name t).
Proof.
  pose proof level_nonneg. apply free_bind; [auto with spending|]. intros [[[arr size]|why]|why]; [|by apply spends_ret..].
  destruct arr as [a|]; [|apply free_bind; [by apply spends_ret|]; intros o; by apply spends_ret].
  eapply spends_bind; [apply indexed_block_spends|]. intros o. apply spends_ret. unfold on_answer. simpl. case_match; lia.
Qed.

Lemma layout_deep_spends id type_id layout name t : spends on_read (render_layout_deep opts child depth id type_id layout name t).
Proof.
  pose proof level_nonneg. destruct layout; [..|apply list_deep_spends];
    (apply free_bind; [auto with spending|]; intros [[[pairs len]|why]|why]; [|by apply spends_ret..];
     apply free_if; [by apply spends_ret|]; eapply spends_bind; [apply pair_lines_spends|]; intros out; apply spends_ret;
     set (l := take _ pairs); assert (zlen l <= do_child_limit opts) by
       (subst l; unfold zlen at 1; rewrite length_take; unfold zlen; lia);
     pose proof (zlen_nonneg l); pose proof (level_many (zlen l)); simpl; lia).
Qed.

Lemma optional_deep_spends id type_id tid : spends on_answer (render_optional_deep child id type_id tid).
Proof.
  pose proof level_nonneg. apply free_bind; [auto with spending|]. intros present. apply free_if; [by apply spends_ret|].
  apply free_bind; [auto with spending|]. intros [v|]; [|by apply spends_ret].
  eapply spends_bind; [apply Hchild|]. intros r. apply spends_ret. unfold on_answer. simpl. pose proof (level_few 1). lia.
Qed.

Lemma collection_deep_spends id type_id name tid kind : spends on_answer (render_collection_deep opts child depth id type_id name tid kind).
Proof.
  pose proof level_nonneg. destruct kind; [..|apply optional_deep_spends].
  - apply free_bind; [auto with spending|]. intros [[arr len]|]; [apply indexed_block_spends|by apply spends_ret].
  - apply free_bind; [auto with spending|]. intros [[arr len]|]; [|by apply spends_ret]. apply free_if; [by apply spends_ret|].
    eapply spends_wire; [intros w; apply (region_size _ _ _ w)|]. intros [entries|] Hn; [|by apply spends_ret].
    apply region_limit in Hn. pose proof (zlen_nonneg entries). eapply spends_bind; [apply entry_lines_spends|]. intros out.
    apply spends_ret. unfold on_answer. simpl. pose proof (level_many (zlen entries)). lia.
Qed.

Lemma expand_by_kind_spends id type_id name t declined :
  spends (fun _ => level) (expand_by_kind opts child depth id type_id name t declined).
Proof.
  pose proof level_nonneg. apply free_bind; [auto with spending|]. intros kind.
  apply (spends_bind _ _ on_answer).
  - destruct kind as [k|], t as [tid|]; [apply collection_deep_spends|by apply spends_ret..].
  - intros [rendered|]; unfold on_answer; simpl.
    + apply free_bind; [auto with spending|]. intros _. apply spends_ret. lia.
    + apply free_bind; [apply free_if; [apply free_note|by apply spends_ret]|]. intros _.
      eapply spends_le; [apply fields_deep_spends|]. intros ?. cbv beta. lia.
Qed.

Lemma expand_object_spends id type_id sig name tag t :
  spends (fun _ => level) (expand_object opts child depth id type_id sig name tag t).
Proof.
  pose proof level_nonneg. unfold expand_object. apply free_if.
  - apply free_bind; [auto with spending|]. intros [text|]; [by apply spends_ret|apply array_deep_spends].
  - apply free_bind; [auto with spending|]. intros [layout|]; [|apply expand_by_kind_spends].
    eapply spends_bind; [apply layout_deep_spends|]. intros [rendered|why]; simpl.
    + apply free_bind; [auto with spending|]. intros _. apply spends_ret. lia.
    + eapply spends_le; [apply expand_by_kind_spends|]. intros ?. cbv beta. lia.
Qed.
End Level.
End Spending.

(** ** A node *)

Section Node.
Context `{BC : BytesCrate} `{D : Debuggee} `{FT : FloatText}.
Context (opts : DeepOpts) (Hregions : bounded_regions) (Hlimit : 1 <= do_child_limit opts).

Abbreviation fanout := (sat (do_child_limit opts * 2)).

Lemma subtree_bound_pos levels n : 0 <= n -> 1 <= subtree_bound levels n.
Proof.
  intros Hn. induction levels as [|levels IH]; simpl; [lia|]. unfold sat.
  assert (0 <= n * subtree_bound levels n) by (apply Z.mul_nonneg_nonneg; lia). lia.
Qed.

(** The bound of a level, whether it saturates or not. *)
Lemma level_saturates levels spent budget :
  spent <= 1 + level opts (subtree_bound levels fanout) -> spent <= budget -> in_u 64 budget -> spent <= subtree_bound (S levels) fanout.
Proof.
  unfold level, in_u. simpl. intros H1 H2 H3. assert (0 <= fanout) by (unfold sat; lia).
  pose proof (subtree_bound_pos levels fanout ltac:(done)) as Hb. set (b := subtree_bound levels fanout) in *. clearbody b.
  unfold sat. destruct (Z.min_spec (2 ^ 64 - 1) (do_child_limit opts * 2)) as [[Hm E]|[Hm E]]; unfold sat in *; rewrite E; nia.
Qed.

Lemma deep_state_bind {B} (k : DeepState -> Deep B) s w : (deep_state_is ≫= k) s w = k s s w.
Proof. done. Qed.

(** The node's own cost, and the path restored around its expansion. *)
Lemma node_cost {A} (m : Deep A) c :
  spends (fun _ => c) m -> forall s w, in_u 64 (dp_budget s) -> dp_budget s <> 0 ->
  let '(_, s', _) := (_ ← change (deep_with (fun b => b - 1) (fun p => p) (fun n => n)); m) s w in
  0 <= dp_budget s' <= dp_budget s /\ dp_budget s - dp_budget s' <= 1 + c /\ dp_path s' = dp_path s.
Proof.
  intros Hm s w Hs Hn. unfold mbind, deep_bind, change. unfold in_u in *.
  pose proof (Hm (deep_with (fun b => b - 1) (fun p => p) (fun n => n) s) w) as K. simpl in K.
  destruct (m _ w) as [[a s'] w']. destruct K as (K1 & K2 & K3); [unfold in_u; simpl; lia|]. split_and!; [lia..|done].
Qed.

Lemma spends_inside (m : Deep string) c id :
  spends (fun _ => c) m ->
  spends (fun _ => c) (_ ← change (deep_with (fun b => b) (fun p => p ++ [id]) (fun n => n)); r ← m;
                       _ ← change (deep_with (fun b => b) (fun p => removelast p) (fun n => n)); mret r).
Proof.
  intros Hm s w Hs. unfold mbind, deep_bind, change, mret, deep_ret.
  pose proof (Hm (deep_with (fun b => b) (fun p => p ++ [id]) (fun n => n) s) w) as K. simpl in K.
  destruct (m _ w) as [[a s'] w']. destruct K as (K1 & K2 & K3); [done|]. simpl.
  split_and!; [lia..|]. by rewrite K3, removelast_last.
Qed.

(** What a node does once it has been paid for. *)
Definition below (levels : nat) : Z := match levels with O => 0 | S levels => level opts (subtree_bound levels fanout) end.

Lemma below_bound levels spent budget :
  spent <= 1 + below levels -> spent <= budget -> in_u 64 budget -> spent <= subtree_bound levels fanout.
Proof. destruct levels; [simpl; lia|]. apply level_saturates. Qed.

Lemma node_spends levels v t depth : spends (fun _ => subtree_bound levels fanout) (render_node opts levels v t depth).
Proof.
  assert (Hf : 0 <= fanout) by (unfold sat; lia).
  revert v t depth. induction levels as [levels IH] using lt_wf_ind. intros v t depth.
  pose proof (subtree_bound_pos levels fanout Hf) as Hpos.
  assert (Hbelow : 0 <= below levels).
  { destruct levels as [|l]; simpl; [lia|]. pose proof (subtree_bound_pos l fanout Hf). unfold level. nia. }
  assert (Ret : forall x : string, spends (fun _ => subtree_bound levels fanout) (mret x)) by (intros; apply spends_ret; cbv beta; lia).
  assert (Resolved : forall m, spends (fun _ => below levels) m -> forall s w, in_u 64 (dp_budget s) -> dp_budget s <> 0 ->
    let '(_, s', _) := (_ ← change (deep_with (fun b => b - 1) (fun p => p) (fun n => n)); m : Deep string) s w in
    0 <= dp_budget s' <= dp_budget s /\ dp_budget s - dp_budget s' <= subtree_bound levels fanout /\ dp_path s' = dp_path s).
  { intros m Hm s w Hs Hn. pose proof (node_cost m _ Hm s w Hs Hn) as K. destruct ((_ ← _; m) s w) as [[a s'] w'].
    destruct K as (K1 & K2 & K3). split_and!; [lia..| |done]. by apply (below_bound levels _ (dp_budget s)); [|lia|]. }
  assert (Read_ : forall (b : bool) (m : ValueReads -> St (option string)), free (if b then reading m else mret None)) by
    (intros; apply free_if; [apply free_reading|by apply spends_ret]).
  destruct v as [tag data]; destruct levels as [|levels]; destruct data as [?|?|?|?|?|?|?|?|id|]; try apply Ret;
    intros s w Hs; cbn [render_node val_data val_tag];
    (destruct (id =? 0); [by apply Ret|]);
    rewrite deep_state_bind;
    (destruct (Z.eqb_spec (dp_budget s) 0) as [_|Hn]; [by apply Ret|]);
    (apply Resolved; [|done..]).
  all: case_bool_decide; [apply free_bind; [apply free_wire|]; intros name; by apply spends_ret|].
  all: apply free_bind; [apply Read_|]; intros [contents|]; [by apply spends_ret|].
  all: apply free_bind; [apply free_reading|]; intros [type_id|]; [|by apply spends_ret].
  all: apply free_bind; [apply free_wire|]; intros sig.
  all: apply free_bind; [apply Read_|]; intros [contents|]; [by apply spends_ret|].
  all: apply free_bind; [apply free_reading|]; intros [unboxed|]; [by apply spends_ret|].
  - apply free_reading.
  - apply spends_inside, expand_object_spends; [done..| |].
    + pose proof (subtree_bound_pos levels fanout Hf). lia.
    + intros. apply IH. lia.
Qed.
(** The children before one that is certain to be reached. *)
Lemma certain_reached n budget depth k :
  0 < budget -> 0 <= k < certain_children budget n depth opts -> k * subtree_max depth opts <= budget - 1.
Proof.
  intros Hb Hk. assert (Hf : 0 <= fanout) by (unfold sat; lia).
  pose proof (subtree_bound_pos (do_depth_limit opts - depth) fanout Hf) as Hpos. fold (subtree_max depth opts) in Hpos.
  unfold certain_children in Hk. destruct ((n =? 0) || (budget =? 0)); [lia|].
  rewrite Z.max_r in Hk by done. pose proof (Z.mul_div_le (budget - 1) (subtree_max depth opts)). nia.
Qed.
End Node.

(** C22. A node never spends more of the budget than the bound its parent computed for it, the path of the
    enclosing objects is what it was, and no prefetch is wasted: of the children of an object or an
    array, each of those whose reads were committed ahead is rendered while the budget lasts, whatever
    the debuggee answers for the ones before it. *)
Theorem deep_rendering_budgeted `{BC : BytesCrate} `{D : Debuggee} `{FT : FloatText} opts depth s w :
  bounded_regions -> 1 <= do_child_limit opts -> in_u 64 (dp_budget s) -> 0 < dp_budget s ->
  let child d := fun v t => render_node opts (do_depth_limit opts - d) v t d in
  let after {A} (m : Deep A) := let '(_, s', _) := m s w in s' in
  (forall v t, let s' := after (child depth v t) in
     0 <= dp_budget s' <= dp_budget s /\ dp_budget s - dp_budget s' <= subtree_max depth opts /\ dp_path s' = dp_path s) /\
  (forall elems t out k, Z.of_nat k < certain_children (dp_budget s) (zlen elems) (S depth) opts ->
     0 < dp_budget (after (element_lines (child (S depth)) depth 0 (take k elems) t out))) /\
  (forall fields values t out k, Z.of_nat k < certain_children (dp_budget s) (zlen values) (S depth) opts ->
     0 < dp_budget (after (field_lines (child (S depth)) depth (take k (zip fields values)) t out))).
Proof.
  intros Hr Hl Hs Hpos child after.
  assert (Hf : 0 <= sat (do_child_limit opts * 2)) by (unfold sat; lia).
  assert (Hc : 0 <= subtree_max (S depth) opts) by
    (pose proof (subtree_bound_pos (do_depth_limit opts - S depth) _ Hf); unfold subtree_max; lia).
  assert (Hchild : forall d v t, spends (fun _ => subtree_max d opts) (child d v t)) by (intros; by apply node_spends).
  assert (Left : forall A (m : Deep A) n k bound, spends (fun _ => bound * subtree_max (S depth) opts) m ->
    0 <= bound <= k -> k < certain_children (dp_budget s) n (S depth) opts -> 0 < dp_budget (after A m)).
  { intros A m n k bound Hm Hb Hk. specialize (Hm s w Hs). unfold after. destruct (m s w) as [[a s'] w'].
    destruct Hm as (_ & Hm & _). pose proof (certain_reached opts Hl n (dp_budget s) (S depth) bound Hpos ltac:(lia)). lia. }
  split_and!.
  - intros v t. pose proof (Hchild depth v t s w Hs) as K. unfold after. by destruct (child depth v t s w) as [[a s'] w'].
  - intros elems t out k Hk. eapply (Left _ _ _ _ (zlen (take k elems))); [by apply element_lines_spends| |exact Hk].
    unfold zlen. rewrite length_take. lia.
  - intros fields values t out k Hk. eapply (Left _ _ _ _ (zlen (take k (zip fields values)))); [by apply field_lines_spends| |exact Hk].
    unfold zlen. rewrite length_take. lia.
Qed.

(** ** A small debuggee

    Object 1 is a [Pair] of an [int] and of itself; arrays are refused. *)

Definition answer_bytes (p : CommandPacket) : option bytes :=
  let int32 := be_bytes 4 in
  let text := write_jdwp_string (BC := network_order) in
  let value := write_tagged_value (BC := network_order) in
  let field id name sig := be_bytes 8 id ++ text name ++ text sig ++ text ""%string ++ int32 0 in
  match cp_command_set p, cp_command p with
  | 9, 1 => Some (1 :: be_bytes 8 7)
  | 9, 2 => Some (int32 2 ++ value (value_int 5) ++ value (value_object 1))
  | 2, 1 => Some (text "LPair;"%string)
  | 2, 14 => Some (int32 2 ++ field 1 "a"%string "I"%string ++ field 2 "b"%string "LPair;"%string)
  | 2, 15 => Some (int32 0)
  | 3, 1 => Some (be_bytes 8 0)
  | _, _ => None
  end.

Definition pair_vm : Debuggee := {|
  issue_outcome _ _ := None;
  reply_outcome _ p := match answer_bytes p with
                       | Some data => Ok {| rp_id := cp_id p; rp_error_code := 0; rp_data := data |}
                       | None => Ok {| rp_id := cp_id p; rp_error_code := 99; rp_data := [] |}
                       end;
  lapses_unissued _ _ := false;
  lapses_unanswered _ _ := false
|}.

Definition plain_floats : FloatText := {| show_f32 _ := ""%string; show_f64 _ := ""%string; debug_f32 _ := ""%string; debug_f64 _ := ""%string |}.

Lemma pair_vm_regions : bounded_regions (BC := network_order) (D := pair_vm).
Proof. intros a i n w. done. Qed.

Definition two_levels : DeepOpts := {| do_depth_limit := 2; do_child_limit := 5; do_text_len := 80; do_bytes := default_render |}.

Lemma deep_rendering_budgeted_witness :
  let s := deep_state DEEP_NODE_BUDGET in
  let r := render_node (BC := network_order) (D := pair_vm) (FT := plain_floats) two_levels 2 (value_object 1) None 0 s world_init in
  let s' := let '(_, s', _) := r in s' in
  fst (fst r) = ("Pair @0x1 {" +s+ newline +s+ "  a = (int) 5" +s+ newline +s+ "  b = ↩ Pair @0x1 (cycle)" +s+ newline +s+ "}")%string /\
  dp_budget s' = 398 /\ dp_budget s - dp_budget s' <= subtree_max 0 two_levels.
Proof.
  split; [by vm_compute|]. split; [by vm_compute|].
  destruct (deep_rendering_budgeted (BC := network_order) (D := pair_vm) (FT := plain_floats) two_levels 0 (deep_state DEEP_NODE_BUDGET)
    world_init pair_vm_regions ltac:(by_compute) ltac:(by_compute) ltac:(by_compute)) as (K & _).
  destruct (K (value_object 1) None) as (_ & K2 & _). exact K2.
Defined.
