(* ===== verification/Overloads.v ===== *)
(** * Choosing an overload ([mcp-server/src/handlers.rs])

    The parameters of a descriptor, what an argument is at the moment of a call, how well it fits a
    parameter, and the method a call is given: one that every argument fits, or none. *)

From S2P Require Import Prelude Protocol Types Reader Connection Client Generics Text Expr Locate StopPoint Arming Rearm Reading TextArrays.

(** ** Descriptors *)

(** What follows the first character of a descriptor while it is an array's: what was read, its base type, the rest. *)
Fixpoint element_type (base : Z) (s : chars) : chars * Z * chars :=
  if base =? ch "[" then
    match s with
    | n :: s => let '(t, base, rest) := element_type n s in (n :: t, base, rest)
    | [] => ([], base, [])
    end
  else ([], base, s).

(** Up to a semicolon, which is included. *)
Fixpoint through_semicolon (s : chars) : chars * chars :=
  match s with
  | [] => ([], [])
  | c :: s => if c =? ch ";" then ([c], s) else let '(t, rest) := through_semicolon s in (c :: t, rest)
  end.

(** One parameter each round; the fuel is the characters left. *)
Fixpoint parameter_types (fuel : nat) (s : chars) : list chars :=
  match fuel, s with
  | S fuel, first :: s =>
    let '(t, base, rest) := element_type first s in
    let '(name, rest) := if base =? ch "L" then through_semicolon rest else ([], rest) in
    (first :: t ++ name) :: parameter_types fuel rest
  | _, _ => []
  end.
Definition sig_param_types (sig : string) : list string :=
  match parameters_of sig with
  | Some s => map string_of_chars (parameter_types (length s) s)
  | None => []
  end.

(** ** Tags *)

Definition primitive_tag (c : Z) : option Z :=
  if c =? ch "Z" then Some 90 else if c =? ch "B" then Some 66 else if c =? ch "C" then Some 67 else if c =? ch "S" then Some 83
  else if c =? ch "I" then Some 73 else if c =? ch "J" then Some 74 else if c =? ch "F" then Some 70 else if c =? ch "D" then Some 68
  else None.

Definition object_tags : list Z := [76; 115; 116; 103; 108; 99; 91].
Definition numeric_tags : list Z := [66; 67; 68; 70; 73; 74; 83].
Definition tag_compatible (param arg : Z) : bool :=
  let is_obj t := bool_decide (t ∈ object_tags) in
  let is_num t := bool_decide (t ∈ numeric_tags) in
  (param =? arg) || (is_obj param && is_obj arg) || (is_num param && is_num arg).

Definition boxed_wrapper_of (tag : Z) : option string :=
  if tag =? ch "I" then Some "Ljava/lang/Integer;" else if tag =? ch "J" then Some "Ljava/lang/Long;"
  else if tag =? ch "S" then Some "Ljava/lang/Short;" else if tag =? ch "B" then Some "Ljava/lang/Byte;"
  else if tag =? ch "C" then Some "Ljava/lang/Character;" else if tag =? ch "Z" then Some "Ljava/lang/Boolean;"
  else if tag =? ch "F" then Some "Ljava/lang/Float;" else if tag =? ch "D" then Some "Ljava/lang/Double;"
  else None.

Definition begins (c : Z) (s : string) : bool := match bytes_of_string s with b :: _ => b =? c | [] => false end.
Definition is_reference (param : string) : bool := begins (ch "L") param || begins (ch "[") param.

(** ** Arguments *)

Inductive ArgType : Type :=
| ArgPrimitive (tag : Z)
| ArgNullRef
| ArgObject (type_id : Z) (chain : list string).

(** The place of a signature in a chain. *)
Definition position (s : string) (chain : list string) : option nat := fst <$> list_find (fun x => x = s) chain.

Definition score_param (param : string) (arg : ArgType) : option Z :=
  match arg with
  | ArgNullRef => if is_reference param then Some 1 else None
  | ArgPrimitive tag =>
    ptag ← head (str_chars param) ≫= primitive_tag;
    if negb (tag_compatible ptag tag) then None else Some (if ptag =? tag then 2 else 1)
  | ArgObject _ chain =>
    if negb (is_reference param) then None else
    idx ← position param chain; Some (zlen chain - Z.of_nat idx + 1)
  end.

(** [try_fold] over the parameters and the arguments. *)
Fixpoint total_score (acc : Z) (l : list (string * ArgType)) : option Z :=
  match l with
  | [] => Some acc
  | (p, a) :: l => s ← score_param p a; total_score (acc + s) l
  end.

Abbreviation Found := (Z * MethodInfo)%type.

(** [best.as_ref().is_none_or(|(bs, ..)| total > *bs)]. *)
Definition beats (total : Z) (best : option (Z * Found)) : bool :=
  match best with None => true | Some (bs, _) => bs <? total end.

(** The methods of one class: the best so far, and those of the right shape that nothing justified. *)
Record Candidates : Type := { cd_best : option (Z * Found); cd_unresolved : list Found }.

Definition applicable (name : string) (want_static : option bool) (argc : nat) (m : MethodInfo) : bool :=
  String.eqb (mi_name m) name &&
  match want_static with Some want => eqb want (negb (Z.land (mi_mod_bits m) ACC_STATIC =? 0)) | None => true end &&
  (length (sig_param_types (mi_signature m)) =? argc)%nat.

Definition consider (name : string) (want_static : option bool) (argtypes : list ArgType) (tid : Z) (c : Candidates) (m : MethodInfo) : Candidates :=
  if negb (applicable name want_static (length argtypes) m) then c else
  match total_score 0 (zip (sig_param_types (mi_signature m)) argtypes) with
  | Some total => if beats total (cd_best c) then {| cd_best := Some (total, (tid, m)); cd_unresolved := cd_unresolved c |} else c
  | None => {| cd_best := cd_best c; cd_unresolved := cd_unresolved c ++ [(tid, m)] |}
  end.

Section Overloads.
Context `{BC : BytesCrate} `{D : Debuggee}.

(** The signatures of a class and of its superclasses. *)
Fixpoint signature_chain (n : nat) (current : option Z) : St (list string) :=
  match n, current with
  | S n, Some tid =>
    sig ← attempt (get_signature tid);
    match sig with
    | Ok s => parent ← st_or None (get_superclass tid); rest ← signature_chain n parent; mret (s :: rest)
    | Err _ => mret []
    end
  | _, _ => mret []
  end.

Definition arg_type (v : Value) : St ArgType :=
  match val_data v with
  | VObject id =>
    if id =? 0 then mret ArgNullRef else
    runtime_type ← st_or 0 (get_object_reference_type id);
    chain ← signature_chain CHAIN_GUARD (if runtime_type =? 0 then None else Some runtime_type);
    mret (ArgObject runtime_type (if bool_decide ("Ljava/lang/Object;"%string ∈ chain) then chain else chain ++ ["Ljava/lang/Object;"%string]))
  | _ => mret (ArgPrimitive (val_tag v))
  end.

Definition assignable (param : string) (arg : ArgType) : St (option Z) :=
  match arg with
  | ArgNullRef => mret None
  | ArgPrimitive tag => mret (if bool_decide (boxed_wrapper_of tag = Some param) then Some 1 else None)
  | ArgObject type_id chain =>
    if begins (ch "[") param then
      mret (match chain with s :: _ => if begins (ch "[") s then Some 1 else None | [] => None end)
    else if negb (begins (ch "L") param) || (type_id =? 0) then mret None
    else yes ← implements_interface type_id param; mret (if yes : bool then Some 1 else None)
  end.

(** One candidate, its parameters in order; the first that does not fit ends it. *)
Fixpoint settle_params (l : list (string * ArgType)) (total : Z) : St (option Z) :=
  match l with
  | [] => mret (Some total)
  | (p, a) :: l =>
    score ← (match score_param p a with Some s => mret (Some s) | None => assignable p a end : St (option Z));
    match score with Some s => settle_params l (total + s) | None => mret None end
  end.

Fixpoint resolve_unsettled_from (candidates : list Found) (argtypes : list ArgType) (resolved : option (Z * Found)) : St (option Found) :=
  match candidates with
  | [] => mret (snd <$> resolved)
  | (tid, m) :: candidates =>
    total ← settle_params (zip (sig_param_types (mi_signature m)) argtypes) 0;
    resolve_unsettled_from candidates argtypes
      (match total with Some t => if beats t resolved then Some (t, (tid, m)) else resolved | None => resolved end)
  end.
Definition resolve_unsettled (candidates : list Found) (argtypes : list ArgType) : St (option Found) :=
  resolve_unsettled_from candidates argtypes None.

(** The walk up the superclasses; it stops at the first class with a method that scored. *)
Fixpoint overloads_from (n : nat) (current : option Z) (name : string) (argtypes : list ArgType) (want_static : option bool) (c : Candidates) :
    St (result string Candidates) :=
  match n, current with
  | S n, Some tid =>
    methods ←? failing "Failed to get methods: " (get_methods tid);
    let c := foldl (consider name want_static argtypes tid) c methods in
    if is_some (cd_best c) then mret (Ok c) else
    parent ← st_or None (get_superclass tid);
    overloads_from n parent name argtypes want_static c
  | _, _ => mret (Ok c)
  end.

Definition find_method_for_args (type_id : Z) (name : string) (args : list Value) (want_static : option bool) :
    St (result string (option Found)) :=
  argtypes ← st_map arg_type args;
  c ←? overloads_from CHAIN_GUARD (Some type_id) name argtypes want_static {| cd_best := None; cd_unresolved := [] |};
  match cd_best c with
  | Some (_, found) => mret (Ok (Some found))
  | None => found ← resolve_unsettled (cd_unresolved c) argtypes; mret (Ok found)
  end.

(** ** Boxing *)

Definition wrapper_class (v : Value) : option string :=
  match val_data v with
  | VInt _ => Some "java.lang.Integer"
  | VLong _ => Some "java.lang.Long"
  | VShort _ => Some "java.lang.Short"
  | VByte _ => Some "java.lang.Byte"
  | VChar _ => Some "java.lang.Character"
  | VBoolean _ => Some "java.lang.Boolean"
  | VFloat _ => Some "java.lang.Float"
  | VDouble _ => Some "java.lang.Double"
  | VObject _ | VVoid => None
  end.

Definition box_primitive (tid : Z) (v : Value) : St (option Value) :=
  match wrapper_class v with
  | None => mret None
  | Some class =>
    type_id ← resolve_class_by_dotted class;
    match type_id with
    | Ok (Some type_id) =>
      found ← find_method_for_args type_id "valueOf" [v] (Some true);
      match found with
      | Ok (Some (decl, m)) =>
        r ←~ st_ok (invoke_static_method decl tid (mi_method_id m) [v]);
        mret (if snd r =? 0 then Some (fst r) else None)
      | _ => mret None
      end
    | _ => mret None
    end
  end.

Definition is_primitive (v : Value) : bool := match val_data v with VObject _ => false | _ => true end.

(** The arguments from the [i]th on, against the parameters of the method. *)
Fixpoint coerce_from (i : nat) (thread_id : Z) (params : list string) (args : list Value) : St (result string (list Value)) :=
  match args with
  | [] => mret (Ok [])
  | v :: args =>
    let wants_ref := match params !! i with Some p => is_reference p | None => false end in
    coerced ←? (if wants_ref && is_primitive v then
        boxed ← box_primitive thread_id v;
        mret (ok_or ("argument " +s+ pretty (Z.of_nat i + 1) +s+ " is a primitive but parameter " +s+ pretty (Z.of_nat i + 1) +s+ " is " +s+
                     default "a reference type"%string (params !! i) +s+ " — boxing it via valueOf failed") boxed)
      else mret (Ok v) : St (result string Value));
    rest ←? coerce_from (S i) thread_id params args;
    mret (Ok (coerced :: rest))
  end.
Definition coerce_args (thread_id : Z) (signature : string) (args : list Value) : St (result string (list Value)) :=
  coerce_from 0 thread_id (sig_param_types signature) args.
End Overloads.
