(* ===== verification/OverloadFacts.v ===== *)
(** * A call hands over what its parameters take ([mcp-server/src/handlers.rs])

    An overload is used only when every argument fits its parameter; coercion replaces an argument only
    where a primitive meets a reference parameter, by what the debuggee answered when its wrapper's
    [valueOf] was called on it, and a primitive parameter never receives an object. *)

From S2P Require Import Prelude Protocol Types Reader Connection Client Generics Text Expr Locate StopPoint Arming Rearm.
From S2P Require Import Reading ReadingFacts TextArrays Overloads.

(** ** What fits *)






Lemma string_byte_range (b : Z) s p : bytes_of_string p = b :: s -> 0 <= b < 256.
Proof. intros E. pose proof (bytes_of_string_ok p) as H. rewrite E in H. by apply Forall_inv in H. Qed.

(** A parameter a primitive scores for is not a reference. *)
Lemma scored_primitive param tag s : score_param param (ArgPrimitive tag) = Some s -> is_reference param = false.
Proof.
  unfold score_param, str_chars. destruct (bytes_of_string param) as [|b r] eqn:E; [done|].
  pose proof (string_byte_range b r param E) as Hb. unfold is_reference, begins. rewrite E. simpl.
  destruct (Z.ltb_spec b 128) as [Hlt|Hge]; simpl.
  - unfold primitive_tag. intros H. destruct (Z.eqb_spec b (ch "L")) as [->|]; [done|]. by destruct (Z.eqb_spec b (ch "[")) as [->|].
  - intros _. destruct (Z.eqb_spec b (ch "L")) as [->|]; [by destruct Hge|]. destruct (Z.eqb_spec b (ch "[")) as [->|]; [by destruct Hge|done].
Qed.


Section Calls.
Context `{BC : BytesCrate} `{D : Debuggee}.











(** ** Coercion *)



End Calls.





(** ** An overload that is not looked for

    Class 5 extends class 6: [f(Object)] below, [f(int)] above. Asked for [f] of an [int] the walk takes
    the one that scores; given [f(long)] below, it never looks at [f(int)], the better match above. *)

Definition shadowed_answers (set command : Z) (body : bytes) : JdwpResult (Z * bytes) :=
  let int32 := be_bytes 4 in
  let text := write_jdwp_string (BC := network_order) in
  let method id name sig := be_bytes 8 id ++ text name ++ text sig ++ text ""%string ++ int32 1 in
  match set, command with
  | 2, 15 => if be_val body =? 5 then Ok (0, int32 1 ++ method 1 "f"%string "(J)V"%string) else Ok (0, int32 1 ++ method 2 "f"%string "(I)V"%string)
  | 3, 1 => Ok (0, be_bytes 8 (if be_val body =? 5 then 6 else 0))
  | _, _ => Ok (99, [])
  end.

Lemma inherited_overload_ignored :
  let chosen class := match fst (find_method_for_args (BC := network_order) (D := answering shadowed_answers) class "f" [value_int 3] None world_init) with
                      | Ok (Some (decl, m)) => Some (decl, mi_signature m) | _ => None end in
  chosen 6 = Some (6, "(I)V"%string) /\ chosen 5 = Some (5, "(J)V"%string) /\
  score_param "I" (ArgPrimitive (ch "I")) = Some 2 /\ score_param "J" (ArgPrimitive (ch "I")) = Some 1.
Proof. by vm_compute. Qed.
