(* ===== verification/ExprText.v ===== *)
(** * What the expression parser and its literals say ([mcp-server/src/handlers.rs])

    The messages of the errors of [Expr], literals and segments as they are written back, and the
    hints that go with a call the JVM refused. *)

From S2P Require Import Prelude Protocol Types Connection Generics Text Condition Expr Reading.

Definition quoted_chars (s : chars) : string := "'" +s+ string_of_chars s +s+ "'".

Definition escape_names : string :=
  join ", " (map (fun e => string_of_chars [BACKSLASH; fst e]) CHAR_ESCAPES) +s+ ", or \uXXXX".

Definition expr_error_text (e : ExprError) : string :=
  match e with
  | Unbalanced => "Unbalanced parentheses, brackets or quotes"
  | UnexpectedAfterSubscript rest => "Unexpected text after a subscript: " +s+ quoted_chars rest
  | UnclosedBracket raw => "Unclosed '[' in " +s+ quoted_chars raw
  | EmptySubscript => "Empty subscript '[]' — use [i], [a..b], or [?predicate]"
  | EmptyFilter => "Empty filter '[?]' — give a predicate, e.g. [?status == " +s+ dquote +s+ "OPEN" +s+ dquote +s+ "]"
  | RangeBound what bound range =>
    "Range " +s+ string_of_chars what +s+ " must be an integer, got " +s+ quoted_chars bound +s+ " in '[" +s+ string_of_chars range +s+ "]'"
  | RangeBackwards range => "Range '[" +s+ string_of_chars range +s+ "]' ends before it starts"
  | BadHexEscape hex => "'\u" +s+ string_of_chars hex +s+ "' is not four hex digits — write it as '\u00e7'"
  | NotOneEscape esc => "'\" +s+ string_of_chars esc +s+ "' is not one escape — write one of " +s+ escape_names
  | UnknownEscape c => "'\" +s+ string_of_chars [c] +s+ "' is not an escape this understands — try " +s+ escape_names
  | TwoCodeUnits inner =>
    quoted_chars inner +s+
    " is two UTF-16 code units, and a Java char holds one — outside the BMP there is no single-char spelling, so compare the String instead"
  | EmptyCharLiteral => "'' is an empty char literal — write a character between the quotes"
  | UnsupportedArgument t =>
    "Unsupported argument: " +s+ quoted_chars t +s+
    " (a literal — int, long like 123L, double like 1.5, float like 2.0f, char like 'a', true/false, null, " +s+ dquote +s+ "string" +s+ dquote +s+
    " — or an expression like a local, this.field, or obj.getX())"
  | BadObjectHandle head =>
    "Bad object handle " +s+ quoted_chars head +s+
    " — the form is @0x<hex>, exactly as a trace snapshot, an expanded object or debug.list_instances prints it."
  | MalformedCall head => "Malformed method call: " +s+ quoted_chars head
  | BadMethodName name => "Bad method name: " +s+ quoted_chars name
  | ComparisonToken head =>
    "Unsupported token: " +s+ quoted_chars head +s+
    " — that is a COMPARISON, and this argument takes an expression that resolves to a VALUE. `condition` and `trace_expr` both accept `left OP right` (==, !=, <, <=, >, >=, joined with && / ||); an expression evaluated for its value does not."
  | UnsupportedToken head => "Unsupported token: " +s+ quoted_chars head
  | EmptyExpression => "Empty expression"
  end.

(** A parse whose failure is its message. *)
Definition explained {A} (r : result ExprError A) : result string A :=
  match r with Ok a => Ok a | Err e => Err (expr_error_text e) end.

(** ** Literals and segments, written back *)

Definition is_surrogate (unit : Z) : bool := (0xD800 <=? unit) && (unit <=? 0xDFFF).

Definition render_arglit `{FloatText} (a : ArgLit) : string :=
  match a with
  | ArgInt n => pretty n
  | ArgLong n => pretty n +s+ "L"
  | ArgFloat n => show_f32 n +s+ "f"
  | ArgDouble n => show_f64 n
  | ArgChar n => if is_surrogate n then "'\u" +s+ show_hex_pad false 4 n +s+ "'" else quoted_chars [n]
  | ArgBool b => show_bool b
  | ArgNull => "null"
  | ArgStr s => dquote +s+ string_of_chars s +s+ dquote
  | ArgExpr e => string_of_chars e
  end.

Definition subscript_label `{FloatText} (s : Subscript) : string :=
  match s with
  | SubIndex a => "[" +s+ render_arglit a +s+ "]"
  | SubRange a b => "[" +s+ pretty a +s+ ".." +s+ pretty b +s+ "]"
  | SubFilter p => "[?" +s+ string_of_chars p +s+ "]"
  end.
Definition seg_label `{FloatText} (seg : Seg) : string :=
  string_of_chars (seg_name seg) +s+
  match seg_args seg with Some args => "(" +s+ join ", " (map render_arglit args) +s+ ")" | None => "" end +s+
  foldr (fun s out => subscript_label s +s+ out) EmptyString (seg_subs seg).

(** ** A call the JVM refused *)

Definition HOW_TO_SUSPEND_FOR_AN_INVOKE : string :=
  "this one INVOKES a method, and JDWP only allows that on a thread suspended BY AN EVENT — so a suspending stop point on the code you want to ask about, not debug.suspend_thread and not debug.pause (measured: both answer INVALID_THREAD). Reads of the frame — locals, fields, expand_objects — need none of that".
Definition INVOKE_NEEDS_AN_EVENT : string :=
  newline +s+ "   The JVM answered INVALID_THREAD, which here does NOT mean the id was wrong: JDWP allows a method to be invoked only on a thread suspended BY AN EVENT — a stop point hit or a step landing. Neither debug.suspend_thread nor debug.pause qualifies (measured, and it is the spec's own rule), so an invocation needs a suspending stop point on the code you want to ask about. Everything that does NOT invoke still works on a thread you suspended: the stack and its locals, expand_objects (which reads fields), and debug.set_value on a local.".
Definition INVOKE_ALREADY_INVOKING : string :=
  newline +s+ "   The JVM answered ALREADY_INVOKING, which is a fact about the THREAD rather than about this expression: JDWP permits one method invocation per thread at a time, and one is still outstanding on this one. The likeliest cause is an EARLIER invocation on the same thread that hit the 2000ms invoke budget — another trace_expr element in the same capture, a toString() rendered for a captured value, or a previous debug.evaluate — because that budget frees the debugger and NOT the debuggee, and the call keeps running there where JDWP cannot cancel it. Nothing is wrong with the expression: read it again (a traced stop point will retry it by itself on the next hit), or use a FIELD instead of a getter, which needs no invocation and therefore cannot collide.".
Definition invoke_hint (e : JdwpError) : string :=
  match e with
  | JdwpErrorCode code _ => if code =? 10 then INVOKE_NEEDS_AN_EVENT else if code =? 502 then INVOKE_ALREADY_INVOKING else ""
  | _ => ""
  end.

(** [m.await.map_err(|e| format!("{what}{e}{}", invoke_hint(&e)))]. *)
Definition hinting `{BytesCrate} {A} (what : string) (m : M A) : St (result string A) :=
  r ← attempt m; mret (match r with Ok a => Ok a | Err e => Err (what +s+ display_error e +s+ invoke_hint e) end).

Definition multi_then_chain_error (name : string) : string :=
  "'" +s+ name +s+ "[…]' selects several values, so nothing can be chained after it. Use an index (e.g. [0]) to pick one, or make the slice/filter the end of the expression.".
