(* ===== verification/Comparing.v ===== *)
(** * Comparing two values ([mcp-server/src/handlers.rs])

    The comparisons of conditions and of filters: numbers widened to [f64] whatever their type, booleans,
    objects by identity, strings by contents. An [f64] is its 64 bits. *)

From S2P Require Import Prelude Protocol Types Reader Connection Client Generics Text Condition Expr Reading ExprText.

(** ** Widening *)

Definition f64_sign (bits : Z) : bool := 2 ^ 63 <=? bits.
Definition f64_magnitude (bits : Z) : Z := bits mod 2 ^ 63.
Definition is_nan (bits : Z) : bool := F64_INF <? f64_magnitude bits.

(** [n as f64]: to nearest, ties to even; exact for the narrower integers. *)
Definition f64_of_int (n : Z) : Z := with_sign 64 (n <? 0) (f64_of (Z.abs n) 1).

(** [f64::from] of an [f32]: exact, and a NaN stays one. *)
Definition f64_of_f32 (bits : Z) : Z :=
  let m := bits mod 2 ^ 31 in
  let e := m / 2 ^ 23 in
  let f := m mod 2 ^ 23 in
  with_sign 64 (2 ^ 31 <=? bits)
    (if e =? 255 then if f =? 0 then F64_INF else F64_INF + Z.lor (2 ^ 51) (f * 2 ^ 29)
     else if e =? 0 then f64_of f (2 ^ 149)
     else if 150 <=? e then f64_of ((f + 2 ^ 23) * 2 ^ (e - 150)) 1
     else f64_of (f + 2 ^ 23) (2 ^ (150 - e))).

Definition value_as_f64 (data : ValueData) : option Z :=
  match data with
  | VInt v | VLong v | VShort v | VByte v | VChar v => Some (f64_of_int v)
  | VFloat v => Some (f64_of_f32 v)
  | VDouble v => Some v
  | _ => None
  end.
Definition arglit_as_f64 (rlit : ArgLit) : option Z :=
  match rlit with
  | ArgInt v | ArgLong v | ArgChar v => Some (f64_of_int v)
  | ArgFloat v => Some (f64_of_f32 v)
  | ArgDouble v => Some v
  | _ => None
  end.

(** ** The operators *)

(** The place of a number that is not a NaN on the line; the two zeros share one. *)
Definition f64_key (bits : Z) : Z := if f64_sign bits then - f64_magnitude bits else f64_magnitude bits.
Definition f64_compare (l r : Z) : option comparison :=
  if is_nan l || is_nan r then None else Some (f64_key l ?= f64_key r).

Definition op_is (op : chars) (name : string) : bool := bool_decide (op = chars_of name).

Definition compare_f64 (l r : Z) (op : chars) : result string bool :=
  let c := f64_compare l r in
  if op_is op "==" then Ok (bool_decide (c = Some Eq))
  else if op_is op "!=" then Ok (negb (bool_decide (c = Some Eq)))
  else if op_is op "<" then Ok (bool_decide (c = Some Lt))
  else if op_is op ">" then Ok (bool_decide (c = Some Gt))
  else if op_is op "<=" then Ok (bool_decide (c = Some Lt \/ c = Some Eq))
  else if op_is op ">=" then Ok (bool_decide (c = Some Gt \/ c = Some Eq))
  else Err "bad operator"%string.

(** [match op { "==" => same, "!=" => !same, _ => Err(why) }]. *)
Definition equality (op : chars) (same : bool) (why : string) : result string bool :=
  if op_is op "==" then Ok same
  else if op_is op "!=" then Ok (negb same)
  else Err why.

Definition is_equality (op : chars) : bool := op_is op "==" || op_is op "!=".

Section Comparing.
Context `{BC : BytesCrate} `{D : Debuggee}.

Definition string_value_of (id : Z) : St (option string) :=
  if id =? 0 then mret None else
  t ←~ st_ok (get_object_reference_type id);
  sig ←~ st_ok (get_signature t);
  if String.eqb sig "Ljava/lang/String;" then st_ok (get_string_value id) else mret None.

Definition UNSUPPORTED_COMPARISON : string := "Unsupported comparison (numbers, booleans, null, or String value compares only)".

Definition compare_object (id : Z) (op : chars) (rlit : ArgLit) : St (result string bool) :=
  match rlit with
  | ArgNull => mret (equality op (id =? 0) "only == / != with null")
  | ArgStr s =>
    if id =? 0 then mret (Ok (op_is op "!=")) else
    t ←? failing "Failed to resolve type: " (get_object_reference_type id);
    sig ← st_or "" (get_signature t);
    if String.eqb sig "Ljava/lang/String;" then
      sv ←? failing "Failed to read string: " (get_string_value id);
      mret (equality op (String.eqb sv (string_of_chars s)) "only == / != for strings")
    else mret (Err "Left side is not a String"%string)
  | _ => mret (Err UNSUPPORTED_COMPARISON)
  end.

Definition compare_values (lv : Value) (op : chars) (rlit : ArgLit) : St (result string bool) :=
  match value_as_f64 (val_data lv), arglit_as_f64 rlit with
  | Some l, Some r => mret (compare_f64 l r op)
  | _, _ =>
    match val_data lv, rlit with
    | VBoolean l, ArgBool r => mret (equality op (eqb l r) "only == / != for booleans")
    | VObject id, _ => compare_object id op rlit
    | _, _ => mret (Err UNSUPPORTED_COMPARISON)
    end
  end.

Definition compare_resolved (lv : Value) (op : chars) (rv : Value) : St (result string bool) :=
  match value_as_f64 (val_data lv), value_as_f64 (val_data rv) with
  | Some l, Some r => mret (compare_f64 l r op)
  | _, _ =>
    match val_data lv, val_data rv with
    | VBoolean l, VBoolean r => mret (equality op (eqb l r) "only == / != for booleans")
    | VObject l, VObject r =>
      if negb (is_equality op) then mret (Err "only == / != when comparing objects"%string) else
      a ← string_value_of l;
      b ← string_value_of r;
      let same := match a, b with Some a, Some b => String.eqb a b | _, _ => l =? r end in
      mret (Ok (if op_is op "==" then same else negb same))
    | _, _ =>
      mret (Err "Unsupported comparison (compare numbers with numbers, booleans with booleans, or objects with objects)"%string)
    end
  end.
End Comparing.
