(* ===== verification/Scans.v ===== *)
(** * Reading many elements of a container ([mcp-server/src/handlers.rs])

    The elements a slice or a filter works on: an array, a list or a map read through its fields, or a
    collection asked for its [toArray()]; at most a thousand of them. And what an expression yields: one
    value, or several. The notes on how a collection was read are a state threaded with the connection. *)

From S2P Require Import Prelude Protocol Types Reader Connection Client Generics Text Expr Locate Paths Reading TextArrays Structures Rendering ExprText.

(** ** A reader that keeps notes

    [&mut ReadPath] beside the connection, and the question mark. *)

Definition Noted (A : Type) : Type := ReadPath -> World -> result string A * ReadPath * World.
#[global] Instance noted_ret : MRet Noted := fun _ a path w => (Ok a, path, w).
#[global] Instance noted_bind : MBind Noted := fun _ _ k m path w =>
  match m path w with
  | (Ok a, path, w) => k a path w
  | (Err e, path, w) => (Err e, path, w)
  end.
Definition unnoted {A} (m : St (result string A)) : Noted A := fun path w => let '(r, w) := m w in (r, path, w).
Definition quiet {A} (m : St A) : Noted A := fun path w => let '(a, w) := m w in (Ok a, path, w).
Definition noting (f : ReadPath -> ReadPath) : Noted unit := fun path w => (Ok tt, f path, w).
Definition refuse {A} (e : string) : Noted A := fun path w => (Err e, path, w).
Definition given_or {A} (e : string) (o : option A) : Noted A := match o with Some a => mret a | None => refuse e end.

(** A walk with field ids of its own. *)
Definition with_ids {A} (ids : FieldIds) (m : W A) : Noted (Walked A) := fun path w => let '(r, _, w) := m ids w in (r, path, w).

Record Scan : Type := { sc_values : list Value; sc_keys : list string; sc_len : Z; sc_name : string }.
Inductive MapScan : Type := Refuse | ScanEntries.

Inductive Resolved : Type :=
| One (v : Value)
| Many (header : string) (values : list Value) (keys : list string).

Definition single (r : Resolved) (what : string) : result string Value :=
  match r with
  | One v => Ok v
  | Many _ _ _ =>
    Err (what +s+ " needs a single value, but this expression ends in a slice or filter which selects several. Narrow it with an index (e.g. [0]) or drop the subscript.")
  end.

Definition no_order_to_slice (label : string) : string :=
  "'" +s+ label +s+ "' is a Map, so there is no order to slice. Use " +s+ label +s+ "[" +s+ dquote +s+ "key" +s+ dquote +s+
  "] for one entry, or a filter (" +s+ label +s+ "[?…]) which keeps the keys.".

(** Why a read fell back to an invocation, in the words of its refusal. *)
Definition fell_back (name : string) (declined : option string) : string :=
  match declined with
  | Some why => " (" +s+ name +s+ " " +s+ why +s+ ")"
  | None => " (structural reads cover " +s+ KNOWN_LAYOUTS +s+ ")"
  end.
Definition note_fallback (name : string) (declined : option string) : Noted unit :=
  noting (match declined with Some why => invoked name why | None => unrecognised name end).

Section Scans.
Context `{BC : BytesCrate} `{D : Debuggee} `{FT : FloatText} `{PF : Platform}.

Definition rendered_key (thread_id : option Z) (k : Value) : St string := render_value k thread_id 120 default_render.

Definition array_list_scan (id : Z) (name : string) : W Scan :=
  '(arr, size) ← array_list_backing id;
  let take_ := Z.min size SUBSCRIPT_SCAN_CAP in
  values ← match arr with
           | Some a => if 0 <? take_ then call "Failed to read the list's elements: " (get_array_values a 0 take_) else mret []
           | None => mret []
           end;
  mret {| sc_values := values; sc_keys := []; sc_len := size; sc_name := name |}.

Definition structural_scan (id : Z) (layout : Layout) (thread_id : option Z) (name : string) : W Scan :=
  match layout with
  | ArrayList => array_list_scan id name
  | _ =>
    '(pairs, len) ← map_entries layout id;
    keys ← walk (on_conn (st_map (fun kv => rendered_key thread_id (fst kv)) pairs));
    mret {| sc_values := map snd pairs; sc_keys := keys; sc_len := len; sc_name := name |}
  end.

(** The first thousand of [len]. *)
Definition first_elements (what : string) (arr len : Z) : St (result string (list Value)) :=
  let take_ := Z.min len SUBSCRIPT_SCAN_CAP in
  if take_ =? 0 then mret (Ok []) else failing what (get_array_values arr 0 take_).

Definition scan_array (arr : Z) (label name : string) : St (result string Scan) :=
  len ←? failing ("Failed to read length of '" +s+ label +s+ "': ") (get_array_length arr);
  values ←? first_elements ("Failed to read elements of '" +s+ label +s+ "': ") arr len;
  mret (Ok {| sc_values := values; sc_keys := []; sc_len := len; sc_name := name |}).

(** What a call without arguments returned, as an object. *)
Definition returned_object (id type_id tid : Z) (method label : string) : St (result string Z) :=
  r ← array_of id type_id tid method;
  mret (ok_or (method +s+ "() on " +s+ label +s+ " returned nothing usable") r).

Fixpoint read_entries (tid : Z) (entries : list Value) : St (list string * list Value) :=
  match entries with
  | [] => mret ([], [])
  | e :: entries =>
    kv ← entry_pair e tid;
    match kv with
    | Some (k, v) =>
      key ← rendered_key (Some tid) k;
      rest ← read_entries tid entries;
      mret (key :: fst rest, v :: snd rest)
    | None => read_entries tid entries
    end
  end.

Definition scan_map_entries (id type_id tid : Z) (label name : string) : St (result string Scan) :=
  set ←? returned_object id type_id tid "entrySet" ("'" +s+ label +s+ "'");
  set_type ←? failing ("Failed to resolve the entry set of '" +s+ label +s+ "': ") (get_object_reference_type set);
  arr ←? returned_object set set_type tid "toArray" ("the entry set of '" +s+ label +s+ "'");
  len ←? failing ("Failed to read the entry count of '" +s+ label +s+ "': ") (get_array_length arr);
  entries ←? first_elements ("Failed to read entries of '" +s+ label +s+ "': ") arr len;
  kvs ← read_entries tid entries;
  mret (Ok {| sc_values := snd kvs; sc_keys := fst kvs; sc_len := len; sc_name := name |}).

Definition scan_by_invoking (tid id type_id : Z) (label name : string) (maps : MapScan) : St (result string Scan) :=
  kind ← classify_container type_id name;
  match kind, maps with
  | Some Collection, _ => arr ←? returned_object id type_id tid "toArray" ("'" +s+ label +s+ "'"); scan_array arr label name
  | Some Map, ScanEntries => scan_map_entries id type_id tid label name
  | Some Map, Refuse => mret (Err (no_order_to_slice label))
  | _, _ => mret (Err ("'" +s+ label +s+ "' is not sliceable — expected an array or a Collection, got " +s+ name))
  end.

(** A layout that is walked, or why it was declined. *)
Definition try_structural {A} (layout : option Layout) (name : string) (walk_it : Layout -> W A) : Noted (result (option string) A) :=
  match layout with
  | None => mret (Err None)
  | Some layout =>
    r ← with_ids ids_default (walk_it layout);
    match r with
    | Read a => _ ← noting (walked layout name); mret (Ok a)
    | Declined why => mret (Err (Some why))
    end
  end.

Definition refuses_order (layout : option Layout) (maps : MapScan) : bool :=
  match layout, maps with Some l, Refuse => is_map l | _, _ => false end.

Definition scan_elements (thread_id : option Z) (base : Value) (label : string) (maps : MapScan) : Noted Scan :=
  id ← given_or ("Cannot slice or filter '" +s+ label +s+ "' — it is null or a primitive") (as_object_id base);
  name ← quiet (type_name_of id);
  if val_tag base =? 91 then unnoted (scan_array id label name) else
  type_id ← unnoted (failing ("Failed to resolve type of '" +s+ label +s+ "': ") (get_object_reference_type id));
  layout ← quiet (recognise_layout type_id);
  if refuses_order layout maps then refuse (no_order_to_slice label) else
  structural ← try_structural layout name (fun layout => structural_scan id layout thread_id name);
  match structural with
  | Ok scan => mret scan
  | Err declined =>
    _ ← note_fallback name declined;
    tid ← given_or ("Slicing or filtering '" +s+ label +s+ "' needs a suspended thread — " +s+ name +s+ " is read by calling toArray() in the debuggee" +s+
                    fell_back name declined) thread_id;
    unnoted (scan_by_invoking tid id type_id label name maps)
  end.

(** [usize::try_from(n).unwrap_or(0)], as a position in a list. *)
Definition position_of (n : Z) (values : list Value) : nat := Nat.min (Z.to_nat n) (length values).

Definition apply_range (thread_id : option Z) (base : Value) (from to : Z) (label : string) : Noted Resolved :=
  scan ← scan_elements thread_id base label Refuse;
  let range := pretty from +s+ ".." +s+ pretty to in
  if from <? 0 then refuse ("Range start must not be negative in '" +s+ label +s+ "[" +s+ range +s+ "]'") else
  let values := sc_values scan in
  let start := position_of from values in
  let slice := take (position_of to values - start) (drop start values) in
  let scanned := i32_of_len (zlen values) in
  let note := if scanned <? sc_len scan
              then " (only the first " +s+ pretty scanned +s+ " of " +s+ pretty (sc_len scan) +s+ " were read — scan cap)" else "" in
  mret (Many (sc_name scan +s+ "[" +s+ range +s+ "] → " +s+ pretty (zlen slice) +s+ " of " +s+ pretty (sc_len scan) +s+ note) slice []).
End Scans.
