(* ===== verification/Resolve.v ===== *)
(** * Resolving an expression ([mcp-server/src/handlers.rs])

    The head of a chain (a handle, a local, [this], a member of the frame's class, a static), its
    members (fields and calls), their subscripts, and the filters over a container. An argument, an
    index or the right side of a filter's comparison may be an expression itself: its text is strictly
    shorter, so [resolve_level] recurs on a fuel that the length of the text bounds. *)

From S2P Require Import Prelude Protocol Types Reader Connection Client Generics Text Condition Expr Locate Paths StopPoint Arming Rearm.
From S2P Require Import Reading TextArrays Structures Rendering Overloads ExprText Comparing Scans.

(** ** Handles *)

Definition TAG_OBJECT : Z := 76.
Definition TAG_ARRAY : Z := 91.

Definition vanished_handle_message (id : Z) (why : string) : string :=
  "Vanished: " +s+ handle id +s+ " — " +s+ why +s+
  ". A JDWP object id is a WEAK reference: a handle a snapshot retained works only while the debuggee still holds the object strongly, and on a pool that retires workers losing one is the ordinary case rather than the exotic one. This is not a wrong id and not a debugger fault, and nothing here pins objects to keep handles alive — pinning would make the debugger the reason a live heap could not be collected (ADR-0022). Take a fresh handle from a newer snapshot, or re-trace the site.".

Definition this_read_failure (e : JdwpError) : string :=
  "Failed to get 'this': " +s+ display_error e +s+
  match e with
  | JdwpErrorCode code _ =>
    if code =? ERR_INVALID_FRAMEID then
      " — the JVM will not answer for this frame any more. A frame id dies when its thread is resumed, and an INVOCATION resumes it: rendering an object runs its toString(), so anything evaluated after that is asking about a frame that no longer exists. Read the object directly instead — every reply prints `this` as `@0x…` beside the frame's locals, and `@0x…<.field>` needs no frame."
    else ""
  | _ => ""
  end.

(** ** Segments *)

Definition seg_text (seg : Seg) : string := string_of_chars (seg_name seg).
Definition is_call (seg : Seg) : bool := is_some (seg_args seg).
Definition is_this (seg : Seg) : bool := bool_decide (seg_name seg = chars_of "this").

(** The variable of that name live at [idx], else the first of that name. *)
Definition live_at (idx : Z) (v : Variable_) : bool :=
  (var_code_index v <=? idx) && (idx <? wrap_u 64 (var_code_index v + var_length v)).
Definition find_variable (name : string) (idx : Z) (vars : list Variable_) : option Variable_ :=
  match List.find (fun v => String.eqb (var_name v) name && live_at idx v) vars with
  | Some v => Some v
  | None => List.find (fun v => String.eqb (var_name v) name) vars
  end.
Definition slot_of (v : Variable_) : Z := default 0 (i32_of (var_slot v)).

Section Heads.
Context `{BC : BytesCrate} `{D : Debuggee} `{PF : Platform}.

Definition handle_tag (id : Z) : St Z :=
  t ← attempt (get_object_reference_type id);
  match t with
  | Err _ => mret TAG_OBJECT
  | Ok type_id =>
    sig ← st_or "" (get_signature type_id);
    mret (if begins (ch "[") sig then TAG_ARRAY else if String.eqb sig "Ljava/lang/String;" then TAG_STRING else TAG_OBJECT)
  end.
Definition resolve_object_handle (id : Z) : St (result string Value) :=
  if id =? 0 then mret (Err "@0x0 is null — there is no object behind it."%string) else
  collected ← attempt (is_collected id);
  match collected with
  | Ok true => mret (Err (vanished_handle_message id "the debuggee says it has been garbage collected"))
  | Ok false => tag ← handle_tag id; mret (Ok {| val_tag := tag; val_data := VObject id |})
  | Err e =>
    mret (Err (match e with
               | JdwpErrorCode code _ =>
                 if code =? ERR_INVALID_OBJECT then
                   vanished_handle_message id "the debuggee has no record of this id, which means it was collected long enough ago that the mapping went too — or that the handle was never one this JVM issued"
                 else "Could not ask whether " +s+ handle id +s+ " is still live: " +s+ display_error e
               | _ => "Could not ask whether " +s+ handle id +s+ " is still live: " +s+ display_error e
               end))
  end.

Definition read_this (thread_id : Z) (frame : Frame) : St (result string Value) :=
  r ← attempt (get_this_object thread_id (fr_frame_id frame));
  mret match r with
       | Err e => Err (this_read_failure e)
       | Ok obj => if obj =? 0 then Err "No 'this' in this frame (static method)"%string else Ok (value_object obj)
       end.
Definition read_local (thread_id : Z) (frame : Frame) (name : string) : St (result string Value) :=
  let loc := fr_location frame in
  vars ←? failing "Failed to read local variable table (compiled without -g?): " (get_variable_table (loc_class_id loc) (loc_method_id loc));
  match find_variable name (loc_index loc) vars with
  | None => mret (Err ("Unknown local variable '" +s+ name +s+ "' in this frame"))
  | Some var =>
    match bytes_of_string (var_signature var) with
    | [] => mret (Err "Bad variable signature"%string)
    | sig_byte :: _ =>
      values ←? failing "Failed to read variable value: "
        (get_frame_values thread_id (fr_frame_id frame) [{| vs_slot := slot_of var; vs_sig_byte := sig_byte |}]);
      mret (ok_or "No value returned for variable"%string (head values))
    end
  end.
Definition resolve_head (thread_id : Z) (frame : Frame) (seg : Seg) : St (result string Value) :=
  if is_call seg then mret (Err "Expression must start with a local variable or 'this'"%string)
  else if is_this seg then read_this thread_id frame
  else read_local thread_id frame (seg_text seg).

(** The field's value on [this]; a failure anywhere is [None]. *)
Definition field_of_this (thread_id : Z) (frame : Frame) (name : string) : St (option Value) :=
  this_obj ←~ st_ok (get_this_object thread_id (fr_frame_id frame));
  if this_obj =? 0 then mret None else
  found ← find_field_info (loc_class_id (fr_location frame)) name (Some false);
  match found with
  | Ok (Some (_, f)) => vals ←~ st_ok (get_object_values this_obj [fi_field_id f]); mret (head vals)
  | _ => mret None
  end.
Definition static_of_frame (frame : Frame) (name : string) : St (option Value) :=
  found ← find_field_info (loc_class_id (fr_location frame)) name (Some true);
  match found with
  | Ok (Some (declaring, f)) => vals ←~ st_ok (get_reference_values declaring [fi_field_id f]); mret (head vals)
  | _ => mret None
  end.
Definition resolve_bare_member_of_frame (thread_id : Z) (frame : Frame) (name : string) : St (option Value) :=
  v ← field_of_this thread_id frame name;
  match v with Some v => mret (Some v) | None => static_of_frame frame name end.

Definition bare_name_not_found (frame : Frame) (name : string) : St string :=
  let class_id := loc_class_id (fr_location frame) in
  sig ← st_ok (get_signature class_id);
  let named := match sig with Some s => let n := decode_signature s in if String.eqb n "" then None else Some n | None => None end in
  let class := default ("class@" +s+ show_hex class_id) named in
  mret ("'" +s+ name +s+ "' is not a local variable in this frame, and " +s+ class +s+
        " (nor any of its superclasses) declares a field by that name — so there is nothing for a bare '" +s+ name +s+
        "' to mean here. If it belongs to another class, qualify it: `Klass." +s+ name +s+ "` for a static, or `someLocal." +s+ name +s+
        "` for a field of an object this frame can reach. debug.list_fields on " +s+ class +s+
        " shows what it does have, and debug.get_stack with locals shows what this frame has.").

(** ** Members *)

Definition invoke_result (name : string) (ret : Value) (exc : Z) : St (result string Value) :=
  if exc =? 0 then mret (Ok ret) else
  t ← attempt (get_object_reference_type exc);
  match t with
  | Err _ => mret (Err (name +s+ "() threw an exception"))
  | Ok t => sig ← st_or "" (get_signature t); mret (Err (name +s+ "() threw " +s+ decode_signature sig))
  end.

Definition index_array `{FT : FloatText} (id : Z) (key : ArgLit) (label : string) : St (result string Value) :=
  match key with
  | ArgInt i =>
    len ←? failing ("Failed to read length of '" +s+ label +s+ "': ") (get_array_length id);
    if (i <? 0) || (len <=? i) then
      mret (Err ("Index " +s+ pretty i +s+ " is out of bounds for '" +s+ label +s+ "' (length " +s+ pretty len +s+ ")"))
    else
      vals ←? failing ("Failed to read '" +s+ label +s+ "[" +s+ pretty i +s+ "]': ") (get_array_values id i 1);
      mret (ok_or ("No value returned for '" +s+ label +s+ "[" +s+ pretty i +s+ "]'") (head vals))
  | _ => mret (Err ("An array index must be an int, got " +s+ debug_arglit key +s+ " on '" +s+ label +s+ "'"))
  end.
End Heads.

(** ** What an expression may hold: the recursion is through these two *)

Record Nested : Type := {
  ns_resolve : option Z -> option Frame -> chars -> St (result string Value);
  ns_relative : option Z -> Value -> chars -> St (result string Value);
}.

Inductive PredRhs : Type := RhsLit (lit : ArgLit) | RhsValue (v : Value).
Inductive Predicate : Type :=
| PredOr (l : list Predicate)
| PredAnd (l : list Predicate)
| PredCompare (lhs op : chars) (rhs : PredRhs)
| PredNot (p : Predicate)
| PredBool (expr : chars).

(** [for x in xs { out.push(f(x).await?) }]. *)
Fixpoint try_map {A B} (f : A -> St (result string B)) (l : list A) : St (result string (list B)) :=
  match l with
  | [] => mret (Ok [])
  | a :: l => b ←? f a; bs ←? try_map f l; mret (Ok (b :: bs))
  end.

(** What the elements answered, tallied: those kept with their keys, the errors, the first error. *)
Record Tally : Type := { ty_kept : list Value; ty_keys : list string; ty_errors : Z; ty_first : option string }.
Definition tally_step (t : Tally) (e : Value * option string * result string bool) : Tally :=
  match e with
  | (v, key, Ok true) =>
    {| ty_kept := ty_kept t ++ [v]; ty_keys := ty_keys t ++ match key with Some k => [k] | None => [] end; ty_errors := ty_errors t; ty_first := ty_first t |}
  | (_, _, Ok false) => t
  | (_, _, Err e) =>
    {| ty_kept := ty_kept t; ty_keys := ty_keys t; ty_errors := ty_errors t + 1;
       ty_first := match ty_first t with Some f => Some f | None => Some e end |}
  end.
Definition tally (values : list Value) (keys : list string) (outcomes : list (result string bool)) : Tally :=
  foldl tally_step {| ty_kept := []; ty_keys := []; ty_errors := 0; ty_first := None |}
    (zip (zip values (map Some keys ++ replicate (length values) None)) outcomes).

Definition filter_note (scanned len errors : Z) : string :=
  if scanned <? len then
    " (scanned the first " +s+ pretty scanned +s+ " of " +s+ pretty len +s+ " — scan cap" +s+
    (if errors =? 0 then "" else "; " +s+ pretty errors +s+ " element(s) errored") +s+ ")"
  else if errors =? 0 then "" else " (" +s+ pretty errors +s+ " element(s) errored)".

Inductive StaticMemberMiss : Type := Absent (e : string) | Fatal (e : string).

Section Level.
Context `{BC : BytesCrate} `{D : Debuggee} `{FT : FloatText} `{PF : Platform}.
Context (nested : Nested).

Definition arglit_to_value (thread_id : option Z) (frame : option Frame) (a : ArgLit) : St (result string Value) :=
  match a with
  | ArgInt n => mret (Ok (value_int n))
  | ArgLong n => mret (Ok (value_long n))
  | ArgFloat n => mret (Ok (value_float n))
  | ArgDouble n => mret (Ok (value_double n))
  | ArgChar n => mret (Ok (value_char n))
  | ArgBool b => mret (Ok (value_bool b))
  | ArgNull => mret (Ok value_null)
  | ArgStr s => id ←? failing "Failed to create string arg: " (create_string (string_of_chars s)); mret (Ok (value_object id))
  | ArgExpr e =>
    r ← ns_resolve nested thread_id frame e;
    mret (match r with Ok v => Ok v | Err err => Err ("argument '" +s+ string_of_chars e +s+ "': " +s+ err) end)
  end.
Definition eval_args (thread_id : option Z) (frame : option Frame) : list ArgLit -> St (result string (list Value)) :=
  try_map (arglit_to_value thread_id frame).

(** *** Subscripts *)

Definition index_key (thread_id : option Z) (frame : option Frame) (tid : Z) (params : list string) (key : ArgLit) (label : string) :
    St (result string Value) :=
  if (match head params with Some p => is_reference p | None => false end) then
    key_value ←? arglit_to_value thread_id frame key;
    match format_primitive show_f32 show_f64 (val_data key_value) with
    | Some _ => boxed ← box_primitive tid key_value; mret (ok_or ("Could not box the key for '" +s+ label +s+ "[…]' — try a String key") boxed)
    | None => mret (Ok key_value)
    end
  else
    match key with
    | ArgInt i => mret (Ok (value_int i))
    | _ => mret (Err ("A list index must be an int — '" +s+ label +s+ "' takes " +s+ default "?"%string (head params) +s+ ", got " +s+ debug_arglit key))
    end.
Definition index_by_invoking (thread_id : option Z) (frame : option Frame) (tid id type_id : Z) (key : ArgLit) (label : string) :
    St (result string Value) :=
  found ←? find_method_arity type_id "get" 1;
  match found with
  | None => mret (Err ("'" +s+ label +s+ "' is not indexable — no 1-argument get() found (arrays, List and Map are supported)"))
  | Some (decl, m) =>
    arg ←? index_key thread_id frame tid (sig_param_types (mi_signature m)) key label;
    r ←? hinting ("'" +s+ label +s+ "[…]' get() failed: ") (invoke_method id tid decl (mi_method_id m) [arg]);
    invoke_result "get" (fst r) (snd r)
  end.

Definition apply_index (thread_id : option Z) (frame : option Frame) (base : Value) (key : ArgLit) (label : string) : Noted Value :=
  id ← given_or ("Cannot index '" +s+ label +s+ "' — it is null or a primitive") (as_object_id base);
  if val_tag base =? 91 then unnoted (index_array id key label) else
  type_id ← unnoted (failing ("Failed to resolve type of '" +s+ label +s+ "': ") (get_object_reference_type id));
  sig ← quiet (st_or "" (get_signature type_id));
  let name := decode_signature sig in
  layout ← quiet (recognise_layout type_id);
  structural ← try_structural layout name (fun layout => structural_index id layout key label);
  match structural with
  | Ok v => mret v
  | Err declined =>
    _ ← note_fallback name declined;
    tid ← given_or ("Indexing '" +s+ label +s+ "' needs a suspended thread — " +s+ name +s+ " is read by calling get() in the debuggee" +s+
                    fell_back name declined) thread_id;
    unnoted (index_by_invoking thread_id frame tid id type_id key label)
  end.

(** *** Filters *)

Definition prepare_leaf (thread_id : option Z) (frame : option Frame) (leaf : chars) : St (result string Predicate) :=
  match split_comparison leaf with
  | None => mret (Ok (PredBool leaf))
  | Some (lhs, op, rhs) =>
    match parse_lit (expr_ok (S (length (trim rhs)))) (trim rhs) with
    | Err e => mret (Err (expr_error_text e))
    | Ok (ArgExpr e) => v ←? ns_resolve nested thread_id frame e; mret (Ok (PredCompare lhs op (RhsValue v)))
    | Ok lit => mret (Ok (PredCompare lhs op (RhsLit lit)))
    end
  end.
Fixpoint prepare_pred_tree (thread_id : option Z) (frame : option Frame) (tree : BoolTree) : St (result string Predicate) :=
  match tree with
  | BoolOr branches =>
    l ←? (fix go bs := match bs with
                       | [] => mret (Ok [])
                       | b :: bs => p ←? prepare_pred_tree thread_id frame b; ps ←? go bs; mret (Ok (p :: ps))
                       end) branches;
    mret (Ok (PredOr l))
  | BoolAnd branches =>
    l ←? (fix go bs := match bs with
                       | [] => mret (Ok [])
                       | b :: bs => p ←? prepare_pred_tree thread_id frame b; ps ←? go bs; mret (Ok (p :: ps))
                       end) branches;
    mret (Ok (PredAnd l))
  | BoolNot inner => p ←? prepare_pred_tree thread_id frame inner; mret (Ok (PredNot p))
  | BoolLeaf leaf => prepare_leaf thread_id frame leaf
  end.
Definition prepare_predicate (thread_id : option Z) (frame : option Frame) (predicate : chars) : St (result string Predicate) :=
  prepare_pred_tree thread_id frame (parse_bool_tree predicate).

Definition predicate_bool (expr : chars) (v : Value) : result string bool :=
  match val_data v with VBoolean b => Ok b | _ => Err ("Predicate '" +s+ string_of_chars expr +s+ "' did not evaluate to a boolean") end.

Fixpoint eval_predicate_on (thread_id : option Z) (element : Value) (pred : Predicate) : St (result string bool) :=
  match pred with
  | PredOr l =>
    (fix go ps := match ps with
                  | [] => mret (Ok false)
                  | p :: ps => b ←? eval_predicate_on thread_id element p; if b : bool then mret (Ok true) else go ps
                  end) l
  | PredAnd l =>
    (fix go ps := match ps with
                  | [] => mret (Ok true)
                  | p :: ps => b ←? eval_predicate_on thread_id element p; if b : bool then go ps else mret (Ok false)
                  end) l
  | PredCompare lhs op rhs =>
    lv ←? ns_relative nested thread_id element lhs;
    match rhs with RhsValue rv => compare_resolved lv op rv | RhsLit lit => compare_values lv op lit end
  | PredNot p => b ←? eval_predicate_on thread_id element p; mret (Ok (negb b))
  | PredBool expr => v ←? ns_relative nested thread_id element expr; mret (predicate_bool expr v)
  end.

Definition filtered (predicate : chars) (label : string) (scan : Scan) (outcomes : list (result string bool)) : result string Resolved :=
  let t := tally (sc_values scan) (sc_keys scan) outcomes in
  let scanned := i32_of_len (zlen (sc_values scan)) in
  if (0 <? ty_errors t) && bool_decide (ty_kept t = []) && (ty_errors t =? scanned) then
    Err ("Predicate '" +s+ string_of_chars predicate +s+ "' failed on every element of '" +s+ label +s+ "': " +s+ default ""%string (ty_first t))
  else
    let unit := if bool_decide (sc_keys scan = []) then "matched" else "entr(ies)" in
    Ok (Many (sc_name scan +s+ "[?" +s+ string_of_chars predicate +s+ "] → " +s+ pretty (zlen (ty_kept t)) +s+ " of " +s+ pretty scanned +s+ " " +s+
              unit +s+ filter_note scanned (sc_len scan) (ty_errors t)) (ty_kept t) (ty_keys t)).
Definition apply_filter (thread_id : option Z) (frame : option Frame) (base : Value) (predicate : chars) (label : string) : Noted Resolved :=
  pred ← unnoted (prepare_predicate thread_id frame predicate);
  scan ← scan_elements thread_id base label ScanEntries;
  outcomes ← quiet (st_map (fun v => eval_predicate_on thread_id v pred) (sc_values scan));
  unnoted (mret (filtered predicate label scan outcomes)).

Fixpoint apply_subscripts (thread_id : option Z) (frame : option Frame) (current : Value) (subs : list Subscript) (label : string) : Noted Resolved :=
  match subs with
  | [] => mret (One current)
  | SubIndex key :: subs =>
    v ← apply_index thread_id frame current key label;
    apply_subscripts thread_id frame v subs label
  | SubRange from to :: subs =>
    if bool_decide (subs = []) then apply_range thread_id current from to label else refuse (multi_then_chain_error label)
  | SubFilter pred :: subs =>
    if bool_decide (subs = []) then apply_filter thread_id frame current pred label else refuse (multi_then_chain_error label)
  end.

(** *** Members *)

Definition invoke_segment_method (thread_id : option Z) (frame : option Frame) (obj_id type_id : Z) (seg : Seg) (arglits : list ArgLit) :
    St (result string Value) :=
  let name := seg_text seg in
  match thread_id with
  | None => mret (Err ("Calling '." +s+ name +s+ "()' needs a suspended thread, and " +s+ HOW_TO_SUSPEND_FOR_AN_INVOKE))
  | Some tid =>
    argvals ←? eval_args thread_id frame arglits;
    found ←? find_method_for_args type_id name argvals None;
    match found with
    | None => mret (Err ("No method '" +s+ name +s+ "' on the object accepts " +s+ pretty (zlen argvals) +s+ " argument(s) of these types"))
    | Some (decl, m) =>
      argvals ←? coerce_args tid (mi_signature m) argvals;
      r ←? hinting ("invoke " +s+ name +s+ "() failed: ") (invoke_method obj_id tid decl (mi_method_id m) argvals);
      invoke_result name (fst r) (snd r)
    end
  end.

Definition field_value (obj_id type_id : Z) (name : string) : St (result string Value) :=
  fid ←? find_field type_id name;
  match fid with
  | None => mret (Err ("No field '" +s+ name +s+ "' found on the object"))
  | Some fid =>
    vals ←? failing ("Failed to read field '" +s+ name +s+ "': ") (get_object_values obj_id [fid]);
    mret (ok_or "No value returned for field"%string (head vals))
  end.
Definition read_segment_field (obj_id type_id : Z) (seg : Seg) : St (result string Value) :=
  if String.eqb (seg_text seg) "length" then
    sig ← st_or "" (get_signature type_id);
    if begins (ch "[") sig then
      len ←? failing ("Failed to read the length of '" +s+ decode_signature sig +s+ "': ") (get_array_length obj_id);
      mret (Ok (value_int len))
    else field_value obj_id type_id (seg_text seg)
  else field_value obj_id type_id (seg_text seg).

Definition resolve_member (thread_id : option Z) (frame : option Frame) (current : Value) (seg : Seg) (lazy : LazyPolicy) : St (result string Value) :=
  let name := seg_text seg in
  if is_some (parse_object_handle (seg_name seg)) then
    mret (Err ("'" +s+ name +s+ "' is an object handle, which can only be the FIRST segment of an expression — write " +s+ name +s+
               ".field, not something." +s+ name))
  else
    match val_data current with
    | VObject obj_id =>
      if obj_id =? 0 then mret (Err ("Cannot access '." +s+ name +s+ "' on null")) else
      type_id ←? failing "Failed to resolve object type: " (get_object_reference_type obj_id);
      _ ←? check_lazy_receiver obj_id type_id seg lazy;
      match seg_args seg with
      | Some arglits => invoke_segment_method thread_id frame obj_id type_id seg arglits
      | None => read_segment_field obj_id type_id seg
      end
    | _ => mret (Err ("Cannot access '." +s+ name +s+ "' on a primitive value"))
    end.

(** *** Statics *)

Definition fatal {A} (m : St (result string A)) : St (result StaticMemberMiss A) :=
  r ← m; mret (match r with Ok a => Ok a | Err e => Err (Fatal e) end).

Definition read_static_field (type_id : Z) (dotted name : string) : St (result StaticMemberMiss Value) :=
  fid ←? fatal (find_static_field type_id name);
  match fid with
  | None => mret (Err (Absent ("static field '" +s+ name +s+ "'")))
  | Some fid =>
    vals ←? fatal (failing ("Failed to read static field '" +s+ name +s+ "' on '" +s+ dotted +s+ "': ") (get_reference_values type_id [fid]));
    mret (ok_or (Fatal "No value returned for static field") (head vals))
  end.

Definition invoke_static_member (thread_id : option Z) (frame : option Frame) (type_id : Z) (dotted : string) (member : Seg) (arglits : list ArgLit) :
    St (result StaticMemberMiss Value) :=
  let name := seg_text member in
  match thread_id with
  | None => mret (Err (Fatal ("Calling static '" +s+ dotted +s+ "." +s+ name +s+ "()' needs a suspended thread, and " +s+ HOW_TO_SUSPEND_FOR_AN_INVOKE)))
  | Some tid =>
    argvals ←? fatal (eval_args thread_id frame arglits);
    found ←? fatal (find_method_for_args type_id name argvals (Some true));
    match found with
    | None => mret (Err (Absent ("static method '" +s+ name +s+ "' accepting " +s+ pretty (zlen argvals) +s+ " argument(s) of these types")))
    | Some (decl, m) =>
      argvals ←? fatal (coerce_args tid (mi_signature m) argvals);
      r ←? fatal (hinting ("invoke static " +s+ dotted +s+ "." +s+ name +s+ "() failed: ") (invoke_static_method decl tid (mi_method_id m) argvals));
      fatal (invoke_result name (fst r) (snd r))
    end
  end.

Definition static_member (thread_id : option Z) (frame : option Frame) (dotted : string) (member : Seg) (type_id : Z) : St (result StaticMemberMiss Value) :=
  match seg_args member with
  | Some arglits => invoke_static_member thread_id frame type_id dotted member arglits
  | None => read_static_field type_id dotted (seg_text member)
  end.

(** The copies of a class in order: the first that answers, with its place; else why the first was absent. *)
Fixpoint first_answer (attempt_ : Z -> St (result StaticMemberMiss Value)) (i : nat) (copies : list Z) (absent : option string) :
    St (result string (option (nat * Value) * option string)) :=
  match copies with
  | [] => mret (Ok (None, absent))
  | type_id :: copies =>
    r ← attempt_ type_id;
    match r with
    | Ok v => mret (Ok (Some (i, v), absent))
    | Err (Fatal e) => mret (Err e)
    | Err (Absent e) => first_answer attempt_ (S i) copies (match absent with Some a => Some a | None => Some e end)
    end
  end.

Definition absent_everywhere (dotted absent : string) (copies : list Z) : St string :=
  match copies with
  | [_] => mret ("class '" +s+ dotted +s+ "' has no " +s+ absent)
  | _ =>
    labels ← describe_class_loaders copies;
    let n := pretty (zlen copies) in
    mret ("'" +s+ dotted +s+ "' is loaded " +s+ n +s+ " times — one class per classloader — and NONE of the " +s+ n +s+ " copies has a " +s+
          absent +s+ ". All " +s+ n +s+ " were searched, so this is not the retired-deployment copy answering for the running one; the name or the signature is wrong. Searched: " +s+
          join "; " labels +s+ ".")
  end.

(** The longest class name first: the first [k] segments, and the next is the member. *)
Fixpoint static_from (k : nat) (thread_id : option Z) (frame : option Frame) (segs : list Seg) : Noted (Value * nat) :=
  match k with
  | O => refuse "no loaded class matches the leading segment(s)"
  | S k' =>
    let class_segs := take k segs in
    match drop k segs with
    | [] => static_from k' thread_id frame segs
    | member :: _ =>
      if existsb is_call class_segs then static_from k' thread_id frame segs else
      let dotted := join "." (map seg_text class_segs) in
      copies ← unnoted (resolve_class_copies_by_dotted dotted);
      if bool_decide (copies = []) then static_from k' thread_id frame segs else
      r ← unnoted (first_answer (static_member thread_id frame dotted member) 0 copies None);
      match r with
      | (Some (i, v), _) =>
        if (0 <? i)%nat then
          labels ← quiet (describe_class_loaders copies);
          _ ← noting (answered_by_later_copy dotted (seg_text member) i labels);
          mret (v, S k)
        else mret (v, S k)
      | (None, absent) =>
        e ← quiet (absent_everywhere dotted (default ("member '" +s+ seg_text member +s+ "'") absent) copies);
        refuse e
      end
    end
  end.
Definition resolve_static_head (thread_id : option Z) (frame : option Frame) (segs : list Seg) : Noted (Value * nat) :=
  if (length segs <? 2)%nat then refuse "a static access needs at least Class.field or Class.method()"
  else static_from (length segs - 1) thread_id frame segs.

(** *** Heads *)

(** Why no head was found, when [static_err] is why no static was. *)
Definition head_failure (head_result : option (result string Value)) (frame : option Frame) (segs : list Seg) (head_seg : Seg) (static_err : string) :
    St string :=
  match head_result, frame with
  | Some (Err head_err), Some fr =>
    if is_this head_seg then mret head_err
    else if (length segs =? 1)%nat && negb (is_call head_seg) then bare_name_not_found fr (seg_text head_seg)
    else mret (head_err +s+ " (also not a resolvable static member: " +s+ static_err +s+ ")")
  | Some (Err head_err), None =>
    mret (if is_this head_seg then head_err else head_err +s+ " (also not a resolvable static member: " +s+ static_err +s+ ")")
  | _, _ => mret ("No suspended frame to read locals from, and not a resolvable static member: " +s+ static_err)
  end.

(** The bare name as a member of the frame's class, where there is a frame and the name is no call. *)
Definition bare_member (thread_id : option Z) (frame : option Frame) (head_seg : Seg) : St (option Value) :=
  match thread_id, frame with
  | Some tid, Some fr => if is_call head_seg then mret None else resolve_bare_member_of_frame tid fr (seg_text head_seg)
  | _, _ => mret None
  end.

Definition static_or_failure (thread_id : option Z) (frame : option Frame) (segs : list Seg) (head_seg : Seg) (head_result : option (result string Value)) :
    Noted (Value * nat) := fun path w =>
  match resolve_static_head thread_id frame segs path w with
  | (Ok v, path, w) => (Ok v, path, w)
  | (Err static_err, path, w) => let '(e, w) := head_failure head_result frame segs head_seg static_err w in (Err e, path, w)
  end.

Definition resolve_any_head (thread_id : option Z) (frame : option Frame) (segs : list Seg) (head_seg : Seg) : Noted (Value * nat) :=
  match parse_object_handle (seg_name head_seg) with
  | Some id => v ← unnoted (resolve_object_handle id); mret (v, 1%nat)
  | None =>
    head_result ← quiet (match thread_id, frame with
                         | Some tid, Some fr => r ← resolve_head tid fr head_seg; mret (Some r)
                         | _, _ => mret None
                         end : St (option (result string Value)));
    match head_result with
    | Some (Ok v) => mret (v, 1%nat)
    | _ =>
      bare ← quiet (bare_member thread_id frame head_seg);
      match bare with
      | Some v => mret (v, 1%nat)
      | None => static_or_failure thread_id frame segs head_seg head_result
      end
    end
  end.

(** *** Chains *)

Fixpoint chain_from (thread_id : option Z) (frame : option Frame) (lazy : LazyPolicy) (current : Value) (segs : list Seg) : Noted Resolved :=
  match segs with
  | [] => mret (One current)
  | seg :: segs =>
    member ← unnoted (resolve_member thread_id frame current seg lazy);
    r ← apply_subscripts thread_id frame member (seg_subs seg) (seg_text seg);
    match r with
    | One v => chain_from thread_id frame lazy v segs
    | Many _ _ _ => if bool_decide (segs = []) then mret r else refuse (multi_then_chain_error (seg_text seg))
    end
  end.

Definition resolve_multi (thread_id : option Z) (frame : option Frame) (expr : chars) (lazy : LazyPolicy) : Noted Resolved :=
  segs ← unnoted (mret (explained (parse_expr expr)));
  match segs with
  | [] => refuse "Empty expression"
  | head_seg :: _ =>
    '(current, start) ← resolve_any_head thread_id frame segs head_seg;
    match segs !! (start - 1)%nat with
    | None => refuse "Internal error: head resolution consumed no segments"
    | Some head_owner =>
      r ← apply_subscripts thread_id frame current (seg_subs head_owner) (seg_text head_owner);
      match r with
      | One v => chain_from thread_id frame lazy v (drop start segs)
      | Many _ _ _ => if bool_decide (drop start segs = []) then mret r else refuse (multi_then_chain_error (seg_text head_owner))
      end
    end
  end.

(** Notes that nobody reads. *)
Definition unread {A} (m : Noted A) : St (result string A) := fun w => let '(r, _, w) := m [] w in (r, w).

Definition resolve_one (thread_id : option Z) (frame : option Frame) (expr : chars) : St (result string Value) :=
  r ←? unread (resolve_multi thread_id frame expr Report); mret (single r "This").

(** Members of an element, from the element itself; [frame] is [None] in a filter. *)
Fixpoint relative_from (thread_id : option Z) (current : Value) (segs : list Seg) : Noted Value :=
  match segs with
  | [] => mret current
  | seg :: segs =>
    member ← unnoted (resolve_member thread_id None current seg Report);
    r ← apply_subscripts thread_id None member (seg_subs seg) (seg_text seg);
    v ← unnoted (mret (single r "A filter predicate"));
    relative_from thread_id v segs
  end.
Definition resolve_relative_one (thread_id : option Z) (base : Value) (expr : chars) : St (result string Value) :=
  segs ←? mret (explained (parse_expr expr));
  unread (relative_from thread_id base segs).
End Level.

(** ** The recursion *)

Section Resolve.
Context `{BC : BytesCrate} `{D : Debuggee} `{FT : FloatText} `{PF : Platform}.

Fixpoint resolve_level (n : nat) : Nested :=
  match n with
  | O => {| ns_resolve _ _ _ := mret (Err ""%string); ns_relative _ _ _ := mret (Err ""%string) |}
  | S n => {| ns_resolve := resolve_one (resolve_level n); ns_relative := resolve_relative_one (resolve_level n) |}
  end.

Definition resolve_expression_multi (thread_id : option Z) (frame : option Frame) (expr : chars) (lazy : LazyPolicy) : Noted Resolved :=
  resolve_multi (resolve_level (length expr)) thread_id frame expr lazy.
Definition resolve_expression (thread_id : option Z) (frame : option Frame) (expr : chars) : St (result string Value) :=
  resolve_one (resolve_level (length expr)) thread_id frame expr.
Definition resolve_relative (thread_id : option Z) (base : Value) (expr : chars) : St (result string Value) :=
  resolve_relative_one (resolve_level (length expr)) thread_id base expr.
End Resolve.
