(* ===== verification/ResolveFacts.v ===== *)
(** * The recursion of the resolver ([mcp-server/src/handlers.rs])

    The texts an expression holds are strictly shorter than it is, and so are those of a filter: the
    length of an expression is fuel enough for everything its resolution resolves. *)

From S2P Require Import Prelude Protocol Types Reader Connection Client Generics Text Condition ConditionScan Expr ExprGrammar Locate Paths StopPoint Arming Rearm.
From S2P Require Import Reading ReadingFacts TextArrays Structures Rendering Overloads ExprText Comparing Scans Resolve.

(** ** The texts inside a text *)

Definition lit_texts (a : ArgLit) : list chars := match a with ArgExpr e => [e] | _ => [] end.
Definition sub_texts (s : Subscript) : list chars := match s with SubIndex a => lit_texts a | SubRange _ _ => [] | SubFilter p => [p] end.
Definition seg_texts (seg : Seg) : list chars := (default [] (seg_args seg) ≫= lit_texts) ++ (seg_subs seg ≫= sub_texts).
Definition below (n : nat) (l : list chars) : Prop := Forall (fun u => (length u < n)%nat) l.

Lemma below_app n a b : below n (a ++ b) <-> below n a /\ below n b.
Proof. apply Forall_app. Qed.
Lemma below_bind {A} n (f : A -> list chars) l : below n (l ≫= f) <-> forall a, a ∈ l -> below n (f a).
Proof.
  induction l as [|a l IH]; [split; [by intros _ ? ?%elem_of_nil|intros _; apply List.Forall_nil]|].
  rewrite bind_cons, below_app, IH. split.
  - intros [H1 H2] x [->|Hx]%elem_of_cons; auto.
  - intros H. split; [by apply H; left|intros x Hx; by apply H; right].
Qed.
Lemma below_weaken n m l : (n <= m)%nat -> below n l -> below m l.
Proof. intros L. apply List.Forall_impl. intros u. lia. Qed.

Lemma mapM_in {A B} (f : A -> result ExprError B) l k b : mapM f l = Ok k -> b ∈ k -> exists a, a ∈ l /\ f a = Ok b.
Proof.
  revert k. induction l as [|a l IH]; intros k; cbn; [intros [= <-]; by intros ?%elem_of_nil|].
  rewrite result_bind_ok. intros (b0 & Hb0 & H). rewrite result_bind_ok in H. destruct H as (k0 & Hk & [= <-]).
  intros [->|Hb]%elem_of_cons; [exists a; split; [by left|done]|].
  destruct (IH _ Hk Hb) as (x & Hx & E). exists x. split; [by right|done].
Qed.

Section Texts.
Context (ok : chars -> bool).

Lemma parse_number_texts t a : parse_number_lit t = Some a -> lit_texts a = [].
Proof. unfold parse_number_lit. repeat case_match; congruence || by intros [= <-]. Qed.

Lemma parse_lit_texts t a : parse_lit ok t = Ok a -> below (S (length t)) (lit_texts a).
Proof.
  unfold parse_lit. pose proof (trim_length t) as L. intros H. destruct a; try apply List.Forall_nil.
  apply List.Forall_cons; [|apply List.Forall_nil]. revert H. repeat case_match; try done.
  - destruct (parse_char_inner _); done.
  - intros [= ->]. by apply parse_number_texts in H4.
  - intros [= <-]. lia.
Qed.

Lemma parse_args_texts s args : parse_args ok s = Ok args -> below (S (length s)) (args ≫= lit_texts).
Proof.
  unfold parse_args. pose proof (trim_length s) as L. destruct (trim s) as [|c r]; [intros [= <-]; apply List.Forall_nil|].
  intros H. apply below_bind. intros a Ha. destruct (mapM_in _ _ _ _ H Ha) as (p & Hp & E).
  apply parse_lit_texts in E. apply cut_from_length in Hp. eapply below_weaken; [|exact E]. cbn [length] in *. lia.
Qed.

Lemma parse_subscript_texts s sub : parse_subscript ok s = Ok sub -> below (S (length s)) (sub_texts sub).
Proof.
  unfold parse_subscript. pose proof (trim_length s) as L. destruct (trim s) as [|c r] eqn:E; [done|].
  destruct (strip_prefix [ch "?"] (c :: r)) as [pred|] eqn:Ep.
  - case_bool_decide; [done|]. intros [= <-]. apply strip_prefix_spec in Ep. rewrite Ep in L. cbn in L.
    pose proof (trim_length pred). apply List.Forall_cons; [lia|apply List.Forall_nil].
  - destruct (split_once _ _) as [[a b]|].
    + rewrite result_bind_ok. intros (x & _ & H). rewrite result_bind_ok in H. destruct H as (y & _ & H).
      destruct (y <? x); [done|]. injection H as <-. apply List.Forall_nil.
    + destruct (parse_lit ok (c :: r)) as [a|] eqn:El; [|done]. intros [= <-]. apply parse_lit_texts in El.
      eapply below_weaken; [|exact El]. lia.
Qed.

Lemma parse_seg_texts raw seg : parse_seg ok raw = Ok seg -> below (length raw) (seg_texts seg).
Proof.
  unfold parse_seg. destruct (split_subscripts raw) as [[head gs]|] eqn:E; [|done]. cbn.
  unfold split_subscripts in E. rewrite result_bind_ok in E. destruct E as (k & Hk & [= <- <-]).
  set (n := head_end raw quoted_default 0) in *. destruct (mapM (parse_subscript ok) k) as [subs|] eqn:Es; [|done]. cbn.
  assert (Hs : below (length raw) (subs ≫= sub_texts)).
  { apply below_bind. intros sub Hsub. destruct (mapM_in _ _ _ _ Es Hsub) as (b & Hb & Eb). apply parse_subscript_texts in Eb.
    pose proof (groups_of_length _ _ _ _ _ Hk Hb) as L. pose proof (trim_length (drop n raw)) as T. rewrite length_drop in T.
    eapply below_weaken; [|exact Eb]. lia. }
  destruct (starts_with _ _); [destruct (parse_object_handle _); [|done]; by intros [= <-]|].
  destruct (find_char (ch "(") (trim (take n raw))) as [[pre post]|] eqn:F.
  - destruct (negb _); [done|]. destruct (negb _); [done|]. destruct (parse_args ok _) as [args|] eqn:Ea; [|done]. intros [= <-].
    apply below_app. split; [|done]. apply parse_args_texts in Ea. eapply below_weaken; [|exact Ea].
    apply split_once_app in F. pose proof (trim_length (take n raw)) as T. rewrite F, length_take, !length_app in T. cbn [length] in T.
    assert (length (removelast post) <= length post)%nat by (rewrite removelast_firstn_len, length_take; lia). lia.
  - destruct (is_ident _); [by intros [= <-]|]. by destruct (is_some _).
Qed.

Lemma segments_shorter s raws p : split_segments s = Ok raws -> p ∈ raws -> (length p <= length s)%nat.
Proof.
  unfold split_segments. pose proof (cut_from_length (ch ".") all_open all_shut s [] quoted_default 0) as L.
  destruct (cut_from _ _ _ s _ _ _) as [[parts q] d]. cbn [fst] in L. destruct (_ || _); [done|]. intros [= <-] Hp.
  assert (forall y, y ∈ parts -> (length (trim y) <= length s)%nat) as T.
  { intros y Hy. specialize (L _ Hy). cbn [length Nat.add] in L. pose proof (trim_length y). lia. }
  assert (p ∈ map trim (removelast parts) \/ p = trim (List.last parts [])) as [Hp'| ->].
  { destruct (bool_decide _); [by left|]. apply elem_of_app in Hp as [Hp|Hp]; [by left|]. right. by apply list_elem_of_singleton in Hp. }
  - apply list_elem_of_fmap in Hp' as (y & -> & Hy). apply T. destruct (decide (parts = [])) as [->|N]; [by apply elem_of_nil in Hy|].
    rewrite (app_removelast_last [] N). apply elem_of_app. by left.
  - destruct (decide (parts = [])) as [->|N]; [cbn; lia|]. apply T. rewrite (app_removelast_last [] N) at 2.
    apply elem_of_app. right. by apply list_elem_of_singleton.
Qed.
End Texts.

(** Every text held by a parsed expression is strictly shorter than the expression. *)
Lemma parse_expr_texts e segs seg : parse_expr e = Ok segs -> seg ∈ segs -> below (length e) (seg_texts seg).
Proof.
  unfold parse_expr, parse_expr_with. pose proof (trim_length e) as L. destruct (trim e) as [|c r]; [done|].
  rewrite result_bind_ok. intros (raws & Hr & H) Hseg. destruct raws as [|x raws]; [done|].
  destruct (mapM_in _ _ _ _ H Hseg) as (raw & Hraw & E). apply parse_seg_texts in E. apply (segments_shorter _ _ _ Hr) in Hraw.
  eapply below_weaken; [|exact E]. lia.
Qed.

(** ** The texts of a predicate *)

Fixpoint leaves (t : BoolTree) : list chars :=
  match t with
  | BoolOr bs | BoolAnd bs => concat (map leaves bs)
  | BoolNot t => leaves t
  | BoolLeaf l => [l]
  end.

Lemma below_concat n ls : below n (concat ls) <-> Forall (below n) ls.
Proof.
  induction ls as [|l ls IH]; cbn; [by split; intros; apply List.Forall_nil|]. rewrite below_app, IH.
  split; [intros [? ?]; by apply List.Forall_cons|]. intros H. by apply list.Forall_cons in H.
Qed.

Lemma parse_fuel_leaves n s : below (S (length s)) (leaves (parse_fuel n s)).
Proof.
  revert s. induction n as [|n IH]; intros s; cbn [parse_fuel]; [apply List.Forall_cons; [lia|apply List.Forall_nil]|].
  pose proof (strip_length (trim s)) as Hl. pose proof (trim_length s) as Ht. set (t := strip_enclosing_parens (trim s)) in *.
  assert (forall op, (1 < length (split_bool t op))%nat -> below (S (length s)) (concat (map leaves (map (parse_fuel n) (split_bool t op))))) as K.
  { intros op L. apply split_bool_length in L. apply below_concat, Forall_map, Forall_map. eapply list.Forall_impl; [exact L|].
    intros p Hp. cbv beta in Hp. eapply below_weaken; [|apply IH]. lia. }
  destruct (Nat.ltb_spec 1 (length (split_bool t (ch "|")))) as [L|_]; [by apply K|].
  destruct (Nat.ltb_spec 1 (length (split_bool t (ch "&")))) as [L|_]; [by apply K|].
  assert (below (S (length s)) [t]) as Hd by (apply List.Forall_cons; [lia|apply List.Forall_nil]).
  destruct (strip_prefix [ch "!"] t) as [u|] eqn:E; [|done]. apply strip_prefix_spec in E.
  destruct (negb _); [|done]. cbn [leaves]. eapply below_weaken; [|apply IH]. assert (length t = S (length u)) as Hu by by rewrite E. lia.
Qed.

Lemma split_here_length ops before after l op r :
  split_here ops before after = Some (l, op, r) -> (length l <= length before /\ length r <= length after)%nat.
Proof.
  induction ops as [|o ops IH]; cbn [split_here]; [done|]. destruct (strip_prefix o after) as [rhs|] eqn:E; [|done].
  destruct (_ || _); [done|]. intros [= <- <- <-]. apply strip_prefix_spec in E.
  pose proof (trim_length before). pose proof (trim_length rhs). rewrite E, length_app. lia.
Qed.
Lemma split_comparison_length s l op r : split_comparison s = Some (l, op, r) -> (length l <= length s /\ length r <= length s)%nat.
Proof.
  unfold split_comparison. assert (forall before q depth, split_comparison_from before s q depth = Some (l, op, r) ->
    (length l <= length before + length s /\ length r <= length before + length s)%nat) as K; [|intros H; by apply K in H].
  induction s as [|c s IH]; intros before q depth; cbn [split_comparison_from]; [done|].
  set (found := if negb (inside q) && (depth =? 0) && _ then _ else _). destruct found as [r0|] eqn:E; subst found.
  - intros [= ->]. destruct (negb (inside q) && _ && _); [|done]. apply split_here_length in E. lia.
  - intros H. apply IH in H. rewrite length_app in H. cbn [length] in *. lia.
Qed.

Fixpoint pred_texts (p : Predicate) : list chars :=
  match p with
  | PredOr l | PredAnd l => concat (map pred_texts l)
  | PredCompare lhs _ _ => [lhs]
  | PredNot p => pred_texts p
  | PredBool e => [e]
  end.

(** ** Two resolvers that agree on short texts *)

Definition same {A : Type} (m m' : St A) : Prop := forall w : World, m w = m' w.
Definition same_noted {A : Type} (m m' : Noted A) : Prop := forall (path : ReadPath) (w : World), m path w = m' path w.

Lemma same_refl {A} (m : St A) : same m m.
Proof. done. Qed.
Lemma same_noted_refl {A} (m : Noted A) : same_noted m m.
Proof. done. Qed.
Lemma same_bind {A B} (m m' : St A) (k k' : A -> St B) : same m m' -> (forall a, same (k a) (k' a)) -> same (m ≫= k) (m' ≫= k').
Proof. intros Hm Hk w. unfold mbind, st_bind. rewrite Hm. destruct (m' w) as [a w1]. apply Hk. Qed.
Lemma same_try {E A B} (m m' : St (result E A)) (k k' : A -> St (result E B)) :
  same m m' -> (forall a, same (k a) (k' a)) -> same (st_try m k) (st_try m' k').
Proof. intros Hm Hk. apply same_bind; [done|]. intros [a|e]; [apply Hk|done]. Qed.
Lemma same_bind_noted {A B} (m m' : Noted A) (k k' : A -> Noted B) :
  same_noted m m' -> (forall a, same_noted (k a) (k' a)) -> same_noted (m ≫= k) (m' ≫= k').
Proof. intros Hm Hk path w. unfold mbind, noted_bind. rewrite Hm. destruct (m' path w) as [[[a|e] p] w1]; [apply Hk|done]. Qed.
Lemma same_unnoted {A} (m m' : St (result string A)) : same m m' -> same_noted (unnoted m) (unnoted m').
Proof. intros H path w. unfold unnoted. by rewrite H. Qed.
Lemma same_quiet {A} (m m' : St A) : same m m' -> same_noted (quiet m) (quiet m').
Proof. intros H path w. unfold quiet. by rewrite H. Qed.
Lemma same_st_map {A B} (f g : A -> St B) l : (forall a, a ∈ l -> same (f a) (g a)) -> same (st_map f l) (st_map g l).
Proof.
  induction l as [|a l IH]; intros H; [done|]. cbn [st_map]. apply same_bind; [by apply H; left|]. intros b.
  apply same_bind; [|done]. apply IH. intros x Hx. apply H. by right.
Qed.
Lemma same_try_map {A B} (f g : A -> St (result string B)) l : (forall a, a ∈ l -> same (f a) (g a)) -> same (try_map f l) (try_map g l).
Proof.
  induction l as [|a l IH]; intros H; [done|]. cbn [try_map]. apply same_try; [by apply H; left|]. intros b.
  apply same_try; [|done]. apply IH. intros x Hx. apply H. by right.
Qed.

Create HintDb resolves.
#[export] Hint Resolve same_refl same_noted_refl : resolves.

(** Down the binds and the cases that both sides share. *)
Ltac agree := repeat (intros; first
  [ progress auto with resolves nocore
  | apply same_bind | apply same_try | apply same_bind_noted | apply same_unnoted | apply same_quiet
  | case_match ]).

Lemma BoolTree_forall (P : BoolTree -> Prop) :
  (forall bs, Forall P bs -> P (BoolOr bs)) -> (forall bs, Forall P bs -> P (BoolAnd bs)) -> (forall t, P t -> P (BoolNot t)) ->
  (forall l, P (BoolLeaf l)) -> forall t, P t.
Proof.
  intros Hor Hand Hnot Hleaf. fix IH 1. intros [bs|bs|t|l]; [apply Hor|apply Hand|by apply Hnot|apply Hleaf].
  1, 2: induction bs as [|b bs IHb]; [apply List.Forall_nil|apply List.Forall_cons; [apply IH|exact IHb]].
Qed.
Lemma Predicate_forall (P : Predicate -> Prop) :
  (forall l, Forall P l -> P (PredOr l)) -> (forall l, Forall P l -> P (PredAnd l)) -> (forall lhs op rhs, P (PredCompare lhs op rhs)) ->
  (forall p, P p -> P (PredNot p)) -> (forall e, P (PredBool e)) -> forall p, P p.
Proof.
  intros Hor Hand Hcmp Hnot Hbool. fix IH 1. intros [l|l|lhs op rhs|p|e]; [apply Hor|apply Hand|apply Hcmp|by apply Hnot|apply Hbool].
  1, 2: induction l as [|b l IHb]; [apply List.Forall_nil|apply List.Forall_cons; [apply IH|exact IHb]].
Qed.

Lemma try_ok {E A B} (m : St (result E A)) (k : A -> St (result E B)) w b w' :
  st_try m k w = (Ok b, w') -> exists a w1, m w = (Ok a, w1) /\ k a w1 = (Ok b, w').
Proof. unfold st_try, mbind, st_bind. destruct (m w) as [[a|e] w1]; [|done]. intros H. by exists a, w1. Qed.

Section Agree.
Context `{BC : BytesCrate} `{D : Debuggee} `{FT : FloatText} `{PF : Platform}.
Context (a b : Nested) (N : nat).
Context (Hr : forall th fr e, (length e < N)%nat -> same (ns_resolve a th fr e) (ns_resolve b th fr e)).
Context (Hv : forall th v e, (length e < N)%nat -> same (ns_relative a th v e) (ns_relative b th v e)).

Lemma arglit_same th fr l : below N (lit_texts l) -> same (arglit_to_value a th fr l) (arglit_to_value b th fr l).
Proof. intros H. destruct l; try done. cbn. apply same_bind; [|done]. apply Hr. by apply list.Forall_cons in H as [H _]. Qed.

Lemma eval_args_same th fr args : below N (args ≫= lit_texts) -> same (eval_args a th fr args) (eval_args b th fr args).
Proof. intros H. apply same_try_map. intros l Hl. apply arglit_same. by eapply below_bind in H. Qed.

Lemma index_same th fr base key label : below N (lit_texts key) ->
  same_noted (apply_index a th fr base key label) (apply_index b th fr base key label).
Proof.
  intros H. unfold apply_index, index_by_invoking, index_key. pose proof (arglit_same th fr key H) as K. agree.
Qed.

Lemma prepared_texts n nst th fr t w p w' :
  prepare_pred_tree nst th fr t w = (Ok p, w') -> below n (leaves t) -> below n (pred_texts p).
Proof.
  revert w p w'. induction t as [bs IH|bs IH|t IH|l] using BoolTree_forall; intros w p w'.
  1, 2: cbn [prepare_pred_tree]; intros (ps & w1 & H & [= <- _])%try_ok Hl; cbn [leaves pred_texts] in *; revert w ps w1 H Hl;
    induction IH as [|t bs Ht _ IHbs]; intros w ps w1; [by intros [= <- _]; intros; apply List.Forall_nil|];
    intros (p1 & w2 & H1 & H)%try_ok; apply try_ok in H as (p2 & w3 & H2 & [= <- _]); cbn [map concat]; rewrite !below_app;
    intros [L1 L2]; split; [by eapply Ht|eapply IHbs; [exact H2|done]].
  - cbn [prepare_pred_tree]. intros (q & w1 & H & [= <- _])%try_ok. intros Hl. exact (IH _ _ _ H Hl).
  - cbn [prepare_pred_tree leaves]. unfold prepare_leaf. intros H [Hl _]%list.Forall_cons. cbv beta in Hl.
    assert (forall lhs op rhs, split_comparison l = Some (lhs, op, rhs) -> below n [lhs]) as K.
    { intros lhs op rhs E. apply split_comparison_length in E. apply List.Forall_cons; [lia|apply List.Forall_nil]. }
    destruct (split_comparison l) as [[[lhs op] rhs]|]; [|injection H as <- _; apply List.Forall_cons; [done|apply List.Forall_nil]].
    specialize (K _ _ _ eq_refl). destruct (parse_lit _ _) as [lit|]; [|done]. destruct lit; try (by injection H as <- _).
    apply try_ok in H as (v & w1 & _ & [= <- _]). done.
Qed.

Lemma prepare_same th fr t : below N (leaves t) -> same (prepare_pred_tree a th fr t) (prepare_pred_tree b th fr t).
Proof.
  induction t as [bs IH|bs IH|t IH|l] using BoolTree_forall; cbn [prepare_pred_tree leaves]; intros Hl.
  1, 2: apply same_try; [|done]; induction IH as [|t bs Ht _ IHbs]; [done|]; cbn [map concat] in Hl; apply below_app in Hl as [L1 L2];
    apply same_try; [by apply Ht|]; intros p; apply same_try; [by apply IHbs|done].
  - apply same_try; [by apply IH|done].
  - unfold prepare_leaf. apply list.Forall_cons in Hl as [Hl _]. destruct (split_comparison l) as [[[lhs op] rhs]|] eqn:E; [|done].
    apply split_comparison_length in E. destruct (parse_lit _ (trim rhs)) as [lit|] eqn:El; [|done]. destruct lit; try done.
    apply same_try; [|done]. apply Hr. apply parse_lit_texts, list.Forall_cons in El as [El _].
    pose proof (trim_length rhs). cbv beta in El, Hl. lia.
Qed.

Lemma eval_same th v p : below N (pred_texts p) -> same (eval_predicate_on a th v p) (eval_predicate_on b th v p).
Proof.
  induction p as [l IH|l IH|lhs op rhs|p IH|e] using Predicate_forall; cbn [eval_predicate_on pred_texts]; intros Hl.
  1, 2: induction IH as [|p l Hp _ IHl]; [done|]; cbn [map concat] in Hl; apply below_app in Hl as [L1 L2];
    apply same_try; [by apply Hp|]; intros []; first [by apply IHl|done].
  - apply same_try; [|done]. apply Hv. by apply list.Forall_cons in Hl as [Hl _].
  - apply same_try; [by apply IH|done].
  - apply same_try; [|done]. apply Hv. by apply list.Forall_cons in Hl as [Hl _].
Qed.

Lemma filter_same th fr base pred label : (length pred < N)%nat ->
  same_noted (apply_filter a th fr base pred label) (apply_filter b th fr base pred label).
Proof.
  intros Hp path w. unfold apply_filter, prepare_predicate, mbind, noted_bind.
  assert (below N (leaves (parse_bool_tree pred))) as Hl by (eapply below_weaken; [|apply parse_fuel_leaves]; lia).
  assert (unnoted (prepare_pred_tree a th fr (parse_bool_tree pred)) path w = unnoted (prepare_pred_tree b th fr (parse_bool_tree pred)) path w) as ->
    by (apply same_unnoted, prepare_same; done).
  unfold unnoted at 1 3. destruct (prepare_pred_tree b _ _ _ w) as [[p|e] w1] eqn:E; [|done].
  apply (prepared_texts N) in E; [|done]. destruct (scan_elements _ _ _ _ path w1) as [[[scan|e] path2] w2]; [|done].
  assert (quiet (st_map (fun v => eval_predicate_on a th v p) (sc_values scan)) path2 w2 =
          quiet (st_map (fun v => eval_predicate_on b th v p) (sc_values scan)) path2 w2) as ->; [|done].
  apply same_quiet, same_st_map. intros v _. by apply eval_same.
Qed.

Lemma subscripts_same th fr v subs label : below N (subs ≫= sub_texts) ->
  same_noted (apply_subscripts a th fr v subs label) (apply_subscripts b th fr v subs label).
Proof.
  revert v. induction subs as [|sub subs IH]; intros v H; [done|]. rewrite bind_cons, below_app in H. destruct H as [H1 H2].
  destruct sub as [key|from to|pred]; cbn [apply_subscripts].
  - apply same_bind_noted; [by apply index_same|]. intros x. by apply IH.
  - done.
  - case_bool_decide; [|done]. apply filter_same. by apply list.Forall_cons in H1 as [H1 _].
Qed.

Lemma member_same th fr v seg lazy : below N (seg_texts seg) -> same (resolve_member a th fr v seg lazy) (resolve_member b th fr v seg lazy).
Proof.
  intros [H _]%below_app. unfold resolve_member, invoke_segment_method. destruct (seg_args seg) as [args|]; [|done].
  pose proof (eval_args_same th fr args H) as K. agree.
Qed.

Lemma static_member_same th fr dotted seg tid : below N (seg_texts seg) ->
  same (static_member a th fr dotted seg tid) (static_member b th fr dotted seg tid).
Proof.
  intros [H _]%below_app. unfold static_member, invoke_static_member. destruct (seg_args seg) as [args|]; [|done].
  pose proof (eval_args_same th fr args H) as K. unfold fatal. agree.
Qed.

Lemma first_answer_same f g i copies absent : (forall t, same (f t) (g t)) -> same (first_answer f i copies absent) (first_answer g i copies absent).
Proof.
  intros H. revert i absent. induction copies as [|t copies IH]; intros i absent; [done|]. cbn [first_answer].
  apply same_bind; [done|]. intros [v|[e|e]]; [done|apply IH|done].
Qed.

Definition all_below (segs : list Seg) : Prop := forall seg, seg ∈ segs -> below N (seg_texts seg).

Lemma static_from_same th fr k segs : all_below segs -> same_noted (static_from a k th fr segs) (static_from b k th fr segs).
Proof.
  intros H. induction k as [|k IH]; [done|]. cbn [static_from]. destruct (drop (S k) segs) as [|member rest] eqn:E; [done|].
  assert (below N (seg_texts member)) as Hm by (apply H; eapply elem_of_subseteq; [apply subseteq_drop|rewrite E; by left]).
  destruct (existsb _ _); [done|]. apply same_bind_noted; [done|]. intros copies. case_bool_decide; [done|].
  apply same_bind_noted; [|done]. apply same_unnoted, first_answer_same. intros t. by apply static_member_same.
Qed.

Lemma any_head_same th fr segs head_seg : all_below segs -> same_noted (resolve_any_head a th fr segs head_seg) (resolve_any_head b th fr segs head_seg).
Proof.
  intros H. unfold resolve_any_head. destruct (parse_object_handle _); [done|]. apply same_bind_noted; [done|].
  intros head_result. assert (same_noted (static_or_failure a th fr segs head_seg head_result) (static_or_failure b th fr segs head_seg head_result)) as K.
  { intros path w. unfold static_or_failure, resolve_static_head. destruct (length segs <? 2)%nat; [done|]. by rewrite static_from_same. }
  destruct head_result as [[v|e]|]; [done| |]; (apply same_bind_noted; [done|]); by intros [v|].
Qed.

Lemma chain_same th fr lazy v segs : all_below segs -> same_noted (chain_from a th fr lazy v segs) (chain_from b th fr lazy v segs).
Proof.
  revert v. induction segs as [|seg segs IH]; intros v H; [done|]. cbn [chain_from].
  assert (below N (seg_texts seg)) as Hs by (apply H; by left).
  apply same_bind_noted; [by apply same_unnoted, member_same|]. intros m. apply same_bind_noted.
  - apply subscripts_same. by apply below_app in Hs as [_ Hs].
  - intros [x|h vs ks]; [|done]. apply IH. intros y Hy. apply H. by right.
Qed.

Lemma multi_same th fr e lazy : (length e <= N)%nat -> same_noted (resolve_multi a th fr e lazy) (resolve_multi b th fr e lazy).
Proof.
  intros Hn. unfold resolve_multi. destruct (parse_expr e) as [segs|] eqn:E; [|done].
  assert (all_below segs) as H by (intros seg Hs; eapply below_weaken; [exact Hn|by eapply parse_expr_texts]).
  intros path w. cbn. destruct segs as [|head_seg segs]; [done|]. revert path w.
  change (same_noted (resolve_any_head a th fr (head_seg :: segs) head_seg ≫= (fun '(current, start) => match (head_seg :: segs) !! (start - 1)%nat with
    | None => refuse "Internal error: head resolution consumed no segments"
    | Some head_owner => r ← apply_subscripts a th fr current (seg_subs head_owner) (seg_text head_owner);
      match r with
      | One v => chain_from a th fr lazy v (drop start (head_seg :: segs))
      | Many _ _ _ => if bool_decide (drop start (head_seg :: segs) = []) then mret r else refuse (multi_then_chain_error (seg_text head_owner))
      end end))
    (resolve_any_head b th fr (head_seg :: segs) head_seg ≫= (fun '(current, start) => match (head_seg :: segs) !! (start - 1)%nat with
    | None => refuse "Internal error: head resolution consumed no segments"
    | Some head_owner => r ← apply_subscripts b th fr current (seg_subs head_owner) (seg_text head_owner);
      match r with
      | One v => chain_from b th fr lazy v (drop start (head_seg :: segs))
      | Many _ _ _ => if bool_decide (drop start (head_seg :: segs) = []) then mret r else refuse (multi_then_chain_error (seg_text head_owner))
      end end))).
  apply same_bind_noted; [by apply any_head_same|]. intros [v start]. destruct (_ !! (start - 1)%nat) as [owner|] eqn:Eo; [|done].
  apply same_bind_noted.
  - apply subscripts_same. assert (below N (seg_texts owner)) as Ho by (apply H; by eapply list_elem_of_lookup_2).
    by apply below_app in Ho as [_ Ho].
  - intros [x|h vs ks]; [|done]. apply chain_same. intros y Hy. apply H. eapply elem_of_subseteq; [apply subseteq_drop|exact Hy].
Qed.

Lemma same_unread {A} (m m' : Noted A) : same_noted m m' -> same (unread m) (unread m').
Proof. intros H w. unfold unread. by rewrite H. Qed.

Lemma one_same th fr e : (length e <= N)%nat -> same (resolve_one a th fr e) (resolve_one b th fr e).
Proof. intros Hn. apply same_try; [|done]. by apply same_unread, multi_same. Qed.

Lemma relative_from_same th v segs : all_below segs -> same_noted (relative_from a th v segs) (relative_from b th v segs).
Proof.
  revert v. induction segs as [|seg segs IH]; intros v H; [done|]. cbn [relative_from].
  assert (below N (seg_texts seg)) as Hs by (apply H; by left).
  apply same_bind_noted; [by apply same_unnoted, member_same|]. intros m. apply same_bind_noted.
  - apply subscripts_same. by apply below_app in Hs as [_ Hs].
  - intros r. apply same_bind_noted; [done|]. intros x. apply IH. intros y Hy. apply H. by right.
Qed.
Lemma relative_same th v e : (length e <= N)%nat -> same (resolve_relative_one a th v e) (resolve_relative_one b th v e).
Proof.
  intros Hn. unfold resolve_relative_one. destruct (parse_expr e) as [segs|] eqn:E; [|done].
  intros w. cbn. apply same_unread, relative_from_same. intros seg Hs. eapply below_weaken; [exact Hn|by eapply parse_expr_texts].
Qed.
End Agree.

(** ** The recursion ends *)

Section Ends.
Context `{BC : BytesCrate} `{D : Debuggee} `{FT : FloatText} `{PF : Platform}.

(** The resolver with itself inside. *)
Definition resolver : Nested := {| ns_resolve := resolve_expression; ns_relative := resolve_relative |}.

Lemma levels_agree n m e : (length e < n)%nat -> (length e < m)%nat ->
  (forall th fr, same (ns_resolve (resolve_level n) th fr e) (ns_resolve (resolve_level m) th fr e)) /\
  (forall th v, same (ns_relative (resolve_level n) th v e) (ns_relative (resolve_level m) th v e)).
Proof.
  remember (length e) as k eqn:Ek. revert e Ek n m. induction (lt_wf k) as [k _ IH]. intros e -> [|n] [|m] Hn Hm; try lia.
  cbn [resolve_level ns_resolve ns_relative].
  split; intros; [apply (one_same _ _ (length e))|apply (relative_same _ _ (length e))]; try done; intros ? ? u Hu;
    by apply (IH (length u)); try lia.
Qed.

Lemma level_is_resolver n e : (length e < n)%nat ->
  (forall th fr, same (ns_resolve (resolve_level n) th fr e) (resolve_expression th fr e)) /\
  (forall th v, same (ns_relative (resolve_level n) th v e) (resolve_relative th v e)).
Proof. intros H. exact (levels_agree n (S (length e)) e H ltac:(lia)). Qed.
End Ends.

(** C20. The resolver's recursion ends. On every text, whatever the debuggee answers, the resolver satisfies
    the equations its source writes, with itself for the expressions inside: those of arguments, of
    indices and of the filters of a subscript. No fuel beyond the length of the text is ever used, for
    the expression itself and for one resolved relative to an element; running out never happens. *)
Theorem resolve_equation `{BC : BytesCrate} `{D : Debuggee} `{FT : FloatText} `{PF : Platform} :
  (forall thread frame e w, resolve_expression thread frame e w = resolve_one resolver thread frame e w) /\
  (forall thread frame e lazy path w, resolve_expression_multi thread frame e lazy path w = resolve_multi resolver thread frame e lazy path w) /\
  (forall thread element e w, resolve_relative thread element e w = resolve_relative_one resolver thread element e w) /\
  (forall n thread frame e w, (length e <= n)%nat -> resolve_one (resolve_level n) thread frame e w = resolve_expression thread frame e w).
Proof.
  assert (forall n, (forall th fr e, (length e < n)%nat -> same (ns_resolve (resolve_level n) th fr e) (ns_resolve resolver th fr e)) /\
                    (forall th v e, (length e < n)%nat -> same (ns_relative (resolve_level n) th v e) (ns_relative resolver th v e))) as K.
  { intros n. split; [intros th fr e H; exact (proj1 (level_is_resolver n e H) th fr)|intros th v e H; exact (proj2 (level_is_resolver n e H) th v)]. }
  split_and!.
  - intros th fr e. apply (one_same _ _ (length e)); [exact (proj1 (K _))|exact (proj2 (K _))|done].
  - intros th fr e lazy. apply (multi_same _ _ (length e)); [exact (proj1 (K _))|exact (proj2 (K _))|done].
  - intros th v e. apply (relative_same _ _ (length e)); [exact (proj1 (K _))|exact (proj2 (K _))|done].
  - intros n th fr e w Hn. apply (one_same _ _ (length e)); [| |done]; intros ? ? u Hu;
      [apply (proj1 (levels_agree n (length e) u ltac:(lia) Hu))|apply (proj2 (levels_agree n (length e) u ltac:(lia) Hu))].
Qed.

(** An array 3 of the objects 1 and 2, whose [i] is 2 and 5. *)
Definition pairs_answers (set command : Z) (body : bytes) : JdwpResult (Z * bytes) :=
  let int32 := be_bytes 4 in
  let text := write_jdwp_string (BC := network_order) in
  let value := write_tagged_value (BC := network_order) in
  let id := be_val (take 8 body) in
  match set, command with
  | 9, 1 => Ok (0, 1 :: be_bytes 8 (if id =? 3 then 8 else 7))
  | 9, 2 => Ok (0, int32 1 ++ value (value_int (if id =? 1 then 2 else 5)))
  | 9, 9 => Ok (0, [0])
  | 2, 1 => Ok (0, text (if id =? 8 then "[LPair;"%string else "LPair;"%string))
  | 2, 14 => Ok (0, int32 1 ++ be_bytes 8 1 ++ text "i"%string ++ text "I"%string ++ text ""%string ++ int32 0)
  | 13, 1 => Ok (0, int32 2)
  | 13, 2 => Ok (0, 76 :: int32 2 ++ value (value_object 1) ++ value (value_object 2))
  | _, _ => Ok (99, [])
  end.

Definition no_floats : FloatText := {| show_f32 _ := ""%string; show_f64 _ := ""%string; debug_f32 _ := ""%string; debug_f64 _ := ""%string |}.
Definition no_platform : Platform := {|
  is_file _ := false; canonicalize _ := None; read_file _ := Err "absent"%string; read_to_string _ := Err "absent"%string;
  grapheme_extended _ := false; unicode_printable _ := true |}.

Lemma resolve_equation_witness :
  let e := chars_of "@0x3[?i == @0x1.i]" in
  let inner := chars_of "@0x1.i" in
  let r := resolve_expression_multi (BC := network_order) (D := answering pairs_answers) (FT := no_floats) (PF := no_platform) None None e Report [] world_init in
  fst (fst r) = Ok (Many "Pair[][?i == @0x1.i] → 1 of 2 matched" [value_object 1] []) /\
  r = resolve_multi (BC := network_order) (D := answering pairs_answers) (FT := no_floats) (PF := no_platform)
        (resolver (BC := network_order) (D := answering pairs_answers) (FT := no_floats) (PF := no_platform)) None None e Report [] world_init /\
  fst (resolve_one (BC := network_order) (D := answering pairs_answers) (FT := no_floats) (PF := no_platform)
        (resolve_level (BC := network_order) (D := answering pairs_answers) (FT := no_floats) (PF := no_platform) 50) None None inner world_init) = Ok (value_int 2).
Proof.
  cbv zeta. destruct (resolve_equation (BC := network_order) (D := answering pairs_answers) (FT := no_floats) (PF := no_platform)) as (_ & K2 & _ & K4).
  split; [by vm_compute|]. split; [apply K2|]. rewrite K4 by (vm_compute; lia). by vm_compute.
Defined.
