(* ===== verification/Looking.v ===== *)
(** * Reads that leave the debuggee as it is

    The readers and the resolver: whatever the debuggee answers, and on a connection that may write, they
    stop and start nothing and change nothing but by calling a method, and asked without a thread to call
    one on they call none. *)

From S2P Require Import Prelude Protocol Types Reader Connection Client EventRequest Api TypeGraph Generics Text Condition Expr Host EventPump Steering Locate Paths StopPoint Arming Rearm.
From S2P Require Import Reading TextArrays Structures Rendering Overloads ExprText Comparing Scans Resolve ResolveFacts.

(** Method calls, the one thing a reader with a thread may do. *)
Definition invokes (p : CommandPacket) : bool :=
  bool_decide ((cp_command_set p, cp_command p) ∈
    [(command_sets.OBJECT_REFERENCE, object_reference_commands.INVOKE_METHOD); (command_sets.CLASS_TYPE, CLASS_TYPE_INVOKE_METHOD)]).

(** What may be offered to the wire: nothing that stops or starts a thread, and nothing that changes the
    debuggee but, where [may_invoke], a method call. *)
Definition inspects (may_invoke : bool) (p : CommandPacket) : Prop :=
  steers p = false /\ (harmless p \/ may_invoke = true /\ invokes p = true).
Definition looks (may_invoke : bool) : relation World := sends (inspects may_invoke).

#[global] Instance looks_preorder may_invoke : PreOrder (looks may_invoke).
Proof. split; [intros w; apply sends_refl|intros w1 w2 w3; apply sends_trans]. Qed.

#[global] Instance Looks_with_types may_invoke f : Respects (looks may_invoke) (modify (with_types f)).
Proof. intros w. exists []. rewrite app_nil_r. split_and!; done || constructor. Qed.

(** A reader given a thread may call methods on it; without one it may be held to calling none. *)
Class May (may_invoke : bool) (thread : option Z) : Prop := may : thread <> None -> may_invoke = true.
#[global] Instance may_none may_invoke : May may_invoke None.
Proof. by intros ?. Qed.
#[global] Instance may_any thread : May true thread.
Proof. by intros ?. Qed.
Lemma may_case may_invoke thread t : thread = Some t -> May may_invoke thread -> May may_invoke (Some t).
Proof. by intros <-. Qed.
#[export] Hint Extern 2 (May _ (Some _)) => (eapply may_case; [eassumption|]) : typeclass_instances.

(** ** The other monads: one more state beside the connection *)

Section States.
Context (Q : relation World) `{PreOrder World Q}.

Lemma Respects_f_bind {A B} (m : F A) (k : A -> F B) s :
  Respects Q (m s) -> (forall a s, Respects Q (k a s)) -> Respects Q ((m ≫= k) s).
Proof.
  intros Hm Hk w. unfold mbind, f_bind. specialize (Hm w). destruct (m s w) as [[a s1] w1]; simpl in *.
  transitivity w1; [done|apply Hk].
Qed.
Lemma Respects_w_bind {A B} (m : W A) (k : A -> W B) s :
  Respects Q (m s) -> (forall a s, Respects Q (k a s)) -> Respects Q ((m ≫= k) s).
Proof.
  intros Hm Hk w. unfold mbind, w_bind. specialize (Hm w). destruct (m s w) as [[[[a|why]|e] s1] w1]; simpl in *; [|done..].
  transitivity w1; [done|apply Hk].
Qed.
Lemma Respects_noted_bind {A B} (m : Noted A) (k : A -> Noted B) s :
  Respects Q (m s) -> (forall a s, Respects Q (k a s)) -> Respects Q ((m ≫= k) s).
Proof.
  intros Hm Hk w. unfold mbind, noted_bind. specialize (Hm w). destruct (m s w) as [[[a|e] s1] w1]; simpl in *; [|done].
  transitivity w1; [done|apply Hk].
Qed.
Lemma Respects_deep_bind {A B} (m : Deep A) (k : A -> Deep B) s :
  Respects Q (m s) -> (forall a s, Respects Q (k a s)) -> Respects Q ((m ≫= k) s).
Proof.
  intros Hm Hk w. unfold mbind, deep_bind. specialize (Hm w). destruct (m s w) as [[a s1] w1]; simpl in *.
  transitivity w1; [done|apply Hk].
Qed.

Lemma Respects_keep {S A B} (m : World -> A * World) (f : A -> B) (g : A -> S) :
  Respects Q m -> Respects Q (fun w => let '(a, w) := m w in (f a, g a, w)).
Proof. intros Hm w. specialize (Hm w). by destruct (m w). Qed.
Lemma Respects_quietly {S A} (a : A) (s : S) : Respects Q (fun w => (a, s, w)).
Proof. intros w. simpl. reflexivity. Qed.

#[global] Instance Respects_f_ret {A} (a : A) s : Respects Q ((mret a : F A) s).
Proof. intros w. simpl. reflexivity. Qed.
#[global] Instance Respects_w_ret {A} (a : A) s : Respects Q ((mret a : W A) s).
Proof. intros w. simpl. reflexivity. Qed.
#[global] Instance Respects_noted_ret {A} (a : A) s : Respects Q ((mret a : Noted A) s).
Proof. intros w. simpl. reflexivity. Qed.
#[global] Instance Respects_deep_ret {A} (a : A) s : Respects Q ((mret a : Deep A) s).
Proof. intros w. simpl. reflexivity. Qed.

#[global] Instance Respects_on_conn {A} (m : St A) s : Respects Q m -> Respects Q (on_conn m s).
Proof. apply (Respects_keep m (fun a => a) (fun _ => s)). Qed.
#[global] Instance Respects_walk_it {A} (m : F A) s : Respects Q (m s) -> Respects Q (walk m s).
Proof. intros Hm w. unfold walk. specialize (Hm w). by destruct (m s w) as [[? ?] ?]. Qed.
#[global] Instance Respects_need {A} why (m : F (option A)) s : Respects Q (m s) -> Respects Q (need why m s).
Proof. intros Hm w. unfold need. specialize (Hm w). by destruct (m s w) as [[? ?] ?]. Qed.
#[global] Instance Respects_decline {A} why s : Respects Q ((decline why : W A) s).
Proof. intros w. simpl. reflexivity. Qed.
#[global] Instance Respects_fail {A} e s : Respects Q ((fail e : W A) s).
Proof. intros w. simpl. reflexivity. Qed.
#[global] Instance Respects_failing {A} what (m : M A) : Respects Q m -> Respects Q (failing what m).
Proof. intros Hm. unfold failing. apply _. Qed.
#[global] Instance Respects_failing_in {A} before after (m : M A) : Respects Q m -> Respects Q (failing_in before after m).
Proof. intros Hm. unfold failing_in. apply _. Qed.
#[global] Instance Respects_st_ok {A} (m : M A) : Respects Q m -> Respects Q (st_ok m).
Proof. intros Hm. unfold st_ok. apply _. Qed.
#[global] Instance Respects_st_or {A} (d : A) (m : M A) : Respects Q m -> Respects Q (st_or d m).
Proof. intros Hm. unfold st_or. apply _. Qed.
#[global] Instance Respects_call_it {A} what (m : M A) s : Respects Q m -> Respects Q (call what m s).
Proof. intros Hm w. unfold call. pose proof (Respects_failing what m Hm w). by destruct (failing what m w). Qed.
#[global] Instance Respects_st_try {E A B} (m : St (result E A)) (k : A -> St (result E B)) :
  Respects Q m -> (forall a, Respects Q (k a)) -> Respects Q (st_try m k).
Proof. intros Hm Hk. unfold st_try. apply Respects_st_bind; [done..|]. intros [a|e]; [apply Hk|apply _]. Qed.
#[global] Instance Respects_st_some {A B} (m : St (option A)) (k : A -> St (option B)) :
  Respects Q m -> (forall a, Respects Q (k a)) -> Respects Q (st_some m k).
Proof. intros Hm Hk. unfold st_some. apply Respects_st_bind; [done..|]. intros [a|]; [apply Hk|apply _]. Qed.
#[global] Instance Respects_unnoted {A} (m : St (result string A)) s : Respects Q m -> Respects Q (unnoted m s).
Proof. apply (Respects_keep m (fun a => a) (fun _ => s)). Qed.
#[global] Instance Respects_quiet_ {A} (m : St A) s : Respects Q m -> Respects Q (quiet m s).
Proof. apply (Respects_keep m Ok (fun _ => s)). Qed.
#[global] Instance Respects_noting f s : Respects Q (noting f s).
Proof. intros w. simpl. reflexivity. Qed.
#[global] Instance Respects_refuse {A} e s : Respects Q ((refuse e : Noted A) s).
Proof. intros w. simpl. reflexivity. Qed.
#[global] Instance Respects_given_or {A} e (o : option A) s : Respects Q (given_or e o s).
Proof. destruct o; apply _. Qed.
#[global] Instance Respects_with_ids {A} ids (m : W A) s : Respects Q (m ids) -> Respects Q (with_ids ids m s).
Proof. intros Hm w. unfold with_ids. specialize (Hm w). by destruct (m ids w) as [[? ?] ?]. Qed.
#[global] Instance Respects_on_wire {A} (m : St A) s : Respects Q m -> Respects Q (on_wire m s).
Proof. apply (Respects_keep m (fun a => a) (fun _ => s)). Qed.
#[global] Instance Respects_reading {A} (m : ValueReads -> St A) s : (forall r, Respects Q (m r)) -> Respects Q (reading m s).
Proof. intros Hm w. unfold reading. specialize (Hm (dp_reads s) w). by destruct (m _ w). Qed.
#[global] Instance Respects_deep_state_is s : Respects Q (deep_state_is s).
Proof. intros w. simpl. reflexivity. Qed.
#[global] Instance Respects_change f s : Respects Q (change f s).
Proof. intros w. simpl. reflexivity. Qed.
#[global] Instance Respects_try_map {A B} (f : A -> St (result string B)) l : (forall a, Respects Q (f a)) -> Respects Q (try_map f l).
Proof. intros Hf. induction l as [|a l IH]; cbn [try_map]; apply _. Qed.
End States.

(** Down the binds and the cases of a reader. *)
Ltac reads_step :=
  cbv beta zeta;
  lazymatch goal with
  | |- forall _, _ => intros
  | |- Respects _ (@mbind _ _ _ _ _ _) => first [simple apply Respects_st_bind | simple apply Respects_bind]
  | |- Respects _ (@mbind _ _ _ _ _ _ _) =>
    first [simple apply Respects_f_bind | simple apply Respects_w_bind | simple apply Respects_noted_bind | simple apply Respects_deep_bind]
  | |- Respects _ (@mret _ _ _ _) => first [simple apply Respects_st_ret | simple apply Respects_ret]
  | |- Respects _ (@mret _ _ _ _ _) =>
    first [simple apply Respects_f_ret | simple apply Respects_w_ret | simple apply Respects_noted_ret | simple apply Respects_deep_ret]
  | |- Respects _ (st_try _ _) => simple apply Respects_st_try
  | |- Respects _ (st_some _ _) => simple apply Respects_st_some
  | |- Respects _ (walk _ _) => simple apply Respects_walk_it
  | |- Respects _ (on_conn _ _) => simple apply Respects_on_conn
  | |- Respects _ (on_wire _ _) => simple apply Respects_on_wire
  | |- Respects _ (reading _ _) => simple apply Respects_reading
  | |- Respects _ (quiet _ _) => simple apply Respects_quiet_
  | |- Respects _ (unnoted _ _) => simple apply Respects_unnoted
  | |- Respects _ (st_map _ _) => simple apply Respects_st_map
  | |- Respects _ (match _ with _ => _ end) => case_match
  | |- Respects _ ((match _ with _ => _ end) _) => case_match
  | |- _ => typeclasses eauto
  end.
Ltac reads := repeat reads_step.

(** ** The calls of the client *)

Section Calls.
Context `{BC : BytesCrate} `{D : Debuggee} (may_invoke : bool).
Abbreviation U := (Respects (looks may_invoke)).

#[global] Instance Looks_exchange packet : MakesPacket packet -> MakesHarmless packet -> MakesSteady packet -> U (exchange packet).
Proof. intros Hp Hh Hs w. apply exchange_sends; [apply send_command_one|done|]. split; [apply Hs|left; apply Hh]. Qed.
#[global] Instance Looks_wave {A B} (request_of : A -> St CommandPacket) (decode_reply : ReplyPacket -> JdwpResult B) l :
  (forall a, MakesPacket (request_of a)) -> (forall a, MakesHarmless (request_of a)) -> (forall a, MakesSteady (request_of a)) -> U (wave request_of decode_reply l).
Proof. intros Hm Hh Hs w. apply wave_sends; [done|]. intros a w'. split; [apply (Hs a)|left; apply (Hh a)]. Qed.

#[global] Instance Looks_methods t b : U (read_methods t b).
Proof. unfold read_methods. destruct b; apply _. Qed.
#[global] Instance Looks_fields t b : U (read_fields t b).
Proof. unfold read_fields. destruct b; apply _. Qed.
#[global] Instance Looks_get_methods t : U (get_methods t).
Proof. unfold get_methods. reads. Qed.
#[global] Instance Looks_get_fields t : U (get_fields t).
Proof. unfold get_fields. reads. Qed.
#[global] Instance Looks_signature t : U (get_signature t).
Proof. unfold get_signature. reads. Qed.
#[global] Instance Looks_superclass t : U (get_superclass t).
Proof. unfold get_superclass. reads. Qed.
#[global] Instance Looks_interfaces t : U (get_interfaces t).
Proof. unfold get_interfaces. reads. Qed.
#[global] Instance Looks_type_of o : U (get_object_reference_type o).
Proof. unfold get_object_reference_type. apply _. Qed.
#[global] Instance Looks_string o : U (get_string_value o).
Proof. unfold get_string_value. apply _. Qed.
#[global] Instance Looks_length o : U (get_array_length o).
Proof. unfold get_array_length. apply _. Qed.
#[global] Instance Looks_region o i n : U (get_array_values o i n).
Proof. unfold get_array_values. apply _. Qed.
#[global] Instance Looks_values o fs : U (get_object_values o fs).
Proof. unfold get_object_values. apply _. Qed.
#[global] Instance Looks_statics o fs : U (get_reference_values o fs).
Proof. unfold get_reference_values. apply _. Qed.
#[global] Instance Looks_collected o : U (is_collected o).
Proof. unfold is_collected. apply _. Qed.
#[global] Instance Looks_this t f : U (get_this_object t f).
Proof. unfold get_this_object. apply _. Qed.
#[global] Instance Looks_frame_values t f slots : U (get_frame_values t f slots).
Proof. unfold get_frame_values. apply _. Qed.
#[global] Instance Looks_variables t m : U (get_variable_table t m).
Proof. unfold get_variable_table. apply Respects_fallback; [apply _|]. intros b. unfold read_variable_table, variable_table_request. destruct b; apply _. Qed.
#[global] Instance Looks_create_string s : U (create_string s).
Proof. unfold create_string. apply _. Qed.
#[global] Instance Looks_classes s : U (classes_by_signature s).
Proof. unfold classes_by_signature. apply _. Qed.
#[global] Instance Looks_all_classes : U all_classes.
Proof. unfold all_classes. apply _. Qed.
#[global] Instance Looks_supertypes fuel wanted seen stack : U (walk_supertypes fuel wanted seen stack).
Proof. revert seen stack. induction fuel as [|fuel IH]; intros seen [|current stack]; cbn [walk_supertypes]; apply _. Qed.
#[global] Instance Looks_implements t i : U (implements_interface t i).
Proof. unfold implements_interface. apply _. Qed.
#[global] Instance Looks_strings ids : U (read_string_values_independently ids).
Proof. unfold read_string_values_independently. apply _. Qed.
#[global] Instance Looks_types ids : U (read_reference_types_independently ids).
Proof. unfold read_reference_types_independently. apply _. Qed.

(** ** The readers *)

#[global] Instance Looks_climb {E A} n c (visit : Z -> St (result E (option A))) : (forall t, U (visit t)) -> U (climb n c visit).
Proof. intros Hv. revert c. induction n as [|n IH]; intros [c|]; cbn [climb]; reads. Qed.
#[local] Opaque climb.
#[global] Instance Looks_find_method t name n : U (find_method_arity t name n).
Proof. unfold find_method_arity. reads. Qed.
#[global] Instance Looks_find_field t name : U (find_field t name).
Proof. unfold find_field. reads. Qed.
#[global] Instance Looks_find_static t name : U (find_static_field t name).
Proof. unfold find_static_field. reads. Qed.
#[global] Instance Looks_field_info t name s : U (find_field_info t name s).
Proof.
  unfold find_field_info. generalize 50%nat as n. intros n. revert t. induction n as [|n IH]; intros t; cbn [find_field_from]; reads.
Qed.
#[global] Instance Looks_instance_fields t : U (collect_instance_fields t).
Proof.
  unfold collect_instance_fields. generalize CHAIN_GUARD (Some t) (@nil FieldInfo). intros n. induction n as [|n IH]; intros [c|] out; cbn [instance_fields_from]; reads.
Qed.
#[global] Instance Looks_type_name o : U (type_name_of o).
Proof. unfold type_name_of. reads. Qed.
#[global] Instance Looks_fetch {A} read ids (m : gmap Z (option A)) : (forall ids, U (read ids)) -> U (fetch read ids m).
Proof. intros. unfold fetch. reads. Qed.
#[global] Instance Looks_extend values r : U (extend_committed values r).
Proof. unfold extend_committed. reads. Qed.
#[global] Instance Looks_contents r id : U (string_contents r id).
Proof. unfold string_contents. reads. Qed.
#[global] Instance Looks_reference_type r id : U (reference_type r id).
Proof. unfold reference_type. reads. Qed.
#[global] Instance Looks_boxed_value r id f : U (boxed_value r id f).
Proof. unfold boxed_value. reads. Qed.
#[global] Instance Looks_boxed_field t name : U (boxed_value_field t name).
Proof. unfold boxed_value_field. reads. Qed.
#[global] Instance Looks_loader o : U (get_class_loader o).
Proof. unfold get_class_loader. apply _. Qed.
#[global] Instance Looks_label o : U (loader_label o).
Proof. unfold loader_label. reads. Qed.
#[global] Instance Looks_loaders ids : U (describe_class_loaders ids).
Proof. unfold describe_class_loaders. generalize 0. induction ids as [|id ids IH]; intros n; cbn [describe_loaders_from]; reads. Qed.
#[global] Instance Looks_copies dotted : U (resolve_class_copies_by_dotted dotted).
Proof.
  unfold resolve_class_copies_by_dotted. destruct (split_loader_selector dotted) as [name loader].
  assert (forall l, U (first_loaded name loader l)) by (induction l; cbn [first_loaded]; reads). reads.
Qed.

(** ** The state of an association, and text *)

#[global] Instance Looks_initializer names o t : U (lazy_initializer_in names o t).
Proof. induction names as [|name names IH]; cbn [lazy_initializer_in]; reads. Qed.
Context `{FT : FloatText}.
#[global] Instance Looks_flag o : U (read_initialized_flag o).
Proof. unfold read_initialized_flag. reads. Qed.
#[global] Instance Looks_one t ifaces : U (implements_one t ifaces).
Proof. induction ifaces as [|i ifaces IH]; cbn [implements_one]; reads. Qed.
#[global] Instance Looks_declares t name : U (declares_field t name).
Proof. unfold declares_field. reads. Qed.
#[global] Instance Looks_text id sig n how : U (render_text_array id sig n how).
Proof. unfold render_text_array. reads. Qed.

(** ** The four layouts *)

#[global] Instance Looks_layout t : U (recognise_layout t).
Proof. unfold recognise_layout. reads. Qed.
#[global] Instance Looks_field_id t name s : U (field_id t name s).
Proof.
  intros w. unfold field_id. destruct (fid_ids s !! (t, name)); [apply sends_refl|].
  pose proof (Looks_find_field t name w) as H. by destruct (find_field t name w).
Qed.
#[global] Instance Looks_field_ids t names s : U (field_ids t names s).
Proof. revert s. induction names as [|name names IH]; intros s; cbn [field_ids]; reads. Qed.
#[global] Instance Looks_type_of_object o s : U (type_of_object o s).
Proof.
  assert (U (on_conn (st_ok (get_object_reference_type o)) s)) as H by apply _. intros w. unfold type_of_object.
  destruct (fid_known s) as [[rooted t]|]; [destruct (rooted =? o); [apply sends_refl|]|]; apply H.
Qed.
#[global] Instance Looks_fields_of o names s : U (read_fields_of o names s).
Proof. unfold read_fields_of. reads. Qed.
#[global] Instance Looks_boxed_data o s : U (boxed_data o s).
Proof. unfold boxed_data. reads. Qed.
#[global] Instance Looks_key_matches v k s : U (key_matches v k s).
Proof. unfold key_matches. reads. Qed.
#[global] Instance Looks_bin_lookup n c h k f s : U (bin_lookup_from n c h k f s).
Proof. revert c s. induction n as [|n IH]; intros [c|] s; cbn [bin_lookup_from]; reads. Qed.
#[global] Instance Looks_bin_collect n c f cap out s : U (bin_collect_from n c f cap out s).
Proof. revert c out s. induction n as [|n IH]; intros [c|] out s; cbn [bin_collect_from]; reads. Qed.
#[global] Instance Looks_map_table o names s : U (map_table o names s).
Proof. unfold map_table. reads. Qed.
#[global] Instance Looks_hash_lookup o k s : U (hash_map_lookup o k s).
Proof. unfold hash_map_lookup, bin_lookup. reads. Qed.
#[global] Instance Looks_chm_bin o s : U (chm_bin o s).
Proof. unfold chm_bin. reads. Qed.
#[global] Instance Looks_chm_in n t h k s : U (chm_lookup_in n t h k s).
Proof. revert t s. induction n as [|n IH]; intros t s; cbn [chm_lookup_in]; unfold bin_lookup; reads. Qed.
#[global] Instance Looks_chm_lookup o k s : U (chm_lookup o k s).
Proof. unfold chm_lookup. reads. Qed.
#[global] Instance Looks_backing o s : U (array_list_backing o s).
Proof. unfold array_list_backing. reads. Qed.
#[global] Instance Looks_list_at o i label s : U (array_list_at o i label s).
Proof. unfold array_list_at. reads. Qed.
#[global] Instance Looks_hash_bins heads cap out s : U (hash_bins heads cap out s).
Proof. revert out s. induction heads as [|h heads IH]; intros out s; cbn [hash_bins]; unfold bin_collect; reads. Qed.
#[global] Instance Looks_chm_bins heads cap out s : U (chm_collect_bins heads cap out s).
Proof. revert out s. induction heads as [|h heads IH]; intros out s; cbn [chm_collect_bins]; unfold bin_collect; reads. Qed.
#[global] Instance Looks_chunks n collect t len slot cap out s :
  (forall heads cap out s, U (collect heads cap out s)) -> U (table_chunks n collect t len slot cap out s).
Proof. intros Hc. revert slot out s. induction n as [|n IH]; intros slot out s; cbn [table_chunks]; reads. Qed.
#[global] Instance Looks_hash_entries o s : U (hash_map_entries o s).
Proof. unfold hash_map_entries, whole_table. reads. Qed.
#[global] Instance Looks_linked n c out s : U (linked_from n c out s).
Proof. revert c out s. induction n as [|n IH]; intros [c|] out s; cbn [linked_from]; reads. Qed.
#[global] Instance Looks_linked_entries o s : U (linked_map_entries o s).
Proof. unfold linked_map_entries. reads. Qed.
#[global] Instance Looks_cells cells n s : U (add_cells cells n s).
Proof. revert n s. induction cells as [|c cells IH]; intros n s; cbn [add_cells]; reads. Qed.
#[global] Instance Looks_chm_size o s : U (chm_size o s).
Proof. unfold chm_size. reads. Qed.
#[global] Instance Looks_chm_entries o s : U (chm_entries o s).
Proof. unfold chm_entries, whole_table. reads. Qed.
#[global] Instance Looks_entries l o s : U (map_entries l o s).
Proof. destruct l; apply _. Qed.

(** ** Calls of methods *)

#[global] Instance Looks_guard what : U (guard_mutation what).
Proof.
  intros w. unfold guard_mutation, mbind, m_bind, lift, is_read_only, gets, of_result. destruct (w_read_only w); apply sends_refl.
Qed.
Lemma Looks_exchange_invoke th {Hth : May may_invoke (Some th)} packet :
  MakesPacket packet -> MakesSteady packet -> (forall w, invokes (fst (packet w)) = true) -> U (exchange_invoke packet).
Proof.
  intros Hp Hs Hi w. apply exchange_sends; [apply send_invoke_one|done|]. split; [apply Hs|right]. split; [by apply Hth|apply Hi].
Qed.
#[global] Instance Looks_invoke o tid c m args {Hth : May may_invoke (Some tid)} : U (invoke_method o tid c m args).
Proof.
  unfold invoke_method. apply Respects_bind; try apply _. intros _. apply Respects_bind; try apply _.
  apply (Looks_exchange_invoke tid); try apply _. done.
Qed.
#[global] Instance Looks_invoke_static c tid m args {Hth : May may_invoke (Some tid)} : U (invoke_static_method c tid m args).
Proof.
  unfold invoke_static_method. apply Respects_bind; try apply _. intros _. apply Respects_bind; try apply _.
  apply (Looks_exchange_invoke tid); try apply _. done.
Qed.
#[global] Instance Looks_no_arg o t tid name {Hth : May may_invoke (Some tid)} : U (invoke_no_arg o t tid name).
Proof. unfold invoke_no_arg. reads. Qed.
#[global] Instance Looks_tostring o t tid name n {Hth : May may_invoke (Some tid)} : U (render_via_tostring o t tid name n).
Proof. unfold render_via_tostring. reads. Qed.
#[global] Instance Looks_entry_pair v tid {Hth : May may_invoke (Some tid)} : U (entry_pair v tid).
Proof. unfold entry_pair. reads. Qed.
#[global] Instance Looks_array_of o t tid m {Hth : May may_invoke (Some tid)} : U (array_of o t tid m).
Proof. unfold array_of. reads. Qed.

(** ** Rendering *)

#[global] Instance Looks_element v how : U (render_element v how).
Proof. unfold render_element. reads. Qed.
#[global] Instance Looks_array o name how : U (render_array o name how).
Proof. unfold render_array. reads. Qed.
#[global] Instance Looks_boxed r o t name : U (render_boxed_primitive r o t name).
Proof. unfold render_boxed_primitive. reads. Qed.
#[global] Instance Looks_lazy o t : U (hibernate_lazy_state o t).
Proof. unfold hibernate_lazy_state, read_lazy_initializer. reads. Qed.
#[global] Instance Looks_plain th {Hth : May may_invoke th} r o t name n : U (render_plain_object r o t name th n).
Proof. unfold render_plain_object. reads. Qed.
#[global] Instance Looks_resolved th {Hth : May may_invoke th} r o t sig name tag n how : U (render_resolved_object r o t sig name tag th n how).
Proof. unfold render_resolved_object. reads. Qed.
#[global] Instance Looks_object th {Hth : May may_invoke th} r o tag n how : U (render_object r o tag th n how).
Proof. unfold render_object. reads. Qed.
#[global] Instance Looks_value th {Hth : May may_invoke th} v n how : U (render_value v th n how).
Proof. unfold render_value, render_value_committed. reads. Qed.
#[global] Instance Looks_classify t name : U (classify_container t name).
Proof. unfold classify_container. reads. Qed.

Section Level.
Context (opts : DeepOpts) (child : Value -> option Z -> Deep string) (depth : nat) (Hc : forall v th s, May may_invoke th -> U (child v th s)).

#[local] Instance Looks_commit vs n d s : U (commit_children opts vs n d s).
Proof.
  intros w. unfold commit_children.
  match goal with |- context [extend_committed ?vs ?r w] => pose proof (Looks_extend vs r w) as H; by destruct (extend_committed vs r w) end.
Qed.
#[local] Instance Looks_field_lines th {Hth : May may_invoke th} l out s : U (field_lines child depth l th out s).
Proof. revert out s. induction l as [|[f v] l IH]; intros out s; cbn [field_lines]; reads. Qed.
#[local] Instance Looks_element_lines th {Hth : May may_invoke th} i l out s : U (element_lines child depth i l th out s).
Proof. revert i out s. induction l as [|v l IH]; intros i out s; cbn [element_lines]; reads. Qed.
#[local] Instance Looks_pair_lines th {Hth : May may_invoke th} l out s : U (pair_lines child depth l th out s).
Proof. revert out s. induction l as [|v l IH]; intros out s; cbn [pair_lines]; unfold entry_line; reads. Qed.
#[local] Instance Looks_entry_lines l tid out s {Hth : May may_invoke (Some tid)} : U (entry_lines child depth l tid out s).
Proof. revert out s. induction l as [|v l IH]; intros out s; cbn [entry_lines]; unfold entry_line; reads. Qed.
#[local] Instance Looks_block th {Hth : May may_invoke th} header arr len s : U (render_indexed_block opts child depth header arr len th s).
Proof. unfold render_indexed_block. reads. Qed.
#[local] Instance Looks_array_deep th {Hth : May may_invoke th} o name s : U (render_array_deep opts child depth o name th s).
Proof. unfold render_array_deep. reads. Qed.
#[local] Instance Looks_fields_deep th {Hth : May may_invoke th} o t name s : U (render_fields_deep opts child depth o t name th s).
Proof. unfold render_fields_deep. reads. Qed.
#[local] Instance Looks_run {A} (m : W A) ids s : U (m ids) -> U (on_wire (fun w => let '(r, _, w) := m ids w in (r, w)) s).
Proof. intros H. apply Respects_on_wire. intros w. specialize (H w). by destruct (m ids w) as [[? ?] ?]. Qed.
#[local] Instance Looks_list_deep th {Hth : May may_invoke th} o t name s : U (render_list_deep opts child depth o t name th s).
Proof. unfold render_list_deep. apply (Respects_deep_bind (looks may_invoke)); [apply (Looks_run (array_list_backing o)); apply _|]. reads. Qed.
#[local] Instance Looks_layout_deep th {Hth : May may_invoke th} o t l name s : U (render_layout_deep opts child depth o t l name th s).
Proof.
  unfold render_layout_deep. destruct l; [| | |apply _].
  all: apply (Respects_deep_bind (looks may_invoke)); [apply (Looks_run (map_entries _ o)); apply _|]; reads.
Qed.
#[local] Instance Looks_note f s : U (note_read f s).
Proof. unfold note_read. apply _. Qed.
#[local] Instance Looks_collection o t name tid kind s {Hth : May may_invoke (Some tid)} : U (render_collection_deep opts child depth o t name tid kind s).
Proof. destruct kind; simpl; unfold render_elements_deep, render_map_deep, render_optional_deep; reads. Qed.
#[local] Instance Looks_by_kind th {Hth : May may_invoke th} o t name declined s : U (expand_by_kind opts child depth o t name th declined s).
Proof. unfold expand_by_kind. reads. Qed.
Lemma Looks_expand th {Hth : May may_invoke th} o t sig name tag s : U (expand_object opts child depth o t sig name tag th s).
Proof. unfold expand_object. reads. Qed.
End Level.

#[global] Instance Looks_node th {Hth : May may_invoke th} opts levels v depth s : U (render_node opts levels v th depth s).
Proof.
  revert th Hth v depth s. induction levels as [|levels IH]; intros th Hth v depth s; cbn [render_node];
    repeat first [reads_step | apply Looks_expand].
Qed.
#[global] Instance Looks_value_deep th {Hth : May may_invoke th} opts v : U (render_value_deep opts v th).
Proof.
  intros w. unfold render_value_deep.
  pose proof (Looks_node th opts (do_depth_limit opts) v 0 (deep_state DEEP_NODE_BUDGET) w) as H.
  by destruct (render_node _ _ _ _ _ _ w) as [[? ?] ?].
Qed.
#[global] Instance Looks_one_value th {Hth : May may_invoke th} v n deep how : U (render_one v th n deep how).
Proof. unfold render_one. reads. Qed.
End Calls.

(** ** Resolving *)

#[local] Opaque climb.

Section Resolving.
Context `{BC : BytesCrate} `{D : Debuggee} `{FT : FloatText} `{PF : Platform} (may_invoke : bool).
Abbreviation U := (Respects (looks may_invoke)).

#[global] Instance Looks_list_index o k label s : U (array_list_index o k label s).
Proof. unfold array_list_index. reads. Qed.
#[global] Instance Looks_index o l k label s : U (structural_index o l k label s).
Proof. unfold structural_index. reads. Qed.
#[global] Instance Looks_key th {Hth : May may_invoke th} v : U (rendered_key th v).
Proof. unfold rendered_key. apply _. Qed.
#[global] Instance Looks_list_scan o name s : U (array_list_scan o name s).
Proof. unfold array_list_scan. reads. Qed.
#[global] Instance Looks_scan_structure th {Hth : May may_invoke th} o l name s : U (structural_scan o l th name s).
Proof. unfold structural_scan. reads. Qed.
#[global] Instance Looks_scan_array o label name : U (scan_array o label name).
Proof. unfold scan_array, first_elements. reads. Qed.
#[global] Instance Looks_try {A} l name (walk_it : Layout -> W A) s : (forall l s, U (walk_it l s)) -> U (try_structural l name walk_it s).
Proof. intros H. unfold try_structural. reads. Qed.
#[global] Instance Looks_note_fallback name declined s : U (note_fallback name declined s).
Proof. unfold note_fallback. apply _. Qed.

(** A collection that has to be asked is asked on the thread there is, if any. *)
Lemma Looks_given {B} th {Hth : May may_invoke th} e (k : Z -> Noted B) s :
  (forall tid s, May may_invoke (Some tid) -> U (k tid s)) -> U ((given_or e th ≫= k) s).
Proof.
  intros Hk. destruct th as [tid|]; [|intros w; apply sends_refl]. apply (Respects_noted_bind (looks may_invoke)); [apply _|].
  intros tid' s'. apply Hk. intros _. by apply Hth.
Qed.
#[global] Instance Looks_read_entries tid l {Hth : May may_invoke (Some tid)} : U (read_entries tid l).
Proof. induction l as [|e l IH]; cbn [read_entries]; reads. Qed.
#[global] Instance Looks_scan_entries o t tid label name {Hth : May may_invoke (Some tid)} : U (scan_map_entries o t tid label name).
Proof. unfold scan_map_entries, returned_object, first_elements. reads. Qed.
#[global] Instance Looks_by_invoking tid o t label name maps {Hth : May may_invoke (Some tid)} : U (scan_by_invoking tid o t label name maps).
Proof. unfold scan_by_invoking, returned_object. reads. Qed.
#[global] Instance Looks_scan th {Hth : May may_invoke th} v label maps s : U (scan_elements th v label maps s).
Proof. unfold scan_elements. repeat first [apply (Looks_given th) | reads_step]. Qed.
#[global] Instance Looks_range th {Hth : May may_invoke th} v a b label s : U (apply_range th v a b label s).
Proof. unfold apply_range. reads. Qed.

#[global] Instance Looks_handle_tag o : U (handle_tag o).
Proof. unfold handle_tag. reads. Qed.
#[global] Instance Looks_handle o : U (resolve_object_handle o).
Proof. unfold resolve_object_handle. reads. Qed.
#[global] Instance Looks_not_found fr name : U (bare_name_not_found fr name).
Proof. unfold bare_name_not_found. reads. Qed.
#[global] Instance Looks_index_array o k label : U (index_array o k label).
Proof. unfold index_array. reads. Qed.
#[global] Instance Looks_field_value o t name : U (field_value o t name).
Proof. unfold field_value. reads. Qed.
#[global] Instance Looks_segment_field o t seg : U (read_segment_field o t seg).
Proof. unfold read_segment_field. reads. Qed.
#[global] Instance Looks_fatal {A} (m : St (result string A)) : U m -> U (fatal m).
Proof. intros H. unfold fatal. reads. Qed.
#[global] Instance Looks_static_field t dotted name : U (read_static_field t dotted name).
Proof. unfold read_static_field. reads. Qed.
#[global] Instance Looks_string_value o : U (string_value_of o).
Proof. unfold string_value_of. reads. Qed.
#[global] Instance Looks_compare_object o op l : U (compare_object o op l).
Proof. unfold compare_object. reads. Qed.
#[global] Instance Looks_compare_values v op l : U (compare_values v op l).
Proof. unfold compare_values. reads. Qed.
#[global] Instance Looks_compare_resolved v op r : U (compare_resolved v op r).
Proof. unfold compare_resolved. reads. Qed.
#[global] Instance Looks_receiver o t seg lazy : U (check_lazy_receiver o t seg lazy).
Proof. unfold check_lazy_receiver. reads. Qed.
#[global] Instance Looks_everywhere dotted absent copies : U (absent_everywhere dotted absent copies).
Proof. unfold absent_everywhere. reads. Qed.
#[global] Instance Looks_first_answer f i copies absent : (forall t, U (f t)) -> U (first_answer f i copies absent).
Proof. intros H. revert i absent. induction copies as [|t copies IH]; intros i absent; cbn [first_answer]; reads. Qed.

#[global] Instance Looks_signatures n c : U (signature_chain n c).
Proof. revert c. induction n as [|n IH]; intros [c|]; cbn [signature_chain]; reads. Qed.
#[global] Instance Looks_arg_type v : U (arg_type v).
Proof. unfold arg_type. reads. Qed.
#[global] Instance Looks_assignable p a : U (assignable p a).
Proof. unfold assignable. reads. Qed.
#[global] Instance Looks_settle l n : U (settle_params l n).
Proof. revert n. induction l as [|[p a] l IH]; intros n; cbn [settle_params]; reads. Qed.
#[global] Instance Looks_unsettled l ts r : U (resolve_unsettled_from l ts r).
Proof. revert r. induction l as [|[t m] l IH]; intros r; cbn [resolve_unsettled_from]; reads. Qed.
#[global] Instance Looks_overloads n c name ts st cs : U (overloads_from n c name ts st cs).
Proof. revert c cs. induction n as [|n IH]; intros [c|] cs; cbn [overloads_from]; reads. Qed.
#[global] Instance Looks_for_args t name args st : U (find_method_for_args t name args st).
Proof. unfold find_method_for_args, resolve_unsettled. reads. Qed.
#[global] Instance Looks_box tid v {Hth : May may_invoke (Some tid)} : U (box_primitive tid v).
Proof. unfold box_primitive, resolve_class_by_dotted. reads. Qed.
#[global] Instance Looks_coerce i tid ps args {Hth : May may_invoke (Some tid)} : U (coerce_from i tid ps args).
Proof. revert i. induction args as [|v args IH]; intros i; cbn [coerce_from]; reads. Qed.
#[global] Instance Looks_hinting {A} what (m : M A) : U m -> U (hinting what m).
Proof. intros H. unfold hinting. reads. Qed.

#[global] Instance Looks_this_value tid fr : U (read_this tid fr).
Proof. unfold read_this. reads. Qed.
#[global] Instance Looks_local tid fr name : U (read_local tid fr name).
Proof. unfold read_local. reads. Qed.
#[global] Instance Looks_head tid fr seg : U (resolve_head tid fr seg).
Proof. unfold resolve_head. reads. Qed.
#[global] Instance Looks_field_of_this tid fr name : U (field_of_this tid fr name).
Proof. unfold field_of_this. reads. Qed.
#[global] Instance Looks_static_of_frame fr name : U (static_of_frame fr name).
Proof. unfold static_of_frame. reads. Qed.
#[global] Instance Looks_bare_member tid fr name : U (resolve_bare_member_of_frame tid fr name).
Proof. unfold resolve_bare_member_of_frame. reads. Qed.
#[global] Instance Looks_result name v e : U (invoke_result name v e).
Proof. unfold invoke_result. reads. Qed.

Section Nested.
Context (nested : Nested).
Context (Hr : forall th fr e, May may_invoke th -> U (ns_resolve nested th fr e)) (Hv : forall th v e, May may_invoke th -> U (ns_relative nested th v e)).

#[local] Instance Looks_leaf th {Hth : May may_invoke th} fr leaf : U (prepare_leaf nested th fr leaf).
Proof. unfold prepare_leaf. reads. Qed.
#[local] Instance Looks_prepare th {Hth : May may_invoke th} fr t : U (prepare_pred_tree nested th fr t).
Proof.
  induction t as [bs IH|bs IH|t IH|l] using BoolTree_forall; cbn [prepare_pred_tree]; [| |reads|apply _].
  1, 2: apply Respects_st_try; [apply _| |reads]; induction IH as [|t bs Ht _ IHbs]; reads.
Qed.
#[local] Instance Looks_eval th {Hth : May may_invoke th} v p : U (eval_predicate_on nested th v p).
Proof.
  induction p as [l IH|l IH|lhs op rhs|p IH|e] using Predicate_forall; cbn [eval_predicate_on]; [| |reads..].
  1, 2: induction IH as [|p l Hp _ IHl]; reads.
Qed.
#[local] Instance Looks_filter th {Hth : May may_invoke th} fr v pred label s : U (apply_filter nested th fr v pred label s).
Proof. unfold apply_filter, prepare_predicate. reads. Qed.
#[local] Instance Looks_literal th {Hth : May may_invoke th} fr a : U (arglit_to_value nested th fr a).
Proof. unfold arglit_to_value. reads. Qed.
#[local] Instance Looks_index_invoking th {Hth : May may_invoke th} fr tid o t key label {Htid : May may_invoke (Some tid)} :
  U (index_by_invoking nested th fr tid o t key label).
Proof. unfold index_by_invoking, index_key. reads. Qed.
#[local] Instance Looks_apply_index th {Hth : May may_invoke th} fr v k label s : U (apply_index nested th fr v k label s).
Proof. unfold apply_index. repeat first [apply (Looks_given th) | reads_step]. Qed.
#[local] Instance Looks_subscripts th {Hth : May may_invoke th} fr v subs label s : U (apply_subscripts nested th fr v subs label s).
Proof. revert v s. induction subs as [|[k|a b|p] subs IH]; intros v s; cbn [apply_subscripts]; reads. Qed.
#[local] Instance Looks_member th {Hth : May may_invoke th} fr v seg lazy : U (resolve_member nested th fr v seg lazy).
Proof. unfold resolve_member, invoke_segment_method, eval_args, coerce_args. reads. Qed.
#[local] Instance Looks_static_member th {Hth : May may_invoke th} fr dotted seg t : U (static_member nested th fr dotted seg t).
Proof. unfold static_member, invoke_static_member, eval_args, coerce_args. reads. Qed.
#[local] Instance Looks_static_from th {Hth : May may_invoke th} k fr segs s : U (static_from nested k th fr segs s).
Proof. revert s. induction k as [|k IH]; intros s; cbn [static_from]; reads. Qed.
#[local] Instance Looks_failure h fr segs seg e : U (head_failure h fr segs seg e).
Proof. unfold head_failure. reads. Qed.
#[local] Instance Looks_static_or th {Hth : May may_invoke th} fr segs seg h s : U (static_or_failure nested th fr segs seg h s).
Proof.
  intros w. unfold static_or_failure, resolve_static_head. destruct (length segs <? 2)%nat.
  - cbn. pose proof (Looks_failure h fr segs seg "a static access needs at least Class.field or Class.method()" w) as H.
    by destruct (head_failure _ _ _ _ _ w).
  - pose proof (Looks_static_from th (length segs - 1) fr segs s w) as H. destruct (static_from _ _ _ _ _ s w) as [[[v|e] s1] w1]; [done|].
    pose proof (Looks_failure h fr segs seg e w1) as H2. destruct (head_failure _ _ _ _ e w1) as [e2 w2]. simpl in *. by transitivity w1.
Qed.
#[local] Instance Looks_any_head th {Hth : May may_invoke th} fr segs seg s : U (resolve_any_head nested th fr segs seg s).
Proof. unfold resolve_any_head, bare_member. reads. Qed.
#[local] Instance Looks_chain th {Hth : May may_invoke th} fr lazy v segs s : U (chain_from nested th fr lazy v segs s).
Proof. revert v s. induction segs as [|seg segs IH]; intros v s; cbn [chain_from]; reads. Qed.
Lemma Looks_multi th {Hth : May may_invoke th} fr e lazy s : U (resolve_multi nested th fr e lazy s).
Proof. unfold resolve_multi. reads. Qed.
#[local] Instance Looks_unread {A} (m : Noted A) : U (m []) -> U (unread m).
Proof. intros H w. unfold unread. specialize (H w). by destruct (m [] w) as [[? ?] ?]. Qed.
Lemma Looks_resolve_one th {Hth : May may_invoke th} fr e : U (resolve_one nested th fr e).
Proof. unfold resolve_one. pose proof (Looks_multi th fr e Report []). reads. Qed.
Lemma Looks_relative th {Hth : May may_invoke th} v e : U (resolve_relative_one nested th v e).
Proof.
  assert (forall segs v s, U (relative_from nested th v segs s)) as K by (intros segs; induction segs; intros ? ?; cbn [relative_from]; reads).
  unfold resolve_relative_one. reads.
Qed.
End Nested.

Lemma Looks_level n :
  (forall th fr e, May may_invoke th -> U (ns_resolve (resolve_level n) th fr e)) /\
  (forall th v e, May may_invoke th -> U (ns_relative (resolve_level n) th v e)).
Proof.
  induction n as [|n [IH1 IH2]]; (split; intros; cbn [resolve_level ns_resolve ns_relative]);
    [apply _|apply _|by apply Looks_resolve_one|by apply Looks_relative].
Qed.

#[global] Instance Looks_expression th {Hth : May may_invoke th} fr e : U (resolve_expression th fr e).
Proof. destruct (Looks_level (length e)) as [H1 H2]. by apply Looks_resolve_one. Qed.
#[global] Instance Looks_expression_multi th {Hth : May may_invoke th} fr e lazy path : U (resolve_expression_multi th fr e lazy path).
Proof. destruct (Looks_level (length e)) as [H1 H2]. by apply Looks_multi. Qed.
End Resolving.

(** C9. Looking changes nothing. Whatever the debuggee answers, on any connection: resolving any expression
    (its filters, slices, subscripts, statics and arguments included) and rendering any value, on one
    line or deep, stops no thread and starts none, writes no field, forces, pops and redefines nothing;
    with a thread to do it on they call methods, and without one not even that; and the read-only flag is
    what it was. *)
Theorem reads_only_look `{BC : BytesCrate} `{D : Debuggee} `{FT : FloatText} `{PF : Platform} (thread : option Z) (w : World) :
  (forall frame e lazy path, looks (is_some thread) w (snd (resolve_expression_multi thread frame e lazy path w))) /\
  (forall frame e, looks (is_some thread) w (snd (resolve_expression thread frame e w))) /\
  (forall v max_len deep how, looks (is_some thread) w (snd (render_one v thread max_len deep how w))).
Proof.
  assert (May (is_some thread) thread) by (destruct thread; apply _).
  split_and!; intros; [apply Looks_expression_multi|apply Looks_expression|apply Looks_one_value]; done.
Qed.
