(* ===== verification/LazyFacts.v ===== *)
(** * Associations that were not fetched ([mcp-server/src/handlers.rs])

    No member is called on a Hibernate association that has not been fetched, nor on one of which that
    cannot be told; and two ways around that guard: a subscript, and the expansion of an object. *)

From S2P Require Import Prelude Protocol Types Reader Connection Client Api Generics Text Condition Expr Locate Paths StopPoint Arming Rearm.
From S2P Require Import Reading ReadingFacts TextArrays Structures Rendering Overloads ExprText Comparing Scans Resolve ResolveFacts Looking.




Section Guard.
Context `{BC : BytesCrate} `{D : Debuggee} `{FT : FloatText}.


End Guard.


(** ** A collection nobody fetched

    Object 1 is a [PersistentBag] with [get(int)], [size()] and [toArray()], and its [initialized] is [false]. *)
Definition bag_answers (set command : Z) (body : bytes) : JdwpResult (Z * bytes) :=
  let int32 := be_bytes 4 in
  let text := write_jdwp_string (BC := network_order) in
  let value := write_tagged_value (BC := network_order) in
  let method id name sig := be_bytes 8 id ++ text name ++ text sig ++ text ""%string ++ int32 1 in
  let id := be_val (take 8 body) in
  match set, command with
  | 9, 1 => Ok (0, 1 :: be_bytes 8 7)
  | 9, 2 => Ok (0, int32 1 ++ value (value_bool false))
  | 9, 6 => Ok (0, value (value_object 9) ++ 76 :: be_bytes 8 0)
  | 9, 9 => Ok (0, [0])
  | 2, 1 => Ok (0, text (if id =? 20 then "Lorg/hibernate/collection/spi/PersistentCollection;"%string
                         else "Lorg/hibernate/collection/internal/PersistentBag;"%string))
  | 2, 10 => Ok (0, int32 1 ++ be_bytes 8 20)
  | 2, 14 => Ok (0, int32 1 ++ be_bytes 8 1 ++ text "initialized"%string ++ text "Z"%string ++ text ""%string ++ int32 2)
  | 2, 15 => Ok (0, int32 3 ++ method 1 "get"%string "(I)Ljava/lang/Object;"%string ++ method 2 "size"%string "()I"%string ++
                    method 3 "toArray"%string "()[Ljava/lang/Object;"%string)
  | 3, 1 => Ok (0, be_bytes 8 0)
  | _, _ => Ok (99, [])
  end.

Definition called (log : list WireEvent) : list Z :=
  map (fun p => be_val (take 8 (drop 24 (cp_data p))))
    (base.filter (fun p => cp_command_set p = command_sets.OBJECT_REFERENCE /\ cp_command p = object_reference_commands.INVOKE_METHOD) (attempts log)).

Section Bag.
#[local] Existing Instance network_order.
#[local] Instance bag : Debuggee := answering bag_answers.
#[local] Existing Instance no_floats.
#[local] Existing Instance no_platform.



(** The guard is on members only: a subscript of the same collection calls its [get], and expanding it calls
    its [toArray], under the policy that refuses [size()]. Expanding a plain object calls the [toString] of
    what it holds at the depth limit. *)
Lemma subscript_enters_unfetched :
  let subscripted := resolve_expression_multi (Some 5) None (chars_of "@0x1[0]") Report [] world_init in
  let expanded := render_value_deep {| do_depth_limit := 1; do_child_limit := 5; do_text_len := 80; do_bytes := default_render |}
                    (value_object 1) (Some 5) world_init in
  fst (hibernate_lazy_state 1 7 world_init) = Unfetched LazyCollection /\
  fst (fst subscripted) = Ok (One (value_object 9)) /\ called (w_log (snd subscripted)) = [1] /\
  called (w_log (snd expanded)) = [3].
Proof. by vm_compute. Qed.
End Bag.
