(* ===== verification/Families.v ===== *)
(** * Which threads a reply is about ([mcp-server/src/handlers.rs])

    Threads are chosen by the family of their name, in rounds: one of each family before a second of any.
    The tally of what was left out, and the notes that say how the choice was made. *)

From S2P Require Import Prelude Protocol Types Connection Manager Generics Text Reading.

(** ** Families of names *)

(** Every run of digits as one [#]. *)
Fixpoint collapse_digits (in_digits : bool) (name : chars) : chars :=
  match name with
  | [] => []
  | c :: name =>
    if is_ascii_digit c then (if in_digits then [] else [ch "#"]) ++ collapse_digits true name
    else c :: collapse_digits false name
  end.
Definition thread_name_family (name : string) : string := string_of_chars (collapse_digits false (str_chars name)).

(** ** Rounds

    Positions in the list of names; [index] says where a family is among the families. *)
Definition family_step (st : list (list nat) * gmap string nat) (e : nat * string) : list (list nat) * gmap string nat :=
  let '(families, index) := st in
  let key := thread_name_family (snd e) in
  match index !! key with
  | Some f =>
    if (f <? length families)%nat then (alter (fun members => members ++ [fst e]) f families, index)
    else (families ++ [[fst e]], <[key := length families]> index)
  | None => (families ++ [[fst e]], <[key := length families]> index)
  end.
Definition families_of (names : list string) : list (list nat) :=
  fst (foldl family_step ([], ∅) (zip (seq 0 (length names)) names)).
Definition nth_round (families : list (list nat)) (r : nat) : list nat := omap (fun f => f !! r) families.
Definition family_round_robin (names : list string) : list nat * nat :=
  let families := families_of names in
  let deepest := foldr Nat.max 0%nat (map length families) in
  (seq 0 deepest ≫= nth_round families, length families).

(** ** What was left out *)

Definition candidates_by_family (names : list string) : gmap string Z :=
  foldl (fun tally n => let f := thread_name_family n in <[f := default 0 (tally !! f) + 1]> tally) ∅ names.

(** The biggest group first, ties by name. *)
Definition biggest_first (a b : string * Z) : Prop :=
  snd b < snd a \/ (snd a = snd b /\ bytes_le (bytes_of_string (fst a)) (bytes_of_string (fst b)) = true).
#[global] Instance biggest_first_dec a b : Decision (biggest_first a b).
Proof. unfold biggest_first. apply _. Defined.

Definition withheld_by_family (tally : gmap string Z) (shown : list string) : list (string * Z) :=
  let rest := foldl (fun t n => alter (fun k => Z.max 0 (k - 1)) (thread_name_family n) t) tally shown in
  merge_sort biggest_first (base.filter (fun e => 0 < snd e) (map_to_list rest)).

Record FamilySelection : Type := { fs_eligible : Z; fs_families : Z; fs_withheld : list (string * Z) }.

(** ** In words *)

Definition family_order_note (shown : Z) (sel : FamilySelection) : string :=
  if (fs_eligible sel <=? shown) || (fs_families sel <? 2) then ""
  else
    "   🔀 Chose " +s+ pretty shown +s+ " of " +s+ pretty (fs_eligible sel) +s+ " by NAME FAMILY, not by the order the JVM listed them in: one thread from each of the " +s+
    pretty (fs_families sel) +s+ " distinct names (digits ignored, so " +s+ dquote +s+ "task-3" +s+ dquote +s+ " and " +s+ dquote +s+ "task-91" +s+ dquote +s+
    " are one family) before a second from any, so no single pool can spend every slot. JDWP `AllThreads` order is *creation* order, and an app server creates its request pool last (DUMP-3). Rows below are printed in creation order." +s+ newline.

Definition LISTED : nat := 5.
Definition withheld_note (withheld : list (string * Z)) : string :=
  match withheld with
  | [] => ""
  | _ =>
    let named := map (fun e => pretty (snd e) +s+ " × " +s+ dquote +s+ fst e +s+ dquote) (take LISTED withheld) in
    let rest := zlen withheld - Z.of_nat LISTED in
    " — biggest groups not shown: " +s+ join ", " named +s+ (if 0 <? rest then ", and " +s+ pretty rest +s+ " other group(s)" else "")
  end.

(** ** The choice is fair *)

Section Rounds.
Context (names : list string).

Definition family_at (i : nat) : option string := thread_name_family <$> names !! i.
(** The threads of a family in the order the JVM listed them. *)
Definition members (a : option string) : list nat := base.filter (fun i => family_at i = a) (seq 0 (length names)).
Definition picked (a : option string) (k : nat) : list nat := base.filter (fun i => family_at i = a) (take k (fst (family_round_robin names))).
End Rounds.

Definition families_ok (names : list string) (st : list (list nat) * gmap string nat) : Prop :=
  exists keys, NoDup keys /\ fst st = map (fun a => members names (Some a)) keys /\
    (forall a f, snd st !! a = Some f <-> keys !! f = Some a) /\ (forall a, a ∈ keys <-> a ∈ map thread_name_family names).

Lemma members_snoc names x a :
  members (names ++ [x]) a = members names a ++ (if decide (Some (thread_name_family x) = a) then [length names] else []).
Proof.
  unfold members. rewrite length_app, seq_app, list.filter_app. simpl. f_equal.
  - apply filter_ext_in. intros i Hi%elem_of_seq. unfold family_at. by rewrite lookup_app_l by lia.
  - assert (family_at (names ++ [x]) (length names) = Some (thread_name_family x)) as E
      by (unfold family_at; by rewrite list_lookup_middle).
    case_decide as H; [rewrite filter_cons_True by (by rewrite E)|rewrite filter_cons_False by (by rewrite E)]; done.
Qed.

Lemma absent_empty names a : a ∉ map thread_name_family names -> members names (Some a) = [].
Proof.
  intros Ha. unfold members. rewrite (filter_ext_in _ (fun _ => False)).
  - generalize (seq 0 (length names)). intros l. by induction l.
  - intros i _. split; [|done]. unfold family_at. destruct (names !! i) as [n|] eqn:E; [|done]. intros [= <-]. apply Ha.
    apply list_elem_of_In, in_map, list_elem_of_In. by eapply list_elem_of_lookup_2.
Qed.

Lemma families_of_ok names : families_ok names (foldl family_step ([], ∅) (zip (seq 0 (length names)) names)).
Proof.
  induction names as [|x names IH] using rev_ind.
  { exists []. split_and!; simpl; [by constructor|done| |set_solver]. intros a f. rewrite lookup_empty. by rewrite lookup_nil. }
  rewrite length_app, seq_app. cbn [length seq]. rewrite zip_with_app by (by rewrite length_seq). rewrite foldl_app. cbn [foldl zip zip_with].
  destruct (foldl _ _ _) as [fams index]. destruct IH as (keys & Hnd & Hf & Hi & Hk). cbn [fst snd] in *. unfold family_step. cbn [fst snd].
  set (key := thread_name_family x). assert (Hnone : index !! key = None -> key ∉ keys).
  { intros E [f Hf']%list_elem_of_lookup. apply Hi in Hf'. congruence. }
  destruct (index !! key) as [f|] eqn:E.
  - apply Hi in E as E'. rewrite Hf, length_map. rewrite (proj2 (Nat.ltb_lt _ _)) by (by eapply lookup_lt_Some).
    exists keys. split_and!; [done| |done|].
    + cbn [fst]. apply list_eq. intros j. destruct (decide (f = j)) as [<-|Hj].
      * rewrite list_lookup_alter_eq, !list_lookup_fmap, E'. simpl. by rewrite members_snoc, decide_True.
      * rewrite list_lookup_alter_ne, !list_lookup_fmap by done. destruct (keys !! j) as [b|] eqn:Hb; [|done]. simpl. f_equal.
        rewrite members_snoc, decide_False; [by rewrite app_nil_r|]. intros [= <-]. apply Hj. by eapply NoDup_lookup.
    + intros a. rewrite map_app, elem_of_app, Hk. split; [tauto|]. intros [?|H]; [done|]. simpl in H. apply list_elem_of_singleton in H as ->.
      apply Hk. by eapply list_elem_of_lookup_2.
  - specialize (Hnone eq_refl). exists (keys ++ [key]). split_and!.
    + apply list.NoDup_app. split_and!; [done| |by apply list.NoDup_singleton]. by intros a Ha ->%list_elem_of_singleton.
    + cbn [fst]. rewrite Hf, map_app. f_equal.
      * apply map_ext_in. intros a Ha%list_elem_of_In. rewrite members_snoc, decide_False; [by rewrite app_nil_r|]. intros [= <-]. by apply Hnone.
      * simpl. rewrite members_snoc, decide_True by done. f_equal. by rewrite (absent_empty names key) by (by intros ?%Hk).
    + intros a f. cbn [snd]. rewrite Hf, length_map. destruct (decide (a = key)) as [->|Ha].
      * rewrite lookup_insert_eq. split; [intros [= <-]; by rewrite list_lookup_middle|].
        intros Hj. f_equal. apply lookup_app_Some in Hj as [Hj|[? Hj]]; [exfalso; apply Hnone; by eapply list_elem_of_lookup_2|].
        apply list_lookup_singleton_Some in Hj as [? _]. lia.
      * rewrite lookup_insert_ne by done. rewrite Hi. split; [intros Hj; by apply lookup_app_l_Some|].
        intros [Hj|[? Hj]]%lookup_app_Some; [done|]. apply list_lookup_singleton_Some in Hj as [_ Hj]. congruence.
    + intros a. rewrite map_app, !elem_of_app, Hk. simpl. fold key. tauto.
Qed.

(** What a whole number of rounds and a part of the next pick of one family. *)
Lemma filter_row names a (keys : list string) r : NoDup keys ->
  base.filter (fun i => family_at names i = a) (nth_round (map (fun k => members names (Some k)) keys) r) =
  match a with Some k => if decide (k ∈ keys) then option_list (members names a !! r) else [] | None => [] end.
Proof.
  assert (Row : forall k i, members names (Some k) !! r = Some i -> family_at names i = Some k).
  { intros k i Hi%list_elem_of_lookup_2. by apply list_elem_of_filter in Hi as [? _]. }
  unfold nth_round. induction 1 as [|k keys Hk Hnd IH]; [by destruct a|].
  simpl. change (list_omap _ _ ?f ?l) with (omap f l). destruct (members names (Some k) !! r) as [i|] eqn:E.
  - destruct (decide (a = Some k)) as [->|Ha].
    + rewrite filter_cons_True by by apply Row. rewrite IH, decide_False, decide_True by (done || set_solver). by rewrite E.
    + rewrite filter_cons_False by (rewrite (Row _ _ E); congruence). rewrite IH. destruct a as [b|]; [|done].
      by rewrite (decide_ext (b ∈ keys) (b ∈ k :: keys)) by set_solver.
  - rewrite IH. destruct a as [b|]; [|done]. destruct (decide (b = k)) as [->|Hb].
    + rewrite decide_False, decide_True, E by (done || set_solver). done.
    + by rewrite (decide_ext (b ∈ keys) (b ∈ k :: keys)) by set_solver.
Qed.

Lemma rows_take {A} (l : list A) c : (seq 0 c ≫= fun r => option_list (l !! r)) = take c l.
Proof.
  induction c as [|c IH]; [done|]. rewrite seq_S, bind_app, IH. simpl. rewrite app_nil_r.
  destruct (l !! c) as [x|] eqn:E; [by rewrite (take_S_r _ _ _ E)|]. apply lookup_ge_None in E. by rewrite !take_ge, app_nil_r by (simpl; lia).
Qed.

Lemma take_omap {A B} (f : A -> option B) l k : exists j, take k (omap f l) = omap f (take j l).
Proof.
  revert k. induction l as [|a l IH]; intros k; [exists O; by destruct k|]. simpl. destruct (f a) as [b|] eqn:E.
  - destruct k as [|k]; [by exists O|]. destruct (IH k) as [j Hj]. exists (S j). simpl. rewrite E. f_equal. exact Hj.
  - destruct (IH k) as [j Hj]. exists (S j). simpl. by rewrite E.
Qed.

(** Any number of picks is some whole rounds and a part of the next. *)
Lemma prefix_of_rounds families n k : exists c j, (c <= n)%nat /\
  take k (seq 0 n ≫= nth_round families) = (seq 0 c ≫= nth_round families) ++ nth_round (take j families) c.
Proof.
  induction n as [|n IH]; [exists O, O; by destruct k|]. rewrite seq_S, bind_app. simpl. rewrite app_nil_r.
  destruct IH as (c & j & Hc & IH). destruct (decide (k <= length (seq 0 n ≫= nth_round families))%nat) as [Hk|Hk].
  - exists c, j. split; [lia|]. by rewrite take_app_le.
  - rewrite take_app_ge by lia. destruct (take_omap (fun f => f !! n) families (k - length (seq 0 n ≫= nth_round families))) as [j' Hj].
    exists n, j'. split; [lia|]. f_equal. exact Hj.
Qed.

Lemma filter_rows names a keys c : NoDup keys ->
  base.filter (fun i => family_at names i = a) (seq 0 c ≫= nth_round (map (fun k => members names (Some k)) keys)) =
  match a with Some k => if decide (k ∈ keys) then take c (members names a) else [] | None => [] end.
Proof.
  intros Hnd. rewrite <- rows_take. generalize (seq 0 c). intros rs. induction rs as [|r rs IH].
  - destruct a as [k|]; [|done]. by case_decide.
  - rewrite !bind_cons, list.filter_app, filter_row, IH by done. destruct a as [k|]; [|done]. by case_decide.
Qed.

Lemma forall_none {A} (P : A -> Prop) `{forall a, Decision (P a)} l : (forall a, a ∈ l -> ~ P a) -> base.filter P l = [].
Proof. induction l as [|a l IH]; [done|]. intros E. rewrite filter_cons_False by (apply E; set_solver). apply IH. set_solver. Qed.

(** Two lists with the same members of every class are the same up to order. *)
Lemma classes_permutation {C} `{EqDecision C} (f : nat -> C) l l' :
  (forall c, base.filter (fun i => f i = c) l = base.filter (fun i => f i = c) l') -> l ≡ₚ l'.
Proof.
  assert (Count : forall l i, count_occ Nat.eq_dec l i = count_occ Nat.eq_dec (base.filter (fun j => f j = f i) l) i).
  { intros k i. induction k as [|j k IH]; [done|]. destruct (decide (f j = f i)) as [E|E].
    - rewrite filter_cons_True by done. simpl. by rewrite IH.
    - rewrite filter_cons_False by done. simpl. destruct (Nat.eq_dec j i) as [->|]; [done|exact IH]. }
  intros H. apply (Permutation_count_occ Nat.eq_dec). intros i. by rewrite (Count l), (Count l'), H.
Qed.

Lemma members_length names a : a ∈ map thread_name_family names -> members names (Some a) <> [].
Proof.
  intros (n & -> & Hn%list_elem_of_lookup)%list_elem_of_fmap. destruct Hn as [i Hi]. intros E.
  assert (i ∈ members names (Some (thread_name_family n))) as K; [|rewrite E in K; set_solver].
  apply list_elem_of_filter. unfold family_at. rewrite Hi. split; [done|]. apply elem_of_seq. split; [lia|]. by eapply lookup_lt_Some.
Qed.

Lemma nobody_unnamed names : members names None = [].
Proof.
  apply forall_none. intros i Hi%elem_of_seq. unfold family_at. destruct (lookup_lt_is_Some_2 names i ltac:(lia)) as [n ->]. done.
Qed.
Lemma sublist_take_elem {A} (a : A) j l : a ∈ take j l -> a ∈ l.
Proof. intros H. rewrite <- (take_drop j l). set_solver. Qed.

(** What has been picked of a family after [k] picks: whole rounds, and one more or not. *)
Lemma picked_rounds names k : exists c, forall a, exists c', (c' = c \/ c' = S c) /\ picked names a k = take c' (members names a).
Proof.
  unfold picked, family_round_robin, families_of. destruct (families_of_ok names) as (keys & Hnd & Hf & Hi & Hk).
  destruct (foldl _ _ _) as [fams index]. cbn [fst snd] in *. subst fams.
  destruct (prefix_of_rounds (map (fun a => members names (Some a)) keys) (foldr Nat.max 0%nat (map length (map (fun a => members names (Some a)) keys))) k) as (c & j & _ & ->).
  exists c. intros a. rewrite list.filter_app, filter_rows by done.
  rewrite firstn_map, filter_row by (by eapply list.sublist_NoDup, sublist_take).
  destruct a as [a|]; [|exists c; split; [by left|]; by rewrite nobody_unnamed, take_nil].
  destruct (decide (a ∈ keys)) as [Ha|Ha].
  - case_decide as Hj; [exists (S c); split; [by right|]|exists c; split; [by left|]; by rewrite app_nil_r].
    destruct (members names (Some a) !! c) as [i|] eqn:E; simpl; [by rewrite (take_S_r _ _ _ E)|].
    apply lookup_ge_None in E. by rewrite !take_ge, app_nil_r by (simpl; lia).
  - rewrite decide_False by (by intros ?%sublist_take_elem). exists c. split; [by left|].
    rewrite absent_empty by (by rewrite <- Hk). by rewrite take_nil.
Qed.

Lemma all_picked names a : base.filter (fun i => family_at names i = a) (fst (family_round_robin names)) = members names a.
Proof.
  unfold family_round_robin, families_of. destruct (families_of_ok names) as (keys & Hnd & Hf & Hi & Hk).
  destruct (foldl _ _ _) as [fams index]. cbn [fst snd] in *. subst fams. rewrite filter_rows by done.
  destruct a as [a|]; [|by rewrite nobody_unnamed]. case_decide as Ha; [|by rewrite absent_empty by (by rewrite <- Hk)].
  apply take_ge. apply list_elem_of_In in Ha. clear - Ha. induction keys as [|k keys IH]; [done|]. simpl. destruct Ha as [->|Ha]; [lia|].
  specialize (IH Ha). lia.
Qed.

(** The order the candidates are picked in: each once; of a family those the JVM listed first; and no
    family is two ahead of another that has members left. *)
Lemma rounds_fair names :
  fst (family_round_robin names) ≡ₚ seq 0 (length names) /\
  (forall k a, exists n, picked names a k = take n (members names a)) /\
  (forall k a b, (length (picked names a k) <= S (length (picked names b k)))%nat \/ picked names b k = members names b) /\
  snd (family_round_robin names) = length (remove_dups (map thread_name_family names)).
Proof.
  split_and!.
  - apply (classes_permutation (family_at names)). intros a. by rewrite all_picked.
  - intros k a. destruct (picked_rounds names k) as [c Hc]. destruct (Hc a) as (c' & _ & E). by exists c'.
  - intros k a b. destruct (picked_rounds names k) as [c Hc]. destruct (Hc a) as (ca & Ha & ->). destruct (Hc b) as (cb & Hb & ->).
    destruct (decide (length (members names b) <= cb)%nat) as [L|L]; [right; by rewrite take_ge|]. left. rewrite !length_take. lia.
  - unfold family_round_robin, families_of. destruct (families_of_ok names) as (keys & Hnd & Hf & Hi & Hk).
    destruct (foldl _ _ _) as [fams index]. cbn [fst snd] in *. subst fams. rewrite length_map.
    apply Permutation_length, list.NoDup_Permutation; [done|apply NoDup_remove_dups|]. intros a. by rewrite elem_of_remove_dups.
Qed.

(** * Theorems: rows chosen by family

    For any candidates with names: those chosen are in the order of the candidates, as many as asked for,
    shared out over the families, and what was left out is reported exactly. *)

(** ** Lists *)

Lemma sublist_omap {A B} (f : A -> option B) l k : l `sublist_of` k -> omap f l `sublist_of` omap f k.
Proof.
  induction 1 as [|x l k _ IH|x l k _ IH]; simpl; [done| |]; change (list_omap _ _ ?f ?l) with (omap f l).
  - destruct (f x); [by apply sublist_skip|done].
  - destruct (f x); [by apply sublist_cons|done].
Qed.

Lemma omap_all {A} (l : list A) : omap (fun i => l !! i) (seq 0 (length l)) = l.
Proof.
  induction l as [|x l IH] using rev_ind; [done|]. rewrite length_app, seq_app, omap_app. simpl. rewrite list_lookup_middle by done.
  f_equal. rewrite <- IH at 2. apply list_omap_ext, Forall_Forall2_diag, List.Forall_forall. intros i Hi%in_seq. by rewrite lookup_app_l by lia.
Qed.

Lemma sublist_same_length {A} (l k : list A) : l `sublist_of` k -> length l = length k -> l = k.
Proof.
  induction 1 as [|x l k _ IH|x l k H _]; simpl; [done|intros [= E]; by rewrite IH|]. apply sublist_length in H. lia.
Qed.

Lemma sublist_filtered {A} (P : A -> Prop) `{forall a, Decision (P a)} l k : l `sublist_of` k -> base.filter P l `sublist_of` base.filter P k.
Proof.
  induction 1 as [|x l k _ IH|x l k _ IH]; [done| |].
  - destruct (decide (P x)); [rewrite !filter_cons_True by done; by apply sublist_skip|by rewrite !filter_cons_False].
  - destruct (decide (P x)); [rewrite filter_cons_True by done; by apply sublist_cons|by rewrite filter_cons_False].
Qed.

Lemma seq_sorted a n : StronglySorted le (seq a n).
Proof.
  revert a. induction n as [|n IH]; intros a; simpl; constructor; [apply IH|]. apply List.Forall_forall. intros i Hi%in_seq. lia.
Qed.
Lemma filter_sorted {A} (R : relation A) (P : A -> Prop) `{forall a, Decision (P a)} l : StronglySorted R l -> StronglySorted R (base.filter P l).
Proof.
  induction 1 as [|x l _ IH Hx]; [constructor|]. destruct (decide (P x)); [rewrite filter_cons_True by done|by rewrite filter_cons_False].
  constructor; [done|]. apply List.Forall_forall. intros y [_ Hy]%list_elem_of_In%list_elem_of_filter.
  eapply List.Forall_forall; [exact Hx|by apply list_elem_of_In].
Qed.

(** Distinct positions in order are the positions that are among them. *)
Lemma sorted_positions l n : NoDup l -> (forall i, i ∈ l -> (i < n)%nat) -> merge_sort le l = base.filter (fun i => i ∈ l) (seq 0 n).
Proof.
  intros Hnd Hn. apply (StronglySorted_unique le); [apply StronglySorted_merge_sort; apply _|apply filter_sorted, seq_sorted|].
  rewrite merge_sort_Permutation. apply list.NoDup_Permutation; [done|apply list.NoDup_filter, list.NoDup_seq|].
  intros i. rewrite list_elem_of_filter, elem_of_seq. split; [|by intros [? _]]. intros Hi. specialize (Hn i Hi). split; [done|lia].
Qed.

Lemma merge_sort_seq n : merge_sort le (seq 0 n) = seq 0 n.
Proof. apply (StronglySorted_unique le); [apply StronglySorted_merge_sort; apply _|apply seq_sorted|apply merge_sort_Permutation]. Qed.

(** ** What is chosen *)

Section Chosen.
Context {A : Type} (name : A -> string) (candidates : list A).
Let names := map name candidates.
Let order := fst (family_round_robin names).

Definition of_family (a : string) (l : list A) : list A := base.filter (fun x => thread_name_family (name x) = a) l.
(** The first [k] picks, in the order of the candidates. *)
Definition chosen (k : nat) : list A := omap (fun i => candidates !! i) (merge_sort le (take k order)).

Lemma order_positions i : i ∈ order <-> (i < length candidates)%nat.
Proof.
  destruct (rounds_fair names) as (P & _). fold order in P. rewrite P, elem_of_seq. unfold names. rewrite length_map. lia.
Qed.
Lemma order_NoDup : NoDup order.
Proof. destruct (rounds_fair names) as (P & _). fold order in P. rewrite P. apply list.NoDup_seq. Qed.
Lemma order_length : length order = length candidates.
Proof. destruct (rounds_fair names) as (P & _). fold order in P. rewrite P, length_seq. apply length_map. Qed.

Lemma chosen_sublist k : chosen k `sublist_of` candidates.
Proof.
  unfold chosen. rewrite (sorted_positions _ (length candidates)).
  - etransitivity; [apply sublist_omap, sublist_filter|by rewrite omap_all].
  - eapply list.sublist_NoDup; [apply order_NoDup|apply sublist_take].
  - intros i Hi%sublist_take_elem. by apply order_positions.
Qed.

Lemma chosen_all k : (length candidates <= k)%nat -> chosen k = candidates.
Proof.
  intros Hk. unfold chosen. rewrite take_ge by (rewrite order_length; lia).
  assert (merge_sort le order = seq 0 (length candidates)) as ->.
  { destruct (rounds_fair names) as (P & _). fold order in P. unfold names in P. rewrite length_map in P.
    apply (StronglySorted_unique le); [apply StronglySorted_merge_sort; apply _|apply seq_sorted|by rewrite merge_sort_Permutation]. }
  apply omap_all.
Qed.

Lemma omap_positions l : (forall i, i ∈ l -> (i < length candidates)%nat) -> length (omap (fun i => candidates !! i) l) = length l.
Proof.
  induction l as [|i l IH]; intros Hl; [done|]. simpl. destruct (lookup_lt_is_Some_2 candidates i) as [x ->]; [apply Hl; set_solver|].
  simpl. f_equal. apply IH. set_solver.
Qed.
Lemma chosen_length k : length (chosen k) = Nat.min k (length candidates).
Proof.
  unfold chosen. rewrite omap_positions; [by rewrite (Permutation_length (merge_sort_Permutation _ _)), length_take, order_length|].
  intros i. rewrite merge_sort_Permutation. intros Hi%sublist_take_elem. by apply order_positions.
Qed.

Lemma family_positions a l : (forall i, i ∈ l -> (i < length candidates)%nat) ->
  length (of_family a (omap (fun i => candidates !! i) l)) = length (base.filter (fun i => family_at names i = Some a) l).
Proof.
  induction l as [|i l IH]; intros Hl; [done|]. destruct (lookup_lt_is_Some_2 candidates i) as [x Hx]; [apply Hl; set_solver|].
  assert (family_at names i = Some (thread_name_family (name x))) as E.
  { unfold family_at, names. rewrite list_lookup_fmap. unfold fmap, option_fmap, option_map. by rewrite Hx. }
  specialize (IH ltac:(set_solver)). simpl. rewrite Hx. change (list_omap _ _ ?f ?l) with (omap f l).
  unfold of_family. destruct (decide (thread_name_family (name x) = a)) as [Ha|Ha].
  - rewrite filter_cons_True by done. rewrite (filter_cons_True _ i) by by rewrite E, Ha. simpl. by f_equal.
  - rewrite filter_cons_False by done. rewrite (filter_cons_False _ i) by by rewrite E; congruence. done.
Qed.

Lemma chosen_family a k : length (of_family a (chosen k)) = length (picked names (Some a) k).
Proof.
  unfold chosen. rewrite family_positions.
  - unfold picked. fold order. by rewrite merge_sort_Permutation.
  - intros i. rewrite merge_sort_Permutation. intros Hi%sublist_take_elem. by apply order_positions.
Qed.
Lemma all_family a : length (of_family a candidates) = length (members names (Some a)).
Proof.
  rewrite <- (omap_all candidates) at 1. rewrite family_positions by (intros i Hi%elem_of_seq; lia).
  unfold members, names. by rewrite length_map.
Qed.

(** No family is two ahead of another that has threads left. *)
Lemma chosen_fair k a b :
  (length (of_family a (chosen k)) <= S (length (of_family b (chosen k))))%nat \/ of_family b (chosen k) = of_family b candidates.
Proof.
  rewrite !chosen_family. destruct (rounds_fair names) as (_ & _ & F & _). destruct (F k (Some a) (Some b)) as [?|E]; [by left|right].
  apply sublist_same_length; [|by rewrite chosen_family, all_family, E].
  apply sublist_filtered, chosen_sublist.
Qed.
End Chosen.

(** ** What was left out *)

Lemma tally_spec names a : candidates_by_family names !! a =
  let n := zlen (base.filter (fun x => thread_name_family x = a) names) in if n =? 0 then None else Some n.
Proof.
  unfold candidates_by_family. induction names as [|x names IH] using rev_ind; [apply lookup_empty|].
  rewrite foldl_app, list.filter_app, zlen_app. cbn [foldl]. cbv zeta. destruct (decide (thread_name_family x = a)) as [<-|Ha].
  - rewrite lookup_insert_eq, filter_cons_True, IH by done. cbv zeta. unfold zlen. simpl.
    destruct (Z.eqb_spec (Z.of_nat (length (base.filter (fun y => thread_name_family y = thread_name_family x) names))) 0) as [E|E].
    + rewrite E. done.
    + rewrite (proj2 (Z.eqb_neq _ 0)) by lia. done.
  - rewrite lookup_insert_ne, filter_cons_False, IH by done. simpl. by rewrite Z.add_0_r.
Qed.

Lemma rest_spec (tally : gmap string Z) shown a : (forall n, tally !! a = Some n -> 0 <= n) ->
  foldl (fun t n => alter (fun k => Z.max 0 (k - 1)) (thread_name_family n) t) tally shown !! a =
  (fun n => Z.max 0 (n - zlen (base.filter (fun x => thread_name_family x = a) shown))) <$> tally !! a.
Proof.
  intros H. induction shown as [|x shown IH] using rev_ind.
  { simpl. destruct (tally !! a) as [n|]; simpl; [|done]. specialize (H n eq_refl). f_equal. unfold zlen. simpl. lia. }
  rewrite foldl_app, list.filter_app, zlen_app. cbn [foldl]. destruct (decide (thread_name_family x = a)) as [<-|Ha].
  - rewrite lookup_alter_eq, IH, filter_cons_True by done. destruct (tally !! thread_name_family x); simpl; [|done]. f_equal. unfold zlen. simpl. lia.
  - rewrite lookup_alter_ne, IH, filter_cons_False by done. simpl. by rewrite Z.add_0_r.
Qed.

#[export] Instance biggest_first_trans : Transitive biggest_first.
Proof.
  intros [a m] [b n] [c o]. unfold biggest_first. simpl. intros [H1|[E1 H1]] [H2|[E2 H2]]; [left; lia|left; lia|left; lia|right].
  split; [lia|]. by eapply bytes_le_trans.
Qed.
#[export] Instance biggest_first_total : Total biggest_first.
Proof.
  intros [a m] [b n]. unfold biggest_first. simpl. destruct (Z.lt_total m n) as [?|[->|?]]; [by right; left| |by left; left].
  destruct (bytes_le_total (bytes_of_string a) (bytes_of_string b)); [left|right]; by right.
Qed.

(** Each family with threads left out is there once, with how many, the biggest first. *)
Lemma withheld_spec names shown :
  (forall a n, (a, n) ∈ withheld_by_family (candidates_by_family names) shown <->
     0 < n /\ n = zlen (base.filter (fun x => thread_name_family x = a) names) - zlen (base.filter (fun x => thread_name_family x = a) shown)) /\
  NoDup (map fst (withheld_by_family (candidates_by_family names) shown)) /\
  StronglySorted biggest_first (withheld_by_family (candidates_by_family names) shown).
Proof.
  unfold withheld_by_family. set (rest := foldl _ _ _).
  assert (R : forall a n, rest !! a = Some n <->
    0 < zlen (base.filter (fun x => thread_name_family x = a) names) /\
    n = Z.max 0 (zlen (base.filter (fun x => thread_name_family x = a) names) - zlen (base.filter (fun x => thread_name_family x = a) shown))).
  { intros a n. unfold rest. rewrite rest_spec, tally_spec; [|rewrite tally_spec; cbv zeta; intros m; destruct (_ =? 0); [done|intros [= <-]; unfold zlen; lia]].
    cbv zeta. destruct (Z.eqb_spec (zlen (base.filter (fun x => thread_name_family x = a) names)) 0) as [E|E]; simpl.
    - split; [done|]. intros [? _]. lia.
    - split; [intros [= <-]; split; [unfold zlen in *; lia|done]|by intros [_ ->]]. }
  split_and!.
  - intros a n. rewrite merge_sort_Permutation, list_elem_of_filter, elem_of_map_to_list, R. simpl. unfold zlen. lia.
  - rewrite merge_sort_Permutation. eapply list.sublist_NoDup; [apply (NoDup_fst_map_to_list rest)|].
    change (fst <$> base.filter (fun e : string * Z => 0 < snd e) (map_to_list rest) `sublist_of` fst <$> map_to_list rest). apply fmap_sublist, sublist_filter.
  - apply StronglySorted_merge_sort; apply _.
Qed.
