(* ===== verification/ThreadListing.v ===== *)
(** * Listing the threads ([mcp-server/src/handlers.rs])

    Every thread's name, a status where the suspended ones were asked for, the choice of rows by family,
    and the reply with what it cost. What [f64] and [to_lowercase] of the standard library answer are
    parameters. *)

From S2P Require Import Prelude Protocol Types Reader Connection Client StopPoint Suspensions Session Manager Generics Text Host Watchdog Control Locate.
From S2P Require Import Reading Families.

(** [str::to_lowercase], over all of Unicode. *)
Class Lowercase : Type := { to_lowercase : string -> string }.

(** Durations in milliseconds as the notes print them: of [wire] over [cost] packets, to two decimals; of
    [held] over [read] rows, to one decimal, and of what the [skipped] rows and all of them would take. *)
Class Millis : Type := {
  millis_per_packet : Z -> Z -> string;
  millis_truncated : Z -> Z -> Z -> string * string * string;
}.

Definition ThreadRow : Type := Z * string * option string.
Definition row_id (r : ThreadRow) : Z := fst (fst r).
Definition row_name (r : ThreadRow) : string := snd (fst r).
Record ThreadListing : Type := { tl_rows : list ThreadRow; tl_selection : FamilySelection }.

Section Listing.
Context `{BC : BytesCrate} `{D : Debuggee} `{CL : Clock} `{LC : Lowercase} `{MS : Millis}.

(** [filter.is_none_or(|f| name.to_lowercase().contains(f))]. *)
Definition name_wanted (name_filter : option string) (name : string) : bool :=
  match name_filter with
  | None => true
  | Some f => contains (bytes_of_string f) (bytes_of_string (to_lowercase name))
  end.
(** [as_deref().filter(|s| !s.is_empty()).map(str::to_lowercase)]. *)
Definition given_filter (filter : option string) : option string :=
  match filter with Some f => if String.eqb f "" then None else Some (to_lowercase f) | None => None end.

(** A row for a thread whose status could be read and is suspended. *)
Definition suspended_row (e : Z * string * JdwpResult (Z * Z)) : option ThreadRow :=
  match e with
  | (tid, name, Ok (ts, ss)) => if ss =? 0 then None else Some (tid, name, Some (thread_status_name ts))
  | (_, _, Err _) => None
  end.

(** The rows chosen of [candidates], in the order they are in. *)
Definition choose_rows (limit : Z) (candidates : list ThreadRow) : ThreadListing :=
  let names := map row_name candidates in
  let '(order, families) := family_round_robin names in
  let picked := merge_sort le (take (Z.to_nat limit) order) in
  let rows := omap (fun i => candidates !! i) picked in
  {| tl_rows := rows;
     tl_selection := {| fs_eligible := zlen candidates; fs_families := Z.of_nat families;
                        fs_withheld := withheld_by_family (candidates_by_family names) (map row_name rows) |} |}.

Definition collect_thread_rows (all : list Z) (limit : Z) (name_filter : option string) (only_suspended : bool) : St ThreadListing :=
  names ← read_thread_names_independently all;
  let visible := base.filter (fun e => name_wanted name_filter (snd e) = true) (zip all (map (unwrap_or "") names)) in
  candidates ← (if only_suspended then
      statuses ← read_thread_statuses_independently (map fst visible);
      mret (omap suspended_row (zip visible statuses))
    else mret (map (fun e => (fst e, snd e, None)) visible) : St (list ThreadRow));
  mret (choose_rows limit candidates).

(** ** What it cost *)

Definition per_packet_note (cost wire : Z) : string :=
  if cost <? 2 then "" else ", " +s+ millis_per_packet cost wire +s+ "ms each (round trip + our own processing)".
Definition round_trip_note (cost trips : Z) : string :=
  if (cost <=? trips) || (trips =? 0) then ""
  else " in ~" +s+ pretty trips +s+ " round trip(s) — independent reads share one, so the packet count above is what crossed the wire and this is what was waited for".
Definition list_cost_note (cost trips wire shown : Z) (filtering : bool) : string :=
  let comparison :=
    if filtering then " — one per thread NAME. A filtered listing always read every name to apply the filter, so choosing by family costs it nothing extra."
    else " — one per thread NAME, because choosing by family has to read them all: taking the first " +s+ pretty shown +s+
         " in list order would have cost " +s+ pretty (shown + 1) +s+ ", and would have been the wrong " +s+ pretty shown +s+
         ". Still one packet per thread, against a dump's ~8 per thread it shows." in
  "💸 Cost: " +s+ pretty cost +s+ " JDWP packet(s)" +s+ round_trip_note cost trips +s+ per_packet_note cost wire +s+ comparison +s+ newline.

(** ** The reply *)

(** How long each held thread has been held, by thread id. *)
Fixpoint held_since (held : list (Z * ThreadSuspend)) : H (list (Z * (string * Z))) :=
  match held with
  | [] => mret []
  | (t, r) :: held =>
    at_ ← now;
    rest ← held_since held;
    mret ((t, (ts_name r, saturating_duration_since at_ (ts_since r))) :: rest)
  end.
Definition held_of (held : list (Z * (string * Z))) (tid : Z) : option (string * Z) :=
  snd <$> List.find (fun e => fst e =? tid) held.

Definition thread_line (held : list (Z * (string * Z))) (r : ThreadRow) : string :=
  let '(tid, name, status) := r in
  let mine := match held_of held tid with
              | Some (_, since) => " ⏸️ SUSPENDED BY YOU (" +s+ ago since +s+ ", debug.resume_thread releases it)"
              | None => ""
              end in
  hex_thread tid +s+ " " +s+ name +s+ match status with Some s => " [" +s+ s +s+ "]" | None => "" end +s+ mine +s+ newline.
Definition unshown_line (held : list (Z * (string * Z))) (rows : list ThreadRow) : string :=
  match base.filter (fun e => forallb (fun r => negb (row_id r =? fst e)) rows = true) held with
  | [] => ""
  | unshown =>
    "⏸️  Also held by this session but not on this page: " +s+
    join ", " (map (fun e => hex_thread (fst e) +s+ " " +s+ quoted (fst (snd e)) +s+ " (" +s+ ago (snd (snd e)) +s+ ")") unshown) +s+ newline
  end.
Definition listing_note (name_filter : option string) (only_suspended : bool) : string :=
  match name_filter with Some f => " name~" +s+ quoted f | None => "" end +s+ (if only_suspended then " suspended-only" else "").

Definition render_listing (total : Z) (l : ThreadListing) (held : list (Z * (string * Z))) (name_filter : option string)
    (only_suspended : bool) (cost trips wire : Z) : string :=
  let shown := zlen (tl_rows l) in
  let hidden := sat_sub (fs_eligible (tl_selection l)) shown in
  pretty shown +s+ "/" +s+ pretty total +s+ " thread(s)" +s+ listing_note name_filter only_suspended +s+ ":" +s+ newline +s+
  family_order_note shown (tl_selection l) +s+
  foldr (fun r out => thread_line held r +s+ out) "" (tl_rows l) +s+
  unshown_line held (tl_rows l) +s+
  (if 0 <? hidden then
     "… +" +s+ pretty hidden +s+ " more (raise limit or use name_filter)" +s+ withheld_note (fs_withheld (tl_selection l)) +s+ newline +s+
     list_cost_note cost trips wire shown (is_some name_filter || only_suspended)
   else "").

Definition handle_list_threads (name_filter : option string) (only_suspended : bool) (limit : Z) : H (result string string) :=
  let filter := given_filter name_filter in
  before ← conn packets_sent;
  waits_before ← conn round_trips;
  wire_from ← now;
  h_try (conn_or "Failed to get threads: " get_all_threads) (fun all =>
    listing ← conn (collect_thread_rows all (Z.max limit 1) filter only_suspended);
    cost ← conn packets_sent;
    trips ← conn round_trips;
    wire_to ← now;
    s ← session;
    held ← held_since (btree_iter (su_threads (ds_suspensions s)));
    mret (Ok (render_listing (zlen all) listing held filter only_suspended (sat_sub cost before) (sat_sub trips waits_before)
                (saturating_duration_since wire_to wire_from)))).
End Listing.
