(* ===== verification/ThreadDump.v ===== *)
(** * Dumping the threads ([mcp-server/src/handlers.rs])

    Every thread's name and status in waves of sixteen, then stack and monitors of the rows chosen by
    family, within the time the virtual machine may be held suspended. *)

From S2P Require Import Prelude Protocol Types Reader Connection Client StopPoint Suspensions Session Manager Generics Text Host Watchdog Control Locate EventPump.
From S2P Require Import Reading Families ThreadListing.

Record ThreadDumpArgs : Type := {
  da_name_filter : option string;
  da_only_suspended : bool;
  da_limit : Z;
  da_max_frames : Z;
  da_package_filter : option string;
  da_monitors : bool;
  da_monitors_only : bool;
  da_suspend : bool;
  da_max_suspend_ms : Z;
}.

Inductive DumpStack : Type :=
| StackFrames (frames : list string)
| StackUnreadable (why : string)
| StackOmitted.

Record DumpRow : Type := {
  dr_id : Z; dr_name : string; dr_status : string; dr_suspended : bool; dr_finished : bool; dr_stack : DumpStack;
  dr_frames_hidden : Z; dr_holds : list (string * Z); dr_waiting_on : option (string * Z); dr_monitor_note : option string;
}.

Record DumpCandidate : Type := { dc_seen : nat; dc_tid : Z; dc_name : string; dc_status : string; dc_suspended : bool; dc_finished : bool }.
Record DumpTriage : Type := { dt_candidates : list DumpCandidate; dt_untriaged : Z; dt_vanished : Z }.
Record DumpOutcome : Type := { do_rows : list DumpRow; do_unread : Z; do_vanished : Z; do_selection : FamilySelection }.

Definition THREAD_STATUS_ZOMBIE : Z := 0.

(** [all.chunks(n)]; the fuel is the length of the list. *)
Fixpoint chunks_of {A} (fuel n : nat) (l : list A) : list (list A) :=
  match fuel, l with
  | S fuel, _ :: _ => take n l :: chunks_of fuel n (drop n l)
  | _, _ => []
  end.
Definition chunks {A} (n : nat) (l : list A) : list (list A) := chunks_of (length l) n l.

(** The names and line tables a dump has read already. *)
Record DumpCaches : Type := { ca_classes : gmap Z string; ca_monitors : gmap Z string; ca_lines : gmap (Z * Z) (option LineTable) }.
Definition no_caches : DumpCaches := {| ca_classes := ∅; ca_monitors := ∅; ca_lines := ∅ |}.
Definition with_class c n ca := {| ca_classes := <[c := n]> (ca_classes ca); ca_monitors := ca_monitors ca; ca_lines := ca_lines ca |}.
Definition with_monitor m n ca := {| ca_classes := ca_classes ca; ca_monitors := <[m := n]> (ca_monitors ca); ca_lines := ca_lines ca |}.
Definition with_lines k lt ca := {| ca_classes := ca_classes ca; ca_monitors := ca_monitors ca; ca_lines := <[k := lt]> (ca_lines ca) |}.

Definition unreadable_reason (finished monitors_only : bool) : string :=
  let what := if monitors_only then "locks" else "stack" in
  if finished then
    "finished — this thread has already terminated (JDWP reports ZOMBIE), so there is no " +s+ what +s+
    " left to read; suspend:true cannot help, because a finished thread can never be suspended"
  else "running — JDWP can only read a suspended thread's " +s+ what +s+ "; pass suspend:true".

Section Dump.
Context `{BC : BytesCrate} `{D : Debuggee} `{CL : Clock} `{LC : Lowercase}.

(** ** Reads that are kept for the dump *)

Definition resolve_class_name (class_id : Z) (ca : DumpCaches) : St (string * DumpCaches) :=
  match ca_classes ca !! class_id with
  | Some n => mret (n, ca)
  | None =>
    sig ← st_ok (get_signature class_id);
    let named := match sig with Some s => let n := decode_signature s in if String.eqb n "" then None else Some n | None => None end in
    let n := default ("class@" +s+ show_hex class_id) named in
    mret (n, with_class class_id n ca)
  end.

Definition dump_frame_method (loc : Location) (ca : DumpCaches) : St (string * option Z * DumpCaches) :=
  methods ← st_ok (get_methods (loc_class_id loc));
  let method := match methods ≫= List.find (fun m => mi_method_id m =? loc_method_id loc) with
                | Some m => mi_name m
                | None => "method@" +s+ show_hex (loc_method_id loc)
                end in
  let key := (loc_class_id loc, loc_method_id loc) in
  match ca_lines ca !! key with
  | Some lt => mret (method, lt ≫= fun t => line_at t (loc_index loc), ca)
  | None =>
    fetched ← st_ok (get_line_table (loc_class_id loc) (loc_method_id loc));
    mret (method, fetched ≫= fun t => line_at t (loc_index loc), with_lines key fetched ca)
  end.

Definition monitor_label (object_id : Z) (ca : DumpCaches) : St (string * DumpCaches) :=
  match ca_monitors ca !! object_id with
  | Some n => mret (n, ca)
  | None =>
    t ← attempt (get_object_reference_type object_id);
    name ← match t with
           | Ok rt => sig ← st_ok (get_signature rt);
                      mret (match sig with Some s => let n := decode_signature s in if String.eqb n "" then "?" else n | None => "?" end)
           | Err _ => mret "?"
           end;
    let label := name +s+ "@" +s+ show_hex object_id in
    mret (label, with_monitor object_id label ca)
  end.

(** ** A thread's stack *)

Definition frame_text (idx : Z) (class method : string) (line : option Z) : string :=
  "#" +s+ pretty idx +s+ " " +s+ class +s+ "." +s+ method +s+ match line with Some l => ":" +s+ pretty l | None => "" end.
Definition package_wanted (package_filter : option string) (class : string) : bool := name_wanted package_filter class.

(** The frames from [idx] on, [out] kept and [hidden] counted so far. *)
Fixpoint dump_frames (max_frames depth : Z) (package_filter : option string) (idx : Z) (frames : list Frame) (out : list string) (hidden : Z)
    (ca : DumpCaches) : St (list string * Z * DumpCaches) :=
  match frames with
  | [] => mret (out, hidden, ca)
  | f :: frames =>
    if max_frames <=? zlen out then mret (out, depth - zlen out - hidden, ca) else
    '(class, ca) ← resolve_class_name (loc_class_id (fr_location f)) ca;
    if negb (package_wanted package_filter class) then
      dump_frames max_frames depth package_filter (idx + 1) frames out (hidden + 1) ca
    else
      '(method, line, ca) ← dump_frame_method (fr_location f) ca;
      dump_frames max_frames depth package_filter (idx + 1) frames (out ++ [frame_text idx class method line]) hidden ca
  end.
Definition read_dump_stack (tid max_frames : Z) (package_filter : option string) (ca : DumpCaches) : St (DumpStack * Z * DumpCaches) :=
  r ← attempt (get_frames tid 0 (-1));
  match r with
  | Err e => mret (StackUnreadable ("stack unreadable: " +s+ display_error e), 0, ca)
  | Ok frames =>
    '(out, hidden, ca) ← dump_frames max_frames (zlen frames) package_filter 0 frames [] 0 ca;
    mret (StackFrames out, hidden, ca)
  end.

(** ** A thread's monitors *)

Fixpoint monitor_labels (ms : list Monitor) (ca : DumpCaches) : St (list (string * Z) * DumpCaches) :=
  match ms with
  | [] => mret ([], ca)
  | m :: ms =>
    '(label, ca) ← monitor_label (mon_object_id m) ca;
    '(labels, ca) ← monitor_labels ms ca;
    mret ((label, mon_object_id m) :: labels, ca)
  end.
Definition read_thread_monitors (tid : Z) (ask : bool) (ca : DumpCaches) :
    St (list (string * Z) * option (string * Z) * option string * DumpCaches) :=
  if negb ask then mret ([], None, None, ca) else
  owned ← attempt (owned_monitors tid);
  '(holds, note, ca) ← match owned with
                       | Ok ms => '(labels, ca) ← monitor_labels ms ca; mret (labels, None, ca)
                       | Err e => mret ([], Some ("owned monitors unreadable: " +s+ display_error e), ca)
                       end;
  contended ← attempt (current_contended_monitor tid);
  match contended with
  | Ok (Some m) => '(label, ca) ← monitor_label (mon_object_id m) ca; mret (holds, Some (label, mon_object_id m), note, ca)
  | Ok None => mret (holds, None, note, ca)
  | Err e => mret (holds, None, Some ("contended monitor unreadable: " +s+ display_error e), ca)
  end.

(** ** Triage *)

(** [deadline.is_some_and(|d| Instant::now() >= d)]. *)
Definition deadline_passed (deadline : option Z) : H bool :=
  match deadline with Some d => at_ ← now; mret (d <=? at_) | None => mret false end.

Definition window_wanted (name_filter : option string) (triaged : nat) (window : list Z) (names : list (JdwpResult string)) : list (nat * Z * string) :=
  base.filter (fun e => name_wanted name_filter (snd e) = true)
    (imap (fun at_ name => ((triaged + at_)%nat, default 0 (window !! at_), unwrap_or "" name)) names).

(** The candidates of a window and how many of its threads are gone. *)
Fixpoint triage_statuses (only_suspended : bool) (l : list (nat * Z * string * JdwpResult (Z * Z))) : list DumpCandidate * Z :=
  match l with
  | [] => ([], 0)
  | (_, _, _, Err _) :: l => let '(cs, vanished) := triage_statuses only_suspended l in (cs, vanished + 1)
  | (seen, tid, name, Ok (ts, ss)) :: l =>
    let '(cs, vanished) := triage_statuses only_suspended l in
    let suspended := negb (ss =? 0) in
    if only_suspended && negb suspended then (cs, vanished)
    else ({| dc_seen := seen; dc_tid := tid; dc_name := name; dc_status := thread_status_name ts; dc_suspended := suspended;
             dc_finished := ts =? THREAD_STATUS_ZOMBIE |} :: cs, vanished)
  end.
Definition triage_window (only_suspended : bool) (name_filter : option string) (triaged : nat) (window : list Z) : St (list DumpCandidate * Z) :=
  names ← read_thread_names_independently window;
  let wanted := window_wanted name_filter triaged window names in
  statuses ← read_thread_statuses_independently (map (fun e => snd (fst e)) wanted);
  mret (triage_statuses only_suspended (zip wanted statuses)).

Fixpoint triage_windows (only_suspended : bool) (name_filter : option string) (deadline : option Z) (total : nat) (windows : list (list Z))
    (triaged : nat) (t : DumpTriage) : H DumpTriage :=
  match windows with
  | [] => mret t
  | window :: windows =>
    passed ← deadline_passed deadline;
    if passed : bool then
      mret {| dt_candidates := dt_candidates t; dt_untriaged := Z.of_nat (total - triaged); dt_vanished := dt_vanished t |}
    else
      '(cs, gone) ← conn (triage_window only_suspended name_filter triaged window);
      triage_windows only_suspended name_filter deadline total windows (triaged + length window)
        {| dt_candidates := dt_candidates t ++ cs; dt_untriaged := dt_untriaged t; dt_vanished := dt_vanished t + gone |}
  end.
Definition triage_dump_threads (all : list Z) (only_suspended : bool) (name_filter : option string) (deadline : option Z) : H DumpTriage :=
  at_ ← now;
  let triage_deadline := (fun d => at_ + saturating_duration_since d at_ / 2) <$> deadline in
  triage_windows only_suspended name_filter triage_deadline (length all) (chunks MAX_READS_IN_FLIGHT all) 0
    {| dt_candidates := []; dt_untriaged := 0; dt_vanished := 0 |}.

(** ** Rows *)

Definition dump_row (a : ThreadDumpArgs) (want_monitors : bool) (package_filter : option string) (c : DumpCandidate) (ca : DumpCaches) :
    St (DumpRow * DumpCaches) :=
  '(stack, hidden, ca) ← (if negb (dc_suspended c) then
      mret (StackUnreadable (unreadable_reason (dc_finished c) (da_monitors_only a)), 0, ca)
    else if da_monitors_only a then mret (StackOmitted, 0, ca)
    else read_dump_stack (dc_tid c) (da_max_frames a) package_filter ca : St (DumpStack * Z * DumpCaches));
  '(holds, waiting_on, note, ca) ← read_thread_monitors (dc_tid c) (want_monitors && dc_suspended c) ca;
  mret ({| dr_id := dc_tid c; dr_name := dc_name c; dr_status := dc_status c; dr_suspended := dc_suspended c; dr_finished := dc_finished c;
           dr_stack := stack; dr_frames_hidden := hidden; dr_holds := holds; dr_waiting_on := waiting_on; dr_monitor_note := note |}, ca).

(** The picks in their order until [limit] rows are read or the time is up; the picks that were left. *)
Fixpoint dump_rows (a : ThreadDumpArgs) (want_monitors : bool) (package_filter : option string) (deadline : option Z) (limit : Z)
    (candidates : list DumpCandidate) (picks : list nat) (rows : list (nat * DumpRow)) (ca : DumpCaches) : H (list (nat * DumpRow) * Z) :=
  match picks with
  | [] => mret (rows, 0)
  | pick :: later =>
    if limit <=? zlen rows then mret (rows, 0) else
    passed ← deadline_passed deadline;
    if passed : bool then mret (rows, zlen picks) else
    match candidates !! pick with
    | None => dump_rows a want_monitors package_filter deadline limit candidates later rows ca
    | Some c =>
      '(row, ca) ← conn (dump_row a want_monitors package_filter c ca);
      dump_rows a want_monitors package_filter deadline limit candidates later (rows ++ [(dc_seen c, row)]) ca
    end
  end.

Definition seen_le (a b : nat * DumpRow) : Prop := (fst a <= fst b)%nat.
#[local] Instance seen_le_dec a b : Decision (seen_le a b) := decide (fst a <= fst b)%nat.

Definition collect_dump_rows (all : list Z) (a : ThreadDumpArgs) (caps : option VmCapabilities) (deadline : option Z) : H DumpOutcome :=
  let name_filter := given_filter (da_name_filter a) in
  let package_filter := given_filter (da_package_filter a) in
  let limit := Z.max (da_limit a) 1 in
  let want_monitors := da_monitors a &&
    match caps with Some c => can_get_owned_monitor_info c || can_get_current_contended_monitor c | None => false end in
  triage ← triage_dump_threads all (da_only_suspended a) name_filter deadline;
  let candidates := dt_candidates triage in
  let names := map dc_name candidates in
  let '(order, families) := family_round_robin names in
  '(rows, unread) ← dump_rows a want_monitors package_filter deadline limit candidates order [] no_caches;
  let rows := map snd (merge_sort seen_le rows) in
  mret {| do_rows := rows; do_unread := dt_untriaged triage + unread; do_vanished := dt_vanished triage;
          do_selection := {| fs_eligible := zlen candidates; fs_families := Z.of_nat families;
                             fs_withheld := withheld_by_family (candidates_by_family names) (map dr_name rows) |} |}.
End Dump.
