(* ===== verification/DumpText.v ===== *)
(** * The text of a thread dump, and the tool ([mcp-server/src/handlers.rs])

    Rows with the same stack, state and monitors are shown once; a contended monitor names its holder
    among the rows; the shortfall is split by its cause. And [handle_thread_dump], which may suspend the
    virtual machine for the reads and then resumes it. *)

From S2P Require Import Prelude Protocol Types Reader Connection Client StopPoint Suspensions Session Manager Generics Text Host Watchdog Control.
From S2P Require Import Reading Families ThreadListing ThreadDump.

(** ** Groups *)

Definition GROUP_IDS_SHOWN : nat := 8.

Record DumpGroupKey : Type := {
  gk_status : string; gk_suspended : bool; gk_finished : bool; gk_family : string; gk_frames : list string;
  gk_frames_hidden : Z; gk_waiting_on : option (string * Z); gk_holds : list (string * Z); gk_monitor_note : option string;
}.
#[export] Instance DumpGroupKey_eq_dec : EqDecision DumpGroupKey.
Proof. solve_decision. Defined.

Definition dump_group_key (r : DumpRow) : option DumpGroupKey :=
  match dr_stack r with
  | StackFrames (f :: fs) =>
    Some {| gk_status := dr_status r; gk_suspended := dr_suspended r; gk_finished := dr_finished r; gk_family := thread_name_family (dr_name r);
            gk_frames := f :: fs; gk_frames_hidden := dr_frames_hidden r; gk_waiting_on := dr_waiting_on r; gk_holds := dr_holds r;
            gk_monitor_note := dr_monitor_note r |}
  | _ => None
  end.

(** [seen] maps a key to its place among the groups. *)
Definition group_step (st : list (list nat) * list (DumpGroupKey * nat)) (e : nat * DumpRow) : list (list nat) * list (DumpGroupKey * nat) :=
  let '(groups, seen) := st in
  match dump_group_key (snd e) with
  | None => (groups ++ [[fst e]], seen)
  | Some key =>
    match snd <$> List.find (fun s => bool_decide (fst s = key)) seen with
    | Some g => (alter (fun members => members ++ [fst e]) g groups, seen)
    | None => (groups ++ [[fst e]], (key, length groups) :: seen)
    end
  end.
Definition dump_groups (rows : list DumpRow) : list (list nat) := fst (foldl group_step ([], []) (zip (seq 0 (length rows)) rows)).

(** ** One entry *)

(** Who holds each monitor, of the rows: the last that says so. *)
Definition holders (rows : list DumpRow) : gmap Z (Z * string) :=
  foldl (fun m r => foldl (fun m h => <[snd h := (dr_id r, dr_name r)]> m) m (dr_holds r)) ∅ rows.

Definition lines (ls : list string) : string := foldr (fun l out => "   " +s+ l +s+ newline +s+ out) "" ls.
Definition hidden_line (n : Z) : string := if 0 <? n then "   … " +s+ pretty n +s+ " frame(s) hidden" +s+ newline else "".

Definition render_dump_monitors (r : DumpRow) (holder : gmap Z (Z * string)) : string :=
  match dr_waiting_on r with
  | Some (label, oid) =>
    "   waiting to enter: " +s+ label +s+
    match holder !! oid with Some (htid, hname) => " ← held by " +s+ hex_thread htid +s+ " " +s+ quoted hname | None => "" end +s+ newline
  | None => ""
  end +s+
  match dr_holds r with [] => "" | holds => "   holds: " +s+ join ", " (map fst holds) +s+ newline end +s+
  match dr_monitor_note r with Some n => "   ⚠️  " +s+ n +s+ newline | None => "" end.

Definition suspended_mark (r : DumpRow) : string := if dr_suspended r then " debugger-suspended" else "".

Definition render_dump_row (r : DumpRow) (holder : gmap Z (Z * string)) : string :=
  newline +s+ hex_thread (dr_id r) +s+ " " +s+ quoted (dr_name r) +s+ " [" +s+ dr_status r +s+ "]" +s+ suspended_mark r +s+ newline +s+
  render_dump_monitors r holder +s+
  match dr_stack r with
  | StackFrames [] => "   (no frames)" +s+ newline
  | StackFrames frames => lines frames +s+ hidden_line (dr_frames_hidden r)
  | StackUnreadable why => "   ⚠️  " +s+ why +s+ newline
  | StackOmitted => ""
  end.

Definition render_dump_group (rows : list DumpRow) (group : list nat) (holder : gmap Z (Z * string)) : string :=
  match head group ≫= fun i => rows !! i with
  | None => ""
  | Some r =>
    if (length group =? 1)%nat then render_dump_row r holder else
    let n := pretty (zlen group) in
    let ids := map (fun r => hex_thread (dr_id r)) (omap (fun i => rows !! i) (take GROUP_IDS_SHOWN group)) in
    newline +s+ "×" +s+ n +s+ " " +s+ quoted (thread_name_family (dr_name r)) +s+ " [" +s+ dr_status r +s+ "]" +s+ suspended_mark r +s+ " — " +s+ n +s+
    " thread(s) with an IDENTICAL stack" +s+ newline +s+
    render_dump_monitors r holder +s+
    "   ids: " +s+ join ", " ids +s+
    (if (GROUP_IDS_SHOWN <? length group)%nat then " … +" +s+ pretty (zlen group - Z.of_nat GROUP_IDS_SHOWN) +s+ " more" else "") +s+ newline +s+
    match dr_stack r with StackFrames frames => lines frames | _ => "" end +s+
    hidden_line (dr_frames_hidden r)
  end.

(** ** The header *)

Record DumpMeta : Type := {
  dm_total : Z; dm_already_suspended : bool; dm_resume_note : string; dm_cost : Z; dm_round_trips : Z; dm_wire : Z;
  dm_held : option Z; dm_unread : Z; dm_vanished : Z; dm_selection : FamilySelection;
}.

(** Why a dump is shorter than the machine: withheld, and vanished. *)
Definition dump_shortfall (rows_shown : Z) (meta : DumpMeta) : Z * Z :=
  let hidden := sat_sub (dm_total meta) rows_shown in
  let vanished := Z.min (dm_vanished meta) hidden in
  (hidden - vanished, vanished).

Definition collapsed (groups : list (list nat)) : list (list nat) := base.filter (fun g => (1 < length g)%nat) groups.
Definition MONITORS_NEVER_COLLAPSED : string :=
  "      Threads holding or waiting on a monitor are never collapsed: a lock is a per-thread fact, and the `held by` correlation is what a deadlock investigation reads.".
Definition dump_collapse_note (rows : list DumpRow) (groups : list (list nat)) (withheld : Z) : string :=
  match collapsed groups with
  | [] => ""
  | gs =>
    "   🧬 " +s+ pretty (foldr Z.add 0 (map zlen gs)) +s+ " of the " +s+ pretty (zlen rows) +s+ " thread(s) below share a stack and are shown as " +s+
    pretty (zlen gs) +s+ " collapsed entry/entries (×N) — a pool parked at one site is ONE fact, not N rows." +s+ newline +s+
    "      COLLAPSED IS NOT OMITTED, TRUNCATED OR VANISHED: every thread in a group was read and is counted in the total above. A group's count is over the threads this dump READ, so if a footer below says more were withheld, whether THOSE share the stack is unknown." +s+
    (if 0 <? withheld then " Raise limit to find out."
     else " Nothing was withheld here, so every thread the JVM listed is accounted for above.") +s+ newline +s+
    MONITORS_NEVER_COLLAPSED +s+ newline
  end.

Definition nonempty (f : option string) : option string :=
  match f with Some s => if String.eqb s "" then None else Some s | None => None end.
Definition dump_filter_note (a : ThreadDumpArgs) : string :=
  match nonempty (da_name_filter a) with Some f => " name~" +s+ quoted f | None => "" end +s+
  (if da_only_suspended a then " suspended-only" else "") +s+
  (if da_monitors_only a then "" else match nonempty (da_package_filter a) with Some p => " frames~" +s+ quoted p | None => "" end) +s+
  (if da_monitors_only a then " monitors-only" else "").

Definition monitors_only_caveat (a : ThreadDumpArgs) : string :=
  if da_monitors_only a then
    "   🔒 monitors-only — locks were read and stacks deliberately were NOT (~4 JDWP packets per thread rather than ~4 plus ~3 per frame), so a thread with no frames listed here means " +s+
    quoted "not requested" +s+ ", not " +s+ quoted "idle" +s+ ". Drop monitors_only for stacks." +s+ newline +s+
    match nonempty (da_package_filter a) with
    | Some p => "   ℹ️  package_filter " +s+ quoted p +s+ " and max_frames had no effect — monitors-only reads no frames to filter." +s+ newline
    | None => ""
    end
  else "".
Definition dump_monitor_caveats (a : ThreadDumpArgs) (caps : option VmCapabilities) : string :=
  let owned := match caps with Some c => can_get_owned_monitor_info c | None => false end in
  let contended := match caps with Some c => can_get_current_contended_monitor c | None => false end in
  monitors_only_caveat a +s+
  if negb (da_monitors a) then "" else
  match caps with
  | Some c =>
    if owned && contended then "" else
    "   ⚠️  This JVM cannot report all monitor info (canGetOwnedMonitorInfo=" +s+ show_bool owned +s+ ", canGetCurrentContendedMonitor=" +s+ show_bool contended +s+
    ") — lock lines are limited to what it supports." +s+ newline
  | None => "   ⚠️  Could not read this JVM's capabilities — monitors were skipped." +s+ newline
  end +s+
  (if da_monitors_only a && negb owned && negb contended then
     "   🛑 …and monitors-only asked for nothing else, so this dump has NO lock payload — its emptiness says nothing about contention. Drop monitors_only to at least get stacks." +s+ newline
   else "").

Definition truncation_estimate `{Millis} (rows_read : Z) (meta : DumpMeta) : string :=
  match dm_held meta with
  | Some held =>
    if (0 <? rows_read) && (0 <? dm_unread meta) then
      let '(per_thread, remaining, full) := millis_truncated held rows_read (dm_unread meta) in
      " At the rate this dump ran (" +s+ per_thread +s+ "ms per thread), the " +s+
      (if dm_unread meta =? 1 then "1 thread" else pretty (dm_unread meta) +s+ " threads") +s+ " it skipped need ~" +s+ remaining +s+
      "ms more — about " +s+ full +s+ "ms for the whole set, so either narrow it or raise max_suspend_ms past that."
    else ""
  | None => ""
  end.

Definition is_unreadable (r : DumpRow) : bool := match dr_stack r with StackUnreadable _ => true | _ => false end.

Definition render_dump_header `{Millis} (rows : list DumpRow) (a : ThreadDumpArgs) (caps : option VmCapabilities) (meta : DumpMeta) (groups : list (list nat)) : string :=
  let unreadable := zlen (base.filter (fun r => is_unreadable r && negb (dr_finished r) = true) rows) in
  "🧵 Thread dump — " +s+ pretty (zlen rows) +s+ "/" +s+ pretty (dm_total meta) +s+ " thread(s)" +s+ dump_filter_note a +s+ newline +s+
  family_order_note (zlen rows) (dm_selection meta) +s+
  dump_collapse_note rows groups (fst (dump_shortfall (zlen rows) meta)) +s+
  (if dm_already_suspended meta then "   VM was already suspended — read as it is, and left suspended." +s+ newline else "") +s+
  (if String.eqb (dm_resume_note meta) "" then "" else "   " +s+ dm_resume_note meta +s+ newline) +s+
  match dm_held meta with Some held => "   ⏱  Held the VM suspended for " +s+ pretty (held / 1000000) +s+ "ms." +s+ newline | None => "" end +s+
  (if 0 <? dm_unread meta then
     "   ✂️  Stopped early — the " +s+ pretty (da_max_suspend_ms a) +s+ "ms suspension budget ran out with " +s+ pretty (dm_unread meta) +s+
     " thread(s) still unexamined, so this dump is INCOMPLETE. Raise max_suspend_ms for a deeper dump, or narrow with name_filter / limit / max_frames / package_filter, which costs nothing." +s+
     truncation_estimate (zlen rows) meta +s+ newline
   else "") +s+
  dump_monitor_caveats a caps +s+
  (if (0 <? unreadable) && negb (da_suspend a) then
     "   ℹ️  " +s+ pretty unreadable +s+ " thread(s) are running, so their stacks and locks can't be read. Pass suspend:true to freeze the VM briefly for a full dump, or only_suspended:true to list just the readable ones." +s+ newline
   else "").

Definition render_thread_dump `{Millis} (rows : list DumpRow) (a : ThreadDumpArgs) (caps : option VmCapabilities) (meta : DumpMeta) : string :=
  let holder := holders rows in
  let groups := dump_groups rows in
  let '(withheld, vanished) := dump_shortfall (zlen rows) meta in
  render_dump_header rows a caps meta groups +s+
  foldr (fun g out => render_dump_group rows g holder +s+ out) "" groups +s+
  (if 0 <? withheld then
     newline +s+ "… +" +s+ pretty withheld +s+ " more thread(s) (raise limit, or narrow with name_filter)" +s+ withheld_note (fs_withheld (dm_selection meta)) +s+ newline
   else "") +s+
  (if 0 <? vanished then
     newline +s+ "… +" +s+ pretty vanished +s+ " more thread(s) ENDED while this dump was reading — the JVM listed them and their ids were already invalid by the time it asked, which is what a pool retiring its workers looks like from here. Nothing to raise or narrow: those threads are gone, and a later dump will simply not list them." +s+ newline
   else "") +s+
  newline +s+ "Cost: " +s+ pretty (dm_cost meta) +s+ " JDWP packet(s)" +s+ round_trip_note (dm_cost meta) (dm_round_trips meta) +s+
  per_packet_note (dm_cost meta) (dm_wire meta) +s+ ".".

(** ** The tool *)

Section Tool.
Context `{BC : BytesCrate} `{D : Debuggee} `{CL : Clock} `{LC : Lowercase} `{MS : Millis}.

(** The resume after a dump that suspended, and what it says. *)
Definition resume_after_dump (probe : Z) : H string :=
  r ← conn (resume_all_fully probe MAX_RESUME_ATTEMPTS);
  match r with
  | Ok (issued, left_) =>
    if left_ =? 0 then
      _ ← on_session (with_suspensions mark_resumed);
      mret ("▶️  Suspended for the dump and resumed again (" +s+ pretty issued +s+ " resume(s)) — verified running.")
    else
      mret ("🛑 Suspended for the dump and the VM is STILL suspended after " +s+ pretty issued +s+ " resume(s) (" +s+ pretty left_ +s+
            " suspend(s) left on the probe thread) — something outside this session is also holding it. Call debug.continue, or debug.panic.")
  | Err e => mret ("🛑 Suspended for the dump and the resume FAILED (" +s+ display_error e +s+ ") — call debug.panic.")
  end.

Definition NEITHER_LOCKS_NOR_STACKS : string :=
  "monitors_only:true with monitors:false asks for neither locks nor stacks — every thread would come back empty, which reads as 'nothing is contended'. Drop one of the two.".

Definition handle_thread_dump (a : ThreadDumpArgs) : H (result string string) :=
  if da_monitors_only a && negb (da_monitors a) then mret (Err NEITHER_LOCKS_NOR_STACKS) else
  before ← conn packets_sent;
  waits_before ← conn round_trips;
  wire_from ← now;
  h_try (conn_or "Failed to get threads: " get_all_threads) (fun all =>
    if bool_decide (all = []) then mret (Ok "No threads — the JVM reported none.") else
    caps ← (if da_monitors a then r ← conn capabilities; mret (ok_of r) else mret None : H (option VmCapabilities));
    s ← session;
    let already := is_some (su_vm (ds_suspensions s)) in
    let suspend_now := da_suspend a && negb already in
    h_try (if suspend_now then
             h_try (conn_or "Failed to suspend for the dump: " suspend_all) (fun _ =>
               at_ ← now;
               _ ← on_session (with_suspensions (mark_suspended ManualPause at_));
               mret (Ok tt))
           else mret (Ok tt)) (fun _ =>
      held_from ← now;
      let deadline := if suspend_now && (0 <? da_max_suspend_ms a) then Some (held_from + da_max_suspend_ms a * 1000000) else None in
      dump ← collect_dump_rows all a caps deadline;
      let rows := do_rows dump in
      held ← (if suspend_now then at_ ← now; mret (Some (saturating_duration_since at_ held_from)) else mret None : H (option Z));
      note ← (if suspend_now then resume_after_dump (match rows with r :: _ => dr_id r | [] => default 0 (head all) end) else mret "");
      cost ← conn packets_sent;
      trips ← conn round_trips;
      wire_to ← now;
      mret (Ok (render_thread_dump rows a caps {|
        dm_total := zlen all; dm_already_suspended := already; dm_resume_note := note; dm_cost := sat_sub cost before;
        dm_round_trips := sat_sub trips waits_before; dm_wire := saturating_duration_since wire_to wire_from; dm_held := held;
        dm_unread := do_unread dump; dm_vanished := do_vanished dump; dm_selection := do_selection dump |})))).
End Tool.
