(* ===== verification/ThreadFacts.v ===== *)
(** * The rows of a listing and of a dump

    Which threads a listing and a dump are about, in which order, and what they say of the rest. *)

From S2P Require Import Prelude Protocol Types Reader Connection Client StopPoint Suspensions Session Manager Generics Text Host Watchdog Control.
From S2P Require Import Locate TracedHits Reading ReadingFacts Families ThreadListing ThreadDump DumpText.

(** ** Waves keep their length *)

Section Waves.
Context `{BC : BytesCrate} `{D : Debuggee}.

Lemma st_map_length {A B} (f : A -> St B) l w : length (fst (st_map f l w)) = length l.
Proof.
  revert w. induction l as [|a l IH]; intros w; [done|]. cbn [st_map]. unfold mbind, st_bind. destruct (f a w) as [b w1].
  specialize (IH w1). destruct (st_map f l w1) as [bs w2]. simpl in *. by rewrite IH.
Qed.

Lemma wave_length {A B} (request_of : A -> St CommandPacket) (decode_reply : ReplyPacket -> JdwpResult B) l w :
  length (fst (wave request_of decode_reply l w)) = length l.
Proof.
  unfold wave, mbind at 1, st_bind at 1. pose proof (st_map_length request_of l w) as L. destruct (st_map request_of l w) as [ps w1].
  unfold read_independently, modify, mbind, st_bind. simpl in *. destruct (issue_all ps [] [] _) as [rs w2] eqn:E.
  apply issue_all_spec in E as (new & more & _ & -> & _ & Z & _); [|simpl; lia]. simpl in *. by rewrite length_map, Z.
Qed.
End Waves.

(** ** Columns of a filtered table *)

Lemma zip_fst_sublist {A B} (l : list A) (k : list B) : map fst (zip l k) `sublist_of` l.
Proof. revert k. induction l as [|a l IH]; intros [|b k]; simpl; [done|by apply sublist_nil_l..|by apply sublist_skip]. Qed.

Lemma map_sublist {A B} (f : A -> B) l k : l `sublist_of` k -> map f l `sublist_of` map f k.
Proof. intros H. exact (fmap_sublist f _ _ H). Qed.

Lemma column_of_filter {A B} (P : A * B -> Prop) `{forall e, Decision (P e)} (l : list A) (k : list B) :
  map fst (base.filter P (zip l k)) `sublist_of` l.
Proof. etransitivity; [apply map_sublist, sublist_filter|apply zip_fst_sublist]. Qed.

(** ** Listing *)

Section Listing.
Context `{BC : BytesCrate} `{D : Debuggee} `{CL : Clock} `{LC : Lowercase} `{MS : Millis}.

(** What a listing says of its candidates. *)
Definition fairly_listed {A} (name : A -> string) (candidates rows : list A) (sel : FamilySelection) : Prop :=
  rows `sublist_of` candidates /\
  (forall a b, (length (of_family name a rows) <= S (length (of_family name b rows)))%nat \/ of_family name b rows = of_family name b candidates) /\
  fs_eligible sel = zlen candidates /\ fs_families sel = zlen (remove_dups (map (fun c => thread_name_family (name c)) candidates)) /\
  NoDup (map fst (fs_withheld sel)) /\ StronglySorted biggest_first (fs_withheld sel) /\
  forall a n, (a, n) ∈ fs_withheld sel <-> 0 < n /\ n = zlen (of_family name a candidates) - zlen (of_family name a rows).

Lemma named_filter {A} (name : A -> string) a l :
  zlen (base.filter (fun x => thread_name_family x = a) (map name l)) = zlen (of_family name a l).
Proof.
  unfold zlen, of_family. f_equal. induction l as [|x l IH]; [done|]. simpl. destruct (decide (thread_name_family (name x) = a)).
  - rewrite !filter_cons_True by done. simpl. by f_equal.
  - by rewrite !filter_cons_False.
Qed.

Lemma chosen_listed {A} (name : A -> string) candidates k : let names := map name candidates in
  fairly_listed name candidates (chosen name candidates k)
    {| fs_eligible := zlen candidates; fs_families := Z.of_nat (snd (family_round_robin names));
       fs_withheld := withheld_by_family (candidates_by_family names) (map name (chosen name candidates k)) |}.
Proof.
  intros names. destruct (withheld_spec names (map name (chosen name candidates k))) as (W & N & S). split_and!; cbn [fs_eligible fs_families fs_withheld]; try done.
  - apply chosen_sublist.
  - apply chosen_fair.
  - destruct (rounds_fair names) as (_ & _ & _ & E). unfold zlen, names in *. by rewrite E, map_map.
  - intros a n. rewrite W. unfold names. by rewrite !named_filter.
Qed.

Lemma choose_rows_chosen limit candidates : 0 <= limit ->
  tl_rows (choose_rows limit candidates) = chosen row_name candidates (Z.to_nat limit) /\
  fairly_listed row_name candidates (tl_rows (choose_rows limit candidates)) (tl_selection (choose_rows limit candidates)).
Proof.
  intros Hl. unfold choose_rows. pose proof (chosen_listed row_name candidates (Z.to_nat limit)) as K. unfold chosen in K. cbv zeta in K |- *.
  destruct (family_round_robin (map row_name candidates)) as [order families] eqn:E. unfold chosen. rewrite E. by split.
Qed.

Lemma listed_candidates all limit f only w : exists candidates,
  fst (collect_thread_rows all limit f only w) = choose_rows limit candidates /\
  map row_id candidates `sublist_of` all /\ Forall (fun r => name_wanted f (row_name r) = true) candidates.
Proof.
  unfold collect_thread_rows, mbind at 1, st_bind at 1. destruct (read_thread_names_independently all w) as [names w1].
  set (visible := base.filter _ _).
  assert (V : map fst visible `sublist_of` all) by apply column_of_filter.
  assert (Wn : Forall (fun e => name_wanted f (snd e) = true) visible).
  { apply List.Forall_forall. intros e [He _]%list_elem_of_In%list_elem_of_filter. done. }
  destruct only; unfold mbind, st_bind; cbn [mret st_ret fst].
  - destruct (read_thread_statuses_independently (map fst visible) w1) as [statuses w2]. eexists. split; [done|].
    clearbody visible. clear - V Wn. revert statuses. split.
    + etransitivity; [|exact V]. clear V. revert statuses. induction visible as [|[tid n] visible IH]; intros [|st statuses]; simpl; [done|apply sublist_nil_l..|].
      apply list.Forall_cons in Wn as [_ Wn]. specialize (IH Wn statuses). change (list_omap _ _ ?f ?l) with (omap f l).
      destruct st as [[ts ss]|e]; simpl; [destruct (ss =? 0); simpl|]; (by apply sublist_skip) || by apply sublist_cons.
    + clear V. revert statuses. induction visible as [|[tid n] visible IH]; intros [|st statuses]; simpl; [constructor..|].
      apply list.Forall_cons in Wn as [Hn Wn]. specialize (IH Wn statuses). change (list_omap _ _ ?f ?l) with (omap f l).
      destruct st as [[ts ss]|e]; simpl; [destruct (ss =? 0); simpl|]; try done. by constructor.
  - eexists. split; [done|]. rewrite map_map. split; [exact V|]. apply Forall_map. exact Wn.
Qed.
End Listing.

(** ** The dump *)

Section Dump.
Context `{BC : BytesCrate} `{D : Debuggee} `{CL : Clock} `{LC : Lowercase}.

Definition candidate_at (c : DumpCandidate) : nat * Z := (dc_seen c, dc_tid c).

Lemma window_columns f triaged window (names : list (JdwpResult string)) : length names = length window ->
  map fst (window_wanted f triaged window names) `sublist_of` zip (seq triaged (length window)) window.
Proof.
  intros L. unfold window_wanted. set (l := imap _ names).
  assert (map fst l = zip (seq triaged (length window)) window) as <-; [|apply map_sublist, sublist_filter].
  apply list_eq. intros i. unfold l. change (map fst ?l) with (fst <$> l). rewrite list_lookup_fmap, list_lookup_imap, lookup_zip_with.
  destruct (names !! i) as [n|] eqn:E.
  - assert (i < length window)%nat as Hi by (rewrite <- L; by eapply lookup_lt_Some).
    destruct (lookup_lt_is_Some_2 window i Hi) as [t Ht]. rewrite lookup_seq_lt by done. simpl. by rewrite Ht.
  - apply lookup_ge_None in E. rewrite (proj2 (lookup_ge_None (seq _ _) i)) by (rewrite length_seq; lia). done.
Qed.

Lemma statuses_columns only l : let '(cs, gone) := triage_statuses only l in
  map candidate_at cs `sublist_of` map (fun e => fst (fst e)) l /\ 0 <= gone /\ zlen cs + gone <= zlen l.
Proof.
  induction l as [|[[[seen tid] name] st] l IH]; simpl; [split; [apply sublist_nil_l|unfold zlen; simpl; lia]|].
  assert (zlen ((seen, tid, name, st) :: l) = zlen l + 1) as -> by (unfold zlen; simpl; lia).
  destruct (triage_statuses only l) as [cs gone]. destruct IH as (S & G & L). destruct st as [[ts ss]|e].
  - destruct (only && negb (negb (ss =? 0))); simpl.
    + split; [by apply sublist_cons|lia].
    + split; [by apply sublist_skip|]. unfold zlen in *. simpl. lia.
  - split; [by apply sublist_cons|lia].
Qed.

Lemma window_triaged only f triaged window w : let '((cs, gone), _) := triage_window only f triaged window w in
  map candidate_at cs `sublist_of` zip (seq triaged (length window)) window /\ 0 <= gone /\ zlen cs + gone <= zlen window.
Proof.
  unfold triage_window, mbind, st_bind. pose proof (wave_length (fun t => thread_read_request t thread_commands.NAME) decode_thread_name window w) as L.
  change (wave _ decode_thread_name) with read_thread_names_independently in L.
  destruct (read_thread_names_independently window w) as [names w1]. simpl in L. set (wanted := window_wanted f triaged window names).
  pose proof (window_columns f triaged window names L) as C. fold wanted in C.
  destruct (read_thread_statuses_independently _ w1) as [statuses w2]. cbn [mret st_ret].
  pose proof (statuses_columns only (zip wanted statuses)) as S. destruct (triage_statuses only (zip wanted statuses)) as [cs gone].
  destruct S as (S & G & N). split_and!; [|done|].
  - etransitivity; [exact S|]. etransitivity; [|exact C]. rewrite <- map_map. apply map_sublist, zip_fst_sublist.
  - apply sublist_length in C. rewrite length_map, length_zip_with, length_seq in C.
    unfold zlen in *. rewrite length_zip_with in N. lia.
Qed.

Lemma zip_app_r {A B} (l1 l2 : list A) (k1 k2 : list B) : length l1 = length k1 -> zip (l1 ++ l2) (k1 ++ k2) = zip l1 k1 ++ zip l2 k2.
Proof. intros H. by apply zip_with_app. Qed.

(** Triage from [triaged] on: positions and ids of what it keeps, and where every thread went. *)
Lemma windows_triaged only f deadline total windows : forall triaged t h, (triaged + length (concat windows) = total)%nat -> dt_untriaged t = 0 ->
  let '(t', _) := triage_windows only f deadline total windows triaged t h in
  exists new, dt_candidates t' = dt_candidates t ++ new /\
    map candidate_at new `sublist_of` zip (seq triaged (length (concat windows))) (concat windows) /\
    0 <= dt_untriaged t' /\ dt_vanished t <= dt_vanished t' /\
    zlen new + dt_untriaged t' + (dt_vanished t' - dt_vanished t) <= zlen (concat windows) /\ (deadline = None -> dt_untriaged t' = 0).
Proof.
  induction windows as [|window windows IH]; intros triaged t h Ht Hu; cbn [triage_windows].
  { exists []. cbn [mret h_ret]. rewrite app_nil_r, Hu. split_and!; [done|apply sublist_nil_l|lia|lia|unfold zlen; simpl; lia|done]. }
  unfold mbind at 1, h_bind at 1. destruct (deadline_passed deadline h) as [passed h1] eqn:Ep. destruct passed.
  { cbn [mret h_ret]. exists []. rewrite app_nil_r. cbn [dt_candidates dt_untriaged dt_vanished]. split_and!; [done|apply sublist_nil_l|lia|lia| |].
    - unfold zlen. cbn [length]. lia.
    - intros ->. by apply (f_equal fst) in Ep. }
  unfold mbind at 1, h_bind at 1, conn. pose proof (window_triaged only f triaged window (ds_connection (h_session h1))) as K.
  destruct (triage_window only f triaged window _) as [[cs gone] w2]. destruct K as (Kc & Kg & Kn).
  simpl in Ht. rewrite length_app in Ht. specialize (IH (triaged + length window)%nat
    {| dt_candidates := dt_candidates t ++ cs; dt_untriaged := dt_untriaged t; dt_vanished := dt_vanished t + gone |}
    {| h_session := with_connection w2 (h_session h1); h_ticks := h_ticks h1; h_alerts := h_alerts h1 |} ltac:(lia) Hu).
  destruct (triage_windows _ _ _ _ windows _ _ _) as [t' h']. destruct IH as (new & E & C & U & V & N & Z). cbn [dt_candidates dt_vanished] in *.
  exists (cs ++ new). split_and!; [by rewrite E, (assoc_L (++))| |done|lia| |done].
  - simpl. rewrite length_app, seq_app, zip_app_r by by rewrite length_seq. rewrite map_app. by apply sublist_app.
  - simpl. rewrite !zlen_app. lia.
Qed.

Lemma chunks_whole {A} n (l : list A) : (0 < n)%nat -> concat (chunks n l) = l.
Proof.
  intros Hn. unfold chunks. enough (forall fuel l, (length l <= fuel)%nat -> concat (chunks_of (A := A) fuel n l) = l) as K by by apply K.
  clear l. induction fuel as [|fuel IH]; intros [|x l] Hl; simpl in Hl; [done|lia|done|]. cbn [chunks_of concat].
  rewrite IH by (rewrite length_drop; simpl length; lia). apply take_drop.
Qed.

Lemma zip_seq_columns {B} (l : list (nat * B)) a (k : list B) : l `sublist_of` zip (seq a (length k)) k ->
  map snd l `sublist_of` k /\ StronglySorted lt (map fst l).
Proof.
  intros H. split.
  - etransitivity; [exact (map_sublist snd _ _ H)|]. clear. revert a. induction k as [|b k IH]; intros a; simpl; [done|by apply sublist_skip].
  - apply (map_sublist fst) in H. assert (map fst (zip (seq a (length k)) k) `sublist_of` seq a (length k)) as H' by apply zip_fst_sublist.
    pose proof (transitivity H H') as K. clear - K. revert a K. generalize (length k). generalize (map fst l). clear l k. intros l n a K.
    remember (seq a n) as s. revert a n Heqs. induction K as [|x l s K IH|x l s K IH]; intros a [|n]; try done; intros E.
    + constructor.
    + injection E as -> ->. constructor; [by eapply IH|]. apply List.Forall_forall. intros y Hy%list_elem_of_In.
      eapply elem_of_sublist in Hy; [|exact K]. apply elem_of_seq in Hy. lia.
    + injection E as -> ->. by eapply IH.
Qed.

Lemma triaged_threads all only f deadline h : let '(t, _) := triage_dump_threads all only f deadline h in
  map dc_tid (dt_candidates t) `sublist_of` all /\ StronglySorted lt (map dc_seen (dt_candidates t)) /\
  0 <= dt_untriaged t /\ 0 <= dt_vanished t /\ zlen (dt_candidates t) + dt_untriaged t + dt_vanished t <= zlen all /\ (deadline = None -> dt_untriaged t = 0).
Proof.
  unfold triage_dump_threads. unfold mbind at 1, h_bind at 1, now. cbv beta iota zeta.
  match goal with |- context [triage_windows _ _ ?d _ ?ws _ ?t ?h'] =>
    pose proof (windows_triaged only f d (length all) ws 0%nat t h') as K; destruct (triage_windows _ _ d _ ws _ t h') as [t' h2] end.
  rewrite chunks_whole in K by (unfold MAX_READS_IN_FLIGHT; lia). destruct K as (new & E & C & U & V & N & Z); [done..|]. simpl in *. subst new.
  apply zip_seq_columns in C as [C1 C2]. rewrite !map_map in *. split_and!; [done..|lia|lia|lia|]. intros ->. by apply Z.
Qed.

(** A row is about the thread of its candidate. *)
Definition row_of (c : DumpCandidate) (e : nat * DumpRow) : Prop :=
  fst e = dc_seen c /\ dr_id (snd e) = dc_tid c /\ dr_name (snd e) = dc_name c /\ dr_suspended (snd e) = dc_suspended c /\ dr_finished (snd e) = dc_finished c.

Lemma dump_row_of a want f c ca w : let '((row, _), _) := dump_row a want f c ca w in row_of c (dc_seen c, row).
Proof.
  unfold dump_row, mbind, st_bind. destruct (_ w) as [[[stack hidden] ca1] w1].
  destruct (read_thread_monitors _ _ ca1 w1) as [[[[holds waiting] note] ca2] w2]. by cbn.
Qed.

Lemma rows_dumped a want f deadline limit candidates picks : forall rows ca h, (forall i, i ∈ picks -> (i < length candidates)%nat) ->
  let '((rows', unread), _) := dump_rows a want f deadline limit candidates picks rows ca h in
  exists k new, rows' = rows ++ new /\ (k <= length picks)%nat /\
    Forall2 (fun i e => exists c, candidates !! i = Some c /\ row_of c e) (take k picks) new /\
    zlen rows' <= Z.max limit (zlen rows) /\ 0 <= unread /\
    (limit <= zlen rows' /\ unread = 0 \/ Z.of_nat k + unread = zlen picks) /\ (deadline = None -> unread = 0).
Proof.
  induction picks as [|pick picks IH]; intros rows ca h Hp; cbn [dump_rows].
  { exists O, []. cbn [mret h_ret]. rewrite app_nil_r. split_and!; try done; [lia|by right]. }
  destruct (limit <=? zlen rows) eqn:Hl.
  { apply Z.leb_le in Hl. exists O, []. cbn [mret h_ret]. rewrite app_nil_r, take_0. split_and!; try done; [lia|lia|by left]. }
  apply Z.leb_gt in Hl. unfold mbind at 1, h_bind at 1. destruct (deadline_passed deadline h) as [passed h1] eqn:Ep. destruct passed.
  { cbn [mret h_ret]. exists O, []. rewrite app_nil_r, take_0. split_and!; try done; [lia|unfold zlen; lia|by right|].
    intros ->. by apply (f_equal fst) in Ep. }
  destruct (lookup_lt_is_Some_2 candidates pick) as [c Hc]; [apply Hp; set_solver|]. rewrite Hc.
  unfold mbind at 1, h_bind at 1, conn. pose proof (dump_row_of a want f c ca (ds_connection (h_session h1))) as K.
  destruct (dump_row a want f c ca _) as [[row ca'] w2].
  match goal with |- context [dump_rows _ _ _ _ _ _ picks ?r ?c ?h'] => specialize (IH r c h' ltac:(set_solver)); destruct (dump_rows _ _ _ _ _ _ picks r c h') as [[rows' unread] h2] end.
  destruct IH as (k & new & -> & Hk & F & L & U & W & Z). exists (S k), ((dc_seen c, row) :: new).
  rewrite !zlen_app in *. unfold zlen in *. simpl in *. rewrite <- (assoc_L (++)). split_and!; try done.
  - lia.
  - constructor; [by exists c|done].
  - lia.
  - destruct W as [[W ->]|W]; [left; split; [lia|done]|right; lia].
Qed.
End Dump.

(** ** Rows in the order the JVM listed the threads *)

Lemma omap_map {A B} (g : A -> B) (l : list A) (is_ : list nat) : omap (fun i => map g l !! i) is_ = map g (omap (fun i => l !! i) is_).
Proof.
  induction is_ as [|i is_ IH]; [done|]. simpl. change (list_omap _ _ ?f ?l) with (omap f l).
  change (map g l) with (g <$> l) at 1. rewrite list_lookup_fmap. destruct (l !! i); simpl; [by rewrite IH|exact IH].
Qed.
Lemma chosen_map {A B} (name : B -> string) (g : A -> B) l k : chosen name (map g l) k = map g (chosen (fun a => name (g a)) l k).
Proof. unfold chosen. by rewrite map_map, omap_map. Qed.

Lemma Forall2_omap {A B} (R : A -> B -> Prop) (l : list A) is_ new : Forall2 (fun i e => exists c, l !! i = Some c /\ R c e) is_ new ->
  Forall2 R (omap (fun i => l !! i) is_) new.
Proof. induction 1 as [|i e is_ new (c & Hc & Hr) _ IH]; simpl; [constructor|]. rewrite Hc. by constructor. Qed.

Lemma sorted_map {A B} (R : relation B) (g : A -> B) l : StronglySorted (fun a b => R (g a) (g b)) l <-> StronglySorted R (map g l).
Proof.
  induction l as [|a l IH]; simpl; [split; constructor|]. split; intros H; inversion_clear H as [|? ? H1 H2]; constructor; try by apply IH.
  - by apply Forall_map.
  - by apply (List.Forall_map g) in H2.
Qed.

#[local] Instance seen_le_dec a b : Decision (seen_le a b) := decide (fst a <= fst b)%nat.
#[local] Instance seen_le_trans : Transitive seen_le.
Proof. intros a b c. unfold seen_le. lia. Qed.
#[local] Instance seen_le_total : Total seen_le.
Proof. intros a b. unfold seen_le. lia. Qed.

Definition row_key (e : nat * DumpRow) : nat * (Z * string) := (fst e, (dr_id (snd e), dr_name (snd e))).
Definition candidate_key (c : DumpCandidate) : nat * (Z * string) := (dc_seen c, (dc_tid c, dc_name c)).
Definition row_column (r : DumpRow) : Z * string := (dr_id r, dr_name r).
Definition candidate_column (c : DumpCandidate) : Z * string := (dc_tid c, dc_name c).

(** Sorting the rows that were read puts them in the order of the candidates. *)
Lemma sorted_rows candidates k new : StronglySorted lt (map dc_seen candidates) ->
  Forall2 (fun i e => exists c, candidates !! i = Some c /\ row_of c e) (take k (fst (family_round_robin (map dc_name candidates)))) new ->
  map row_column (map snd (merge_sort seen_le new)) = chosen snd (map candidate_column candidates) k.
Proof.
  intros S F. apply Forall2_omap in F. rewrite (chosen_map snd), !map_map.
  set (picks := omap _ _) in F. assert (P : picks ≡ₚ chosen dc_name candidates k).
  { unfold picks, chosen. by rewrite merge_sort_Permutation. }
  assert (K : map row_key new = map candidate_key picks).
  { clear - F. induction F as [|c e l new (E1 & E2 & E3 & _) _ IH]; [done|]. simpl. unfold row_key at 1, candidate_key at 1. by rewrite E1, E2, E3, IH. }
  assert (Seen : forall c c', c ∈ candidates -> c' ∈ candidates -> dc_seen c = dc_seen c' -> c = c').
  { clear - S. intros c c' Hc Hc' E. induction candidates as [|d l IH]; [set_solver|]. simpl in S. inversion_clear S as [|? ? S' Hd].
    assert (forall x, x ∈ l -> (dc_seen d < dc_seen x)%nat) as Hlt.
    { intros x Hx. eapply List.Forall_forall in Hd; [exact Hd|]. apply in_map. by apply list_elem_of_In. }
    apply elem_of_cons in Hc as [->|Hc], Hc' as [->|Hc']; [done|specialize (Hlt _ Hc'); lia|specialize (Hlt _ Hc); lia|by apply IH]. }
  assert (Sub : forall c, c ∈ chosen dc_name candidates k -> c ∈ candidates) by (intros c Hc; eapply elem_of_sublist; [exact Hc|apply chosen_sublist]).
  enough (E : map row_key (merge_sort seen_le new) = map candidate_key (chosen dc_name candidates k)).
  { apply (f_equal (map snd)) in E. rewrite !map_map in E. exact E. }
  apply (StronglySorted_unique_strong (fun a b => (fst a <= fst b)%nat)).
  - intros x y Hx Hy Hle Hge. rewrite merge_sort_Permutation, K, P in Hx.
    apply list_elem_of_fmap in Hx as (c & -> & Hc), Hy as (c' & -> & Hc'). rewrite (Seen c c'); [done|by apply Sub..|].
    unfold candidate_key in *. simpl in *. lia.
  - apply (sorted_map (fun a b => (fst a <= fst b)%nat) row_key). apply (StronglySorted_merge_sort seen_le).
  - apply (sorted_map (fun a b => (fst a <= fst b)%nat) candidate_key). simpl.
    apply (sorted_map lt dc_seen) in S. generalize (chosen_sublist dc_name candidates k). generalize (chosen dc_name candidates k). clear - S.
    intros l Hl. induction Hl as [|c l cs Hl IH|c l cs Hl IH]; [constructor| |]; inversion_clear S as [|? ? S' Hc].
    + constructor; [by apply IH|]. apply List.Forall_forall. intros x Hx%list_elem_of_In. eapply elem_of_sublist in Hx; [|exact Hl].
      eapply List.Forall_forall in Hc; [|by apply list_elem_of_In]. lia.
    + by apply IH.
  - rewrite merge_sort_Permutation, K, P. done.
Qed.

(** The dump's half of it. *)
Lemma dump_chosen `{BC : BytesCrate} `{D : Debuggee} `{CL : Clock} `{LC : Lowercase} all a caps deadline h :
  let dump := fst (collect_dump_rows all a caps deadline h) in
  exists candidates, map fst candidates `sublist_of` all /\
    fairly_listed snd candidates (map row_column (do_rows dump)) (do_selection dump) /\
    zlen (do_rows dump) <= Z.max (da_limit a) 1 /\
    (zlen (do_rows dump) = Z.max (da_limit a) 1 \/ zlen candidates <= zlen (do_rows dump) + do_unread dump) /\
    zlen candidates + do_vanished dump <= zlen all /\ (deadline = None -> do_unread dump = 0).
Proof.
  intros dump. unfold dump, collect_dump_rows. unfold mbind, h_bind.
  pose proof (triaged_threads all (da_only_suspended a) (given_filter (da_name_filter a)) deadline h) as T.
  destruct (triage_dump_threads _ _ _ _ h) as [t h1]. destruct T as (S & Sorted & U & V & N & Z).
  cbv beta iota zeta. set (names := map dc_name (dt_candidates t)). destruct (family_round_robin names) as [order families] eqn:Eo.
  assert (Ho : order = fst (family_round_robin names)) by by rewrite Eo.
  match goal with |- context [dump_rows a ?w ?f ?d ?l ?c ?p ?r ?k h1] =>
    pose proof (rows_dumped a w f d l c p r k h1) as K; destruct (dump_rows a w f d l c p r k h1) as [[rows unread] h2] end.
  destruct K as (k & new & -> & Hk & F & L & Un & W & Z').
  { intros i. rewrite Ho. unfold names. by rewrite (order_positions dc_name). }
  simpl app in *. cbn [mret h_ret fst do_rows do_unread do_vanished do_selection]. rewrite Ho in F.
  pose proof (sorted_rows _ _ _ Sorted F) as R. set (rows := map snd (merge_sort seen_le new)) in *.
  assert (Lr : zlen rows = zlen new) by (unfold rows, zlen; by rewrite length_map, (Permutation_length (merge_sort_Permutation _ _))).
  exists (map candidate_column (dt_candidates t)). split_and!.
  - by rewrite map_map.
  - rewrite R. pose proof (chosen_listed snd (map candidate_column (dt_candidates t)) k) as C. cbv zeta in C. rewrite map_map in C.
    change (map (fun c => snd (candidate_column c)) (dt_candidates t)) with names in C. rewrite Eo in C. cbn [snd] in C.
    unfold zlen in C at 1. rewrite length_map in C. rewrite <- R, map_map in C. rewrite <- R. exact C.
  - rewrite Lr. unfold zlen in *. simpl in *. lia.
  - unfold zlen in *. rewrite length_map in *. destruct W as [[W _]|W]; [left; simpl in *; lia|right].
    apply (f_equal length) in R. rewrite !length_map in R. rewrite chosen_length, length_map in R.
    assert (length order = length (dt_candidates t)) as Lo by (rewrite Ho; unfold names; by rewrite (order_length dc_name)). lia.
  - unfold zlen in *. rewrite length_map. lia.
  - intros ->. rewrite Z, Z' by done. done.
Qed.

(** Which threads a reply is about. [debug.list_threads] and [debug.thread_dump], whatever the debuggee
    answers and whenever the time runs out, show threads the JVM listed, in its order, no more than asked
    for, and all that could be shown when that is enough; chosen so that no family of names is two threads
    ahead of another that has any left. They say how many were eligible and of how many families, and of
    each family exactly how many are withheld, the biggest first. In a dump no thread is unaccounted for:
    a row is missing only for the limit, or is counted as unread. *)
Theorem threads_chosen_fairly `{BC : BytesCrate} `{D : Debuggee} `{CL : Clock} `{LC : Lowercase} all :
  (forall limit f only w, 1 <= limit ->
    let listing := fst (collect_thread_rows all limit f only w) in
    exists candidates, map row_id candidates `sublist_of` all /\ Forall (fun r => name_wanted f (row_name r) = true) candidates /\
      fairly_listed row_name candidates (tl_rows listing) (tl_selection listing) /\
      zlen (tl_rows listing) = Z.min limit (zlen candidates)) /\
  (forall a caps deadline h,
    let dump := fst (collect_dump_rows all a caps deadline h) in
    exists candidates, map fst candidates `sublist_of` all /\
      fairly_listed snd candidates (map row_column (do_rows dump)) (do_selection dump) /\
      zlen (do_rows dump) <= Z.max (da_limit a) 1 /\
      (zlen (do_rows dump) = Z.max (da_limit a) 1 \/ zlen candidates <= zlen (do_rows dump) + do_unread dump) /\
      zlen candidates + do_vanished dump <= zlen all /\ (deadline = None -> do_unread dump = 0)).
Proof.
  split.
  - intros limit f only w Hl listing. destruct (listed_candidates all limit f only w) as (candidates & E & S & F).
    exists candidates. unfold listing. rewrite E. destruct (choose_rows_chosen limit candidates ltac:(lia)) as [R L]. split_and!; try done.
    rewrite R. unfold zlen. rewrite chosen_length. lia.
  - intros a caps deadline h. apply dump_chosen.
Qed.

(** ** Four threads, three of one pool *)

#[local] Existing Instance network_order.
Definition four_threads (set command : Z) (body : bytes) : JdwpResult (Z * bytes) :=
  let text := write_jdwp_string (BC := network_order) in
  match set, command with
  | 11, 1 => Ok (0, text (match be_val body with 1 => "task-1" | 2 => "task-2" | 3 => "task-3" | _ => "main" end)%string)
  | 11, 4 => Ok (0, be_bytes 4 (if be_val body =? 4 then 0 else 1) ++ be_bytes 4 1)
  | _, _ => Ok (99, [])
  end.
#[local] Instance four : Debuggee := answering four_threads.
#[local] Instance stopped_clock : Clock := {| instant _ := 0 |}.
#[local] Instance as_written : Lowercase := {| to_lowercase s := s |}.

(** Two of the four: one of the pool and [main]; the two tasks left are withheld. *)
Lemma threads_chosen_fairly_witness :
  let listing := fst (collect_thread_rows [1; 2; 3; 4] 2 None false world_init) in
  tl_rows listing = [(1, "task-1", None); (4, "main", None)]%string /\ fs_withheld (tl_selection listing) = [("task-#"%string, 2)] /\
  exists candidates, fairly_listed row_name candidates (tl_rows listing) (tl_selection listing).
Proof.
  split; [by vm_compute|]. split; [by vm_compute|].
  destruct (proj1 (threads_chosen_fairly [1; 2; 3; 4]) 2 None false world_init ltac:(lia)) as (candidates & _ & _ & F & _). by exists candidates.
Defined.

(** ** What a dump says that is not so *)

(** Of five frames, the first filtered out, two shown: two are said to be hidden, three are. *)
Definition five_frames (set command : Z) (body : bytes) : JdwpResult (Z * bytes) :=
  let text := write_jdwp_string (BC := network_order) in
  match set, command with
  | 2, 1 => Ok (0, text (if be_val body =? 1 then "Llib/Proxy;"%string else "Lapp/Service;"%string))
  | _, _ => Ok (99, [])
  end.
Lemma filtered_frames_uncounted :
  let frame n := {| fr_frame_id := n; fr_location := {| loc_type_tag := 1; loc_class_id := n; loc_method_id := n; loc_index := 0 |} |} in
  let '(shown, hidden, _, _) := dump_frames (D := answering five_frames) 2 5 (Some "app"%string) 0 (map frame [1; 2; 3; 4; 5]) [] 0 no_caches world_init in
  zlen shown = 2 /\ hidden = 2.
Proof. by vm_compute. Qed.

(** Threads the caller filtered out are withheld in the footer, which advises to raise the limit. *)
Lemma filtered_threads_withheld :
  let a := {| da_name_filter := Some "main"%string; da_only_suspended := false; da_limit := 500; da_max_frames := 8; da_package_filter := None;
              da_monitors := false; da_monitors_only := false; da_suspend := false; da_max_suspend_ms := 0 |} in
  let dump := fst (collect_dump_rows [1; 2; 3; 4] a None None (host_with [])) in
  let meta := {| dm_total := 4; dm_already_suspended := false; dm_resume_note := ""; dm_cost := 0; dm_round_trips := 0; dm_wire := 0; dm_held := None;
                 dm_unread := do_unread dump; dm_vanished := do_vanished dump; dm_selection := do_selection dump |} in
  zlen (do_rows dump) = 1 /\ fs_eligible (do_selection dump) = 1 /\ dump_shortfall 1 meta = (3, 0).
Proof. by vm_compute. Qed.
