(* ===== verification/GroupFacts.v ===== *)
(** * The entries of a thread dump

    Rows shown as one entry are those that would print the same lines but for their id and name. *)

From S2P Require Import Prelude Protocol Types Generics Text Locate Reading Families ThreadListing ThreadDump DumpText.

Section Groups.
Context (rows : list DumpRow).

Definition key_at (i : nat) : option DumpGroupKey := rows !! i ≫= dump_group_key.
(** One thread, or two whose state and non-empty stack are the same. *)
Definition same_entry (i j : nat) : Prop := i = j \/ key_at i = key_at j /\ key_at i <> None.
#[local] Instance same_entry_dec i j : Decision (same_entry i j).
Proof. unfold same_entry. apply _. Defined.

Definition entry_of (i : nat) : list nat := base.filter (fun j => same_entry i j) (seq 0 (length rows)).
Definition first_of_entry (i : nat) : Prop := Forall (fun j => ~ same_entry i j) (seq 0 i).
#[local] Instance first_of_entry_dec i : Decision (first_of_entry i).
Proof. unfold first_of_entry. apply _. Defined.
Definition entry_heads : list nat := base.filter first_of_entry (seq 0 (length rows)).
End Groups.

#[export] Existing Instance same_entry_dec.
#[export] Existing Instance first_of_entry_dec.

Lemma lookup_map {A B} (f : A -> B) l i : map f l !! i = f <$> l !! i.
Proof. exact (list_lookup_fmap f l i). Qed.

Lemma same_entry_sym rows i j : same_entry rows i j -> same_entry rows j i.
Proof. intros [->|[E H]]; [by left|right]. rewrite <- E. by split. Qed.

Section Snoc.
Context (rows : list DumpRow) (x : DumpRow).
Let n := length rows.

Lemma key_old i : (i < n)%nat -> key_at (rows ++ [x]) i = key_at rows i.
Proof. intros Hi. unfold key_at. by rewrite lookup_app_l. Qed.
Lemma key_new : key_at (rows ++ [x]) n = dump_group_key x.
Proof. unfold key_at. by rewrite list_lookup_middle. Qed.
Lemma same_old i j : (i < n)%nat -> (j < n)%nat -> same_entry (rows ++ [x]) i j <-> same_entry rows i j.
Proof. intros Hi Hj. unfold same_entry. by rewrite !key_old. Qed.
Lemma same_new i : (i < n)%nat -> same_entry (rows ++ [x]) i n <-> key_at rows i = dump_group_key x /\ dump_group_key x <> None.
Proof. intros Hi. unfold same_entry. rewrite key_old, key_new by done. split; [intros [?|[E ?]]; [lia|split; congruence]|intros [-> ?]; by right]. Qed.

Lemma heads_snoc : entry_heads (rows ++ [x]) = entry_heads rows ++ (if decide (first_of_entry (rows ++ [x]) n) then [n] else []).
Proof.
  unfold entry_heads. rewrite length_app, seq_app, list.filter_app. f_equal.
  apply filter_ext_in. intros i Hi%elem_of_seq. unfold first_of_entry. rewrite !List.Forall_forall.
  split; intros H j Hj; specialize (H j Hj); apply in_seq in Hj; [by rewrite <- same_old by (fold n; lia)|by rewrite same_old by (fold n; lia)].
Qed.

Lemma entry_snoc i : (i < n)%nat -> entry_of (rows ++ [x]) i = entry_of rows i ++ (if decide (same_entry (rows ++ [x]) i n) then [n] else []).
Proof.
  intros Hi. unfold entry_of. rewrite length_app, seq_app, list.filter_app. f_equal.
  apply filter_ext_in. intros j Hj%elem_of_seq. apply same_old; fold n; lia.
Qed.

Lemma entry_alone : first_of_entry (rows ++ [x]) n -> entry_of (rows ++ [x]) n = [n].
Proof.
  intros H. unfold entry_of. rewrite length_app, seq_app, list.filter_app. cbn [length seq]. rewrite Nat.add_0_l. fold n.
  rewrite (filter_cons_True _ n) by by left. rewrite (filter_ext_in _ (fun _ => False) (seq 0 n)).
  - generalize (seq 0 n). intros l. by induction l.
  - intros j Hj%list_elem_of_In. split; [|done]. intros Hs. eapply List.Forall_forall in H; [|exact Hj]. by apply H.
Qed.
End Snoc.

(** What the fold keeps: the entries so far, and where each key's entry is. *)
Definition groups_ok (rows : list DumpRow) (st : list (list nat) * list (DumpGroupKey * nat)) : Prop :=
  fst st = map (entry_of rows) (entry_heads rows) /\
  forall k, match snd <$> List.find (fun s => bool_decide (fst s = k)) (snd st) with
            | Some g => exists i, entry_heads rows !! g = Some i /\ key_at rows i = Some k
            | None => forall j, key_at rows j <> Some k
            end.

Lemma first_at rows i g : entry_heads rows !! g = Some i -> (i < length rows)%nat /\ first_of_entry rows i.
Proof. intros [H1 H2%elem_of_seq]%list_elem_of_lookup_2%list_elem_of_filter. split; [lia|done]. Qed.

Lemma heads_apart rows g g' i i' k : entry_heads rows !! g = Some i -> entry_heads rows !! g' = Some i' ->
  key_at rows i = Some k -> key_at rows i' = Some k -> g = g'.
Proof.
  intros Hg Hg' Hk Hk'. assert (i = i') as <-.
  { destruct (first_at _ _ _ Hg) as [_ F], (first_at _ _ _ Hg') as [_ F']. destruct (Nat.lt_total i i') as [L|[?|L]]; [exfalso|done|exfalso].
    - eapply List.Forall_forall in F'; [|apply in_seq; split; [lia|exact L]]. apply F'. right. by rewrite Hk, Hk'.
    - eapply List.Forall_forall in F; [|apply in_seq; split; [lia|exact L]]. apply F. right. by rewrite Hk, Hk'. }
  eapply NoDup_lookup; [|done..]. apply list.NoDup_filter, list.NoDup_seq.
Qed.

Lemma entries_snoc rows x : Forall (fun i => ~ same_entry (rows ++ [x]) i (length rows)) (entry_heads rows) ->
  map (entry_of (rows ++ [x])) (entry_heads rows) = map (entry_of rows) (entry_heads rows).
Proof.
  intros H. apply map_ext_in. intros i Hi. rewrite entry_snoc, decide_False; [apply app_nil_r| |].
  - by eapply List.Forall_forall in H.
  - apply list_elem_of_In, list_elem_of_filter in Hi as [_ Hi%elem_of_seq]. lia.
Qed.

Lemma dump_groups_ok rows : groups_ok rows (foldl group_step ([], []) (zip (seq 0 (length rows)) rows)).
Proof.
  induction rows as [|x rows IH] using rev_ind; [by split; [|intros k j]|].
  rewrite length_app, seq_app. cbn [length seq]. rewrite zip_with_app by (by rewrite length_seq). rewrite foldl_app. cbn [foldl zip zip_with].
  destruct (foldl group_step _ _) as [groups seen]. destruct IH as [Hg Hs]. cbn [fst snd] in *. unfold group_step. cbn [fst snd].
  set (n := length rows) in *.
  assert (Old : forall i, key_at (rows ++ [x]) i = if decide (i = n) then dump_group_key x else key_at rows i).
  { intros i. case_decide as E; [subst i; apply key_new|]. destruct (decide (i < n)%nat); [by apply key_old|]. unfold key_at.
    rewrite !(proj2 (lookup_ge_None _ _)); [done|lia|rewrite length_app; simpl; lia]. }
  assert (New : (forall j, (j < n)%nat -> dump_group_key x <> None -> key_at rows j <> dump_group_key x) ->
    entry_heads (rows ++ [x]) = entry_heads rows ++ [n] /\
    map (entry_of (rows ++ [x])) (entry_heads (rows ++ [x])) = map (entry_of rows) (entry_heads rows) ++ [[n]]).
  { intros H. assert (first_of_entry (rows ++ [x]) n) as F.
    { apply List.Forall_forall. intros j [_ Hj]%in_seq [->|[E1 E2]]; [lia|]. rewrite (Old n), decide_True in E1, E2 by done. rewrite Old, decide_False in E1 by lia. by apply (H j). }
    rewrite heads_snoc, decide_True by done. split; [done|]. rewrite map_app. simpl. rewrite entry_alone by done. f_equal.
    apply entries_snoc. apply List.Forall_forall. intros i Hi%list_elem_of_In Hsame.
    apply list_elem_of_filter in Hi as [_ Hi%elem_of_seq]. apply same_new in Hsame as [E1 E2]; [|lia]. apply (H i); [unfold n; lia|done..]. }
  destruct (dump_group_key x) as [key|] eqn:Ek.
  - specialize (Hs key) as Hkey. destruct (snd <$> List.find _ seen) as [g|] eqn:Ef.
    + destruct Hkey as (i0 & Hi0 & Hk0). destruct (first_at _ _ _ Hi0) as [L0 F0].
      assert (same_entry (rows ++ [x]) i0 n) as S0 by (apply same_new; [done|]; by rewrite Ek).
      assert (entry_heads (rows ++ [x]) = entry_heads rows) as Hh.
      { rewrite heads_snoc, decide_False; [apply app_nil_r|]. intros F. eapply List.Forall_forall in F; [|apply in_seq; split; [lia|exact L0]].
        apply F. by apply same_entry_sym. }
      split.
      * cbn [fst]. rewrite Hg, Hh. apply list_eq. intros j. destruct (decide (g = j)) as [<-|Hj].
        -- rewrite list_lookup_alter_eq. rewrite !lookup_map, Hi0. simpl.
           by rewrite entry_snoc, decide_True.
        -- rewrite list_lookup_alter_ne by done. rewrite !lookup_map.
           destruct (entry_heads rows !! j) as [i|] eqn:Hi; [|done]. simpl. f_equal. destruct (first_at _ _ _ Hi) as [L _].
           rewrite entry_snoc, decide_False; [by rewrite app_nil_r| |done]. intros Hsame. apply same_new in Hsame as [E _]; [|done].
           apply Hj. eapply heads_apart; [exact Hi0|exact Hi|done|]. by rewrite E, Ek.
      * intros k. specialize (Hs k). cbn [snd]. destruct (snd <$> List.find _ seen) as [g'|].
        -- destruct Hs as (i & Hi & Hk). exists i. rewrite Hh. split; [done|]. destruct (first_at _ _ _ Hi) as [L _]. rewrite Old, decide_False by (unfold n; lia). done.
        -- intros j. rewrite Old. case_decide; [|apply Hs]. intros [= <-]. by apply (Hs i0).
    + destruct New as [Nh Ne]; [intros j _ _; apply Hkey|]. split; [cbn [fst]; by rewrite Hg, Ne|]. intros k. cbn [snd List.find fst].
      case_bool_decide as E.
      * subst k. simpl. exists n. rewrite Nh, Hg, length_map, list_lookup_middle by done. split; [done|]. by rewrite Old, decide_True.
      * specialize (Hs k). destruct (snd <$> List.find _ seen) as [g'|].
        -- destruct Hs as (i & Hi & Hk). exists i. rewrite Nh. split; [by apply lookup_app_l_Some|]. destruct (first_at _ _ _ Hi) as [L _]. rewrite Old, decide_False by (unfold n; lia). done.
        -- intros j. rewrite Old. case_decide; [congruence|apply Hs].
  - destruct New as [Nh Ne]; [done|]. split; [cbn [fst]; by rewrite Hg, Ne|]. intros k. specialize (Hs k). cbn [snd].
    destruct (snd <$> List.find _ seen) as [g'|].
    + destruct Hs as (i & Hi & Hk). exists i. rewrite Nh. split; [by apply lookup_app_l_Some|]. destruct (first_at _ _ _ Hi) as [L _]. rewrite Old, decide_False by (unfold n; lia). done.
    + intros j. rewrite Old. case_decide; [done|apply Hs].
Qed.

Lemma concat_alter {A} (x : A) g l : (g < length l)%nat -> concat (alter (fun m => m ++ [x]) g l) ≡ₚ concat l ++ [x].
Proof.
  revert g. induction l as [|m l IH]; intros [|g] Hg; simpl in *; [lia..| |].
  - rewrite <- !(assoc_L (++)). by rewrite (Permutation_app_comm (concat l)).
  - change (list_alter ?f ?i ?k) with (alter f i k). rewrite (IH g) by lia. by rewrite (assoc_L (++)).
Qed.

Lemma groups_cover rows : concat (dump_groups rows) ≡ₚ seq 0 (length rows).
Proof.
  unfold dump_groups. induction rows as [|x rows IH] using rev_ind; [done|].
  pose proof (dump_groups_ok rows) as [Hg Hs]. rewrite length_app, seq_app. cbn [length seq]. rewrite zip_with_app by (by rewrite length_seq).
  rewrite foldl_app. cbn [foldl zip zip_with]. destruct (foldl group_step _ _) as [groups seen]. cbn [fst snd] in *. unfold group_step. cbn [fst snd].
  destruct (dump_group_key x) as [key|]; [|cbn [fst]; by rewrite concat_app, IH].
  specialize (Hs key). destruct (snd <$> List.find _ seen) as [g|]; cbn [fst]; [|by rewrite concat_app, IH].
  destruct Hs as (i & Hi & _). rewrite concat_alter, IH; [done|]. rewrite Hg, length_map. by eapply lookup_lt_Some.
Qed.

(** What the rows of an entry print, the id and the name apart. *)
Definition printed (r : DumpRow) :=
  (thread_name_family (dr_name r), dr_status r, dr_suspended r, dr_finished r, dr_stack r, dr_frames_hidden r, fun holder => render_dump_monitors r holder).

Lemma keys_print r s : dump_group_key r = dump_group_key s -> dump_group_key r <> None -> printed r = printed s.
Proof.
  unfold dump_group_key, printed, render_dump_monitors. destruct r as [? ? ? ? ? st ? ? ? ?], s as [? ? ? ? ? st' ? ? ? ?]. simpl.
  destruct st as [[|f fs]| |]; [done| |done..]. destruct st' as [[|f' fs']| |]; [done| |done..]. by intros [= -> -> -> -> -> -> -> -> -> ->].
Qed.

(** C39. Collapsing the rows of a dump loses none and merges only what is the same. The entries are, in the
    order of their first rows, for each row that no earlier one is like, all the rows like it: so every
    row is in exactly one entry; and two rows of one entry have the same non-empty stack, state, name
    family and monitors, and print the same lines but for their id and name, whoever holds what. *)
Theorem dump_entries_exact rows :
  dump_groups rows = map (entry_of rows) (entry_heads rows) /\
  concat (dump_groups rows) ≡ₚ seq 0 (length rows) /\
  forall group i j r s, group ∈ dump_groups rows -> i ∈ group -> j ∈ group -> rows !! i = Some r -> rows !! j = Some s ->
    i = j \/ dump_group_key r = dump_group_key s /\ printed r = printed s /\ exists f fs, dr_stack r = StackFrames (f :: fs).
Proof.
  assert (E : dump_groups rows = map (entry_of rows) (entry_heads rows)) by apply (proj1 (dump_groups_ok rows)).
  split_and!; [exact E|apply groups_cover|]. intros group i j r s Hg Hi Hj Hr Hs. rewrite E in Hg.
  apply list_elem_of_fmap in Hg as (h & -> & _). apply list_elem_of_filter in Hi as [Hi _], Hj as [Hj _].
  destruct (decide (i = j)) as [|Hne]; [by left|right].
  assert (same_entry rows i j) as S.
  { destruct Hi as [<-|[E1 N1]]; [done|]. destruct Hj as [<-|[E2 N2]]; [right; split; congruence|right; split; congruence]. }
  destruct S as [?|[E1 N1]]; [done|]. unfold key_at in E1, N1. rewrite Hr, Hs in E1. rewrite Hr in N1. simpl in *. split_and!; [done|by apply keys_print|].
  unfold dump_group_key in N1. destruct (dr_stack r) as [[|f fs]| |]; [done|by exists f, fs|done..].
Qed.

(** ** Two waiting threads and one without frames *)

Definition parked (id : Z) : DumpRow := {|
  dr_id := id; dr_name := "task-" +s+ pretty id; dr_status := "monitor"; dr_suspended := true; dr_finished := false;
  dr_stack := StackFrames ["#0 Pool.take"%string]; dr_frames_hidden := 0; dr_holds := []; dr_waiting_on := Some ("Gate@9"%string, 9);
  dr_monitor_note := None |}.
Definition silent (id : Z) : DumpRow := {|
  dr_id := id; dr_name := "main"; dr_status := "running"; dr_suspended := false; dr_finished := false;
  dr_stack := StackUnreadable "running"; dr_frames_hidden := 0; dr_holds := []; dr_waiting_on := None; dr_monitor_note := None |}.

Lemma dump_entries_exact_witness :
  let rows := [parked 1; silent 2; parked 3] in
  dump_groups rows = [[0%nat; 2%nat]; [1%nat]] /\ printed (parked 1) = printed (parked 3).
Proof.
  intros rows. destruct (dump_entries_exact rows) as (_ & _ & K). split; [by vm_compute|].
  destruct (K [0%nat; 2%nat] 0%nat 2%nat (parked 1) (parked 3)) as [E|(_ & P & _)]; [by_compute|by_compute|by_compute|done|done|done|exact P].
Defined.

(** Two threads waiting for the same monitor are one entry, under a note that says such threads never are. *)
Lemma waiting_threads_collapsed :
  dump_groups [parked 1; parked 2] = [[0%nat; 1%nat]] /\
  contains (bytes_of_string MONITORS_NEVER_COLLAPSED)
    (bytes_of_string (dump_collapse_note [parked 1; parked 2] (dump_groups [parked 1; parked 2]) 0)) = true.
Proof. by vm_compute. Qed.

