(* ===== verification/DumpFacts.v ===== *)
(** * A thread dump and the suspensions

    On a debuggee that counts: a dump reads without steering, and the one that suspends the virtual
    machine leaves every count as it was, when the session holds no thread of its own. *)

From S2P Require Import Prelude Protocol Types Reader Events Connection Client EventRequest StopPoint.
From S2P Require Import EventRing MonitorClock Suspensions Traces Session Manager Api Generics Text Expr Condition Host EventPump Steering.
From S2P Require Import PumpFacts TracedHits Watchdog Honest WatchdogFacts Control ControlFacts ControlBalance Locate.
From S2P Require Import Reading ReadingFacts Families ThreadListing ThreadDump DumpText ThreadFacts.

(** ** Reads that steer nothing *)

Section Steady.
Context `{BC : BytesCrate} `{D : Debuggee} `{LC : Lowercase}.

#[export] Instance Steady_signature t : Respects steady (get_signature t).
Proof. unfold get_signature. apply Respects_bind; try apply _. intros types. case_match; apply _. Qed.
#[export] Instance Steady_type_of o : Respects steady (get_object_reference_type o).
Proof. unfold get_object_reference_type. apply _. Qed.
#[export] Instance Steady_owned t : Respects steady (owned_monitors t).
Proof. unfold owned_monitors. apply _. Qed.
#[export] Instance Steady_contended t : Respects steady (current_contended_monitor t).
Proof. unfold current_contended_monitor. apply _. Qed.
#[export] Instance Steady_capabilities : Respects steady capabilities.
Proof. unfold capabilities. apply _. Qed.
#[export] Instance Steady_sent : Respects steady packets_sent.
Proof. intros w. by apply still_steady. Qed.
#[export] Instance Steady_trips : Respects steady round_trips.
Proof. intros w. by apply still_steady. Qed.
#[export] Instance Steady_ok {A} (m : M A) : Respects steady m -> Respects steady (st_ok m).
Proof. intros Hm. unfold st_ok. apply _. Qed.

#[export] Instance Steady_class_name c ca : Respects steady (resolve_class_name c ca).
Proof. unfold resolve_class_name. case_match; apply _. Qed.
#[export] Instance Steady_frame_method l ca : Respects steady (dump_frame_method l ca).
Proof. unfold dump_frame_method. apply Respects_st_bind; try apply _. intros ms. case_match; apply _. Qed.
#[export] Instance Steady_monitor_label o ca : Respects steady (monitor_label o ca).
Proof. unfold monitor_label. case_match; [apply _|]. apply Respects_st_bind; try apply _. intros [|]; apply _. Qed.
#[export] Instance Steady_dump_frames mf d pf idx fs out hidden ca : Respects steady (dump_frames mf d pf idx fs out hidden ca).
Proof.
  revert idx out hidden ca. induction fs as [|f fs IH]; intros idx out hidden ca; cbn [dump_frames]; [apply _|]. case_match; [apply _|].
  apply Respects_st_bind; try apply _. intros [class ca1]. case_match; [apply IH|].
  apply Respects_st_bind; try apply _. intros [[method line] ca2]. apply IH.
Qed.
#[export] Instance Steady_dump_stack t mf pf ca : Respects steady (read_dump_stack t mf pf ca).
Proof. unfold read_dump_stack. apply Respects_st_bind; try apply _. intros [fs|e]; [|apply _]. apply Respects_st_bind; try apply _. intros [[out hidden] ca1]. apply _. Qed.
#[export] Instance Steady_monitor_labels ms ca : Respects steady (monitor_labels ms ca).
Proof.
  revert ca. induction ms as [|m ms IH]; intros ca; cbn [monitor_labels]; [apply _|].
  apply Respects_st_bind; try apply _. intros [label ca1]. apply Respects_st_bind; try apply _. intros [labels ca2]. apply _.
Qed.
#[export] Instance Steady_thread_monitors t ask ca : Respects steady (read_thread_monitors t ask ca).
Proof.
  unfold read_thread_monitors. case_match; [apply _|]. apply Respects_st_bind; try apply _. intros owned. apply Respects_st_bind; try apply _.
  - destruct owned; [|apply _]. apply Respects_st_bind; try apply _. intros [labels ca1]. apply _.
  - intros [[holds note] ca1]. apply Respects_st_bind; try apply _. intros [[m|]|e]; [|apply _..].
    apply Respects_st_bind; try apply _. intros [label ca2]. apply _.
Qed.
#[export] Instance Steady_dump_row a want pf c ca : Respects steady (dump_row a want pf c ca).
Proof.
  unfold dump_row. apply Respects_st_bind; try apply _.
  intros [[stack hidden] ca1]. apply Respects_st_bind; try apply _. intros [[[holds waiting] note] ca2]. apply _.
Qed.

#[export] Instance Steady_wave {A B} (request_of : A -> St CommandPacket) (decode_reply : ReplyPacket -> JdwpResult B) l :
  (forall a, MakesPacket (request_of a)) -> (forall a, MakesSteady (request_of a)) -> Respects steady (wave request_of decode_reply l).
Proof. intros Hm Hh w. apply wave_sends; [done|intros a w'; apply (Hh a)]. Qed.
#[export] Instance Steady_triage_window only f triaged window : Respects steady (triage_window only f triaged window).
Proof. unfold triage_window, read_thread_names_independently, read_thread_statuses_independently. apply _. Qed.
End Steady.

(** ** Handlers that change nothing the books are about *)

Section Quiet.
Context `{BC : BytesCrate} `{D : Debuggee} `{CL : Clock} `{LC : Lowercase}.
Context (c0 : Z -> Z).

Definition quiet_h {A} (m : H A) : Prop := forall h, alike c0 h (snd (m h)).

Lemma quiet_ret {A} (a : A) : quiet_h (mret a).
Proof. intros h. reflexivity. Qed.
Lemma quiet_bind {A B} (m : H A) (k : A -> H B) : quiet_h m -> (forall a, quiet_h (k a)) -> quiet_h (m ≫= k).
Proof.
  intros Hm Hk h. unfold mbind, h_bind. specialize (Hm h). destruct (m h) as [a h1]. transitivity h1; [exact Hm|apply Hk].
Qed.
Lemma quiet_conn {A} (m : World -> A * World) : Respects steady m -> quiet_h (conn m).
Proof.
  intros Hm h. unfold conn. specialize (Hm (ds_connection (h_session h))). destruct (m _) as [a w]. split; try done.
  intros t. unfold host_depth. simpl. by apply depth_steady.
Qed.
Lemma quiet_now : quiet_h now.
Proof. intros h. by split. Qed.
Lemma quiet_session : quiet_h session.
Proof. intros h. reflexivity. Qed.
Lemma quiet_try {A B} (m : H (result string A)) (k : A -> H (result string B)) : quiet_h m -> (forall a, quiet_h (k a)) -> quiet_h (h_try m k).
Proof. intros Hm Hk. apply quiet_bind; [done|]. intros [a|e]; [apply Hk|apply quiet_ret]. Qed.
Lemma quiet_conn_or {A} what (m : M A) : Respects steady m -> quiet_h (conn_or what m).
Proof. intros Hm. apply quiet_bind; [by apply quiet_conn|]. intros r. apply quiet_ret. Qed.

Lemma wp_quiet {A B} (m : H A) (k : A -> H B) Q h : quiet_h m -> (forall a h1, alike c0 h h1 -> wp (k a) Q h1) -> wp (m ≫= k) Q h.
Proof. intros Hm HQ. specialize (Hm h). destruct (m h) as [a h1] eqn:E. eapply wp_step; [exact E|]. by apply HQ. Qed.
Lemma quiet_wp {A} (m : H A) h : quiet_h m -> wp m (fun _ h' => alike c0 h h') h.
Proof. intros Hm. specialize (Hm h). unfold wp. by destruct (m h). Qed.

Lemma quiet_deadline d : quiet_h (deadline_passed d).
Proof. destruct d; [apply quiet_bind; [apply quiet_now|intros; apply quiet_ret]|apply quiet_ret]. Qed.
Lemma quiet_windows only f d total windows : forall triaged t, quiet_h (triage_windows only f d total windows triaged t).
Proof.
  induction windows as [|window windows IH]; intros triaged t; cbn [triage_windows]; [apply quiet_ret|].
  apply quiet_bind; [apply quiet_deadline|]. intros [|]; [apply quiet_ret|]. apply quiet_bind; [apply quiet_conn, _|]. intros [cs gone]. apply IH.
Qed.
Lemma quiet_rows a want pf d limit cs picks : forall rows ca, quiet_h (dump_rows a want pf d limit cs picks rows ca).
Proof.
  induction picks as [|pick picks IH]; intros rows ca; cbn [dump_rows]; [apply quiet_ret|]. destruct (limit <=? zlen rows); [apply quiet_ret|].
  apply quiet_bind; [apply quiet_deadline|]. intros [|]; [apply quiet_ret|]. destruct (cs !! pick); [|apply IH].
  apply quiet_bind; [apply quiet_conn, _|]. intros [row ca']. apply IH.
Qed.
Lemma quiet_collect all a caps d : quiet_h (collect_dump_rows all a caps d).
Proof.
  unfold collect_dump_rows. apply quiet_bind; [apply quiet_bind; [apply quiet_now|intros at_; apply quiet_windows]|].
  intros t. destruct (family_round_robin _) as [order families]. apply quiet_bind; [apply quiet_rows|]. intros [rows unread]. apply quiet_ret.
Qed.
End Quiet.

(** ** The tool *)

Section Balance.
Context `{BC : BytesCrate} `{D : Debuggee} `{CL : Clock} `{LC : Lowercase} `{MS : Millis}.
Context {StopOrder : IterOrder string StopPoint}.
Context (c0 : Z -> Z) (HD : honest c0).

Lemma first_row_listed all a caps d h : match do_rows (fst (collect_dump_rows all a caps d h)) with r :: _ => dr_id r ∈ all | [] => True end.
Proof.
  destruct (dump_chosen all a caps d h) as (candidates & S & (F & _) & _). destruct (do_rows _) as [|r rows]; [done|].
  apply (map_sublist fst) in F. eapply elem_of_sublist; [|etransitivity; [exact F|exact S]]. simpl. by left.
Qed.

(** Suspended once by the dump, the machine is resumed once by it. *)
Lemma resume_after_dump_exact k probe h : k < 2 ^ 31 -> bounded c0 k h -> host_depth c0 probe h <= 1 ->
  wp (resume_after_dump probe) (fun _ h' => (forall t, host_depth c0 t h' = Z.max 0 (host_depth c0 t h - 1)) /\ held_view h' = held_view h /\
    vm_view h' = (None, ds_last_thread (h_session h))) h.
Proof.
  intros Hk Hb Hp. unfold resume_after_dump. destruct (resume_until_honest c0 HD (Z.to_nat MAX_RESUME_ATTEMPTS) 0 probe (ds_connection (h_session h))) as (w & E & _ & Hd).
  { by apply (bounded_counts c0 k). }
  cbv zeta in E. fold (host_depth c0 probe h) in E, Hd. pose proof (Hb probe) as Hp0. change (Z.of_nat (Z.to_nat MAX_RESUME_ATTEMPTS)) with 8 in *.
  rewrite (Z.max_l 1) in E, Hd by lia. apply wp_bind. eapply wp_conn; [exact E|]. cbv beta iota.
  replace (Z.max 0 (host_depth c0 probe h - 8)) with 0 by lia. simpl (_ =? _). cbv iota. apply wp_bind. unfold wp at 1, on_session. apply wp_ret.
  split_and!; [|done|done]. intros t. exact (Hd t).
Qed.

Lemma wp_try_conn {A B} what (m : M A) (k : A -> H (result string B)) Q h : Respects steady m ->
  (forall a h1, fst (m (ds_connection (h_session h))) = Ok a -> alike c0 h h1 -> wp (k a) Q h1) -> (forall e h1, alike c0 h h1 -> Q (Err e) h1) ->
  wp (h_try (conn_or what m) k) Q h.
Proof.
  intros Hm HQ HE. unfold h_try, conn_or. pose proof (quiet_conn c0 m Hm h) as K. unfold conn in K.
  destruct (m (ds_connection (h_session h))) as [r w] eqn:E. simpl in K. apply wp_bind, wp_bind. eapply wp_conn; [exact E|]. apply wp_ret.
  destruct r as [x|e]; [by apply HQ|by apply HE].
Qed.

(** The end of the tool: what it spent, and the reply. *)
Lemma report_quiet {A} (f : Z -> Z -> Z -> A) : quiet_h c0 (cost ← conn packets_sent; trips ← conn round_trips; wire_to ← now; mret (f cost trips wire_to)).
Proof.
  apply quiet_bind; [apply quiet_conn, _|]. intros cost. apply quiet_bind; [apply quiet_conn, _|]. intros trips.
  apply quiet_bind; [apply quiet_now|]. intros at_. apply quiet_ret.
Qed.

(** What is suspended for the dump is resumed after it. *)
Lemma suspended_dump k h h1 probe : k < 2 ^ 31 - 1 -> bounded c0 k h -> balanced c0 h -> held_view h = ∅ -> su_vm (ds_suspensions (h_session h)) = None ->
  in_u 64 probe -> (forall t, host_depth c0 t h1 = host_depth c0 t h + 1) -> held_view h1 = held_view h -> ds_last_thread (h_session h1) = ds_last_thread (h_session h) ->
  wp (resume_after_dump probe) (fun _ h' => alike c0 h h') h1.
Proof.
  intros Hk Hb Hbal Hnone Hvm Hp Hd Hh Hl. eapply wp_mono; [apply (resume_after_dump_exact (k + 1)); [lia| |]|].
  - intros t. rewrite Hd. specialize (Hb t). lia.
  - rewrite Hd, (ba_count _ _ Hbal) by done. unfold vm_hold, issued. rewrite Hvm, Hnone, lookup_empty. simpl. lia.
  - cbn beta. intros _ h' (D' & V' & M'). split; [|congruence|].
    + intros t. rewrite D', Hd. specialize (Hb t). lia.
    + rewrite M'. unfold vm_view. by rewrite Hvm, Hl.
Qed.

(** C37. A thread dump leaves the machine as it found it. On a debuggee that counts suspensions, with the books
    of the session balanced and no thread held by it, [debug.thread_dump] with any arguments, however the
    reads of it end and whenever its time runs out, changes no suspension count, and neither the record
    of the machine nor of any thread: when it suspends, it resumes exactly that. *)
Theorem dump_balances k a h :
  k < 2 ^ 31 - 1 -> bounded c0 k h -> balanced c0 h -> held_view h = ∅ ->
  (forall w, match fst (get_all_threads w) with Ok all => Forall (in_u 64) all | Err _ => True end) ->
  let '(_, h') := handle_thread_dump a h in alike c0 h h' /\ balanced c0 h'.
Proof.
  intros Hk Hb Hbal Hnone Hids. enough (wp (handle_thread_dump a) (fun _ h' => alike c0 h h') h) as K.
  { unfold wp in K. destruct (handle_thread_dump a h) as [r h']. split; [done|by eapply balanced_alike]. }
  unfold handle_thread_dump. destruct (da_monitors_only a && negb (da_monitors a)); [by apply wp_ret|].
  apply (wp_quiet c0); [apply quiet_conn, _|]. intros before h1 A1. apply (wp_quiet c0); [apply quiet_conn, _|]. intros waits h2 A2.
  apply (wp_quiet c0); [apply quiet_now|]. intros from h3 A3. specialize (Hids (ds_connection (h_session h3))).
  assert (A03 : alike c0 h h3) by (etransitivity; [exact A1|]; by etransitivity).
  apply wp_try_conn; [apply _| |intros e h4 A4; by transitivity h3]. intros all h4 Eall A4. rewrite Eall in Hids.
  assert (A04 : alike c0 h h4) by by transitivity h3. case_bool_decide as Hall; [by apply wp_ret|].
  apply (wp_quiet c0); [destruct (da_monitors a); [apply quiet_bind; [apply quiet_conn, _|intros; apply quiet_ret]|apply quiet_ret]|]. intros caps h5 A5.
  assert (A05 : alike c0 h h5) by by transitivity h4. clear A1 A2 A3 A03 A4 A04 A5 h1 h2 h3 Eall h4.
  apply wp_bind. unfold wp at 1, session. cbv zeta.
  assert (Hvm : su_vm (ds_suspensions (h_session h5)) = su_vm (ds_suspensions (h_session h)) /\ ds_last_thread (h_session h5) = ds_last_thread (h_session h)).
  { pose proof (al_vm _ _ _ A05) as E. unfold vm_view in E. by injection E. }
  destruct Hvm as [Hvm Hl]. destruct (da_suspend a && negb (is_some (su_vm (ds_suspensions (h_session h5))))) eqn:Es.
  - apply andb_true_iff in Es as [_ Es]. rewrite Hvm in Es. destruct (su_vm (ds_suspensions (h_session h))) eqn:Ev; [done|].
    destruct (suspend_all_honest c0 HD (ds_connection (h_session h5))) as (w & E & Hd).
    unfold h_try at 1. apply wp_bind. eapply (try_conn_or c0); [exact E|]. intros h6 D6 V6 R6. apply wp_bind. unfold wp at 1, now. apply wp_bind. unfold wp at 1, on_session.
    apply wp_ret. cbv iota. match goal with |- wp _ _ ?x => set (h7 := x) end.
    assert (D7 : forall t, host_depth c0 t h7 = host_depth c0 t h + 1).
    { intros t. transitivity (host_depth c0 t h6); [done|]. rewrite D6, Hd. f_equal. apply (al_depth _ _ _ A05). }
    assert (V7 : held_view h7 = held_view h) by (transitivity (held_view h6); [done|]; rewrite V6; apply (al_held _ _ _ A05)).
    assert (L7 : ds_last_thread (h_session h7) = ds_last_thread (h_session h)).
    { injection R6 as _ _ _ _ _ R6. transitivity (ds_last_thread (h_session h6)); [done|congruence]. }
    clearbody h7. apply (wp_quiet c0); [apply quiet_now|]. intros held_from h8 A8.
    match goal with |- wp (collect_dump_rows ?x ?y ?z ?d ≫= _) _ _ => pose proof (first_row_listed x y z d h8) as Hf; pose proof (quiet_collect c0 x y z d h8) as A9; destruct (collect_dump_rows x y z d h8) as [dump h9] eqn:E9 end.
    eapply wp_step; [exact E9|]. simpl in Hf, A9. apply (wp_quiet c0); [apply quiet_bind; [apply quiet_now|intros; apply quiet_ret]|]. intros held h10 A10.
    assert (A7 : alike c0 h7 h10) by (transitivity h8; [done|]; by transitivity h9).
    apply wp_bind. eapply wp_mono; [apply (suspended_dump k h); try done|].
    + destruct (do_rows dump) as [|r rows]; [|by eapply List.Forall_forall in Hids; [|by apply list_elem_of_In]].
      destruct all as [|x all]; [done|]. by apply list.Forall_cons in Hids as [? _].
    + intros t. rewrite (al_depth _ _ _ A7). apply D7.
    + by rewrite (al_held _ _ _ A7).
    + pose proof (al_vm _ _ _ A7) as E'. unfold vm_view in E'. by injection E' as _ ->.
    + cbn beta. intros note h11 A11. eapply wp_mono; [apply (quiet_wp c0), report_quiet|]. intros r h12 A12. by transitivity h11.
  - unfold h_try at 1. eapply wp_step; [reflexivity|]. cbv iota. eapply wp_mono; [apply (quiet_wp c0)|intros r h6 A6; by transitivity h5].
    apply quiet_bind; [apply quiet_now|]. intros held_from. apply quiet_bind; [apply quiet_collect|]. intros dump. apply quiet_bind; [apply quiet_ret|]. intros held.
    apply quiet_bind; [apply quiet_ret|]. intros note. apply report_quiet.
Qed.
End Balance.

(** ** A machine of one thread *)

(** Thread 9 is called [main], and is at no frame anyone may read. *)
Definition one_thread_vm : Debuggee := {|
  issue_outcome _ _ := None;
  reply_outcome log p :=
    let answer code body := Ok {| rp_id := cp_id p; rp_error_code := code; rp_data := body |} in
    if steers p then answer 0 [] else
    match cp_command_set p, cp_command p with
    | 1, 4 => answer 0 (be_bytes 4 1 ++ be_bytes 8 9)
    | 11, 1 => answer 0 (write_jdwp_string (BC := network_order) "main")
    | 11, 4 => answer 0 (be_bytes 4 1 ++ be_bytes 4 (if foldl (depth_step (cp_data p)) 0 log =? 0 then 0 else 1))
    | 11, 12 => answer 0 (be_bytes 4 (foldl (depth_step (cp_data p)) 0 log))
    | _, _ => answer 13 []
    end;
  lapses_unissued _ _ := false;
  lapses_unanswered _ _ := false
|}.

Section Witness.
#[local] Existing Instance network_order.
#[local] Existing Instance one_thread_vm.
#[local] Existing Instance late_clock.
#[local] Instance as_written : Lowercase := {| to_lowercase s := s |}.
#[local] Instance no_millis : Millis := {| millis_per_packet _ _ := ""; millis_truncated _ _ _ := (""%string, ""%string, ""%string) |}.

Lemma one_thread_honest : honest (fun _ => 0).
Proof. split; [done| |done]. intros log p Hs. simpl. by rewrite Hs. Qed.

Lemma one_thread_listed w : fst (get_all_threads w) = Ok [9].
Proof. reflexivity. Qed.

Definition freezing_dump : ThreadDumpArgs := {|
  da_name_filter := None; da_only_suspended := false; da_limit := 40; da_max_frames := 8; da_package_filter := None;
  da_monitors := true; da_monitors_only := false; da_suspend := true; da_max_suspend_ms := 2000 |}.

Lemma dump_balances_witness : let '(r, h') := handle_thread_dump freezing_dump idle_host in
  (exists text, r = Ok text) /\ steered (w_log (ds_connection (h_session h'))) = [(1, 8, []); (1, 9, [])] /\ balanced (fun _ => 0) h'.
Proof.
  pose proof (dump_balances (fun _ => 0) one_thread_honest 0 freezing_dump idle_host) as K.
  assert (E : steered (w_log (ds_connection (h_session (snd (handle_thread_dump freezing_dump idle_host))))) = [(1, 8, []); (1, 9, [])]) by by vm_compute.
  assert (Ok : match fst (handle_thread_dump freezing_dump idle_host) with Ok _ => True | Err _ => False end) by by vm_compute.
  destruct (handle_thread_dump freezing_dump idle_host) as [r h']. simpl in E, Ok. split; [destruct r; [by eexists|done]|]. split; [exact E|].
  apply K; [by_compute| | |done|].
  - intros t. unfold Honest.host_depth, depth. simpl. lia.
  - split; [done|]. intros t r0. change (held_view idle_host) with (∅ : gmap Z ThreadSuspend). by rewrite lookup_empty.
  - intros w. rewrite one_thread_listed. by constructor.
Defined.

(** A thread the session holds does not survive a dump that suspends: the dump resumes until its first
    thread runs, and the session goes on recording it as held. *)
Lemma dump_releases_held :
  let h1 := snd (handle_suspend_thread 300 "0x9" idle_host) in
  let h2 := snd (handle_thread_dump freezing_dump h1) in
  (ts_issued <$> held_view h1 !! 9, Honest.host_depth (fun _ => 0) 9 h1) = (Some 1, 1) /\
  (ts_issued <$> held_view h2 !! 9, Honest.host_depth (fun _ => 0) 9 h2) = (Some 1, 0).
Proof. by vm_compute. Qed.
End Witness.
