(* ===== verification/Snapshot.v ===== *)
(** * What is read of the debuggee at a hit ([mcp-server/src/handlers.rs])

    A leaf of a condition on the top frame of the hit thread, the snapshot of a traced hit, and the
    description of an event: the three readers the event pump takes as [Inspection]. *)

From S2P Require Import Prelude Protocol Types Reader Events Connection Client StopPoint Traces Session Manager Generics Text Condition Expr Host EventPump Watchdog Control Locate Paths Arming.
From S2P Require Import Reading TextArrays Structures Rendering ExprText Comparing Scans Resolve ThreadListing ThreadDump.

(** ** Lengths *)

Definition DEFAULT_TRACE_LOCAL_LENGTH : Z := 100.
Definition DEFAULT_TRACE_EXPR_LENGTH : Z := 200.
Definition EXCEPTION_MESSAGE_LEN : Z := 1000.
Definition trace_lengths (trace_max_length : option Z) : Z * Z :=
  match trace_max_length with Some n => (n, n) | None => (DEFAULT_TRACE_LOCAL_LENGTH, DEFAULT_TRACE_EXPR_LENGTH) end.

(** A class name that ends in [$] and digits. *)
Definition is_anonymous_class (jvm_name : string) : bool :=
  match rsplit_once (ch "$") (bytes_of_string jvm_name) with
  | Some (_, tail) => negb (bool_decide (tail = [])) && forallb is_ascii_digit tail
  | None => false
  end.

Definition json_scalar_to_string (v : Json) : string :=
  match v with JString s => s | JBool b => show_bool b | JNumber n => pretty n | JNull => "null" end.

Definition no_bindings : ConditionBindings := {| cb_exception := None; cb_new_value := None |}.

(** What reading the message of an exception produced. *)
Inductive ExceptionMessage : Type := MessageText (s : string) | MessageTimedOut (ms : Z) | MessageNone.

Section Snapshot.
Context `{BC : BytesCrate} `{D : Debuggee} `{FT : FloatText} `{PF : Platform}.

(** ** Conditions *)

Definition value_or_bound (thread_id : Z) (frame : Frame) (bindings : ConditionBindings) (side : chars) : St (result string Value) :=
  match binding_get bindings (trim side) with
  | Some v => mret (Ok v)
  | None => resolve_expression (Some thread_id) (Some frame) side
  end.

Definition eval_condition_leaf (thread_id : Z) (frame : Frame) (bindings : ConditionBindings) (leaf : chars) : St (result string bool) :=
  match split_comparison leaf with
  | Some (lhs, op, rhs) =>
    lv ←? value_or_bound thread_id frame bindings lhs;
    match binding_get bindings (trim rhs) with
    | Some rv => compare_resolved lv op rv
    | None =>
      match parse_lit (expr_ok (S (length (trim rhs)))) (trim rhs) with
      | Err e => mret (Err (expr_error_text e))
      | Ok (ArgExpr e) => rv ←? resolve_expression (Some thread_id) (Some frame) e; compare_resolved lv op rv
      | Ok rlit => compare_values lv op rlit
      end
    end
  | None =>
    v ←? value_or_bound thread_id frame bindings leaf;
    mret (match val_data v with VBoolean b => Ok b | _ => Err "Condition did not evaluate to a boolean"%string end)
  end.

Definition resolve_trace_expr (thread : Z) (frame : Frame) (expr : chars) : St (result string Value) :=
  if negb (expr_is_boolean expr) then resolve_expression (Some thread) (Some frame) expr
  else
    holds ←? eval_condition (eval_condition_leaf thread frame no_bindings) expr no_bindings;
    mret (Ok (value_bool holds)).

(** ** Locations *)

Definition describe_location (loc : Location) : St (string * string * option Z) :=
  sig ← st_ok (get_signature (loc_class_id loc));
  methods ← st_ok (get_methods (loc_class_id loc));
  let method := match methods ≫= List.find (fun m => mi_method_id m =? loc_method_id loc) with Some m => mi_name m | None => "" end in
  line ← source_line (loc_class_id loc) (loc_method_id loc) (loc_index loc);
  mret (match sig with Some s => decode_signature s | None => ""%string end, method, line).

(** The callers, nearest first; class names are read once. *)
Fixpoint caller_chain (frames : list Frame) (ca : DumpCaches) : St (list string) :=
  match frames with
  | [] => mret []
  | f :: frames =>
    '(class, ca) ← resolve_class_name (loc_class_id (fr_location f)) ca;
    '(method, line) ← frame_method_info (fr_location f);
    rest ← caller_chain frames ca;
    mret ((class +s+ "." +s+ method +s+ match line with Some l => ":" +s+ pretty l | None => "" end) :: rest)
  end.
Definition describe_caller_chain (frames : list Frame) : St (list string) := caller_chain frames no_caches.

(** ** The values of a hit *)

Definition render_traced (local_len : Z) (e : string * Value) : St TracedValue :=
  rendered ← render_value (snd e) None local_len default_render;
  mret {| tv_name := fst e; tv_rendered := rendered; tv_object_id := as_object_id (snd e) |}.

Definition in_scope (index : Z) (v : Variable_) : option (string * VariableSlot) :=
  if live_at index v then
    Some (var_name v, {| vs_slot := slot_of v; vs_sig_byte := default 73 (head (bytes_of_string (var_signature v))) |})
  else None.

Definition capture_frame_locals (thread frame_id : Z) (loc : Location) (local_len : Z) : St (list TracedValue) :=
  table ← st_ok (get_variable_table (loc_class_id loc) (loc_method_id loc));
  match omap (in_scope (loc_index loc)) (default [] table) with
  | [] => mret []
  | scope =>
    vals ← st_ok (get_frame_values thread frame_id (map snd scope));
    st_map (render_traced local_len) (zip (map fst scope) (default [] vals))
  end.

Definition is_capture (f : FieldInfo) : bool := String.prefix "val$" (fi_name f) || String.prefix "this$" (fi_name f).

Definition capture_enclosing_locals (thread frame_id : Z) : St (list TracedValue) :=
  this ← st_ok (get_this_object thread frame_id);
  match this with
  | None => mret []
  | Some this_id =>
    if this_id =? 0 then mret [] else
    type ← st_ok (get_object_reference_type this_id);
    fields ← match type with Some t => st_ok (get_fields t) | None => mret None end;
    match base.filter (fun f => is_capture f = true) (default [] fields) with
    | [] => mret []
    | wanted =>
      values ← st_ok (get_object_values this_id (map fi_field_id wanted));
      st_map (render_traced 100) (zip (map fi_name wanted) (default [] values))
    end
  end.

(** The frame under its new id, which an invocation on its thread gave it. *)
Definition refreshed_hit_frame (thread : Z) (frame : Frame) : St Frame :=
  frames ← st_ok (get_frames thread 0 1);
  mret (default frame (frames ≫= head)).

Definition capture_expr (thread : Z) (frame : Frame) (expr_len : Z) (e : string) : St string :=
  match split_charset (str_chars e) with
  | Err err => mret ("<error: " +s+ err +s+ ">")
  | Ok (expr_text, how) =>
    r ← resolve_trace_expr thread frame expr_text;
    match r with
    | Ok v => render_value v (Some thread) expr_len how
    | Err err => mret ("<error: " +s+ err +s+ ">")
    end
  end.
Fixpoint capture_exprs (first : bool) (thread : Z) (frame : Frame) (expr_len : Z) (exprs : list string) : St (list (string * string)) :=
  match exprs with
  | [] => mret []
  | e :: exprs =>
    frame ← (if first then mret frame else refreshed_hit_frame thread frame : St Frame);
    rendered ← capture_expr thread frame expr_len e;
    rest ← capture_exprs false thread frame expr_len exprs;
    mret ((e, rendered) :: rest)
  end.

(** ** Exceptions *)

Fixpoint detail_message_from (guard : nat) (exception : Z) (current : option Z) : St (option string) :=
  match guard, current with
  | S guard, Some tid =>
    fields ← st_ok (get_fields tid);
    match List.find (fun f => String.eqb (fi_name f) "detailMessage") (default [] fields) with
    | Some f =>
      v ← st_ok (get_object_values exception [fi_field_id f]);
      match val_data <$> (v ≫= head) with Some (VObject id) => string_value_of id | _ => mret None end
    | None =>
      super ← st_or None (get_superclass tid);
      detail_message_from guard exception super
    end
  | _, _ => mret None
  end.
Definition detail_message_field (exception : Z) (ref_type : option Z) : St (option string) :=
  detail_message_from CHAIN_GUARD exception ref_type.

Definition computed_npe_message (exception type_id thread : Z) : St ExceptionMessage :=
  found ← find_method_arity type_id "getMessage" 0;
  match found with
  | Ok (Some (decl, m)) =>
    if negb (String.eqb (mi_signature m) "()Ljava/lang/String;") then mret MessageNone else
    r ← attempt (invoke_method exception thread decl (mi_method_id m) []);
    match r with
    | Err (InvokeTimeout ms) => mret (MessageTimedOut ms)
    | Err _ => mret MessageNone
    | Ok (ret, exc) =>
      if negb (exc =? 0) then mret MessageNone else
      match val_data ret with
      | VObject sid => s ← string_value_of sid; mret (match s with Some s => MessageText s | None => MessageNone end)
      | _ => mret MessageNone
      end
    end
  | _ => mret MessageNone
  end.

Definition NULL_POINTER : string := "java.lang.NullPointerException".
Definition exception_message (exception : Z) (ref_type : option Z) (exc_type : string) (thread : Z) : St ExceptionMessage :=
  stored ← detail_message_field exception ref_type;
  match stored, ref_type with
  | Some s, _ => mret (MessageText s)
  | None, Some type_id => if String.eqb exc_type NULL_POINTER then computed_npe_message exception type_id thread else mret MessageNone
  | None, None => mret MessageNone
  end.

Definition describe_exception_event (details : EventKind) (obj : JsonMap) : St JsonMap :=
  match details with
  | Exception thread _ exception catch_location =>
    ref_type ← st_ok (get_object_reference_type exception);
    exc_type ← match ref_type with
               | Some t => sig ← st_or "" (get_signature t); mret (decode_signature sig)
               | None => mret "unknown"%string
               end;
    let obj := json_insert "exception" (JString exc_type) obj in
    message ← exception_message exception ref_type exc_type thread;
    let obj := match message with
               | MessageText msg => json_insert "message" (JString (truncate msg EXCEPTION_MESSAGE_LEN)) obj
               | MessageTimedOut ms =>
                 json_insert "message" (JString ("<not read — getMessage() did not return within " +s+ pretty ms +s+ "ms; that thread is still executing it>")) obj
               | MessageNone => obj
               end in
    let obj := json_insert "caught" (JBool (is_some catch_location)) obj in
    match catch_location with
    | Some cl =>
      '(cls, method, line) ← describe_location cl;
      mret (json_insert "caught_at" (JString (cls +s+ "." +s+ method +s+ ":" +s+ pretty (default (-1) line))) obj)
    | None => mret obj
    end
  | _ => mret obj
  end.

(** ** Returned values, monitors and fields *)

Definition describe_method_exit_event (details : EventKind) (obj : JsonMap) (max_len : Z) : St JsonMap :=
  match details with
  | MethodExit _ _ (Some v) => text ← render_value v None max_len default_render; mret (json_insert "returned" (JString text) obj)
  | MethodExit _ _ None => mret (json_insert "returned" (JString "<not reported — this JVM speaks JDWP < 1.6>") obj)
  | _ => mret obj
  end.

Definition describe_monitor_event (details : EventKind) (obj : JsonMap) : St JsonMap :=
  match monitor_of details with
  | None => mret obj
  | Some (m, _) =>
    t ← attempt (get_object_reference_type (me_monitor m));
    lock_type ← match t with
                | Ok t => sig ← st_or "" (get_signature t); mret (decode_signature sig)
                | Err _ => mret "unknown"%string
                end;
    let obj := json_insert "monitor" (JString (lock_type +s+ "@0x" +s+ show_hex (me_monitor m))) obj in
    let obj := json_insert "monitor_event" (JString (monitor_event_type_name details)) obj in
    mret (match details with
          | MonitorWait _ timeout =>
            json_insert "wait_timeout" (JString (if timeout =? 0 then "none (untimed wait — only a notify ends it)"%string else pretty timeout +s+ "ms requested")) obj
          | MonitorWaited _ timed_out =>
            json_insert "wait_ended" (JString (if timed_out : bool then "timed out — no notify arrived" else "notified")) obj
          | _ => obj
          end)
  end.

Definition watched_field (details : EventKind) : option (FieldEvent * option Value) :=
  match details with
  | FieldAccess field => Some (field, None)
  | FieldModification field new_value => Some (field, Some new_value)
  | _ => None
  end.

(** The field as it is now: of the instance, or of the class. *)
Definition current_value (f : FieldEvent) : St (option Value) :=
  vs ← st_ok (if fe_object f =? 0 then get_reference_values (fe_ref_type f) [fe_field_id f] else get_object_values (fe_object f) [fe_field_id f]);
  mret (vs ≫= head).

Definition describe_field_event (details : EventKind) (obj : JsonMap) (max_len : Z) : St JsonMap :=
  match watched_field details with
  | None => mret obj
  | Some (f, new_value) =>
    sig ← st_or "" (get_signature (fe_ref_type f));
    fields ← st_ok (get_fields (fe_ref_type f));
    let '(name, is_static) := match fields ≫= List.find (fun i => fi_field_id i =? fe_field_id f) with
                              | Some i => (fi_name i, negb (Z.land (fi_mod_bits i) ACC_STATIC =? 0))
                              | None => ("field@" +s+ show_hex (fe_field_id f), fe_object f =? 0)
                              end in
    let obj := json_insert "field" (JString (decode_signature sig +s+ "." +s+ name)) obj in
    let obj := json_insert "static" (JBool is_static) obj in
    let obj := if fe_object f =? 0 then obj else json_insert "instance" (JString ("0x" +s+ show_hex (fe_object f))) obj in
    current ← current_value f;
    let insert_rendered key v obj := text ← render_value v None max_len default_render; mret (json_insert key (JString text) obj) : St JsonMap in
    match new_value with
    | Some nv =>
      obj ← match current with Some old => insert_rendered "old"%string old obj | None => mret obj end;
      insert_rendered "new"%string nv obj
    | None => match current with Some v => insert_rendered "value"%string v obj | None => mret obj end
    end
  end.

(** ** The snapshot and the description *)

Definition trace_frames_of (thread trace_frames : Z) : St (option (list Frame)) :=
  if trace_frames =? 0 then st_ok (get_frames thread 0 1)
  else frames ← st_ok (get_frames thread 0 (-1)); mret (take (Z.to_nat (1 + trace_frames)) <$> frames).

(** Locals, captured values and expressions of the hit frame. *)
Definition capture_hit_frame (req : TracedRequest) (thread : Z) (loc : Location) (class : string) (frame : Frame) :
    St (list TracedValue * list TracedValue * list (string * string)) :=
  let '(local_len, expr_len) := trace_lengths (tq_trace_max_length req) in
  args ← capture_frame_locals thread (fr_frame_id frame) loc local_len;
  captured ← (if is_anonymous_class class then capture_enclosing_locals thread (fr_frame_id frame) else mret [] : St (list TracedValue));
  expr ← capture_exprs true thread frame expr_len (tq_trace_expr req);
  mret (args, captured, expr).

Definition capture_trace_of (req : TracedRequest) (thread : Z) (loc : Location) (details : EventKind) : St TraceRecord :=
  let expr_len := snd (trace_lengths (tq_trace_max_length req)) in
  '(class, method, line) ← describe_location loc;
  frames ← trace_frames_of thread (tq_trace_frames req);
  callers ← describe_caller_chain (drop 1 (default [] frames));
  '(args, captured, expr) ← match frames ≫= head with
                            | Some frame => capture_hit_frame req thread loc class frame
                            | None => mret ([], [], [])
                            end;
  obj ← describe_exception_event details [];
  obj ← describe_field_event details obj expr_len;
  obj ← describe_method_exit_event details obj expr_len;
  obj ← describe_monitor_event details obj;
  mret {| tr_seq := 0; tr_bp_id := tq_id req; tr_thread := thread; tr_class := class; tr_method := method; tr_line := line;
          tr_args := args; tr_captured := captured; tr_callers := callers; tr_expr := expr;
          tr_detail := map (fun e => (fst e, json_scalar_to_string (snd e))) obj; tr_rethrow := None |}.

Definition NO_DURATION : string :=
  "<not measured on a suspending monitor stop — the freeze between the two halves would BE the duration. Arm with trace:true for a measured figure>".

Definition describe_event_into (details : EventKind) (obj : JsonMap) : St JsonMap :=
  match event_location details with
  | Some (thread, loc) =>
    '(cls, method, line) ← describe_location loc;
    let obj := json_insert "thread" (JString (hex_thread thread)) obj in
    let obj := json_insert "class" (JString cls) obj in
    let obj := json_insert "method" (JString method) obj in
    let obj := json_insert "line" (match line with Some l => JNumber l | None => JNull end) obj in
    obj ← describe_exception_event details obj;
    obj ← describe_field_event details obj DEFAULT_TRACE_EXPR_LENGTH;
    obj ← describe_method_exit_event details obj DEFAULT_TRACE_EXPR_LENGTH;
    obj ← describe_monitor_event details obj;
    mret (if is_some (monitor_of details) then json_insert "duration" (JString NO_DURATION) obj else obj)
  | None =>
    mret (match details with
          | VMStart thread | ThreadStart thread | ThreadDeath thread => json_insert "thread" (JString (hex_thread thread)) obj
          | ClassPrepare thread _ signature _ =>
            json_insert "class" (JString signature) (json_insert "thread" (JString (hex_thread thread)) obj)
          | _ => obj
          end)
  end.

(** What the event pump reads at a hit. *)
Definition inspecting : Inspection := {|
  leaf_value := eval_condition_leaf;
  capture_trace := capture_trace_of;
  describe_event details := describe_event_into details []
|}.
End Snapshot.
