(* ===== verification/SnapshotFacts.v ===== *)
(** * What a hit may do to the debuggee

    The readers the event pump takes as [Inspection] are quiet: so its theorems are about the handlers as
    they are. *)

From S2P Require Import Prelude Protocol Types Reader Events Connection Client StopPoint Traces Session Manager Api Generics Text Condition Expr Host EventPump Steering Watchdog Control Locate Paths Arming.
From S2P Require Import Reading TextArrays Structures Rendering ExprText Comparing Scans Resolve ReadingFacts ResolveFacts Looking ThreadListing ThreadDump Snapshot.

Section Quiet.
Context `{BC : BytesCrate} `{D : Debuggee} `{FT : FloatText} `{PF : Platform} (may_invoke : bool).
Abbreviation U := (Respects (looks may_invoke)).

#[global] Instance Looks_frames t a n : U (get_frames t a n).
Proof. unfold get_frames. apply _. Qed.
#[global] Instance Looks_line_table c m : U (get_line_table c m).
Proof. unfold get_line_table. apply _. Qed.
#[global] Instance Looks_source_line c m i : U (source_line c m i).
Proof. unfold source_line. reads. Qed.
#[global] Instance Looks_method_info l : U (frame_method_info l).
Proof. unfold frame_method_info. reads. Qed.
#[global] Instance Looks_class_name c ca : U (resolve_class_name c ca).
Proof. unfold resolve_class_name. reads. Qed.
#[global] Instance Looks_location l : U (describe_location l).
Proof. unfold describe_location. reads. Qed.
#[global] Instance Looks_caller_chain fs ca : U (caller_chain fs ca).
Proof. revert ca. induction fs as [|f fs IH]; intros ca; cbn [caller_chain]; reads. Qed.

(** ** Conditions and expressions *)

#[global] Instance Looks_side tid fr b side {Hth : May may_invoke (Some tid)} : U (value_or_bound tid fr b side).
Proof. unfold value_or_bound. reads. Qed.
#[global] Instance Looks_condition_leaf tid fr b leaf {Hth : May may_invoke (Some tid)} : U (eval_condition_leaf tid fr b leaf).
Proof. unfold eval_condition_leaf. reads. Qed.
#[global] Instance Looks_trace_expr tid fr e {Hth : May may_invoke (Some tid)} : U (resolve_trace_expr tid fr e).
Proof.
  unfold resolve_trace_expr. reads. unfold eval_condition. apply (Respects_tree (looks may_invoke)). apply _.
Qed.
#[global] Instance Looks_refreshed t fr : U (refreshed_hit_frame t fr).
Proof. unfold refreshed_hit_frame. reads. Qed.
#[global] Instance Looks_capture_expr tid fr n e {Hth : May may_invoke (Some tid)} : U (capture_expr tid fr n e).
Proof. unfold capture_expr. reads. Qed.
Lemma Looks_capture_exprs first tid fr n es : es = [] \/ May may_invoke (Some tid) -> U (capture_exprs first tid fr n es).
Proof.
  intros He. revert first fr. induction es as [|e es IH]; intros first fr; [apply _|]. destruct He as [|Hth]; [done|]. cbn [capture_exprs].
  specialize (IH (or_intror Hth)). reads.
Qed.

(** ** The values of a hit *)

#[global] Instance Looks_traced n e : U (render_traced n e).
Proof. unfold render_traced. reads. Qed.
#[global] Instance Looks_locals t f l n : U (capture_frame_locals t f l n).
Proof. unfold capture_frame_locals. reads. Qed.
#[global] Instance Looks_enclosing t f : U (capture_enclosing_locals t f).
Proof. unfold capture_enclosing_locals. reads. Qed.
#[global] Instance Looks_trace_frames t n : U (trace_frames_of t n).
Proof. unfold trace_frames_of. reads. Qed.

(** ** Exceptions *)

#[global] Instance Looks_detail_from n o c : U (detail_message_from n o c).
Proof. revert c. induction n as [|n IH]; intros [c|]; cbn [detail_message_from]; reads. Qed.
#[global] Instance Looks_npe o t tid {Hth : May may_invoke (Some tid)} : U (computed_npe_message o t tid).
Proof. unfold computed_npe_message. reads. Qed.
Lemma Looks_message o t name tid : name <> NULL_POINTER \/ May may_invoke (Some tid) -> U (exception_message o t name tid).
Proof.
  intros Hm. unfold exception_message, detail_message_field. reads. destruct Hm as [Hn|]; [|apply _].
  by match goal with H : String.eqb name NULL_POINTER = true |- _ => apply String.eqb_eq in H end.
Qed.

#[global] Instance Looks_exit d obj n : U (describe_method_exit_event d obj n).
Proof. unfold describe_method_exit_event. reads. Qed.
#[global] Instance Looks_monitor d obj : U (describe_monitor_event d obj).
Proof. unfold describe_monitor_event. reads. Qed.
#[global] Instance Looks_field_event d obj n : U (describe_field_event d obj n).
Proof. unfold describe_field_event, current_value. reads. Qed.

(** An event that is not a thrown exception, or a reader that may call methods. *)
Definition calm (d : EventKind) : Prop := exception_instance d = None \/ may_invoke = true.
Lemma Looks_exception d obj : calm d -> U (describe_exception_event d obj).
Proof.
  intros [Hd|Hi]; unfold describe_exception_event; [destruct d; done || apply _|].
  assert (forall o t name tid, U (exception_message o t name tid)) by (intros; apply Looks_message; right; by intros _). reads.
Qed.
Lemma Looks_snapshot req t l d : calm d -> tq_trace_expr req = [] \/ may_invoke = true -> U (capture_trace_of req t l d).
Proof.
  intros Hd He. pose proof (fun obj => Looks_exception d obj Hd) as K.
  assert (forall fr n, U (capture_exprs true t fr n (tq_trace_expr req))) as E
    by (intros; apply Looks_capture_exprs; destruct He; [by left|right; by intros _]).
  unfold capture_trace_of, describe_caller_chain, capture_hit_frame. reads.
Qed.
Lemma Looks_describe d obj : calm d -> U (describe_event_into d obj).
Proof. intros Hd. pose proof (fun obj => Looks_exception d obj Hd) as K. unfold describe_event_into. reads. Qed.
End Quiet.

Lemma looks_steady i w w' : looks i w w' -> steady w w'.
Proof.
  intros (new & HL & HF & Hr). exists new. split_and!; [done| |apply Hr..]. eapply Forall_impl; [|exact HF]. by intros p [Hp _].
Qed.

(** The theorems of the event pump are about its readers as they are. *)
#[global] Instance inspecting_quiet `{BC : BytesCrate} `{D : Debuggee} `{FT : FloatText} `{PF : Platform} : QuietInspection inspecting.
Proof.
  split; intros; intros w; apply (looks_steady true); [apply Looks_condition_leaf|apply Looks_snapshot|apply Looks_describe]; by right || by intros _.
Qed.

(** ** How many methods are called *)

Definition invoked (log : list WireEvent) : nat := length (base.filter (fun p => invokes p = true) (attempts log)).
Definition calls (n : nat) (w w' : World) : Prop := exists new, w_log w' = w_log w ++ new /\ (invoked new <= n)%nat.

Lemma invoked_app l k : invoked (l ++ k) = (invoked l + invoked k)%nat.
Proof. unfold invoked, attempts. by rewrite omap_app, list.filter_app, length_app. Qed.
Lemma calls_trans i j w1 w2 w3 : calls i w1 w2 -> calls j w2 w3 -> calls (i + j) w1 w3.
Proof. intros (n1 & L1 & H1) (n2 & L2 & H2). exists (n1 ++ n2). rewrite L2, L1, invoked_app, <- (assoc_L (++)). split; [done|lia]. Qed.
Lemma calls_le i j w w' : (i <= j)%nat -> calls i w w' -> calls j w w'.
Proof. intros Hl (new & L & Hn). exists new. split; [done|lia]. Qed.

Lemma harmless_invokes_not p : harmless p -> invokes p = false.
Proof.
  unfold harmless, packet_mutates, mutating, invokes. intros Hm. apply bool_decide_eq_false in Hm. apply bool_decide_eq_false.
  intros Hi. apply Hm. rewrite !elem_of_cons in Hi |- *. destruct Hi as [->|[->|[]%elem_of_nil]]; [by left|right; by left].
Qed.
Lemma looks_none w w' : looks false w w' -> calls 0 w w'.
Proof.
  intros (new & HL & HF & _). exists new. split; [done|]. unfold invoked. induction HF as [|p l Hp HF IH]; [done|].
  rewrite filter_cons_False; [done|]. destruct Hp as [_ [Hp|[? _]]]; [|done]. rewrite (harmless_invokes_not p Hp). done.
Qed.

Section Calls.
Context `{BC : BytesCrate} `{D : Debuggee} `{FT : FloatText} `{PF : Platform}.

Lemma calls_none {A} (m : St A) : Respects (looks false) m -> Respects (calls 0) m.
Proof. intros Hm w. apply looks_none, Hm. Qed.
Lemma calls_first {A B} n (m : St A) (k : A -> St B) : Respects (calls n) m -> (forall a, Respects (looks false) (k a)) -> Respects (calls n) (m ≫= k).
Proof.
  intros Hm Hk w. unfold mbind, st_bind. specialize (Hm w). destruct (m w) as [a w1]; simpl in *.
  replace n with (n + 0)%nat by lia. eapply calls_trans; [done|]. apply looks_none, Hk.
Qed.
Lemma calls_then {A B} n (m : St A) (k : A -> St B) : Respects (looks false) m -> (forall a, Respects (calls n) (k a)) -> Respects (calls n) (m ≫= k).
Proof.
  intros Hm Hk w. unfold mbind, st_bind. specialize (Hm w). destruct (m w) as [a w1]; simpl in *.
  change n with (0 + n)%nat. eapply calls_trans; [by apply looks_none|]. apply Hk.
Qed.
Lemma calls_up {A} n (m : St A) : Respects (looks false) m -> Respects (calls n) m.
Proof. intros Hm w. eapply calls_le; [|apply looks_none, Hm]. lia. Qed.

Lemma invoke_calls o tid c m args : Respects (calls 1) (attempt (invoke_method o tid c m args)).
Proof.
  assert (forall p w, one_attempt p w (snd (send_invoke p w))) as One by apply send_invoke_one.
  intros w. unfold attempt, invoke_method, guard_mutation, is_read_only, gets, exchange_invoke, mbind, m_bind, lift, of_result, request, mbind, st_bind, next_id, mret, st_ret.
  destruct (w_read_only w); [exists []; split; [by rewrite app_nil_r|by apply Nat.le_0_l]|]. simpl.
  match goal with |- context [send_invoke ?p ?w1] => pose proof (One p w1) as [(new & HL & HA) _]; destruct (send_invoke p w1) as [[r|e] w2] end.
  all: simpl in *; exists new; split; [exact HL|]; unfold invoked; rewrite HA; etransitivity; [apply length_filter|done].
Qed.

Lemma calls_message o t name tid : Respects (calls 1) (exception_message o t name tid).
Proof.
  unfold exception_message, detail_message_field. apply calls_then; [apply _|]. intros stored.
  destruct stored; [apply calls_up, _|]. destruct t as [t|]; [|apply calls_up, _]. case_match; [|apply calls_up, _].
  unfold computed_npe_message. apply calls_then; [apply _|]. intros found. repeat (case_match; try apply calls_up, _).
  apply calls_first; [apply invoke_calls|]. intros r. reads.
Qed.
Lemma calls_exception d obj : Respects (calls 1) (describe_exception_event d obj).
Proof.
  unfold describe_exception_event. destruct d; try apply calls_up, _.
  apply calls_then; [apply _|]. intros t. apply calls_then; [reads|]. intros name. cbv zeta.
  apply calls_first; [apply calls_message|]. intros m. reads.
Qed.
Lemma calls_snapshot req t l d : tq_trace_expr req = [] -> Respects (calls 1) (capture_trace_of req t l d).
Proof.
  intros He. unfold capture_trace_of. apply calls_then; [apply _|]. intros [[class method] line]. apply calls_then; [apply _|]. intros frames.
  apply calls_then; [unfold describe_caller_chain; apply _|]. intros callers. apply calls_then.
  - case_match; [|apply _]. unfold capture_hit_frame. rewrite He. reads.
  - intros [[args captured] expr]. apply calls_first; [apply calls_exception|]. intros obj. reads.
Qed.
Lemma calls_described d obj : Respects (calls 1) (describe_event_into d obj).
Proof.
  unfold describe_event_into. case_match; [|apply calls_up, _]. case_match. apply calls_then; [apply _|]. intros [[cls method] line]. cbv zeta.
  apply calls_first; [apply calls_exception|]. intros o. reads.
Qed.
End Calls.

(** C10. What the debuggee goes through at a hit. The readers the event pump calls, a leaf of a condition, the
    snapshot of a traced hit and the description of an event, stop and start no thread and change nothing
    but by calling methods, whatever the debuggee answers. Without expressions of the caller's a snapshot
    calls one method at most, as does a description; none at all when the event is no exception, and of
    an exception that is not exactly a [NullPointerException] none is called for its message. *)
Theorem hits_inspected `{BC : BytesCrate} `{D : Debuggee} `{FT : FloatText} `{PF : Platform} (w : World) :
  (forall t frame b leaf, looks true w (snd (leaf_value (Inspection := inspecting) t frame b leaf w))) /\
  (forall req t l d, looks true w (snd (capture_trace (Inspection := inspecting) req t l d w))) /\
  (forall d, looks true w (snd (describe_event (Inspection := inspecting) d w))) /\
  (forall req t l d, tq_trace_expr req = [] ->
    let w' := snd (capture_trace (Inspection := inspecting) req t l d w) in
    calls 1 w w' /\ (exception_instance d = None -> looks false w w')) /\
  (forall d, let w' := snd (describe_event (Inspection := inspecting) d w) in
    calls 1 w w' /\ (exception_instance d = None -> looks false w w')) /\
  (forall exception type name t, name <> NULL_POINTER -> looks false w (snd (exception_message exception type name t w))).
Proof.
  split_and!.
  - intros. apply Looks_condition_leaf. by intros _.
  - intros. apply Looks_snapshot; by right.
  - intros. apply Looks_describe. by right.
  - intros req t l d He w'. split; [by apply calls_snapshot|]. intros Hd. apply Looks_snapshot; by left.
  - intros d w'. split; [by apply calls_described|]. intros Hd. apply Looks_describe. by left.
  - intros. apply Looks_message. by left.
Qed.

(** ** A [NullPointerException] *)

(** Object 1 is one; its [detailMessage] is null and [getMessage()] answers a text. *)
Definition npe_answers (set command : Z) (body : bytes) : JdwpResult (Z * bytes) :=
  let int32 := be_bytes 4 in
  let text := write_jdwp_string (BC := network_order) in
  let value := write_tagged_value (BC := network_order) in
  match set, command with
  | 2, 1 => Ok (0, text (if be_val body =? 7 then "Ljava/lang/NullPointerException;"%string else "Ljava/lang/String;"%string))
  | 2, 14 => Ok (0, int32 1 ++ be_bytes 8 1 ++ text "detailMessage"%string ++ text "Ljava/lang/String;"%string ++ text ""%string ++ int32 2)
  | 2, 15 => Ok (0, int32 1 ++ be_bytes 8 4 ++ text "getMessage"%string ++ text "()Ljava/lang/String;"%string ++ text ""%string ++ int32 1)
  | 9, 1 => Ok (0, 1 :: be_bytes 8 (if be_val body =? 1 then 7 else 8))
  | 9, 2 => Ok (0, int32 1 ++ value (value_object 0))
  | 9, 6 => Ok (0, value (value_object 9) ++ 76 :: be_bytes 8 0)
  | 10, 1 => Ok (0, text "because x is null"%string)
  | _, _ => Ok (99, [])
  end.

Section Thrown.
#[local] Existing Instance network_order.
#[local] Instance thrower : Debuggee := answering npe_answers.
#[local] Existing Instance no_floats.
#[local] Existing Instance no_platform.

Definition nowhere : Location := {| loc_type_tag := 1; loc_class_id := 2; loc_method_id := 3; loc_index := 0 |}.
Definition thrown : EventKind := Exception 5 nowhere 1 None.

Lemma hits_inspected_witness :
  let described := describe_event (Inspection := inspecting) thrown world_init in
  List.find (fun e => String.eqb (fst e) "message") (fst described) = Some ("message"%string, JString "because x is null") /\
  invoked (w_log (snd described)) = 1%nat /\ calls 1 world_init (snd described) /\
  looks false world_init (snd (exception_message 1 (Some 7) "java.lang.IllegalStateException" 5 world_init)).
Proof.
  destruct (hits_inspected world_init) as (_ & _ & _ & _ & Described & Other).
  split; [by vm_compute|]. split; [by vm_compute|]. split; [apply Described|by apply Other].
Defined.
End Thrown.

(** ** A frame that is gone

    A debuggee that retires the frames of a thread when a method is called on it, as JDWP has it. *)
Definition retiring (f : Z -> Z -> bytes -> JdwpResult (Z * bytes)) : Debuggee := {|
  issue_outcome _ _ := None;
  reply_outcome log p :=
    '(code, data) ← (if (cp_command_set p =? command_sets.STACK_FRAME) && (0 <? invoked log)%nat then Ok (30, [])
                     else f (cp_command_set p) (cp_command p) (cp_data p));
    Ok {| rp_id := cp_id p; rp_error_code := code; rp_data := data |};
  lapses_unissued _ _ := false;
  lapses_unanswered _ _ := false
|}.

(** The frame has an object [o], whose [f()] is true, and a boolean [b], which is true. *)
Definition frame_answers (set command : Z) (body : bytes) : JdwpResult (Z * bytes) :=
  let int32 := be_bytes 4 in
  let text := write_jdwp_string (BC := network_order) in
  let value := write_tagged_value (BC := network_order) in
  let variable name sig slot := be_bytes 8 0 ++ text name ++ text sig ++ text ""%string ++ int32 100 ++ int32 slot in
  match set, command with
  | 2, 1 => Ok (0, text "Lapp/Order;"%string)
  | 2, 10 => Ok (0, int32 0)
  | 2, 14 => Ok (0, int32 0)
  | 2, 15 => Ok (0, int32 1 ++ be_bytes 8 4 ++ text "f"%string ++ text "()Z"%string ++ text ""%string ++ int32 1)
  | 3, 1 => Ok (0, be_bytes 8 0)
  | 6, 5 => Ok (0, int32 0 ++ int32 2 ++ variable "o"%string "Lapp/Order;"%string 1 ++ variable "b"%string "Z"%string 2)
  | 9, 1 => Ok (0, 1 :: be_bytes 8 7)
  | 9, 6 => Ok (0, value (value_bool true) ++ 76 :: be_bytes 8 0)
  | 16, 1 => Ok (0, int32 1 ++ value (if be_val (take 4 (drop 20 body)) =? 1 then value_object 1 else value_bool true))
  | _, _ => Ok (99, [])
  end.

(** The clauses of a condition share the frame they started with: after one that called a method the
    others cannot read it, so the condition fails, and a failed condition stops the debuggee. *)
Lemma later_clauses_lose_their_frame :
  let answers := retiring frame_answers in
  let holds condition := fst (eval_condition (eval_condition_leaf (BC := network_order) (D := answers) (FT := no_floats) (PF := no_platform)
    5 {| fr_frame_id := 6; fr_location := nowhere |} no_bindings) (chars_of condition) no_bindings world_init) in
  holds "b && o.f()"%string = Ok true /\ holds "o.f()"%string = Ok true /\ (exists why, holds "o.f() && b"%string = Err why).
Proof. cbv zeta. split; [by vm_compute|]. split; [by vm_compute|]. eexists. by vm_compute. Qed.
