(* ===== verification/Stacks.v ===== *)
(** * The stack of a thread ([mcp-server/src/handlers.rs])

    [debug.get_stack]: the frames with their variables, the metadata of the whole stack read in waves where
    the values are shown on one line, and frame by frame where they are expanded. *)

From S2P Require Import Prelude Protocol Types Reader Events Connection Client EventRequest Api TypeGraph StopPoint Traces Session Manager.
From S2P Require Import Generics Text Expr Host EventPump Steering Watchdog Control Locate Paths Arming Reading ReadingFacts TextArrays.
From S2P Require Import Structures Rendering Resolve ResolveFacts Looking ThreadListing ThreadDump Snapshot SnapshotFacts.

Record GetStackArgs : Type := {
  sa_thread_id : option string;
  sa_max_frames : Z;
  sa_include_variables : bool;
  sa_package_filter : option string;
  sa_expand_objects : bool;
  sa_max_depth : nat;
  sa_max_children : Z;
}.

(** A local in scope: its name, where it is, and its type when that says more than the value. *)
Record ActiveLocal : Type := { al_name : string; al_slot : VariableSlot; al_declared : option string }.

Definition informative_generic_type (signature : string) (generic : option string) : option string :=
  rendered ← generic ≫= render_type;
  if String.eqb rendered (decode_signature signature) then None else Some rendered.

Definition active_local (index : Z) (v : Variable_) : option ActiveLocal :=
  if live_at index v then
    Some {| al_name := var_name v;
            al_slot := {| vs_slot := slot_of v; vs_sig_byte := default 63 (head (bytes_of_string (var_signature v))) |};
            al_declared := informative_generic_type (var_signature v) (var_generic_signature v) |}
  else None.
Definition active_locals (var_table : list Variable_) (index : Z) : list ActiveLocal := omap (active_local index) var_table.

(** What was read of the whole stack: per method its line table, if it has one, and its variables; per frame
    the values. *)
Record StackPrefetch : Type := {
  sp_lines : gmap (Z * Z) (option LineTable);
  sp_vars : gmap (Z * Z) (list Variable_);
  sp_values : gmap nat (list Value);
}.

Definition frame_method_key (loc : Location) : Z * Z := (loc_class_id loc, loc_method_id loc).

(** [i32::try_from(idx).unwrap_or(0)]. *)
Definition frame_index (idx : nat) : Z := default 0 (i32_of (Z.of_nat idx)).

Record StackWalk : Type := { sk_target : Z; sk_package_filter : option string; sk_include_variables : bool }.
(** How values are expanded and what is left of the budget, where they are. *)
Definition DeepWalk : Type := option (DeepOpts * DeepState).

Record StackWalkState : Type := {
  ss_caches : DumpCaches;
  ss_hidden : Z;
  ss_deep : DeepWalk;
  ss_pre : option StackPrefetch;
}.

Definition flush_hidden (hidden : Z) : string := if 0 <? hidden then "   … " +s+ pretty hidden +s+ " frame(s) hidden" +s+ newline else "".

Section Stacks.
Context `{BC : BytesCrate} `{D : Debuggee} `{FT : FloatText} `{LC : Lowercase}.

(** ** One frame's method, line and locals *)

Definition frame_line (location : Location) (pre : option StackPrefetch) : St (option Z) :=
  match pre ≫= fun p => sp_lines p !! frame_method_key location with
  | Some table => mret (table ≫= fun lt => line_at lt (loc_index location))
  | None => source_line (loc_class_id location) (loc_method_id location) (loc_index location)
  end.
Definition frame_locals (location : Location) (pre : option StackPrefetch) : St (list ActiveLocal) :=
  table ← match pre ≫= fun p => sp_vars p !! frame_method_key location with
          | Some table => mret (Some table)
          | None => st_ok (get_variable_table (loc_class_id location) (loc_method_id location))
          end;
  mret (match table with Some table => active_locals table (loc_index location) | None => [] end).

(** [frame_method_info], with its two switches. *)
Definition stack_frame_info (location : Location) (include_variables : bool) (pre : option StackPrefetch) :
    St (string * option Z * list ActiveLocal) :=
  let unnamed := ("method@" +s+ show_hex (loc_method_id location), None, []) in
  methods ← st_ok (get_methods (loc_class_id location));
  match methods ≫= List.find (fun m => mi_method_id m =? loc_method_id location) with
  | None => mret unnamed
  | Some method =>
    line ← frame_line location pre;
    active ← (if include_variables then frame_locals location pre else mret [] : St (list ActiveLocal));
    mret (mi_name method, line, active)
  end.

(** ** The waves *)

Definition distinct_methods (frames : list (nat * Frame)) : list (Z * Z) :=
  foldl (fun pairs f => let key := frame_method_key (fr_location (snd f)) in if bool_decide (key ∈ pairs) then pairs else pairs ++ [key]) [] frames.

Definition keep_lines (pairs : list (Z * Z)) (tables : list (JdwpResult LineTable)) : gmap (Z * Z) (option LineTable) :=
  foldl (fun m e => <[fst e := ok_of (snd e)]> m) ∅ (zip pairs tables).
(** Only what was read is kept, so that a refusal is asked about again. *)
Definition keep_answered {K A} `{Countable K} (keys : list K) (answers : list (JdwpResult A)) : gmap K A :=
  foldl (fun m e => match snd e with Ok a => <[fst e := a]> m | Err _ => m end) ∅ (zip keys answers).

(** The frames whose locals are read, each with the slots. *)
Fixpoint value_reads (thread_id : Z) (vars : gmap (Z * Z) (list Variable_)) (frames : list (nat * Frame)) :
    St (list (nat * (Z * Z * list VariableSlot))) :=
  match frames with
  | [] => mret []
  | (idx, frame) :: frames =>
    match vars !! frame_method_key (fr_location frame) with
    | None => value_reads thread_id vars frames
    | Some table =>
      methods ← st_ok (get_methods (loc_class_id (fr_location frame)));
      let known := existsb (fun m => mi_method_id m =? loc_method_id (fr_location frame)) (default [] methods) in
      let slots := map al_slot (active_locals table (loc_index (fr_location frame))) in
      if negb known || bool_decide (slots = []) then value_reads thread_id vars frames else
      rest ← value_reads thread_id vars frames;
      mret ((idx, (thread_id, fr_frame_id frame, slots)) :: rest)
    end
  end.

Definition prefetch_stack (thread_id : Z) (frames : list (nat * Frame)) (include_variables : bool) : St StackPrefetch :=
  let pairs := distinct_methods frames in
  tables ← read_line_tables_independently pairs;
  let lines := keep_lines pairs tables in
  if negb include_variables then mret {| sp_lines := lines; sp_vars := ∅; sp_values := ∅ |} else
  tables ← read_variable_tables_independently pairs;
  let vars := keep_answered pairs tables in
  reads ← value_reads thread_id vars frames;
  values ← read_frame_values_independently (map snd reads);
  mret {| sp_lines := lines; sp_vars := vars; sp_values := keep_answered (map fst reads) values |}.

(** ** One frame's variables *)

Definition variable_text (target : Z) (value : Value) (deep : DeepWalk) : St (string * DeepWalk) :=
  match deep with
  | Some (opts, state) => fun w =>
    let '(text, state, w) := render_node opts (do_depth_limit opts) value (Some target) 0 state w in (text, Some (opts, state), w)
  | None => text ← render_value value None 200 default_render; mret (text, None)
  end.

(** The lines, and the local the budget ran out at. *)
Fixpoint variable_lines (target : Z) (l : list (ActiveLocal * Value)) (deep : DeepWalk) : St (string * option string * DeepWalk) :=
  match l with
  | [] => mret ("", None, deep)
  | (local, value) :: l =>
    '(text, deep) ← variable_text target value deep;
    let line := "     " +s+ match al_declared local with Some t => t +s+ " " | None => "" end +s+ al_name local +s+ " = " +s+ text +s+ newline in
    if match deep with Some (_, state) => exhausted state | None => false end then mret (line, Some (al_name local), deep) else
    '(rest, stopped, deep) ← variable_lines target l deep;
    mret (line +s+ rest, stopped, deep)
  end.

(** The frame's id now: expanding a value of an earlier frame called methods, which retires the ids. *)
Definition current_frame_id (target : Z) (idx : nat) (frame_id : Z) (deep : DeepWalk) : St Z :=
  if is_some deep && (0 <? idx)%nat then
    fresh ← st_ok (get_frames target (frame_index idx) 1);
    mret (match fresh ≫= head with Some f => fr_frame_id f | None => frame_id end)
  else mret frame_id.

Definition render_frame_variables (target : Z) (idx : nat) (frame_id : Z) (active : list ActiveLocal) (deep : DeepWalk)
    (prefetched : option (list Value)) : St (string * option string * DeepWalk) :=
  frame_id ← current_frame_id target idx frame_id deep;
  values ← match prefetched with
           | Some values => mret (Some values)
           | None => st_ok (get_frame_values target frame_id (map al_slot active))
           end;
  match values with
  | None => mret ("", None, deep)
  | Some values => variable_lines target (zip active values) deep
  end.

(** ** One frame *)

Definition exhausted_note (idx : nat) (class method local : string) : string :=
  "   … node budget (" +s+ pretty STACK_NODE_BUDGET +s+ ") exhausted at #" +s+ pretty idx +s+ " " +s+ class +s+ "." +s+ method +s+ " local `" +s+ local +s+
  "` — remaining frames not expanded. Narrow with package_filter/max_frames/max_depth, or inspect one value with debug.evaluate." +s+ newline.

(** What the frame adds to the reply, and whether the walk goes on. *)
Definition render_stack_frame (idx : nat) (frame : Frame) (walk : StackWalk) (state : StackWalkState) : St (string * bool * StackWalkState) :=
  '(class, caches) ← resolve_class_name (loc_class_id (fr_location frame)) (ss_caches state);
  if negb (name_wanted (sk_package_filter walk) class) then
    mret ("", true, {| ss_caches := caches; ss_hidden := ss_hidden state + 1; ss_deep := ss_deep state; ss_pre := ss_pre state |})
  else
    '(method, line, active) ← stack_frame_info (fr_location frame) (sk_include_variables walk) (ss_pre state);
    let head_ := flush_hidden (ss_hidden state) +s+ frame_text (Z.of_nat idx) class method line +s+ newline in
    let next deep := {| ss_caches := caches; ss_hidden := 0; ss_deep := deep; ss_pre := ss_pre state |} in
    if negb (sk_include_variables walk) || bool_decide (active = []) then mret (head_, true, next (ss_deep state)) else
    '(vars, stopped, deep) ← render_frame_variables (sk_target walk) idx (fr_frame_id frame) active (ss_deep state)
                               (ss_pre state ≫= fun pre => sp_values pre !! idx);
    mret match stopped with
         | Some local => (head_ +s+ vars +s+ exhausted_note idx class method local, false, next deep)
         | None => (head_ +s+ vars, true, next deep)
         end.

(** The frames in order, until one says to stop. *)
Fixpoint render_stack_frames (frames : list (nat * Frame)) (walk : StackWalk) (state : StackWalkState) : St (string * StackWalkState) :=
  match frames with
  | [] => mret ("", state)
  | (idx, frame) :: frames =>
    '(text, more, state) ← render_stack_frame idx frame walk state;
    if negb more then mret (text, state) else
    '(rest, state) ← render_stack_frames frames walk state;
    mret (text +s+ rest, state)
  end.

(** The frames the filter leaves. *)
Fixpoint surviving_frames (package_filter : option string) (frames : list (nat * Frame)) (ca : DumpCaches) :
    St (list (nat * Frame) * DumpCaches) :=
  match frames with
  | [] => mret ([], ca)
  | (idx, frame) :: frames =>
    '(name, ca) ← resolve_class_name (loc_class_id (fr_location frame)) ca;
    '(rest, ca) ← surviving_frames package_filter frames ca;
    mret (if name_wanted package_filter name then (idx, frame) :: rest else rest, ca)
  end.

(** ** The tool *)

Definition resolve_target_thread (explicit last_hit : option Z) : St (result string Z) :=
  match union explicit last_hit with
  | Some tid => mret (Ok tid)
  | None =>
    st_try (failing "Failed to get threads: " get_all_threads) (fun threads =>
      mret (match head threads with Some tid => Ok tid | None => Err "No threads found" end))
  end.

Definition stack_header (target count : Z) (package_filter : option string) : string :=
  "Stack (thread 0x" +s+ show_hex target +s+ ", " +s+ pretty count +s+ " frames" +s+
  match package_filter with Some f => ", filter " +s+ quoted f | None => "" end +s+ "):" +s+ newline.
Definition read_only_note : string :=
  "🔒 read-only: showing shallow values — expand_objects invokes methods in the debuggee, which is refused here." +s+ newline.

(** Where the values are shown on one line, the surviving frames' metadata is read in waves first. *)
Definition prepare_walk (target : Z) (frames : list (nat * Frame)) (include_variables : bool) (package_filter : option string)
    (deep : DeepWalk) : St StackWalkState :=
  match deep with
  | Some _ => mret {| ss_caches := no_caches; ss_hidden := 0; ss_deep := deep; ss_pre := None |}
  | None =>
    _ ← read_signatures_independently (map (fun e => loc_class_id (fr_location (snd e))) frames);
    '(surviving, caches) ← surviving_frames package_filter frames no_caches;
    pre ← prefetch_stack target surviving include_variables;
    mret {| ss_caches := caches; ss_hidden := 0; ss_deep := None; ss_pre := Some pre |}
  end.

Definition expansion (a : GetStackArgs) (read_only : bool) : DeepWalk :=
  if sa_expand_objects a && negb read_only then
    Some ({| do_depth_limit := sa_max_depth a; do_child_limit := Z.max (sa_max_children a) 1; do_text_len := 200; do_bytes := default_render |},
          deep_state STACK_NODE_BUDGET)
  else None.

Definition render_stack (a : GetStackArgs) (read_only : bool) (target : Z) (frames : list Frame) : St string :=
  let package_filter := given_filter (sa_package_filter a) in
  let numbered := imap pair frames in
  let walk := {| sk_target := target; sk_package_filter := package_filter; sk_include_variables := sa_include_variables a |} in
  state ← prepare_walk target numbered (sa_include_variables a) package_filter (expansion a read_only);
  '(text, state) ← render_stack_frames numbered walk state;
  mret (stack_header target (zlen frames) package_filter +s+ (if sa_expand_objects a && read_only then read_only_note else "") +s+ text +s+
        flush_hidden (ss_hidden state) +s+ match ss_deep state with Some (_, deep) => render_path (dp_read_path deep) | None => "" end).

Definition handle_get_stack (a : GetStackArgs) : H (result string string) :=
  s ← session;
  h_try (conn (resolve_target_thread (parse_thread_id (sa_thread_id a)) (ds_last_thread s))) (fun target =>
  h_try (conn_or "Failed to get frames: " (get_frames target 0 (-1))) (fun frames =>
    match take (Z.to_nat (sa_max_frames a)) frames with
    | [] => mret (Ok ("Thread " +s+ show_hex target +s+ " has no stack frames"))
    | frames => text ← conn (render_stack a (ds_read_only s) target frames); mret (Ok text)
    end)).
End Stacks.

(** * Theorems: Reading a stack ahead, and what a stack read may do

    The metadata read in waves is what frame by frame reads would have answered; and a stack read without
    expansion calls no method. *)

(** ** A stack read only looks *)

Section Only.
Context `{BC : BytesCrate} `{D : Debuggee} `{FT : FloatText} `{LC : Lowercase} (may_invoke : bool).
Abbreviation U := (Respects (looks may_invoke)).

#[global] Instance Looks_frame_line l pre : U (frame_line l pre).
Proof. unfold frame_line. reads. Qed.
#[global] Instance Looks_frame_locals l pre : U (frame_locals l pre).
Proof. unfold frame_locals. reads. Qed.
#[global] Instance Looks_stack_info l incl pre : U (stack_frame_info l incl pre).
Proof. unfold stack_frame_info. reads. Qed.
#[global] Instance Looks_value_reads t vars frames : U (value_reads t vars frames).
Proof. induction frames as [|[idx fr] frames IH]; cbn [value_reads]; reads. Qed.
#[global] Instance Looks_line_tables pairs : U (read_line_tables_independently pairs).
Proof. unfold read_line_tables_independently. apply _. Qed.
#[global] Instance Looks_variable_tables pairs : U (read_variable_tables_independently pairs).
Proof.
  assert (forall g, U (variable_table_wave pairs g)) as K1 by (intros g; unfold variable_table_wave, variable_table_request; destruct g; apply _).
  assert (forall l g, U (variable_table_wave l g)) as K2 by (intros l g; unfold variable_table_wave, variable_table_request; destruct g; apply _).
  unfold read_variable_tables_independently. reads.
Qed.
#[global] Instance Looks_frame_values_wave l : U (read_frame_values_independently l).
Proof. unfold read_frame_values_independently, frame_values_request. apply _. Qed.
#[global] Instance Looks_signatures_wave ids : U (read_signatures_independently ids).
Proof. unfold read_signatures_independently, keep_signature. reads. Qed.
#[global] Instance Looks_prefetch t frames incl : U (prefetch_stack t frames incl).
Proof. unfold prefetch_stack. reads. Qed.
#[global] Instance Looks_surviving pf frames ca : U (surviving_frames pf frames ca).
Proof. revert ca. induction frames as [|[idx fr] frames IH]; intros ca; cbn [surviving_frames]; reads. Qed.
#[global] Instance Looks_threads : U get_all_threads.
Proof. unfold get_all_threads. apply _. Qed.
#[global] Instance Looks_target e l : U (resolve_target_thread e l).
Proof. unfold resolve_target_thread. reads. Qed.
#[global] Instance Looks_current t i f d : U (current_frame_id t i f d).
Proof. unfold current_frame_id. reads. Qed.

(** A computation that looks, and whose result is [P]. *)
Definition yields {A} (P : A -> Prop) (m : St A) : Prop := forall w, looks may_invoke w (snd (m w)) /\ P (fst (m w)).
Lemma yields_bind {A B} (P : A -> Prop) (Q : B -> Prop) (m : St A) (k : A -> St B) :
  yields P m -> (forall a, P a -> yields Q (k a)) -> yields Q (m ≫= k).
Proof.
  intros Hm Hk w. unfold mbind, st_bind. destruct (Hm w) as [H1 H2]. destruct (m w) as [a w1]. simpl in *.
  destruct (Hk a H2 w1) as [H3 H4]. split; [by transitivity w1|done].
Qed.
Lemma yields_ret {A} (P : A -> Prop) (a : A) : P a -> yields P (mret a).
Proof. intros Ha w. split; [simpl; reflexivity|done]. Qed.
Lemma yields_looks {A} (m : St A) : U m -> yields (fun _ => True) m.
Proof. intros Hm w. split; [apply Hm|done]. Qed.

(** Values are expanded only where methods may be called. *)
Definition allowed (deep : DeepWalk) : Prop := deep <> None -> may_invoke = true.

Lemma yields_text t v deep : allowed deep -> yields (fun r => allowed (snd r)) (variable_text t v deep).
Proof.
  intros Hd. unfold variable_text. destruct deep as [[opts state]|].
  - assert (May may_invoke (Some t)) by (intros _; by apply Hd). intros w.
    pose proof (Looks_node may_invoke (Some t) opts (do_depth_limit opts) v 0 state w) as K.
    destruct (render_node _ _ _ _ _ _ w) as [[text state'] w']. split; [done|]. intros _. by apply Hd.
  - eapply yields_bind; [apply yields_looks; reads|]. intros text _. by apply yields_ret.
Qed.
Lemma yields_lines t l deep : allowed deep -> yields (fun r => allowed (snd r)) (variable_lines t l deep).
Proof.
  revert deep. induction l as [|[local v] l IH]; intros deep Hd; cbn [variable_lines]; [by apply yields_ret|].
  eapply yields_bind; [by apply yields_text|]. intros [text deep'] Hd'. simpl in Hd'. case_match; [by apply yields_ret|].
  eapply yields_bind; [by apply IH|]. intros [[rest stopped] deep2] Hd2. by apply yields_ret.
Qed.
Lemma yields_variables t i f active deep pre : allowed deep -> yields (fun r => allowed (snd r)) (render_frame_variables t i f active deep pre).
Proof.
  intros Hd. unfold render_frame_variables. eapply yields_bind; [apply yields_looks, _|]. intros f' _.
  eapply yields_bind; [apply yields_looks; destruct pre; reads|]. intros [values|] _; [by apply yields_lines|by apply yields_ret].
Qed.
Lemma yields_frame i fr walk state : allowed (ss_deep state) -> yields (fun r => allowed (ss_deep (snd r))) (render_stack_frame i fr walk state).
Proof.
  intros Hd. unfold render_stack_frame. eapply yields_bind; [apply yields_looks, _|]. intros [class ca] _. case_match; [by apply yields_ret|].
  eapply yields_bind; [apply yields_looks, _|]. intros [[method line] active] _. case_match; [by apply yields_ret|].
  eapply yields_bind; [by apply yields_variables|]. intros [[vars [local|]] deep] Hd'; by apply yields_ret.
Qed.
Lemma yields_frames frames walk state : allowed (ss_deep state) -> yields (fun r => allowed (ss_deep (snd r))) (render_stack_frames frames walk state).
Proof.
  revert state. induction frames as [|[i fr] frames IH]; intros state Hd; cbn [render_stack_frames]; [by apply yields_ret|].
  eapply yields_bind; [by apply yields_frame|]. intros [[text more] state'] Hd'. simpl in Hd'. case_match; [by apply yields_ret|].
  eapply yields_bind; [by apply IH|]. intros [rest state2] Hd2. by apply yields_ret.
Qed.
Lemma yields_stack a ro t frames : (sa_expand_objects a && negb ro = true -> may_invoke = true) -> yields (fun _ => True) (render_stack a ro t frames).
Proof.
  intros Ha. assert (allowed (expansion a ro)) as Hd by (unfold allowed, expansion; destruct (_ && _); [intros _; by apply Ha|done]).
  unfold render_stack. eapply (yields_bind (fun state => allowed (ss_deep state))).
  - unfold prepare_walk. destruct (expansion a ro) as [e|]; [by apply yields_ret|].
    eapply yields_bind; [apply yields_looks, _|]. intros _ _. eapply yields_bind; [apply yields_looks, _|]. intros [surviving ca] _.
    eapply yields_bind; [apply yields_looks, _|]. intros pre _. by apply yields_ret.
  - intros state Hs. eapply yields_bind; [by apply yields_frames|]. intros [text state'] _. by apply yields_ret.
Qed.
End Only.

(** ** What is read ahead is what would be read *)

Lemma foldl_set_lookup {B} (l : list (nat * B)) (h : nat -> option B) (out : list B) i :
  (forall e, e ∈ l -> h (fst e) = Some (snd e) /\ (fst e < length out)%nat) ->
  foldl (fun out '(at_, b) => <[at_ := b]> out) out l !! i = if bool_decide (i ∈ map fst l) then h i else out !! i.
Proof.
  revert out. induction l as [|[j b] l IH]; intros out Hl; [done|]. cbn [foldl map fst]. destruct (Hl (j, b)) as [Hj Hlt]; [by left|]. simpl in Hj, Hlt.
  rewrite IH by (intros e He; rewrite length_insert; apply Hl; by right).
  destruct (decide (i ∈ map fst l)) as [Hi|Hi]; [rewrite !bool_decide_true; [done|by right|done]|].
  rewrite (bool_decide_false (i ∈ map fst l)) by done. destruct (decide (i = j)) as [->|Hn].
  - rewrite list_lookup_insert_eq, bool_decide_true; [done|by left|done].
  - rewrite list_lookup_insert_ne, bool_decide_false; [done| |done]. by intros [|]%elem_of_cons.
Qed.

Lemma zip_mapped {A B C} (g : B -> C) (l : list (A * B)) : zip (map fst l) (map g (map snd l)) = map (fun e => (fst e, g (snd e))) l.
Proof. induction l as [|e l IH]; [done|]. cbn [map zip_with]. f_equal. exact IH. Qed.

(** The waves' answers by key. *)
Lemma kept_lines (g : Z * Z -> JdwpResult LineTable) pairs key o : keep_lines pairs (map g pairs) !! key = Some o -> o = ok_of (g key).
Proof.
  unfold keep_lines. assert (forall m : gmap (Z * Z) (option LineTable), foldl (fun m e => <[fst e := ok_of (snd e)]> m) m (zip pairs (map g pairs)) !! key = Some o ->
    m !! key = Some o \/ o = ok_of (g key)) as K.
  { induction pairs as [|k pairs IH]; intros m Hm; [by left|]. cbn in Hm. destruct (IH _ Hm) as [Hk|]; [|by right].
    destruct (decide (k = key)) as [->|Hn]; [rewrite lookup_insert_eq in Hk|rewrite lookup_insert_ne in Hk by done; by left]. right. congruence. }
  intros Ho. destruct (K _ Ho) as [Hk|]; [|done]. by rewrite lookup_empty in Hk.
Qed.
Lemma kept_answer {K A E} `{Countable K} (l : list E) (key_of : E -> K) (g : E -> JdwpResult A) key a :
  keep_answered (map key_of l) (map g l) !! key = Some a -> exists e, e ∈ l /\ key_of e = key /\ g e = Ok a.
Proof.
  unfold keep_answered. assert (forall m : gmap K A,
    foldl (fun m e => match snd e with Ok a => <[fst e := a]> m | Err _ => m end) m (zip (map key_of l) (map g l)) !! key = Some a ->
    m !! key = Some a \/ exists e, e ∈ l /\ key_of e = key /\ g e = Ok a) as Kept.
  { induction l as [|e l IH]; intros m Hm; [by left|]. cbn in Hm. destruct (IH _ Hm) as [Hk|(e' & Hin & Hr)]; [|right; exists e'; split; [by right|done]].
    destruct (g e) as [a'|] eqn:Hg; [|by left]. destruct (decide (key_of e = key)) as [Hn|Hn]; [|rewrite lookup_insert_ne in Hk by done; by left].
    rewrite Hn, lookup_insert_eq in Hk. right. exists e. split; [by left|]. split; [done|congruence]. }
  intros Ha. destruct (Kept _ Ha) as [Hk|]; [|done]. by rewrite lookup_empty in Hk.
Qed.

Lemma keep_lines_all pairs tables key : key ∈ pairs -> length tables = length pairs -> is_Some (keep_lines pairs tables !! key).
Proof.
  unfold keep_lines. generalize (∅ : gmap (Z * Z) (option LineTable)). revert tables. induction pairs as [|k pairs IH]; intros [|r tables] m; try done.
  { by intros ?%elem_of_nil. }
  cbn [length zip zip_with foldl fst snd]. intros [->|Hin]%elem_of_cons [= Hl]; [|by apply IH].
  assert (Kept : forall l (m : gmap (Z * Z) (option LineTable)), is_Some (m !! k) -> is_Some (foldl (fun m (e : Z * Z * JdwpResult LineTable) => <[fst e := ok_of (snd e)]> m) m l !! k)).
  { induction l as [|[k' r'] l IHl]; intros m' Hm; [done|]. apply IHl. cbn. destruct (decide (k' = k)) as [->|]; [by rewrite lookup_insert_eq|by rewrite lookup_insert_ne]. }
  apply Kept. by rewrite lookup_insert_eq.
Qed.

(** The methods of the frames, each listed once. *)
Lemma distinct_methods_ok frames : NoDup (distinct_methods frames) /\
  forall key, key ∈ distinct_methods frames <-> exists e, e ∈ frames /\ frame_method_key (fr_location (snd e)) = key.
Proof.
  unfold distinct_methods. induction frames as [|e frames [Hnd Hin]] using rev_ind.
  - split; [by apply list.NoDup_nil|]. intros key. split; [by intros ?%elem_of_nil|by intros (e & ?%elem_of_nil & _)].
  - rewrite foldl_app. cbn [foldl]. set (pairs := foldl _ [] frames) in *.
    assert (forall key, (exists e', e' ∈ frames ++ [e] /\ frame_method_key (fr_location (snd e')) = key) <-> key ∈ pairs \/ key = frame_method_key (fr_location (snd e))) as Hs.
    { intros key. rewrite Hin. split.
      - intros (e' & [He| ->%list_elem_of_singleton]%elem_of_app & <-); [left; by exists e'|by right].
      - intros [(e' & He & <-)| ->]; [exists e'|exists e]; (split; [apply elem_of_app|done]); [by left|right; by apply list_elem_of_singleton]. }
    case_bool_decide as Hk; (split; [|intros key; rewrite Hs]).
    + done.
    + split; [by left|]. intros [| ->]; done.
    + apply list.NoDup_app. split_and!; [done| |apply list.NoDup_singleton]. intros x Hx ->%list_elem_of_singleton. done.
    + by rewrite elem_of_app, list_elem_of_singleton.
Qed.

(** A method, as a request names it. *)
Definition method_body `{BC : BytesCrate} (key : Z * Z) : bytes := put_be 8 (fst key) ++ put_be 8 (snd key).

Section Ahead.
Context `{BC : BytesCrate} `{D : Debuggee} (f : Z -> Z -> bytes -> JdwpResult (Z * bytes)) (Hf : constant f).

Definition one_line_table (key : Z * Z) : JdwpResult LineTable :=
  given f command_sets.METHOD method_commands.LINE_TABLE (method_body key) read_line_table.
Definition one_table (with_generic : bool) (key : Z * Z) : JdwpResult (list Variable_) :=
  given f command_sets.METHOD (if with_generic then method_commands.VARIABLE_TABLE_WITH_GENERIC else method_commands.VARIABLE_TABLE)
    (method_body key) (_arg_count ← read_i32; vars_count ← read_i32; read_count vars_count (read_variable with_generic)).
Definition one_variable_table (key : Z * Z) : JdwpResult (list Variable_) :=
  if not_implemented (one_table true key) then one_table false key else one_table true key.
Definition one_frame_values (read : Z * Z * list VariableSlot) : JdwpResult (list Value) :=
  given f command_sets.STACK_FRAME stack_frame_commands.GET_VALUES
    (put_be 8 (fst (fst read)) ++ put_be 8 (snd (fst read)) ++ put_len (snd read) ++
     concat (map (fun slot => put_be 4 (vs_slot slot) ++ put_be 1 (vs_sig_byte slot)) (snd read))) read_values.

Lemma get_line_table_constant c m w : fst (get_line_table c m w) = one_line_table (c, m).
Proof. apply (ask_constant f Hf). Qed.
Lemma get_frame_values_constant t fr slots w : fst (get_frame_values t fr slots w) = one_frame_values (t, fr, slots).
Proof. apply (ask_constant f Hf). Qed.
Lemma read_variable_table_constant c m g w : fst (read_variable_table c m g w) = one_table g (c, m).
Proof. apply (ask_constant f Hf). Qed.
Lemma get_variable_table_constant c m w : fst (get_variable_table c m w) = one_variable_table (c, m).
Proof.
  unfold get_variable_table, with_fallback, one_variable_table. unfold mbind at 1, m_bind, lift, attempt, mbind, st_bind, mret, st_ret.
  pose proof (read_variable_table_constant c m true w) as K. destruct (read_variable_table c m true w) as [r w1]. simpl in *. subst.
  destruct (not_implemented _); [apply read_variable_table_constant|done].
Qed.

Lemma line_tables_constant pairs w : fst (read_line_tables_independently pairs w) = map one_line_table pairs.
Proof. unfold read_line_tables_independently, decode_line_table. apply (wave_constant_of f Hf _ _ method_body). by intros []. Qed.
Lemma frame_values_constant reads w : fst (read_frame_values_independently reads w) = map one_frame_values reads.
Proof. unfold read_frame_values_independently, decode_frame_values. eapply (wave_constant_of f Hf). by intros [[] ]. Qed.
Lemma table_wave_constant pairs g w : fst (variable_table_wave pairs g w) = map (one_table g) pairs.
Proof. unfold variable_table_wave, decode_variable_table. apply (wave_constant_of f Hf _ _ method_body). by intros []. Qed.

Lemma elem_of_retries generic pairs i pair :
  (i, pair) ∈ retries generic pairs <-> exists r, generic !! i = Some r /\ not_implemented r = true /\ pairs !! i = Some pair.
Proof.
  unfold retries. rewrite list_elem_of_omap. split.
  - intros ([j r] & Hin & Hr). apply elem_of_lookup_imap in Hin as (k & r' & [= -> ->] & Hk). destruct (not_implemented r') eqn:E; [|done].
    destruct (pairs !! k) as [p|] eqn:Ep; [|done]. simpl in Hr. simplify_eq. by exists r'.
  - intros (r & Hg & Hn & Hp). exists (i, r). split; [apply elem_of_lookup_imap; by exists i, r|]. by rewrite Hn, Hp.
Qed.
Lemma variable_tables_constant pairs w : fst (read_variable_tables_independently pairs w) = map one_variable_table pairs.
Proof.
  unfold read_variable_tables_independently, mbind, st_bind. pose proof (table_wave_constant pairs true w) as K.
  destruct (variable_table_wave pairs true w) as [generic w1]. simpl in K. subst generic. set (generic := map (one_table true) pairs).
  assert (Hr : forall i pair, (i, pair) ∈ retries generic pairs <-> pairs !! i = Some pair /\ not_implemented (one_table true pair) = true).
  { intros i pair. rewrite elem_of_retries. unfold generic. rewrite list_lookup_fmap || rewrite list_lookup_map. split.
    - intros (r & Hg & Hn & Hp). rewrite Hp in Hg. simpl in Hg. by simplify_eq.
    - intros [Hp Hn]. rewrite Hp. by eexists. }
  assert (Hl : forall i, map one_variable_table pairs !! i = (pairs !! i) ≫= fun pair => Some (one_variable_table pair)) by
    (intros i; rewrite list_lookup_fmap; by destruct (pairs !! i)).
  case_bool_decide as E.
  - simpl. unfold generic. apply map_ext_in. intros pair Hin. unfold one_variable_table. destruct (not_implemented _) eqn:Hn; [|done].
    apply list_elem_of_In, list_elem_of_lookup in Hin as [i Hi]. assert ((i, pair) ∈ retries generic pairs) as Hin by by apply Hr.
    rewrite E in Hin. by apply elem_of_nil in Hin.
  - pose proof (table_wave_constant (map snd (retries generic pairs)) false w1) as K. destruct (variable_table_wave _ false w1) as [answers w2].
    simpl in *. subst answers. apply list_eq. intros i.
    rewrite zip_mapped, (foldl_set_lookup _ (fun i => pair ← pairs !! i; Some (one_table false pair))).
    2: { intros e ([j pair] & -> & [Hp Hn]%Hr)%list_elem_of_fmap. simpl. rewrite Hp. split; [done|]. unfold generic.
         rewrite length_map. by eapply lookup_lt_Some. }
    rewrite Hl, map_map. cbn [fst]. case_bool_decide as Hi.
    + apply list_elem_of_fmap in Hi as ([j pair] & -> & [Hp Hn]%Hr). simpl. rewrite Hp. simpl. unfold one_variable_table. by rewrite Hn.
    + unfold generic. rewrite list_lookup_fmap. destruct (pairs !! i) as [pair|] eqn:Hp; [|done]. simpl. f_equal. unfold one_variable_table.
      destruct (not_implemented _) eqn:Hn; [|done]. destruct Hi. apply list_elem_of_fmap. exists (i, pair). split; [done|]. by apply Hr.
Qed.

(** Reads ahead that hold what single reads would answer. *)
Definition truthful (thread_id : Z) (frames : list (nat * Frame)) (pre : StackPrefetch) : Prop :=
  (forall key o, sp_lines pre !! key = Some o -> o = ok_of (one_line_table key)) /\
  (forall key table, sp_vars pre !! key = Some table -> one_variable_table key = Ok table) /\
  (forall idx values, sp_values pre !! idx = Some values -> exists frame table, (idx, frame) ∈ frames /\
     one_variable_table (frame_method_key (fr_location frame)) = Ok table /\
     one_frame_values (thread_id, fr_frame_id frame, map al_slot (active_locals table (loc_index (fr_location frame)))) = Ok values).

Lemma value_reads_of t vars frames w e : e ∈ fst (value_reads t vars frames w) -> exists frame table, (fst e, frame) ∈ frames /\
  vars !! frame_method_key (fr_location frame) = Some table /\
  snd e = (t, fr_frame_id frame, map al_slot (active_locals table (loc_index (fr_location frame)))).
Proof.
  assert (Later : forall (x : nat * Frame) frames, (exists frame table, (fst e, frame) ∈ frames /\ vars !! frame_method_key (fr_location frame) = Some table /\
    snd e = (t, fr_frame_id frame, map al_slot (active_locals table (loc_index (fr_location frame))))) ->
    exists frame table, (fst e, frame) ∈ x :: frames /\ vars !! frame_method_key (fr_location frame) = Some table /\
    snd e = (t, fr_frame_id frame, map al_slot (active_locals table (loc_index (fr_location frame))))).
  { intros x l (frame & table & Hin & Hr). exists frame, table. split; [by right|done]. }
  revert w. induction frames as [|[idx frame] frames IH]; intros w; cbn [value_reads]; [by intros ?%elem_of_nil|].
  destruct (vars !! _) as [table|] eqn:Ev; [|intros He; apply Later; by eapply IH].
  unfold mbind at 1, st_bind at 1. destruct (st_ok _ w) as [methods w1]. case_match; [intros He; apply Later; by eapply IH|].
  unfold mbind, st_bind. specialize (IH w1). destruct (value_reads t vars frames w1) as [rest w2]. simpl in *.
  intros [->|He]%elem_of_cons; [|apply Later; by apply IH]. exists frame, table. split; [by left|done].
Qed.
Lemma prefetch_truthful t frames incl w : truthful t frames (fst (prefetch_stack t frames incl w)).
Proof.
  unfold prefetch_stack, mbind, st_bind. pose proof (line_tables_constant (distinct_methods frames) w) as K.
  destruct (read_line_tables_independently _ w) as [tables w1]. simpl in K. subst tables. pose proof (kept_lines one_line_table (distinct_methods frames)) as KL.
  destruct incl; simpl; [|split_and!; simpl; [exact KL|intros ??; by rewrite lookup_empty..]].
  pose proof (variable_tables_constant (distinct_methods frames) w1) as K. destruct (read_variable_tables_independently _ w1) as [tables w2]. simpl in K. subst tables.
  set (vars := keep_answered _ (map one_variable_table _)). pose proof (value_reads_of t vars frames w2) as KR.
  destruct (value_reads t vars frames w2) as [reads w3]. pose proof (frame_values_constant (map snd reads) w3) as K.
  destruct (read_frame_values_independently _ w3) as [values w4]. simpl in *. subst values.
  assert (KV : forall key table, vars !! key = Some table -> one_variable_table key = Ok table).
  { intros key table Hk. unfold vars in Hk. rewrite <- (map_id (distinct_methods frames)) in Hk at 1. apply kept_answer in Hk as (e & _ & <- & He). done. }
  split_and!; simpl; [exact KL|exact KV|]. intros idx values Hv. rewrite map_map in Hv. apply kept_answer in Hv as (e & He & <- & Hg).
  destruct (KR e He) as (frame & table & Hin & Ht & Hs). exists frame, table. rewrite <- Hs. split_and!; [done|by apply KV|done].
Qed.

Lemma frame_line_ahead t frames pre loc w : truthful t frames pre -> fst (frame_line loc (Some pre) w) = fst (frame_line loc None w).
Proof.
  intros (Hl & _ & _). unfold frame_line. cbn [mbind option_bind]. destruct (sp_lines pre !! frame_method_key loc) as [o|] eqn:E; [|done].
  apply Hl in E as ->. unfold source_line, attempt, mbind, st_bind. pose proof (get_line_table_constant (loc_class_id loc) (loc_method_id loc) w) as K.
  destruct (get_line_table _ _ w) as [r w1]. simpl in K. subst r. unfold frame_method_key. by destruct (one_line_table _).
Qed.
Lemma frame_locals_ahead t frames pre loc w : truthful t frames pre -> fst (frame_locals loc (Some pre) w) = fst (frame_locals loc None w).
Proof.
  intros (_ & Hv & _). unfold frame_locals. cbn [mbind option_bind]. destruct (sp_vars pre !! frame_method_key loc) as [table|] eqn:E; [|done].
  apply Hv in E. unfold mbind, st_bind. pose proof (st_ok_fst (get_variable_table (loc_class_id loc) (loc_method_id loc)) w) as K.
  rewrite get_variable_table_constant in K. destruct (st_ok _ w) as [r w1]. simpl in K. subst r. unfold frame_method_key in E. by rewrite E.
Qed.

(** The locals of a frame do not depend on when they are read. *)
Lemma frame_locals_constant loc w : fst (frame_locals loc None w) =
  match ok_of (one_variable_table (frame_method_key loc)) with Some table => active_locals table (loc_index loc) | None => [] end.
Proof.
  unfold frame_locals, mbind, st_bind. cbn [option_bind]. pose proof (st_ok_fst (get_variable_table (loc_class_id loc) (loc_method_id loc)) w) as K.
  rewrite get_variable_table_constant in K. destruct (st_ok _ w) as [r w1]. simpl in K. by subst r.
Qed.
Lemma frame_info_ahead t frames pre loc incl w : truthful t frames pre ->
  fst (stack_frame_info loc incl (Some pre) w) = fst (stack_frame_info loc incl None w).
Proof.
  intros Hp. unfold stack_frame_info, mbind, st_bind. destruct (st_ok _ w) as [methods w1]. destruct (option_bind _ _ _ _) as [method|]; [|done].
  pose proof (frame_line_ahead t frames pre loc w1 Hp) as KL. destruct (frame_line loc (Some pre) w1) as [line w2], (frame_line loc None w1) as [line' w2'].
  simpl in KL. subst line'. destruct incl; [|done]. pose proof (frame_locals_ahead t frames pre loc w2 Hp) as K.
  rewrite frame_locals_constant, <- (frame_locals_constant loc w2') in K.
  destruct (frame_locals loc (Some pre) w2) as [active w3], (frame_locals loc None w2') as [active' w3']. simpl in K. by subst.
Qed.
Lemma scope_of_info loc table w : one_variable_table (frame_method_key loc) = Ok table ->
  let active := snd (fst (stack_frame_info loc true None w)) in active = [] \/ active = active_locals table (loc_index loc).
Proof.
  intros Ht. cbv zeta. destruct (stack_frame_info loc true None w) as [[[method line] active] w'] eqn:E. simpl. revert E.
  unfold stack_frame_info. unfold mbind at 1, st_bind at 1. destruct (st_ok _ w) as [methods w1]. case_match; [|intros [= _ _ <- _]; by left].
  unfold mbind, st_bind. destruct (frame_line loc None w1) as [line' w2]. pose proof (frame_locals_constant loc w2) as K.
  destruct (frame_locals loc None w2) as [active' w3]. simpl in K. rewrite Ht in K. subst active'. intros [= _ _ <- _]. by right.
Qed.
End Ahead.

Lemma same_number {A B} (l : list (A * B)) k a b : NoDup (map fst l) -> (k, a) ∈ l -> (k, b) ∈ l -> a = b.
Proof.
  induction l as [|[k' c] l IH]; intros Hnd Ha Hb; [by apply elem_of_nil in Ha|]. apply list.NoDup_cons in Hnd as [Hk Hnd].
  assert (forall x, (k', x) ∈ l -> False) as Out by (intros x Hx; apply Hk, list_elem_of_fmap; by exists (k', x)).
  apply elem_of_cons in Ha as [[= -> ->]|Ha], Hb as [[= Hb]|Hb]; subst; [done| | |by eapply IH]; by edestruct Out.
Qed.

(** ** Handlers that change the connection alone *)

Section Views.
Context `{BC : BytesCrate} `{D : Debuggee} (may_invoke : bool).

Definition views (h h' : Host) : Prop :=
  looks may_invoke (ds_connection (h_session h)) (ds_connection (h_session h')) /\
  h' = {| h_session := with_connection (ds_connection (h_session h')) (h_session h); h_ticks := h_ticks h; h_alerts := h_alerts h |}.

Lemma views_refl h : views h h.
Proof. split; [reflexivity|]. by destruct h as [[] ? ?]. Qed.
Lemma views_trans h1 h2 h3 : views h1 h2 -> views h2 h3 -> views h1 h3.
Proof. intros [L1 E1] [L2 E2]. split; [by etransitivity|]. rewrite E2, E1 at 1. by rewrite E1. Qed.
Lemma views_ret {A} (a : A) h : views h (snd ((mret a : H A) h)).
Proof. apply views_refl. Qed.
Lemma views_bind {A B} (m : H A) (k : A -> H B) : (forall h, views h (snd (m h))) -> (forall a h, views h (snd (k a h))) ->
  forall h, views h (snd ((m ≫= k) h)).
Proof. intros Hm Hk h. unfold mbind, h_bind. specialize (Hm h). destruct (m h) as [a h1]. eapply views_trans; [exact Hm|apply Hk]. Qed.
Lemma views_conn {A} (m : World -> A * World) : Respects (looks may_invoke) m -> forall h, views h (snd (conn m h)).
Proof. intros Hm h. unfold conn. specialize (Hm (ds_connection (h_session h))). destruct (m _) as [a w]. by split. Qed.
End Views.

(** ** Each method is asked about its lines once *)

Definition asks_lines (p : CommandPacket) : bool := (cp_command_set p =? command_sets.METHOD) && (cp_command p =? method_commands.LINE_TABLE).
(** The methods whose line table a log asks for, as they are asked. *)
Definition line_asks (log : list WireEvent) : list bytes := map cp_data (base.filter (fun p => asks_lines p = true) (attempts log)).
Definition lineless : relation World := sends (fun p => asks_lines p = false).
#[global] Instance lineless_preorder : PreOrder lineless.
Proof. split; [intros w; apply sends_refl|intros w1 w2 w3; apply sends_trans]. Qed.

Lemma line_asks_app l k : line_asks (l ++ k) = line_asks l ++ line_asks k.
Proof. unfold line_asks, attempts. by rewrite omap_app, list.filter_app, map_app. Qed.
Lemma lineless_none new : Forall (fun p => asks_lines p = false) (attempts new) -> line_asks new = [].
Proof. unfold line_asks. induction 1 as [|p l Hp HF IH]; [done|]. rewrite filter_cons_False; [done|]. by rewrite Hp. Qed.

Section Once.
Context `{BC : BytesCrate} `{D : Debuggee}.
Abbreviation U := (Respects lineless).

#[local] Instance lineless_modify f : U (modify (with_types f)).
Proof. intros w. exists []. rewrite app_nil_r. split_and!; done || constructor. Qed.
Lemma lineless_exchange packet : MakesPacket packet -> (forall w, asks_lines (fst (packet w)) = false) -> U (exchange packet).
Proof. intros Hp Hn w. apply exchange_sends; [apply send_command_one|done|apply Hn]. Qed.
#[local] Instance lineless_methods t : U (get_methods t).
Proof.
  assert (forall g, U (read_methods t g)) by (intros g; unfold read_methods; apply Respects_bind; [apply _|apply lineless_exchange; [apply _|by destruct g]|apply _]).
  unfold get_methods, with_fallback. apply Respects_bind; [apply _..|]. intros types. case_match; apply _.
Qed.
#[local] Instance lineless_variables t m : U (get_variable_table t m).
Proof.
  assert (forall g, U (read_variable_table t m g)).
  { intros g. unfold read_variable_table. apply Respects_bind; [apply _|apply lineless_exchange; [unfold variable_table_request; apply _|by destruct g]|apply _]. }
  unfold get_variable_table, with_fallback. apply Respects_bind; [apply _..|]. intros r. case_match; apply _.
Qed.
#[local] Instance lineless_tables pairs : U (read_variable_tables_independently pairs).
Proof.
  assert (forall l g, U (variable_table_wave l g)).
  { intros l g w. unfold variable_table_wave. apply wave_sends; [intros [c m]; unfold variable_table_request; apply _|intros [c m] w'; by destruct g]. }
  unfold read_variable_tables_independently. apply Respects_st_bind; [apply _..|]. intros r. case_match; apply _.
Qed.
#[local] Instance lineless_values reads : U (read_frame_values_independently reads).
Proof. intros w. apply wave_sends; [intros [[t fr] s]; unfold frame_values_request; apply _|by intros [[t fr] s] w']. Qed.
#[local] Instance lineless_reads t vars frames : U (value_reads t vars frames).
Proof.
  induction frames as [|[idx fr] frames IH]; cbn [value_reads]; [apply _|]. case_match; [|done].
  apply Respects_st_bind; [apply _|unfold st_ok; apply _|]. intros ms. cbv zeta. case_match; apply _.
Qed.

(** The first wave asks for each of its pairs, in order. *)
Definition ask_lines (key : Z * Z) : St CommandPacket := let '(c, m) := key in line_table_request c m.
Lemma line_packets pairs w : forall packets w', st_map ask_lines pairs w = (packets, w') ->
  map cp_data packets = map method_body pairs /\ Forall (fun p => asks_lines p = true) packets.
Proof.
  revert w. induction pairs as [|[c m] pairs IH]; intros w packets w'; cbn [st_map]; [by intros [= <- _]|].
  unfold mbind, st_bind. cbn [ask_lines]. unfold line_table_request, request, mbind, st_bind, next_id, mret, st_ret.
  match goal with |- context [st_map ?g pairs ?w1] => destruct (st_map g pairs w1) as [rest w2] eqn:E end. intros [= <- _]. destruct (IH _ _ _ E) as [IH1 IH2]. split; [by rewrite map_cons, IH1|by constructor].
Qed.
Lemma line_wave pairs w : exists new, w_log (snd (read_line_tables_independently pairs w)) = w_log w ++ new /\ line_asks new = map method_body pairs /\
  length (fst (read_line_tables_independently pairs w)) = length pairs.
Proof.
  change (read_line_tables_independently pairs) with (wave ask_lines decode_line_table pairs). unfold wave, mbind, st_bind.
  destruct (requests_made ask_lines (fun _ => True) pairs w) as (packets & w1 & E & HL & HI & Hlen & _); [intros [c m]; unfold ask_lines, line_table_request; apply _|done|].
  rewrite E. apply line_packets in E as [Hd Ha]. unfold read_independently, modify, mbind, st_bind.
  destruct (issue_all _ _ _ _) as [rs w2] eqn:H. apply issue_all_spec in H as (new & more & L & -> & _ & Hl & A & _); [|simpl; lia].
  exists new. cbn [fst snd mret st_ret]. simpl in L. rewrite L, HL. split; [done|]. split.
  - unfold line_asks. rewrite A, <- Hd. f_equal. clear -Ha. induction Ha as [|p l Hp _ IH]; [done|]. by rewrite filter_cons_True, IH.
  - simpl in *. rewrite length_map. lia.
Qed.

(** Behind it nothing asks for a line table, for the methods it read. *)
Lemma prefetch_lines t frames incl w : exists new, w_log (snd (prefetch_stack t frames incl w)) = w_log w ++ new /\
  line_asks new = map method_body (distinct_methods frames) /\
  forall key, key ∈ distinct_methods frames -> is_Some (sp_lines (fst (prefetch_stack t frames incl w)) !! key).
Proof.
  unfold prefetch_stack. cbv zeta. set (pairs := distinct_methods frames). destruct (line_wave pairs w) as (n1 & L1 & A1 & Hlen).
  unfold mbind at 1 5, st_bind at 1 5. destruct (read_line_tables_independently pairs w) as [tables w1]. simpl in L1, Hlen.
  assert (Hkeys : forall key, key ∈ pairs -> is_Some (keep_lines pairs tables !! key)).
  { intros key Hin. apply keep_lines_all; [done|]. by rewrite Hlen. }
  set (rest := (if negb incl then _ else _) : St StackPrefetch).
  assert (Hr : U rest).
  { unfold rest. case_match; apply _. }
  assert (Hl : sp_lines (fst (rest w1)) = keep_lines pairs tables).
  { unfold rest, mbind, st_bind, mret, st_ret. by repeat case_match. }
  destruct (Hr w1) as (n2 & L2 & F2 & _). exists (n1 ++ n2). rewrite L2, L1, <- (assoc_L (++)). split; [done|].
  rewrite line_asks_app, A1, (lineless_none n2 F2), app_nil_r. split; [done|]. intros key Hk. rewrite Hl. by apply Hkeys.
Qed.
Lemma frame_info_lineless loc incl pre w : is_Some (sp_lines pre !! frame_method_key loc) -> lineless w (snd (stack_frame_info loc incl (Some pre) w)).
Proof.
  intros [o Ho]. revert w. change (U (stack_frame_info loc incl (Some pre))). unfold stack_frame_info, frame_line, frame_locals. simpl. rewrite Ho.
  apply Respects_st_bind; [apply _|unfold st_ok; apply _|]. intros ms. case_match; [|apply _]. apply Respects_st_bind; [apply _..|]. intros line.
  apply Respects_st_bind; [apply _| |intros; apply _]. case_match; [|apply _]. apply Respects_st_bind; [apply _| |intros; apply _].
  case_match; [apply _|unfold st_ok; apply _].
Qed.
End Once.

(** C38. What [debug.get_stack] reads ahead, where it reads the whole stack ahead, is what it would have read
    frame by frame. Whatever the debuggee answers, the waves ask for the line table of each method of the
    frames exactly once, however many frames the method has, and showing a frame of the stack asks for none
    again. On a debuggee whose answers do not change, every frame then has the method, line and locals in
    scope that reading it by itself gives, whichever were kept and whichever have to be read after all; and
    the values kept for a frame are what reading its locals gives. (A variable table that was refused is
    not kept, and is asked for again by every frame of its method: [refused_tables_asked_again].) *)
Theorem stack_reads_agree `{BC : BytesCrate} `{D : Debuggee} (t : Z) (frames : list (nat * Frame)) (include_variables : bool) (w : World) :
  let pre := fst (prefetch_stack t frames include_variables w) in
  (exists new, w_log (snd (prefetch_stack t frames include_variables w)) = w_log w ++ new /\ line_asks new = map method_body (distinct_methods frames)) /\
  NoDup (distinct_methods frames) /\
  (forall key, key ∈ distinct_methods frames <-> exists e, e ∈ frames /\ frame_method_key (fr_location (snd e)) = key) /\
  (forall e incl w', e ∈ frames -> lineless w' (snd (stack_frame_info (fr_location (snd e)) incl (Some pre) w'))) /\
  forall f : Z -> Z -> bytes -> JdwpResult (Z * bytes), constant f -> NoDup (map fst frames) ->
    (forall loc incl w', fst (stack_frame_info loc incl (Some pre) w') = fst (stack_frame_info loc incl None w')) /\
    (forall idx frame values w', (idx, frame) ∈ frames -> sp_values pre !! idx = Some values ->
       let active := snd (fst (stack_frame_info (fr_location frame) true None w')) in
       active = [] \/ fst (get_frame_values t (fr_frame_id frame) (map al_slot active) w') = Ok values).
Proof.
  intros pre. destruct (prefetch_lines t frames include_variables w) as (new & L & A & Hk). fold pre in Hk. destruct (distinct_methods_ok frames) as [Hd Hin].
  split; [by exists new|]. split; [done|]. split; [done|]. split; [intros e incl w' He; apply frame_info_lineless, Hk, Hin; by exists e|].
  intros f Hf Hnd. pose proof (prefetch_truthful f Hf t frames include_variables w) as Hp. fold pre in Hp.
  split; [intros; by apply (frame_info_ahead f Hf t frames)|].
  intros idx frame values w' Hfr Hv. destruct Hp as (_ & _ & Hp). destruct (Hp idx values Hv) as (frame' & table & Hin' & Ht & Hg).
  assert (frame' = frame) as -> by (eapply same_number; [exact Hnd|done..]).
  pose proof (scope_of_info f Hf _ _ w' Ht) as K. cbv zeta in K |- *. rewrite (get_frame_values_constant f Hf).
  destruct K as [->| ->]; [by left|by right].
Qed.

(** A stack without expanded objects, and any stack of a read-only session, calls no method: whatever
    the debuggee answers, [debug.get_stack] stops and starts no thread, writes, forces, pops and redefines
    nothing, and of the session it changes the connection alone. *)
Theorem stack_only_looks `{BC : BytesCrate} `{D : Debuggee} `{FT : FloatText} `{LC : Lowercase} (a : GetStackArgs) (h : Host) :
  let s := h_session h in
  let h' := snd (handle_get_stack a h) in
  let w' := ds_connection (h_session h') in
  looks (sa_expand_objects a && negb (ds_read_only s)) (ds_connection s) w' /\
  h' = {| h_session := with_connection w' s; h_ticks := h_ticks h; h_alerts := h_alerts h |}.
Proof.
  cbv zeta. set (i := sa_expand_objects a && negb (ds_read_only (h_session h))).
  change (views i h (snd (handle_get_stack a h))). unfold handle_get_stack, mbind at 1, h_bind at 1, session.
  unfold h_try. apply views_bind; [apply views_conn, _|]. intros [target|e]; [|apply views_ret].
  apply views_bind; [apply views_bind; [apply views_conn, _|intros; apply views_ret]|]. intros [frames|e]; [|apply views_ret].
  case_match; [apply views_ret|]. apply views_bind; [|intros; apply views_ret]. apply views_conn. intros w. by apply yields_stack.
Qed.

(** A method that recurses, in a debuggee without generic signatures. *)
Definition recursion (set command : Z) (body : bytes) : JdwpResult (Z * bytes) :=
  let text := write_jdwp_string (BC := network_order) in
  match set, command with
  | 2, 1 => Ok (0, text "Lapp/Tree;"%string)
  | 2, 5 => Ok (0, be_bytes 4 1 ++ be_bytes 8 9 ++ text "depth"%string ++ text "(I)I"%string ++ be_bytes 4 1)
  | 6, 1 => Ok (0, be_bytes 8 0 ++ be_bytes 8 40 ++ be_bytes 4 2 ++ be_bytes 8 0 ++ be_bytes 4 12 ++ be_bytes 8 20 ++ be_bytes 4 13)
  | 6, 2 => Ok (0, be_bytes 4 1 ++ be_bytes 4 1 ++ be_bytes 8 0 ++ text "level"%string ++ text "I"%string ++ be_bytes 4 40 ++ be_bytes 4 0)
  | 16, 1 => Ok (0, be_bytes 4 1 ++ [73] ++ be_bytes 4 (be_val (take 8 (drop 8 body))))
  | _, _ => Ok (99, [])
  end.
Definition in_depth (n : Z) : Location := {| loc_type_tag := 1; loc_class_id := 5; loc_method_id := 9; loc_index := n |}.
Definition recursing : list (nat * Frame) :=
  imap pair (map (fun e => {| fr_frame_id := fst e; fr_location := in_depth (snd e) |}) [(101, 25); (102, 25); (103, 4)]).

(** Three frames of one method: its line table is asked for once, and the values of each frame are its own. *)
Lemma stack_reads_agree_witness :
  let alone incl := fst (stack_frame_info (BC := network_order) (D := answering recursion) (in_depth 25) incl None world_init) in
  let pre := fst (prefetch_stack (BC := network_order) (D := answering recursion) 1 recursing true world_init) in
  distinct_methods recursing = [(5, 9)] /\ NoDup (distinct_methods recursing) /\
  sp_values pre !! 2%nat = Some [value_int 103] /\
  fst (stack_frame_info (BC := network_order) (D := answering recursion) (in_depth 25) true (Some pre) world_init) = alone true /\
  fst (alone true) = ("depth"%string, Some 13) /\ map al_name (snd (alone true)) = ["level"%string].
Proof.
  destruct (stack_reads_agree (BC := network_order) (D := answering recursion) 1 recursing true world_init) as (_ & Hnd & _ & _ & K).
  destruct (K recursion (answering_constant _)) as [Hinfo _]; [by_compute|].
  split; [by vm_compute|]. split; [exact Hnd|]. split; [by vm_compute|]. split; [apply Hinfo|]. split; by vm_compute.
Defined.

(** Without debug tables the same stack asks for the variables of its one method in the wave, and then again
    for each of its three frames; its lines it asks for once. *)
Definition bare (set command : Z) (body : bytes) : JdwpResult (Z * bytes) :=
  match set, command with 6, 2 | 6, 5 => Ok (101, []) | _, _ => recursion set command body end.
Definition asks (set command : Z) (w : World) : nat :=
  length (base.filter (fun p => (cp_command_set p =? set) && (cp_command p =? command) = true) (attempts (w_log w))).
Lemma refused_tables_asked_again :
  let '(pre, w1) := prefetch_stack (BC := network_order) (D := answering bare) 1 recursing true world_init in
  let w2 := snd (st_map (fun e => stack_frame_info (BC := network_order) (D := answering bare) (fr_location (snd e)) true (Some pre)) recursing w1) in
  (asks 6 1 w2, asks 6 5 w1, asks 6 5 w2) = (1, 1, 4)%nat.
Proof. by vm_compute. Qed.
