(* ===== verification/Writes.v ===== *)
(** * Writing a value ([mcp-server/src/handlers.rs])

    [debug.set_value]: a local, a static or an instance field, or one element of an array, a [List] or a
    [Map], from a literal or from a live value. *)

From S2P Require Import Prelude Protocol Types Reader Connection Client StopPoint Traces Session Manager TypeGraph Generics Text Condition Expr Host Watchdog Control Locate Paths Rearm.
From S2P Require Import Reading TextArrays Structures Rendering Overloads ExprText Comparing Resolve.

Record SetValueArgs : Type := { sv_target : chars; sv_value : chars; sv_thread_id : option string; sv_frame_index : nat }.

(** A write done, with what is said of it, or not attempted, with the reason if there is one. *)
Inductive FieldWrite : Type :=
| Done (message : string)
| Fallthrough (why : option string).

(** ** Literals, by the type they are written to *)

Definition f32_of_f64 (bits : Z) : Z := with_sign 32 (f64_sign bits) (f64_to_f32 (f64_magnitude bits)).
Definition f32_of_int (n : Z) : Z := with_sign 32 (n <? 0) (f32_of (Z.abs n) 1).
Definition value_byte (n : Z) : Value := {| val_tag := 66; val_data := VByte n |}.
Definition value_short (n : Z) : Value := {| val_tag := 83; val_data := VShort n |}.

Definition int_literal_to_value (n sig_byte : Z) : Value :=
  if sig_byte =? ch "J" then value_long n
  else if sig_byte =? ch "Z" then value_bool (negb (n =? 0))
  else if sig_byte =? ch "B" then value_byte (wrap_s 8 n)
  else if sig_byte =? ch "S" then value_short (wrap_s 16 n)
  else if sig_byte =? ch "C" then value_char (wrap_u 16 n)
  else if sig_byte =? ch "F" then value_float (f32_of_int n)
  else if sig_byte =? ch "D" then value_double (f64_of_int n)
  else value_int n.

Definition no_truncating_write `{FloatText} (kind : string) (v sig_byte : Z) : string :=
  "the " +s+ kind +s+ " literal " +s+ show_f64 v +s+ " cannot be written to a field of Java type '" +s+ string_of_bytes (encode_utf8 sig_byte) +s+
  "' — it would be truncated rather than rounded, so write the whole number you mean if that is what you intended".

Definition integral_types : list Z := [ch "J"; ch "I"; ch "S"; ch "B"; ch "C"].

(** [v] is the literal as an [f64]. *)
Definition float_literal_to_value `{FloatText} (v : Z) (is_float : bool) (sig_byte : Z) : result string Value :=
  if sig_byte =? ch "F" then Ok (value_float (f32_of_f64 v))
  else if sig_byte =? ch "D" then Ok (value_double v)
  else if bool_decide (sig_byte ∈ integral_types) then Err (no_truncating_write (if is_float then "float" else "double") v sig_byte)
  else Ok (if is_float then value_float (f32_of_f64 v) else value_double v).

Definition char_literal_to_value (c sig_byte : Z) : Value :=
  if sig_byte =? ch "I" then value_int c
  else if sig_byte =? ch "J" then value_long c
  else if sig_byte =? ch "S" then value_short (wrap_s 16 c)
  else if sig_byte =? ch "B" then value_byte (wrap_s 8 c)
  else if sig_byte =? ch "F" then value_float (f32_of_int c)
  else if sig_byte =? ch "D" then value_double (f64_of_int c)
  else value_char c.

(** [parse_lit], its failure as its message. *)
Definition literal (s : chars) : result string ArgLit := explained (parse_lit (expr_ok (S (length s))) s).

Definition HOW_TO_SUSPEND : string :=
  "debug.suspend_thread with a thread_id freezes ONE thread and leaves the rest of the JVM serving (debug.list_threads has the ids); a stop point hit or debug.pause also gives you one, and both cost more".
Definition readonly_refusal (action : string) : string :=
  "🔒 Read-only session: " +s+ action +s+ ", which is refused. Reattach without read_only (or unset JDWP_READONLY) to allow it. This is a guard against accident, not a security boundary.".

Definition not_a_literal (e : chars) : string :=
  "'" +s+ string_of_chars e +s+ "' is not a literal — set_value takes a literal (int, 123L, 1.5, 2.0f, 'a', true/false, null, " +s+ dquote +s+ "string" +s+ dquote +s+ ")".

(** The byte a signature starts with. *)
Definition first_byte (sig : string) : option Z := head (bytes_of_string sig).

(** ** The subscript a target ends in *)

(** Where the last group that closed at depth 0 opens, and where it ends; the characters from the [i]th on. *)
Fixpoint last_group_from (i : nat) (s : chars) (q : Quoted) (depth : Z) (open_at : option nat) (group : option (nat * nat)) :
    option (nat * nat) :=
  match s with
  | [] => group
  | c :: s =>
    let q' := quoted_step q c in
    if inside q then last_group_from (S i) s q' depth open_at group
    else if c =? ch "[" then last_group_from (S i) s q' (depth + 1) (if depth =? 0 then Some i else open_at) group
    else if c =? ch "]" then
      if depth - 1 <? 0 then None
      else if depth - 1 =? 0 then last_group_from (S i) s q' (depth - 1) None (start ← open_at; Some (start, S i))
      else last_group_from (S i) s q' (depth - 1) open_at group
    else last_group_from (S i) s q' depth open_at group
  end.
Definition trailing_subscript_start (target : chars) : option nat :=
  let t := trim_end target in
  match last_group_from 0 t quoted_default 0 None None with
  | Some (start, end_) => if (end_ =? length t)%nat then Some start else None
  | None => None
  end.

Section Writes.
Context `{BC : BytesCrate} `{D : Debuggee} `{FT : FloatText} `{PF : Platform}.

Definition type_mismatch_err (name : string) (field_sig : string) (value : Value) : string :=
  "Type mismatch: '" +s+ name +s+ "' is declared " +s+ decode_signature field_sig +s+ ", but the value " +s+ format show_f32 show_f64 value +s+
  " is not assignable — pass a compatible literal.".

Definition literal_to_value (s : chars) (sig_byte : Z) : St (result string Value) :=
  match literal s with
  | Err e => mret (Err e)
  | Ok (ArgStr st) => id ←? failing "Failed to create string: " (create_string (string_of_chars st)); mret (Ok (value_object id))
  | Ok ArgNull => mret (Ok value_null)
  | Ok (ArgBool b) => mret (Ok (value_bool b))
  | Ok (ArgLong n) => mret (Ok (value_long n))
  | Ok (ArgExpr e) => mret (Err (not_a_literal e))
  | Ok (ArgFloat v) => mret (float_literal_to_value (f64_of_f32 v) true sig_byte)
  | Ok (ArgDouble v) => mret (float_literal_to_value v false sig_byte)
  | Ok (ArgChar c) => mret (Ok (char_literal_to_value c sig_byte))
  | Ok (ArgInt n) => mret (Ok (int_literal_to_value n sig_byte))
  end.

(** An array target takes any array; another what is a subtype of it. *)
Definition reference_fits (declared_sig : string) (rt : Z) : St bool :=
  if begins (ch "[") declared_sig then
    sig ← st_ok (get_signature rt); mret (match sig with Some s => begins (ch "[") s | None => false end)
  else implements_interface rt declared_sig.

(** A reference is stored only where its type fits; a primitive target is left to the caller. *)
Definition validate_ref_assignable (declared_sig : string) (v : Value) : St (result string unit) :=
  if negb (begins (ch "L") declared_sig || begins (ch "[") declared_sig) then mret (Ok tt) else
  match val_data v with
  | VObject id =>
    if id =? 0 then mret (Ok tt) else
    rt ←? failing "Failed to resolve the source value's type: " (get_object_reference_type id);
    fits ← reference_fits declared_sig rt;
    if fits : bool then mret (Ok tt) else
    sig ← st_or "" (get_signature rt);
    mret (Err ("Type mismatch: the source is " +s+ decode_signature sig +s+ ", but the target is " +s+ decode_signature declared_sig +s+
               " — a reference of the wrong type is refused, because the JVM would not catch it."))
  | _ => mret (Err ("The target is " +s+ decode_signature declared_sig +s+ " (a reference), but the source resolved to a primitive."))
  end.

(** The frame asked for, or the top one where there is none of that index. *)
Definition frame_or_top (frames : list Frame) (frame_index : nat) : option Frame :=
  match frames !! frame_index with Some f => Some f | None => head frames end.

Definition value_to_write (thread_opt : option Z) (frame_index : nat) (value_str : chars) (declared_sig : string) : St (result string Value) :=
  match literal (trim value_str) with
  | Err e => mret (Err e)
  | Ok (ArgExpr e) =>
    match thread_opt with
    | None => mret (Err ("Copying the live value '" +s+ string_of_chars e +s+ "' needs a suspended thread — " +s+ HOW_TO_SUSPEND))
    | Some tid =>
      frames ← st_ok (get_frames tid 0 (-1));
      v ←? resolve_expression (Some tid) (frames ≫= fun fs => frame_or_top fs frame_index) e;
      _ ←? validate_ref_assignable declared_sig v;
      mret (Ok v)
    end
  | Ok _ => literal_to_value value_str (default (ch "L") (first_byte declared_sig))
  end.

(** The value for a slot or field declared [sig], if its tag fits. *)
Definition fitting_value (thread_opt : option Z) (frame_index : nat) (value_str : chars) (name sig bad : string) : St (result string Value) :=
  match first_byte sig with
  | None => mret (Err bad)
  | Some sig_byte =>
    value ←? value_to_write thread_opt frame_index value_str sig;
    mret (if tag_compatible sig_byte (val_tag value) then Ok value else Err (type_mismatch_err name sig value))
  end.

(** ** A local *)

Definition set_local_variable (thread_opt : option Z) (frame_index : nat) (seg : Seg) (value_str : chars) : St (result string string) :=
  if is_call seg then mret (Err "Cannot assign to a method call"%string) else
  let name := string_of_chars (seg_name seg) in
  match thread_opt with
  | None => mret (Err "No thread. Pass thread_id, or hit a breakpoint first."%string)
  | Some thread_id =>
    frames ←? failing "Failed to get frames: " (get_frames thread_id 0 (-1));
    match frames !! frame_index with
    | None => mret (Err ("frame_index " +s+ pretty (Z.of_nat frame_index) +s+ " out of range"))
    | Some frame =>
      let loc := fr_location frame in
      vars ←? failing "Failed to read variable table: " (get_variable_table (loc_class_id loc) (loc_method_id loc));
      match find_variable name (loc_index loc) vars with
      | None => mret (Err ("Unknown local variable '" +s+ name +s+ "' (for a static/instance field use Class.field or obj.field)"))
      | Some var =>
        value ←? fitting_value (Some thread_id) frame_index value_str name (var_signature var) "Bad signature";
        _ ←? failing "Failed to set value: " (set_frame_value thread_id (fr_frame_id frame) (slot_of var) value);
        mret (Ok ("✅ Set local " +s+ name +s+ " = " +s+ string_of_chars value_str))
      end
    end
  end.

(** ** An element *)

Definition set_array_element (tid : Z) (frame_index : nat) (id : Z) (container_expr : chars) (key : ArgLit) (raw_value : chars) :
    St (result string string) :=
  let container := string_of_chars container_expr in
  match key with
  | ArgInt i =>
    let element := container +s+ "[" +s+ pretty i +s+ "]" in
    len ←? failing ("Failed to read length of '" +s+ container +s+ "': ") (get_array_length id);
    if (i <? 0) || (len <=? i) then
      mret (Err ("Index " +s+ pretty i +s+ " is out of bounds for '" +s+ container +s+ "' (length " +s+ pretty len +s+ ")"))
    else
      type_id ←? failing ("Failed to resolve type of '" +s+ container +s+ "': ") (get_object_reference_type id);
      sig ← st_or "" (get_signature type_id);
      let component := string_of_bytes (default (bytes_of_string sig) (strip_prefix [ch "["] (bytes_of_string sig))) in
      let sig_byte := default (ch "L") (first_byte component) in
      old ← st_ok (get_array_values id i 1);
      value ←? value_to_write (Some tid) frame_index raw_value component;
      if negb (tag_compatible sig_byte (val_tag value)) then
        mret (Err ("'" +s+ element +s+ "' is " +s+ decode_signature component +s+ " — a " +s+
                   decode_signature (string_of_bytes [val_tag value]) +s+ " literal can't be written to it"))
      else
        _ ←? failing ("Failed to write '" +s+ element +s+ "': ") (set_array_values id i [value]);
        was ← (match old ≫= head with
               | Some v => text ← render_value v None 200 default_render; mret (" (was " +s+ text +s+ ")")
               | None => mret ""%string
               end : St string);
        mret (Ok ("✅ Set " +s+ element +s+ " = " +s+ string_of_chars raw_value +s+ was))
  | _ => mret (Err ("An array index must be an int, got " +s+ debug_arglit key +s+ " on '" +s+ container +s+ "'"))
  end.

(** [set] with two parameters, or [put]; the flag says which. *)
Definition element_writer (type_id : Z) : St (result string (option (Z * MethodInfo * bool))) :=
  found ←? find_method_arity type_id "set" 2;
  match found with
  | Some (d, m) => mret (Ok (Some (d, m, false)))
  | None => found ←? find_method_arity type_id "put" 2; mret (Ok ((fun e => (e, true)) <$> found))
  end.
Definition nested_resolver : Nested := {| ns_resolve := resolve_expression; ns_relative := resolve_relative |}.
Definition element_key (tid : Z) (frame : option Frame) (is_map : bool) (key : ArgLit) (container : string) : St (result string Value) :=
  if is_map then arglit_to_value nested_resolver (Some tid) frame key else
  match key with
  | ArgInt i => mret (Ok (value_int i))
  | _ => mret (Err ("A List index must be an int, got " +s+ debug_arglit key +s+ " on '" +s+ container +s+ "'"))
  end.

Definition set_collection_element (tid : Z) (frame_index : nat) (frame : option Frame) (id : Z) (container_expr : chars) (key : ArgLit)
    (raw_value : chars) : St (result string string) :=
  let container := string_of_chars container_expr in
  type_id ←? failing ("Failed to resolve type of '" +s+ container +s+ "': ") (get_object_reference_type id);
  writer ←? element_writer type_id;
  match writer with
  | None =>
    sig ← st_or "" (get_signature type_id);
    mret (Err ("'" +s+ container +s+ "' is a " +s+ decode_signature sig +s+
               ", which has neither set(index, value) nor put(key, value) — element writes work on arrays, List and Map"))
  | Some (decl, m, is_map) =>
    key_value ←? element_key tid frame is_map key container;
    let value_sig := default "Ljava/lang/Object;"%string (sig_param_types (mi_signature m) !! 1%nat) in
    new_value ←? value_to_write (Some tid) frame_index raw_value value_sig;
    args ←? coerce_args tid (mi_signature m) [key_value; new_value];
    r ←? hinting (mi_name m +s+ "() on '" +s+ container +s+ "' failed: ") (invoke_method id tid decl (mi_method_id m) args);
    displaced ←? invoke_result (mi_name m) (fst r) (snd r);
    old ← render_value displaced (Some tid) 200 default_render;
    mret (Ok ("✅ Set " +s+ container +s+ "[" +s+ render_arglit key +s+ "] = " +s+ string_of_chars raw_value +s+ " (was " +s+ old +s+ ") via " +s+
              mi_name m +s+ "()"))
  end.

Definition set_element (thread_opt : option Z) (frame_index : nat) (container_expr : chars) (key : ArgLit) (raw_value : chars) :
    St (result string string) :=
  let container := string_of_chars container_expr in
  match thread_opt with
  | None => mret (Err ("Writing '" +s+ container +s+ "[…]' needs a suspended thread — " +s+ HOW_TO_SUSPEND +s+ ". And if '" +s+ container +s+
                       "' is a List or a Map rather than an array, " +s+ HOW_TO_SUSPEND_FOR_AN_INVOKE))
  | Some tid =>
    frames ←? failing "Failed to get frames (is the thread suspended?): " (get_frames tid 0 (-1));
    let frame := frame_or_top frames frame_index in
    value ←? resolve_expression (Some tid) frame container_expr;
    match as_object_id value with
    | None => mret (Err ("'" +s+ container +s+ "' is null or a primitive, so it has no elements"))
    | Some id =>
      if val_tag value =? 91 then set_array_element tid frame_index id container_expr key raw_value
      else set_collection_element tid frame_index frame id container_expr key raw_value
    end
  end.

(** ** A field *)

Definition set_instance_field (thread_opt : option Z) (frame_index : nat) (container_expr : chars) (field_name : string) (value_str : chars) :
    St (result string FieldWrite) :=
  let container := string_of_chars container_expr in
  match thread_opt with
  | None => mret (Ok (Fallthrough None))
  | Some thread_id =>
    frames ← st_ok (get_frames thread_id 0 (-1));
    v ← resolve_expression (Some thread_id) (frames ≫= fun fs => fs !! frame_index) container_expr;
    match v with
    | Err e => mret (Ok (Fallthrough (Some e)))
    | Ok v =>
      match val_data v with
      | VObject obj_id =>
        if obj_id =? 0 then mret (Err ("Cannot set '." +s+ field_name +s+ "' — '" +s+ container +s+ "' is null")) else
        type_id ←? failing "Failed to resolve object type: " (get_object_reference_type obj_id);
        found ←? find_field_info type_id field_name (Some false);
        match found with
        | None => mret (Err ("No instance field '" +s+ field_name +s+ "' on the resolved object"))
        | Some (_, f) =>
          value ←? fitting_value (Some thread_id) frame_index value_str field_name (fi_signature f) "Bad field signature";
          _ ←? failing "Failed to set instance field: " (set_object_values obj_id [(fi_field_id f, value)]);
          mret (Ok (Done ("✅ Set instance field " +s+ container +s+ "." +s+ field_name +s+ " = " +s+ string_of_chars value_str)))
        end
      | _ => mret (Ok (Fallthrough (Some ("'" +s+ container +s+ "' is a primitive, not an object"))))
      end
    end
  end.

Definition set_static_field (thread_opt : option Z) (frame_index : nat) (container_expr : chars) (field_name : string) (value_str : chars) :
    St (result string (option string)) :=
  let container := string_of_chars container_expr in
  class ←? resolve_class_by_dotted container;
  match class with
  | None => mret (Ok None)
  | Some class_id =>
    found ←? find_field_info class_id field_name (Some true);
    match found with
    | None => mret (Err ("class '" +s+ container +s+ "' has no static field '" +s+ field_name +s+ "'"))
    | Some (_, f) =>
      value ←? fitting_value thread_opt frame_index value_str field_name (fi_signature f) "Bad field signature";
      _ ←? failing "Failed to set static field: " (set_reference_values class_id [(fi_field_id f, value)]);
      mret (Ok (Some ("✅ Set static field " +s+ container +s+ "." +s+ field_name +s+ " = " +s+ string_of_chars value_str)))
    end
  end.

(** What stands before the last segment. *)
Definition container_of (raws : list chars) : chars :=
  match removelast raws with
  | [] => []
  | p :: ps => p ++ concat (map (cons (ch ".")) ps)
  end.

Definition set_field_by_path (thread_opt : option Z) (frame_index : nat) (target : chars) (field_seg : Seg) (value_str : chars) :
    St (result string string) :=
  if is_call field_seg then mret (Err "The last segment must be a field, not a method call"%string) else
  let field_name := string_of_chars (seg_name field_seg) in
  match explained (split_segments target) with
  | Err e => mret (Err e)
  | Ok raws =>
    let container_expr := container_of raws in
    let not_written := "Could not write '" +s+ string_of_chars target +s+ "': '" +s+ string_of_chars container_expr +s+ "' " in
    instance ←? set_instance_field thread_opt frame_index container_expr field_name value_str;
    match instance with
    | Done message => mret (Ok message)
    | Fallthrough instance_err =>
      static ←? set_static_field thread_opt frame_index container_expr field_name value_str;
      mret match static with
           | Some message => Ok message
           | None => Err match instance_err with
                         | None => not_written +s+ "is not a loaded class, and there's no suspended thread to resolve it as an object. " +s+ HOW_TO_SUSPEND +s+ "."
                         | Some e => not_written +s+ "didn't resolve to an object (" +s+ e +s+ ") and isn't a loaded class."
                         end
           end
    end
  end.

(** ** The tool *)

Definition is_index (s : Subscript) : bool := match s with SubIndex _ => true | _ => false end.

(** What the target names, on the connection. *)
Definition set_target (thread_opt : option Z) (frame_index : nat) (target value_str : chars) : St (result string string) :=
  match explained (parse_expr target) with
  | Err e => mret (Err e)
  | Ok segs =>
    match List.find (fun s => existsb (fun x => negb (is_index x)) (seg_subs s)) segs with
    | Some seg =>
      mret (Err ("'" +s+ string_of_chars (seg_name seg) +s+ "[…]' selects several elements with a slice or filter, so there is nothing single to write. Use one index (e.g. [0]) to write one element."))
    | None =>
      match list.last segs with
      | None => mret (Err "Empty target path"%string)
      | Some last_seg =>
        match list.last (seg_subs last_seg), segs with
        | Some (SubIndex key), _ =>
          match trailing_subscript_start target with
          | None => mret (Err ("Could not find the final subscript in '" +s+ string_of_chars target +s+ "'"))
          | Some open => set_element thread_opt frame_index (trim (take open target)) key value_str
          end
        | _, [seg] => set_local_variable thread_opt frame_index seg value_str
        | _, _ => set_field_by_path thread_opt frame_index target last_seg value_str
        end
      end
    end
  end.

Definition handle_set_value (a : SetValueArgs) : H (result string string) :=
  s ← session;
  if ds_read_only s then mret (Err (readonly_refusal "set_value writes to the JVM")) else
  conn (set_target (union (parse_thread_id (sv_thread_id a)) (ds_last_thread s)) (sv_frame_index a) (trim (sv_target a)) (sv_value a)).
End Writes.
