(* ===== verification/WriteFacts.v ===== *)
(** * What a write writes, and where *)

From S2P Require Import Prelude Protocol Types Reader Connection Client EventRequest StopPoint Traces Session Manager Api TypeGraph Generics Text Condition Expr Lexing Literals ExprGrammar Host EventPump Steering Watchdog Control Locate Paths Arming Rearm.
From S2P Require Import Reading TextArrays Structures Rendering Overloads ExprText Comparing Resolve ReadingFacts StructureFacts OverloadFacts ResolveFacts Looking Snapshot SnapshotFacts Writes.

(** ** The target, split as it is parsed *)

Abbreviation square := (cnt square_shut).

(** A step outside literals, by the bracket it meets. *)
Lemma square_step q k c q' k' : qlex_step (q, k) c = Some (q', k') -> q' = quoted_step q c /\
  (if inside q then square k' = square k
   else if c =? ch "[" then square k' = square k + 1 else if c =? ch "]" then square k' = square k - 1 else square k' = square k).
Proof.
  intros H. destruct (count_step_lex square_open square_shut q k c q' k') as [-> Hc]; [by right; left|done|]. split; [done|].
  revert Hc. unfold count_step. destruct (inside q); cbn [negb andb]; [by intros <-|]. unfold square_open, square_shut.
  destruct (Z.eqb_spec c (ch "[")) as [->|N1].
  { rewrite bool_decide_true by (by apply elem_of_cons; left). intros <-. done. }
  rewrite bool_decide_false by (by rewrite list_elem_of_singleton). destruct (Z.eqb_spec c (ch "]")) as [->|N2].
  { rewrite bool_decide_true by (by apply elem_of_cons; left). intros <-. done. }
  rewrite bool_decide_false by (by rewrite list_elem_of_singleton). by intros <-.
Qed.

(** Over a text whose brackets match those open, the scan goes on behind it. *)
Lemma last_group_past s : forall i t q k q' k' open group, qlex (q, k) s = Some (q', k') -> exists open' group',
  last_group_from i (s ++ t) q (square k) open group = last_group_from (i + length s) t q' (square k') open' group'.
Proof.
  induction s as [|c s IH]; intros i t q k q' k' open group; cbn [qlex app length].
  { intros [= -> ->]. exists open, group. by rewrite Nat.add_0_r. }
  destruct (qlex_step (q, k) c) as [[q1 k1]|] eqn:E; [|done]. intros Hs. destruct (square_step _ _ _ _ _ E) as [-> Hk]. cbn [last_group_from].
  replace (i + S (length s))%nat with (S i + length s)%nat by lia. pose proof (cnt_nonneg square_shut k1) as Hn.
  destruct (inside q); [rewrite <- Hk; by apply IH|]. destruct (c =? ch "["); [rewrite <- Hk; by apply IH|].
  destruct (c =? ch "]"); [|rewrite <- Hk; by apply IH]. rewrite <- Hk. destruct (Z.ltb_spec (square k1) 0); [lia|].
  destruct (square k1 =? 0); by apply IH.
Qed.

(** Inside a group, what opened it is kept. *)
Lemma last_group_within s : forall i t q k q' k' o group, qlex (q, k) s = Some (q', k') ->
  last_group_from i (s ++ t) q (square (k ++ square_shut)) (Some o) group =
  last_group_from (i + length s) t q' (square (k' ++ square_shut)) (Some o) group.
Proof.
  assert (Outer : forall k, square (k ++ square_shut) = square k + 1) by
    (intros k'; rewrite cnt_app; by replace (square square_shut) with 1 by by_compute).
  induction s as [|c s IH]; intros i t q k q' k' o group; cbn [qlex app length].
  { intros [= -> ->]. by rewrite Nat.add_0_r. }
  destruct (qlex_step (q, k) c) as [[q1 k1]|] eqn:E; [|done]. intros Hs. destruct (square_step _ _ _ _ _ E) as [-> Hk]. cbn [last_group_from].
  replace (i + S (length s))%nat with (S i + length s)%nat by lia. pose proof (cnt_nonneg square_shut k1) as Hn.
  pose proof (cnt_nonneg square_shut k) as Hn0. specialize (IH (S i) t (quoted_step q c) k1 q' k' o group Hs). rewrite Outer in IH.
  rewrite Outer. destruct (inside q); [by rewrite <- Hk|]. destruct (c =? ch "[").
  { destruct (Z.eqb_spec (square k + 1) 0); [lia|]. rewrite <- IH. f_equal. lia. }
  destruct (c =? ch "]"); [|by rewrite <- Hk]. destruct (Z.ltb_spec (square k + 1 - 1) 0); [lia|].
  destruct (Z.eqb_spec (square k + 1 - 1) 0); [lia|]. rewrite <- IH. f_equal. lia.
Qed.

Lemma trailing_group s p : balanced s -> balanced p -> trailing_subscript_start (s ++ group p) = Some (length s).
Proof.
  intros Hs Hp. unfold trailing_subscript_start, group. rewrite (app_comm_cons p _ (ch "[")), app_assoc, trim_end_snoc by done.
  rewrite <- app_assoc. destruct (last_group_past s 0 ((ch "[" :: p) ++ [ch "]"]) quoted_default [] quoted_default [] None None Hs) as (o & g & E).
  change (square []) with 0 in E. rewrite E. cbn [app Nat.add last_group_from]. unfold inside at 1. cbn [in_str in_char quoted_default orb Z.eqb].
  pose proof (last_group_within p (S (length s)) [ch "]"] quoted_default [] quoted_default [] (length s) g Hp) as K.
  change (square ([] ++ square_shut)) with 1 in K. change (quoted_step quoted_default (ch "[")) with quoted_default.
  change (ch "[" =? ch "[") with true. cbn iota. change (0 + 1) with 1. rewrite K. cbn [last_group_from].
  change (inside quoted_default) with false. change (ch "]" =? ch "[") with false. change (ch "]" =? ch "]") with true.
  change (1 - 1 <? 0) with false. change (1 - 1 =? 0) with true. cbn [mbind option_bind].
  rewrite (proj2 (Nat.eqb_eq _ _)); [done|]. rewrite length_app. cbn. rewrite length_app. cbn. lia.
Qed.

(** ** The target, as it is dispatched *)

Lemma print_snoc_sub init name args subs b :
  print_expr (init ++ [XS name args (subs ++ [b])]) = print_expr (init ++ [XS name args subs]) ++ group (print_sub b).
Proof.
  assert (print_seg (XS name args (subs ++ [b])) = print_seg (XS name args subs) ++ group (print_sub b)) as E.
  { cbn [print_seg]. rewrite map_app, concat_app. cbn [map concat]. by rewrite app_nil_r, !app_assoc. }
  unfold print_expr. rewrite !map_app. cbn [map]. rewrite E. generalize (print_seg (XS name args subs)), (group (print_sub b)). intros x g.
  induction (map print_seg init) as [|p ps IH]; [done|]. destruct ps as [|q ps]; cbn [app] in IH |- *.
  - rewrite (Lexing.join_cons _ p (x ++ g)), (Lexing.join_cons _ p x). cbn [Lexing.join]. by rewrite <- !app_assoc.
  - rewrite !join_cons, IH. by rewrite <- !app_assoc.
Qed.
Lemma expr_balanced e : Forall seg_ok e -> balanced (print_expr e).
Proof.
  intros He. apply (join_balanced _ all_shut); [by_compute|]. apply Forall_map. eapply list.Forall_impl; [exact He|].
  intros s Hs. split; [apply (seg_shaped s Hs)|by apply seg_quiet_dot].
Qed.
Lemma expr_solid e : e <> [] -> Forall seg_ok e -> solid (print_expr e).
Proof.
  intros Hne He. apply solid_join; [done|by destruct e|]. apply Forall_map. eapply list.Forall_impl; [exact He|]. intros s Hs. apply (seg_shaped s Hs).
Qed.
Lemma container_printed e : container_of (map print_seg e) = print_expr (removelast e).
Proof.
  unfold container_of, print_expr. assert (removelast (map print_seg e) = map print_seg (removelast e)) as ->.
  { induction e as [|s e IH]; [done|]. destruct e; [done|]. change (print_seg s :: removelast (map print_seg (x :: e)) = print_seg s :: map print_seg (removelast (x :: e))). by rewrite IH. }
  destruct (map print_seg (removelast e)) as [|p ps]; [done|]. revert p. induction ps as [|q ps IH]; intros p; [cbn; by rewrite app_nil_r|].
  rewrite join_cons, <- IH. cbn. done.
Qed.

Lemma no_selection e : (forall s b, s ∈ e -> b ∈ seg_subs_of s -> is_index (sub_of b) = true) ->
  List.find (fun s => existsb (fun x => negb (is_index x)) (seg_subs s)) (map seg_of e) = None.
Proof.
  intros Hi. destruct (List.find _ _) as [seg|] eqn:E; [|done]. apply List.find_some in E as [Hin Hx]. apply in_map_iff in Hin as (s & <- & Hs).
  apply existsb_exists in Hx as (x & Hx & Hn). destruct s as [name args subs]. apply in_map_iff in Hx as (b & <- & Hb).
  apply list_elem_of_In in Hs, Hb. by rewrite (Hi _ b Hs Hb) in Hn.
Qed.
Lemma some_selection e s b : s ∈ e -> b ∈ seg_subs_of s -> is_index (sub_of b) = false ->
  exists seg, List.find (fun s => existsb (fun x => negb (is_index x)) (seg_subs s)) (map seg_of e) = Some seg.
Proof.
  intros Hs Hb Hx. destruct (List.find _ _) as [seg|] eqn:E; [by exists seg|]. pose proof (List.find_none _ _ E (seg_of s)) as K.
  cbv beta in K. rewrite (proj2 (existsb_exists (fun x => negb (is_index x)) (seg_subs (seg_of s)))) in K;
    [discriminate K; by apply in_map, list_elem_of_In|].
  exists (sub_of b). split; [|by rewrite Hx]. destruct s as [name args subs]. apply in_map. by apply list_elem_of_In.
Qed.
Lemma seg_ok_snoc name args subs b : seg_ok (XS name args (subs ++ [b])) -> seg_ok (XS name args subs) /\ sub_ok b.
Proof.
  intros H. inversion H as [? ? Hn Hb|? ? ? Hn Ha Hb]; subst; apply Forall_app in Hb as [Hb1 Hb2]; apply Forall_inv in Hb2;
    (split; [|done]); by constructor.
Qed.

(** C13. What a target names is what is written. For every well-formed target: one with a slice or a filter
    anywhere is refused and nothing is sent; one that ends in an index writes that element of the expression
    before the index, which parses to the same segments less that index; a single name writes the local; and a
    longer path writes the last name in what the path before it says. Strings, calls and nested subscripts
    hide their brackets and dots from the cut. *)
Theorem targets_dispatched `{BC : BytesCrate} `{D : Debuggee} `{FT : FloatText} `{PF : Platform} (thread : option Z) (fi : nat) (e : list XSeg) (v : chars) :
  e <> [] -> Forall seg_ok e ->
  let indices := forall s b, s ∈ e -> b ∈ seg_subs_of s -> is_index (sub_of b) = true in
  (forall s b, s ∈ e -> b ∈ seg_subs_of s -> is_index (sub_of b) = false -> exists why, forall w, set_target thread fi (print_expr e) v w = (Err why, w)) /\
  (indices -> forall init name args subs a, e = init ++ [XS name args (subs ++ [XIndex a])] ->
     let container := init ++ [XS name args subs] in
     set_target thread fi (print_expr e) v = set_element thread fi (print_expr container) (lit_of a) v /\
     parse_expr (print_expr container) = Ok (map seg_of container)) /\
  (indices -> forall name args, e = [XS name args []] -> set_target thread fi (print_expr e) v = set_local_variable thread fi (seg_of (XS name args [])) v) /\
  (indices -> forall init name args, init <> [] -> e = init ++ [XS name args []] ->
     set_target thread fi (print_expr e) v = set_field_by_path thread fi (print_expr e) (seg_of (XS name args [])) v /\
     exists raws, split_segments (print_expr e) = Ok raws /\ container_of raws = print_expr init).
Proof.
  intros Hne He indices. assert (Hparse : parse_expr (print_expr e) = Ok (map seg_of e)) by by apply parse_expr_print.
  assert (Hfind : indices -> List.find (fun s => existsb (fun x => negb (is_index x)) (seg_subs s)) (map seg_of e) = None).
  { intros Hi. by apply no_selection. }
  unfold set_target. rewrite Hparse. cbn [explained]. split_and!.
  - intros s b Hs Hb Hx. destruct (some_selection e s b Hs Hb Hx) as [seg ->]. by eexists.
  - intros Hi init name args subs a Ee. cbv zeta. subst e. set (container := init ++ [XS name args subs]).
    rewrite Hfind by done. rewrite map_app. cbn [map]. rewrite last_snoc. cbn [seg_of seg_subs].
    rewrite map_app. cbn [map]. rewrite last_snoc. cbn [sub_of].
    apply Forall_app in He as [He1 He2]. apply Forall_inv in He2. destruct (seg_ok_snoc _ _ _ _ He2) as [Hc Ha].
    assert (Forall seg_ok container) as Hco by (apply list.Forall_app; split; [done|by constructor]).
    assert (container <> []) as Hcne by (unfold container; by destruct init).
    rewrite print_snoc_sub. fold container. rewrite trailing_group; [|by apply expr_balanced|apply (sub_shaped _ Ha)].
    rewrite take_app_length, solid_trim by (by apply expr_solid). split; [done|]. by apply parse_expr_print.
  - intros Hi name args Ee. subst e. by rewrite Hfind.
  - intros Hi init name args Hin Ee. subst e. rewrite Hfind by done. rewrite map_app. cbn [map]. rewrite last_snoc. cbn [seg_of seg_subs].
    split; [|rewrite split_segments_print by done; eexists; split; [done|]; rewrite container_printed, removelast_last; done].
    destruct init as [|s1 init]; [done|]. cbn [map app]. by destruct (map seg_of init).
Qed.

(** [byId["]"].rows[2]]: the bracket in the key is content. *)
Definition keyed (subs : list XSub) : list XSeg := [XS (chars_of "byId") None [XIndex (XStr (chars_of "]"))]; XS (chars_of "rows") None subs].
Lemma keyed_ok : Forall seg_ok (keyed [XIndex (XInt 2)]).
Proof.
  repeat constructor; try (left; by vm_compute); try by_compute; by vm_compute.
Qed.
Lemma targets_dispatched_witness :
  let set_target := set_target (BC := network_order) (D := silent_debuggee) (FT := no_floats) (PF := no_platform) in
  let set_element := set_element (BC := network_order) (D := silent_debuggee) (FT := no_floats) (PF := no_platform) in
  set_target (Some 1) O (print_expr (keyed [XIndex (XInt 2)])) (chars_of "7") =
    set_element (Some 1) O (print_expr (keyed [])) (ArgInt 2) (chars_of "7") /\
  parse_expr (print_expr (keyed [])) = Ok (map seg_of (keyed [])).
Proof.
  destruct (targets_dispatched (BC := network_order) (D := silent_debuggee) (FT := no_floats) (PF := no_platform) (Some 1) O
    (keyed [XIndex (XInt 2)]) (chars_of "7")) as (_ & K & _); [done|apply keyed_ok|].
  apply (K ltac:(intros s b Hs Hb; unfold keyed in Hs; each_member Hs; cbn in Hb; each_member Hb; done)
    [XS (chars_of "byId") None [XIndex (XStr (chars_of "]"))]] (chars_of "rows") None [] (XInt 2)). done.
Defined.

(** ** Literals fit *)

Lemma delimited_within d t inner c : delimited d t = Some inner -> c ∈ inner -> c ∈ t.
Proof.
  unfold delimited. destruct ((2 <=? length t)%nat && starts_with [d] t && ends_with [d] t); [|done]. intros [= <-] Hc.
  destruct t as [|x t]; [done|]. cbn [tail] in Hc. apply elem_of_cons. right.
  destruct t as [|y t]; [done|]. rewrite (app_removelast_last 0 (l := y :: t)), elem_of_app by done. by left.
Qed.
Lemma literal_range s lit : Forall (fun c => 0 <= c < 1114112) s -> literal s = Ok lit -> lit_in_range lit.
Proof.
  intros Hs. unfold literal, explained. destruct (parse_lit _ s) as [l|] eqn:E; [|done]. intros [= ->]. revert E. unfold parse_lit.
  assert (Ht : Forall (fun c => 0 <= c < 1114112) (trim s)).
  { apply list.Forall_forall. intros c Hc. apply (Forall_in _ _ _ Hs). destruct (trim_split s) as (a & b & _ & _ & E).
    rewrite E, !elem_of_app. tauto. }
  repeat (case_bool_decide; [by intros [= <-]|]). destruct (delimited QUOTE (trim s)); [by intros [= <-]|].
  destruct (delimited APOS (trim s)) as [inner|] eqn:Ei.
  - destruct (parse_char_inner inner) as [u|] eqn:Eu; [|done]. intros [= <-]. eapply parse_char_range; [|exact Eu].
    apply list.Forall_forall. intros c Hc. apply (Forall_in _ _ _ Ht). by eapply delimited_within.
  - destruct (parse_number_lit _) as [n|] eqn:En; [intros [= <-]; by eapply parse_number_range|]. case_match; [by intros [= <-]|done].
Qed.

(** The first bytes of the types of Java. *)
Definition java_types : list Z := [ch "Z"; ch "B"; ch "C"; ch "S"; ch "I"; ch "J"; ch "F"; ch "D"; ch "L"; ch "["].

(** A number assigned to an integral type: the number of that type congruent to it. *)
Definition narrowed (in_type : Z -> Prop) (bits n m : Z) : Prop := in_type m /\ (m - n) mod 2 ^ bits = 0.

(** What a literal is as a value of a type. *)
Definition assigned (lit : ArgLit) (d : ValueData) : Prop :=
  match lit, d with
  | (ArgInt n | ArgChar n), VByte m => narrowed (in_s 8) 8 n m
  | (ArgInt n | ArgChar n), VShort m => narrowed (in_s 16) 16 n m
  | (ArgInt n | ArgChar n), VChar m => narrowed (in_u 16) 16 n m
  | (ArgInt n | ArgChar n), (VInt m | VLong m) => m = n
  | (ArgInt n | ArgChar n), VFloat m => m = f32_of_int n
  | (ArgInt n | ArgChar n), VDouble m => m = f64_of_int n
  | ArgLong n, VLong m => m = n
  | ArgInt n, VBoolean b => b = negb (n =? 0)
  | ArgFloat v, VFloat m => m = f32_of_f64 (f64_of_f32 v)
  | ArgFloat v, VDouble m => m = f64_of_f32 v
  | ArgDouble v, VFloat m => m = f32_of_f64 v
  | ArgDouble v, VDouble m => m = v
  | ArgBool b, VBoolean b' => b' = b
  | ArgNull, VObject id => id = 0
  | _, _ => False
  end.
(** The literals converted to any type: [int], [char], [float], [double], [boolean] and [null]. A [long] is
    left as it is, so it is one of them for a [long] alone; a string is made in the debuggee, and anything
    else is not a literal. *)
Definition converted (lit : ArgLit) (sig : Z) : bool :=
  match lit with ArgLong _ => sig =? ch "J" | ArgStr _ | ArgExpr _ => false | _ => true end.

Lemma f32_of_f64_range v : in_u 32 (f32_of_f64 v).
Proof.
  unfold f32_of_f64, in_u. pose proof (f64_to_f32_range (f64_magnitude v) ltac:(apply Z.mod_pos_bound; lia)). unfold with_sign, F32_INF in *.
  destruct (f64_sign v); lia.
Qed.
Lemma f32_of_int_range n : in_u 32 (f32_of_int n).
Proof.
  unfold f32_of_int, in_u, f32_of. pose proof (round_to_range 23 (-149) F32_INF (Z.abs n) 1). unfold with_sign, F32_INF in *. destruct (n <? 0); lia.
Qed.
Lemma f64_of_int_range n : in_u 64 (f64_of_int n).
Proof.
  unfold f64_of_int, in_u, f64_of. pose proof (round_to_range 52 (-1074) F64_INF (Z.abs n) 1). unfold with_sign, F64_INF in *. destruct (n <? 0); lia.
Qed.
Lemma f64_of_f32_range v : in_u 64 (f64_of_f32 v).
Proof.
  unfold f64_of_f32, in_u. pose proof (Z.mod_pos_bound v (2 ^ 31) ltac:(lia)). set (m := v mod 2 ^ 31) in *.
  pose proof (Z.mod_pos_bound m (2 ^ 23) ltac:(lia)). pose proof (Z.div_pos m (2 ^ 23) ltac:(lia) ltac:(lia)). set (g := m mod 2 ^ 23) in *.
  assert (forall x, 0 <= x < 2 ^ 63 -> 0 <= with_sign 64 (2 ^ 31 <=? v) x < 2 ^ 64) as K by (intros x Hx; unfold with_sign; destruct (_ <=? v); lia).
  assert (forall n d, 0 <= n -> 0 < d -> 0 <= f64_of n d < 2 ^ 63) as R.
  { intros n d Hn Hd. pose proof (round_to_range 52 (-1074) F64_INF n d). unfold f64_of, F64_INF in *. lia. }
  apply K. destruct (_ =? 255).
  - destruct (g =? 0); [unfold F64_INF; lia|]. assert (0 <= Z.lor (2 ^ 51) (g * 2 ^ 29) < 2 ^ 52); [|unfold F64_INF; lia].
    split; [apply Z.lor_nonneg; lia|]. apply Z.log2_lt_pow2; [|rewrite Z.log2_lor by lia].
    + assert (0 <= Z.lor (2 ^ 51) (g * 2 ^ 29)) by (apply Z.lor_nonneg; lia). enough (Z.lor (2 ^ 51) (g * 2 ^ 29) <> 0) by lia.
      intros E%Z.lor_eq_0_iff. lia.
    + rewrite Z.log2_pow2 by lia. apply Z.max_lub_lt; [lia|]. destruct (Z.eq_dec g 0) as [->|]; [by vm_compute|]. apply Z.log2_lt_pow2; lia.
  - destruct (_ =? 0); [apply R; [lia|by apply Z.pow_pos_nonneg]|]. destruct (Z.leb_spec 150 (m / 2 ^ 23)).
    + apply R; [|lia]. apply Z.mul_nonneg_nonneg; [lia|]. by apply Z.pow_nonneg.
    + apply R; [lia|]. apply Z.pow_pos_nonneg; lia.
Qed.

Lemma narrowed_s w n : 0 < w -> narrowed (in_s w) w n (wrap_s w n).
Proof.
  intros Hw. split; [by apply wrap_s_range|]. rewrite Zminus_mod, wrap_s_mod, Z.sub_diag, Z.mod_0_l by (try apply Z.pow_nonzero; lia). done.
Qed.
Lemma narrowed_u w n : 0 <= w -> narrowed (in_u w) w n (wrap_u w n).
Proof.
  intros Hw. split; [by apply wrap_u_range|]. unfold wrap_u. rewrite Zminus_mod, Zmod_mod, Z.sub_diag, Z.mod_0_l by (apply Z.pow_nonzero; lia). done.
Qed.
Lemma narrowed_id (P : Z -> Prop) w n : P n -> narrowed P w n n.
Proof. intros Hp. split; [done|]. by rewrite Z.sub_diag. Qed.
Create HintDb writes.
#[local] Hint Resolve wrap_s_range wrap_u_range narrowed_s narrowed_u narrowed_id f32_of_f64_range f32_of_int_range f64_of_int_range f64_of_f32_range : writes.

#[local] Hint Extern 1 (_ < _) => lia : writes.
#[local] Hint Extern 1 (_ <= _) => lia : writes.

(** Evaluate the tests on a known type. *)
#[local] Ltac type_known :=
  repeat match goal with
  | H : context [?a =? ?b] |- _ => let r := eval vm_compute in (a =? b) in lazymatch r with true => idtac | false => idtac end; change (a =? b) with r in H
  | H : context [bool_decide (?a ∈ integral_types)] |- _ =>
    let r := eval vm_compute in (bool_decide (a ∈ integral_types)) in change (bool_decide (a ∈ integral_types)) with r in H
  end; cbn iota in *.

(** What a converted literal is for a type, where its tag fits. *)
Lemma converted_fits `{BC : BytesCrate} `{FT : FloatText} lit sig v : sig ∈ java_types -> lit_in_range lit ->
  match lit with
  | ArgInt n => v = int_literal_to_value n sig
  | ArgChar c => v = char_literal_to_value c sig
  | ArgFloat x => float_literal_to_value (f64_of_f32 x) true sig = Ok v
  | ArgDouble x => float_literal_to_value x false sig = Ok v
  | ArgBool b => v = value_bool b
  | ArgNull => v = value_null
  | ArgLong n => v = value_long n /\ sig = ch "J"
  | _ => False
  end -> tag_compatible sig (val_tag v) = true ->
  value_data_ok (val_data v) /\ tag_fits sig (val_data v) = true /\ assigned lit (val_data v).
Proof.
  intros Hs Hr Hv Ht. destruct lit; try done; try lazymatch type of Hv with _ /\ _ => destruct Hv as [-> ->]; by split_and! end; each_member Hs;
    unfold int_literal_to_value, char_literal_to_value, float_literal_to_value, tag_compatible in *; type_known; try (injection Hv as <-); try subst v; try done;
    (try by vm_compute in Ht); cbn [val_data value_long value_int value_bool value_byte value_short value_char value_float value_double assigned value_data_ok lit_in_range] in *;
    split_and!; auto with writes; try done.
  all: unfold in_s, in_u in *; lia.
Qed.

(** C12. A literal that is written fits what it is written to. Whatever the declared type, an [int], [char],
    [float], [double], [boolean] or [null] literal, and a [long] literal for a [long], is converted without
    asking the debuggee; where its tag passes the check, a reader of the declared type reads from the bytes
    written exactly the value, using all of them and no more; an integer or a character becomes the number
    of that type congruent to it, as Java's cast makes it; and a decimal is refused by every integral type
    rather than truncated. Not so a [long] literal for another type ([long_literal_overruns], below); a string
    literal is created in the debuggee, and an expression is no literal: neither is claimed here. *)
Theorem written_literals_fit `{BC : BytesCrate} `{D : Debuggee} `{FT : FloatText} (s : chars) (sig : Z) (lit : ArgLit) :
  Forall (fun c => 0 <= c < 1114112) s -> sig ∈ java_types -> literal s = Ok lit -> converted lit sig = true ->
  exists r, (forall w, literal_to_value s sig w = (r, w)) /\
  (forall v, r = Ok v -> tag_compatible sig (val_tag v) = true ->
     Reads (read_value_by_tag sig) (write_untagged_value v) (val_data v) /\ assigned lit (val_data v)) /\
  ((exists x, lit = ArgFloat x \/ lit = ArgDouble x) -> sig ∈ integral_types -> is_ok r = false).
Proof.
  intros Hs Hsig Hl Hc. pose proof (literal_range s lit Hs Hl) as Hr.
  assert (forall v, tag_compatible sig (val_tag v) = true -> value_data_ok (val_data v) /\ tag_fits sig (val_data v) = true /\ assigned lit (val_data v) ->
    Reads (read_value_by_tag sig) (write_untagged_value v) (val_data v) /\ assigned lit (val_data v)) as K.
  { intros [t d] Ht (Hd & Hf & Ha). split; [|done]. exact (value_reads sig d Hd Hf). }
  assert (forall x f, sig ∈ integral_types -> is_ok (float_literal_to_value x f sig) = false) as Hi.
  { intros x f Hin. unfold float_literal_to_value. unfold integral_types in *. each_member Hin; done. }
  unfold literal_to_value. rewrite Hl. destruct lit; try done; try apply Z.eqb_eq in Hc; eexists; (split; [intros w; reflexivity|]);
    (split; [intros v Hv Ht; apply K; [done|]; eapply converted_fits; try done; cbn; try split; congruence|]); intros [x [?|?]] Hin; simplify_eq; by apply Hi.
Qed.

(** "3" stored in a [short] is three; 40000 is -25536. *)
Lemma written_literals_fit_witness :
  exists r, (forall w, literal_to_value (BC := network_order) (D := silent_debuggee) (FT := no_floats) (chars_of "40000") (ch "S") w = (r, w)) /\
  (forall v, r = Ok v -> tag_compatible (ch "S") (val_tag v) = true ->
     Reads (read_value_by_tag (BC := network_order) (ch "S")) (write_untagged_value (BC := network_order) v) (val_data v) /\ assigned (ArgInt 40000) (val_data v)) /\
  ((exists x, ArgInt 40000 = ArgFloat x \/ ArgInt 40000 = ArgDouble x) -> ch "S" ∈ integral_types -> is_ok r = false).
Proof.
  apply (written_literals_fit (BC := network_order) (D := silent_debuggee) (FT := no_floats) (chars_of "40000") (ch "S") (ArgInt 40000));
    [by_compute|by_compute|by vm_compute|done].
Defined.

(** A [long] literal passes the check of every numeric type and is written in eight bytes: a reader of an
    [int] takes the high four of them, so 5L is stored as 0, and leaves four bytes behind. *)
Lemma long_literal_overruns :
  let field := fitting_value (BC := network_order) (D := silent_debuggee) (FT := no_floats) (PF := no_platform) None 0 (chars_of "5L") "n" "I" "" in
  fst (field world_init) = Ok (value_long 5) /\
  read_value_by_tag (BC := network_order) (ch "I") (write_untagged_value (BC := network_order) (value_long 5)) = (Ok (VInt 0), [0; 0; 0; 5]).
Proof. by vm_compute. Qed.

(** A string literal passes the check of every reference type. *)
Definition one_new_string (set command : Z) (body : bytes) : JdwpResult (Z * bytes) :=
  match set, command with 1, 11 => Ok (0, be_bytes 8 77) | _, _ => Ok (99, []) end.
Lemma string_fits_any_type :
  fst (fitting_value (BC := network_order) (D := answering one_new_string) (FT := no_floats) (PF := no_platform) None 0
    (chars_of "'a'") "n" "Ljava/lang/Integer;" "" world_init) = Err (type_mismatch_err (FT := no_floats) "n" "Ljava/lang/Integer;" (value_char 97)) /\
  fst (fitting_value (BC := network_order) (D := answering one_new_string) (FT := no_floats) (PF := no_platform) None 0
    (QUOTE :: chars_of "a" ++ [QUOTE]) "n" "Ljava/lang/Integer;" "" world_init) = Ok (value_object 77).
Proof. by vm_compute. Qed.

(** ** At most one write *)


(** What stands for a claim that is not a store: something that happened from a world on, in these events. *)
Abbreviation Deed := (World -> list WireEvent -> Prop).
(** A deed is one of every run that ends with it. *)
Class Lasting (deed : Deed) : Prop :=
  lasting : forall w w1 before new, w_log w1 = w_log w ++ before -> deed w1 new -> deed w (before ++ new).


Section Word.
Context `{BC : BytesCrate} `{D : Debuggee} `{FT : FloatText} `{PF : Platform}.
Abbreviation U := (Respects (looks true)).



Section Deeds.
Context (deed : Deed) {HL : Lasting deed}.


End Deeds.

#[local] Instance Looks_write_literal s sig : U (literal_to_value s sig).
Proof. unfold literal_to_value. reads. Qed.
#[local] Instance Looks_fits sig rt : U (reference_fits sig rt).
Proof. unfold reference_fits. reads. Qed.
#[local] Instance Looks_validate sig v : U (validate_ref_assignable sig v).
Proof. unfold validate_ref_assignable. reads. Qed.
#[local] Instance Looks_to_write th i s sig : U (value_to_write th i s sig).
Proof. unfold value_to_write. reads. Qed.
#[local] Instance Looks_fitting th i s name sig bad : U (fitting_value th i s name sig bad).
Proof. unfold fitting_value. reads. Qed.
#[local] Instance Looks_writer t : U (element_writer t).
Proof. unfold element_writer. reads. Qed.
#[local] Instance Looks_element_key t f b k c : U (element_key t f b k c).
Proof. unfold element_key, arglit_to_value, nested_resolver. cbn [ns_resolve]. reads. Qed.
#[local] Instance Looks_coerce_args t s args : U (coerce_args t s args).
Proof. unfold coerce_args. apply _. Qed.

(** ** The element is put *)

(** The method [m] of [decl] was called on an object, with two arguments, and came back without throwing. *)
Definition called (thread id decl : Z) (m : MethodInfo) : Deed := fun w new => exists key value old before after,
  invoke_method id thread decl (mi_method_id m) [key; value] before = (Ok (old, 0), after) /\
  w_log w `prefix_of` w_log before /\ w_log after `prefix_of` w_log w ++ new.

Lemma prefix_under (w w1 : World) before (k : list WireEvent) : w_log w1 = w_log w ++ before -> w_log w1 `prefix_of` k -> w_log w `prefix_of` k.
Proof. intros -> H. etrans; [|exact H]. by apply prefix_app_r. Qed.
#[local] Instance called_lasting t id decl m : Lasting (called t id decl m).
Proof.
  intros w w1 before new L (key & value & old & wb & wa & E & H1 & H2). exists key, value, old, wb, wa. split; [done|].
  split; [by eapply prefix_under|]. by rewrite L, <- (assoc_L (++)) in H2.
Qed.





End Word.

