(* ===== verification/Evaluate.v ===== *)
(** * Evaluating an expression ([mcp-server/src/handlers.rs])

    [debug.evaluate], and [debug.evaluate_chain], which walks the same links and says where the walk ended:
    at a null, at an association that was not fetched, or at the end. *)

From S2P Require Import Prelude Protocol Types Reader Connection Client EventRequest StopPoint Traces Session Manager Api Generics Text Expr Host EventPump Steering Watchdog Control Locate Paths.
From S2P Require Import Reading TextArrays Structures Rendering ExprText Scans Resolve ReadingFacts StructureFacts ResolveFacts Looking Stacks Writes.

Record EvaluateArgs : Type := {
  ev_expression : chars; ev_thread_id : option string; ev_frame_index : nat; ev_max_result_length : Z; ev_expand_objects : bool;
  ev_max_depth : nat; ev_max_children : Z; ev_force_initialize : bool;
}.
Record EvaluateChainArgs : Type := {
  ec_expression : chars; ec_thread_id : option string; ec_frame_index : nat; ec_max_result_length : Z; ec_force_initialize : bool;
}.

(** Why a walk stopped. *)
Inductive LinkEnd : Type := EndNull | EndUnfetched (shape : LazyShape) | EndCannotTell.
Record ChainStep : Type := { cs_label : string; cs_rendered : string; cs_end : option LinkEnd }.
Record ChainWalk : Type := { cw_steps : list ChainStep; cw_total_links : nat; cw_path : ReadPath }.

Definition is_null (v : Value) : bool := match val_data v with VObject id => id =? 0 | _ => false end.
Definition ended (steps : list ChainStep) : bool := match list.last steps with Some s => is_some (cs_end s) | None => false end.
Definition several_values (label : string) : ChainStep :=
  {| cs_label := label; cs_rendered := "(several values — a slice or filter ends the chain)"; cs_end := None |}.
Definition set_end (e : LinkEnd) (steps : list ChainStep) : list ChainStep :=
  alter (fun s => {| cs_label := cs_label s; cs_rendered := cs_rendered s; cs_end := Some e |}) (length steps - 1)%nat steps.

Definition explain_readonly (e : string) : string :=
  if contains (bytes_of_string "read-only connection") (bytes_of_string e) then
    "🔒 Read-only session: " +s+ e +s+ newline +s+
    "   This expression needs to execute code in the debuggee (a method call, a List/Map subscript, or boxing), which read-only refuses." +s+ newline +s+
    "   Reads that need no invocation still work: locals, fields, statics, array indexing, get_stack, and watchpoint/exception reporting." +s+ newline +s+
    "   Attach without read_only (or unset JDWP_READONLY) if you need to invoke."
  else e.

(** ** The report of a walk *)

Definition chars_count (s : string) : nat := length (str_chars s).
Definition link_mark (e : option LinkEnd) : string :=
  match e with None => "✔" | Some EndNull => "✘" | Some (EndUnfetched _) => "⏳" | Some EndCannotTell => "❓" end.
Definition step_line (width : nat) (s : ChainStep) : string :=
  "  " +s+ link_mark (cs_end s) +s+ " " +s+ cs_label s +s+ repeat_str " " (width - chars_count (cs_label s)) +s+ "  " +s+ cs_rendered s +s+ newline.
Definition link_verdict (at_ total : string) (step : ChainStep) (e : LinkEnd) : string :=
  let link := "link " +s+ at_ +s+ " of " +s+ total in
  match e with
  | EndUnfetched EntityProxy =>
    "⏳ " +s+ link +s+ " is an UNFETCHED Hibernate proxy: " +s+ cs_label step +s+
    " — not null, and not a value. The row it stands for may well exist; nobody has fetched it, and this walk stopped rather than fetch it for you"
  | EndUnfetched LazyCollection =>
    "⏳ " +s+ link +s+ " is an UNFETCHED Hibernate collection: " +s+ cs_label step +s+
    " — the collection exists and its contents have not been fetched, so it is neither empty nor populated as far as this can tell. The next link is what would fetch them"
  | EndCannotTell =>
    "❓ " +s+ link +s+ " is a Hibernate lazy value whose fetch state could not be read: " +s+ cs_label step +s+
    ". This walk stopped rather than guess 'already fetched' and perform the fetch"
  | EndNull => "⛔ null at " +s+ link +s+ ": " +s+ cs_label step
  end.
Definition unreached_note (unreached : nat) : string :=
  if (0 <? unreached)%nat then
    " — the " +s+ pretty (Z.of_nat unreached) +s+ " link(s) after it were never evaluated, so nothing here says whether they would have worked"
  else "".
Definition all_present : string :=
  "✅ no link in this chain is null or unfetched. If you expected one to be, the value you are after is the last line above — an empty collection or a zero counts as present here.".

(** The first step that ended the walk, with its place. *)
Fixpoint first_end (i : Z) (steps : list ChainStep) : option (Z * ChainStep * LinkEnd) :=
  match steps with
  | [] => None
  | s :: steps => match cs_end s with Some e => Some (i, s, e) | None => first_end (i + 1) steps end
  end.
Definition chain_table (expr : chars) (steps : list ChainStep) : string :=
  let width := foldr Nat.max O (map (fun s => chars_count (cs_label s)) steps) in
  "🔗 " +s+ string_of_chars expr +s+ newline +s+ newline +s+ foldr (fun s out => step_line width s +s+ out) "" steps +s+ newline.
Definition chain_verdict (walk : ChainWalk) : string :=
  match first_end 1 (cw_steps walk) with
  | Some (at_, s, e) =>
    link_verdict (pretty at_) (pretty (Z.of_nat (cw_total_links walk))) s e +s+ unreached_note (cw_total_links walk - length (cw_steps walk))
  | None => all_present
  end.
Definition render_expression_chain (expr : chars) (walk : ChainWalk) : string :=
  chain_table expr (cw_steps walk) +s+ chain_verdict walk +s+ render_path (cw_path walk).

Section Evaluate.
Context `{BC : BytesCrate} `{D : Debuggee} `{FT : FloatText} `{PF : Platform}.

Definition chain_step (max_len : Z) (how : ByteRender) (label : string) (v : Value) : St ChainStep :=
  rendered ← render_value v None max_len how;
  mret {| cs_label := label; cs_rendered := rendered; cs_end := if is_null v then Some EndNull else None |}.

Definition lazy_state_of (v : Value) (lazy : LazyPolicy) : St (option LazyState) :=
  match lazy, val_data v with
  | Report, VObject id =>
    if id =? 0 then mret None else
    st_some (st_ok (get_object_reference_type id)) (fun type_id => state ← hibernate_lazy_state id type_id; mret (Some state))
  | _, _ => mret None
  end.
Definition mark_trailing_lazy (steps : list ChainStep) (v : Value) (lazy : LazyPolicy) : St (list ChainStep) :=
  match list.last steps with
  | None => mret steps
  | Some s =>
    if is_some (cs_end s) then mret steps else
    state ← lazy_state_of v lazy;
    mret match state with
         | Some (Unfetched shape) => set_end (EndUnfetched shape) steps
         | Some (UnknownState _) => set_end EndCannotTell steps
         | _ => steps
         end
  end.

(** ** The walk *)

Section Links.
Context (nested : Nested) (step : string -> Value -> St ChainStep).

(** The links after [current]: the steps, and the value the walk is at, unless it ended in several. *)
Fixpoint walk_links (thread_id : option Z) (frame : option Frame) (lazy : LazyPolicy) (current : Value) (steps : list ChainStep) (segs : list Seg) :
    Noted (list ChainStep * option Value) :=
  match segs with
  | [] => mret (steps, Some current)
  | seg :: segs =>
    if ended steps then mret (steps, Some current) else
    member ← unnoted (resolve_member nested thread_id frame current seg lazy);
    r ← apply_subscripts nested thread_id frame member (seg_subs seg) (seg_text seg);
    match r with
    | One v => s ← quiet (step (seg_label seg) v); walk_links thread_id frame lazy v (steps ++ [s]) segs
    | Many _ _ _ => mret (steps ++ [several_values (seg_label seg)], None)
    end
  end.

Definition head_label (start : nat) (segs : list Seg) : string :=
  if (start <=? length segs)%nat then join "." (map seg_label (take start segs)) else "".

(** The steps, where the walk is at, and the links written. *)
Definition walk_from (thread_id : option Z) (frame : option Frame) (segs : list Seg) (head_seg : Seg) (lazy : LazyPolicy) :
    Noted (list ChainStep * option Value * nat) :=
  '(current, start) ← resolve_any_head nested thread_id frame segs head_seg;
  let total_links := (length segs + 1 - start)%nat in
  let label := head_label start segs in
  match segs !! (start - 1)%nat with
  | None => refuse "Internal error: head resolution consumed no segments"
  | Some head_owner =>
    r ← apply_subscripts nested thread_id frame current (seg_subs head_owner) (seg_text head_owner);
    match r with
    | One v => s ← quiet (step label v); walk ← walk_links thread_id frame lazy v [s] (drop start segs); mret (walk, total_links)
    | Many _ _ _ => mret ([several_values label], None, total_links)
    end
  end.
End Links.

Definition walk_noted (thread_id : option Z) (frame : option Frame) (expr : chars) (max_len : Z) (how : ByteRender) (lazy : LazyPolicy) :
    Noted (list ChainStep * nat) :=
  segs ← unnoted (mret (explained (parse_expr expr)));
  match segs with
  | [] => refuse "Empty expression"
  | head_seg :: _ =>
    '(steps, current, total_links) ← walk_from nested_resolver (chain_step max_len how) thread_id frame segs head_seg lazy;
    match current with
    | None => mret (steps, total_links)
    | Some v => steps ← quiet (mark_trailing_lazy steps v lazy); mret (steps, total_links)
    end
  end.
Definition walk_expression_chain (thread_id : option Z) (frame : option Frame) (expr : chars) (max_len : Z) (how : ByteRender) (lazy : LazyPolicy) :
    St (result string ChainWalk) := fun w =>
  match walk_noted thread_id frame expr max_len how lazy [] w with
  | (Ok (steps, total_links), path, w) => (Ok {| cw_steps := steps; cw_total_links := total_links; cw_path := path |}, w)
  | (Err e, _, w) => (Err e, w)
  end.

(** ** The tools *)

Definition chosen_frame (thread_id : option Z) (frame_index : nat) : St (option Frame) :=
  match thread_id with
  | None => mret None
  | Some tid => frames ← st_ok (get_frames tid 0 (-1)); mret (frames ≫= fun fs => frame_or_top fs frame_index)
  end.

(** The values of a slice or filter from the [i]th on, each with its key if it has one. *)
Fixpoint rendered_values (i : nat) (values : list Value) (keys : list string) (thread_id : option Z) (max_len : Z) (deep : option DeepOpts) (bytes_ : ByteRender) :
    St string :=
  match values with
  | [] => mret ""%string
  | v :: values =>
    r ← render_one v thread_id max_len deep bytes_;
    rest ← rendered_values (S i) values keys thread_id max_len deep bytes_;
    mret (newline +s+ "  " +s+ match keys !! i with Some k => k +s+ " → " | None => "[" +s+ pretty (Z.of_nat i) +s+ "] = " end +s+ r +s+ rest)
  end.
Definition render_resolved (resolved : Resolved) (thread_id : option Z) (max_len max_children : Z) (deep : option DeepOpts) (bytes_ : ByteRender) : St string :=
  match resolved with
  | One value => render_one value thread_id max_len deep bytes_
  | Many header values keys =>
    let shown := Z.min (zlen values) (Z.max max_children 1) in
    body ← rendered_values 0 (take (Z.to_nat shown) values) keys thread_id max_len deep bytes_;
    mret (header +s+ " {" +s+ body +s+
          (if shown <? zlen values then newline +s+ "  … +" +s+ pretty (zlen values - shown) +s+ " more (raise max_children)" else "") +s+ newline +s+ "}")
  end.

(** What [evaluate] answers, on the connection. *)
Definition evaluate_in (a : EvaluateArgs) (read_only : bool) (expression : chars) (bytes_ : ByteRender) (thread_id : option Z) (lazy : LazyPolicy)
    (frame : option Frame) : St (result string string) := fun w =>
  match resolve_expression_multi thread_id frame expression lazy [] w with
  | (Err e, _, w) => (Err (explain_readonly e), w)
  | (Ok resolved, path, w) =>
    let deep := if ev_expand_objects a && negb read_only then
                  Some {| do_depth_limit := ev_max_depth a; do_child_limit := Z.max (ev_max_children a) 1; do_text_len := ev_max_result_length a; do_bytes := bytes_ |}
                else None in
    let '(rendered, w) := render_resolved resolved thread_id (ev_max_result_length a) (ev_max_children a) deep bytes_ w in
    (Ok ((if ev_expand_objects a && read_only then "🔒 read-only: shallow rendering (expand_objects invokes methods)" +s+ newline else "") +s+
         string_of_chars (trim expression) +s+ " = " +s+ rendered +s+ render_path path), w)
  end.
Definition evaluate_on (a : EvaluateArgs) (read_only : bool) (expression : chars) (bytes_ : ByteRender) (thread_id : option Z) (lazy : LazyPolicy) :
    St (result string string) :=
  frame ← chosen_frame thread_id (ev_frame_index a);
  evaluate_in a read_only expression bytes_ thread_id lazy frame.

(** [lazy_policy] is asked after the frame was read; it does not look at it. *)
Definition handle_evaluate (a : EvaluateArgs) : H (result string string) :=
  match split_charset (ev_expression a) with
  | Err e => mret (Err e)
  | Ok (expression, bytes_) =>
    s ← session;
    let thread_id := union (parse_thread_id (ev_thread_id a)) (ds_last_thread s) in
    match lazy_policy (ev_force_initialize a) (ds_read_only s) with
    | Err e => _ ← conn (chosen_frame thread_id (ev_frame_index a)); mret (Err e)
    | Ok lazy => conn (evaluate_on a (ds_read_only s) expression bytes_ thread_id lazy)
    end
  end.

Definition handle_evaluate_chain (a : EvaluateChainArgs) : H (result string string) :=
  match split_charset (trim (ec_expression a)) with
  | Err e => mret (Err e)
  | Ok (expression, bytes_) =>
    s ← session;
    let thread_id := union (parse_thread_id (ec_thread_id a)) (ds_last_thread s) in
    frame ← conn (chosen_frame thread_id (ec_frame_index a));
    match lazy_policy (ec_force_initialize a) (ds_read_only s) with
    | Err e => mret (Err e)
    | Ok lazy =>
      r ← conn (walk_expression_chain thread_id frame expression (ec_max_result_length a) bytes_ lazy);
      mret (match r with Ok walk => Ok (render_expression_chain expression walk) | Err e => Err (explain_readonly e) end)
    end
  end.
End Evaluate.

(** * How far a walk goes *)

Lemma noted_ok {A B} (m : Noted A) (k : A -> Noted B) path w b path' w' : (m ≫= k) path w = (Ok b, path', w') ->
  exists a path1 w1, m path w = (Ok a, path1, w1) /\ k a path1 w1 = (Ok b, path', w').
Proof. unfold mbind, noted_bind. destruct (m path w) as [[[a|e] p] w1]; [|done]. intros H. by exists a, p, w1. Qed.
Lemma quiet_ok {A} (m : St A) path w a path' w' : quiet m path w = (Ok a, path', w') -> m w = (a, w') /\ path' = path.
Proof. unfold quiet. destruct (m w). by intros [= -> -> ->]. Qed.

(** Steps over the first of [labels], none but the last an end. *)
Definition along (labels : list string) (steps : list ChainStep) : Prop :=
  map cs_label steps `prefix_of` labels /\ steps <> [] /\ forall i s, steps !! i = Some s -> is_some (cs_end s) -> S i = length steps.
(** Where steps stop short of the labels, the last says why. *)
Definition cut_short (labels : list string) (steps : list ChainStep) : Prop := (length steps < length labels)%nat ->
  exists s, list.last steps = Some s /\ (is_some (cs_end s) \/ s = several_values (cs_label s)).

Lemma ended_last steps s : list.last steps = Some s -> ended steps = is_some (cs_end s).
Proof. unfold ended. by intros ->. Qed.
Lemma along_snoc done s rest : along (map cs_label done ++ cs_label s :: rest) done \/ done = [] -> ended done = false ->
  along (map cs_label done ++ cs_label s :: rest) (done ++ [s]).
Proof.
  intros H E. split_and!; [rewrite map_app; exists rest; by rewrite <- app_assoc|by destruct done|].
  intros i t Ht Hend. rewrite length_app, Nat.add_1_r. apply lookup_app_Some in Ht as [Ht|[Hi Ht]].
  - destruct H as [(_ & _ & H)| ->]; [|done]. pose proof (H _ _ Ht Hend) as Hi.
    assert (list.last done = Some t) as Hl by (rewrite list.last_lookup, <- Hi; done). rewrite (ended_last _ _ Hl) in E. by rewrite E in Hend.
  - apply list_lookup_singleton_Some in Ht as [? _]. lia.
Qed.

Section Walks.
Context `{BC : BytesCrate} `{D : Debuggee} `{FT : FloatText} `{PF : Platform}.
Context (nested : Nested) (step : string -> Value -> St ChainStep).
Context (Hstep : forall label v w, cs_label (fst (step label v w)) = label).

Lemma walk_links_along th fr lazy segs : forall current steps path w steps' current' path' w',
  walk_links nested step th fr lazy current steps segs path w = (Ok (steps', current'), path', w') ->
  let labels := map cs_label steps ++ map seg_label segs in
  along labels steps -> along labels steps' /\ cut_short labels steps'.
Proof.
  induction segs as [|seg segs IH]; intros current steps path w steps' current' path' w' H labels A; cbn [walk_links] in H.
  { injection H as <- _ _ _. split; [done|]. unfold cut_short, labels. cbn. rewrite app_nil_r, length_map. lia. }
  destruct (ended steps) eqn:E.
  { injection H as <- _ _ _. split; [done|]. intros _. unfold ended in E. destruct (list.last steps) as [s|] eqn:L; [|done].
    exists s. split; [done|left; by rewrite E]. }
  apply noted_ok in H as (member & p1 & w1 & _ & H). apply noted_ok in H as (r & p2 & w2 & _ & H).
  assert (forall s, cs_label s = seg_label seg -> along labels (steps ++ [s])) as Next.
  { intros s Hs. unfold labels in *. cbn [map] in *. rewrite <- Hs in *. apply along_snoc; [by left|done]. }
  destruct r as [v|].
  - apply noted_ok in H as (s & p3 & w3 & Hs & H). apply quiet_ok in Hs as [Hs _].
    pose proof (Hstep (seg_label seg) v w2) as Hl. rewrite Hs in Hl. cbn in Hl. apply IH in H; unfold labels in *; cbn [map] in *;
      rewrite map_app in *; cbn [map] in *; rewrite <- app_assoc, Hl in *; [done|]. by apply Next.
  - injection H as <- _ _ _. split; [by apply Next|]. intros _. exists (several_values (seg_label seg)).
    split; [by rewrite last_snoc|by right].
Qed.

Lemma walk_from_along th fr segs head_seg lazy path w steps current total path' w' :
  walk_from nested step th fr segs head_seg lazy path w = (Ok (steps, current, total), path', w') ->
  exists start, (start <= length segs)%nat /\ total = (length segs + 1 - start)%nat /\
  let labels := head_label start segs :: map seg_label (drop start segs) in along labels steps /\ cut_short labels steps.
Proof.
  unfold walk_from. intros H. apply noted_ok in H as ([v start] & p1 & w1 & _ & H). cbv zeta in H.
  destruct (segs !! (start - 1)%nat) as [owner|] eqn:Eo; [|done]. apply lookup_lt_Some in Eo. exists start. split; [lia|].
  apply noted_ok in H as (r & p2 & w2 & _ & H). destruct r as [x|].
  - apply noted_ok in H as (s & p3 & w3 & Hs & H). apply quiet_ok in Hs as [Hs _]. pose proof (Hstep (head_label start segs) x w2) as Hl.
    rewrite Hs in Hl. cbn in Hl. apply noted_ok in H as ([steps1 current1] & p4 & w4 & H & E). injection E as <- _ <- _ _. split; [done|].
    pose proof (walk_links_along _ _ _ _ _ _ _ _ _ _ _ _ H) as K. cbv zeta in K |- *. cbn [map app] in K. rewrite Hl in K. apply K.
    rewrite <- Hl. apply (along_snoc [] s); [by right|done].
  - injection H as <- _ <- _ _. split; [done|]. split; [apply (along_snoc [] (several_values _)); [by right|done]|].
    intros _. eexists. split; [done|by right].
Qed.
End Walks.

Lemma set_end_snoc e init s : set_end e (init ++ [s]) = init ++ [{| cs_label := cs_label s; cs_rendered := cs_rendered s; cs_end := Some e |}].
Proof.
  unfold set_end. rewrite length_app, Nat.add_sub, <- (Nat.add_0_r (length init)). by rewrite list.alter_app_r.
Qed.
Lemma set_end_along labels e steps : along labels steps -> along labels (set_end e steps) /\ cut_short labels (set_end e steps).
Proof.
  intros (P & N & E). destruct steps as [|s init] using rev_ind; [done|]. rewrite set_end_snoc. rewrite map_app in P.
  split; [split_and!|].
  - by rewrite map_app.
  - by destruct init.
  - intros i t Ht Hend. rewrite length_app in *. apply lookup_app_Some in Ht as [Ht|[Hi Ht]].
    + apply (E i t); [by apply lookup_app_l_Some|done].
    + apply list_lookup_singleton_Some in Ht as [? _]. cbn. lia.
  - intros _. eexists. split; [by rewrite list.last_snoc|by left].
Qed.
Lemma trailing_along `{BC : BytesCrate} `{D : Debuggee} `{FT : FloatText} labels steps v lazy w : along labels steps -> cut_short labels steps ->
  let steps' := fst (mark_trailing_lazy steps v lazy w) in along labels steps' /\ cut_short labels steps'.
Proof.
  intros A C. unfold mark_trailing_lazy. destruct (list.last steps) as [s|]; [|done]. destruct (is_some (cs_end s)); [done|].
  unfold mbind, st_bind. destruct (lazy_state_of v lazy w) as [[[| |]|] w1]; cbn; try done; by apply set_end_along.
Qed.

Lemma along_split labels steps : along labels steps -> exists init s, steps = init ++ [s] /\ Forall (fun s => cs_end s = None) init.
Proof.
  intros (_ & N & E). destruct steps as [|s init _] using rev_ind; [done|]. exists init, s. split; [done|].
  apply list.Forall_lookup. intros i t Ht. destruct (cs_end t) as [e|] eqn:Et; [|done]. exfalso.
  pose proof (E i t (lookup_app_l_Some _ _ _ _ Ht)) as K. rewrite Et, length_app in K. apply lookup_lt_Some in Ht. specialize (K I). cbn in K. lia.
Qed.
Lemma first_end_snoc init s : Forall (fun s => cs_end s = None) init -> forall i,
  first_end i (init ++ [s]) = (fun e => (i + zlen init, s, e)) <$> cs_end s.
Proof.
  induction 1 as [|t init Ht _ IH]; intros i; cbn [app first_end].
  - destruct (cs_end s); [|done]. cbn. do 2 f_equal. unfold zlen. cbn. f_equal. lia.
  - rewrite Ht, IH. destruct (cs_end s); [|done]. cbn. do 2 f_equal. unfold zlen. cbn [length]. f_equal. lia.
Qed.

Section Walking.
Context `{BC : BytesCrate} `{D : Debuggee} `{FT : FloatText} `{PF : Platform}.

Lemma chain_step_label max_len how label v w : cs_label (fst (chain_step max_len how label v w)) = label.
Proof. unfold chain_step, mbind, st_bind. by destruct (render_value _ _ _ _ w). Qed.
Lemma walk_along th fr expr max_len how lazy w walk w' : walk_expression_chain th fr expr max_len how lazy w = (Ok walk, w') ->
  exists segs start, parse_expr expr = Ok segs /\ (start <= length segs)%nat /\ cw_total_links walk = (length segs + 1 - start)%nat /\
  let labels := head_label start segs :: map seg_label (drop start segs) in along labels (cw_steps walk) /\ cut_short labels (cw_steps walk).
Proof.
  unfold walk_expression_chain. destruct (walk_noted th fr expr max_len how lazy [] w) as [[[[steps total]|e] path] w1] eqn:W; [|done].
  intros [= <- _]. cbn [cw_steps cw_total_links]. apply noted_ok in W as (segs & p1 & w2 & Hs & W). exists segs.
  assert (parse_expr expr = Ok segs) as -> by (revert Hs; unfold unnoted, mret, st_ret; cbn; destruct (parse_expr expr); by intros [= -> _ _]).
  destruct segs as [|head_seg segs]; [done|]. apply noted_ok in W as ([[steps1 current] total1] & p3 & w3 & Hw & W).
  apply walk_from_along in Hw as (start & Hle & Ht & A & C); [|apply chain_step_label]. exists start. split; [done|]. split; [done|].
  destruct current as [v|]; [|injection W as <- <- _ _; by split_and!].
  apply noted_ok in W as (steps2 & p4 & w4 & Hm & W). apply quiet_ok in Hm as [Hm _]. injection W as -> <- _ _.
  split; [done|]. pose proof (trailing_along _ _ v lazy w3 A C) as K. by rewrite Hm in K.
Qed.

(** C14. A walked chain is reported as it was walked. Whatever the debuggee answers: the steps of a walk
    are the first links of the expression in the order they are written, each once, and only the last may
    be an end. An end is named with its place among all the links written, and the links said not to be
    evaluated are exactly those after it; without one the walk reached the last link, or ended at the first
    slice or filter. *)
Theorem walk_reported th fr expr max_len how lazy w walk w' : walk_expression_chain th fr expr max_len how lazy w = (Ok walk, w') ->
  exists segs start init s, parse_expr expr = Ok segs /\ (start <= length segs)%nat /\
  let links := head_label start segs :: map seg_label (drop start segs) in
  let at_ := S (length init) in
  cw_total_links walk = length links /\ (at_ <= length links)%nat /\
  cw_steps walk = init ++ [s] /\ map cs_label (cw_steps walk) = take at_ links /\ Forall (fun s => cs_end s = None) init /\
  match cs_end s with
  | Some e => chain_verdict walk = link_verdict (pretty (Z.of_nat at_)) (pretty (zlen links)) s e +s+ unreached_note (length (drop at_ links))
  | None => chain_verdict walk = all_present /\ (at_ = length links \/ s = several_values (cs_label s))
  end.
Proof.
  intros H. apply walk_along in H as (segs & start & Hp & Hle & Ht & A & C). destruct (along_split _ _ A) as (init & s & Es & Hi).
  exists segs, start, init, s. split; [done|]. split; [done|]. cbv zeta.
  set (links := head_label start segs :: map seg_label (drop start segs)) in *.
  assert (cw_total_links walk = length links) as Hn by (unfold links; cbn; rewrite length_map, length_drop; lia).
  assert (length (cw_steps walk) = S (length init)) as Hk by (rewrite Es, length_app; cbn; lia).
  destruct A as ([rest Hr] & _ & _). assert (length links = (length (cw_steps walk) + length rest)%nat) as Hl by (by rewrite Hr, length_app, length_map).
  split; [done|]. split; [lia|]. split; [done|]. split; [|split; [done|]].
  { rewrite Hr, take_app_le, take_ge; rewrite ?length_map; [done|lia|lia]. }
  unfold chain_verdict. rewrite Es, (first_end_snoc _ _ Hi), <- Es, Hn, Hk, length_drop. destruct (cs_end s) as [e|] eqn:Ee; cbn [fmap option_fmap option_map].
  - repeat f_equal; unfold zlen; lia.
  - split; [done|]. destruct (decide (S (length init) = length links)) as [|Hne]; [by left|right].
    destruct C as (t & L & [Et|Et]); [lia| |]; rewrite Es, list.last_snoc in L; injection L as <-; [by rewrite Ee in Et|done].
Qed.
End Walking.

(** A list of nodes: 1 is followed by 2, and 2 by null. *)
Definition nodes_answers (set command : Z) (body : bytes) : JdwpResult (Z * bytes) :=
  let int32 := be_bytes 4 in
  let text := write_jdwp_string (BC := network_order) in
  let value := write_tagged_value (BC := network_order) in
  match set, command with
  | 9, 1 => Ok (0, 1 :: be_bytes 8 7)
  | 9, 2 => Ok (0, int32 1 ++ value (value_object (if be_val (take 8 body) =? 1 then 2 else 0)))
  | 9, 9 => Ok (0, [0])
  | 2, 1 => Ok (0, text "LNode;"%string)
  | 2, 14 => Ok (0, int32 1 ++ be_bytes 8 1 ++ text "next"%string ++ text "LNode;"%string ++ text ""%string ++ int32 0)
  | 3, 1 => Ok (0, be_bytes 8 0)
  | _, _ => Ok (99, [])
  end.
Definition walk_of (answers : Z -> Z -> bytes -> JdwpResult (Z * bytes)) (e : string) : result string ChainWalk * World :=
  walk_expression_chain (BC := network_order) (D := answering answers) (FT := no_floats) (PF := no_platform) None None (chars_of e) 100 Raw Report world_init.

Lemma walk_reported_witness : exists walk w', walk_of nodes_answers "@0x1.next.next.next.next" = (Ok walk, w') /\
  chain_verdict walk = "⛔ null at link 3 of 5: next — the 2 link(s) after it were never evaluated, so nothing here says whether they would have worked"%string /\
  cw_total_links walk = 5%nat /\ exists init s, cw_steps walk = init ++ [s] /\ length init = 2%nat /\ map cs_label (cw_steps walk) = ["@0x1"; "next"; "next"]%string.
Proof.
  destruct (walk_of nodes_answers "@0x1.next.next.next.next") as [r w'] eqn:E. assert (fst (walk_of nodes_answers "@0x1.next.next.next.next") = r) as R by by rewrite E.
  vm_compute in R. destruct r as [walk|]; [|done]. exists walk, w'. split; [done|]. injection R as R. split; [by rewrite <- R; vm_compute|].
  split; [by rewrite <- R|]. destruct (walk_reported _ _ _ _ _ _ _ _ _ E) as (segs & start & init & s & _ & _ & _ & _ & Es & _). exists init, s. split; [done|].
  split; [|by rewrite <- R]. apply (f_equal length) in Es. rewrite <- R, length_app in Es. cbn in Es. lia.
Defined.

(** A slice ends a walk without being an end: the link behind it is not evaluated, the verdict says that no
    link is null, and [debug.evaluate] refuses the expression. *)
Lemma slice_hides_links :
  let e := "@0x3[0..2].i"%string in
  (exists walk w', walk_of pairs_answers e = (Ok walk, w') /\ cw_total_links walk = 2%nat /\ length (cw_steps walk) = 1%nat /\ chain_verdict walk = all_present) /\
  fst (fst (resolve_expression_multi (BC := network_order) (D := answering pairs_answers) (FT := no_floats) (PF := no_platform) None None
    (chars_of e) Report [] world_init)) = Err (multi_then_chain_error "@0x3").
Proof. split; [|by vm_compute]. eexists _, _. split; [by vm_compute|]. by vm_compute. Qed.

(** ** What an evaluation does *)

Section Looks.
Context `{BC : BytesCrate} `{D : Debuggee} `{FT : FloatText} `{PF : Platform}.
#[local] Notation U := (Respects (looks true)).

#[local] Instance Looks_chosen_frame th i : U (chosen_frame th i).
Proof. unfold chosen_frame. destruct th; apply _. Qed.
#[local] Instance Looks_rendered_values th n d b i values keys : U (rendered_values i values keys th n d b).
Proof. revert i. induction values as [|v values IH]; intros i; cbn [rendered_values]; apply _. Qed.
#[local] Instance Looks_resolved r th n m d b : U (render_resolved r th n m d b).
Proof. destruct r; cbn [render_resolved]; apply _. Qed.
#[local] Instance Looks_evaluate_in a ro e b th lazy frame : U (evaluate_in a ro e b th lazy frame).
Proof.
  intros w. unfold evaluate_in. pose proof (Looks_expression_multi true th frame e lazy [] w) as H.
  destruct (resolve_expression_multi _ _ _ _ _ w) as [[[r|x] p] w1]; [|exact H]. cbv zeta.
  match goal with |- context [render_resolved r th ?n ?m ?d b] => pose proof (Looks_resolved r th n m d b w1) as H2; destruct (render_resolved r th n m d b w1) end.
  simpl in *. by transitivity w1.
Qed.
Lemma Looks_resolver th fr e : May true th -> U (ns_resolve nested_resolver th fr e).
Proof. intros _. apply Looks_expression, _. Qed.
Lemma Looks_relatives th v e : May true th -> U (ns_relative nested_resolver th v e).
Proof. intros _. destruct (Looks_level true (length e)) as [H1 H2]. cbn. by apply Looks_relative; [..|apply _]. Qed.
#[local] Instance Looks_a_member th fr v seg lazy : U (resolve_member nested_resolver th fr v seg lazy).
Proof. apply (Looks_member true _ Looks_resolver), _. Qed.
#[local] Instance Looks_some_subscripts th fr v subs label s : U (apply_subscripts nested_resolver th fr v subs label s).
Proof. apply (Looks_subscripts true _ Looks_resolver Looks_relatives), _. Qed.
#[local] Instance Looks_a_head th fr segs seg s : U (resolve_any_head nested_resolver th fr segs seg s).
Proof. apply (Looks_any_head true _ Looks_resolver), _. Qed.
#[local] Instance Looks_chain_step n how label v : U (chain_step n how label v).
Proof. unfold chain_step. apply _. Qed.
#[local] Instance Looks_lazy_state v lazy : U (lazy_state_of v lazy).
Proof. unfold lazy_state_of. reads. Qed.
#[local] Instance Looks_trailing steps v lazy : U (mark_trailing_lazy steps v lazy).
Proof. unfold mark_trailing_lazy. reads. Qed.
#[local] Instance Looks_links n how th fr lazy v steps segs s : U (walk_links nested_resolver (chain_step n how) th fr lazy v steps segs s).
Proof. revert v steps s. induction segs as [|seg segs IH]; intros; cbn [walk_links]; reads. Qed.
#[local] Instance Looks_walk_from n how th fr segs seg lazy s : U (walk_from nested_resolver (chain_step n how) th fr segs seg lazy s).
Proof. unfold walk_from. reads. Qed.
#[local] Instance Looks_walk th fr e n how lazy : U (walk_expression_chain th fr e n how lazy).
Proof.
  assert (U (walk_noted th fr e n how lazy [])) as K by (unfold walk_noted; reads).
  intros w. unfold walk_expression_chain. specialize (K w). by destruct (walk_noted _ _ _ _ _ _ _ w) as [[[[? ?]|?] ?] ?].
Qed.

(** Whatever the debuggee answers, [debug.evaluate] and [debug.evaluate_chain] stop and start no thread,
    write, force, pop and redefine nothing, and change of the session the connection alone. *)
Theorem evaluations_only_look (a : EvaluateArgs) (c : EvaluateChainArgs) (h : Host) :
  views true h (snd (handle_evaluate a h)) /\ views true h (snd (handle_evaluate_chain c h)).
Proof.
  split.
  - unfold handle_evaluate. destruct (split_charset _) as [[e b]|]; [|apply views_ret]. unfold mbind at 1, h_bind at 1, session.
    destruct (lazy_policy _ _); [apply views_conn; unfold evaluate_on; apply _|].
    apply views_bind; [apply views_conn, _|intros; apply views_ret].
  - unfold handle_evaluate_chain. destruct (split_charset _) as [[e b]|]; [|apply views_ret]. unfold mbind at 1, h_bind at 1, session.
    apply views_bind; [apply views_conn, _|]. intros frame h1. destruct (lazy_policy _ _); [|apply views_ret].
    apply views_bind; [apply views_conn, _|intros; apply views_ret].
Qed.
End Looks.
