(* ===== verification/Rewinding.v ===== *)
(** * Rewinding a thread and replacing its code ([mcp-server/src/handlers.rs])

    [debug.force_return], [debug.pop_frame] and [debug.reload_class]: the tools that change what a debuggee
    runs, each by one command, with everything that is read and checked before the command is sent. *)

From S2P Require Import Prelude Protocol Types Reader Events Connection Client EventRequest Api TypeGraph StopPoint Suspensions Traces Session Manager.
From S2P Require Import Generics Text Expr Host EventPump Steering Watchdog Control Locate Paths Rearm Reading ReadingFacts TextArrays.
From S2P Require Import Structures StructureFacts Rendering ExprText Resolve ResolveFacts Looking ThreadListing ThreadDump Stacks Writes.

Record PopFrameArgs : Type := { pf_frame : nat; pf_thread_id : option string }.
Record ReloadClassArgs : Type := {
  rl_class_name : string; rl_class_file : option string; rl_class_roots : option (list string); rl_dry_run : bool; rl_thread_id : option string;
}.

Definition no_thread : string := "No thread. Pass thread_id, or hit a breakpoint first.".
(** [signature.rsplit(')').next()]. *)
Definition return_descriptor (signature : string) : string :=
  match rsplit_once (ch ")") (bytes_of_string signature) with Some (_, ret) => string_of_bytes ret | None => signature end.
Definition value_void : Value := {| val_tag := 86; val_data := VVoid |}.

Definition with_redefinitions (f : Redefinitions -> Redefinitions) (s : DebugSession) : DebugSession := {|
  ds_connection := ds_connection s; ds_endpoint := ds_endpoint s; ds_state := ds_state s;
  ds_events := ds_events s; ds_event_listener_task := ds_event_listener_task s;
  ds_last_thread := ds_last_thread s; ds_pending_step := ds_pending_step s;
  ds_suspensions := ds_suspensions s; ds_watchdog_task := ds_watchdog_task s;
  ds_traces := ds_traces s; ds_read_only := ds_read_only s; ds_source_roots := ds_source_roots s;
  ds_class_roots := ds_class_roots s; ds_trace_exprs := ds_trace_exprs s;
  ds_step_exclude_classes := ds_step_exclude_classes s; ds_step_only_classes := ds_step_only_classes s;
  ds_redefinitions := f (ds_redefinitions s); ds_pattern_sets := ds_pattern_sets s;
  ds_launched := ds_launched s; ds_monitor_clock := ds_monitor_clock s
|}.

(** ** What is said of a reload *)

Definition check_class_file_bytes (path : string) (content : bytes) : result string unit :=
  if bool_decide (take 4 content = [0xCA; 0xFE; 0xBA; 0xBE]) then Ok tt
  else Err (path +s+ " does not start with the class-file magic 0xCAFEBABE (" +s+ pretty (zlen content) +s+
            " bytes read), so it is not a compiled class. Nothing was sent to the JVM. A path that resolved to a source file, a jar, or a zero-length file left by a failed build all land here.").

Definition redefine_advice (code : Z) : string :=
  match code with
  | 60 => "the bytes are not a class file this JVM can parse. Recompile and check the path resolved to the class you meant."
  | 62 => "the class file parses but the JVM's verifier rejected it. This is usually a build problem rather than an edit the JVM disallows — a class compiled against a different version of something it calls. Rebuild the whole module, not just this file."
  | 63 => "you ADDED a method. HotSpot permits method BODY changes only. Note that a new lambda, an anonymous class body or a new switch arm can add a synthetic method without looking like a new method in the source. This needs a real redeploy."
  | 64 => "you added or removed a FIELD (a schema change). HotSpot permits method body changes only, and it cannot re-shape objects that already exist. This needs a real redeploy."
  | 65 => "the JVM refused the redefinition in its current state (INVALID_TYPESTATE) — this is what it answers when the change cannot be applied to instances that already exist. Treat it as needing a redeploy."
  | 66 => "you changed the class HIERARCHY — a different superclass or a different interface list. HotSpot permits method body changes only. This needs a real redeploy."
  | 67 => "you REMOVED a method. HotSpot permits method body changes only. This needs a real redeploy."
  | 68 => "the class file's version is one this JVM cannot read: it was compiled by a newer JDK than the one running. Compile with the target JVM's --release, then try again."
  | 69 => "the class file declares a DIFFERENT class than the one being redefined. The path resolved to the wrong file — check the class root really is where the package tree starts in the build output."
  | 70 => "you changed a CLASS modifier (public/final/abstract). HotSpot permits method body changes only. This needs a real redeploy."
  | 71 => "you changed a METHOD modifier — static, final, synchronized, or an access level. HotSpot permits method BODY changes only, and a modifier is not a body. This needs a real redeploy."
  | 99 => "this JVM does not implement RedefineClasses at all. A redeploy is the only route on this VM."
  | _ => "the JVM refused the redefinition."
  end.
Definition foreseeable (code : Z) : bool := bool_decide (code ∈ [63; 64; 66; 67; 70; 71]).
Definition explain_redefine_failure (class_name path : string) (e : JdwpError) : string :=
  match e with
  | JdwpErrorCode code name =>
    "❌ " +s+ class_name +s+ " was NOT reloaded — the JVM refused the bytes in " +s+ path +s+ ": " +s+ name +s+ " (" +s+ pretty code +s+ ")." +s+ newline +s+
    "   " +s+ redefine_advice code +s+ newline +s+
    "   A redefinition is all-or-nothing, so the JVM is running exactly what it was running before this call." +s+
    (if foreseeable code then
       newline +s+ "   This one was predictable from the class file: debug.check_stale reports which structural refusal a build would hit before anything is sent (DISC-13), and it names every one of them rather than just the first the JVM reached."
     else "")
  | _ => "Failed to reload " +s+ class_name +s+ " from " +s+ path +s+ ": " +s+ display_error e +s+
         ". The JVM applies a redefinition all-or-nothing, so nothing changed."
  end.

Definition describe_live_frames (class_name : string) (thread : option Z) (live : option (list nat)) : string :=
  match thread with
  | None => "   No thread has stopped in this session, so nothing is suspended in the old bytecode. Calls made from now on run the new code." +s+ newline
  | Some tid =>
    match live with
    | None => "   Could not read thread 0x" +s+ show_hex tid +s+ "'s frames — it is running, not suspended. That also means nothing of yours is parked in the old bytecode: calls made from now on run the new code." +s+ newline
    | Some [] => "   Thread 0x" +s+ show_hex tid +s+ " has no frame in " +s+ class_name +s+ ", so nothing is running the old bytecode there. Calls made from now on run the new code." +s+ newline
    | Some ((first :: _) as frames) =>
      "   ⚠ Thread 0x" +s+ show_hex tid +s+ " is INSIDE " +s+ class_name +s+ " right now — frame(s) " +s+
      join ", " (map (fun i => "#" +s+ pretty (Z.of_nat i)) frames) +s+
      ". A frame already on the stack keeps running the bytecode it entered with, so the change you just made is invisible in that frame no matter how many times you inspect it. Re-enter the method to see it: debug.pop_frame {" +s+
      dquote +s+ "frame" +s+ dquote +s+ ":" +s+ pretty (Z.of_nat first) +s+
      "} rewinds the thread to the call site, then debug.continue re-executes the call with the new code." +s+ newline
    end
  end.

Definition armed_label (class_name : string) (sp : StopPoint) : option string :=
  match sp_armed_on sp with
  | OnLine bp =>
    if String.eqb (lb_class_pattern bp) class_name
    then Some (sp_id sp +s+ " (" +s+ lb_class_pattern bp +s+ ":" +s+ pretty (lb_line bp) +s+ ")") else None
  | OnWatchpoint wp =>
    if String.eqb (wp_class_name wp) class_name
    then Some (sp_id sp +s+ " (" +s+ wp_class_name wp +s+ "." +s+ wp_field_name wp +s+ ")") else None
  | OnMethodExit me =>
    if String.eqb (mx_class_pattern me) class_name then Some (sp_id sp +s+ " (method-exit)") else None
  | _ => None
  end.
Definition text_le (a b : string) : Prop := bytes_le (bytes_of_string a) (bytes_of_string b) = true.
#[global] Instance text_le_dec a b : Decision (text_le a b) := decide (bytes_le _ _ = true).
(** Sorted, so the order the stop points are iterated in does not matter. *)
Definition stop_points_on (s : DebugSession) (class_name : string) : list string :=
  merge_sort text_le (omap (fun e => armed_label class_name (snd e)) (map_to_list (ss_stop_points (ds_state s)))).
Definition describe_armed_stop_points (armed : list string) : string :=
  if bool_decide (armed = []) then "" else
  "   ⚠ " +s+ pretty (zlen armed) +s+ " stop point(s) are armed on this class: " +s+ join ", " armed +s+
  ". Their locations were resolved against the bytecode you just replaced, so a line breakpoint may now sit on a different statement. debug.toggle_stop_point (off, then on) re-resolves one by name against the new code." +s+ newline.

Section Rewinding.
Context `{BC : BytesCrate} `{D : Debuggee} `{FT : FloatText} `{PF : Platform} `{CL : Clock}.

(** ** Forcing a return *)

(** The method the thread is in, and the type its descriptor returns. *)
Definition top_method (thread_id : Z) : St (result string MethodInfo) :=
  frames ←? failing "Failed to get frames (is the thread suspended?): " (get_frames thread_id 0 (-1));
  match frames with
  | [] => mret (Err "Thread has no frames (not suspended?)")
  | frame :: _ =>
    methods ←? failing "Failed to get methods: " (get_methods (loc_class_id (fr_location frame)));
    mret match List.find (fun m => mi_method_id m =? loc_method_id (fr_location frame)) methods with
         | Some m => Ok m
         | None => Err "Could not resolve the current method"
         end
  end.
Definition forced_value (method : MethodInfo) (raw : string) : St (result string Value) :=
  let ret_sig := return_descriptor (mi_signature method) in
  let ret_byte := default (ch "V") (head (bytes_of_string ret_sig)) in
  if ret_byte =? ch "V" then mret (Ok value_void)
  else if String.eqb raw "" then
    mret (Err (mi_name method +s+ "() returns " +s+ decode_signature ret_sig +s+
               " — a 'value' is required (int, 123L, 1.5, 2.0f, 'a', true/false, null, or " +s+ dquote +s+ "string" +s+ dquote +s+ ")"))
  else literal_to_value (str_chars raw) ret_byte.

(** ** Popping frames *)

Definition vm_capabilities : St (result string VmCapabilitiesNew) :=
  failing "Failed to ask the JVM what it supports (CapabilitiesNew): " capabilities_new.
Definition popped_method (loc : Location) : St string :=
  if loc_method_id loc =? 0 then mret "<obsolete method — the bytecode this frame entered with has been replaced>"%string
  else info ← stack_frame_info loc false None; mret (fst (fst info)).
(** The class of the frame popped, and the answer. *)
Definition pop_frame_on (thread_id : Z) (index : nat) : St (result string (string * string)) :=
  let nth := pretty (Z.of_nat index) in
  let thread := "0x" +s+ show_hex thread_id in
  caps ←? vm_capabilities;
  if negb (can_pop_frames caps) then
    mret (Err "This JVM cannot pop frames: it reports canPopFrames=false. Nothing was sent. After a debug.reload_class the running frames will keep the old bytecode until they return normally and the method is called again.")
  else
    frames ←? failing "Failed to get frames (is the thread suspended?): " (get_frames thread_id 0 (-1));
    match frames !! index with
    | None =>
      mret (Err ("Thread " +s+ thread +s+ " has " +s+ pretty (zlen frames) +s+ " frame(s), so there is no frame #" +s+ nth +s+
                 ". debug.get_stack numbers them from 0 (innermost)."))
    | Some frame =>
      if (length frames <=? index + 1)%nat then
        mret (Err ("Frame #" +s+ nth +s+ " is the outermost frame of thread " +s+ thread +s+
                   " — popping it would leave the thread with nowhere to return to, and JDWP refuses (NO_MORE_FRAMES). Pop an inner frame."))
      else
        '(class, _) ← resolve_class_name (loc_class_id (fr_location frame)) no_caches;
        method ← popped_method (fr_location frame);
        let site := class +s+ "." +s+ method in
        _ ←? failing_in ("PopFrames failed on frame #" +s+ nth +s+ " (" +s+ site +s+ ") of thread " +s+ thread +s+ ": ")
               (newline +s+ "   OPAQUE_FRAME means a native frame is in the way — a native method cannot be popped, and neither can anything below one. THREAD_NOT_SUSPENDED means the thread is running; only a suspended thread can be rewound.")
               (pop_frames thread_id (fr_frame_id frame));
        mret (Ok (class,
          "✅ Popped frame #" +s+ nth +s+ " " +s+ site +s+ (if (index =? 0)%nat then "" else " (and the " +s+ nth +s+ " frame(s) above it)") +s+
          " on thread " +s+ thread +s+
          ". The thread is back at the CALL SITE with its operand stack restored and is still suspended — debug.continue re-executes the call, entering the method with whatever bytecode is loaded now." +s+
          newline +s+ "   Side effects are not rewound: anything that invocation already wrote stays written."))
    end.
Definition handle_pop_frame (a : PopFrameArgs) : H (result string string) :=
  s ← session;
  if ds_read_only s then
    mret (Err (readonly_refusal "pop_frame rewinds a thread to the call site of a method it is running, which changes what the JVM does"))
  else match union (parse_thread_id (pf_thread_id a)) (ds_last_thread s) with
  | None => mret (Err no_thread)
  | Some tid =>
    h_try (conn (pop_frame_on tid (pf_frame a))) (fun '(class, text) =>
    _ ← on_session (with_redefinitions (note_pop class)); mret (Ok text))
  end.

(** ** Reloading a class *)

(** The first candidate that is loaded: its first copy, or the one of the loader asked for. *)
Fixpoint loaded_for_read (class_name : string) (want_loader : option Z) (candidates : list string) : St (result string (option (Z * option string))) :=
  match candidates with
  | [] => mret (Ok None)
  | sig :: candidates =>
    found ←? failing ("Failed to resolve " +s+ class_name +s+ ": ") (classes_by_signature sig);
    match map ci_type_id found with
    | [] => loaded_for_read class_name want_loader candidates
    | (first_id :: rest_ids) as ids =>
      match want_loader with
      | Some want =>
        labels ← describe_class_loaders ids;
        let needle := "0x" +s+ show_hex want in
        mret match List.find (fun e => contains (bytes_of_string needle) (bytes_of_string (snd e))) (zip ids labels) with
             | Some (id, _) => Ok (Some (id, None))
             | None => Err (class_name +s+ " is loaded " +s+ pretty (zlen ids) +s+ " time(s), but none by classloader " +s+ needle +s+
                            ". Loaded by: " +s+ join "; " labels +s+ ". Loader ids are weak references and change across a redeploy — re-read the list.")
             end
      | None =>
        if bool_decide (rest_ids = []) then mret (Ok (Some (first_id, None))) else
        labels ← describe_class_loaders ids;
        mret (Ok (Some (first_id, Some (
          newline +s+ "⚠️  " +s+ class_name +s+ " is loaded by " +s+ pretty (zlen ids) +s+ " classloaders and this call used the first (" +s+ default "#0" (head labels) +s+
          "). Each copy is a different type with its own statics — on WildFly a library packed into more than one deployment's WEB-INF/lib genuinely holds different values per war, so this may not be the copy you meant. Loaded by: " +s+
          join "; " labels +s+ ". Target a specific one with " +s+ class_name +s+ "@<the 0x… you want>."))))
      end
    end
  end.
Definition resolve_loaded_class_for_read (class_name : string) : St (result string (Z * option string)) :=
  let '(class_name, want_loader) := split_loader_selector class_name in
  found ←? loaded_for_read class_name want_loader (descriptor_candidates class_name);
  let simple := match rsplit_once (ch ".") (bytes_of_string class_name) with Some (_, s) => string_of_bytes s | None => class_name end in
  mret match found with
       | Some found => Ok found
       | None => Err (class_name +s+ " is not loaded in the debuggee. Either the name is wrong, or the JVM has not loaded it yet — classes load on first use, so an untouched code path has none of its classes present. To tell those apart: debug.list_classes with filter " +s+
                      dquote +s+ "*." +s+ simple +s+ dquote +s+ ".")
       end.
Definition live_frames_of (thread : option Z) (type_id : Z) : St (option (list nat)) :=
  match thread with
  | None => mret None
  | Some tid =>
    frames ← st_ok (get_frames tid 0 (-1));
    mret (omap id ∘ imap (fun i f => if loc_class_id (fr_location f) =? type_id then Some i else None) <$> frames)
  end.
(** What the reload reads of the debuggee before it looks for the file. *)
Definition reloadable (class_name : string) : St (result string (Z * option string * VmCapabilitiesNew)) :=
  found ←? resolve_loaded_class_for_read class_name;
  caps ←? vm_capabilities;
  mret (if can_redefine_classes caps then Ok (found, caps)
        else Err ("This JVM cannot HotSwap: it reports canRedefineClasses=false, so VirtualMachine.RedefineClasses would answer NOT_IMPLEMENTED and " +s+
                  class_name +s+ " would be unchanged. Nothing was sent. A redeploy is the only route on this VM.")).
(** The file to ship, and what is in it. *)
Definition file_to_ship (class_name : string) (class_file : option string) (roots : list string) : result string (string * bytes) :=
  match resolve_class_file class_name class_file roots with
  | Err e => Err e
  | Ok path =>
    match read_file path with
    | Err e => Err ("Found " +s+ path +s+ " but could not read it: " +s+ e)
    | Ok content => match check_class_file_bytes path content with Ok _ => Ok (path, content) | Err e => Err e end
    end
  end.
Definition dry_run_reply (class_name path : string) (type_id : Z) (content : bytes) (caps : VmCapabilitiesNew) : string :=
  let flag (b : bool) := (if b then "true" else "false")%string in
  "🧪 Dry run — nothing was sent to the JVM." +s+ newline +s+ "   Class: " +s+ class_name +s+ " (loaded, type id 0x" +s+ show_hex type_id +s+ ")" +s+ newline +s+
  "   Would ship: " +s+ path +s+ " (" +s+ pretty (zlen content) +s+ " bytes)" +s+ newline +s+
  "   This JVM can HotSwap (canRedefineClasses=true, canPopFrames=" +s+ flag (can_pop_frames caps) +s+ ", canAddMethod=" +s+ flag (can_add_method caps) +s+
  "). HotSpot accepts METHOD BODY changes only. This check does not compare shapes: debug.check_stale reports, before any attempt, which structural refusal this build would hit (DISC-13) — and the JVM is still the one that decides, since a verifier rejection or INVALID_TYPESTATE is not visible to either check.".
Definition ship (class_name path : string) (type_id : Z) (content : bytes) : St (result string unit) :=
  r ← attempt (redefine_classes [(type_id, content)]); mret (map_err (explain_redefine_failure class_name path) r).
(** What follows a swap: it is noted, and reported. *)
Definition report_reload (a : ReloadClassArgs) (class_name path : string) (type_id : Z) (content : bytes) (loader_note : option string) : H string :=
  at_ ← now;
  _ ← on_session (with_redefinitions (note_swap class_name at_));
  s ← session;
  let thread := union (parse_thread_id (rl_thread_id a)) (ds_last_thread s) in
  live ← conn (live_frames_of thread type_id);
  s ← session;
  mret ("✅ Reloaded " +s+ class_name +s+ " — " +s+ pretty (zlen content) +s+ " bytes from " +s+ path +s+
        " are now the running bytecode. No redeploy, no restart, warm state intact." +s+ newline +s+
        describe_live_frames class_name thread live +s+ describe_armed_stop_points (stop_points_on s class_name) +s+ default "" loader_note).
Definition handle_reload_class (a : ReloadClassArgs) : H (result string string) :=
  let class_name := trimmed (rl_class_name a) in
  if String.eqb class_name "" then mret (Err "class_name is required (e.g. com.example.OrderService)") else
  s ← session;
  if ds_read_only s && negb (rl_dry_run a) then
    mret (Err (readonly_refusal "reload_class installs new bytecode in the running JVM — on a shared instance that is an unannounced deploy, not a debugger read. dry_run:true still works and ships nothing"))
  else
  h_try (conn (reloadable class_name)) (fun '((type_id, loader_note), caps) =>
  h_try (mret (file_to_ship class_name (rl_class_file a) (default (ds_class_roots s) (rl_class_roots a)))) (fun '(path, content) =>
  if rl_dry_run a then mret (Ok (dry_run_reply class_name path type_id content caps)) else
  h_try (conn (ship class_name path type_id content)) (fun _ =>
  text ← report_reload a class_name path type_id content loader_note; mret (Ok text)))).
End Rewinding.

(** * One command, or none *)

(** The commands that make a thread return, take frames off it, or replace code. *)
Definition rewinds (p : CommandPacket) : bool :=
  bool_decide ((cp_command_set p, cp_command p) ∈
    [(command_sets.THREAD_REFERENCE, thread_commands.FORCE_EARLY_RETURN); (command_sets.STACK_FRAME, stack_frame_commands.POP_FRAMES);
     (command_sets.VIRTUAL_MACHINE, vm_commands.REDEFINE_CLASSES)]).
(** Those a log offered, with their bodies. *)
Definition rewound (log : list WireEvent) : list (Z * Z * bytes) :=
  map (fun p => (cp_command_set p, cp_command p, cp_data p)) (base.filter (fun p => rewinds p = true) (attempts log)).

Lemma rewound_app l k : rewound (l ++ k) = rewound l ++ rewound k.
Proof. unfold rewound, attempts. by rewrite omap_app, list.filter_app, map_app. Qed.
Lemma looking_rewinds_not b p : inspects b p -> rewinds p = false.
Proof.
  unfold inspects, harmless, packet_mutates, invokes, rewinds. intros [_ H]. apply bool_decide_eq_false. intros K.
  repeat (apply elem_of_cons in K as [K|K]; [injection K as K1 K2; destruct H as [H|[_ H]]; rewrite K1, K2 in H; by vm_compute in H|]). by apply elem_of_nil in K.
Qed.
Lemma looks_rewound b new : Forall (inspects b) (attempts new) -> rewound new = [].
Proof.
  intros F. unfold rewound. induction F as [|p l Hp _ IH]; [done|]. rewrite filter_cons_False; [done|]. by rewrite (looking_rewinds_not _ _ Hp).
Qed.

Section Acts.
Context `{BC : BytesCrate} `{D : Debuggee} `{FT : FloatText} `{PF : Platform}.
#[local] Notation U := (Respects (looks true)).

(** Beside looks only the commands [Q] allows for the answer are sent. *)
Definition acts {A} (Q : A -> list (Z * Z * bytes) -> Prop) (m : St A) : Prop := forall w, exists new,
  w_log (snd (m w)) = w_log w ++ new /\ Forall (fun p => inspects true p \/ rewinds p = true) (attempts new) /\ Q (fst (m w)) (rewound new).

(** What a computation answers, on some connection. *)
Definition answers {A} (m : St A) (a : A) : Prop := exists w, fst (m w) = a.


(** A guarded call offers its one packet, or on a read-only connection nothing. *)
Definition offers {A} (set command : Z) (body : bytes) (m : M A) : Prop := forall w, exists new,
  w_log (snd (m w)) = w_log w ++ new /\
  ((is_ok (fst (m w)) = false /\ attempts new = []) \/ exists p, attempts new = [p] /\ cp_command_set p = set /\ cp_command p = command /\ cp_data p = body).
Lemma offers_guarded {A} what set command body (k : ReplyPacket -> M A) : (forall reply w, w_log (snd (k reply w)) = w_log w) ->
  offers set command body (_ ← guard_mutation what; reply ← exchange (request set command body); k reply).
Proof.
  intros Hk w. unfold guard_mutation, exchange, mbind, m_bind, lift, is_read_only, gets, of_result, request, mbind, st_bind, next_id, mret, st_ret, m_ret.
  destruct (w_read_only w); [exists []; rewrite app_nil_r; split; [done|by left]|].
  match goal with |- context [send_command ?p ?w1] => destruct (send_command_one p w1) as [(new & HL & HA) _]; exists new;
    destruct (send_command p w1) as [[r|e] w2] end; rewrite ?Hk; (split; [done|]); right; eexists; (split; [exact HA|done]).
Qed.

Lemma acts_offer {A B C} Q set command body (m : M A) (f : JdwpResult A -> result string B) (k : B -> St (result string C)) :
  offers set command body m -> (forall id, rewinds (new_command id set command) = true) ->
  (forall e, exists e', f (Err e) = Err e') -> (forall e, Q (Err e) []) -> (forall e, Q (Err e) [(set, command, body)]) ->
  (forall b, U (k b)) -> (forall b w, Q (fst (k b w)) [(set, command, body)]) -> acts Q (st_try (r ← attempt m; mret (f r)) k).
Proof.
  intros Ho Hr Hf He0 He1 Hk HQ w. unfold st_try, attempt, mbind, st_bind, mret, st_ret. destruct (Ho w) as (n1 & L1 & Hn). destruct (m w) as [r w1]. simpl in *.
  assert (forall p, cp_command_set p = set -> cp_command p = command -> rewinds p = true) as Hp by
    (intros p <- <-; exact (Hr 0)).
  destruct Hn as [[Hno Ha]|(p & Ha & Hs & Hc & Hb)].
  - destruct r as [a|e]; [done|]. destruct (Hf e) as [e' ->]. exists n1. unfold rewound. rewrite Ha. split_and!; [done|constructor|apply He0].
  - assert (rewound n1 = [(set, command, body)]) as R1 by (unfold rewound; rewrite Ha, filter_cons_True by (by apply Hp); cbn; by rewrite Hs, Hc, Hb).
    assert (Forall (fun p => inspects true p \/ rewinds p = true) (attempts n1)) as F1 by (rewrite Ha; apply list.Forall_singleton; right; by apply Hp).
    destruct (f r) as [b|e]; [|exists n1; rewrite R1; split_and!; [done|done|apply He1]].
    destruct (Hk b w1) as (n2 & L2 & F2 & _). specialize (HQ b w1). destruct (k b w1) as [c w2]. simpl in *. exists (n1 ++ n2).
    rewrite L2, L1, <- (assoc_L (++)), rewound_app, R1, (looks_rewound _ _ F2). split; [done|]. split; [|done]. unfold attempts in *.
    rewrite omap_app. apply list.Forall_app. split; [done|]. eapply list.Forall_impl; [exact F2|by left].
Qed.

#[local] Instance Looks_top_method t : U (top_method t).
Proof. unfold top_method. reads. Qed.
#[local] Instance Looks_literal_to_value s b : U (literal_to_value s b).
Proof. unfold literal_to_value. reads. Qed.
#[local] Instance Looks_forced m raw : U (forced_value m raw).
Proof. unfold forced_value. reads. Qed.
#[local] Instance Looks_capabilities : U vm_capabilities.
Proof. unfold vm_capabilities. reads. Qed.
#[local] Instance Looks_popped_method loc : U (popped_method loc).
Proof. unfold popped_method. reads. Qed.


End Acts.


(** ** Reloading *)

Section Reload.
Context `{BC : BytesCrate} `{D : Debuggee} `{PF : Platform}.
#[local] Notation U := (Respects (looks true)).

#[local] Instance Looks_loaded_for_read n l cs : U (loaded_for_read n l cs).
Proof. induction cs as [|c cs IH]; cbn [loaded_for_read]; reads. Qed.
#[local] Instance Looks_for_read n : U (resolve_loaded_class_for_read n).
Proof. unfold resolve_loaded_class_for_read. destruct (split_loader_selector n). reads. Qed.
#[export] Instance Looks_reloadable n : U (reloadable n).
Proof. unfold reloadable, vm_capabilities. reads. Qed.
#[export] Instance Looks_live_frames t c : U (live_frames_of t c).
Proof. unfold live_frames_of. reads. Qed.

Definition redefinition (id : Z) (content : bytes) : Z * Z * bytes :=
  (command_sets.VIRTUAL_MACHINE, vm_commands.REDEFINE_CLASSES, put_len [(id, content)] ++ concat (map put_class_bytes [(id, content)])).
Lemma acts_ship n path id content :
  acts (fun r sent => sent = [redefinition id content] \/ sent = [] /\ is_ok r = false) (ship n path id content).
Proof.
  intros w. epose proof (acts_offer (fun (r : result string unit) sent => sent = [redefinition id content] \/ sent = [] /\ is_ok r = false)
    _ _ _ (redefine_classes [(id, content)]) (map_err (explain_redefine_failure n path)) (fun b => mret (Ok b))) as K.
  specialize (K ltac:(apply offers_guarded; intros; by destruct (acknowledge _)) ltac:(done) ltac:(by eexists) ltac:(by right) ltac:(by left) ltac:(intros; apply _) ltac:(by left) w).
  revert K. unfold ship, st_try, mbind, st_bind, mret, st_ret. by destruct (attempt _ w) as [[[]|] ?].
Qed.

Lemma reload_reported `{CL : Clock} a n path id content note h : exists text w', looks true (ds_connection (h_session h)) w' /\
  report_reload a n path id content note h = (text, {|
    h_session := with_connection w' (with_redefinitions (note_swap n (instant (h_ticks h))) (h_session h)); h_ticks := S (h_ticks h); h_alerts := h_alerts h |}).
Proof.
  unfold report_reload, mbind, h_bind, now, on_session, session, conn, mret, h_ret. cbn.
  match goal with |- context [live_frames_of ?t ?c ?w] => pose proof (Looks_live_frames t c w) as L; destruct (live_frames_of t c w) as [live w'] end.
  by eexists _, w'.
Qed.
(** The end of the handler: the redefinition, and what follows it. *)
Lemma reload_shipped `{CL : Clock} a n path id content note h :
  let p := h_try (conn (ship n path id content)) (fun _ => text ← report_reload a n path id content note; mret (Ok text)) h in
  let keeps s' ticks := snd p = {| h_session := with_connection (ds_connection (h_session (snd p))) s'; h_ticks := ticks; h_alerts := h_alerts h |} in
  exists new, w_log (ds_connection (h_session (snd p))) = w_log (ds_connection (h_session h)) ++ new /\
    Forall (fun p => inspects true p \/ rewinds p = true) (attempts new) /\
    ((rewound new = [] /\ is_ok (fst p) = false /\ keeps (h_session h) (h_ticks h)) \/
     rewound new = [redefinition id content] /\
     if is_ok (fst p) then keeps (with_redefinitions (note_swap n (instant (h_ticks h))) (h_session h)) (S (h_ticks h)) else keeps (h_session h) (h_ticks h)).
Proof.
  unfold h_try, mbind, h_bind, conn. set (w := ds_connection (h_session h)). destruct (acts_ship n path id content w) as (n1 & L1 & F1 & Q1).
  destruct (ship n path id content w) as [[[]|e] w1]; cbn [fst snd is_ok] in *; [destruct Q1 as [R1|[_ Q1]]; [|done]|exists n1; split; [done|]; split; [done|]; destruct Q1 as [R1|[R1 _]]; [by right|by left]].
  destruct (reload_reported a n path id content note {| h_session := with_connection w1 (h_session h); h_ticks := h_ticks h; h_alerts := h_alerts h |})
    as (text & w2 & (n2 & L2 & F2 & _) & ->). cbn in L2. cbn. exists (n1 ++ n2). rewrite L2, L1, <- (assoc_L (++)), rewound_app, R1, (looks_rewound _ _ F2).
  split; [done|]. split; [|by right]. unfold attempts in *. rewrite omap_app. apply list.Forall_app. split; [done|]. eapply list.Forall_impl; [exact F2|by left].
Qed.
Lemma shipped_is_class n file roots path content : file_to_ship n file roots = Ok (path, content) ->
  resolve_class_file n file roots = Ok path /\ read_file path = Ok content /\ take 4 content = [0xCA; 0xFE; 0xBA; 0xBE].
Proof.
  unfold file_to_ship. destruct (resolve_class_file _ _ _) as [p|]; [|done]. destruct (read_file p) as [c|] eqn:Er; [|done].
  unfold check_class_file_bytes. case_bool_decide; [|done]. by intros [= <- <-].
Qed.
Lemma reloadable_capable n id note caps : answers (reloadable n) (Ok (id, note, caps)) -> can_redefine_classes caps = true.
Proof.
  intros [w H]. revert H. unfold reloadable, st_try, mbind, st_bind, mret, st_ret. destruct (resolve_loaded_class_for_read n w) as [[f|] w1]; [|done].
  destruct (vm_capabilities w1) as [[c|] w2]; [|done]. simpl. destruct (can_redefine_classes c) eqn:E; [|done]. by intros [= _ <-].
Qed.
End Reload.

(** C16. What a reload ships. Without [dry_run] a read-only session refuses [debug.reload_class] and nothing is
    sent. Otherwise, whatever the debuggee answers, it looks and sends at most one redefinition: of the class
    the debuggee says has that name, on a virtual machine that says it can, with the bytes of the file that
    stands for the class (which start as a class file does). A dry run sends none; success is said only when
    the redefinition was sent, and then, and only then, the books note the swap, at the time it was done. *)
Theorem reload_ships_file `{BC : BytesCrate} `{D : Debuggee} `{PF : Platform} `{CL : Clock} (a : ReloadClassArgs) (h : Host) :
  let s := h_session h in
  let name := trimmed (rl_class_name a) in
  let r := fst (handle_reload_class a h) in
  let h' := snd (handle_reload_class a h) in
  let keeps s' ticks := h' = {| h_session := with_connection (ds_connection (h_session h')) s'; h_ticks := ticks; h_alerts := h_alerts h |} in
  if ds_read_only s && negb (rl_dry_run a) then is_ok r = false /\ h' = h
  else exists new, w_log (ds_connection (h_session h')) = w_log (ds_connection s) ++ new /\
    Forall (fun p => inspects true p \/ rewinds p = true) (attempts new) /\
    ((rewound new = [] /\ keeps s (h_ticks h) /\ (is_ok r = true -> rl_dry_run a = true)) \/
     exists id note caps path content, rl_dry_run a = false /\ rewound new = [redefinition id content] /\
       answers (reloadable name) (Ok (id, note, caps)) /\ can_redefine_classes caps = true /\
       resolve_class_file name (rl_class_file a) (default (ds_class_roots s) (rl_class_roots a)) = Ok path /\
       read_file path = Ok content /\ take 4 content = [0xCA; 0xFE; 0xBA; 0xBE] /\
       if is_ok r then keeps (with_redefinitions (note_swap name (instant (h_ticks h))) s) (S (h_ticks h)) else keeps s (h_ticks h)).
Proof.
  cbv zeta. set (name := trimmed (rl_class_name a)). destruct (handle_reload_class a h) as [r h'] eqn:E. cbn [fst snd].
  unfold handle_reload_class in E. fold name in E.
  assert (h = {| h_session := with_connection (ds_connection (h_session h)) (h_session h); h_ticks := h_ticks h; h_alerts := h_alerts h |}) as Eh by by destruct h as [[] ? ?].
  destruct (String.eqb name "").
  { injection E as <- <-. destruct (ds_read_only (h_session h) && negb (rl_dry_run a)); [done|]. exists []. rewrite app_nil_r. split; [done|]. split; [constructor|by left]. }
  unfold mbind at 1, h_bind at 1, session at 1 in E. destruct (ds_read_only (h_session h) && negb (rl_dry_run a)); [by injection E as <- <-|].
  unfold h_try at 1, mbind at 1, h_bind at 1, conn at 1 in E. set (w0 := ds_connection (h_session h)) in *.
  destruct (Looks_reloadable name w0) as (n1 & L1 & F1 & _). pose proof (ex_intro (fun w => fst (reloadable name w) = fst (reloadable name w0)) w0 eq_refl) as Ha.
  destruct (reloadable name w0) as [r1 w1]. simpl in L1, Ha.
  assert (Forall (fun p => inspects true p \/ rewinds p = true) (attempts n1)) as G1 by (eapply list.Forall_impl; [exact F1|by left]).
  pose proof (looks_rewound _ _ F1) as R1. destruct r1 as [[[id note] caps]|e]; [|injection E as <- <-; exists n1; split; [done|]; split; [done|]; by left].
  unfold h_try at 1, mbind at 1, h_bind at 1, mret at 1, h_ret at 1 in E.
  destruct (file_to_ship _ _ _) as [[path content]|e] eqn:Es; [|injection E as <- <-; exists n1; split; [done|]; split; [done|]; by left].
  apply shipped_is_class in Es as (Es1 & Es2 & Es3). destruct (rl_dry_run a); [injection E as <- <-; exists n1; split; [done|]; split; [done|]; by left|].
  match type of E with ?m ?h1 = _ => destruct (reload_shipped a name path id content note h1) as (n2 & L2 & F2 & Q2); rewrite E in L2, Q2 end.
  cbn [fst snd h_session h_ticks h_alerts with_connection session_with ds_connection] in L2, Q2. exists (n1 ++ n2). rewrite (assoc_L (++)), <- L1. split; [done|].
  rewrite rewound_app, R1. split; [unfold attempts in *; rewrite omap_app; by apply list.Forall_app|].
  destruct Q2 as [(R2 & Q2 & K)|[R2 Q2]]; [left|right].
  - split; [done|]. split; [exact K|by rewrite Q2].
  - assert (answers (reloadable name) (Ok (id, note, caps))) as Hn by (destruct Ha as [w Hw]; by exists w).
    exists id, note, caps, path, content. split_and!; try done. by eapply reloadable_capable.
Qed.

(** ** Runs *)

(** Thread 7 is in a method of the class A (5), called from one of the class B (6), called from another of B;
    the methods were replaced while they ran. *)
Definition two_classes (set command : Z) (body : bytes) : JdwpResult (Z * bytes) :=
  let int32 := be_bytes 4 in
  let frame (id class : Z) := be_bytes 8 id ++ [1] ++ be_bytes 8 class ++ be_bytes 8 0 ++ be_bytes 8 0 in
  match set, command with
  | 1, 17 => Ok (0, repeat 1 32)
  | 1, 18 => Ok (0, [])
  | 1, 2 => Ok (0, int32 1 ++ [1] ++ be_bytes 8 5 ++ int32 7)
  | 2, 1 => Ok (0, write_jdwp_string (BC := network_order) (if be_val (take 8 body) =? 5 then "LA;"%string else "LB;"%string))
  | 2, 2 => Ok (0, be_bytes 8 81)
  | 9, 1 => Ok (0, [1] ++ be_bytes 8 8)
  | 11, 6 => Ok (0, int32 3 ++ frame 70 5 ++ frame 71 6 ++ frame 72 6)
  | 16, 4 => Ok (0, [])
  | _, _ => Ok (99, [])
  end.
(** The build holds A alone. *)
Definition built_a : Platform := {|
  is_file p := String.eqb p "/out/A.class"; canonicalize p := Some p; read_file _ := Ok [0xCA; 0xFE; 0xBA; 0xBE; 0; 0]; read_to_string _ := Err "absent"%string;
  grapheme_extended _ := false; unicode_printable _ := true |}.
Definition writable_seed : SessionSeed := {|
  seed_read_only := false; seed_source_roots := []; seed_class_roots := []; seed_trace_exprs := [];
  seed_step_exclude_classes := None; seed_step_only_classes := None
|}.
Definition swapped_host : Host := {|
  h_session := with_redefinitions (note_swap "A" 0) (with_last_thread (Some 7) (new_session world_init "a:1" writable_seed)); h_ticks := 0; h_alerts := [] |}.
Definition pop_of (index : nat) : result string string * Host :=
  handle_pop_frame (BC := network_order) (D := answering two_classes) {| pf_frame := index; pf_thread_id := None |} swapped_host.
Definition reload_of (name : string) : result string string * Host :=
  handle_reload_class (BC := network_order) (D := answering two_classes) (PF := built_a) (CL := {| instant n := Z.of_nat n |})
    {| rl_class_name := name; rl_class_file := None; rl_class_roots := Some ["/out"]%string; rl_dry_run := false; rl_thread_id := None |} swapped_host.
Definition popped_since (h : Host) (class : string) : option bool := rd_popped_since <$> redefined (ds_redefinitions (h_session h)) !! class.

(** Popping the frame of B takes the frame of A above it off the stack too, and the books still say that no
    frame of A was popped. *)
Lemma frames_above_unnoted :
  is_ok (fst (pop_of 0)) = true /\ popped_since (snd (pop_of 0)) "A" = Some true /\
  is_ok (fst (pop_of 1)) = true /\ popped_since (snd (pop_of 1)) "A" = Some false /\ is_ok (fst (pop_of 2)) = false.
Proof. by vm_compute. Qed.

(** The class is reloaded by its name; named with its loader it is found in the debuggee, and the file is
    looked for under the name with the loader in it. *)
Lemma loader_in_file_name :
  let named := "A@0x51"%string in
  is_ok (fst (reload_of "A")) = true /\ popped_since (snd (reload_of "A")) "A" = Some false /\
  fst (reloadable (BC := network_order) (D := answering two_classes) named world_init) =
    fst (reloadable (BC := network_order) (D := answering two_classes) "A" world_init) /\
  is_ok (fst (reload_of named)) = false /\ class_relative_path named = Some "A@0x51.class"%string.
Proof. by vm_compute. Qed.
